(* ===== verification/_CoqProject ===== *)
-Q . S2P
Prelude.v
GoText.v
Identifiers.v
Yaml.v
SessionModel.v
SessionAuthorization.v
SessionProtocol.v
SessionLifecycle.v
SessionLifecycleFacts.v
LiveRunQueue.v
LiveRunQueueFacts.v
LiveRunStore.v
LiveRunStoreFacts.v
LiveRunSessions.v
LiveRunStoreProps.v
Geometry.v
GeometryFacts.v
HostCheck.v
HostCheckFacts.v
PythonClaim.v
PythonClaimFacts.v
PythonVersion.v
PythonReleaseOrder.v
PythonVersionFacts.v
PythonSeriesFacts.v
Canonical.v
CanonicalText.v
CanonicalFacts.v
CanonicalReading.v
ProviderGraph.v
ProviderGraphFacts.v
Contributions.v
ProviderPlan.v
ProviderCycles.v
ProviderPlanFacts.v
ProviderPlanProps.v
ProviderSelection.v
Platform.v
PlatformFacts.v
ProviderPlanner.v
ProviderPlannerFacts.v
ToolRecords.v
ToolRecordsFacts.v
ToolCatalog.v
ToolCatalogFacts.v
ToolCatalogProps.v
ToolVersions.v
PythonRoots.v
PythonRootsFacts.v
AptRequest.v
ToolSupport.v
ToolSupportFacts.v
RecordValidate.v
ToolValidate.v
ToolReleases.v
ToolClaims.v
ToolClaimsFacts.v
ToolSolver.v
ToolSolverFacts.v
ToolRequest.v
ToolRequestFacts.v
ToolRequestProps.v
ToolCandidates.v
ToolCandidatesFacts.v
ToolCandidatesProps.v
ToolVersionsFacts.v
IdentityPolicy.v
IdentityPolicyFacts.v
PolicyDigest.v
ImageIdentity.v
ImageIdentityFacts.v
ExecutionPlan.v
ExecutionPlanFacts.v
ExecutionPlanProps.v
MappingState.v
MappingStore.v
MappingOperations.v
MappingFacts.v
MappingSteps.v
MappingProps.v
