(* ===== verification/Prelude.v ===== *)
(** * Reploy: a verification library for its core logic

    Reploy builds and runs applications in containers.  It resolves a blueprint
    to a plan of provider nodes, checks the identity mapping of the containers
    against the host, queues the runs of a deployment under a lock, and drives an
    interactive session through its life.  This library models the decisions of
    those parts, which are pure Go code around one state each; the processes,
    containers, networks and terminals around them are not modelled.

    ** How to read the models

    - A Go function that returns a value and an error is a function into
      [result], whose errors carry the text that the code formats without the
      interpolated values.  [x ← f; k] is the early return of the code.
    - A method that mutates a structure is a function from the structure to the
      structure, or a computation of a small state monad ([LM] of
      SessionLifecycle.v, [SM] of LiveRunStore.v); a mutex or the operation lock
      makes one call one step.
    - A Go [string] is the list of its bytes ([String.string]); an [int] or a
      [uint32] is a [Z], with the guards and conversions of the code where they
      matter; a map is a [gmap], a set a [gset].  A map iteration whose order is
      visible is a parameter or is sorted before it is used.  [sort.Slice] and
      [slices.SortFunc] are not stable: they are [merge_sort] where the order
      determines the result, and a parameter where it does not.
    - An option marks a Go slice, pointer or interface whose nil the code tests.
    - A definition has the name it has in the source; loops and anonymous parts
      have names of their own.

    ** The parts

    Foundations.
    - Prelude.v (this file): [result] and its equations, checked loops over
      lists, sorted lists, automation.
    - GoText.v: the functions of [strings], [unicode/utf8], [strconv], [path] and
      [regexp] that the code calls.
    - Identifiers.v: endpoint names, runtime identities, digests and safe text
      ([internal/endpointname], [internal/runtimeidentity]).
    - Yaml.v: the nodes of the YAML module, a class of parameters, and how the code
      walks them.

    Controlled sessions ([internal/controlledsession]).  A session is authorised
    once, takes requests over a framed protocol, and ends with one result.
    - SessionModel.v ([model.go]): statuses, results and their validation.
    - SessionAuthorization.v ([authorization.go]), SessionProtocol.v
      ([protocol.go]): the frames of requests, and that writing and reading them
      are inverse.
    - SessionLifecycle.v ([lifecycle.go]): the machine [MachineV1]: [Observe] takes
      what happened outside, [applyRequestV1] what the controller asked.
    - SessionLifecycleFacts.v: the invariant of the reachable machines, the order
      of the shutdown, one cause and one valid result, refused calls change
      nothing, and every session can be brought to its end.

    Live runs ([internal/deploy]).  The runs of a deployment wait in one queue; it
    is kept in a file and changed under the operation lock.
    - LiveRunQueue.v ([live_run_queue.go]) and LiveRunQueueFacts.v: the operations
      on the queue, what a valid queue is, and that every operation keeps it.
    - LiveRunStore.v ([live_run_queue_file.go], [control_lease.go],
      [boot_session.go], [terminal_removal_guard.go], [operation_lock.go]): the
      locked operations on the file, the leases and the gates.
      LiveRunSessions.v, LiveRunStoreFacts.v and LiveRunStoreProps.v: the file
      stays valid whatever fails, recovery removes exactly the abandoned entries
      (while retired, every entry that is not active) and loses no container, and the guard of a terminal removal refuses work.
      The theorems about the store use those about the queue.

    Identity mappings ([internal/identitymapping]).
    - Geometry.v and GeometryFacts.v ([geometry.go]): a mapping means a partial
      injection of identities; validation, canonical form and retention.
    - HostCheck.v and HostCheckFacts.v ([host.go]): the mapping against the
      accounts and delegations of the host, which is a parameter.

    Identity policies ([internal/blueprint], [internal/deploy]).  A blueprint
    declares the users, groups and roles of an application; a build proves that its
    image has them and locks the proof; an execution gets a mapping that covers them.
    - IdentityPolicy.v ([blueprint/identity_policy.go], [linux_capabilities.go]):
      the policy, its reading from YAML, its validation and its canonical value.
      IdentityPolicyFacts.v: what a valid policy is.  PolicyDigest.v: the digest of
      a valid policy exists and determines it.
    - ImageIdentity.v, ImageIdentityFacts.v ([deploy/image_identity_files.go],
      [image_identity_evidence.go], [identity_policy_lock.go]): the account files of
      an image, the evidence that they match a policy, and the lock.
    - ExecutionPlan.v ([deploy/identity_policy_coverage.go],
      [identity_execution_plan.go]): coverage of a policy and the partition of a
      mapping.  ExecutionPlanFacts.v, ExecutionPlanProps.v: subtraction and
      projection of intervals, by the relations they mean; a plan exists
      exactly for justified inputs; it activates what is declared, releases nothing
      and keeps the rest dormant.  They use the theorems on geometries.

    Deployment state ([internal/deploy]).  One file holds what a deployment is: its
    blueprint, its current generation, where it is installed, and the authority over
    its identity mapping.  Operations under the operation lock read it, decide and
    replace it; an observation that is out of date changes nothing.
    - MappingState.v ([state_v1.go], [deployment_state_v1.go],
      [identity_mapping_state.go], [identity_mapping_native_state.go]): the records
      of the file and when they are valid.
    - MappingStore.v ([state_v1_file.go], [identity_mapping_state_file.go]): the
      file with the lock of LiveRunStore.v, and its commits.
    - MappingOperations.v ([identity_mapping_operations.go],
      [identity_mapping_native.go], [identity_mapping_effects.go]): configuration,
      effects, recovery and admission of a mapping, with the host, the build locks
      and the trusted owner of effects as arguments.
    - MappingFacts.v: an abstract machine over the relations that the reserved and
      the accepted geometry mean, and that every update is a step of it; what a valid
      mapping that was admitted records.
      MappingSteps.v: every operation keeps the file valid and refines that machine,
      whatever fails.  MappingProps.v: the theorems, among them that an admission commits
      the plan of the locked policy and is granted once.  They use the theorems on
      execution plans and geometries.

    Providers ([internal/providers], [internal/blueprint]).  The planners of the
    providers propose nodes; a plan connects them, and an order initialises
    suppliers before consumers.
    - Contributions.v ([blueprint/name.go], [ownership.go]) and Platform.v,
      PlatformFacts.v ([blueprint/platform.go]): names, contributions, platforms.
    - ProviderGraph.v, ProviderGraphFacts.v ([graph.go]): the stable order of a
      graph, and that it is the greedy topological order.
    - ProviderPlan.v ([plan.go]): plans, their validation and normalisation;
      ProviderCycles.v the search for cycles, ProviderPlanFacts.v and
      ProviderPlanProps.v what a valid plan is and that it has an order;
      ProviderSelection.v the suppliers selected at run time.
    - ProviderPlanner.v, ProviderPlannerFacts.v ([planner.go], [base.go]): the plan
      built from the resolved components.
    - PythonClaim.v, PythonClaimFacts.v ([python_claim.go]): claims about
      supported interpreters as sets of releases.  PythonVersion.v,
      PythonReleaseOrder.v, PythonVersionFacts.v, PythonSeriesFacts.v
      ([python/version.go]): version specifiers, what a list of them admits, and
      the exact answers about a minor series.

    Portable tools ([internal/toolcatalog], [internal/portabletool]).  A catalog
    holds records of tools and their releases.  Loading checks every record, the
    graph of their references and the graph of every release; a demand selects
    the candidates of a tool; a joint resolution picks one release per requested
    tool, so that what they install does not collide.
    - ToolRecords.v, ToolRecordsFacts.v ([portabletool/records.go],
      [records_decode.go], [records_compare.go]): the records, and the texts they
      are made of: identifiers, decimals, paths, versions as path segments.
      AptRequest.v ([blueprint/apt_request.go]): requests of Debian packages.
    - ToolCatalog.v, ToolCatalogFacts.v, ToolCatalogProps.v ([catalog.go],
      [catalog_validation.go]): placing records, the references of a record, the
      depth bound, reachability, and what the graph check accepts: every
      reference then resolves to a record of a type it permits, and the view of a
      release holds exactly what the release reaches.
    - RecordValidate.v ([portabletool/record_validate.go]), ToolValidate.v
      ([records_validate.go]): the validators of the records.
    - ToolSupport.v, ToolSupportFacts.v ([records_compose.go]), ToolReleases.v
      ([records_graph.go]): support cases, contracts, fixtures and the graph of a
      release; the release index of a tool.
    - PythonRoots.v, PythonRootsFacts.v ([portabletool/python.go]): package roots
      of the Python provider, and what the answer on their compatibility decides.
    - ToolVersions.v, ToolCandidates.v ([candidates.go]): version schemes and
      constraints, the enumeration of releases, and the reduction of a release to
      a candidate.  ToolCandidatesFacts.v and ToolCandidatesProps.v: on a loaded
      catalog selection has only the outcomes of its contract.
      ToolVersionsFacts.v: the enumeration is exact and newest first, a pinned
      revision is unique, and compact demands mean structured ones.
    - ToolClaims.v, ToolClaimsFacts.v ([solver.go]): what providers and candidates
      claim, when claims conflict, and what accepted claims guarantee.
    - ToolRequest.v, ToolRequestFacts.v, ToolRequestProps.v
      ([toolrequest/request.go]): compact and structured requests, their
      normalisation and their merge, which does not depend on their order.
    - ToolSolver.v, ToolSolverFacts.v ([solver.go]): the
      order of the candidates and the backtracking search.  It finds the first
      assignment without a conflict; what the tools of an assignment and the active
      providers claim of one file system overlaps only where it may, and the tools
      agree on every value that they name in one domain.

    Canonical JSON ([internal/canonical]).
    - Canonical.v, CanonicalText.v, CanonicalFacts.v,
      CanonicalReading.v: the encoder over the tree that reflection shows, and
      that the text determines the value, and a digest as far as the hash tells
      the two texts apart.

    ** Bounds and fuel

    Some loops have no structural measure.  [place_nodes] of ProviderGraph.v
    takes as many steps as there are nodes and each places one; [visit] of
    ProviderCycles.v goes at most one level deeper per unmarked node, and its
    [out_of_fuel] is proved never to be returned; [write_all_loop] of
    SessionProtocol.v counts the bytes that are left, and a writer that accepts
    none is an error of the code; [search_loop] of LiveRunStore.v halves an
    interval of a list and starts with the length of the list; [format_digits]
    of GoText.v writes one decimal digit per step and starts with the number of
    bits.  The other scans of GoText.v consume the text.  The walks of
    ToolCatalog.v go down 65 levels: the code refuses a longer chain of references
    before it follows one.  The search of ToolSolver.v is structural in the sets and
    their candidates; its cap is the cap of the code, which also bounds the states it
    visits.  The walks of ExecutionPlan.v over two lists of intervals are structural:
    the index that the code keeps is what is left of a list.
    The upper ends of identity intervals, frame sizes, patch numbers and queue
    capacities are the limits of the code.

    ** Not modelled

    - Command line, terminal user interface, Docker orchestration, the runtime
      probe, acquisition and the content store: input, output and processes.
    - The two writers of the state file besides the modelled ones, the terminal
      removal ([BeginTerminalRemovalV1]) and the recovery of a legacy staging state
      ([commitRecoveredStateV1]); both refuse a state with a retained mapping.
    - Random identities, clocks and SHA-256, which are parameters; file-system
      failures and the codec of the queue file.
    - The versions of SemVer and PEP 440: the class [VersionLibrary], one instance
      per module in [VersionSchemes]; a theorem that needs their order assumes
      [LawfulVersions], a total preorder.  Canonical URLs and image references,
      whose parsers are arguments of the validators, and the quoting of [strconv]
      in the class [ToolPorts].
    - Values that contain themselves, which the encoder refuses and which have no
      tree.
    - The YAML of blueprints, of which tool requests and identity policies are
      modelled, and their inheritance, so that a resolved document and a request
      overlay are parameters of [MappingPorts]; the JSON codec of identity evidence
      and of the state file, whose reader accepts only what its writer writes; the
      geometry that a blueprint resolves to; of the tool catalog the JSON
      of its records and the walk over the embedded files, their authoring and
      composition, the closures of a selection and the snapshot of an operation;
      the evidence of executables and files that providers record: planned for an
      extension. *)

From stdpp Require Export base tactics options list sorting strings gmap.
From Stdlib Require Export ZArith Lia.

#[export] Set Default Proof Using "Type".
#[export] Unset Default Goal Selector.

(** Concatenation of strings reduces on a constructor. *)
#[global] Arguments String.append !_ _ : simpl nomatch.

(** ** Go results

    A Go function that returns [(T, error)] is modelled by a function into
    [result T].  The error is the text the code formats, with the interpolated
    values left out; a sentinel error is the text of its [errors.New]. *)

Inductive result (A : Type) : Type :=
| Ok (value : A)
| Err (message : string).
Arguments Ok {A} _.
Arguments Err {A} _.

#[export] Instance result_ret : MRet result := λ A x, Ok x.
#[export] Instance result_bind : MBind result := λ A B f r,
  match r with Ok x => f x | Err e => Err e end.
#[export] Instance result_fmap : FMap result := λ A B f r,
  match r with Ok x => Ok (f x) | Err e => Err e end.
#[export] Instance result_eq_dec `{EqDecision A} : EqDecision (result A).
Proof. solve_decision. Defined.

(** [if cond { return error }]. *)
Definition reject_if (condition : bool) (message : string) : result unit :=
  if condition then Err message else Ok tt.

(** [if err := f(); err != nil { return fmt.Errorf(message, err) }]. *)
Definition wrap {A} (r : result A) (message : string) : result A :=
  match r with Ok x => Ok x | Err _ => Err message end.

(** Every error with a prefix before its text. *)
Definition prefixed {A} (prefix : string) (r : result A) : result A :=
  match r with Ok x => Ok x | Err e => Err (prefix +:+ e) end.

Definition is_ok {A} (r : result A) : bool :=
  match r with Ok _ => true | Err _ => false end.

Lemma bind_ok {A B} (r : result A) (f : A → result B) (b : B) :
  (r ≫= f) = Ok b ↔ ∃ a, r = Ok a ∧ f a = Ok b.
Proof.
  destruct r as [a|e]; unfold mbind, result_bind.
  - split; [by exists a|]. by intros (a' & [= ->] & ?).
  - split; [done|]. by intros (a' & [=] & ?).
Qed.

Lemma bind_Ok {A B} (f : A → result B) (a : A) : (Ok a ≫= f) = f a.
Proof. done. Qed.

Lemma reject_if_ok c msg u : reject_if c msg = Ok u ↔ c = false.
Proof. by destruct c, u. Qed.

Lemma wrap_ok {A} (r : result A) msg a : wrap r msg = Ok a ↔ r = Ok a.
Proof. by destruct r. Qed.

Lemma reject_if_bind {A} c msg (k : unit → result A) a :
  (reject_if c msg ≫= k) = Ok a ↔ c = false ∧ k tt = Ok a.
Proof. destruct c; (split; [by intros|by intros [??]]). Qed.

Lemma bind_unit {A} (r : result unit) (f : unit → result A) a : (r ≫= f) = Ok a ↔ r = Ok tt ∧ f tt = Ok a.
Proof. destruct r as [[]|]; [rewrite bind_Ok; tauto|by split; [|intros [? _]]]. Qed.

Lemma is_ok_true {A} (r : result A) : is_ok r = true ↔ ∃ a, r = Ok a.
Proof. destruct r; split; try done; [by eexists|by intros [? [=]]]. Qed.

Lemma is_ok_unit (r : result unit) : is_ok r = true ↔ r = Ok tt.
Proof. by destruct r as [[]|]. Qed.

(** ** Boolean conditions

    [go_bool] turns the boolean tests of a Go condition into propositions. *)
Create HintDb go_bool discriminated.
Ltac go_bool :=
  repeat match goal with
  | H : context [negb _ = true] |- _ => rewrite negb_true_iff in H
  | H : context [negb _ = false] |- _ => rewrite negb_false_iff in H
  | H : context [(_ && _) = true] |- _ => rewrite andb_true_iff in H
  | H : context [(_ && _) = false] |- _ => rewrite andb_false_iff in H
  | H : context [(_ || _) = true] |- _ => rewrite orb_true_iff in H
  | H : context [(_ || _) = false] |- _ => rewrite orb_false_iff in H
  | H : context [bool_decide _ = true] |- _ => rewrite bool_decide_eq_true in H
  | H : context [bool_decide _ = false] |- _ => rewrite bool_decide_eq_false in H
  | H : context [(_ <? _)%Z = true] |- _ => rewrite Z.ltb_lt in H
  | H : context [(_ <? _)%Z = false] |- _ => rewrite Z.ltb_ge in H
  | H : context [(_ <=? _)%Z = true] |- _ => rewrite Z.leb_le in H
  | H : context [(_ <=? _)%Z = false] |- _ => rewrite Z.leb_gt in H
  | H : context [(_ =? _)%Z = true] |- _ => rewrite Z.eqb_eq in H
  | H : context [(_ =? _)%Z = false] |- _ => rewrite Z.eqb_neq in H
  | |- context [negb _ = true] => rewrite negb_true_iff
  | |- context [negb _ = false] => rewrite negb_false_iff
  | |- context [(_ && _) = true] => rewrite andb_true_iff
  | |- context [(_ && _) = false] => rewrite andb_false_iff
  | |- context [(_ || _) = true] => rewrite orb_true_iff
  | |- context [(_ || _) = false] => rewrite orb_false_iff
  | |- context [bool_decide _ = true] => rewrite bool_decide_eq_true
  | |- context [bool_decide _ = false] => rewrite bool_decide_eq_false
  | |- context [(_ <? _)%Z = true] => rewrite Z.ltb_lt
  | |- context [(_ <? _)%Z = false] => rewrite Z.ltb_ge
  | |- context [(_ <=? _)%Z = true] => rewrite Z.leb_le
  | |- context [(_ <=? _)%Z = false] => rewrite Z.leb_gt
  | |- context [(_ =? _)%Z = true] => rewrite Z.eqb_eq
  | |- context [(_ =? _)%Z = false] => rewrite Z.eqb_neq
  end.

(** Linear arithmetic with division and remainder by constants. *)
Ltac div_lia := Z.to_euclidean_division_equations; lia.

(** [go_ok] opens hypotheses of the form "this sequence of checks succeeded". *)
Ltac go_ok :=
  repeat match goal with
  | H : (Ok _ ≫= _) = Ok _ |- _ => rewrite bind_Ok in H; cbv beta iota in H
  | H : (reject_if _ _ ≫= _) = Ok _ |- _ =>
      apply reject_if_bind in H; destruct H as [? H]
  | H : (_ ≫= _) = Ok _ |- _ =>
      apply bind_ok in H; let a := fresh "a" in destruct H as (a & ? & H)
  | H : reject_if _ _ = Ok _ |- _ => apply reject_if_ok in H
  | H : wrap _ _ = Ok _ |- _ => apply wrap_ok in H
  | H : Ok _ = Ok _ |- _ => injection H as ?
  | H : Err _ = Ok _ |- _ => discriminate H
  | u : unit |- _ => destruct u
  end; subst.

(** ** Loops that check consecutive elements

    [for index, x := range xs { if index > 0 && bad(xs[index-1], x) ... }]:
    [check] sees the previous element ([None] at index 0) and the current one. *)
Fixpoint check_each {A} (check : option A → A → result unit)
    (previous : option A) (values : list A) : result unit :=
  match values with
  | [] => Ok tt
  | x :: rest => _ ← check previous x; check_each check (Some x) rest
  end.

Section check_each.
Context {A : Type} (check : option A → A → result unit).
Context (P : A → Prop) (R : A → A → Prop).
Hypothesis check_spec : ∀ previous x,
  check previous x = Ok tt ↔ P x ∧ ∀ y, previous = Some y → R y x.

Lemma check_each_spec previous values :
  check_each check previous values = Ok tt ↔
  Forall P values ∧ Sorted R values ∧
  ∀ y x, previous = Some y → head values = Some x → R y x.
Proof using Type*.
  revert previous; induction values as [|x rest IH]; intros previous; simpl.
  { split; [intros _|done]. repeat split; [constructor|constructor|done]. }
  rewrite bind_ok. split.
  - intros ([] & Hx & Hrest). apply check_spec in Hx as [HP HR].
    apply IH in Hrest as (Hall & Hsorted & Hhead).
    split; [by constructor|]. split; [|intros; simplify_eq; eauto].
    constructor; [done|]. destruct rest; constructor. by apply Hhead.
  - intros (Hall & Hsorted & Hhead).
    apply Forall_cons in Hall as [HP Hall].
    apply Sorted_inv in Hsorted as [Hsorted Hhd].
    exists tt. split; [apply check_spec; eauto|].
    apply IH. split; [done|]. split; [done|].
    intros y z ? Hz; simplify_eq. destruct rest; simplify_eq/=.
    by inversion Hhd.
Qed.
End check_each.

Lemma check_all {A} (f : A → result unit) previous l :
  check_each (λ _, f) previous l = Ok tt ↔ Forall (λ x, f x = Ok tt) l.
Proof.
  revert previous. induction l as [|x l IH]; intros previous; simpl; [by split|].
  rewrite bind_ok, Forall_cons. setoid_rewrite IH. split; [by intros ([] & ? & ?)|]. intros [? ?]. by exists tt.
Qed.

(** ** Lists *)

Lemma Sorted_sublist_transitive {A} (R : A → A → Prop) `{!Transitive R} l k :
  sublist l k → Sorted R k → Sorted R l.
Proof.
  intros Hsub Hk. apply StronglySorted_Sorted.
  apply Sorted_StronglySorted in Hk; [|intros ????; by etrans].
  induction Hsub as [|x l k Hsub IH|x l k Hsub IH]; [constructor| |];
    apply StronglySorted_inv in Hk as [Hk Hx].
  - constructor; [by apply IH|].
    rewrite Forall_forall in Hx |- *. intros y Hy. by eapply Hx, elem_of_sublist.
  - by apply IH.
Qed.

(** The first element that satisfies a boolean test. *)
Fixpoint find_first {A} (p : A → bool) (l : list A) : option A :=
  match l with [] => None | x :: l => if p x then Some x else find_first p l end.

Lemma find_first_Some {A} (p : A → bool) l x :
  find_first p l = Some x →
  ∃ l1 l2, l = l1 ++ x :: l2 ∧ p x = true ∧ Forall (λ y, p y = false) l1.
Proof.
  induction l as [|y l IH]; simpl; [done|]. destruct (p y) eqn:Hy.
  - intros [= ->]. by exists [], l.
  - intros (l1 & l2 & -> & ? & ?)%IH. exists (y :: l1), l2.
    split; [done|]. split; [done|]. by constructor.
Qed.

Lemma find_first_None {A} (p : A → bool) l :
  find_first p l = None ↔ Forall (λ y, p y = false) l.
Proof.
  induction l as [|y l IH]; simpl; [by split|].
  rewrite Forall_cons, <-IH. destruct (p y); naive_solver.
Qed.

Lemma Forall_bool {A} (p : A → bool) l : forallb p l = true ↔ Forall (λ x, p x = true) l.
Proof. rewrite forallb_forall, Forall_forall. by setoid_rewrite list_elem_of_In. Qed.

Lemma filter_every {A} (P : A → Prop) `{!∀ x, Decision (P x)} l : Forall P l → filter P l = l.
Proof. induction 1; [done|]. rewrite filter_cons_True by done. by f_equal. Qed.

Lemma filter_none {A} (P : A → Prop) `{!∀ x, Decision (P x)} l :
  Forall (λ x, ¬ P x) l → filter P l = [].
Proof. induction 1; [done|]. by rewrite filter_cons_False. Qed.

Lemma Forall_sublist {A} (P : A → Prop) l k : sublist l k → Forall P k → Forall P l.
Proof. rewrite !Forall_forall. intros Hs Hk x Hx. eapply Hk, elem_of_sublist; eauto. Qed.

Lemma NoDup_sublist {A} (l k : list A) : sublist l k → NoDup k → NoDup l.
Proof.
  induction 1 as [|x l k Hs IH|x l k Hs IH]; [done| |]; intros [Hx Hk]%NoDup_cons; [|by apply IH].
  apply NoDup_cons. split; [|by apply IH]. intros Hl. by eapply Hx, elem_of_sublist.
Qed.

Lemma sublist_map {A B} (f : A → B) l k : sublist l k → sublist (map f l) (map f k).
Proof. induction 1; simpl; by constructor. Qed.

Lemma mapM_ok {A B} (f : A → result B) l l' : mapM f l = Ok l' ↔ Forall2 (λ x y, f x = Ok y) l l'.
Proof.
  revert l'. induction l as [|x l IH]; intros l'; simpl.
  - split; [by intros [= <-]|]. by intros ->%Forall2_nil_inv_l.
  - rewrite bind_ok. setoid_rewrite bind_ok. split.
    + intros (y & Hy & ys & Hys & [= <-]). constructor; [done|by apply IH].
    + intros (y & ys & Hy & Hys & ->)%Forall2_cons_inv_l. exists y. split; [done|]. exists ys. by split; [apply IH|].
Qed.

Lemma StronglySorted_impl {A} (R S : A → A → Prop) l :
  (∀ x y, R x y → S x y) → StronglySorted R l → StronglySorted S l.
Proof.
  intros H. induction 1 as [|x l _ IH Hx]; constructor; [done|]. eapply Forall_impl; [exact Hx|]. auto.
Qed.

Lemma Forall2_right {A B} (R : A → B → Prop) l k y :
  Forall2 R l k → y ∈ k → ∃ x, x ∈ l ∧ R x y.
Proof.
  induction 1 as [|x z l k HR _ IH]; [by intros ?%elem_of_nil|].
  intros [->|Hy]%elem_of_cons; [exists x; split; [by left|done]|].
  destruct (IH Hy) as (w & Hw & ?). exists w. split; [by right|done].
Qed.

Lemma filter_ext_in {A} (P Q : A → Prop) `{!∀ x, Decision (P x)} `{!∀ x, Decision (Q x)} l :
  Forall (λ x, P x ↔ Q x) l → filter P l = filter Q l.
Proof.
  induction 1 as [|x l Hx _ IH]; [done|]. destruct (decide (P x)) as [HP|HP].
  - rewrite !filter_cons_True by tauto. by f_equal.
  - by rewrite !filter_cons_False by tauto.
Qed.

Lemma omap_ext_in {A B} (f g : A → option B) l : Forall (λ x, f x = g x) l → omap f l = omap g l.
Proof. induction 1 as [|x l Hx _ IH]; [done|]. simpl. rewrite Hx. destruct (g x); [f_equal|]; exact IH. Qed.

Lemma sublist_full {A} (l k : list A) : sublist l k → (length k ≤ length l)%nat → l = k.
Proof.
  induction 1 as [|x l k Hs IH|x l k Hs IH]; simpl; intros Hl; [done| |].
  - f_equal. apply IH. lia.
  - apply sublist_length in Hs. lia.
Qed.

(** Sorting the images of a list by an order on what they are images of. *)
Section merge_sort_map.
Context {A B : Type} (f : A → B) (R : relation A) (S : relation B).
Context `{∀ x y, Decision (R x y)} `{∀ x y, Decision (S x y)}.
Hypothesis same_order : ∀ x y, S (f x) (f y) ↔ R x y.

Lemma list_merge_map l k : list_merge S (map f l) (map f k) = map f (list_merge R l k).
Proof using Type*.
  revert k. induction l as [|x l IHl]; intros k; [by destruct k|].
  induction k as [|y k IHk]; [done|]. simpl map. rewrite !list_merge_cons.
  destruct (decide (R x y)) as [HR|HR]; [rewrite decide_True by (by apply same_order)|
    rewrite decide_False by (by rewrite same_order)]; simpl; f_equal; [apply (IHl (y :: k))|apply IHk].
Qed.

Lemma merge_list_to_stack_map st l :
  merge_list_to_stack S (map (option_map (map f)) st) (map f l) =
  map (option_map (map f)) (merge_list_to_stack R st l).
Proof using Type*.
  revert l. induction st as [|[k|] st IH]; intros l; simpl; [done| |done]. by rewrite list_merge_map, IH.
Qed.

Lemma merge_sort_map l : merge_sort S (map f l) = map f (merge_sort R l).
Proof using Type*.
  unfold merge_sort. change [] with (map (option_map (map f)) []) at 1. generalize (@nil (option (list A))) as st.
  induction l as [|x l IH]; intros st; simpl.
  - induction st as [|[k|] st IH]; simpl; [done| |done]. by rewrite IH, list_merge_map.
  - change [f x] with (map f [x]). by rewrite merge_list_to_stack_map, IH.
Qed.
End merge_sort_map.

(** ** Bits *)

(** Bits put below a shifted number are added to it. *)
Lemma lor_shiftl_add a n b : (0 ≤ n → 0 ≤ b < 2 ^ n → Z.lor (Z.shiftl a n) b = a * 2 ^ n + b)%Z.
Proof.
  intros Hn Hb. pose proof (Z.add_lor_land (Z.shiftl a n) b) as Hadd.
  assert (Z.land (Z.shiftl a n) b = 0%Z) as Hland.
  { apply Z.bits_inj'. intros i Hi. rewrite Z.land_spec, Z.bits_0. destruct (decide (i < n)%Z) as [?|Hge].
    - by rewrite Z.shiftl_spec_low.
    - destruct (decide (b = 0%Z)) as [->|]; [by rewrite Z.bits_0, andb_false_r|].
      rewrite (Z.bits_above_log2 b); [by rewrite andb_false_r|lia|].
      apply Z.lt_le_trans with n; [|lia]. apply Z.log2_lt_pow2; [lia|]. apply Hb. }
  rewrite Z.shiftl_mul_pow2 in * by done. lia.
Qed.

(** ** Strictly sorted lists *)

Lemma NoDup_map_inj {A B} (f : A → B) l x y : NoDup (map f l) → x ∈ l → y ∈ l → f x = f y → x = y.
Proof.
  induction l as [|a l IH]; [by intros _ ?%elem_of_nil|]. simpl. intros [Ha Hnd]%NoDup_cons.
  intros [->|Hx]%elem_of_cons [->|Hy]%elem_of_cons Hf; [done| | |by apply IH].
  - destruct Ha. rewrite Hf. by apply list_elem_of_fmap_2.
  - destruct Ha. rewrite <-Hf. by apply list_elem_of_fmap_2.
Qed.

Lemma strict_NoDup {A B} (f : A → B) (R : relation B) `{!StrictOrder R} (l : list A) :
  Sorted (λ a b, R (f a) (f b)) l → NoDup (map f l).
Proof.
  intros Hs. apply Sorted_StronglySorted in Hs; [|intros a b c ? ?; by etrans].
  induction Hs as [|a l _ IH Ha]; [constructor|]. simpl. constructor; [|done]. intros (b & Hb & Hin)%list_elem_of_fmap.
  rewrite Forall_forall in Ha. specialize (Ha b Hin). simpl in Ha. rewrite Hb in Ha. by apply (irreflexivity R) in Ha.
Qed.

Lemma Sorted_weaken {A} (R S : relation A) l : (∀ x y, S x y → R x y) → Sorted S l → Sorted R l.
Proof. intros H. induction 1 as [|a l _ IH Ha]; constructor; [done|]. destruct Ha; constructor; auto. Qed.

(** Sorting finds the strictly sorted arrangement, if there is one. *)
Lemma sort_strict {A} (R S : relation A) `{!∀ x y, Decision (R x y), !Transitive R, !Total R, !Transitive S} l k :
  (∀ x y, S x y → R x y ∧ ¬ R y x) → l ≡ₚ k → Sorted S k → merge_sort R l = k.
Proof.
  intros HS Hp Hk. assert (merge_sort R l ≡ₚ k) as Hm by (etrans; [apply merge_sort_Permutation|done]).
  apply (Sorted_unique_strong R).
  - intros x y Hx Hy Hxy Hyx. rewrite Hm in Hx. clear Hm.
    apply Sorted_StronglySorted in Hk; [|apply _]. clear Hp l. induction Hk as [|a k _ IH Ha]; [by apply elem_of_nil in Hx|].
    rewrite Forall_forall in Ha. apply elem_of_cons in Hx, Hy.
    destruct Hx as [->|Hx], Hy as [->|Hy]; [done|..].
    + by destruct (HS a y (Ha y Hy)) as [_ []].
    + by destruct (HS a x (Ha x Hx)) as [_ []].
    + by apply IH.
  - apply Sorted_merge_sort. apply _.
  - apply (Sorted_weaken R S); [|done]. intros x y Hxy. by apply HS.
  - done.
Qed.
