(* ===== verification/GoText.v ===== *)
(** * Go strings, as far as Reploy uses them

    A Go [string] is a sequence of bytes: a [String.string], whose [ascii]
    characters are the bytes.  This file models the parts of [strings],
    [unicode], [unicode/utf8], [strconv] and [regexp] that the modelled code
    calls.  Rune tables are those of Unicode 15, which Go 1.25 ships. *)

From S2P Require Import Prelude.
From Stdlib Require Import Ascii.

Open Scope Z_scope.

(** ** Bytes *)

Definition code (c : ascii) : Z := Z.of_N (N_of_ascii c).
Definition len (s : string) : Z := Z.of_nat (String.length s).
Definition in_range (lo hi x : Z) : bool := (lo <=? x) && (x <=? hi).

Definition is_digit (c : ascii) : bool := in_range 48 57 (code c).
Definition is_lower (c : ascii) : bool := in_range 97 122 (code c).
Definition is_upper (c : ascii) : bool := in_range 65 90 (code c).
Definition is_lower_hex (c : ascii) : bool := is_digit c || in_range 97 102 (code c).

Fixpoint string_forallb (p : ascii → bool) (s : string) : bool :=
  match s with EmptyString => true | String c s => p c && string_forallb p s end.

(** [left < right] on Go strings: bytewise lexicographic order. *)
Definition string_lt (left right : string) : Prop := String.ltb left right = true.
#[export] Instance string_lt_dec left right : Decision (string_lt left right).
Proof. unfold string_lt. apply _. Defined.
(** [left >= right]. *)
Definition string_geb (left right : string) : bool := negb (String.ltb left right).

Lemma string_compare_refl s : String.compare s s = Eq.
Proof.
  assert (String.compare s s = CompOpp (String.compare s s)) as H
    by apply String.compare_antisym.
  by destruct (String.compare s s).
Qed.

Lemma string_lt_le left right : string_lt left right ↔ String.le left right ∧ left ≠ right.
Proof.
  unfold string_lt, String.le, String.ltb, String.leb.
  destruct (String.compare left right) eqn:E; simpl.
  - apply String.compare_eq_iff in E as ->. naive_solver.
  - split; [|done]. intros _. split; [done|]. intros ->.
    by rewrite string_compare_refl in E.
  - naive_solver.
Qed.

#[export] Instance string_lt_strict : StrictOrder string_lt.
Proof.
  split.
  - intros s [_ Hs]%string_lt_le. done.
  - intros a b c [Hab Nab]%string_lt_le [Hbc Nbc]%string_lt_le.
    apply string_lt_le. split; [by etrans|]. intros ->.
    apply Nab. by apply (anti_symm String.le).
Qed.

Lemma string_lt_total a b : string_lt a b ∨ a = b ∨ string_lt b a.
Proof.
  destruct (decide (a = b)) as [->|Hne]; [by right; left|].
  destruct (total String.le a b); rewrite !string_lt_le; naive_solver.
Qed.

Lemma string_geb_lt left right : string_geb left right = false ↔ string_lt left right.
Proof. unfold string_geb, string_lt. by rewrite negb_false_iff. Qed.

(** ** UTF-8 ([unicode/utf8]) *)

(** One step of [for _, r := range s]: the rune, the bytes it was decoded
    from, and whether they are a valid encoding.  An invalid byte is one
    [RuneError] of width 1. *)
Record rune := Rune { rune_value : Z; rune_bytes : list ascii; rune_valid : bool }.
Definition rune_error (c : ascii) : rune := Rune 65533 [c] false.

(** Size of the sequence a lead byte starts and the accepted range of the
    second byte ([utf8.first] and [utf8.acceptRanges]); [None] when the byte
    starts no sequence. *)
Definition utf8_lead (b : Z) : option (nat * Z * Z) :=
  if b <? 128 then Some (1%nat, 0, 0)
  else if b <? 194 then None
  else if b <? 224 then Some (2%nat, 128, 191)
  else if b =? 224 then Some (3%nat, 160, 191)
  else if b =? 237 then Some (3%nat, 128, 159)
  else if b <? 240 then Some (3%nat, 128, 191)
  else if b =? 240 then Some (4%nat, 144, 191)
  else if b <? 244 then Some (4%nat, 128, 191)
  else if b =? 244 then Some (4%nat, 128, 143)
  else None.

Definition continuation (b : Z) : bool := in_range 128 191 b.

Fixpoint decode_runes (s : list ascii) : list rune :=
  match s with
  | [] => []
  | c0 :: s0 =>
    let b0 := code c0 in
    match utf8_lead b0, s0 with
    | Some (1%nat, _, _), _ => Rune b0 [c0] true :: decode_runes s0
    | Some (2%nat, lo, hi), c1 :: s1 =>
      if in_range lo hi (code c1) then
        Rune (Z.lor (Z.shiftl (Z.land b0 31) 6) (Z.land (code c1) 63)) [c0; c1] true
          :: decode_runes s1
      else rune_error c0 :: decode_runes s0
    | Some (3%nat, lo, hi), c1 :: s1 =>
      match s1 with
      | c2 :: s2 =>
        if in_range lo hi (code c1) && continuation (code c2) then
          Rune (Z.lor (Z.lor (Z.shiftl (Z.land b0 15) 12) (Z.shiftl (Z.land (code c1) 63) 6))
                  (Z.land (code c2) 63)) [c0; c1; c2] true :: decode_runes s2
        else rune_error c0 :: decode_runes s0
      | _ => rune_error c0 :: decode_runes s0
      end
    | Some (4%nat, lo, hi), c1 :: s1 =>
      match s1 with
      | c2 :: c3 :: s3 =>
        if in_range lo hi (code c1) && continuation (code c2) && continuation (code c3) then
          Rune (Z.lor (Z.lor (Z.shiftl (Z.land b0 7) 18) (Z.shiftl (Z.land (code c1) 63) 12))
                  (Z.lor (Z.shiftl (Z.land (code c2) 63) 6) (Z.land (code c3) 63)))
            [c0; c1; c2; c3] true :: decode_runes s3
        else rune_error c0 :: decode_runes s0
      | _ => rune_error c0 :: decode_runes s0
      end
    | _, _ => rune_error c0 :: decode_runes s0
    end
  end.

Definition runes (s : string) : list rune := decode_runes (String.list_ascii_of_string s).
Definition encode_runes (rs : list rune) : string :=
  String.string_of_list_ascii (concat (map rune_bytes rs)).
(** [utf8.ValidString]. *)
Definition valid_utf8 (s : string) : bool := forallb rune_valid (runes s).

(** ** [unicode] *)

Definition in_ranges (table : list (Z * Z)) (x : Z) : bool :=
  existsb (λ '(lo, hi), in_range lo hi x) table.

(** [unicode.IsSpace]. *)
Definition is_space (r : Z) : bool :=
  in_ranges [(9,13); (32,32); (133,133); (160,160); (5760,5760); (8192,8202);
             (8232,8233); (8239,8239); (8287,8287); (12288,12288)] r.
(** [unicode.IsControl]: category Cc. *)
Definition is_control (r : Z) : bool := in_ranges [(0,31); (127,159)] r.
(** [unicode.In(r, unicode.Cf)]. *)
Definition is_format (r : Z) : bool :=
  in_ranges [(173,173); (1536,1541); (1564,1564); (1757,1757); (1807,1807); (2192,2193);
             (2274,2274); (6158,6158); (8203,8207); (8234,8238); (8288,8292); (8294,8303);
             (65279,65279); (65529,65531); (69821,69821); (69837,69837); (78896,78911);
             (113824,113827); (119155,119162); (917505,917505); (917536,917631)] r.

(** ** [strings] *)

Definition drop_spaces (rs : list rune) : list rune :=
  (fix go rs := match rs with
   | [] => []
   | r :: rest => if is_space (rune_value r) then go rest else rs
   end) rs.

(** [strings.TrimSpace]. *)
Definition trim_space (s : string) : string :=
  encode_runes (rev (drop_spaces (rev (drop_spaces (runes s))))).

Definition has_prefix (s prefix : string) : bool := String.prefix prefix s.

(** [strings.CutPrefix]. *)
Fixpoint cut_prefix (s prefix : string) : option string :=
  match prefix, s with
  | EmptyString, _ => Some s
  | String p ps, String c cs => if bool_decide (p = c) then cut_prefix cs ps else None
  | _, _ => None
  end.

Definition reverse (s : string) : string :=
  String.string_of_list_ascii (rev (String.list_ascii_of_string s)).
Definition has_suffix (s suffix : string) : bool := has_prefix (reverse s) (reverse suffix).
(** [strings.TrimSuffix]. *)
Definition trim_suffix (s suffix : string) : string :=
  match cut_prefix (reverse s) (reverse suffix) with Some r => reverse r | None => s end.

(** [strings.Cut] with a one-byte separator: text before and after the first
    occurrence, [None] when there is none. *)
Fixpoint cut_byte (s : string) (sep : ascii) : option (string * string) :=
  match s with
  | EmptyString => None
  | String c rest =>
    if bool_decide (c = sep) then Some (EmptyString, rest)
    else match cut_byte rest sep with
         | Some (before, after) => Some (String c before, after)
         | None => None
         end
  end.

(** [strings.Split] with a one-byte separator: never the empty list. *)
Fixpoint split_byte (s : string) (sep : ascii) : list string :=
  match s with
  | EmptyString => [EmptyString]
  | String c rest =>
    if bool_decide (c = sep) then EmptyString :: split_byte rest sep
    else match split_byte rest sep with
         | first :: others => String c first :: others
         | [] => [String c EmptyString]
         end
  end.

(** [strings.Join]. *)
Fixpoint join (parts : list string) (sep : string) : string :=
  match parts with
  | [] => ""
  | [last] => last
  | first :: rest => first +:+ sep +:+ join rest sep
  end.

Fixpoint contains_byte (s : string) (b : ascii) : bool :=
  match s with EmptyString => false | String c s => bool_decide (c = b) || contains_byte s b end.
(** [strings.ContainsAny] with an ASCII set of characters. *)
Definition contains_any (s chars : string) : bool :=
  negb (string_forallb (λ c, negb (contains_byte chars c)) s).

(** [strings.TrimLeft], [strings.TrimRight] and [strings.Trim] with an ASCII set
    of characters. *)
Fixpoint trim_left (s chars : string) : string :=
  match s with
  | EmptyString => EmptyString
  | String c rest => if contains_byte chars c then trim_left rest chars else s
  end.
Definition trim_right (s chars : string) : string := reverse (trim_left (reverse s) chars).
Definition trim (s chars : string) : string := trim_right (trim_left s chars) chars.

(** The text before the first character of an ASCII set ([strings.IndexAny]) and
    the text from it on. *)
Fixpoint split_any (s chars : string) : string * string :=
  match s with
  | EmptyString => (EmptyString, EmptyString)
  | String c rest =>
    if contains_byte chars c then (EmptyString, s)
    else let (before, after) := split_any rest chars in (String c before, after)
  end.

(** [slices.IsSorted] of strings. *)
Fixpoint is_sorted (values : list string) : bool :=
  match values with
  | first :: (second :: _) as rest => negb (String.ltb second first) && is_sorted rest
  | _ => true
  end.

(** [strings.Fields]: the maximal runs of non-space runes. *)
Fixpoint fields_from (current : list rune) (rs : list rune) : list string :=
  match rs with
  | [] => if bool_decide (length current = 0%nat) then [] else [encode_runes (rev current)]
  | r :: rest =>
    if is_space (rune_value r) then
      if bool_decide (length current = 0%nat) then fields_from [] rest
      else encode_runes (rev current) :: fields_from [] rest
    else fields_from (r :: current) rest
  end.
Definition fields (s : string) : list string := fields_from [] (runes s).

(** [strings.ToLower], up to the runes whose lower case is not ASCII: those are
    left as they are, so comparing the result with an ASCII text gives what
    the Go call gives (U+0130 and U+212A are the only non-ASCII runes with an
    ASCII lower case). *)
Definition lower_rune (r : rune) : rune :=
  if in_range 65 90 (rune_value r) then
    Rune (rune_value r + 32) [ascii_of_N (Z.to_N (rune_value r + 32))] true
  else if rune_value r =? 304 then Rune 105 ["i"%char] true
  else if rune_value r =? 8490 then Rune 107 ["k"%char] true
  else r.
Definition to_lower (s : string) : string := encode_runes (map lower_rune (runes s)).

(** ** [strconv] *)

Definition digit_value (c : ascii) : Z := code c - 48.
Definition digit_char (d : Z) : ascii := ascii_of_N (Z.to_N (48 + d)).

Fixpoint parse_digits (acc : Z) (s : string) : option Z :=
  match s with
  | EmptyString => Some acc
  | String c rest =>
    if is_digit c then parse_digits (acc * 10 + digit_value c) rest else None
  end.

(** [strconv.ParseUint(s, 10, bits)]: [None] stands for any error. *)
Definition parse_uint (s : string) (bits : Z) : option Z :=
  match s with
  | EmptyString => None
  | _ => match parse_digits 0 s with
         | Some n => if n <? 2 ^ bits then Some n else None
         | None => None
         end
  end.

(** The number that [strconv.ParseUint(s, 10, bits)] returns beside its error: zero
    when it meets a byte that is no digit, the greatest number as soon as the
    digits so far exceed it. *)
Fixpoint uint_digits (greatest acc : Z) (s : string) : Z :=
  match s with
  | EmptyString => acc
  | String c rest =>
    if is_digit c then
      let n := acc * 10 + digit_value c in
      if greatest <? n then greatest else uint_digits greatest n rest
    else 0
  end.
Definition uint_value (s : string) (bits : Z) : Z := uint_digits (2 ^ bits - 1) 0 s.

(** [strconv.Atoi] on a 64-bit platform. *)
Definition atoi (s : string) : option Z :=
  let unsigned (rest : string) :=
    match rest with EmptyString => None | _ => parse_digits 0 rest end in
  match s with
  | String "-"%char rest =>
    match unsigned rest with
    | Some n => if n <=? 2 ^ 63 then Some (- n) else None
    | None => None
    end
  | String "+"%char rest =>
    match unsigned rest with
    | Some n => if n <? 2 ^ 63 then Some n else None
    | None => None
    end
  | _ =>
    match unsigned s with
    | Some n => if n <? 2 ^ 63 then Some n else None
    | None => None
    end
  end.

Fixpoint format_digits (fuel : nat) (n : Z) (acc : string) : string :=
  match fuel with
  | O => acc
  | S fuel =>
    let acc := String (digit_char (n mod 10)) acc in
    if n <? 10 then acc else format_digits fuel (n / 10) acc
  end.
(** [strconv.FormatUint(n, 10)] and [strconv.Itoa] of a nonnegative number. *)
Definition format_uint (n : Z) : string := format_digits (S (Z.to_nat (Z.log2 n))) n "".

(** ** [regexp]

    Anchored patterns only; every pattern of the modelled code has ASCII
    classes, so matching bytes is matching runes. *)

Inductive regex :=
| Nothing
| Nil
| Class (accepts : ascii → bool)
| Seq (first second : regex)
| Alt (left right : regex)
| Star (body : regex).

Definition seq_re (r1 r2 : regex) : regex :=
  match r1, r2 with
  | Nothing, _ => Nothing
  | _, Nothing => Nothing
  | Nil, _ => r2
  | _, _ => Seq r1 r2
  end.
Definition alt_re (r1 r2 : regex) : regex :=
  match r1, r2 with
  | Nothing, _ => r2
  | _, Nothing => r1
  | _, _ => Alt r1 r2
  end.

Definition Plus (r : regex) : regex := Seq r (Star r).
Fixpoint Times (n : nat) (r : regex) : regex :=
  match n with O => Nil | S n => Seq r (Times n r) end.
Fixpoint Text (s : string) : regex :=
  match s with EmptyString => Nil | String c s => Seq (Class (λ x, bool_decide (x = c))) (Text s) end.

Fixpoint nullable (r : regex) : bool :=
  match r with
  | Nothing | Class _ => false
  | Nil | Star _ => true
  | Seq r1 r2 => nullable r1 && nullable r2
  | Alt r1 r2 => nullable r1 || nullable r2
  end.

Fixpoint derivative (c : ascii) (r : regex) : regex :=
  match r with
  | Nothing | Nil => Nothing
  | Class p => if p c then Nil else Nothing
  | Seq r1 r2 =>
    if nullable r1 then alt_re (seq_re (derivative c r1) r2) (derivative c r2)
    else seq_re (derivative c r1) r2
  | Alt r1 r2 => alt_re (derivative c r1) (derivative c r2)
  | Star r => seq_re (derivative c r) (Star r)
  end.

(** [regexp.MatchString] of [^r$]. *)
Fixpoint full_match (r : regex) (s : string) : bool :=
  match s with
  | EmptyString => nullable r
  | String c rest => full_match (derivative c r) rest
  end.

(** The texts a pattern describes. *)
Inductive denotes : regex → list ascii → Prop :=
| denotes_nil : denotes Nil []
| denotes_class p c : p c = true → denotes (Class p) [c]
| denotes_seq r1 r2 s1 s2 : denotes r1 s1 → denotes r2 s2 → denotes (Seq r1 r2) (s1 ++ s2)
| denotes_left r1 r2 s : denotes r1 s → denotes (Alt r1 r2) s
| denotes_right r1 r2 s : denotes r2 s → denotes (Alt r1 r2) s
| denotes_star_nil r : denotes (Star r) []
| denotes_star_cons r s1 s2 : denotes r s1 → denotes (Star r) s2 → denotes (Star r) (s1 ++ s2).

Lemma denotes_seq_re r1 r2 s : denotes (seq_re r1 r2) s ↔ denotes (Seq r1 r2) s.
Proof.
  split.
  - destruct r1, r2; simpl; intros H; try done; try by inversion H.
    all: by rewrite <-(app_nil_l s); constructor; [constructor|].
  - inversion 1 as [| |? ? s1 s2 H1 H2| | | |]; subst.
    destruct r1, r2; simpl; try (by inversion H1); try (by inversion H2);
      try (by constructor); inversion H1; subst; simpl; done.
Qed.

Lemma denotes_alt_re r1 r2 s : denotes (alt_re r1 r2) s ↔ denotes r1 s ∨ denotes r2 s.
Proof.
  split.
  - destruct r1, r2; simpl; intros H; auto; inversion H; auto.
  - intros [H|H]; destruct r1, r2; simpl; try (by inversion H); try done;
      solve [by apply denotes_left | by apply denotes_right].
Qed.

Lemma nullable_spec r : nullable r = true ↔ denotes r [].
Proof.
  split.
  - induction r; simpl; intros H; go_bool; try done.
    + constructor.
    + destruct H. rewrite <-(app_nil_l []). constructor; auto.
    + destruct H; [apply denotes_left|apply denotes_right]; auto.
    + constructor.
  - remember [] as s eqn:Hs. induction 1; simpl; try done; go_bool.
    + apply app_eq_nil in Hs as [-> ->]. auto.
    + auto.
    + auto.
Qed.

Lemma denotes_star_inv r c s :
  denotes (Star r) (c :: s) →
  ∃ s1 s2, s = s1 ++ s2 ∧ denotes r (c :: s1) ∧ denotes (Star r) s2.
Proof.
  remember (Star r) as r' eqn:Hr. remember (c :: s) as cs eqn:Hs.
  intros H. revert c s Hs. induction H; intros c0 s0 Hs; simplify_eq.
  destruct s1 as [|c1 s1]; simplify_eq/=; eauto.
Qed.

Lemma derivative_spec c r s : denotes (derivative c r) s ↔ denotes r (c :: s).
Proof.
  revert s. induction r; intros s; simpl.
  - split; inversion 1.
  - split; inversion 1.
  - destruct (accepts c) eqn:Hc.
    + split; inversion 1; subst; by constructor.
    + split; inversion 1; congruence.
  - assert (Hseq : denotes (seq_re (derivative c r1) r2) s ↔
        ∃ s1 s2, s = s1 ++ s2 ∧ denotes r1 (c :: s1) ∧ denotes r2 s2).
    { rewrite denotes_seq_re. split.
      - inversion 1; subst. eexists _, _. rewrite <-IHr1. done.
      - intros (s1 & s2 & -> & H1 & H2). constructor; [by apply IHr1|done]. }
    assert (Hinv : denotes (Seq r1 r2) (c :: s) ↔
        (∃ s1 s2, s = s1 ++ s2 ∧ denotes r1 (c :: s1) ∧ denotes r2 s2) ∨
        (denotes r1 [] ∧ denotes r2 (c :: s))).
    { split.
      - inversion 1 as [| |? ? s1 s2 H1 H2 | | | |]; subst.
        destruct s1 as [|c1 s1]; simplify_eq/=; [by right|left; eauto].
      - intros [(s1 & s2 & -> & H1 & H2)|[H1 H2]].
        + rewrite app_comm_cons. by constructor.
        + rewrite <-(app_nil_l (c :: s)). by constructor. }
    rewrite Hinv. destruct (nullable r1) eqn:Hn.
    + rewrite denotes_alt_re, Hseq, IHr2. apply nullable_spec in Hn. naive_solver.
    + rewrite Hseq. split; [auto|]. intros [?|[H1 _]]; [done|].
      apply nullable_spec in H1. congruence.
  - rewrite denotes_alt_re, IHr1, IHr2. split.
    + intros [?|?]; solve [by apply denotes_left | by apply denotes_right].
    + inversion 1; auto.
  - rewrite denotes_seq_re. split.
    + inversion 1; subst. rewrite app_comm_cons. constructor; [by apply IHr|done].
    + intros (s1 & s2 & -> & H1 & H2)%denotes_star_inv. constructor; [by apply IHr|done].
Qed.

(** [full_match] decides the language of the pattern. *)
Lemma full_match_spec r s :
  full_match r s = true ↔ denotes r (String.list_ascii_of_string s).
Proof.
  revert r. induction s as [|c s IH]; intros r; simpl.
  - apply nullable_spec.
  - by rewrite IH, derivative_spec.
Qed.

(** ** Decimal text: parsing what was printed *)

Lemma code_digit_char d : 0 ≤ d < 10 → code (digit_char d) = 48 + d.
Proof.
  intros Hd. unfold code, digit_char.
  rewrite N_ascii_embedding; [lia|].
  change 256%N with (Z.to_N 256). lia.
Qed.

Lemma digit_char_digit d : 0 ≤ d < 10 → is_digit (digit_char d) = true.
Proof. intros Hd. unfold is_digit, in_range. rewrite code_digit_char by done. go_bool. lia. Qed.

Lemma digit_value_char d : 0 ≤ d < 10 → digit_value (digit_char d) = d.
Proof. intros Hd. unfold digit_value. rewrite code_digit_char by done. lia. Qed.

Lemma parse_format_digits fuel n tail :
  0 ≤ n < 10 ^ Z.of_nat fuel → (0 < fuel)%nat →
  parse_digits 0 (format_digits fuel n tail) = parse_digits n tail.
Proof.
  revert n tail. induction fuel as [|fuel IH]; intros n tail Hn Hf; [lia|]. simpl.
  assert (0 ≤ n mod 10 < 10) as Hd by (apply Z.mod_pos_bound; lia).
  destruct (n <? 10) eqn:Hlt; go_bool.
  - rewrite Z.mod_small by lia. simpl.
    rewrite digit_char_digit, digit_value_char by lia. f_equal.
  - rewrite Nat2Z.inj_succ, Z.pow_succ_r in Hn by lia.
    assert (0 < fuel)%nat by (destruct fuel; simpl in *; lia).
    rewrite IH; [| |done].
    + simpl. rewrite digit_char_digit, digit_value_char by lia.
      f_equal. pose proof (Z.div_mod n 10). lia.
    + split; [apply Z.div_pos; lia|apply Z.div_lt_upper_bound; lia].
Qed.

Lemma format_fuel_enough n : 0 ≤ n → n < 10 ^ Z.of_nat (S (Z.to_nat (Z.log2 n))).
Proof.
  intros Hn. rewrite Nat2Z.inj_succ, Z2Nat.id by apply Z.log2_nonneg.
  destruct (decide (n = 0)) as [->|]; [done|].
  pose proof (Z.log2_spec n ltac:(lia)) as [_ H].
  eapply Z.lt_le_trans; [exact H|].
  apply Z.pow_le_mono_l. pose proof (Z.log2_nonneg n). lia.
Qed.

Lemma parse_format_uint n : 0 ≤ n → parse_digits 0 (format_uint n) = Some n.
Proof.
  intros Hn. unfold format_uint. rewrite parse_format_digits; [done| |lia].
  split; [done|]. by apply format_fuel_enough.
Qed.

Lemma append_assoc (s1 s2 s3 : string) : (s1 +:+ s2) +:+ s3 = s1 +:+ (s2 +:+ s3).
Proof. induction s1 as [|c s1 IH]; simpl; [done|by rewrite IH]. Qed.

Lemma format_digits_shape fuel n tail :
  0 ≤ n < 10 ^ Z.of_nat fuel → (0 < fuel)%nat →
  ∃ c rest, format_digits fuel n tail = String c rest +:+ tail ∧
    is_digit c = true ∧ string_forallb is_digit rest = true ∧
    (c = "0"%char → n = 0 ∧ rest = EmptyString).
Proof.
  revert n tail. induction fuel as [|fuel IH]; intros n tail Hn Hf; [lia|]. simpl.
  assert (0 ≤ n mod 10 < 10) as Hd by (apply Z.mod_pos_bound; lia).
  destruct (n <? 10) eqn:Hlt; go_bool.
  - exists (digit_char (n mod 10)), EmptyString. rewrite digit_char_digit by lia.
    split; [done|]. split; [done|]. split; [done|]. intros Heq.
    assert (code (digit_char (n mod 10)) = 48) as Hc by by rewrite Heq.
    rewrite code_digit_char, Z.mod_small in Hc by lia. split; [lia|done].
  - rewrite Nat2Z.inj_succ, Z.pow_succ_r in Hn by lia.
    assert (0 < fuel)%nat by (destruct fuel; simpl in *; lia).
    destruct (IH (n / 10) (String (digit_char (n mod 10)) tail)) as (c & rest & -> & Hc & Hr & H0);
      [|done|].
    { split; [apply Z.div_pos; lia|apply Z.div_lt_upper_bound; lia]. }
    exists c, (rest +:+ String (digit_char (n mod 10)) EmptyString).
    split; [|split; [done|split]].
    + simpl. f_equal. by rewrite append_assoc.
    + clear -Hd Hr. induction rest as [|c' rest IHr]; simpl in *.
      * by rewrite digit_char_digit.
      * go_bool. destruct Hr. auto.
    + intros Hc0. destruct (H0 Hc0) as [Hz ->]. assert (1 ≤ n / 10) by (apply Z.div_le_lower_bound; lia). lia.
Qed.

Lemma append_empty_r s : s +:+ "" = s.
Proof. induction s; simpl; by f_equal. Qed.

(** The printed number is a nonempty run of digits without leading zero. *)
Lemma format_uint_shape n : 0 ≤ n →
  ∃ c rest, format_uint n = String c rest ∧ is_digit c = true ∧
    string_forallb is_digit rest = true ∧ (c = "0"%char → n = 0 ∧ rest = EmptyString).
Proof.
  intros Hn.
  destruct (format_digits_shape (S (Z.to_nat (Z.log2 n))) n EmptyString)
    as (c & rest & Heq & ?); [|lia|].
  - split; [done|by apply format_fuel_enough].
  - exists c, rest. split; [|done]. unfold format_uint. by rewrite Heq, append_empty_r.
Qed.

Lemma parse_digits_ge acc s n : 0 ≤ acc → parse_digits acc s = Some n → acc ≤ n.
Proof.
  revert acc. induction s as [|c s IH]; intros acc Ha; simpl; [by intros [= ->]|].
  destruct (is_digit c) eqn:Hd; [|done]. intros H.
  assert (0 ≤ digit_value c) by (unfold is_digit, in_range, digit_value in *; go_bool; lia).
  apply IH in H; lia.
Qed.

Lemma parse_uint_range s bits n : parse_uint s bits = Some n → 0 ≤ n < 2 ^ bits.
Proof.
  unfold parse_uint. destruct s as [|c s]; [done|]. destruct (parse_digits 0 _) as [m|] eqn:Hm; [|done].
  destruct (m <? 2 ^ bits) eqn:Hb; [|done]. intros [= <-]. go_bool. by apply parse_digits_ge in Hm.
Qed.

(** ** Canonical decimal text *)

Lemma digit_value_range c : is_digit c = true → 0 ≤ digit_value c < 10.
Proof. unfold is_digit, in_range, digit_value. intros H. go_bool. lia. Qed.

Lemma digit_value_inj c d : digit_value c = digit_value d → c = d.
Proof.
  unfold digit_value, code. intros H. rewrite <-(ascii_N_embedding c), <-(ascii_N_embedding d). f_equal. lia.
Qed.

Lemma uint_digits_parse bits acc s n :
  0 ≤ acc → parse_digits acc s = Some n → n < 2 ^ bits → uint_digits (2 ^ bits - 1) acc s = n.
Proof.
  revert acc. induction s as [|c s IH]; intros acc Ha; simpl; [by intros [= ->]|].
  destruct (is_digit c) eqn:Hc; [|done]. intros Hp Hn. apply digit_value_range in Hc.
  assert (acc * 10 + digit_value c ≤ n) as Hle by (eapply parse_digits_ge; [|done]; lia).
  destruct (Z.ltb_spec (2 ^ bits - 1) (acc * 10 + digit_value c)); [lia|]. apply IH; [lia|done|done].
Qed.
Lemma uint_value_parse s bits n : parse_uint s bits = Some n → uint_value s bits = n.
Proof.
  unfold parse_uint, uint_value. destruct s as [|c s]; [done|].
  destruct (parse_digits 0 (String c s)) as [m|] eqn:Hp; [|done].
  destruct (Z.ltb_spec m (2 ^ bits)); [|done]. intros [= ->]. by apply uint_digits_parse.
Qed.

Lemma parse_digits_value acc s n :
  parse_digits acc s = Some n →
  acc * 10 ^ len s ≤ n < (acc + 1) * 10 ^ len s.
Proof.
  revert acc. induction s as [|c s IH]; intros acc; simpl.
  { intros [= ->]. unfold len. simpl. lia. }
  destruct (is_digit c) eqn:Hd; [|done]. intros H%IH. apply digit_value_range in Hd.
  unfold len in *. simpl. rewrite Nat2Z.inj_succ, Z.pow_succ_r by lia.
  assert (0 < 10 ^ Z.of_nat (String.length s)) by (apply Z.pow_pos_nonneg; lia). nia.
Qed.

Lemma parse_digits_inj a b s t n :
  String.length s = String.length t →
  parse_digits a s = Some n → parse_digits b t = Some n → a = b ∧ s = t.
Proof.
  revert a b t. induction s as [|c s IH]; intros a b [|d t]; simpl; try done.
  { intros _ [= ->] [= ->]. done. }
  intros [= Hl]. destruct (is_digit c) eqn:Hc; [|done]. destruct (is_digit d) eqn:Hd; [|done].
  intros H1 H2. destruct (IH _ _ _ Hl H1 H2) as [He ->].
  apply digit_value_range in Hc, Hd. assert (digit_value c = digit_value d) as ->%digit_value_inj by lia.
  split; [lia|done].
Qed.

(** A digit and more digits, without a leading zero. *)
Definition canonical_digits (s : string) : Prop :=
  ∃ c rest, s = String c rest ∧ is_digit c = true ∧ (c = "0"%char → rest = EmptyString).

Lemma canonical_length s n :
  canonical_digits s → parse_digits 0 s = Some n → 0 ≤ n ∧ (10 ^ (len s - 1) ≤ n < 10 ^ len s ∨ n = 0 ∧ s = "0").
Proof.
  intros (c & rest & -> & Hc & H0) Hp. split; [by eapply parse_digits_ge in Hp|].
  simpl in Hp. rewrite Hc in Hp. destruct (decide (c = "0"%char)) as [->|Hne].
  { right. rewrite (H0 eq_refl) in *. simpl in Hp. by injection Hp as <-. }
  left. assert (1 ≤ digit_value c) as Hd.
  { assert (digit_value c ≠ 0) by (intros Hz; apply Hne, digit_value_inj; by rewrite Hz).
    apply digit_value_range in Hc. lia. }
  apply parse_digits_value in Hp. apply digit_value_range in Hc.
  replace (len (String c rest) - 1) with (len rest) by (unfold len; simpl; lia).
  replace (len (String c rest)) with (Z.succ (len rest)) by (unfold len; simpl; lia).
  assert (0 ≤ len rest) by (unfold len; lia). rewrite Z.pow_succ_r by done.
  assert (0 < 10 ^ len rest) by (by apply Z.pow_pos_nonneg). nia.
Qed.

Lemma canonical_digits_inj s t n :
  canonical_digits s → canonical_digits t → parse_digits 0 s = Some n → parse_digits 0 t = Some n → s = t.
Proof.
  intros Hs Ht Hps Hpt. destruct (canonical_length s n Hs Hps) as [Hn [H1|[-> ->]]].
  - destruct (canonical_length t n Ht Hpt) as [_ [H2|[-> ->]]].
    + assert (0 ≤ len s - 1 ∧ 0 ≤ len t - 1) as [Hls Hlt].
      { destruct Hs as (? & ? & -> & _), Ht as (? & ? & -> & _). unfold len. simpl. lia. }
      assert (¬ len s ≤ len t - 1) as Ha by (intros Hle%(Z.pow_le_mono_r 10); lia).
      assert (¬ len t ≤ len s - 1) as Hb by (intros Hle%(Z.pow_le_mono_r 10); lia).
      assert (String.length s = String.length t) as Hl by (unfold len in *; lia).
      by destruct (parse_digits_inj 0 0 s t n Hl Hps Hpt).
    + assert (0 < 10 ^ (len s - 1)); [|lia]. apply Z.pow_pos_nonneg; [lia|].
      destruct Hs as (? & ? & -> & _). unfold len. simpl. lia.
  - destruct (canonical_length t 0 Ht Hpt) as [_ [H2|[_ ->]]]; [|done].
    assert (0 < 10 ^ (len t - 1)); [|lia]. apply Z.pow_pos_nonneg; [lia|].
    destruct Ht as (? & ? & -> & _). unfold len. simpl. lia.
Qed.

(** Printing what canonical text was parsed to gives the text. *)
Lemma format_parse_digits s n : canonical_digits s → parse_digits 0 s = Some n → format_uint n = s.
Proof.
  intros Hs Hp. assert (0 ≤ n) as Hn by (by eapply parse_digits_ge in Hp).
  apply (canonical_digits_inj _ _ n); [|done|by apply parse_format_uint|done].
  destruct (format_uint_shape n Hn) as (c & rest & -> & Hc & _ & H0). exists c, rest.
  split_and!; [done|done|]. intros Hz. by destruct (H0 Hz).
Qed.

(** ** Slash-separated paths ([path/filepath] on Unix) *)

Definition path_is_abs (path : string) : bool := has_prefix path "/".

(** The stack of kept components, innermost first. *)
Fixpoint clean_components (rooted : bool) (stack components : list string) : list string :=
  match components with
  | [] => rev stack
  | c :: rest =>
    if bool_decide (c = "") || bool_decide (c = ".") then clean_components rooted stack rest
    else if bool_decide (c = "..") then
      match stack with
      | [] => clean_components rooted (if rooted then [] else [".."]) rest
      | top :: below =>
        if bool_decide (top = "..") then clean_components rooted (".." :: stack) rest
        else clean_components rooted below rest
      end
    else clean_components rooted (c :: stack) rest
  end.
Definition path_clean (path : string) : string :=
  let rooted := path_is_abs path in
  match clean_components rooted [] (split_byte path "/"%char) with
  | [] => if rooted then "/" else "."
  | components => (if rooted then "/" else "") +:+ join components "/"
  end.
Fixpoint path_join (elements : list string) : string :=
  match elements with
  | [] => ""
  | e :: rest => if bool_decide (e = "") then path_join rest else path_clean (join elements "/")
  end.

(** ** Splitting and joining *)

Lemma split_byte_cons s sep : ∃ first others, split_byte s sep = first :: others.
Proof.
  induction s as [|c s (f & o & IH)]; simpl; [eauto|].
  case_bool_decide; [eauto|]. rewrite IH. eauto.
Qed.

Lemma split_byte_none s sep : contains_byte s sep = false → split_byte s sep = [s].
Proof.
  induction s as [|c s IH]; simpl; [done|]. intros [Hc Hs]%orb_false_iff.
  rewrite Hc, IH by done. done.
Qed.

Lemma split_byte_app left right sep :
  contains_byte left sep = false →
  split_byte (left +:+ String sep right) sep = left :: split_byte right sep.
Proof.
  induction left as [|c left IH]; simpl; [by rewrite bool_decide_true|].
  intros [Hc Hs]%orb_false_iff. by rewrite Hc, IH.
Qed.

Lemma join_split s sep : join (split_byte s sep) (String sep EmptyString) = s.
Proof.
  induction s as [|c s IH]; simpl; [done|].
  destruct (split_byte_cons s sep) as (f & o & Hs). rewrite Hs in *.
  case_bool_decide as Hc.
  - rewrite Hc. destruct o; simpl in *; by rewrite IH.
  - destruct o; simpl in *; by rewrite IH.
Qed.

(** ** Strings as lists of bytes *)

Definition bytes (s : string) : list ascii := String.list_ascii_of_string s.
Lemma bytes_inj s t : bytes s = bytes t → s = t.
Proof.
  intros H. rewrite <-(String.string_of_list_ascii_of_string s), <-(String.string_of_list_ascii_of_string t).
  unfold bytes in H. by rewrite H.
Qed.
Lemma bytes_app s t : bytes (s +:+ t) = bytes s ++ bytes t.
Proof. induction s as [|c s IH]; [done|]. unfold bytes in *. simpl. by rewrite IH. Qed.
Lemma bytes_of_list l : bytes (String.string_of_list_ascii l) = l.
Proof. apply String.list_ascii_of_string_of_list_ascii. Qed.
Lemma length_bytes s : String.length s = length (bytes s).
Proof. induction s as [|c s IH]; [done|]. unfold bytes in *. simpl. by rewrite IH. Qed.
Lemma string_forallb_bytes p s : string_forallb p s = forallb p (bytes s).
Proof. induction s as [|c s IH]; [done|]. unfold bytes in *. simpl. by rewrite IH. Qed.

