(* ===== verification/Identifiers.v ===== *)
(** * Identifiers and safe text

    The validators shared by the queue, the sessions and the identity code:
    opaque admission IDs ([internal/deploy/live_run_queue.go]), content digests
    ([internal/canonical/canonical.go]), endpoint names
    ([internal/endpointname/name.go]), container-local identities
    ([internal/runtimeidentity/identity.go]) and the two notions of safe text
    ([internal/deploy/pending_build.go],
    [internal/controlledsession/authorization.go]). *)

From S2P Require Import Prelude GoText.
From Stdlib Require Import Ascii.

Open Scope Z_scope.

(** ** Opaque identifiers *)

Definition hex (n : nat) : regex := Times n (Class is_lower_hex).
Definition liveRunIDPatternV1 : regex := Seq (Text "run-") (hex 16).
Definition controlMarkerIDPatternV1 : regex := Seq (Text "control-") (hex 16).
Definition controlledSessionHandlePatternV1 : regex := Seq (Text "session-") (hex 64).
Definition controlledSessionContainerIDPatternV1 : regex := hex 64.
Definition controlledSessionBuildIdentityPatternV1 : regex := Seq (Text "sha256:") (hex 64).
Definition sessionHandlePatternV1 : regex := Seq (Text "session-") (hex 64).

Definition ValidateLiveRunIDV1 (id : string) : result unit :=
  reject_if (negb (full_match liveRunIDPatternV1 id))
    "run ID must use run- followed by 16 lowercase hexadecimal characters".

Definition ValidateControlMarkerIDV1 (id : string) : result unit :=
  reject_if (negb (full_match controlMarkerIDPatternV1 id))
    "control marker ID must use control- followed by 16 lowercase hexadecimal characters".

(** No text is both a run ID and a control-marker ID. *)
Lemma first_byte_differs c :
  derivative c liveRunIDPatternV1 = Nothing ∨ derivative c controlMarkerIDPatternV1 = Nothing.
Proof.
  destruct c as [[] [] [] [] [] [] [] []];
    solve [left; vm_compute; reflexivity | right; vm_compute; reflexivity].
Qed.

Lemma full_match_Nothing s : full_match Nothing s = false.
Proof. induction s; [done|]. exact IHs. Qed.

Lemma run_not_control id : ValidateLiveRunIDV1 id = Ok tt → ValidateControlMarkerIDV1 id ≠ Ok tt.
Proof.
  unfold ValidateLiveRunIDV1, ValidateControlMarkerIDV1. rewrite !reject_if_ok, !negb_false_iff.
  destruct id as [|c rest]; [by vm_compute|]. cbn [full_match].
  destruct (first_byte_differs c) as [-> | ->]; by rewrite full_match_Nothing.
Qed.

Definition validateQueueEntryLeaseIDV1 (id : string) : result unit :=
  if full_match liveRunIDPatternV1 id || full_match controlMarkerIDPatternV1 id then Ok tt
  else Err "queue-entry lease ID must be a live-run or control-marker ID".

(** ** Digests *)

Definition ParseDigest (value : string) : result string :=
  _ ← reject_if (negb (has_prefix value "sha256:") || negb (len value =? 7 + 64))
        "canonical digest must use sha256 followed by 64 lowercase hexadecimal characters";
  match cut_prefix value "sha256:" with
  | Some encoded =>
    if string_forallb is_lower_hex encoded then Ok value
    else Err "canonical digest must use sha256 followed by 64 lowercase hexadecimal characters"
  | None => Err "canonical digest must use sha256 followed by 64 lowercase hexadecimal characters"
  end.

Definition ValidateDigest (digest : string) : result unit :=
  _ ← ParseDigest digest; Ok tt.

(** ** Endpoint names *)

Definition maxEndpointNameLength : Z := 128.
Definition is_component_char (c : ascii) : bool := is_lower c || is_digit c.
Definition componentPattern : regex :=
  Seq (Plus (Class is_component_char))
    (Star (Seq (Alt (Text "__")
                 (Alt (Class (λ c, bool_decide (c = "."%char) || bool_decide (c = "_"%char)))
                   (Plus (Text "-"))))
             (Plus (Class is_component_char)))).

Definition ValidateEndpointName (value : string) : result unit :=
  reject_if ((len value =? 0) || (maxEndpointNameLength <? len value)
             || negb (full_match componentPattern value))
    "must be a Docker-style lowercase name component".

(** ** Safe text *)

(** [safeRecoveryIdentity]: names, references and paths kept in durable state. *)
Definition safeRecoveryIdentity (value : string) : bool :=
  negb (bool_decide (value = "") || negb (bool_decide (trim_space value = value))
        || has_prefix value "-" || negb (valid_utf8 value))
  && forallb (λ r, negb ((rune_value r <? 32) || (rune_value r =? 127))) (runes value).

Definition maxBootSessionIDLengthV1 : Z := 128.

Definition validateBootSessionIDV1 (value : string) : result unit :=
  _ ← reject_if (bool_decide (value = "")) "boot-session identity is empty";
  reject_if ((maxBootSessionIDLengthV1 <? len value) || negb (safeRecoveryIdentity value))
    "boot-session identity must be safe text".

(** [validateSafeTextV1] of the session protocol. *)
Definition validateSafeTextV1 (field value : string) : result unit :=
  _ ← reject_if (bool_decide (value = "") || (512 <? len value) || negb (valid_utf8 value)
                 || negb (bool_decide (trim_space value = value)))
        ("controlled-session " +:+ field +:+ " must be nonempty safe text");
  reject_if (existsb (λ r, is_control (rune_value r) || is_format (rune_value r)) (runes value))
    ("controlled-session " +:+ field +:+ " must be nonempty safe text").

Definition validateOptionalSafeTextV1 (field value : string) : result unit :=
  if bool_decide (value = "") then Ok tt else validateSafeTextV1 field value.

Definition validateRequiredSafeTextV1 (field value : string) : result unit :=
  if bool_decide (value = "") then Err ("controlled-session " +:+ field +:+ " is required")
  else validateSafeTextV1 field value.

(** ** Container-local identities *)

Definition credentialUnchangedSentinelV1 : Z := 2 ^ 32 - 1.

Record IdentityV1 := Identity {
  Username : string;
  UID : string;
  GID : string;
  SupplementaryGIDs : option (list string)   (** [None]: a nil slice *)
}.
#[export] Instance IdentityV1_eq_dec : EqDecision IdentityV1.
Proof. solve_decision. Defined.

Definition user_name_char (index : nat) (r : Z) : bool :=
  in_range 97 122 r || ((r =? 95) && (index =? 0)%nat)
  || ((0 <? index)%nat && (in_range 48 57 r || (r =? 95) || (r =? 45))).

Fixpoint user_name_chars (index : nat) (rs : list rune) : bool :=
  match rs with
  | [] => true
  | r :: rest => user_name_char index (rune_value r) && user_name_chars (S index) rest
  end.

Definition ValidateUserName (value : string) : result unit :=
  _ ← reject_if (bool_decide (value = "") || (32 <? len value))
        "must be a nonempty portable Unix user name no longer than 32 bytes";
  reject_if (negb (user_name_chars 0 (runes value)))
    "must be a portable lowercase Unix user name".

Definition canonicalUnsignedV1 (value : string) : option Z :=
  if bool_decide (value = "") || ((1 <? len value) && has_prefix value "0") then None
  else match parse_uint value 32 with
       | Some parsed => if parsed =? credentialUnchangedSentinelV1 then None else Some parsed
       | None => None
       end.

Definition sentinel_message (field : string) : string :=
  field +:+ " must use a canonical unsigned 32-bit decimal string other than math.MaxUint32".

(** One turn of the loop over the supplementary groups; [previous] is the
    group of the preceding turn. *)
Fixpoint validate_supplementary (uid primaryGID : Z) (previous : option Z)
    (values : list string) : result unit :=
  match values with
  | [] => Ok tt
  | value :: rest =>
    match canonicalUnsignedV1 value with
    | None => Err (sentinel_message "supplementary GID")
    | Some gid =>
      _ ← reject_if (gid =? primaryGID) "runtime supplementary GIDs must exclude the primary GID";
      _ ← reject_if (negb (uid =? 0) && (gid =? 0))
            "non-root runtime identity must not include the root group";
      _ ← reject_if (match previous with Some p => gid <=? p | None => false end)
            "runtime supplementary GIDs must be unique, sorted numerically, and exclude the primary GID";
      validate_supplementary uid primaryGID (Some gid) rest
    end
  end.

Definition ValidateIdentityV1 (identity : IdentityV1) : result unit :=
  _ ← wrap (ValidateUserName (Username identity)) "runtime username";
  match canonicalUnsignedV1 (UID identity) with
  | None => Err (sentinel_message "runtime UID")
  | Some uid =>
    match canonicalUnsignedV1 (GID identity) with
    | None => Err (sentinel_message "runtime GID")
    | Some primaryGID =>
      _ ← reject_if ((uid =? 0) && negb (bool_decide (Username identity = "root")))
            "root runtime identity must use the username root";
      _ ← reject_if (negb (uid =? 0) && bool_decide (Username identity = "root"))
            "non-root runtime identity must not use the username root";
      _ ← reject_if (negb (uid =? 0) && (primaryGID =? 0))
            "non-root runtime identity must not use the root group";
      match SupplementaryGIDs identity with
      | None => Err "runtime supplementary GIDs must use an array"
      | Some values => validate_supplementary uid primaryGID None values
      end
    end
  end.
