(* ===== verification/Yaml.v ===== *)
(** * Nodes of YAML documents

    What the code reads of a node of [gopkg.in/yaml.v3]: its kind, tag, value,
    whether its text is quoted or a block ([Style]), and its children.  The
    children of a mapping alternate keys and values, so their number is even; an
    odd one would be an index out of range. *)

From S2P Require Import Prelude.

Inductive node_kind := DocumentNode | SequenceNode | MappingNode | ScalarNode | AliasNode.
#[export] Instance node_kind_eq_dec : EqDecision node_kind.
Proof. solve_decision. Defined.
Class YamlNodes := {
  Node : Type;
  node_Kind : Node → node_kind;
  node_Tag : Node → string;
  node_Value : Node → string;
  node_Quoted : Node → bool;
  node_Content : Node → list Node
}.

Definition index_out_of_range : string := "index out of range".

Section yaml.
Context {yaml : YamlNodes}.

Definition is_scalar (node : Node) : bool := bool_decide (node_Kind node = ScalarNode).
Definition is_text (node : Node) : bool := is_scalar node && bool_decide (node_Tag node = "!!str").

(** The keys and values of a mapping. *)
Fixpoint node_pairs (content : list Node) : result (list (Node * Node)) :=
  match content with
  | [] => Ok []
  | [_] => Err index_out_of_range
  | key :: value :: rest => pairs ← node_pairs rest; Ok ((key, value) :: pairs)
  end.
End yaml.

(** Nodes as a tree, for examples. *)
Inductive tree := Tree (kind : node_kind) (tag value : string) (content : list tree).
Definition tree_nodes : YamlNodes := {|
  Node := tree; node_Kind '(Tree kind _ _ _) := kind; node_Tag '(Tree _ tag _ _) := tag;
  node_Value '(Tree _ _ value _) := value; node_Quoted _ := false; node_Content '(Tree _ _ _ content) := content |}.
Definition text_node (value : string) : tree := Tree ScalarNode "!!str" value [].
Definition int_node (value : string) : tree := Tree ScalarNode "!!int" value [].
Definition list_node (values : list string) : tree := Tree SequenceNode "!!seq" "" (map text_node values).
Definition mapping_node (content : list (string * tree)) : tree :=
  Tree MappingNode "!!map" "" (concat (map (λ field, [text_node field.1; field.2]) content)).
