(* ===== verification/SessionModel.v ===== *)
(** * Controlled sessions: statuses and results

    [internal/controlledsession/model.go].  The string enumerations are
    inductive types with the source's constants; a constructor [...Raw] stands
    for any other text a caller may put in the field, and [None] for the empty
    text where the code tests for it. *)

From S2P Require Import Prelude GoText Identifiers.

Open Scope Z_scope.

Inductive TerminationCauseV1 :=
| CauseControllerTerminateV1
| CauseWorkloadExitV1
| CauseHostCancelV1
| CauseControllerLostV1
| CauseRuntimeObservationLostV1
| CauseCleanupContainmentLostV1
| CauseStartupFailureV1
| CauseRawV1 (raw : string).

Inductive ProcessStatusKindV1 :=
| ProcessStatusUnknownV1
| ProcessStatusExitedV1
| ProcessStatusTerminatedV1
| ProcessStatusUnavailableV1
| ProcessStatusRawV1 (raw : string).

Record ProcessStatusV1 := ProcessStatus {
  ps_Kind : ProcessStatusKindV1;
  ps_Code : option Z;
  ps_Reason : string
}.

Inductive ControllerFinalizationStatusKindV1 :=
| ControllerFinalizationUnknownV1
| ControllerFinalizationActiveV1
| ControllerFinalizationCompletedV1
| ControllerFinalizationLostV1
| ControllerFinalizationTimeoutV1
| ControllerFinalizationNotCompletedV1
| ControllerFinalizationStartupFailedV1
| ControllerFinalizationRawV1 (raw : string).

Record ControllerFinalizationStatusV1 := ControllerStatus {
  cs_Kind : ControllerFinalizationStatusKindV1;
  cs_Reason : string
}.

Inductive WorkloadOutputFinalizationStatusKindV1 :=
| WorkloadOutputUnsetV1            (** the empty text of the zero value *)
| WorkloadOutputFinalizationDrainedV1
| WorkloadOutputFinalizationFailedV1
| WorkloadOutputRawV1 (raw : string).

Record WorkloadOutputFinalizationStatusV1 := OutputStatus {
  os_Kind : WorkloadOutputFinalizationStatusKindV1;
  os_Reason : string
}.

Inductive RuntimeObservationStatusKindV1 :=
| RuntimeObservationMaintainedV1
| RuntimeObservationLostV1
| RuntimeObservationRawV1 (raw : string).

Record RuntimeObservationStatusV1 := ObservationStatus {
  ro_Kind : RuntimeObservationStatusKindV1;
  ro_Reason : string
}.

Inductive CleanupStatusKindV1 :=
| CleanupStatusSucceededV1
| CleanupStatusFailedV1
| CleanupStatusRawV1 (raw : string).

Record CleanupStatusV1 := CleanupStatus {
  cl_Kind : CleanupStatusKindV1;
  cl_Message : string
}.

Inductive RecoveryActionV1 :=
| RecoveryNoneV1
| RecoveryRetryCleanupV1
| RecoveryReconcileNextOperationV1
| RecoveryRawV1 (raw : string).

Record ResultV1 := Result {
  res_Cause : TerminationCauseV1;
  res_WorkloadStatus : ProcessStatusV1;
  res_WorkloadOutputFinalizationStatus : WorkloadOutputFinalizationStatusV1;
  res_RuntimeObservationStatus : RuntimeObservationStatusV1;
  res_ControllerFinalizationStatus : ControllerFinalizationStatusV1;
  res_CleanupStatus : CleanupStatusV1;
  res_RecoveryAction : RecoveryActionV1
}.

#[export] Instance TerminationCauseV1_eq_dec : EqDecision TerminationCauseV1.
Proof. solve_decision. Defined.
#[export] Instance ProcessStatusKindV1_eq_dec : EqDecision ProcessStatusKindV1.
Proof. solve_decision. Defined.
#[export] Instance ProcessStatusV1_eq_dec : EqDecision ProcessStatusV1.
Proof. solve_decision. Defined.
#[export] Instance ControllerFinalizationStatusKindV1_eq_dec :
  EqDecision ControllerFinalizationStatusKindV1.
Proof. solve_decision. Defined.
#[export] Instance ControllerFinalizationStatusV1_eq_dec : EqDecision ControllerFinalizationStatusV1.
Proof. solve_decision. Defined.
#[export] Instance WorkloadOutputFinalizationStatusKindV1_eq_dec :
  EqDecision WorkloadOutputFinalizationStatusKindV1.
Proof. solve_decision. Defined.
#[export] Instance WorkloadOutputFinalizationStatusV1_eq_dec :
  EqDecision WorkloadOutputFinalizationStatusV1.
Proof. solve_decision. Defined.
#[export] Instance RuntimeObservationStatusKindV1_eq_dec : EqDecision RuntimeObservationStatusKindV1.
Proof. solve_decision. Defined.
#[export] Instance RuntimeObservationStatusV1_eq_dec : EqDecision RuntimeObservationStatusV1.
Proof. solve_decision. Defined.
#[export] Instance CleanupStatusKindV1_eq_dec : EqDecision CleanupStatusKindV1.
Proof. solve_decision. Defined.
#[export] Instance CleanupStatusV1_eq_dec : EqDecision CleanupStatusV1.
Proof. solve_decision. Defined.
#[export] Instance RecoveryActionV1_eq_dec : EqDecision RecoveryActionV1.
Proof. solve_decision. Defined.
#[export] Instance ResultV1_eq_dec : EqDecision ResultV1.
Proof. solve_decision. Defined.

(** ** Validators, in the order of the source *)

Definition validTerminationCauseV1 (cause : TerminationCauseV1) : bool :=
  match cause with CauseRawV1 _ => false | _ => true end.

Definition validateRuntimeObservationStatusV1 (status : RuntimeObservationStatusV1) : result unit :=
  match ro_Kind status with
  | RuntimeObservationMaintainedV1 =>
    reject_if (negb (bool_decide (ro_Reason status = "")))
      "maintained runtime observation must not contain a reason"
  | RuntimeObservationLostV1 =>
    validateOptionalSafeTextV1 "runtime observation loss reason" (ro_Reason status)
  | RuntimeObservationRawV1 _ => Err "runtime observation status is invalid"
  end.

Definition validateWorkloadOutputFinalizationStatusV1
    (status : WorkloadOutputFinalizationStatusV1) : result unit :=
  match os_Kind status with
  | WorkloadOutputFinalizationDrainedV1 =>
    reject_if (negb (bool_decide (os_Reason status = "")))
      "drained workload output finalization must not contain a reason"
  | WorkloadOutputFinalizationFailedV1 =>
    validateRequiredSafeTextV1 "workload output finalization failure reason" (os_Reason status)
  | WorkloadOutputUnsetV1 | WorkloadOutputRawV1 _ =>
    Err "workload output finalization status is invalid"
  end.

Definition validateProcessStatusV1 (status : ProcessStatusV1) (allowUnknown : bool) : result unit :=
  _ ← match ps_Kind status with
      | ProcessStatusUnknownV1 =>
        reject_if (negb allowUnknown || negb (bool_decide (ps_Code status = None))
                   || negb (bool_decide (ps_Reason status = "")))
          "unknown workload status must have no code or reason"
      | ProcessStatusExitedV1 =>
        reject_if (bool_decide (ps_Code status = None))
          "exited workload status requires an exit code"
      | ProcessStatusTerminatedV1 | ProcessStatusUnavailableV1 =>
        reject_if (negb (bool_decide (ps_Code status = None)))
          "workload status must not contain an exit code"
      | ProcessStatusRawV1 _ => Err "workload status is invalid"
      end;
  validateOptionalSafeTextV1 "workload status reason" (ps_Reason status).

Definition terminal_controller_kind (kind : ControllerFinalizationStatusKindV1) : bool :=
  match kind with
  | ControllerFinalizationCompletedV1 | ControllerFinalizationLostV1
  | ControllerFinalizationTimeoutV1 | ControllerFinalizationNotCompletedV1
  | ControllerFinalizationStartupFailedV1 => true
  | ControllerFinalizationUnknownV1 | ControllerFinalizationActiveV1
  | ControllerFinalizationRawV1 _ => false
  end.

Definition validateTerminalControllerFinalizationStatusV1
    (status : ControllerFinalizationStatusV1) : result unit :=
  _ ← reject_if (negb (terminal_controller_kind (cs_Kind status)))
        "terminal controller finalization status is invalid";
  validateOptionalSafeTextV1 "controller finalization status reason" (cs_Reason status).

Definition validateCleanupResultV1 (status : CleanupStatusV1) (recovery : RecoveryActionV1)
    : result unit :=
  match cl_Kind status with
  | CleanupStatusSucceededV1 =>
    _ ← reject_if (negb (bool_decide (cl_Message status = "")))
          "successful cleanup status must not contain an error message";
    reject_if (negb (bool_decide (recovery = RecoveryNoneV1)))
      "successful cleanup must not require recovery"
  | CleanupStatusFailedV1 =>
    _ ← validateRequiredSafeTextV1 "cleanup failure message" (cl_Message status);
    reject_if (negb (bool_decide (recovery = RecoveryRetryCleanupV1))
               && negb (bool_decide (recovery = RecoveryReconcileNextOperationV1)))
      "failed cleanup requires a recovery action"
  | CleanupStatusRawV1 _ => Err "cleanup status is invalid"
  end.

Definition validateResultConsistencyV1 (r : ResultV1) : result unit :=
  _ ← (if bool_decide (res_Cause r = CauseRuntimeObservationLostV1) then
         _ ← reject_if (negb (bool_decide (ro_Kind (res_RuntimeObservationStatus r) = RuntimeObservationLostV1)))
               "runtime-observation-loss termination requires lost runtime observation status";
         reject_if (negb (bool_decide (os_Kind (res_WorkloadOutputFinalizationStatus r)
                                         = WorkloadOutputFinalizationFailedV1)))
           "runtime-observation-loss termination requires failed workload output finalization"
       else Ok tt);
  _ ← reject_if (bool_decide (res_Cause r = CauseControllerLostV1)
                 && negb (bool_decide (cs_Kind (res_ControllerFinalizationStatus r)
                                         = ControllerFinalizationLostV1)))
        "controller-loss termination requires lost controller finalization status";
  reject_if (bool_decide (res_Cause r = CauseStartupFailureV1)
             && negb (bool_decide (cs_Kind (res_ControllerFinalizationStatus r)
                                     = ControllerFinalizationStartupFailedV1)))
    "startup-failure termination requires startup-failed controller finalization status".

Definition ValidateResultV1 (r : ResultV1) : result unit :=
  _ ← reject_if (negb (validTerminationCauseV1 (res_Cause r)))
        "controlled-session termination cause is invalid";
  _ ← validateProcessStatusV1 (res_WorkloadStatus r) true;
  _ ← reject_if (bool_decide (res_Cause r = CauseWorkloadExitV1)
                 && bool_decide (ps_Kind (res_WorkloadStatus r) = ProcessStatusUnknownV1))
        "workload-exit termination requires a known workload status";
  _ ← validateWorkloadOutputFinalizationStatusV1 (res_WorkloadOutputFinalizationStatus r);
  _ ← validateRuntimeObservationStatusV1 (res_RuntimeObservationStatus r);
  _ ← validateTerminalControllerFinalizationStatusV1 (res_ControllerFinalizationStatus r);
  _ ← validateCleanupResultV1 (res_CleanupStatus r) (res_RecoveryAction r);
  validateResultConsistencyV1 r.

(** A status that is valid for an observed exit is valid as a terminal one. *)
Lemma validateProcessStatusV1_allow status :
  validateProcessStatusV1 status false = Ok tt → validateProcessStatusV1 status true = Ok tt.
Proof.
  unfold validateProcessStatusV1. by destruct (ps_Kind status).
Qed.
Lemma validateProcessStatusV1_known status :
  validateProcessStatusV1 status false = Ok tt → ps_Kind status ≠ ProcessStatusUnknownV1.
Proof.
  unfold validateProcessStatusV1. intros H Hk. rewrite Hk in H. by go_ok.
Qed.
#[export] Hint Resolve validateProcessStatusV1_allow validateProcessStatusV1_known : core.
