(* ===== verification/SessionAuthorization.v ===== *)
(** * Controlled sessions: the immutable authorization

    [internal/controlledsession/authorization.go].  A nil slice is [None]. *)

From S2P Require Import Prelude GoText Identifiers.

Open Scope Z_scope.

Definition AuthorizationSchemaV1 : string := "controlled-session-authorization-v1".

Inductive OperationV1 :=
| OperationInputV1
| OperationResizeV1
| OperationTerminateV1
| OperationCompleteV1
| OperationRawV1 (raw : string).
#[export] Instance OperationV1_eq_dec : EqDecision OperationV1.
Proof. solve_decision. Defined.

(** The text of an operation, on which the source's [>=] compares. *)
Definition operation_text (operation : OperationV1) : string :=
  match operation with
  | OperationInputV1 => "input"
  | OperationResizeV1 => "resize"
  | OperationTerminateV1 => "terminate"
  | OperationCompleteV1 => "complete"
  | OperationRawV1 raw => raw
  end.

Record EnvironmentAuthorizationV1 := Environment {
  env_DeploymentID : string;
  env_GenerationReference : string;
  env_BuildIdentity : string;
  env_PlanDigest : string;
  env_RuntimeIdentity : IdentityV1
}.
#[export] Instance EnvironmentAuthorizationV1_eq_dec : EqDecision EnvironmentAuthorizationV1.
Proof. solve_decision. Defined.

Record AuthorizationV1 := Authorization {
  auth_Schema : string;
  auth_Handle : string;
  auth_LiveRunID : string;
  auth_Controller : EnvironmentAuthorizationV1;
  auth_Workload : EnvironmentAuthorizationV1;
  auth_Operations : option (list OperationV1);
  auth_EndpointIDs : option (list string)
}.
#[export] Instance AuthorizationV1_eq_dec : EqDecision AuthorizationV1.
Proof. solve_decision. Defined.

Definition validateEnvironmentAuthorizationV1 (role : string)
    (environment : EnvironmentAuthorizationV1) : result unit :=
  _ ← validateSafeTextV1 (role +:+ " deployment ID") (env_DeploymentID environment);
  _ ← validateSafeTextV1 (role +:+ " generation reference") (env_GenerationReference environment);
  _ ← wrap (ValidateDigest (env_BuildIdentity environment))
        ("controlled-session " +:+ role +:+ " build identity");
  _ ← wrap (ValidateDigest (env_PlanDigest environment))
        ("controlled-session " +:+ role +:+ " plan");
  wrap (ValidateIdentityV1 (env_RuntimeIdentity environment))
    ("controlled-session " +:+ role +:+ " runtime identity").

Definition supported_operation (operation : OperationV1) : bool :=
  match operation with OperationRawV1 _ => false | _ => true end.

Definition check_operation (previous : option OperationV1) (operation : OperationV1) : result unit :=
  _ ← reject_if (negb (supported_operation operation)) "controlled-session operation is unsupported";
  reject_if (match previous with
             | Some p => string_geb (operation_text p) (operation_text operation)
             | None => false
             end) "controlled-session operations must be unique and sorted".

Definition check_endpoint_id (previous : option string) (endpointID : string) : result unit :=
  _ ← wrap (ValidateEndpointName endpointID) "controlled-session endpoint ID";
  reject_if (match previous with Some p => string_geb p endpointID | None => false end)
    "controlled-session endpoint IDs must be unique and sorted".

Definition ValidateAuthorizationV1 (authorization : AuthorizationV1) : result unit :=
  _ ← reject_if (negb (bool_decide (auth_Schema authorization = AuthorizationSchemaV1)))
        "controlled-session authorization schema";
  _ ← reject_if (negb (full_match sessionHandlePatternV1 (auth_Handle authorization)))
        "controlled-session handle must use session- followed by 64 lowercase hexadecimal characters";
  _ ← wrap (ValidateLiveRunIDV1 (auth_LiveRunID authorization)) "controlled-session live-run ID";
  _ ← validateEnvironmentAuthorizationV1 "controller" (auth_Controller authorization);
  _ ← validateEnvironmentAuthorizationV1 "workload" (auth_Workload authorization);
  match auth_Operations authorization, auth_EndpointIDs authorization with
  | Some operations, Some endpoints =>
    _ ← check_each check_operation None operations;
    check_each check_endpoint_id None endpoints
  | _, _ => Err "controlled-session authorization collections must use arrays"
  end.

(** [append([]string{}, values...)] is never nil. *)
Definition clone_slice {A} (values : option (list A)) : option (list A) :=
  Some (default [] values).

Definition clone_environment (environment : EnvironmentAuthorizationV1) : EnvironmentAuthorizationV1 :=
  let i := env_RuntimeIdentity environment in
  Environment (env_DeploymentID environment) (env_GenerationReference environment)
    (env_BuildIdentity environment) (env_PlanDigest environment)
    (Identity (Username i) (UID i) (GID i) (clone_slice (SupplementaryGIDs i))).

Definition cloneAuthorizationV1 (a : AuthorizationV1) : AuthorizationV1 :=
  Authorization (auth_Schema a) (auth_Handle a) (auth_LiveRunID a)
    (clone_environment (auth_Controller a)) (clone_environment (auth_Workload a))
    (clone_slice (auth_Operations a)) (clone_slice (auth_EndpointIDs a)).

Definition containsOperationV1 (operations : option (list OperationV1)) (target : OperationV1) : bool :=
  existsb (λ operation, bool_decide (operation = target)) (default [] operations).

Lemma validateEnvironmentAuthorizationV1_groups role e :
  validateEnvironmentAuthorizationV1 role e = Ok tt →
  is_Some (SupplementaryGIDs (env_RuntimeIdentity e)).
Proof.
  unfold validateEnvironmentAuthorizationV1, ValidateIdentityV1. intros H. go_ok.
  destruct (canonicalUnsignedV1 _); [|done]. destruct (canonicalUnsignedV1 _); [|done].
  go_ok. by destruct (SupplementaryGIDs _).
Qed.

Lemma clone_slice_some {A} (values : option (list A)) : is_Some values → clone_slice values = values.
Proof. by intros [? ->]. Qed.

(** Cloning keeps a validated authorization as it is: only aliasing changes. *)
Lemma cloneAuthorizationV1_valid a :
  ValidateAuthorizationV1 a = Ok tt → cloneAuthorizationV1 a = a.
Proof.
  unfold ValidateAuthorizationV1. intros H. go_ok.
  destruct a as [s h l c w [ops|] [eps|]]; simpl in *; try done.
  repeat match goal with H : validateEnvironmentAuthorizationV1 _ _ = _ |- _ =>
    apply validateEnvironmentAuthorizationV1_groups in H end.
  unfold cloneAuthorizationV1, clone_environment; simpl.
  rewrite !clone_slice_some by (done || by eexists).
  by destruct c as [???? []], w as [???? []].
Qed.
