(* ===== verification/SessionProtocol.v ===== *)
(** * Controlled sessions: requests, events and frames

    [internal/controlledsession/protocol.go].  A [[]byte] that may be nil is
    [option (list byte)]; [uint32] fields are integers in [0, 2^32). *)

From S2P Require Import Prelude GoText Identifiers SessionModel SessionAuthorization.
From Stdlib Require Import Strings.Byte.

Open Scope Z_scope.

Definition ProtocolVersionV1 : Z := 1.
Definition MaxFramePayloadV1 : Z := 2 ^ 20.
Definition frameHeaderSizeV1 : nat := 10.
Definition frameMagicV1 : list byte := [x52; x50; x53; x4e].

#[export] Instance byte_eq_dec : EqDecision byte := Byte.byte_eq_dec.

(** ** Requests *)

Inductive RequestKindV1 :=
| RequestInputV1
| RequestResizeV1
| RequestTerminateV1
| RequestCompleteV1
| RequestAcknowledgeTerminatedV1
| RequestRawV1 (raw : string).
#[export] Instance RequestKindV1_eq_dec : EqDecision RequestKindV1.
Proof. solve_decision. Defined.

Record RequestV1 := Request {
  req_Kind : RequestKindV1;
  req_Bytes : option (list byte);
  req_Columns : Z;
  req_Rows : Z
}.

Definition validDimensionsV1 (columns rows : Z) : bool :=
  (1 <=? columns) && (columns <=? 65535) && (1 <=? rows) && (rows <=? 65535).

Definition is_nil {A} (o : option A) : bool := match o with Some _ => false | None => true end.

Definition ValidateRequestV1 (request : RequestV1) : result unit :=
  match req_Kind request with
  | RequestInputV1 =>
    reject_if (is_nil (req_Bytes request) || negb (req_Columns request =? 0)
               || negb (req_Rows request =? 0))
      "controlled-session input request must contain only a byte sequence"
  | RequestResizeV1 =>
    reject_if (negb (is_nil (req_Bytes request))
               || negb (validDimensionsV1 (req_Columns request) (req_Rows request)))
      "controlled-session resize request requires dimensions between 1 and 65535"
  | RequestTerminateV1 | RequestCompleteV1 | RequestAcknowledgeTerminatedV1 =>
    reject_if (negb (is_nil (req_Bytes request)) || negb (req_Columns request =? 0)
               || negb (req_Rows request =? 0))
      "controlled-session request must not contain a payload"
  | RequestRawV1 _ => Err "controlled-session request kind is unsupported"
  end.

Definition operationForRequestV1 (kind : RequestKindV1) : OperationV1 :=
  match kind with
  | RequestInputV1 => OperationInputV1
  | RequestResizeV1 => OperationResizeV1
  | RequestTerminateV1 => OperationTerminateV1
  | RequestCompleteV1 => OperationCompleteV1
  | RequestAcknowledgeTerminatedV1 | RequestRawV1 _ => OperationRawV1 ""
  end.

(** ** Big-endian integers ([encoding/binary]) *)

Definition byte_of (z : Z) : byte := default x00 (Byte.of_N (Z.to_N (z mod 256))).
Definition byte_value (b : byte) : Z := Z.of_N (Byte.to_N b).

Definition put_uint32 (z : Z) : list byte :=
  [byte_of (Z.shiftr z 24); byte_of (Z.shiftr z 16); byte_of (Z.shiftr z 8); byte_of z].

Definition uint32_of (bs : list byte) : Z :=
  fold_left (λ acc b, Z.lor (Z.shiftl acc 8) (byte_value b)) bs 0.

(** ** Request payloads *)

Inductive wireKindV1 :=
| wireRequestInputV1
| wireRequestResizeV1
| wireRequestTerminateV1
| wireRequestCompleteV1
| wireRequestAcknowledgeTerminatedV1.

Definition wire_byte (kind : wireKindV1) : byte :=
  match kind with
  | wireRequestInputV1 => x01
  | wireRequestResizeV1 => x02
  | wireRequestTerminateV1 => x03
  | wireRequestCompleteV1 => x04
  | wireRequestAcknowledgeTerminatedV1 => x05
  end.

(** The source panics on an unsupported kind ("validated request has
    unsupported kind"): [None]. *)
Definition encodeRequestPayloadV1 (request : RequestV1) : option (byte * list byte) :=
  match req_Kind request with
  | RequestInputV1 => Some (wire_byte wireRequestInputV1, default [] (req_Bytes request))
  | RequestResizeV1 =>
    Some (wire_byte wireRequestResizeV1,
          put_uint32 (req_Columns request) ++ put_uint32 (req_Rows request))
  | RequestTerminateV1 => Some (wire_byte wireRequestTerminateV1, [])
  | RequestCompleteV1 => Some (wire_byte wireRequestCompleteV1, [])
  | RequestAcknowledgeTerminatedV1 => Some (wire_byte wireRequestAcknowledgeTerminatedV1, [])
  | RequestRawV1 _ => None
  end.

Definition empty_payload (payload : list byte) (message : string) (kind : RequestKindV1)
    : result RequestV1 :=
  _ ← reject_if (negb (bool_decide (length payload = 0%nat))) message;
  Ok (Request kind None 0 0).

Definition decodeRequestPayloadV1 (kind : byte) (payload : list byte) : result RequestV1 :=
  match kind with
  | x01 => Ok (Request RequestInputV1 (Some payload) 0 0)
  | x02 =>
    _ ← reject_if (negb (bool_decide (length payload = 8%nat)))
          "controlled-session resize frame payload must contain 8 bytes";
    Ok (Request RequestResizeV1 None (uint32_of (take 4 payload)) (uint32_of (drop 4 payload)))
  | x03 => empty_payload payload "controlled-session terminate frame must not contain a payload"
             RequestTerminateV1
  | x04 => empty_payload payload "controlled-session complete frame must not contain a payload"
             RequestCompleteV1
  | x05 => empty_payload payload
             "controlled-session acknowledge-terminated frame must not contain a payload"
             RequestAcknowledgeTerminatedV1
  | _ => Err "controlled-session frame kind is not a controller request"
  end.

(** ** Frames *)

Definition frame_header (kind : byte) (payload : list byte) : list byte :=
  frameMagicV1 ++ [byte_of ProtocolVersionV1; kind] ++ put_uint32 (Z.of_nat (length payload)).

(** [io.ReadFull] of [n] bytes from a stream that holds [input]: the bytes and
    the rest, or an error that leaves the stream drained. *)
Definition read_full (n : nat) (input : list byte) : result (list byte) * list byte :=
  if bool_decide (n ≤ length input)%nat then (Ok (take n input), drop n input)
  else (Err "unexpected EOF", []).

Definition readFrameV1 (input : list byte) : result (byte * list byte) * list byte :=
  match read_full frameHeaderSizeV1 input with
  | (Err _, rest) => (Err "read controlled-session frame header", rest)
  | (Ok header, rest) =>
    if negb (bool_decide (take 4 header = frameMagicV1)) then
      (Err "controlled-session frame magic is invalid", rest)
    else if negb (bool_decide (nth 4 header x00 = byte_of ProtocolVersionV1)) then
      (Err "controlled-session protocol version is unsupported", rest)
    else
      let length := uint32_of (drop 6 header) in
      if MaxFramePayloadV1 <? length then
        (Err "controlled-session frame payload length exceeds the limit", rest)
      else match read_full (Z.to_nat length) rest with
           | (Err _, rest) => (Err "read controlled-session frame payload", rest)
           | (Ok payload, rest) => (Ok (nth 5 header x00, payload), rest)
           end
  end.

Definition ReadRequestV1 (input : list byte) : result RequestV1 * list byte :=
  let '(frame, rest) := readFrameV1 input in
  (('(kind, payload) ← frame;
    request ← decodeRequestPayloadV1 kind payload;
    _ ← ValidateRequestV1 request;
    Ok request), rest).

(** ** Writing through an [io.Writer]

    The writer is code outside the package: any function from its state and
    the bytes offered to its next state, the number of bytes it took and an
    optional error. *)
Section writer.
Context {W : Type} (write : W → list byte → W * (Z * option string)).

(** [None]: the fuel ran out before the loop ended; see
    [write_all_loop_terminates]. *)
Fixpoint write_all_loop (fuel : nat) (w : W) (content : list byte) : option (W * result unit) :=
  match content, fuel with
  | [], _ => Some (w, Ok tt)
  | _, O => None
  | _, S fuel =>
    let '(w, (written, error)) := write w content in
    match error with
    | Some e => Some (w, Err e)
    | None =>
      if (written <=? 0) || (Z.of_nat (length content) <? written) then
        Some (w, Err "short write")
      else write_all_loop fuel w (drop (Z.to_nat written) content)
    end
  end.
Definition writeAllV1 (w : W) (content : list byte) : W * result unit :=
  default (w, Err "unreachable") (write_all_loop (length content) w content).

Definition writeFrameV1 (w : W) (kind : byte) (payload : list byte) : W * result unit :=
  if MaxFramePayloadV1 <? Z.of_nat (length payload) then
    (w, Err "controlled-session frame payload exceeds the limit")
  else match writeAllV1 w (frame_header kind payload) with
       | (w, Err _) => (w, Err "write controlled-session frame header")
       | (w, Ok _) =>
         let '(w, r) := writeAllV1 w payload in
         (w, wrap r "write controlled-session frame payload")
       end.

Definition WriteRequestV1 (w : W) (request : RequestV1) : W * result unit :=
  match ValidateRequestV1 request with
  | Err e => (w, Err e)
  | Ok _ => match encodeRequestPayloadV1 request with
            | Some (kind, payload) => writeFrameV1 w kind payload
            | None => (w, Err "validated request has unsupported kind")
            end
  end.
End writer.

(** ** Lemmas on bytes and integers *)

Lemma byte_value_range b : 0 ≤ byte_value b < 256.
Proof. unfold byte_value. pose proof (Byte.to_N_bounded b). lia. Qed.

Lemma byte_of_value b : byte_of (byte_value b) = b.
Proof.
  unfold byte_of. rewrite Z.mod_small by apply byte_value_range.
  unfold byte_value. by rewrite N2Z.id, Byte.of_to_N.
Qed.

Lemma byte_value_of z : byte_value (byte_of z) = z mod 256.
Proof.
  unfold byte_of, byte_value.
  pose proof (Z.mod_pos_bound z 256 ltac:(lia)).
  destruct (Byte.of_N (Z.to_N (z mod 256))) as [b|] eqn:E; simpl.
  - apply Byte.to_of_N in E. rewrite E. lia.
  - apply Byte.of_N_None_iff in E. lia.
Qed.

Lemma shiftl_lor_add acc b : 0 ≤ b < 256 → Z.lor (Z.shiftl acc 8) b = acc * 256 + b.
Proof. intros Hb. by rewrite lor_shiftl_add. Qed.

Lemma uint32_of_put z : 0 ≤ z < 2 ^ 32 → uint32_of (put_uint32 z) = z.
Proof.
  intros Hz. unfold uint32_of, put_uint32; simpl.
  rewrite !shiftl_lor_add by apply byte_value_range.
  rewrite !byte_value_of, !Z.shiftr_div_pow2 by lia.
  change (2 ^ 24) with 16777216. change (2 ^ 16) with 65536. change (2 ^ 8) with 256.
  change (2 ^ 32) with 4294967296 in Hz. div_lia.
Qed.

Lemma put_uint32_of bs : length bs = 4%nat → put_uint32 (uint32_of bs) = bs.
Proof.
  intros Hl. destruct bs as [|b0 [|b1 [|b2 [|b3 [|]]]]]; try done.
  unfold uint32_of, put_uint32; simpl.
  rewrite !shiftl_lor_add by apply byte_value_range.
  pose proof (byte_value_range b0). pose proof (byte_value_range b1).
  pose proof (byte_value_range b2). pose proof (byte_value_range b3).
  rewrite !Z.shiftr_div_pow2 by lia.
  change (2 ^ 24) with 16777216. change (2 ^ 16) with 65536. change (2 ^ 8) with 256.
  assert (∀ z b, 0 ≤ byte_value b < 256 → z mod 256 = byte_value b → byte_of z = b) as Hbyte.
  { intros z b Hb Hz. rewrite <-(byte_of_value b). unfold byte_of.
    by rewrite Hz, (Z.mod_small (byte_value b)). }
  rewrite (Hbyte _ b0), (Hbyte _ b1), (Hbyte _ b2), (Hbyte _ b3); (done || div_lia).
Qed.

Lemma uint32_of_range bs : length bs = 4%nat → 0 ≤ uint32_of bs < 2 ^ 32.
Proof.
  intros Hl. destruct bs as [|b0 [|b1 [|b2 [|b3 [|]]]]]; try done.
  unfold uint32_of; simpl. rewrite !shiftl_lor_add by apply byte_value_range.
  pose proof (byte_value_range b0). pose proof (byte_value_range b1).
  pose proof (byte_value_range b2). pose proof (byte_value_range b3).
  change (2 ^ 32) with 4294967296. lia.
Qed.

(** ** Writing everything *)

Section writer_lemmas.
Context {W : Type} (write : W → list byte → W * (Z * option string)).

(** Every turn that does not end the loop takes at least one byte. *)
Lemma write_all_loop_terminates fuel w content :
  (length content ≤ fuel)%nat → is_Some (write_all_loop write fuel w content).
Proof.
  revert w content. induction fuel as [|fuel IH]; intros w [|b content] Hf; simpl in *;
    try by eexists. { lia. }
  destruct (write w (b :: content)) as [w' [n [e|]]]; [by eexists|].
  destruct (_ || _) eqn:Hn; [by eexists|]. apply IH. go_bool.
  rewrite length_drop. simpl. lia.
Qed.

Context (sent : W → list byte).
(** The contract of [io.Writer]: the bytes it reports as written are the
    first bytes offered, appended to the stream. *)
Hypothesis write_appends : ∀ w content w' n,
  write w content = (w', (n, None)) → 0 ≤ n ≤ Z.of_nat (length content) →
  sent w' = sent w ++ take (Z.to_nat n) content.

Lemma write_all_loop_sent fuel w content w' :
  write_all_loop write fuel w content = Some (w', Ok tt) → sent w' = sent w ++ content.
Proof using write_appends.
  revert w content. induction fuel as [|fuel IH]; intros w [|b content]; simpl; intros H;
    simplify_eq; try by rewrite app_nil_r.
  destruct (write w (b :: content)) as [w1 [n [e|]]] eqn:Hw; simplify_eq.
  destruct (_ || _) eqn:Hn; simplify_eq. go_bool.
  apply IH in H. rewrite H, (write_appends _ _ _ _ Hw) by (simpl in *; lia).
  by rewrite <-app_assoc, take_drop.
Qed.

Lemma writeAllV1_sent w content w' :
  writeAllV1 write w content = (w', Ok tt) → sent w' = sent w ++ content.
Proof using write_appends.
  unfold writeAllV1. destruct (write_all_loop _ _ _ _) eqn:E; simpl; [|done].
  intros ->. by eapply write_all_loop_sent.
Qed.

Lemma writeFrameV1_sent w kind payload w' :
  writeFrameV1 write w kind payload = (w', Ok tt) →
  sent w' = sent w ++ frame_header kind payload ++ payload ∧
  Z.of_nat (length payload) ≤ MaxFramePayloadV1.
Proof using write_appends.
  unfold writeFrameV1. destruct (_ <? _) eqn:Hl; [done|]. go_bool.
  destruct (writeAllV1 write w _) as [w1 [[]|]] eqn:H1; [|done].
  destruct (writeAllV1 write w1 payload) as [w2 [[]|]] eqn:H2; simpl; intros [= <-].
  apply writeAllV1_sent in H1, H2. by rewrite H2, H1, <-app_assoc.
Qed.

(** A writer that always takes some of the bytes and never fails. *)
Hypothesis write_progress : ∀ w content, content ≠ [] →
  ∃ w' n, write w content = (w', (n, None)) ∧ 1 ≤ n ≤ Z.of_nat (length content).

Lemma writeAllV1_ok w content : ∃ w', writeAllV1 write w content = (w', Ok tt).
Proof using write_progress.
  unfold writeAllV1.
  cut (∀ fuel w, (length content ≤ fuel)%nat →
         ∃ w', write_all_loop write fuel w content = Some (w', Ok tt)).
  { intros H. destruct (H (length content) w) as [w' ->]; [lia|]. by exists w'. }
  clear w. intros fuel. revert content.
  induction fuel as [|fuel IH]; intros [|b content] w Hf; simpl in *; try (by eexists); [lia|].
  destruct (write_progress w (b :: content)) as (w' & n & -> & Hn); [done|].
  replace (_ || _) with false by (symmetry; go_bool; simpl in *; lia).
  apply IH. rewrite length_drop. simpl. lia.
Qed.
End writer_lemmas.

(** ** Frames read back *)

Lemma length_put_uint32 z : length (put_uint32 z) = 4%nat.
Proof. done. Qed.

Lemma length_frame_header kind payload : length (frame_header kind payload) = 10%nat.
Proof. done. Qed.

Lemma readFrameV1_frame kind payload rest :
  Z.of_nat (length payload) ≤ MaxFramePayloadV1 →
  readFrameV1 (frame_header kind payload ++ payload ++ rest) = (Ok (kind, payload), rest).
Proof.
  intros Hl. unfold readFrameV1, read_full, frameHeaderSizeV1.
  rewrite bool_decide_true by (rewrite length_app, length_frame_header; lia).
  rewrite take_app_le by by rewrite length_frame_header.
  rewrite drop_app_ge by by rewrite length_frame_header.
  rewrite length_frame_header, Nat.sub_diag, drop_0.
  change (take 10 (frame_header kind payload)) with (frame_header kind payload).
  change (take 4 (frame_header kind payload)) with frameMagicV1.
  change (nth 4 (frame_header kind payload) x00) with (byte_of ProtocolVersionV1).
  change (nth 5 (frame_header kind payload) x00) with kind.
  change (drop 6 (frame_header kind payload)) with (put_uint32 (Z.of_nat (length payload))).
  rewrite uint32_of_put by (unfold MaxFramePayloadV1 in Hl; lia).
  rewrite !bool_decide_true by done. simpl.
  replace (MaxFramePayloadV1 <? _) with false by (symmetry; go_bool; lia).
  rewrite Nat2Z.id, bool_decide_true by (rewrite length_app; lia).
  by rewrite take_app_length, drop_app_length.
Qed.

Lemma read_full_ok n input bs rest :
  read_full n input = (Ok bs, rest) → input = bs ++ rest ∧ length bs = n.
Proof.
  unfold read_full. case_bool_decide; intros; simplify_eq.
  by rewrite take_drop, length_take_le.
Qed.

Lemma readFrameV1_ok input kind payload rest :
  readFrameV1 input = (Ok (kind, payload), rest) →
  input = frame_header kind payload ++ payload ++ rest ∧
  Z.of_nat (length payload) ≤ MaxFramePayloadV1.
Proof.
  unfold readFrameV1.
  destruct (read_full frameHeaderSizeV1 input) as [[header|] rest1] eqn:Hh; [|done].
  apply read_full_ok in Hh as [-> Hlen].
  destruct (negb (bool_decide (take 4 header = frameMagicV1))) eqn:Hm; [done|].
  destruct (negb (bool_decide (nth 4 header x00 = _))) eqn:Hv; [done|].
  destruct (MaxFramePayloadV1 <? _) eqn:Hl; [done|].
  destruct (read_full _ rest1) as [[p|] rest2] eqn:Hp; [|done].
  apply read_full_ok in Hp as [-> Hplen]. intros [= <- <- <-]. go_bool.
  do 10 (destruct header as [|? header]; [done|]). destruct header; [|done].
  simpl in Hm, Hv, Hl, Hplen. injection Hm as -> -> -> ->. subst.
  assert (0 ≤ uint32_of [b5; b6; b7; b8] < 2 ^ 32) as Hr by by apply uint32_of_range.
  split; [|by rewrite Hplen, Z2Nat.id by lia]. unfold frame_header.
  by rewrite Hplen, Z2Nat.id, put_uint32_of by (done || lia).
Qed.

Lemma encode_decode_request r kind payload :
  ValidateRequestV1 r = Ok tt → encodeRequestPayloadV1 r = Some (kind, payload) →
  decodeRequestPayloadV1 kind payload = Ok r.
Proof.
  destruct r as [k bs c rw]. unfold ValidateRequestV1, encodeRequestPayloadV1; simpl.
  destruct k; intros Hv He; simplify_eq; go_ok; go_bool; destruct bs; simpl in *; try naive_solver.
  unfold validDimensionsV1 in *. go_bool.
  change (Ok (Request RequestResizeV1 None (uint32_of (put_uint32 c)) (uint32_of (put_uint32 rw)))
    = Ok (Request RequestResizeV1 None c rw)).
  rewrite !uint32_of_put by lia. done.
Qed.

Lemma decode_encode_request kind payload r :
  decodeRequestPayloadV1 kind payload = Ok r → ValidateRequestV1 r = Ok tt →
  encodeRequestPayloadV1 r = Some (kind, payload).
Proof.
  unfold decodeRequestPayloadV1, empty_payload.
  destruct kind; intros Hd Hv; try discriminate Hd; go_ok; go_bool; try done;
    try (by destruct payload).
  unfold encodeRequestPayloadV1. cbn [req_Kind req_Columns req_Rows].
  rewrite !put_uint32_of by (rewrite ?length_take, ?length_drop; lia). by rewrite take_drop.
Qed.

(** ** The wire contract of requests *)

(** C37: Round trip: for every writer that keeps the [io.Writer] contract, if
    [WriteRequestV1] succeeds then [ReadRequestV1] applied to the bytes it put
    on the stream, whatever follows them, returns the same request and leaves
    exactly what followed. *)
Theorem request_roundtrip {W} (write : W → list byte → W * (Z * option string))
    (sent : W → list byte) w r w' rest :
  (∀ w content w' n, write w content = (w', (n, None)) → 0 ≤ n ≤ Z.of_nat (length content) →
     sent w' = sent w ++ take (Z.to_nat n) content) →
  WriteRequestV1 write w r = (w', Ok tt) →
  ReadRequestV1 (drop (length (sent w)) (sent w') ++ rest) = (Ok r, rest).
Proof.
  intros Hwrite. unfold WriteRequestV1.
  destruct (ValidateRequestV1 r) as [[]|] eqn:Hv; [|done].
  destruct (encodeRequestPayloadV1 r) as [[kind payload]|] eqn:He; [|done].
  intros Hw. destruct (writeFrameV1_sent write sent Hwrite _ _ _ _ Hw) as [-> Hl].
  rewrite drop_app_length, <-app_assoc. unfold ReadRequestV1.
  rewrite readFrameV1_frame by done. unfold mbind, result_bind.
  by rewrite (encode_decode_request r), Hv.
Qed.

(** A writer that takes at most three bytes at a time. *)
Definition chunk_writer (w content : list byte) : list byte * (Z * option string) :=
  (w ++ take 3 content, (Z.of_nat (length (take 3 content)), None)).

Lemma chunk_writer_appends w content w' n :
  chunk_writer w content = (w', (n, None)) → 0 ≤ n ≤ Z.of_nat (length content) →
  w' = w ++ take (Z.to_nat n) content.
Proof.
  unfold chunk_writer. intros [= <- <-] _. rewrite Nat2Z.id. f_equal.
  rewrite length_take. destruct (decide (3 ≤ length content)%nat).
  - by rewrite Nat.min_l.
  - rewrite Nat.min_r by lia. by rewrite !take_ge by lia.
Qed.

Lemma request_roundtrip_witness :
  let r := Request RequestResizeV1 None 120 40 in
  let w' := fst (WriteRequestV1 chunk_writer [x00] r) in
  ReadRequestV1 (drop 1 w' ++ [x52]) = (Ok r, [x52]).
Proof.
  apply (request_roundtrip chunk_writer (λ w, w) [x00] (Request RequestResizeV1 None 120 40) _ [x52]).
  - exact chunk_writer_appends.
  - vm_compute. reflexivity.
Defined.

(** Canonical parsing: a stream that [ReadRequestV1] accepts starts with
    the exact frame [WriteRequestV1] emits for the request it returns; the
    request is valid and its payload within the frame limit.  So no two
    different byte prefixes parse to the same request. *)
Theorem request_parse_canonical input r rest :
  ReadRequestV1 input = (Ok r, rest) →
  ValidateRequestV1 r = Ok tt ∧
  ∃ kind payload, encodeRequestPayloadV1 r = Some (kind, payload) ∧
    input = frame_header kind payload ++ payload ++ rest ∧
    Z.of_nat (length payload) ≤ MaxFramePayloadV1.
Proof.
  unfold ReadRequestV1. destruct (readFrameV1 input) as [frame rest'] eqn:Hf.
  intros [= Hr ->]. destruct frame as [[kind payload]|]; [|done]. go_ok.
  split; [done|]. exists kind, payload. apply readFrameV1_ok in Hf as [-> Hl].
  eauto using decode_encode_request.
Qed.

Lemma request_parse_canonical_witness :
  let input := frame_header x01 [x68; x69] ++ [x68; x69; x0a] in
  ReadRequestV1 input = (Ok (Request RequestInputV1 (Some [x68; x69]) 0 0), [x0a]) ∧
  ValidateRequestV1 (Request RequestInputV1 (Some [x68; x69]) 0 0) = Ok tt.
Proof.
  split; [vm_compute; reflexivity|].
  apply (request_parse_canonical (frame_header x01 [x68; x69] ++ [x68; x69; x0a]) _ [x0a]).
  vm_compute. reflexivity.
Defined.

(** Totality of writing: on a writer that always takes at least one of the
    bytes offered and reports no error, [WriteRequestV1] of a valid request
    whose input fits a frame succeeds, in however many short writes. *)
Theorem request_write_total {W} (write : W → list byte → W * (Z * option string)) w r :
  (∀ w content, content ≠ [] →
     ∃ w' n, write w content = (w', (n, None)) ∧ 1 ≤ n ≤ Z.of_nat (length content)) →
  ValidateRequestV1 r = Ok tt →
  Z.of_nat (length (default [] (req_Bytes r))) ≤ MaxFramePayloadV1 →
  ∃ w', WriteRequestV1 write w r = (w', Ok tt).
Proof.
  intros Hp Hv Hl. unfold WriteRequestV1. rewrite Hv.
  assert (∃ kind payload, encodeRequestPayloadV1 r = Some (kind, payload) ∧
            Z.of_nat (length payload) ≤ MaxFramePayloadV1) as (kind & payload & -> & Hlp).
  { destruct r as [k bs c rw]; unfold encodeRequestPayloadV1; simpl in *.
    destruct k; try done; eexists _, _; (split; [reflexivity|]);
      unfold MaxFramePayloadV1 in *; rewrite ?length_app, ?length_put_uint32; simpl in *; lia. }
  unfold writeFrameV1. replace (_ <? _) with false by (symmetry; go_bool; lia).
  destruct (writeAllV1_ok write Hp w (frame_header kind payload)) as [w1 ->].
  destruct (writeAllV1_ok write Hp w1 payload) as [w2 ->]. by exists w2.
Qed.

Lemma request_write_total_witness :
  ∃ w', WriteRequestV1 chunk_writer [] (Request RequestInputV1 (Some [x61; x62]) 0 0) = (w', Ok tt).
Proof.
  apply (request_write_total chunk_writer [] (Request RequestInputV1 (Some [x61; x62]) 0 0)).
  - intros w content Hc. eexists _, _. split; [reflexivity|].
    rewrite length_take. destruct content; [done|]. cbn [length]. lia.
  - vm_compute. reflexivity.
  - vm_compute. discriminate.
Defined.
