(* ===== verification/SessionLifecycle.v ===== *)
(** * Controlled sessions: the lifecycle state machine

    [internal/controlledsession/lifecycle.go].  The machine's mutex serialises
    its methods, so one call is one atomic step: [Observe] and [applyRequestV1]
    are functions of the machine.  Inside a call the code mutates the machine
    and the transition it returns; both are the state of the monad [LM]. *)

From S2P Require Import Prelude GoText Identifiers SessionModel SessionAuthorization SessionProtocol.

Open Scope Z_scope.

Inductive StateV1 :=
| StatePreparingV1
| StateActiveV1
| StateTerminatingV1
| StateTerminatedV1.
#[export] Instance StateV1_eq_dec : EqDecision StateV1.
Proof. solve_decision. Defined.

Record FinishV1 := Finish {
  fin_WorkloadStatus : ProcessStatusV1;
  fin_WorkloadOutputFinalizationStatus : WorkloadOutputFinalizationStatusV1;
  fin_ControllerFinalizationStatus : ControllerFinalizationStatusV1;
  fin_CleanupStatus : CleanupStatusV1;
  fin_RecoveryAction : RecoveryActionV1
}.

Inductive ObservationKindV1 :=
| ObservationActivatedV1
| ObservationWorkloadExitV1
| ObservationHostCancelV1
| ObservationControllerLostV1
| ObservationRuntimeObservationLostV1
| ObservationCleanupContainmentLostV1
| ObservationStartupFailureV1
| ObservationWorkloadOutputsFinalizedV1
| ObservationWorkloadOutputsPublishedV1
| ObservationWorkloadOutputFinalizationExpiredV1
| ObservationControllerFinalizationExpiredV1
| ObservationFinishedV1
| ObservationResultDeliveredV1
| ObservationRawV1 (raw : string).
#[export] Instance ObservationKindV1_eq_dec : EqDecision ObservationKindV1.
Proof. solve_decision. Defined.

Record ObservationV1 := Observation {
  o_Kind : ObservationKindV1;
  o_WorkloadStatus : option ProcessStatusV1;
  o_WorkloadOutputFinalizationStatus : option WorkloadOutputFinalizationStatusV1;
  o_WorkloadOutputPending : bool;
  o_Reason : string;
  o_Finish : option FinishV1
}.

Record MachineV1 := Machine {
  m_authorization : AuthorizationV1;
  m_state : StateV1;
  m_activated : bool;
  m_cause : option TerminationCauseV1;
  m_workload : ProcessStatusV1;
  m_workloadOutputs : WorkloadOutputFinalizationStatusV1;
  m_controller : ControllerFinalizationStatusV1;
  m_runtimeObservation : RuntimeObservationStatusV1;
  m_waitingOutputs : bool;
  m_waitingPublication : bool;
  m_waitingFinalize : bool;
  m_resultDelivered : bool;
  m_resultAcknowledged : bool;
  m_result : option ResultV1
}.

Record TransitionV1 := Transition {
  t_Before : StateV1;
  t_After : StateV1;
  t_Cause : option TerminationCauseV1;
  t_CauseLatched : bool;
  t_BeginTermination : bool;
  t_WorkloadOutputFinalizationStatus : WorkloadOutputFinalizationStatusV1;
  t_AwaitingWorkloadOutputFinalization : bool;
  t_AwaitingWorkloadOutputPublication : bool;
  t_AwaitingControllerFinalization : bool;
  t_AwaitingResultAcknowledgement : bool;
  t_RequestAccepted : bool;
  t_ResultAcknowledged : bool;
  t_Result : option ResultV1
}.

(** Assignments to one field. *)
Definition set_m_state (x : StateV1) (r : MachineV1) : MachineV1 :=
  Machine (m_authorization r) x (m_activated r) (m_cause r) (m_workload r)
    (m_workloadOutputs r) (m_controller r) (m_runtimeObservation r) (m_waitingOutputs r)
    (m_waitingPublication r) (m_waitingFinalize r) (m_resultDelivered r)
    (m_resultAcknowledged r) (m_result r).
Definition set_m_activated (x : bool) (r : MachineV1) : MachineV1 :=
  Machine (m_authorization r) (m_state r) x (m_cause r) (m_workload r) (m_workloadOutputs r)
    (m_controller r) (m_runtimeObservation r) (m_waitingOutputs r) (m_waitingPublication r)
    (m_waitingFinalize r) (m_resultDelivered r) (m_resultAcknowledged r) (m_result r).
Definition set_m_cause (x : option TerminationCauseV1) (r : MachineV1) : MachineV1 :=
  Machine (m_authorization r) (m_state r) (m_activated r) x (m_workload r)
    (m_workloadOutputs r) (m_controller r) (m_runtimeObservation r) (m_waitingOutputs r)
    (m_waitingPublication r) (m_waitingFinalize r) (m_resultDelivered r)
    (m_resultAcknowledged r) (m_result r).
Definition set_m_workload (x : ProcessStatusV1) (r : MachineV1) : MachineV1 :=
  Machine (m_authorization r) (m_state r) (m_activated r) (m_cause r) x
    (m_workloadOutputs r) (m_controller r) (m_runtimeObservation r) (m_waitingOutputs r)
    (m_waitingPublication r) (m_waitingFinalize r) (m_resultDelivered r)
    (m_resultAcknowledged r) (m_result r).
Definition set_m_workloadOutputs (x : WorkloadOutputFinalizationStatusV1) (r : MachineV1) : MachineV1 :=
  Machine (m_authorization r) (m_state r) (m_activated r) (m_cause r) (m_workload r) x
    (m_controller r) (m_runtimeObservation r) (m_waitingOutputs r) (m_waitingPublication r)
    (m_waitingFinalize r) (m_resultDelivered r) (m_resultAcknowledged r) (m_result r).
Definition set_m_controller (x : ControllerFinalizationStatusV1) (r : MachineV1) : MachineV1 :=
  Machine (m_authorization r) (m_state r) (m_activated r) (m_cause r) (m_workload r)
    (m_workloadOutputs r) x (m_runtimeObservation r) (m_waitingOutputs r)
    (m_waitingPublication r) (m_waitingFinalize r) (m_resultDelivered r)
    (m_resultAcknowledged r) (m_result r).
Definition set_m_runtimeObservation (x : RuntimeObservationStatusV1) (r : MachineV1) : MachineV1 :=
  Machine (m_authorization r) (m_state r) (m_activated r) (m_cause r) (m_workload r)
    (m_workloadOutputs r) (m_controller r) x (m_waitingOutputs r) (m_waitingPublication r)
    (m_waitingFinalize r) (m_resultDelivered r) (m_resultAcknowledged r) (m_result r).
Definition set_m_waitingOutputs (x : bool) (r : MachineV1) : MachineV1 :=
  Machine (m_authorization r) (m_state r) (m_activated r) (m_cause r) (m_workload r)
    (m_workloadOutputs r) (m_controller r) (m_runtimeObservation r) x
    (m_waitingPublication r) (m_waitingFinalize r) (m_resultDelivered r)
    (m_resultAcknowledged r) (m_result r).
Definition set_m_waitingPublication (x : bool) (r : MachineV1) : MachineV1 :=
  Machine (m_authorization r) (m_state r) (m_activated r) (m_cause r) (m_workload r)
    (m_workloadOutputs r) (m_controller r) (m_runtimeObservation r) (m_waitingOutputs r) x
    (m_waitingFinalize r) (m_resultDelivered r) (m_resultAcknowledged r) (m_result r).
Definition set_m_waitingFinalize (x : bool) (r : MachineV1) : MachineV1 :=
  Machine (m_authorization r) (m_state r) (m_activated r) (m_cause r) (m_workload r)
    (m_workloadOutputs r) (m_controller r) (m_runtimeObservation r) (m_waitingOutputs r)
    (m_waitingPublication r) x (m_resultDelivered r) (m_resultAcknowledged r) (m_result r).
Definition set_m_resultDelivered (x : bool) (r : MachineV1) : MachineV1 :=
  Machine (m_authorization r) (m_state r) (m_activated r) (m_cause r) (m_workload r)
    (m_workloadOutputs r) (m_controller r) (m_runtimeObservation r) (m_waitingOutputs r)
    (m_waitingPublication r) (m_waitingFinalize r) x (m_resultAcknowledged r) (m_result r).
Definition set_m_resultAcknowledged (x : bool) (r : MachineV1) : MachineV1 :=
  Machine (m_authorization r) (m_state r) (m_activated r) (m_cause r) (m_workload r)
    (m_workloadOutputs r) (m_controller r) (m_runtimeObservation r) (m_waitingOutputs r)
    (m_waitingPublication r) (m_waitingFinalize r) (m_resultDelivered r) x (m_result r).
Definition set_m_result (x : option ResultV1) (r : MachineV1) : MachineV1 :=
  Machine (m_authorization r) (m_state r) (m_activated r) (m_cause r) (m_workload r)
    (m_workloadOutputs r) (m_controller r) (m_runtimeObservation r) (m_waitingOutputs r)
    (m_waitingPublication r) (m_waitingFinalize r) (m_resultDelivered r)
    (m_resultAcknowledged r) x.
Definition set_t_CauseLatched (x : bool) (r : TransitionV1) : TransitionV1 :=
  Transition (t_Before r) (t_After r) (t_Cause r) x (t_BeginTermination r)
    (t_WorkloadOutputFinalizationStatus r) (t_AwaitingWorkloadOutputFinalization r)
    (t_AwaitingWorkloadOutputPublication r) (t_AwaitingControllerFinalization r)
    (t_AwaitingResultAcknowledgement r) (t_RequestAccepted r) (t_ResultAcknowledged r)
    (t_Result r).
Definition set_t_BeginTermination (x : bool) (r : TransitionV1) : TransitionV1 :=
  Transition (t_Before r) (t_After r) (t_Cause r) (t_CauseLatched r) x
    (t_WorkloadOutputFinalizationStatus r) (t_AwaitingWorkloadOutputFinalization r)
    (t_AwaitingWorkloadOutputPublication r) (t_AwaitingControllerFinalization r)
    (t_AwaitingResultAcknowledgement r) (t_RequestAccepted r) (t_ResultAcknowledged r)
    (t_Result r).

(** The zero values of the source. *)
Definition no_outputs : WorkloadOutputFinalizationStatusV1 := OutputStatus WorkloadOutputUnsetV1 "".

Definition NewMachineV1 (authorization : AuthorizationV1) : result MachineV1 :=
  _ ← wrap (ValidateAuthorizationV1 authorization) "create controlled-session lifecycle";
  Ok (Machine (cloneAuthorizationV1 authorization) StatePreparingV1 false None
        (ProcessStatus ProcessStatusUnknownV1 None "") no_outputs
        (ControllerStatus ControllerFinalizationUnknownV1 "")
        (ObservationStatus RuntimeObservationMaintainedV1 "")
        false false false false false None).

(** ** The monad of one locked method call *)

Definition LM (A : Type) : Type := MachineV1 * TransitionV1 → (MachineV1 * TransitionV1) * result A.
#[export] Instance LM_ret : MRet LM := λ A a s, (s, Ok a).
#[export] Instance LM_bind : MBind LM := λ A B f e s,
  match e s with (s', Ok a) => f a s' | (s', Err msg) => (s', Err msg) end.

Definition machine : LM MachineV1 := λ s, (s, Ok (fst s)).
Definition check {A} (r : result A) : LM A := λ s, (s, r).
Definition assign (f : MachineV1 → MachineV1) : LM unit := λ s, ((f (fst s), snd s), Ok tt).
Definition report (f : TransitionV1 → TransitionV1) : LM unit := λ s, ((fst s, f (snd s)), Ok tt).
Definition when (condition : bool) (action : LM unit) : LM unit :=
  if condition then action else mret tt.

(** ** Comparisons and clones *)

Definition equalProcessStatusV1 (left right : ProcessStatusV1) : bool :=
  bool_decide (ps_Kind left = ps_Kind right) && bool_decide (ps_Reason left = ps_Reason right)
  && bool_decide (ps_Code left = ps_Code right).

Lemma equalProcessStatusV1_eq left right : equalProcessStatusV1 left right = true ↔ left = right.
Proof.
  unfold equalProcessStatusV1. go_bool. destruct left, right; simpl. naive_solver.
Qed.

Definition unknown_workload (m : MachineV1) : bool :=
  bool_decide (ps_Kind (m_workload m) = ProcessStatusUnknownV1).
Definition controller_is (m : MachineV1) (kind : ControllerFinalizationStatusKindV1) : bool :=
  bool_decide (cs_Kind (m_controller m) = kind).
Definition outputs_are (m : MachineV1) (kind : WorkloadOutputFinalizationStatusKindV1) : bool :=
  bool_decide (os_Kind (m_workloadOutputs m) = kind).
Definition observation_lost (m : MachineV1) : bool :=
  bool_decide (ro_Kind (m_runtimeObservation m) = RuntimeObservationLostV1).
Definition in_state (m : MachineV1) (s : StateV1) : bool := bool_decide (m_state m = s).

(** [machine.cause] as the text stored in a result. *)
Definition cause_value (m : MachineV1) : TerminationCauseV1 := default (CauseRawV1 "") (m_cause m).

(** ** Latching the termination cause *)

Definition latchLocked (cause : TerminationCauseV1) : LM unit := λ s,
  let '(m, t) := s in
  match m_cause m with
  | Some _ => (s, Ok tt)
  | None =>
    let m := set_m_state StateTerminatingV1 (set_m_cause (Some cause) m) in
    let m := if bool_decide (t_Before t = StateActiveV1) then set_m_waitingOutputs true m
             else set_m_workloadOutputs (OutputStatus WorkloadOutputFinalizationDrainedV1 "") m in
    ((m, set_t_BeginTermination true (set_t_CauseLatched true t)), Ok tt)
  end.

Definition completeOutputFinalizationLocked (status : WorkloadOutputFinalizationStatusV1) : LM unit :=
  assign (λ m,
    let m := set_m_waitingOutputs false (set_m_workloadOutputs status m) in
    set_m_waitingFinalize false
      (set_m_waitingPublication (controller_is m ControllerFinalizationActiveV1) m)).

Definition runtime_loss_reason : string :=
  "runtime observation was lost before workload output finalization completed".

Definition finalizePreActivationOutputsForRuntimeObservationLossLocked (reason : string) : LM unit :=
  m ← machine;
  if m_activated m || negb (bool_decide (m_cause m = Some CauseRuntimeObservationLostV1))
     || negb (outputs_are m WorkloadOutputFinalizationDrainedV1) then mret tt
  else completeOutputFinalizationLocked
         (OutputStatus WorkloadOutputFinalizationFailedV1
            (if bool_decide (reason = "") then runtime_loss_reason else reason)).

(** ** Checks of payloads *)

Definition validateCauseObservationV1 (o : ObservationV1) : result unit :=
  _ ← reject_if (negb (is_nil (o_WorkloadStatus o))
                 || negb (is_nil (o_WorkloadOutputFinalizationStatus o))
                 || negb (is_nil (o_Finish o)))
        "observation rejected: carries only an optional reason";
  wrap (validateOptionalSafeTextV1 "reason" (o_Reason o)) "observation rejected: reason".

Definition validateFinishV1 (finish : FinishV1) : result unit :=
  _ ← validateProcessStatusV1 (fin_WorkloadStatus finish) true;
  _ ← validateWorkloadOutputFinalizationStatusV1 (fin_WorkloadOutputFinalizationStatus finish);
  _ ← validateTerminalControllerFinalizationStatusV1 (fin_ControllerFinalizationStatus finish);
  validateCleanupResultV1 (fin_CleanupStatus finish) (fin_RecoveryAction finish).

Definition validateControllerFinishLocked (m : MachineV1) (status : ControllerFinalizationStatusV1)
    : result unit :=
  match cs_Kind (m_controller m) with
  | ControllerFinalizationCompletedV1 | ControllerFinalizationLostV1
  | ControllerFinalizationTimeoutV1 | ControllerFinalizationStartupFailedV1 =>
    reject_if (negb (bool_decide (m_controller m = status)))
      "terminal controller finalization status conflicts with the status already observed"
  | ControllerFinalizationActiveV1 | ControllerFinalizationUnknownV1 =>
    reject_if (negb (bool_decide (cs_Kind status = ControllerFinalizationNotCompletedV1)))
      "controller without explicit completion must finish as not-completed"
  | _ => Err "recorded controller finalization status is invalid before finish"
  end.

(** ** [Observe]: one handler per observation kind *)

Definition no_payload (o : ObservationV1) : bool :=
  is_nil (o_WorkloadStatus o) && is_nil (o_WorkloadOutputFinalizationStatus o)
  && bool_decide (o_Reason o = "") && is_nil (o_Finish o).

Definition observeActivated (o : ObservationV1) : LM unit :=
  m ← machine;
  _ ← check (reject_if (negb (no_payload o) || negb (in_state m StatePreparingV1))
        "activation is valid only while preparing and carries no payload");
  assign (λ m, set_m_controller (ControllerStatus ControllerFinalizationActiveV1 "")
                 (set_m_activated true (set_m_state StateActiveV1 m))).

Definition observeWorkloadExit (o : ObservationV1) : LM unit :=
  m ← machine;
  match o_WorkloadStatus o with
  | Some status =>
    _ ← check (reject_if (negb (is_nil (o_WorkloadOutputFinalizationStatus o))
                          || negb (bool_decide (o_Reason o = "")) || negb (is_nil (o_Finish o)))
          "workload exit requires exactly one workload status");
    _ ← check (reject_if (negb (outputs_are m WorkloadOutputUnsetV1)
                 && negb (m_activated m && in_state m StateTerminatingV1 && unknown_workload m
                          && outputs_are m WorkloadOutputFinalizationFailedV1))
          "workload exit cannot follow workload output finalization");
    _ ← check (reject_if (in_state m StatePreparingV1) "workload exit is invalid before activation");
    _ ← check (wrap (validateProcessStatusV1 status false) "workload exit status");
    _ ← check (reject_if (negb (unknown_workload m) && negb (equalProcessStatusV1 (m_workload m) status))
          "workload exit conflicts with the status already observed");
    _ ← assign (set_m_workload status);
    m ← machine;
    when (in_state m StateActiveV1) (latchLocked CauseWorkloadExitV1)
  | None => check (Err "workload exit requires exactly one workload status")
  end.

Definition observeHostCancel (o : ObservationV1) : LM unit :=
  _ ← check (validateCauseObservationV1 o);
  latchLocked CauseHostCancelV1.

Definition observeControllerLost (o : ObservationV1) : LM unit :=
  m ← machine;
  _ ← check (reject_if (negb (is_nil (o_WorkloadStatus o))
                        || negb (is_nil (o_WorkloadOutputFinalizationStatus o))
                        || negb (is_nil (o_Finish o)))
        "controller loss carries only an optional reason");
  _ ← check (wrap (validateOptionalSafeTextV1 "controller-loss reason" (o_Reason o))
               "controller-loss reason");
  _ ← when (controller_is m ControllerFinalizationUnknownV1
            || controller_is m ControllerFinalizationActiveV1)
        (assign (set_m_controller (ControllerStatus ControllerFinalizationLostV1 (o_Reason o))));
  _ ← assign (λ m, set_m_waitingPublication false (set_m_waitingFinalize false m));
  latchLocked CauseControllerLostV1.

Definition observeRuntimeObservationLost (o : ObservationV1) : LM unit :=
  m ← machine;
  _ ← check (validateCauseObservationV1 o);
  _ ← when (negb (observation_lost m))
        (assign (set_m_runtimeObservation (ObservationStatus RuntimeObservationLostV1 (o_Reason o))));
  _ ← latchLocked CauseRuntimeObservationLostV1;
  finalizePreActivationOutputsForRuntimeObservationLossLocked (o_Reason o).

Definition observeCleanupContainmentLost (o : ObservationV1) : LM unit :=
  _ ← check (validateCauseObservationV1 o);
  latchLocked CauseCleanupContainmentLostV1.

Definition observeStartupFailure (o : ObservationV1) : LM unit :=
  m ← machine;
  _ ← check (reject_if (negb (is_nil (o_WorkloadStatus o)) || negb (is_nil (o_Finish o))
               || (o_WorkloadOutputPending o && negb (is_nil (o_WorkloadOutputFinalizationStatus o))))
        "startup failure carries a reason and at most one workload-output outcome");
  _ ← check (wrap (validateRequiredSafeTextV1 "startup-failure reason" (o_Reason o))
               "startup-failure reason");
  _ ← check (match o_WorkloadOutputFinalizationStatus o with
             | Some status => wrap (validateWorkloadOutputFinalizationStatusV1 status) "output status"
             | None => Ok tt
             end);
  _ ← check (reject_if (negb (controller_is m ControllerFinalizationUnknownV1))
        "startup failure is invalid after controller activation");
  _ ← assign (set_m_controller (ControllerStatus ControllerFinalizationStartupFailedV1 (o_Reason o)));
  _ ← latchLocked CauseStartupFailureV1;
  if o_WorkloadOutputPending o then
    assign (λ m, set_m_waitingOutputs true (set_m_workloadOutputs no_outputs m))
  else match o_WorkloadOutputFinalizationStatus o with
       | Some status => completeOutputFinalizationLocked status
       | None => mret tt
       end.

Definition observeWorkloadOutputsFinalized (o : ObservationV1) : LM unit :=
  m ← machine;
  match o_WorkloadOutputFinalizationStatus o with
  | Some status =>
    _ ← check (reject_if (negb (is_nil (o_WorkloadStatus o)) || negb (bool_decide (o_Reason o = ""))
                          || negb (is_nil (o_Finish o)) || negb (m_waitingOutputs m))
          "workload output finalization requires exactly one status while pending");
    _ ← check (reject_if (m_activated m && unknown_workload m
                 && negb (observation_lost m
                          && bool_decide (os_Kind status = WorkloadOutputFinalizationFailedV1)))
          "workload output finalization requires an observed terminal workload status");
    _ ← check (wrap (validateWorkloadOutputFinalizationStatusV1 status) "output status");
    _ ← check (reject_if (observation_lost m
                 && bool_decide (os_Kind status = WorkloadOutputFinalizationDrainedV1))
          "runtime observation loss requires failed workload output finalization");
    completeOutputFinalizationLocked status
  | None => check (Err "workload output finalization requires exactly one status while pending")
  end.

Definition observeWorkloadOutputsPublished (o : ObservationV1) : LM unit :=
  m ← machine;
  _ ← check (reject_if (negb (no_payload o) || negb (in_state m StateTerminatingV1)
               || m_waitingOutputs m || outputs_are m WorkloadOutputUnsetV1
               || negb (m_waitingPublication m))
        "workload output publication is valid only after output finalization");
  assign (λ m, set_m_waitingFinalize
                 (controller_is m ControllerFinalizationActiveV1
                  && containsOperationV1 (auth_Operations (m_authorization m)) OperationCompleteV1)
                 (set_m_waitingPublication false m)).

Definition observeWorkloadOutputFinalizationExpired (o : ObservationV1) : LM unit :=
  m ← machine;
  _ ← check (reject_if (negb (is_nil (o_WorkloadStatus o))
               || negb (is_nil (o_WorkloadOutputFinalizationStatus o))
               || negb (is_nil (o_Finish o)) || negb (m_waitingOutputs m))
        "output-finalization expiry carries only a required reason while pending");
  _ ← check (wrap (validateRequiredSafeTextV1 "workload output finalization expiry reason" (o_Reason o))
               "expiry reason");
  completeOutputFinalizationLocked (OutputStatus WorkloadOutputFinalizationFailedV1 (o_Reason o)).

Definition observeControllerFinalizationExpired (o : ObservationV1) : LM unit :=
  m ← machine;
  _ ← check (reject_if (negb (no_payload o) || negb (m_waitingFinalize m))
        "finalization expiry requires an active controller-finalization wait");
  assign (λ m, set_m_controller (ControllerStatus ControllerFinalizationTimeoutV1 "")
                 (set_m_waitingFinalize false m)).

Definition finish_result (m : MachineV1) (finish : FinishV1) : ResultV1 :=
  Result (cause_value m) (fin_WorkloadStatus finish) (fin_WorkloadOutputFinalizationStatus finish)
    (m_runtimeObservation m) (fin_ControllerFinalizationStatus finish) (fin_CleanupStatus finish)
    (fin_RecoveryAction finish).

Definition observeFinished (o : ObservationV1) : LM unit :=
  m ← machine;
  match o_Finish o with
  | Some finish =>
    _ ← check (reject_if (negb (is_nil (o_WorkloadStatus o))
                 || negb (is_nil (o_WorkloadOutputFinalizationStatus o))
                 || negb (bool_decide (o_Reason o = "")))
          "finish requires exactly one terminal status set");
    _ ← check (reject_if (negb (in_state m StateTerminatingV1) || m_waitingOutputs m
                 || m_waitingPublication m || outputs_are m WorkloadOutputUnsetV1
                 || m_waitingFinalize m)
          "finish requires published workload output finalization and no pending wait");
    _ ← check (wrap (validateFinishV1 finish) "finish status");
    _ ← check (reject_if (negb (unknown_workload m)
                 && negb (equalProcessStatusV1 (m_workload m) (fin_WorkloadStatus finish)))
          "terminal workload status conflicts with the status already observed");
    _ ← check (reject_if (negb (bool_decide
                 (m_workloadOutputs m = fin_WorkloadOutputFinalizationStatus finish)))
          "terminal workload output finalization status conflicts");
    _ ← check (wrap (validateControllerFinishLocked m (fin_ControllerFinalizationStatus finish))
                 "controller finish");
    _ ← check (wrap (ValidateResultV1 (finish_result m finish)) "result");
    let result := finish_result m finish in
    assign (λ m, set_m_state StateTerminatedV1 (set_m_result (Some result)
                   (set_m_controller (res_ControllerFinalizationStatus result)
                      (set_m_workload (res_WorkloadStatus result) m))))
  | None => check (Err "finish requires exactly one terminal status set")
  end.

Definition observeResultDelivered (o : ObservationV1) : LM unit :=
  m ← machine;
  _ ← check (reject_if (negb (no_payload o) || negb (in_state m StateTerminatedV1)
               || is_nil (m_result m))
        "result delivery is valid only after termination and carries no payload");
  _ ← assign (set_m_resultDelivered true);
  m ← machine;
  report (λ t, Transition (t_Before t) (t_After t) (t_Cause t) (t_CauseLatched t)
    (t_BeginTermination t) (t_WorkloadOutputFinalizationStatus t)
    (t_AwaitingWorkloadOutputFinalization t) (t_AwaitingWorkloadOutputPublication t)
    (t_AwaitingControllerFinalization t) (negb (m_resultAcknowledged m)) (t_RequestAccepted t)
    (m_resultAcknowledged m) (m_result m)).

(** The assignments to the transition after the switch. *)
Definition complete_transition (accepted : bool) (result : MachineV1 → option ResultV1) : LM unit :=
  m ← machine;
  report (λ t, Transition (t_Before t) (m_state m) (m_cause m) (t_CauseLatched t)
    (t_BeginTermination t) (m_workloadOutputs m) (m_waitingOutputs m) (m_waitingPublication m)
    (m_waitingFinalize m) (m_resultDelivered m && negb (m_resultAcknowledged m)) accepted
    (m_resultAcknowledged m) (result m)).

Definition observe_switch (o : ObservationV1) : LM unit :=
  match o_Kind o with
  | ObservationActivatedV1 => observeActivated o
  | ObservationWorkloadExitV1 => observeWorkloadExit o
  | ObservationHostCancelV1 => observeHostCancel o
  | ObservationControllerLostV1 => observeControllerLost o
  | ObservationRuntimeObservationLostV1 => observeRuntimeObservationLost o
  | ObservationCleanupContainmentLostV1 => observeCleanupContainmentLost o
  | ObservationStartupFailureV1 => observeStartupFailure o
  | ObservationWorkloadOutputsFinalizedV1 => observeWorkloadOutputsFinalized o
  | ObservationWorkloadOutputsPublishedV1 => observeWorkloadOutputsPublished o
  | ObservationWorkloadOutputFinalizationExpiredV1 => observeWorkloadOutputFinalizationExpired o
  | ObservationControllerFinalizationExpiredV1 => observeControllerFinalizationExpired o
  | ObservationFinishedV1 => observeFinished o
  | ObservationResultDeliveredV1 | ObservationRawV1 _ => check (Err "observation kind is unsupported")
  end.

Definition start_transition (m : MachineV1) : TransitionV1 :=
  Transition (m_state m) (m_state m) (m_cause m) false false no_outputs false false false false
    false false None.

Definition Observe_body (o : ObservationV1) : LM unit :=
  m ← machine;
  _ ← check (reject_if (o_WorkloadOutputPending o
               && negb (bool_decide (o_Kind o = ObservationStartupFailureV1)))
        "pending workload output is valid only for startup failure");
  if bool_decide (o_Kind o = ObservationResultDeliveredV1) then observeResultDelivered o
  else
    _ ← check (reject_if (in_state m StateTerminatedV1) "lifecycle is already terminated");
    _ ← observe_switch o;
    complete_transition false m_result.

(** [Observe]: the machine afterwards, the transition and the error. *)
Definition Observe (m : MachineV1) (o : ObservationV1) : (MachineV1 * TransitionV1) * result unit :=
  Observe_body o (m, start_transition m).

(** ** Requests of the controller *)

Definition acknowledgeTerminated : LM bool :=
  m ← machine;
  _ ← check (reject_if (negb (in_state m StateTerminatedV1) || is_nil (m_result m)
                        || negb (m_resultDelivered m))
        "terminal result has not been delivered");
  _ ← assign (set_m_resultAcknowledged true);
  m ← machine;
  _ ← report (λ t, Transition (t_Before t) (t_After t) (t_Cause t) (t_CauseLatched t)
    (t_BeginTermination t) (t_WorkloadOutputFinalizationStatus t)
    (t_AwaitingWorkloadOutputFinalization t) (t_AwaitingWorkloadOutputPublication t)
    (t_AwaitingControllerFinalization t) false true true (m_result m));
  mret false.

(** The switch on the lifecycle state; [true] when the request is discarded. *)
Definition request_switch (request : RequestV1) (discardTerminatingPTY : bool) : LM bool :=
  m ← machine;
  match m_state m with
  | StateActiveV1 =>
    match req_Kind request with
    | RequestTerminateV1 => _ ← latchLocked CauseControllerTerminateV1; mret false
    | RequestCompleteV1 =>
      check (Err "completion is valid only after workload outputs are finalized")
    | _ => mret false
    end
  | StateTerminatingV1 =>
    match req_Kind request with
    | RequestInputV1 | RequestResizeV1 =>
      if discardTerminatingPTY then mret true
      else check (Err "request is not accepted while terminating")
    | RequestTerminateV1 => mret false
    | RequestCompleteV1 =>
      _ ← check (reject_if (m_waitingOutputs m || negb (m_waitingFinalize m)
                   || negb (controller_is m ControllerFinalizationActiveV1))
            "completion requires finalized workload outputs and a pending controller finalization");
      _ ← assign (λ m, set_m_controller (ControllerStatus ControllerFinalizationCompletedV1 "")
                         (set_m_waitingFinalize false m));
      mret false
    | _ => check (Err "request is not accepted while terminating")
    end
  | StatePreparingV1 | StateTerminatedV1 => check (Err "requests are not accepted in this state")
  end.

Definition applyRequest_body (request : RequestV1) (discardTerminatingPTY : bool) : LM bool :=
  m ← machine;
  _ ← check (wrap (ValidateRequestV1 request) "request");
  if bool_decide (req_Kind request = RequestAcknowledgeTerminatedV1) then acknowledgeTerminated
  else
    _ ← check (reject_if (negb (containsOperationV1 (auth_Operations (m_authorization m))
                                  (operationForRequestV1 (req_Kind request))))
          "operation was not granted");
    discarded ← request_switch request discardTerminatingPTY;
    if discarded : bool then mret true
    else _ ← complete_transition true (λ _, None); mret false.

Definition applyRequestV1 (m : MachineV1) (request : RequestV1) (discardTerminatingPTY : bool)
    : (MachineV1 * TransitionV1) * result bool :=
  applyRequest_body request discardTerminatingPTY (m, start_transition m).

Definition ApplyRequest (m : MachineV1) (request : RequestV1)
    : (MachineV1 * TransitionV1) * result unit :=
  let '(s, r) := applyRequestV1 m request false in (s, _ ← r; Ok tt).

Definition ApplyRequestOrDiscardTerminatingPTYV1 (m : MachineV1) (request : RequestV1)
    : (MachineV1 * TransitionV1) * result bool :=
  applyRequestV1 m request true.

(** ** Snapshots *)

Record SnapshotV1 := Snap {
  snap_State : StateV1;
  snap_Cause : option TerminationCauseV1;
  snap_WorkloadStatus : ProcessStatusV1;
  snap_WorkloadOutputFinalizationStatus : WorkloadOutputFinalizationStatusV1;
  snap_RuntimeObservationStatus : RuntimeObservationStatusV1;
  snap_ControllerFinalizationStatus : ControllerFinalizationStatusV1;
  snap_AwaitingWorkloadOutputFinalization : bool;
  snap_AwaitingWorkloadOutputPublication : bool;
  snap_AwaitingControllerFinalization : bool;
  snap_AwaitingResultAcknowledgement : bool;
  snap_ResultAcknowledged : bool;
  snap_Result : option ResultV1
}.

Definition Snapshot (m : MachineV1) : SnapshotV1 :=
  Snap (m_state m) (m_cause m) (m_workload m) (m_workloadOutputs m) (m_runtimeObservation m)
    (m_controller m) (m_waitingOutputs m) (m_waitingPublication m) (m_waitingFinalize m)
    (m_resultDelivered m && negb (m_resultAcknowledged m)) (m_resultAcknowledged m) (m_result m).
