(* ===== verification/SessionLifecycleFacts.v ===== *)
(** * Controlled sessions: what the lifecycle machine guarantees

    Theorems about [SessionLifecycle]: the invariant of every machine reachable
    by observations and requests, the atomicity of rejected calls, the single
    termination cause, the order of the shutdown phases, the immutable and
    validated result, and that every session can be brought to its end. *)

From S2P Require Import Prelude GoText Identifiers SessionModel SessionAuthorization.
From S2P Require Import SessionProtocol SessionLifecycle.

Open Scope Z_scope.

(** ** Running a locked method symbolically *)

Lemma run_bind {A B} (e : LM A) (f : A → LM B) s s' b :
  (e ≫= f) s = (s', Ok b) ↔ ∃ s1 a, e s = (s1, Ok a) ∧ f a s1 = (s', Ok b).
Proof.
  unfold mbind, LM_bind. destruct (e s) as [s1 [a|msg]]; split.
  - by exists s1, a.
  - by intros (? & ? & [= <- <-] & ?).
  - done.
  - by intros (? & ? & [=] & ?).
Qed.

Lemma run_check {A} (r : result A) s s' a : check r s = (s', Ok a) ↔ s' = s ∧ r = Ok a.
Proof. unfold check. naive_solver. Qed.

Lemma run_machine s s' m : machine s = (s', Ok m) ↔ s' = s ∧ m = s.1.
Proof. unfold machine. naive_solver. Qed.

Lemma run_assign f s s' u : assign f s = (s', Ok u) ↔ s' = (f s.1, s.2).
Proof. destruct u. unfold assign. naive_solver. Qed.

Lemma run_report f s s' u : report f s = (s', Ok u) ↔ s' = (s.1, f s.2).
Proof. destruct u. unfold report. naive_solver. Qed.

Lemma run_ret {A} (a b : A) s s' : (mret a : LM A) s = (s', Ok b) ↔ s' = s ∧ b = a.
Proof. unfold mret, LM_ret. naive_solver. Qed.

Lemma run_when c e s s' u :
  when c e s = (s', Ok u) ↔ (c = true ∧ e s = (s', Ok u)) ∨ (c = false ∧ s' = s).
Proof. destruct u, c; simpl; rewrite ?run_ret; naive_solver. Qed.

(** [lm_run] opens a successful run into the checks that passed and the machine
    that was assigned. *)
Ltac lm_run :=
  repeat match goal with
  | H : (_ ≫= _) _ = (_, Ok _) |- _ =>
      apply run_bind in H; let s := fresh "s" in let a := fresh "a" in
      destruct H as (s & a & ? & H); cbv beta in H
  | H : check _ _ = (_, Ok _) |- _ => apply run_check in H as [-> H]
  | H : machine _ = (_, Ok _) |- _ => apply run_machine in H as [-> ->]; cbn [fst snd] in *
  | H : assign _ _ = (_, Ok _) |- _ => apply run_assign in H as ->; cbn [fst snd] in *
  | H : report _ _ = (_, Ok _) |- _ => apply run_report in H as ->; cbn [fst snd] in *
  | H : mret _ _ = (_, Ok _) |- _ => apply run_ret in H as [-> ?]
  | H : when _ _ _ = (_, Ok _) |- _ => apply run_when in H as [[? H]|[? ->]]
  | H : Err _ = Ok _ |- _ => discriminate H
  | u : unit |- _ => destruct u
  end.

(** A call that fails has changed nothing: every check precedes every write. *)
Definition atomic {A} (e : LM A) : Prop :=
  ∀ s s' msg, e s = (s', Err msg) → s' = s.
Definition pure {A} (e : LM A) : Prop := ∀ s, (e s).1 = s.
Definition succeeds {A} (e : LM A) : Prop := ∀ s, ∃ s' a, e s = (s', Ok a).

Lemma atomic_pure {A} (e : LM A) : pure e → atomic e.
Proof. intros He s s' msg Hs. specialize (He s). by rewrite Hs in He. Qed.
Lemma atomic_succeeds {A} (e : LM A) : succeeds e → atomic e.
Proof. intros He s s' msg Hs. destruct (He s) as (? & ? & Hs'). congruence. Qed.
Lemma atomic_bind_pure {A B} (e : LM A) (f : A → LM B) :
  pure e → (∀ a, atomic (f a)) → atomic (e ≫= f).
Proof.
  intros He Hf s s' msg. specialize (He s). unfold mbind, LM_bind.
  destruct (e s) as [s1 [a|]]; simpl in He; subst s1; [apply Hf|congruence].
Qed.
Lemma atomic_bind_succeeds {A B} (e : LM A) (f : A → LM B) :
  atomic e → (∀ a, succeeds (f a)) → atomic (e ≫= f).
Proof.
  intros He Hf s s' msg. unfold mbind, LM_bind.
  destruct (e s) as [s1 [a|]] eqn:Hs; [|intros [= <- ?]; by eapply He].
  intros Hs'. destruct (Hf a s1) as (? & ? & ?). congruence.
Qed.
Lemma succeeds_bind {A B} (e : LM A) (f : A → LM B) :
  succeeds e → (∀ a, succeeds (f a)) → succeeds (e ≫= f).
Proof.
  intros He Hf s. unfold mbind, LM_bind. destruct (He s) as (s1 & a & ->). apply Hf.
Qed.
Lemma pure_machine : pure machine. Proof. done. Qed.
Lemma pure_check {A} (r : result A) : pure (check r). Proof. done. Qed.
Lemma succeeds_machine : succeeds machine. Proof. intros s; by eexists _, _. Qed.
Lemma succeeds_ret {A} (a : A) : succeeds (mret a : LM A). Proof. intros s; by eexists _, _. Qed.
Lemma succeeds_assign f : succeeds (assign f). Proof. intros s; by eexists _, _. Qed.
Lemma succeeds_report f : succeeds (report f). Proof. intros s; by eexists _, _. Qed.
Lemma succeeds_when c e : succeeds e → succeeds (when c e).
Proof. destruct c; simpl; eauto using succeeds_ret. Qed.
Lemma succeeds_latch c : succeeds (latchLocked c).
Proof. intros [m t]. unfold latchLocked. destruct (m_cause m); by eexists _, _. Qed.
Lemma succeeds_complete status : succeeds (completeOutputFinalizationLocked status).
Proof. apply succeeds_assign. Qed.
Lemma succeeds_finalize reason :
  succeeds (finalizePreActivationOutputsForRuntimeObservationLossLocked reason).
Proof.
  apply succeeds_bind; [apply succeeds_machine|intros m].
  destruct (_ || _); [apply succeeds_ret|apply succeeds_complete].
Qed.

Create HintDb lm discriminated.
#[export] Hint Resolve atomic_pure atomic_succeeds atomic_bind_pure pure_machine pure_check
  succeeds_machine succeeds_ret succeeds_assign succeeds_report succeeds_when succeeds_latch
  succeeds_complete succeeds_finalize succeeds_bind : lm.

Ltac solve_succeeds :=
  repeat match goal with
  | |- ∀ _, _ => intros ?
  | |- succeeds (match ?x with _ => _ end) => destruct x
  | |- succeeds (_ ≫= _) => apply succeeds_bind
  | _ => solve [auto 2 with lm]
  end.
Ltac solve_atomic :=
  repeat match goal with
  | |- ∀ _, _ => intros ?
  | |- atomic (match ?x with _ => _ end) => destruct x
  | |- atomic (machine ≫= _) => apply atomic_bind_pure; [apply pure_machine|]
  | |- atomic (check _ ≫= _) => apply atomic_bind_pure; [apply pure_check|]
  | _ => solve [auto 2 with lm]
  | |- atomic _ => apply atomic_succeeds; solve [solve_succeeds]
  end.

Lemma atomic_observe_switch o : atomic (observe_switch o).
Proof.
  unfold observe_switch, observeActivated, observeWorkloadExit, observeHostCancel,
    observeControllerLost, observeRuntimeObservationLost, observeCleanupContainmentLost,
    observeStartupFailure, observeWorkloadOutputsFinalized, observeWorkloadOutputsPublished,
    observeWorkloadOutputFinalizationExpired, observeControllerFinalizationExpired,
    observeFinished.
  solve_atomic.
Qed.

Lemma succeeds_complete_transition accepted f : succeeds (complete_transition accepted f).
Proof. unfold complete_transition. solve_succeeds. Qed.
#[export] Hint Resolve atomic_observe_switch succeeds_complete_transition : lm.

Lemma atomic_Observe_body o : atomic (Observe_body o).
Proof.
  unfold Observe_body, observeResultDelivered. solve_atomic.
  apply atomic_bind_succeeds; auto with lm.
Qed.

Lemma atomic_request_switch request discard : atomic (request_switch request discard).
Proof. unfold request_switch. solve_atomic. Qed.

Lemma atomic_applyRequest_body request discard : atomic (applyRequest_body request discard).
Proof.
  unfold applyRequest_body, acknowledgeTerminated. solve_atomic.
  apply atomic_bind_succeeds; [apply atomic_request_switch|]. solve_succeeds.
Qed.

(** ** The invariant of reachable machines *)

Definition before_termination (m : MachineV1) : Prop :=
  m_cause m = None ∧ m_workload m = ProcessStatus ProcessStatusUnknownV1 None ""
  ∧ m_workloadOutputs m = no_outputs
  ∧ m_runtimeObservation m = ObservationStatus RuntimeObservationMaintainedV1 ""
  ∧ m_waitingOutputs m = false ∧ m_waitingPublication m = false ∧ m_waitingFinalize m = false
  ∧ m_resultDelivered m = false ∧ m_resultAcknowledged m = false ∧ m_result m = None.

(** The controller status that the phases before and after activation allow. *)
Definition controller_before_activation (kind : ControllerFinalizationStatusKindV1) : Prop :=
  kind = ControllerFinalizationUnknownV1 ∨ kind = ControllerFinalizationLostV1
  ∨ kind = ControllerFinalizationStartupFailedV1.
Definition controller_after_activation (kind : ControllerFinalizationStatusKindV1) : Prop :=
  kind = ControllerFinalizationActiveV1 ∨ kind = ControllerFinalizationLostV1
  ∨ kind = ControllerFinalizationCompletedV1 ∨ kind = ControllerFinalizationTimeoutV1.

(** What each termination cause says about the recorded statuses. *)
Definition cause_facts (m : MachineV1) : Prop :=
  match m_cause m with
  | None | Some (CauseRawV1 _) => False
  | Some CauseControllerTerminateV1 => m_activated m = true
  | Some CauseWorkloadExitV1 =>
    m_activated m = true ∧ ps_Kind (m_workload m) ≠ ProcessStatusUnknownV1
  | Some CauseHostCancelV1 | Some CauseCleanupContainmentLostV1 => True
  | Some CauseControllerLostV1 => cs_Kind (m_controller m) = ControllerFinalizationLostV1
  | Some CauseStartupFailureV1 =>
    m_activated m = false ∧ cs_Kind (m_controller m) = ControllerFinalizationStartupFailedV1
  | Some CauseRuntimeObservationLostV1 =>
    ro_Kind (m_runtimeObservation m) = RuntimeObservationLostV1
    ∧ (m_activated m = true →
       os_Kind (m_workloadOutputs m) ≠ WorkloadOutputFinalizationDrainedV1)
  end.

Record terminating_facts (m : MachineV1) : Prop := {
  tf_cause : cause_facts m;
  tf_result : m_result m = None;
  tf_delivered : m_resultDelivered m = false;
  tf_acknowledged : m_resultAcknowledged m = false;
  tf_outputs : m_waitingOutputs m = true ↔ m_workloadOutputs m = no_outputs;
  tf_publication : m_waitingPublication m = true →
    cs_Kind (m_controller m) = ControllerFinalizationActiveV1 ∧ m_waitingOutputs m = false;
  tf_finalize : m_waitingFinalize m = true →
    cs_Kind (m_controller m) = ControllerFinalizationActiveV1 ∧ m_waitingOutputs m = false
    ∧ m_waitingPublication m = false
    ∧ containsOperationV1 (auth_Operations (m_authorization m)) OperationCompleteV1 = true;
  tf_before : m_activated m = false → controller_before_activation (cs_Kind (m_controller m));
  tf_after : m_activated m = true → controller_after_activation (cs_Kind (m_controller m));
  tf_completed : cs_Kind (m_controller m) = ControllerFinalizationCompletedV1 →
    m_waitingOutputs m = false ∧ m_waitingPublication m = false ∧ m_waitingFinalize m = false
    ∧ containsOperationV1 (auth_Operations (m_authorization m)) OperationCompleteV1 = true
}.

Record terminated_facts (m : MachineV1) (r : ResultV1) : Prop := {
  df_result : m_result m = Some r;
  df_valid : ValidateResultV1 r = Ok tt;
  df_cause : m_cause m = Some (res_Cause r);
  df_workload : m_workload m = res_WorkloadStatus r;
  df_outputs : m_workloadOutputs m = res_WorkloadOutputFinalizationStatus r;
  df_observation : m_runtimeObservation m = res_RuntimeObservationStatus r;
  df_controller : m_controller m = res_ControllerFinalizationStatus r;
  df_waits : m_waitingOutputs m = false ∧ m_waitingPublication m = false
             ∧ m_waitingFinalize m = false;
  df_acknowledged : m_resultAcknowledged m = true → m_resultDelivered m = true
}.

Definition phase_facts (m : MachineV1) : Prop :=
  match m_state m with
  | StatePreparingV1 =>
    before_termination m ∧ m_activated m = false
    ∧ m_controller m = ControllerStatus ControllerFinalizationUnknownV1 ""
  | StateActiveV1 =>
    before_termination m ∧ m_activated m = true
    ∧ m_controller m = ControllerStatus ControllerFinalizationActiveV1 ""
  | StateTerminatingV1 => terminating_facts m
  | StateTerminatedV1 => ∃ r, terminated_facts m r
  end.

Record invariant (m : MachineV1) : Prop := {
  inv_authorization : ValidateAuthorizationV1 (m_authorization m) = Ok tt;
  inv_workload : validateProcessStatusV1 (m_workload m) true = Ok tt;
  inv_outputs : m_workloadOutputs m = no_outputs
    ∨ validateWorkloadOutputFinalizationStatusV1 (m_workloadOutputs m) = Ok tt;
  inv_observation : validateRuntimeObservationStatusV1 (m_runtimeObservation m) = Ok tt;
  inv_controller : validateOptionalSafeTextV1 "controller finalization status reason"
    (cs_Reason (m_controller m)) = Ok tt;
  inv_phase : phase_facts m
}.

(** ** The phases of a session

    The waits of a terminating machine are the steps of its shutdown: close the
    workload's outputs, publish them to the controller, let the controller
    complete, then finish. *)

Inductive phase :=
| Preparing | Running | Draining | Publishing | Finalizing | Closing | Done.

Definition phase_of (m : MachineV1) : phase :=
  match m_state m with
  | StatePreparingV1 => Preparing
  | StateActiveV1 => Running
  | StateTerminatingV1 =>
    if m_waitingOutputs m then Draining
    else if m_waitingPublication m then Publishing
    else if m_waitingFinalize m then Finalizing
    else Closing
  | StateTerminatedV1 => Done
  end.

(** The steps between phases; without activation there is no controller to
    publish to, and a startup failure may reopen the output barrier. *)
Inductive phase_step : bool → phase → phase → Prop :=
| phase_stay activated p : phase_step activated p p
| phase_activate : phase_step false Preparing Running
| phase_abandon : phase_step false Preparing Closing
| phase_abandon_pending : phase_step false Preparing Draining
| phase_reopen : phase_step false Closing Draining
| phase_stop : phase_step true Running Draining
| phase_drained activated : phase_step activated Draining Closing
| phase_publish : phase_step true Draining Publishing
| phase_published : phase_step true Publishing Finalizing
| phase_unpublished : phase_step true Publishing Closing
| phase_finalized : phase_step true Finalizing Closing
| phase_finish activated : phase_step activated Closing Done.

(** What one accepted call may change. *)
Record advance (m m' : MachineV1) : Prop := {
  adv_authorization : m_authorization m' = m_authorization m;
  adv_activated : m_activated m = true → m_activated m' = true;
  adv_cause c : m_cause m = Some c → m_cause m' = Some c;
  adv_workload : ps_Kind (m_workload m) ≠ ProcessStatusUnknownV1 → m_workload m' = m_workload m;
  adv_observation : ro_Kind (m_runtimeObservation m) = RuntimeObservationLostV1 →
    m_runtimeObservation m' = m_runtimeObservation m;
  adv_controller : terminal_controller_kind (cs_Kind (m_controller m)) = true →
    m_controller m' = m_controller m;
  adv_result r : m_result m = Some r → m_result m' = Some r;
  adv_phase : phase_step (m_activated m) (phase_of m) (phase_of m')
}.

(** A text that one field accepts is accepted by every field. *)
Lemma safe_text_field f g value :
  validateOptionalSafeTextV1 f value = Ok tt → validateOptionalSafeTextV1 g value = Ok tt.
Proof.
  unfold validateOptionalSafeTextV1, validateSafeTextV1. case_bool_decide; [done|].
  intros Hf. go_ok. by do 2 match goal with H : _ = false |- _ => rewrite H; clear H end.
Qed.
Lemma required_text_optional f value :
  validateRequiredSafeTextV1 f value = Ok tt → validateOptionalSafeTextV1 f value = Ok tt.
Proof. unfold validateRequiredSafeTextV1, validateOptionalSafeTextV1. by case_bool_decide. Qed.
Lemma required_text_field f g value :
  validateRequiredSafeTextV1 f value = Ok tt → validateRequiredSafeTextV1 g value = Ok tt.
Proof.
  intros H. assert (value ≠ "") as Hv by (by intros ->).
  apply required_text_optional in H. apply (safe_text_field f g) in H.
  unfold validateOptionalSafeTextV1, validateRequiredSafeTextV1 in *.
  by rewrite bool_decide_false in H |- *.
Qed.
Lemma failed_outputs_valid f reason :
  validateRequiredSafeTextV1 f reason = Ok tt →
  validateWorkloadOutputFinalizationStatusV1
    (OutputStatus WorkloadOutputFinalizationFailedV1 reason) = Ok tt.
Proof. apply required_text_field. Qed.
Lemma runtime_loss_outputs_valid f reason :
  validateOptionalSafeTextV1 f reason = Ok tt →
  validateWorkloadOutputFinalizationStatusV1
    (OutputStatus WorkloadOutputFinalizationFailedV1
       (if bool_decide (reason = "") then runtime_loss_reason else reason)) = Ok tt.
Proof.
  intros H. case_bool_decide as Hr; [by vm_compute|].
  apply (required_text_field f). unfold validateOptionalSafeTextV1, validateRequiredSafeTextV1 in *.
  by rewrite bool_decide_false in H |- *.
Qed.
Lemma lost_observation_valid f reason :
  validateOptionalSafeTextV1 f reason = Ok tt →
  validateRuntimeObservationStatusV1 (ObservationStatus RuntimeObservationLostV1 reason) = Ok tt.
Proof. apply safe_text_field. Qed.
Lemma valid_outputs_set status :
  validateWorkloadOutputFinalizationStatusV1 status = Ok tt → status ≠ no_outputs.
Proof. by intros ? ->. Qed.
Lemma valid_outputs_kind status :
  validateWorkloadOutputFinalizationStatusV1 status = Ok tt →
  os_Kind status = WorkloadOutputFinalizationDrainedV1
  ∨ os_Kind status = WorkloadOutputFinalizationFailedV1.
Proof. unfold validateWorkloadOutputFinalizationStatusV1. destruct (os_Kind status); auto; done. Qed.
Create HintDb session discriminated.
#[export] Hint Resolve safe_text_field required_text_optional failed_outputs_valid
  runtime_loss_outputs_valid lost_observation_valid : session.

(** The machine after [latchLocked]. *)
Definition latched (cause : TerminationCauseV1) (before : StateV1) (m : MachineV1) : MachineV1 :=
  match m_cause m with
  | Some _ => m
  | None =>
    let m := set_m_state StateTerminatingV1 (set_m_cause (Some cause) m) in
    match before with
    | StateActiveV1 => set_m_waitingOutputs true m
    | _ => set_m_workloadOutputs (OutputStatus WorkloadOutputFinalizationDrainedV1 "") m
    end
  end.

Definition latch_report (s : MachineV1 * TransitionV1) : TransitionV1 :=
  match m_cause s.1 with
  | Some _ => s.2
  | None => set_t_BeginTermination true (set_t_CauseLatched true s.2)
  end.

Lemma latch_runs cause s :
  latchLocked cause s = ((latched cause (t_Before s.2) s.1, latch_report s), Ok tt).
Proof.
  destruct s as [m t]. unfold latchLocked, latched, latch_report. cbn [fst snd].
  destruct (m_cause m); [done|]. by destruct t as [[]].
Qed.

Lemma run_latch cause s s' u :
  latchLocked cause s = (s', Ok u) →
  s'.1 = latched cause (t_Before s.2) s.1 ∧ t_Before s'.2 = t_Before s.2.
Proof.
  rewrite latch_runs. intros [= <- _]. unfold latch_report. by destruct (m_cause _).
Qed.

Ltac lm_facts :=
  unfold in_state, controller_is, outputs_are, observation_lost, unknown_workload, no_payload,
    finalizePreActivationOutputsForRuntimeObservationLossLocked,
    completeOutputFinalizationLocked in *;
  repeat (lm_run; go_ok;
          try match goal with
          | H : latchLocked _ ?s = (?s', Ok _) |- _ =>
              let H2 := fresh "Hbefore" in apply run_latch in H as [H H2];
              destruct s' as [? ?]; cbn [fst snd] in *; subst
          | H : (match ?x with _ => _ end) _ = (_, Ok _) |- _ => destruct x eqn:?
          end);
  go_bool; rewrite ?equalProcessStatusV1_eq in *.

(** Case analysis on the state of a machine that satisfies the invariant. *)
Ltac phase_cases :=
  match goal with Hp : phase_facts _ |- _ =>
    unfold phase_facts, before_termination in Hp; simpl in Hp;
    repeat match type of Hp with match ?st with _ => _ end => destruct st end;
    try done;
    match type of Hp with
    | _ ∧ _ => destruct_and? Hp; subst
    | terminating_facts _ => destruct Hp; simpl in *
    end
  end.
(** The handler has run: look at the machine it leaves. *)
Ltac enter_handler s :=
  destruct s as [[] ?]; clear s; simpl in *;
  repeat match goal with H : t_Before _ = _ |- _ => rewrite ?H in *; clear H end; subst;
  destruct_and?; phase_cases; unfold latched in *; simplify_eq/=.
Ltac phase_solve :=
  unfold controller_before_activation, controller_after_activation, controller_is in *; simpl in *;
  try match goal with
  | H : validateWorkloadOutputFinalizationStatusV1 ?w = Ok tt |- context [?w = no_outputs] =>
      apply valid_outputs_set in H
  end;
  solve [done | auto | intuition congruence | intros; go_bool; intuition congruence].
Ltac split_cause :=
  match goal with
  | H : cause_facts _ |- _ => unfold cause_facts in H; simpl in H;
      match type of H with match ?c with _ => _ end => destruct c as [?cause|]; [|done] end
  | _ => idtac
  end.
Ltac solve_phase :=
  unfold phase_of, controller_is, controller_before_activation, controller_after_activation in *;
  simpl in *;
  repeat match goal with |- context [if ?b then _ else _] => destruct b eqn:? end; go_bool;
  match goal with
  | |- phase_step ?a _ _ => is_var a; destruct a
  | |- terminal_controller_kind (cs_Kind ?c) = true → _ => destruct (cs_Kind c) eqn:?; simpl
  | _ => idtac
  end;
  first [constructor | exfalso; intuition congruence | intuition congruence].
Ltac solve_invariant :=
  constructor; simpl; eauto with session;
  constructor; unfold cause_facts in *; simpl in *;
  try match goal with |- match ?c with _ => _ end => destruct c end;
  try phase_solve.
Ltac solve_advance := constructor; simpl in *; try phase_solve; try solve_phase.
Ltac solve_handler s :=
  enter_handler s; split_cause; (split; [solve_invariant|solve_advance]).

Lemma controller_finish_facts m status :
  validateControllerFinishLocked m status = Ok tt →
  (terminal_controller_kind (cs_Kind (m_controller m)) = true → status = m_controller m)
  ∧ (cs_Kind (m_controller m) = ControllerFinalizationLostV1 ∨
     cs_Kind (m_controller m) = ControllerFinalizationStartupFailedV1 → status = m_controller m).
Proof.
  unfold validateControllerFinishLocked.
  destruct (cs_Kind (m_controller m)); intros H; go_ok; go_bool; simpl; naive_solver.
Qed.

Section handlers.
Context (o : ObservationV1) (s s' : MachineV1 * TransitionV1).
Context (Hb : t_Before s.2 = m_state s.1) (Hn : m_state s.1 ≠ StateTerminatedV1).
Context (Hi : invariant s.1).

Lemma observeActivated_keeps :
  observeActivated o s = (s', Ok tt) → invariant s'.1 ∧ advance s.1 s'.1.
Proof using Hb Hn Hi.
  unfold observeActivated. intros H.
  destruct Hi as [Ha Hw Ho Hr Hc Hp]. clear Hi. lm_facts; solve_handler s.
Qed.
Lemma observeWorkloadExit_keeps :
  observeWorkloadExit o s = (s', Ok tt) → invariant s'.1 ∧ advance s.1 s'.1.
Proof using Hb Hn Hi.
  unfold observeWorkloadExit. intros H.
  destruct Hi as [Ha Hw Ho Hr Hc Hp]. clear Hi. lm_facts; solve_handler s.
Qed.
Lemma observeHostCancel_keeps :
  observeHostCancel o s = (s', Ok tt) → invariant s'.1 ∧ advance s.1 s'.1.
Proof using Hb Hn Hi.
  unfold observeHostCancel, validateCauseObservationV1. intros H.
  destruct Hi as [Ha Hw Ho Hr Hc Hp]. clear Hi. lm_facts; solve_handler s.
Qed.
Lemma observeControllerLost_keeps :
  observeControllerLost o s = (s', Ok tt) → invariant s'.1 ∧ advance s.1 s'.1.
Proof using Hb Hn Hi.
  unfold observeControllerLost. intros H.
  destruct Hi as [Ha Hw Ho Hr Hc Hp]. clear Hi. lm_facts; solve_handler s.
Qed.
Lemma observeRuntimeObservationLost_keeps :
  observeRuntimeObservationLost o s = (s', Ok tt) → invariant s'.1 ∧ advance s.1 s'.1.
Proof using Hb Hn Hi.
  unfold observeRuntimeObservationLost, validateCauseObservationV1. intros H.
  destruct Hi as [Ha Hw Ho Hr Hc Hp]. clear Hi. lm_facts; solve_handler s.
Qed.
Lemma observeCleanupContainmentLost_keeps :
  observeCleanupContainmentLost o s = (s', Ok tt) → invariant s'.1 ∧ advance s.1 s'.1.
Proof using Hb Hn Hi.
  unfold observeCleanupContainmentLost, validateCauseObservationV1. intros H.
  destruct Hi as [Ha Hw Ho Hr Hc Hp]. clear Hi. lm_facts; solve_handler s.
Qed.
Lemma observeStartupFailure_keeps :
  observeStartupFailure o s = (s', Ok tt) → invariant s'.1 ∧ advance s.1 s'.1.
Proof using Hb Hn Hi.
  unfold observeStartupFailure. intros H.
  destruct Hi as [Ha Hw Ho Hr Hc Hp]. clear Hi. lm_facts; solve_handler s.
Qed.
Lemma observeWorkloadOutputsFinalized_keeps :
  observeWorkloadOutputsFinalized o s = (s', Ok tt) → invariant s'.1 ∧ advance s.1 s'.1.
Proof using Hb Hn Hi.
  unfold observeWorkloadOutputsFinalized. intros H.
  destruct Hi as [Ha Hw Ho Hr Hc Hp]. clear Hi. lm_facts; solve_handler s.
Qed.
Lemma observeWorkloadOutputsPublished_keeps :
  observeWorkloadOutputsPublished o s = (s', Ok tt) → invariant s'.1 ∧ advance s.1 s'.1.
Proof using Hb Hn Hi.
  unfold observeWorkloadOutputsPublished. intros H.
  destruct Hi as [Ha Hw Ho Hr Hc Hp]. clear Hi. lm_facts; solve_handler s.
Qed.
Lemma observeWorkloadOutputFinalizationExpired_keeps :
  observeWorkloadOutputFinalizationExpired o s = (s', Ok tt) → invariant s'.1 ∧ advance s.1 s'.1.
Proof using Hb Hn Hi.
  unfold observeWorkloadOutputFinalizationExpired. intros H.
  destruct Hi as [Ha Hw Ho Hr Hc Hp]. clear Hi. lm_facts; solve_handler s.
Qed.
Lemma observeControllerFinalizationExpired_keeps :
  observeControllerFinalizationExpired o s = (s', Ok tt) → invariant s'.1 ∧ advance s.1 s'.1.
Proof using Hb Hn Hi.
  unfold observeControllerFinalizationExpired. intros H.
  destruct Hi as [Ha Hw Ho Hr Hc Hp]. clear Hi. lm_facts; solve_handler s.
Qed.

Lemma observeFinished_keeps :
  observeFinished o s = (s', Ok tt) → invariant s'.1 ∧ advance s.1 s'.1.
Proof using Hb Hn Hi.
  unfold observeFinished, validateFinishV1. intros H.
  destruct Hi as [Ha Hw Ho Hr Hc Hp]. clear Hi. lm_facts.
  match goal with H : validateTerminalControllerFinalizationStatusV1 _ = Ok tt |- _ =>
    pose proof H; unfold validateTerminalControllerFinalizationStatusV1 in H; go_ok end.
  match goal with H : validateControllerFinishLocked _ _ = Ok tt |- _ =>
    apply controller_finish_facts in H end.
  enter_handler s; split_cause; split; constructor; simpl; auto; try phase_solve.
  - eexists; constructor; simpl; eauto.
  - constructor; congruence.
Qed.

Lemma observe_switch_keeps :
  observe_switch o s = (s', Ok tt) → invariant s'.1 ∧ advance s.1 s'.1.
Proof using Hb Hn Hi.
  unfold observe_switch.
  destruct (o_Kind o); eauto using observeActivated_keeps, observeWorkloadExit_keeps,
    observeHostCancel_keeps, observeControllerLost_keeps, observeRuntimeObservationLost_keeps,
    observeCleanupContainmentLost_keeps, observeStartupFailure_keeps,
    observeWorkloadOutputsFinalized_keeps, observeWorkloadOutputsPublished_keeps,
    observeWorkloadOutputFinalizationExpired_keeps,
    observeControllerFinalizationExpired_keeps, observeFinished_keeps;
    intros H; lm_run.
Qed.

Lemma request_switch_keeps request discard discarded :
  request_switch request discard s = (s', Ok discarded) →
  containsOperationV1 (auth_Operations (m_authorization s.1))
    (operationForRequestV1 (req_Kind request)) = true →
  invariant s'.1 ∧ advance s.1 s'.1.
Proof using Hb Hn Hi.
  unfold request_switch. intros H Hauth.
  destruct Hi as [Ha Hw Ho Hr Hc Hp]. clear Hi. lm_facts.
  all: try (destruct s as [m ?]; simpl in *; split; [by constructor|by constructor; auto; constructor]).
  all: solve_handler s.
Qed.
End handlers.

(** ** One call, and the machines calls can reach *)

Lemma complete_transition_machine accepted f s s' u :
  complete_transition accepted f s = (s', Ok u) → s'.1 = s.1.
Proof. unfold complete_transition. intros H. by lm_run. Qed.

(** Delivering and acknowledging touch only two flags of a terminated machine. *)
Lemma flags_keep (m m' : MachineV1) :
  m_state m = StateTerminatedV1 →
  (m' = set_m_resultDelivered true m
   ∨ m_resultDelivered m = true ∧ m' = set_m_resultAcknowledged true m) →
  invariant m → invariant m' ∧ advance m m'.
Proof.
  intros Hs Hm [Ha Hw Ho Hr Hc Hp]. unfold phase_facts in Hp. rewrite Hs in Hp.
  destruct Hp as [r []], m; simpl in *; subst.
  destruct Hm as [->|[Hd ->]]; simpl in *; subst;
    (split; [|by constructor; simpl; auto; constructor]);
    (constructor; [by auto..|exists r; by constructor]).
Qed.

Lemma Observe_keeps m o s :
  Observe m o = (s, Ok tt) → invariant m → invariant s.1 ∧ advance m s.1.
Proof.
  unfold Observe, Observe_body, observeResultDelivered. intros H Hi. lm_run.
  case_bool_decide; lm_run.
  - apply flags_keep; [|by left|done]. go_ok. unfold in_state in *. go_bool. tauto.
  - go_ok. unfold in_state in *. go_bool. apply complete_transition_machine in H as ->.
    by eapply (observe_switch_keeps o (m, start_transition m)).
Qed.

Lemma applyRequestV1_keeps m request discard s discarded :
  applyRequestV1 m request discard = (s, Ok discarded) → invariant m →
  invariant s.1 ∧ advance m s.1.
Proof.
  unfold applyRequestV1, applyRequest_body, acknowledgeTerminated. intros H Hi. lm_run.
  case_bool_decide; lm_run.
  - apply flags_keep; [|right; split; [|done]|done]; go_ok; unfold in_state in *; go_bool; tauto.
  - go_ok. go_bool. assert (s.1 = s1.1) as ->.
    { destruct a0; lm_run; [done|]. by eapply complete_transition_machine. }
    eapply (request_switch_keeps (m, start_transition m)); eauto.
    intros Ht. unfold request_switch in *. lm_run. simpl in Ht. rewrite Ht in *. lm_run.
Qed.

Lemma Observe_rejected m o s msg : Observe m o = (s, Err msg) → s = (m, start_transition m).
Proof. apply atomic_Observe_body. Qed.
Lemma applyRequestV1_rejected m request discard s msg :
  applyRequestV1 m request discard = (s, Err msg) → s = (m, start_transition m).
Proof. apply atomic_applyRequest_body. Qed.

(** A call: an observation of the supervisor or a request of the controller,
    accepted or rejected. *)
Inductive call : MachineV1 → MachineV1 → Prop :=
| call_observe m o s r : Observe m o = (s, r) → call m s.1
| call_request m request discard s r :
    applyRequestV1 m request discard = (s, r) → call m s.1.

Inductive reachable (authorization : AuthorizationV1) : MachineV1 → Prop :=
| reachable_new m : NewMachineV1 authorization = Ok m → reachable authorization m
| reachable_call m m' : reachable authorization m → call m m' → reachable authorization m'.

Lemma advance_refl m : advance m m.
Proof. constructor; auto; constructor. Qed.

Lemma call_keeps m m' : call m m' → invariant m → invariant m' ∧ advance m m'.
Proof.
  intros [? o s [[]|]|? request discard s [d|]] Hi; intros.
  - by eapply Observe_keeps.
  - apply Observe_rejected in H as ->. eauto using advance_refl.
  - by eapply applyRequestV1_keeps.
  - apply applyRequestV1_rejected in H as ->. eauto using advance_refl.
Qed.

Lemma NewMachineV1_invariant authorization m :
  NewMachineV1 authorization = Ok m → invariant m ∧ m_state m = StatePreparingV1
  ∧ m_authorization m = authorization.
Proof.
  unfold NewMachineV1. intros H. go_ok. split; [|split; [done|]]; simpl.
  - constructor; simpl; try done; [by rewrite cloneAuthorizationV1_valid|by left].
  - by apply cloneAuthorizationV1_valid.
Qed.

Lemma reachable_keeps a m : reachable a m → invariant m ∧ m_authorization m = a.
Proof.
  induction 1 as [m Hm|m m' _ [IHi IHa] Hc].
  - by apply NewMachineV1_invariant in Hm as (? & _ & ?).
  - apply call_keeps in Hc as [? []]; [|done]. split; [done|congruence].
Qed.

Lemma calls_keep m m' : rtc call m m' → invariant m → invariant m'.
Proof. induction 1; [done|]. intros. by apply IHrtc, (call_keeps x y). Qed.

(** ** What the transition reports about the cause *)

(** From [s] to [s'] either nothing happened to the cause, or it was latched and
    reported. *)
Definition cause_tracked (s s' : MachineV1 * TransitionV1) : Prop :=
  t_Before s'.2 = t_Before s.2 ∧
  ((m_cause s'.1 = m_cause s.1 ∧ t_CauseLatched s'.2 = t_CauseLatched s.2
    ∧ t_BeginTermination s'.2 = t_BeginTermination s.2)
   ∨ (m_cause s.1 = None ∧ is_Some (m_cause s'.1) ∧ t_CauseLatched s'.2 = true
      ∧ t_BeginTermination s'.2 = true)).
Definition tracks {A} (e : LM A) : Prop := ∀ s s' a, e s = (s', Ok a) → cause_tracked s s'.

Lemma tracks_bind {A B} (e : LM A) (f : A → LM B) :
  tracks e → (∀ a, tracks (f a)) → tracks (e ≫= f).
Proof.
  intros He Hf s s' b H. lm_run. apply He in H0 as [? H0]. apply Hf in H as [? H].
  unfold cause_tracked. split; [congruence|].
  destruct H0 as [(? & ? & ?)|(? & [c ?] & ? & ?)], H as [(? & ? & ?)|(? & [c' ?] & ? & ?)];
    [left|right|right|]; repeat split; try congruence; eauto using mk_is_Some.
  exists c; congruence.
Qed.
Lemma tracks_pure {A} (e : LM A) : pure e → tracks e.
Proof.
  intros He s s' a H. specialize (He s). rewrite H in He. simpl in He. subst. split; auto.
Qed.
Lemma tracks_assign f : (∀ m, m_cause (f m) = m_cause m) → tracks (assign f).
Proof. intros Hf s s' a H. lm_run. split; [done|]. left. simpl. by rewrite Hf. Qed.
Lemma tracks_latch c : tracks (latchLocked c).
Proof.
  intros [m t] s' [] H. unfold latchLocked in H. unfold cause_tracked.
  destruct (m_cause m) eqn:Hc; injection H as <-; simpl; [by auto|].
  rewrite Hc. split; [done|]. right. by case_bool_decide; eauto.
Qed.
Lemma tracks_report f :
  (∀ t, t_Before (f t) = t_Before t ∧ t_CauseLatched (f t) = t_CauseLatched t
        ∧ t_BeginTermination (f t) = t_BeginTermination t) → tracks (report f).
Proof. intros Hf s s' a H. lm_run. destruct (Hf s.2) as (? & ? & ?). split; simpl; auto. Qed.
#[export] Hint Resolve tracks_pure tracks_latch : lm.

Ltac solve_tracks :=
  repeat match goal with
  | |- ∀ _, _ => intros ?
  | |- tracks (match ?x with _ => _ end) => destruct x
  | |- tracks (when ?x _) => destruct x; unfold when
  | |- tracks (completeOutputFinalizationLocked _) => unfold completeOutputFinalizationLocked
  | |- tracks (finalizePreActivationOutputsForRuntimeObservationLossLocked _) =>
      unfold finalizePreActivationOutputsForRuntimeObservationLossLocked
  | |- tracks (complete_transition _ _) => unfold complete_transition
  | |- tracks (_ ≫= _) => apply tracks_bind
  | |- tracks (assign _) => apply tracks_assign
  | |- tracks (report _) => apply tracks_report
  | |- tracks (mret _) => apply tracks_pure
  | _ => solve [auto 2 with lm]
  end; try done.

Lemma Observe_body_tracks o : tracks (Observe_body o).
Proof.
  unfold Observe_body, observe_switch, observeActivated, observeWorkloadExit, observeHostCancel,
    observeControllerLost, observeRuntimeObservationLost, observeCleanupContainmentLost,
    observeStartupFailure, observeWorkloadOutputsFinalized, observeWorkloadOutputsPublished,
    observeWorkloadOutputFinalizationExpired, observeControllerFinalizationExpired,
    observeFinished, observeResultDelivered.
  solve_tracks.
Qed.
Lemma applyRequest_body_tracks request discard : tracks (applyRequest_body request discard).
Proof.
  unfold applyRequest_body, request_switch, acknowledgeTerminated. solve_tracks.
Qed.

(** ** Every session can be brought to its end *)

Definition plain (kind : ObservationKindV1) (reason : string) : ObservationV1 :=
  Observation kind None None false reason None.

Lemma run_ok {A B} (e : LM A) (f : A → LM B) s s1 a out :
  e s = (s1, Ok a) → f a s1 = out → (e ≫= f) s = out.
Proof. unfold mbind, LM_bind. by intros ->. Qed.

Lemma when_runs c f s : when c (assign f) s = ((if c then f s.1 else s.1, s.2), Ok tt).
Proof. by destruct c, s. Qed.

(** An accepted handler makes an accepted call. *)
Lemma Observe_accepts m o s' :
  o_WorkloadOutputPending o = false → o_Kind o ≠ ObservationResultDeliveredV1 →
  m_state m ≠ StateTerminatedV1 →
  observe_switch o (m, start_transition m) = (s', Ok tt) → call m s'.1.
Proof.
  intros Hp Hk Hs Hrun.
  assert (∃ t, Observe m o = ((s'.1, t), Ok tt)) as [t Ht].
  { eexists. unfold Observe, Observe_body. eapply run_ok; [done|]. cbn beta.
    eapply run_ok; [by rewrite Hp|]. rewrite bool_decide_false by done.
    eapply run_ok; [unfold in_state; by rewrite bool_decide_false|].
    by eapply run_ok; [apply Hrun|]. }
  by apply (call_observe m o ((s'.1, t)) (Ok tt)).
Qed.

Lemma can_begin_termination m :
  invariant m → m_state m ≠ StateTerminatedV1 →
  ∃ m', rtc call m m' ∧ m_state m' = StateTerminatingV1.
Proof.
  intros Hi Hs. destruct (decide (m_state m = StateTerminatingV1)) as [|Hn]; [by exists m|].
  eexists. split; [eapply rtc_once, (Observe_accepts m (plain ObservationHostCancelV1 ""));
    [done..|]|].
  { eapply run_ok; [reflexivity|]. apply latch_runs. }
  destruct Hi as [_ _ _ _ _ Hp]. unfold phase_facts in Hp.
  destruct m; simpl in *.
  destruct m_state; try done; destruct Hp as [[Hc _] _]; simpl in Hc; by subst.
Qed.

Lemma can_close_outputs m :
  invariant m → m_state m = StateTerminatingV1 →
  ∃ m', rtc call m m' ∧ m_state m' = StateTerminatingV1 ∧ m_waitingOutputs m' = false.
Proof.
  intros Hi Hs. destruct (m_waitingOutputs m) eqn:Hw; [|by exists m].
  eexists. split; [eapply rtc_once, (Observe_accepts m
    (plain ObservationWorkloadOutputFinalizationExpiredV1 "expired")); [done|done|congruence|]|].
  - unfold observe_switch, plain; simpl. unfold observeWorkloadOutputFinalizationExpired.
    eapply run_ok; [done|]. eapply run_ok; [simpl; by rewrite Hw|].
    eapply run_ok; [reflexivity|]. reflexivity.
  - done.
Qed.

Lemma can_release_controller m :
  invariant m → m_state m = StateTerminatingV1 → m_waitingOutputs m = false →
  ∃ m', rtc call m m' ∧ phase_of m' = Closing
        ∧ terminal_controller_kind (cs_Kind (m_controller m')) = true.
Proof.
  intros Hi Hs Hw. assert (Hc := inv_phase m Hi). unfold phase_facts in Hc. rewrite Hs in Hc.
  assert (is_Some (m_cause m)) as [c Hcause].
  { destruct Hc as [Hc]. unfold cause_facts in Hc. destruct (m_cause m); [by eexists|done]. }
  eexists. split; [eapply rtc_once, (Observe_accepts m (plain ObservationControllerLostV1 ""));
    [done|done|congruence|]|].
  { eapply run_ok; [done|]. do 2 (eapply run_ok; [reflexivity|]).
    eapply run_ok; [apply when_runs|]. eapply run_ok; [done|]. apply latch_runs. }
  destruct Hc as [_ _ _ _ _ _ _ Hb Ha _]. destruct m as [? ? [] ? ? ? [k ?]]; simpl in *; subst;
    [specialize (Ha eq_refl)|specialize (Hb eq_refl)];
    unfold controller_before_activation, controller_after_activation, controller_is in *;
    destruct_or!; subst; vm_compute; auto.
Qed.

(** The machine is ready to finish: nothing is awaited and the recorded statuses
    make a valid result. *)
Definition can_finish (m : MachineV1) : Prop :=
  phase_of m = Closing ∧ terminal_controller_kind (cs_Kind (m_controller m)) = true
  ∧ (m_cause m = Some CauseRuntimeObservationLostV1 →
     os_Kind (m_workloadOutputs m) = WorkloadOutputFinalizationFailedV1).

Lemma closing_facts m :
  invariant m → phase_of m = Closing →
  m_state m = StateTerminatingV1 ∧ terminating_facts m
  ∧ m_waitingOutputs m = false ∧ m_waitingPublication m = false ∧ m_waitingFinalize m = false
  ∧ validateWorkloadOutputFinalizationStatusV1 (m_workloadOutputs m) = Ok tt.
Proof.
  intros [_ _ Ho _ _ Hp]. unfold phase_facts, phase_of in *. intros Hc.
  destruct (m_state m); try done. destruct (m_waitingOutputs m) eqn:Hw; [done|].
  destruct (m_waitingPublication m); [done|]. destruct (m_waitingFinalize m); [done|].
  split_and!; try done. destruct Ho as [Ho|]; [|done].
  apply (tf_outputs m Hp) in Ho. congruence.
Qed.

Lemma can_fail_outputs m :
  invariant m → phase_of m = Closing →
  terminal_controller_kind (cs_Kind (m_controller m)) = true →
  ∃ m', rtc call m m' ∧ can_finish m'.
Proof.
  intros Hi Hp Hk. destruct (closing_facts m Hi Hp) as (Hs & Ht & Hw & Hpub & Hfin & Hv).
  destruct (decide (m_cause m = Some CauseRuntimeObservationLostV1
    ∧ os_Kind (m_workloadOutputs m) = WorkloadOutputFinalizationDrainedV1)) as [[Hc Hd]|Hn].
  - apply tf_cause in Ht. unfold cause_facts in Ht. rewrite Hc in Ht. destruct Ht as [Hl Ht].
    assert (m_activated m = false) as Ha by (apply not_true_is_false; tauto).
    destruct m as [? ? ? ? ? [ok ?] [k ?] [rk ?]]; simpl in *; subst.
    eexists. split; [eapply rtc_once,
      (Observe_accepts _ (plain ObservationRuntimeObservationLostV1 "")); [done..|reflexivity]|].
    by destruct k; vm_compute.
  - exists m. split; [done|]. split; [done|]. split; [done|]. intros Hc.
    apply valid_outputs_kind in Hv as [|]; tauto.
Qed.

Definition recorded_finish (m : MachineV1) : FinishV1 :=
  Finish (m_workload m) (m_workloadOutputs m) (m_controller m)
    (CleanupStatus CleanupStatusSucceededV1 "") RecoveryNoneV1.

Lemma reject_if_false c msg : c = false → reject_if c msg = Ok tt.
Proof. by intros ->. Qed.

Lemma recorded_statuses_valid m :
  invariant m → can_finish m →
  validateFinishV1 (recorded_finish m) = Ok tt
  ∧ validateControllerFinishLocked m (m_controller m) = Ok tt
  ∧ ValidateResultV1 (finish_result m (recorded_finish m)) = Ok tt.
Proof.
  intros Hi (Hp & Hk & Hl). destruct (closing_facts m Hi Hp) as (_ & Ht & _ & _ & _ & Hv).
  assert (cs_Kind (m_controller m) ≠ ControllerFinalizationNotCompletedV1) as Hn.
  { intros Hn. destruct Ht as [_ _ _ _ _ _ _ Hb Ha _]. rewrite Hn in Hb, Ha.
    unfold controller_before_activation, controller_after_activation in *.
    by destruct (m_activated m); naive_solver. }
  apply tf_cause in Ht. destruct Hi as [_ Hw _ Ho Hc _].
  assert (validateTerminalControllerFinalizationStatusV1 (m_controller m) = Ok tt) as Hctl.
  { unfold validateTerminalControllerFinalizationStatusV1. by rewrite Hk. }
  split_and!.
  - unfold validateFinishV1; simpl. by rewrite Hw, !bind_Ok, Hv, Hctl.
  - unfold validateControllerFinishLocked. destruct (cs_Kind (m_controller m)); try done;
      by rewrite bool_decide_true.
  - unfold ValidateResultV1, validateResultConsistencyV1, finish_result, cause_value,
      cause_facts in *; simpl. rewrite Hw, Hv, Ho, Hctl, !bind_Ok.
    destruct (m_cause m) as [[]|]; simpl in *; try done; destruct_and?;
      repeat case_bool_decide; simpl; try done; naive_solver.
Qed.

Lemma can_terminate m :
  invariant m → can_finish m → ∃ m', call m m' ∧ m_state m' = StateTerminatedV1.
Proof.
  intros Hi Hf. destruct (recorded_statuses_valid m Hi Hf) as (H1 & H2 & H3).
  destruct Hf as (Hp & _).
  destruct (closing_facts m Hi Hp) as (Hs & Ht & Hw & Hpub & Hfin & Hv).
  eexists. split.
  - apply (Observe_accepts m
      (Observation ObservationFinishedV1 None None false "" (Some (recorded_finish m))));
      [done|done|congruence|].
    eapply run_ok; [reflexivity|]. cbn [o_Finish].
    eapply run_ok; [reflexivity|]. eapply run_ok.
    { apply run_check; split; [reflexivity|]. apply reject_if_false.
      cbn [fst snd]. unfold in_state, outputs_are. rewrite Hs, Hw, Hpub, Hfin. go_bool.
      split_and!; auto. intros Hu. by apply valid_outputs_kind in Hv as [|]; congruence. }
    eapply run_ok; [apply run_check; split; [reflexivity|by rewrite H1]|].
    eapply run_ok.
    { apply run_check; split; [reflexivity|]. apply reject_if_false. go_bool. right.
      by apply equalProcessStatusV1_eq. }
    eapply run_ok; [apply run_check; split; [reflexivity|by rewrite bool_decide_true]|].
    eapply run_ok; [apply run_check; split;
      [reflexivity|cbn [fst fin_ControllerFinalizationStatus recorded_finish]; by rewrite H2]|].
    eapply run_ok; [apply run_check; split; [reflexivity|cbn [fst]; by rewrite H3]|].
    reflexivity.
  - done.
Qed.

(** ** The guarantees *)

(** A concrete authorization, for the witnesses. *)
Definition sample_environment : EnvironmentAuthorizationV1 :=
  Environment "deployment" "generation"
    "sha256:0123456789abcdef0123456789abcdef0123456789abcdef0123456789abcdef"
    "sha256:0123456789abcdef0123456789abcdef0123456789abcdef0123456789abcdef"
    (Identity "app" "1000" "1000" (Some [])).
Definition sample_authorization : AuthorizationV1 :=
  Authorization AuthorizationSchemaV1
    "session-0123456789abcdef0123456789abcdef0123456789abcdef0123456789abcdef"
    "run-0123456789abcdef"
    sample_environment sample_environment
    (Some [OperationCompleteV1; OperationInputV1; OperationTerminateV1]) (Some []).

Example sample_valid : ValidateAuthorizationV1 sample_authorization = Ok tt.
Proof. vm_compute. reflexivity. Qed.

(** The machine after a sequence of observations on a fresh session. *)
Definition session (observations : list ObservationV1) : option MachineV1 :=
  match NewMachineV1 sample_authorization with
  | Ok m => Some (foldl (λ m o, (Observe m o).1.1) m observations)
  | Err _ => None
  end.

Lemma reachable_observe a m o : reachable a m → reachable a (Observe m o).1.1.
Proof. intros Hm. eapply reachable_call; [done|]. by eapply call_observe, surjective_pairing. Qed.

Lemma reachable_session os m : session os = Some m → reachable sample_authorization m.
Proof.
  unfold session. destruct (NewMachineV1 _) as [m0|] eqn:Hm; [|done]. intros [= <-].
  assert (reachable sample_authorization m0) as Hr by by apply reachable_new.
  clear Hm. revert m0 Hr. induction os as [|o os IH]; simpl; eauto using reachable_observe.
Qed.

Definition exited : ProcessStatusV1 := ProcessStatus ProcessStatusExitedV1 (Some 0) "".
Definition drained : WorkloadOutputFinalizationStatusV1 :=
  OutputStatus WorkloadOutputFinalizationDrainedV1 "".
(** Activation, workload exit, drained and published outputs. *)
Definition sample_shutdown : list ObservationV1 :=
  [plain ObservationActivatedV1 "";
   Observation ObservationWorkloadExitV1 (Some exited) None false "" None;
   Observation ObservationWorkloadOutputsFinalizedV1 None (Some drained) false "" None;
   plain ObservationWorkloadOutputsPublishedV1 ""].
(** ... the controller does not complete in time and the session ends. *)
Definition sample_session : list ObservationV1 :=
  sample_shutdown ++
  [plain ObservationControllerFinalizationExpiredV1 "";
   Observation ObservationFinishedV1 None None false ""
     (Some (Finish exited drained (ControllerStatus ControllerFinalizationTimeoutV1 "")
        (CleanupStatus CleanupStatusSucceededV1 "") RecoveryNoneV1))].

(** C1: every machine that observations and requests can produce from a fresh session
    satisfies the lifecycle invariant: the stored statuses validate, each phase
    has exactly the waits and the controller status that belong to it, the
    termination cause agrees with the recorded statuses, a result exists exactly
    when terminated, and the granted authorization is the original one. *)
Theorem reachable_invariant a m :
  reachable a m → invariant m ∧ m_authorization m = a.
Proof. apply reachable_keeps. Qed.

Lemma reachable_invariant_witness :
  ∃ m, session sample_session = Some m ∧ m_state m = StateTerminatedV1 ∧ invariant m.
Proof.
  eexists. split; [vm_compute; reflexivity|]. split; [reflexivity|].
  refine (proj1 (reachable_invariant sample_authorization _ _)).
  apply (reachable_session sample_session). vm_compute. reflexivity.
Defined.

(** What a session has recorded is final: along any sequence of further calls
    the termination cause, a known workload status, a lost runtime observation, a
    terminal controller status and the result never change. *)
Theorem recorded_statuses_final a m m' :
  reachable a m → rtc call m m' →
  (∀ c, m_cause m = Some c → m_cause m' = Some c)
  ∧ (ps_Kind (m_workload m) ≠ ProcessStatusUnknownV1 → m_workload m' = m_workload m)
  ∧ (ro_Kind (m_runtimeObservation m) = RuntimeObservationLostV1 →
     m_runtimeObservation m' = m_runtimeObservation m)
  ∧ (terminal_controller_kind (cs_Kind (m_controller m)) = true →
     m_controller m' = m_controller m)
  ∧ (∀ r, m_result m = Some r → m_result m' = Some r).
Proof.
  intros [Hi _]%reachable_keeps Hc.
  induction Hc as [m|m m1 m' Hc _ IH]; [by auto|].
  apply call_keeps in Hc as [Hi1 []]; [|done].
  destruct (IH Hi1) as (IH1 & IH2 & IH3 & IH4 & IH5).
  split_and!; [by auto| | | |by auto]; intros Hk.
  - rewrite <-(adv_workload0 Hk) in Hk |- *. by apply IH2.
  - rewrite <-(adv_observation0 Hk) in Hk |- *. by apply IH3.
  - rewrite <-(adv_controller0 Hk) in Hk |- *. by apply IH4.
Qed.

Lemma recorded_statuses_final_witness :
  ∃ m m', session sample_shutdown = Some m ∧ m_cause m = Some CauseWorkloadExitV1
  ∧ m' = (Observe m (plain ObservationHostCancelV1 "")).1.1 ∧ m_cause m' = Some CauseWorkloadExitV1.
Proof.
  eexists _, _. split; [vm_compute; reflexivity|]. split; [reflexivity|]. split; [reflexivity|].
  refine (proj1 (recorded_statuses_final sample_authorization _ _ _ _) _ _).
  - apply (reachable_session sample_shutdown). vm_compute. reflexivity.
  - eapply rtc_once, call_observe, surjective_pairing.
  - reflexivity.
Defined.

(** C10: a call moves a session only along the shutdown order: outputs are drained,
    then published, then the controller completes, then the session closes and
    ends; no call skips a pending wait, and only a session that was never
    activated can reopen its output barrier. *)
Theorem shutdown_order a m m' :
  reachable a m → call m m' → phase_step (m_activated m) (phase_of m) (phase_of m').
Proof. intros [Hi _]%reachable_keeps Hc. by apply call_keeps in Hc as [_ []]. Qed.

Lemma shutdown_order_witness :
  ∃ m m', session sample_shutdown = Some m ∧ phase_of m = Finalizing ∧ phase_of m' = Closing
  ∧ phase_step (m_activated m) (phase_of m) (phase_of m').
Proof.
  destruct (session sample_shutdown) as [m|] eqn:Hm; [|vm_compute in Hm; discriminate].
  set (o := plain ObservationControllerFinalizationExpiredV1 "").
  exists m, (Observe m o).1.1.
  assert (phase_of m = Finalizing ∧ phase_of (Observe m o).1.1 = Closing) as [H1 H2].
  { vm_compute in Hm. injection Hm as <-. split; reflexivity. }
  split_and!; try done. apply (shutdown_order sample_authorization).
  - by apply (reachable_session sample_shutdown).
  - by eapply call_observe, surjective_pairing.
Defined.

(** A terminated session has one result; it is valid, it is exactly the recorded
    cause and statuses, no wait is left, it was acknowledged only after delivery,
    and no further call changes it. *)
Theorem terminated_result a m :
  reachable a m → m_state m = StateTerminatedV1 →
  ∃ r, m_result m = Some r ∧ ValidateResultV1 r = Ok tt
  ∧ m_cause m = Some (res_Cause r) ∧ m_workload m = res_WorkloadStatus r
  ∧ m_workloadOutputs m = res_WorkloadOutputFinalizationStatus r
  ∧ m_runtimeObservation m = res_RuntimeObservationStatus r
  ∧ m_controller m = res_ControllerFinalizationStatus r
  ∧ (m_resultAcknowledged m = true → m_resultDelivered m = true)
  ∧ ∀ m', rtc call m m' → m_result m' = Some r ∧ m_state m' = StateTerminatedV1.
Proof.
  intros Hm Hs. assert (Hi := proj1 (reachable_keeps a m Hm)).
  assert (Hp := inv_phase m Hi). unfold phase_facts in Hp. rewrite Hs in Hp.
  destruct Hp as [r []]. exists r. split_and!; try done.
  intros m' Hc. clear Hm. induction Hc as [m|m m1 m' Hc _ IH]; [done|].
  destruct (call_keeps m m1 Hc Hi) as [Hi1 [_ _ Hcause _ _ _ Hres Hphase]].
  assert (m_state m1 = StateTerminatedV1) as Hs1.
  { unfold phase_of in Hphase. rewrite Hs in Hphase.
    destruct (m_state m1); try (by inversion Hphase).
    destruct (m_waitingOutputs m1), (m_waitingPublication m1), (m_waitingFinalize m1);
      by inversion Hphase. }
  assert (Hp1 := inv_phase m1 Hi1). unfold phase_facts in Hp1. rewrite Hs1 in Hp1.
  destruct Hp1 as [r1 []]. assert (r1 = r) as -> by (apply Hres in df_result0; congruence).
  by apply IH.
Qed.

Lemma terminated_result_witness :
  ∃ m r, session sample_session = Some m ∧ m_result m = Some r ∧ ValidateResultV1 r = Ok tt.
Proof.
  destruct (session sample_session) as [m|] eqn:Hm; [|vm_compute in Hm; discriminate].
  destruct (terminated_result sample_authorization m) as (r & Hr & Hv & _).
  - by apply (reachable_session sample_session).
  - vm_compute in Hm. injection Hm as <-. reflexivity.
  - by exists m, r.
Defined.

(** A rejected observation or request leaves the machine exactly as it was, and
    its transition reports only the state before the call. *)
Theorem rejected_call_changes_nothing m msg :
  (∀ o s, Observe m o = (s, Err msg) → s = (m, start_transition m))
  ∧ (∀ request discard s,
       applyRequestV1 m request discard = (s, Err msg) → s = (m, start_transition m)).
Proof.
  split; intros; [by eapply Observe_rejected|by eapply applyRequestV1_rejected].
Qed.

Lemma rejected_call_changes_nothing_witness :
  ∃ m msg, session [] = Some m
  ∧ applyRequestV1 m (Request RequestTerminateV1 None 0 0) false = ((m, start_transition m), Err msg).
Proof.
  destruct (session []) as [m|] eqn:Hm; [|vm_compute in Hm; discriminate].
  set (r := Request RequestTerminateV1 None 0 0).
  destruct (applyRequestV1 m r false) as [s [d|msg]] eqn:Hr.
  - vm_compute in Hm. injection Hm as <-. vm_compute in Hr. discriminate.
  - exists m, msg. split; [done|]. fold r. rewrite Hr.
    by rewrite (proj2 (rejected_call_changes_nothing m msg) r false s Hr).
Defined.

(** C11: no session is ever stuck: from every reachable machine some sequence of
    accepted calls leads to termination, whatever statuses were recorded before. *)
Theorem session_can_terminate a m :
  reachable a m → ∃ m', rtc call m m' ∧ m_state m' = StateTerminatedV1.
Proof.
  intros [Hi _]%reachable_keeps.
  destruct (decide (m_state m = StateTerminatedV1)) as [|Hn]; [by exists m|].
  destruct (can_begin_termination m Hi Hn) as (m1 & H1 & Hs1).
  assert (Hi1 := calls_keep _ _ H1 Hi).
  destruct (can_close_outputs m1 Hi1 Hs1) as (m2 & H2 & Hs2 & Hw2).
  assert (Hi2 := calls_keep _ _ H2 Hi1).
  destruct (can_release_controller m2 Hi2 Hs2 Hw2) as (m3 & H3 & Hp3 & Hk3).
  assert (Hi3 := calls_keep _ _ H3 Hi2).
  destruct (can_fail_outputs m3 Hi3 Hp3 Hk3) as (m4 & H4 & Hf4).
  assert (Hi4 := calls_keep _ _ H4 Hi3).
  destruct (can_terminate m4 Hi4 Hf4) as (m5 & H5 & Hs5).
  exists m5. split; [|done]. do 4 (etrans; [eassumption|]). by apply rtc_once.
Qed.

Lemma session_can_terminate_witness :
  ∃ m m', session sample_shutdown = Some m ∧ rtc call m m' ∧ m_state m' = StateTerminatedV1.
Proof.
  destruct (session sample_shutdown) as [m|] eqn:Hm; [|vm_compute in Hm; discriminate].
  destruct (session_can_terminate sample_authorization m) as (m' & ? & ?).
  - by apply (reachable_session sample_shutdown).
  - by exists m, m'.
Defined.

(** The termination cause is latched at most once, and exactly the call that
    latches it is told so: its transition has both flags set, every other accepted
    call's transition has neither, and the transition names the states before and
    after and the cause now recorded. *)
Theorem cause_latch_reported m m' t o :
  Observe m o = ((m', t), Ok tt) → o_Kind o ≠ ObservationResultDeliveredV1 →
  t_Before t = m_state m ∧ t_After t = m_state m' ∧ t_Cause t = m_cause m'
  ∧ t_CauseLatched t = t_BeginTermination t
  ∧ (t_CauseLatched t = true ↔ m_cause m = None ∧ is_Some (m_cause m')).
Proof.
  intros H Hk. pose proof (Observe_body_tracks o _ _ _ H) as [Hb Ht]. simpl in *.
  unfold Observe, Observe_body in H. lm_run. rewrite bool_decide_false in H by done. lm_run.
  unfold complete_transition in H. lm_run. injection H as Hm' Ht'. subst. simpl in *.
  split_and!; [done|done|done|destruct Ht; destruct_and?; congruence|].
  destruct Ht as [(Hc & -> & _)|(Hc & ? & -> & _)]; [|tauto].
  split; [done|]. intros [Hn [c Hc']]. congruence.
Qed.

Lemma cause_latch_reported_witness :
  ∃ m t, Observe m (plain ObservationHostCancelV1 "") = ((Observe m (plain ObservationHostCancelV1 "")).1.1, t, Ok tt)
  ∧ m_cause m = None ∧ t_CauseLatched t = t_BeginTermination t ∧ t_CauseLatched t = true.
Proof.
  destruct (session [plain ObservationActivatedV1 ""]) as [m|] eqn:Hm; [|vm_compute in Hm; discriminate].
  set (o := plain ObservationHostCancelV1 "").
  assert (Observe m o = ((Observe m o).1.1, (Observe m o).1.2, Ok tt) ∧ m_cause m = None
          ∧ is_Some (m_cause (Observe m o).1.1)) as (H1 & H2 & H3).
  { vm_compute in Hm. injection Hm as <-. split; [reflexivity|]. split; [reflexivity|]. eexists; reflexivity. }
  exists m, (Observe m o).1.2.
  destruct (cause_latch_reported m _ _ o H1) as (_ & _ & _ & H4 & H5); [done|].
  split_and!; [done|done|done|]. by apply H5.
Defined.

(** What an accepted request requires and does. *)
Definition request_effect (m : MachineV1) (kind : RequestKindV1) (m' : MachineV1) : Prop :=
  match m_state m, kind with
  | StateTerminatedV1, RequestAcknowledgeTerminatedV1 =>
    is_Some (m_result m) ∧ m_resultDelivered m = true ∧ m' = set_m_resultAcknowledged true m
  | StateActiveV1, (RequestInputV1 | RequestResizeV1) => m' = m
  | StateActiveV1, RequestTerminateV1 => m' = latched CauseControllerTerminateV1 StateActiveV1 m
  | StateTerminatingV1, RequestTerminateV1 => m' = m
  | StateTerminatingV1, RequestCompleteV1 =>
    m_waitingOutputs m = false ∧ m_waitingFinalize m = true
    ∧ cs_Kind (m_controller m) = ControllerFinalizationActiveV1
    ∧ m' = set_m_controller (ControllerStatus ControllerFinalizationCompletedV1 "")
             (set_m_waitingFinalize false m)
  | _, _ => False
  end.

(** A request is accepted only if it is well formed, the authorization grants its
    operation (the acknowledgement needs no grant but a delivered result), and the
    state allows it; then it does exactly the listed effect: terminal input and
    resizes change nothing, terminate latches its cause in the active state only,
    complete is possible only in the controller-finalization wait. *)
Theorem accepted_request m request discard s :
  applyRequestV1 m request discard = (s, Ok false) →
  ValidateRequestV1 request = Ok tt
  ∧ (req_Kind request ≠ RequestAcknowledgeTerminatedV1 →
     containsOperationV1 (auth_Operations (m_authorization m))
       (operationForRequestV1 (req_Kind request)) = true)
  ∧ request_effect m (req_Kind request) s.1.
Proof.
  unfold applyRequestV1, applyRequest_body, acknowledgeTerminated, request_effect. intros H.
  lm_run. match goal with H : wrap _ _ = Ok _ |- _ => apply wrap_ok in H end.
  split; [done|]. case_bool_decide as Hk; lm_run.
  - rewrite Hk. split; [done|]. go_ok. unfold in_state in *. go_bool. destruct_and?.
    match goal with H : m_state m = _ |- _ => rewrite H end. simpl.
    split_and!; [by destruct (m_result m); [eexists|]|done|done].
  - go_ok. go_bool. split; [done|]. destruct a0; lm_run; [done|].
    match goal with H : complete_transition _ _ _ = _ |- _ =>
      apply complete_transition_machine in H as -> end.
    unfold request_switch in *. lm_run. 
    match goal with H : ValidateRequestV1 _ = _ |- _ => unfold ValidateRequestV1 in H end.
    destruct (m_state m) eqn:Hs; lm_run; destruct (req_Kind request); lm_run; try done;
      try (by destruct discard; lm_run).
    + match goal with H : latchLocked _ _ = _ |- _ => apply run_latch in H as [-> _] end.
      simpl. by rewrite Hs.
    + go_ok. unfold controller_is in *. go_bool. tauto.
Qed.

Definition resize_request : RequestV1 := Request RequestResizeV1 None 80 24.
Definition terminate_request : RequestV1 := Request RequestTerminateV1 None 0 0.
Definition input_request : RequestV1 := Request RequestInputV1 (Some []) 0 0.

Lemma accepted_request_witness :
  ∃ m s, session [plain ObservationActivatedV1 ""] = Some m
  ∧ applyRequestV1 m terminate_request false = (s, Ok false)
  ∧ request_effect m RequestTerminateV1 s.1.
Proof.
  eexists _, _. split; [vm_compute; reflexivity|]. split; [vm_compute; reflexivity|].
  refine (proj2 (proj2 (accepted_request _ terminate_request false _ _))).
  vm_compute. reflexivity.
Defined.

(** [ApplyRequestOrDiscardTerminatingPTYV1] agrees with [ApplyRequest] on every
    accepted request and on every rejection, except that a well-formed, granted input or
    resize that arrives while terminating is reported as discarded instead of
    rejected, without any effect. *)
Theorem discard_only_terminating_pty m request :
  match ApplyRequest m request with
  | (s, Ok tt) => ApplyRequestOrDiscardTerminatingPTYV1 m request = (s, Ok false)
  | (s, Err msg) =>
    ApplyRequestOrDiscardTerminatingPTYV1 m request = (s, Err msg)
    ∨ ApplyRequestOrDiscardTerminatingPTYV1 m request = ((m, start_transition m), Ok true)
      ∧ m_state m = StateTerminatingV1
      ∧ (req_Kind request = RequestInputV1 ∨ req_Kind request = RequestResizeV1)
      ∧ ValidateRequestV1 request = Ok tt
      ∧ containsOperationV1 (auth_Operations (m_authorization m))
          (operationForRequestV1 (req_Kind request)) = true
  end.
Proof.
  unfold ApplyRequest, ApplyRequestOrDiscardTerminatingPTYV1, applyRequestV1, applyRequest_body.
  unfold mbind, LM_bind, machine, check, wrap. cbn [fst].
  destruct (ValidateRequestV1 request) as [[]|] eqn:Hv; [|by left].
  case_bool_decide as Hk.
  { destruct (acknowledgeTerminated _) as [s [[]|]] eqn:Ha; [|done|by left].
    exfalso. unfold acknowledgeTerminated in Ha. by lm_run. }
  destruct (containsOperationV1 _ _) eqn:Hauth; cbn [negb reject_if]; [|by left].
  unfold request_switch, mbind, LM_bind, machine. cbn [fst].
  destruct (m_state m) eqn:Hs; [by left| | |by left].
  - destruct (req_Kind request); try done; [rewrite latch_runs; done|by left].
  - destruct (req_Kind request) eqn:Hr; try (by left); try done; [by right; auto..|].
    unfold check, assign. cbn [fst].
    destruct (reject_if _ _) as [[]|]; [done|by left].
Qed.

