(* ===== verification/LiveRunQueue.v ===== *)
(** * The live-run queue

    [internal/deploy/live_run_queue.go].  The queue orders app and shell runs and
    control operations of one deployment: active entries, then at most one
    ready reservation, then waiting entries; an exclusive entry runs alone.
    Nil and empty slices are told apart only for [Runs], the one field whose
    nilness the code tests. *)

From Stdlib Require Import Ascii.
From S2P Require Import Prelude GoText Identifiers.

Open Scope Z_scope.

(** ** Data *)

Definition LiveRunQueueSchemaV1 : string := "live-run-queue-v1".

Inductive LiveRunKindV1 :=
| LiveRunKindAppV1
| LiveRunKindShellV1
| LiveRunKindControlV1
| LiveRunKindRawV1 (raw : string).
#[export] Instance LiveRunKindV1_eq_dec : EqDecision LiveRunKindV1.
Proof. solve_decision. Defined.

(** The empty text of a candidate is [LiveRunStatusUnsetV1]. *)
Inductive LiveRunStatusV1 :=
| LiveRunStatusUnsetV1
| LiveRunStatusActiveV1
| LiveRunStatusWaitingV1
| LiveRunStatusReadyV1
| LiveRunStatusRawV1 (raw : string).
#[export] Instance LiveRunStatusV1_eq_dec : EqDecision LiveRunStatusV1.
Proof. solve_decision. Defined.

Inductive LiveRunRecoveryReasonV1 :=
| LiveRunRecoveryAbandonedOwnerV1
| LiveRunRecoveryPriorSessionV1
| LiveRunRecoveryLegacyEntryV1
| LiveRunRecoveryCleanupFailedV1
| LiveRunRecoveryRawV1 (raw : string).
#[export] Instance LiveRunRecoveryReasonV1_eq_dec : EqDecision LiveRunRecoveryReasonV1.
Proof. solve_decision. Defined.

Record LiveRunV1 := LiveRun {
  lr_ID : string;
  lr_Kind : LiveRunKindV1;
  lr_Name : string;
  lr_GenerationReference : string;
  lr_BootSession : string;
  lr_Status : LiveRunStatusV1;
  lr_Exclusive : bool;
  lr_WritableMount : string;
  lr_WritablePaths : list string;
  lr_Container : string
}.
#[export] Instance LiveRunV1_eq_dec : EqDecision LiveRunV1.
Proof. solve_decision. Defined.

Record ControlledSessionContainerOwnershipV1 := ContainerOwnership {
  co_Role : string;
  co_ID : string;
  co_Name : string;
  co_DeploymentID : string;
  co_GenerationReference : string;
  co_BuildIdentity : string
}.
#[export] Instance ControlledSessionContainerOwnershipV1_eq_dec :
  EqDecision ControlledSessionContainerOwnershipV1.
Proof. solve_decision. Defined.

Record ControlledSessionNetworkOwnershipV1 := NetworkOwnership {
  no_Role : string;
  no_ID : string;
  no_Name : string
}.

Record ControlledSessionOwnershipV1 := SessionOwnership {
  so_LiveRunID : string;
  so_BootSession : string;
  so_SessionHandle : string;
  so_DockerEndpoint : string;
  so_ControllerDeploymentDirectory : string;
  so_WorkloadDeploymentDirectory : string;
  so_ChannelDirectory : string;
  so_NetworkID : string;
  so_NetworkName : string;
  so_Controller : ControlledSessionContainerOwnershipV1;
  so_Workload : ControlledSessionContainerOwnershipV1
}.
#[export] Instance ControlledSessionOwnershipV1_eq_dec : EqDecision ControlledSessionOwnershipV1.
Proof. solve_decision. Defined.

Record LiveRunContainerCleanupV1 := ContainerCleanup {
  cc_Container : string;
  cc_RunID : string;
  cc_Kind : LiveRunKindV1;
  cc_Name : string;
  cc_Reason : LiveRunRecoveryReasonV1
}.
#[export] Instance LiveRunContainerCleanupV1_eq_dec : EqDecision LiveRunContainerCleanupV1.
Proof. solve_decision. Defined.

Record LiveRunQueueV1 := LiveRunQueue {
  q_Schema : string;
  q_Runs : option (list LiveRunV1);
  q_ControlledSessions : list ControlledSessionOwnershipV1;
  q_Cleanup : list LiveRunContainerCleanupV1
}.
#[export] Instance LiveRunQueueV1_eq_dec : EqDecision LiveRunQueueV1.
Proof. solve_decision. Defined.

Record ControlMarkerV1 := ControlMarker {
  cm_ID : string;
  cm_Operation : string;
  cm_GenerationReference : string;
  cm_BootSession : string;
  cm_Status : LiveRunStatusV1
}.

Definition NewLiveRunQueueV1 : LiveRunQueueV1 := LiveRunQueue LiveRunQueueSchemaV1 (Some []) [] [].
Definition runs_of (queue : LiveRunQueueV1) : list LiveRunV1 := default [] (q_Runs queue).
Definition set_runs (runs : list LiveRunV1) (queue : LiveRunQueueV1) : LiveRunQueueV1 :=
  LiveRunQueue (q_Schema queue) (Some runs) (q_ControlledSessions queue) (q_Cleanup queue).
Definition set_status (status : LiveRunStatusV1) (run : LiveRunV1) : LiveRunV1 :=
  LiveRun (lr_ID run) (lr_Kind run) (lr_Name run) (lr_GenerationReference run) (lr_BootSession run)
    status (lr_Exclusive run) (lr_WritableMount run) (lr_WritablePaths run) (lr_Container run).

Definition clean_absolute (path : string) : bool :=
  path_is_abs path && bool_decide (path_clean path = path) && safeRecoveryIdentity path.

(** ** Validators of the parts *)

Definition validControlOperationV1 (operation : string) : bool :=
  bool_decide (operation ∈ ["up"; "stop"; "restart"; "install"; "uninstall"; "stage"]).

(** The source ranges over a map of the three labelled texts: the order of its
    checks is unspecified, and only the message depends on it. *)
Definition validateControlledSessionContainerOwnershipStateV1
    (ownership : ControlledSessionContainerOwnershipV1) (role : string) : result unit :=
  _ ← reject_if (negb (bool_decide (co_Role ownership = role))) "role is wrong";
  _ ← reject_if (negb (bool_decide (co_ID ownership = ""))
                 && negb (full_match controlledSessionContainerIDPatternV1 (co_ID ownership)))
        "container ID must use 64 lowercase hexadecimal characters";
  _ ← reject_if (negb (safeRecoveryIdentity (co_Name ownership)
                       && safeRecoveryIdentity (co_DeploymentID ownership)
                       && safeRecoveryIdentity (co_GenerationReference ownership)))
        "value must be nonempty safe text";
  reject_if (negb (full_match controlledSessionBuildIdentityPatternV1 (co_BuildIdentity ownership)))
    "build identity must be a sha256 digest".

Definition validateControlledSessionContainerOwnershipV1
    (ownership : ControlledSessionContainerOwnershipV1) (role : string) : result unit :=
  _ ← validateControlledSessionContainerOwnershipStateV1 ownership role;
  reject_if (bool_decide (co_ID ownership = ""))
    "container ID must use 64 lowercase hexadecimal characters".

Definition validateControlledSessionDockerEndpointV1 (endpoint : string) : result unit :=
  _ ← reject_if (negb (safeRecoveryIdentity endpoint)) "Docker endpoint must be nonempty safe text";
  reject_if (match cut_byte endpoint ":"%char with
             | Some (scheme, _) => negb (bool_decide (to_lower scheme = "unix"))
                                   && negb (bool_decide (to_lower scheme = "npipe"))
             | None => true
             end) "Docker endpoint must be a local unix or npipe endpoint".

Definition validateControlledSessionNetworkOwnershipV1
    (ownership : ControlledSessionNetworkOwnershipV1) : result unit :=
  _ ← reject_if (negb (bool_decide (no_Role ownership = "network"))) "role is wrong";
  _ ← reject_if (negb (full_match controlledSessionContainerIDPatternV1 (no_ID ownership)))
        "network ID must use 64 lowercase hexadecimal characters";
  reject_if (negb (safeRecoveryIdentity (no_Name ownership))) "network name must be nonempty safe text".

Definition validate_deployment_directories (o : ControlledSessionOwnershipV1) : result unit :=
  if bool_decide (so_ControllerDeploymentDirectory o = "") then Ok tt
  else
    _ ← reject_if (negb (clean_absolute (so_ControllerDeploymentDirectory o)))
          "controller deployment directory must be a clean absolute path";
    _ ← reject_if (negb (clean_absolute (so_WorkloadDeploymentDirectory o)))
          "workload deployment directory must be a clean absolute path";
    _ ← reject_if (bool_decide (so_ControllerDeploymentDirectory o = so_WorkloadDeploymentDirectory o))
          "controller and workload deployment directories must be distinct";
    reject_if (negb (bool_decide (so_ChannelDirectory o =
                 path_join [so_WorkloadDeploymentDirectory o; ".reploy"; "sessions"; so_LiveRunID o])))
      "channel directory must belong to the workload deployment".

Definition validateControlledSessionOwnershipV1 (o : ControlledSessionOwnershipV1) : result unit :=
  _ ← wrap (ValidateLiveRunIDV1 (so_LiveRunID o)) "live run ID";
  _ ← validateBootSessionIDV1 (so_BootSession o);
  _ ← reject_if (negb (full_match controlledSessionHandlePatternV1 (so_SessionHandle o)))
        "session handle must use session- followed by 64 lowercase hexadecimal characters";
  _ ← (if bool_decide (so_DockerEndpoint o = "") then Ok tt
       else validateControlledSessionDockerEndpointV1 (so_DockerEndpoint o));
  _ ← reject_if (negb (bool_decide (bool_decide (so_ControllerDeploymentDirectory o = "")
                                    = bool_decide (so_WorkloadDeploymentDirectory o = ""))))
        "controller and workload deployment directories must be recorded together";
  _ ← validate_deployment_directories o;
  _ ← reject_if (negb (clean_absolute (so_ChannelDirectory o)))
        "channel directory must be a clean absolute path";
  _ ← (if bool_decide (so_NetworkName o = "") then
         reject_if (negb (bool_decide (so_NetworkID o = "")))
           "network ID cannot be recorded without a network name"
       else
         _ ← reject_if (negb (safeRecoveryIdentity (so_NetworkName o)))
               "network name must be nonempty safe text";
         reject_if (negb (bool_decide (so_NetworkID o = ""))
                    && negb (full_match controlledSessionContainerIDPatternV1 (so_NetworkID o)))
           "network ID must use 64 lowercase hexadecimal characters");
  _ ← wrap (validateControlledSessionContainerOwnershipStateV1 (so_Controller o) "controller")
        "controller";
  _ ← wrap (validateControlledSessionContainerOwnershipStateV1 (so_Workload o) "workload") "workload";
  _ ← reject_if (bool_decide (co_ID (so_Controller o) = "")
                 && negb (bool_decide (co_ID (so_Workload o) = "")))
        "workload container ID cannot be recorded before the controller container ID";
  _ ← reject_if (negb (bool_decide (so_NetworkName o = "")) && bool_decide (so_NetworkID o = "")
                 && (negb (bool_decide (co_ID (so_Controller o) = ""))
                     || negb (bool_decide (co_ID (so_Workload o) = ""))))
        "container IDs cannot be recorded before the network ID";
  reject_if (negb (bool_decide (co_ID (so_Controller o) = ""))
             && negb (bool_decide (co_ID (so_Workload o) = ""))
             && bool_decide (co_ID (so_Controller o) = co_ID (so_Workload o)))
    "controller and workload must name different containers".

Definition validateCurrentControlledSessionOwnershipV1 (o : ControlledSessionOwnershipV1)
    : result unit :=
  _ ← reject_if (bool_decide (so_DockerEndpoint o = ""))
        "Docker endpoint must be recorded for a new controlled session";
  _ ← reject_if (bool_decide (so_ControllerDeploymentDirectory o = "")
                 || bool_decide (so_WorkloadDeploymentDirectory o = ""))
        "controller and workload deployment directories must be recorded for a new controlled session";
  validateControlledSessionOwnershipV1 o.

Definition validateLiveRunContainerCleanupV1 (c : LiveRunContainerCleanupV1) : result unit :=
  _ ← reject_if (negb (safeRecoveryIdentity (cc_Container c)))
        "cleanup container must be nonempty safe text";
  _ ← wrap (ValidateLiveRunIDV1 (cc_RunID c)) "cleanup run ID";
  _ ← reject_if (negb (bool_decide (cc_Kind c = LiveRunKindAppV1))
                 && negb (bool_decide (cc_Kind c = LiveRunKindShellV1)))
        "cleanup kind must be app or shell";
  _ ← reject_if (negb (safeRecoveryIdentity (cc_Name c))) "cleanup name must be nonempty safe text";
  match cc_Reason c with
  | LiveRunRecoveryAbandonedOwnerV1 | LiveRunRecoveryPriorSessionV1
  | LiveRunRecoveryLegacyEntryV1 | LiveRunRecoveryCleanupFailedV1 => Ok tt
  | LiveRunRecoveryRawV1 _ => Err "cleanup reason is invalid"
  end.

Definition valid_status (status : LiveRunStatusV1) : bool :=
  match status with
  | LiveRunStatusActiveV1 | LiveRunStatusWaitingV1 | LiveRunStatusReadyV1 => true
  | LiveRunStatusUnsetV1 | LiveRunStatusRawV1 _ => false
  end.

Definition check_writable_path (previous : option string) (path : string) : result unit :=
  _ ← reject_if (negb (safeRecoveryIdentity path)) "live run writable path must be nonempty safe text";
  reject_if (match previous with Some p => string_geb p path | None => false end)
    "live run writable paths must be sorted and unique".

Definition validate_boot_session (boot : string) : result unit :=
  if bool_decide (boot = "") then Ok tt else validateBootSessionIDV1 boot.

Definition validateLiveRunV1 (run : LiveRunV1) : result unit :=
  _ ← ValidateLiveRunIDV1 (lr_ID run);
  _ ← reject_if (negb (bool_decide (lr_Kind run = LiveRunKindAppV1))
                 && negb (bool_decide (lr_Kind run = LiveRunKindShellV1)))
        "live run kind must be app or shell";
  _ ← reject_if (negb (safeRecoveryIdentity (lr_Name run))) "live run name must be nonempty safe text";
  _ ← reject_if (negb (safeRecoveryIdentity (lr_GenerationReference run)))
        "live run generation reference must be nonempty safe text";
  _ ← validate_boot_session (lr_BootSession run);
  _ ← reject_if (negb (valid_status (lr_Status run)))
        "live run status must be active, ready, or waiting";
  _ ← reject_if (negb (lr_Exclusive run)
                 && (negb (bool_decide (lr_WritableMount run = ""))
                     || negb (bool_decide (length (lr_WritablePaths run) = 0%nat))))
        "concurrent live run must not name a writable mount conflict";
  _ ← check_each check_writable_path None (lr_WritablePaths run);
  _ ← reject_if (negb (bool_decide (lr_Container run = ""))
                 && negb (safeRecoveryIdentity (lr_Container run)))
        "live run container must be safe text";
  reject_if (negb (bool_decide (lr_Status run = LiveRunStatusActiveV1))
             && negb (bool_decide (lr_Container run = "")))
    "pending live run must not name a container".

Definition validateLiveQueueEntryV1 (entry : LiveRunV1) : result unit :=
  if negb (bool_decide (lr_Kind entry = LiveRunKindControlV1)) then validateLiveRunV1 entry
  else
    _ ← ValidateControlMarkerIDV1 (lr_ID entry);
    _ ← reject_if (negb (validControlOperationV1 (lr_Name entry)))
          "control marker operation must be up, stop, restart, install, uninstall, or stage";
    _ ← reject_if (negb (safeRecoveryIdentity (lr_GenerationReference entry)))
          "control marker generation reference must be nonempty safe text";
    _ ← validate_boot_session (lr_BootSession entry);
    _ ← reject_if (negb (valid_status (lr_Status entry)))
          "control marker status must be active, ready, or waiting";
    _ ← reject_if (negb (lr_Exclusive entry)) "control marker must be exclusive";
    reject_if (negb (bool_decide (lr_WritableMount entry = ""))
               || negb (bool_decide (length (lr_WritablePaths entry) = 0%nat))
               || negb (bool_decide (lr_Container entry = "")))
      "control marker must not name a writable mount or container".

(** ** Validation of a queue *)

Definition check_session (previous : option ControlledSessionOwnershipV1)
    (o : ControlledSessionOwnershipV1) : result unit :=
  _ ← wrap (validateControlledSessionOwnershipV1 o) "live run queue controlled session";
  reject_if (match previous with
             | Some p => string_geb (so_LiveRunID p) (so_LiveRunID o)
             | None => false
             end) "live run queue controlled sessions must be sorted and unique by live run ID".

Definition check_cleanup (previous : option LiveRunContainerCleanupV1)
    (c : LiveRunContainerCleanupV1) : result unit :=
  _ ← wrap (validateLiveRunContainerCleanupV1 c) "live run queue cleanup entry";
  reject_if (match previous with
             | Some p => string_geb (cc_Container p) (cc_Container c)
             | None => false
             end) "live run queue cleanup entries must be sorted and unique by container".

(** The variables of the loop over the runs. *)
Record scan := Scan {
  sc_seen : list string;
  sc_waitingSeen : bool;
  sc_runnableCount : Z;
  sc_runnableExclusive : bool;
  sc_readyCount : Z
}.
Definition scan_start : scan := Scan [] false 0 false 0.

Definition scan_run (s : scan) (run : LiveRunV1) : result scan :=
  _ ← wrap (validateLiveQueueEntryV1 run) "live run queue entry";
  _ ← reject_if (bool_decide (lr_ID run ∈ sc_seen s)) "live run queue repeats run ID";
  let seen := lr_ID run :: sc_seen s in
  match lr_Status run with
  | LiveRunStatusActiveV1 =>
    _ ← reject_if (sc_waitingSeen s) "live run queue has runnable entry after a waiting entry";
    _ ← reject_if (negb (sc_readyCount s =? 0)) "live run queue has active entry after a ready reservation";
    Ok (Scan seen false (sc_runnableCount s + 1) (sc_runnableExclusive s || lr_Exclusive run)
          (sc_readyCount s))
  | LiveRunStatusReadyV1 =>
    _ ← reject_if (sc_waitingSeen s) "live run queue has runnable entry after a waiting entry";
    Ok (Scan seen false (sc_runnableCount s + 1) (sc_runnableExclusive s || lr_Exclusive run)
          (sc_readyCount s + 1))
  | LiveRunStatusWaitingV1 =>
    Ok (Scan seen true (sc_runnableCount s) (sc_runnableExclusive s) (sc_readyCount s))
  | LiveRunStatusUnsetV1 | LiveRunStatusRawV1 _ =>
    Ok (Scan seen (sc_waitingSeen s) (sc_runnableCount s) (sc_runnableExclusive s) (sc_readyCount s))
  end.

Fixpoint scan_runs (s : scan) (runs : list LiveRunV1) : result scan :=
  match runs with
  | [] => Ok s
  | run :: rest => s ← scan_run s run; scan_runs s rest
  end.

Definition is_waiting (run : LiveRunV1) : bool := bool_decide (lr_Status run = LiveRunStatusWaitingV1).
Definition firstWaitingLiveRunV1 (runs : list LiveRunV1) : option LiveRunV1 := find_first is_waiting runs.

Definition ValidateLiveRunQueueV1 (queue : LiveRunQueueV1) : result unit :=
  _ ← reject_if (negb (bool_decide (q_Schema queue = LiveRunQueueSchemaV1))) "live run queue schema";
  match q_Runs queue with
  | None => Err "live run queue runs must use an array"
  | Some runs =>
    _ ← check_each check_session None (q_ControlledSessions queue);
    _ ← check_each check_cleanup None (q_Cleanup queue);
    s ← scan_runs scan_start runs;
    _ ← reject_if (sc_runnableExclusive s && negb (sc_runnableCount s =? 1))
          "exclusive live run must be the only runnable entry";
    _ ← reject_if (1 <? sc_readyCount s) "live run queue may reserve only one ready entry";
    match firstWaitingLiveRunV1 runs with
    | None => Ok tt
    | Some firstWaiting =>
      reject_if ((sc_runnableCount s =? 0)
                 || ((sc_readyCount s =? 0) && negb (sc_runnableExclusive s)
                     && negb (lr_Exclusive firstWaiting)))
        "live run queue leaves run waiting although it can start"
    end
  end.

(** ** Operations *)

Definition cloneLiveRunQueueV1 (queue : LiveRunQueueV1) : LiveRunQueueV1 :=
  LiveRunQueue (q_Schema queue) (Some (runs_of queue)) (q_ControlledSessions queue) (q_Cleanup queue).

Definition is_active (run : LiveRunV1) : bool := bool_decide (lr_Status run = LiveRunStatusActiveV1).
Definition is_ready (run : LiveRunV1) : bool := bool_decide (lr_Status run = LiveRunStatusReadyV1).
Definition is_control (run : LiveRunV1) : bool := bool_decide (lr_Kind run = LiveRunKindControlV1).

(** The loop of [liveRunCanStartNowV1]: [None] when it returned early. *)
Fixpoint count_active (activeCount : Z) (runs : list LiveRunV1) : option Z :=
  match runs with
  | [] => Some activeCount
  | run :: rest =>
    if negb (is_active run) then None
    else if lr_Exclusive run then None
    else count_active (activeCount + 1) rest
  end.
Definition liveRunCanStartNowV1 (queue : LiveRunQueueV1) (candidate : LiveRunV1) : bool :=
  match count_active 0 (runs_of queue) with
  | None => false
  | Some activeCount => negb (lr_Exclusive candidate) || (activeCount =? 0)
  end.

(** [promoteLiveRunsV1] makes one pass: the runnable entries before the first
    waiting one are counted, then that one may become ready. *)
Fixpoint promote_from (runnableCount : Z) (runnableExclusive : bool) (readyCount : Z)
    (runs : list LiveRunV1) : list LiveRunV1 :=
  match runs with
  | [] => []
  | run :: rest =>
    if is_waiting run then
      if runnableExclusive || negb (readyCount =? 0) then runs
      else if lr_Exclusive run then
        if runnableCount =? 0 then set_status LiveRunStatusReadyV1 run :: rest else runs
      else set_status LiveRunStatusReadyV1 run :: rest
    else
      run :: promote_from (runnableCount + 1) (runnableExclusive || lr_Exclusive run)
               (if is_ready run then readyCount + 1 else readyCount) rest
  end.
Definition promoteLiveRunsV1 (queue : LiveRunQueueV1) : LiveRunQueueV1 :=
  set_runs (promote_from 0 false 0 (runs_of queue)) queue.

Definition ErrLiveRunConflict : string := "another run must finish first".

Definition admitLiveQueueEntryV1 (queue : LiveRunQueueV1) (candidate : LiveRunV1) (wait : bool)
    : result (LiveRunQueueV1 * LiveRunStatusV1) :=
  if existsb (λ entry, bool_decide (lr_ID entry = lr_ID candidate)) (runs_of queue) then
    Err "ID already exists"
  else
    let cloned := cloneLiveRunQueueV1 queue in
    if liveRunCanStartNowV1 cloned candidate then
      let candidate := set_status LiveRunStatusActiveV1 candidate in
      Ok (set_runs (runs_of cloned ++ [candidate]) cloned, lr_Status candidate)
    else if negb wait then Err ErrLiveRunConflict
    else Ok (set_runs (runs_of cloned ++ [candidate]) cloned, lr_Status candidate).

Definition AdmitLiveRunV1 (queue : LiveRunQueueV1) (candidate : LiveRunV1) (wait : bool)
    : result (LiveRunQueueV1 * LiveRunStatusV1) :=
  _ ← ValidateLiveRunQueueV1 queue;
  _ ← reject_if (negb (bool_decide (lr_Status candidate = LiveRunStatusUnsetV1)))
        "live run candidate status must be empty";
  let candidate := set_status LiveRunStatusWaitingV1 candidate in
  _ ← validateLiveRunV1 candidate;
  admitLiveQueueEntryV1 queue candidate wait.

Definition control_entry (candidate : ControlMarkerV1) : LiveRunV1 :=
  LiveRun (cm_ID candidate) LiveRunKindControlV1 (cm_Operation candidate)
    (cm_GenerationReference candidate) (cm_BootSession candidate) LiveRunStatusWaitingV1 true "" [] "".

Definition AdmitControlMarkerV1 (queue : LiveRunQueueV1) (candidate : ControlMarkerV1) (wait : bool)
    : result (LiveRunQueueV1 * LiveRunStatusV1) :=
  _ ← ValidateLiveRunQueueV1 queue;
  _ ← reject_if (negb (bool_decide (cm_Status candidate = LiveRunStatusUnsetV1)))
        "control marker candidate status must be empty";
  _ ← validateLiveQueueEntryV1 (control_entry candidate);
  admitLiveQueueEntryV1 queue (control_entry candidate) wait.

Definition liveRunKindInV1 (kind : LiveRunKindV1) (allowed : list LiveRunKindV1) : bool :=
  existsb (λ candidate, bool_decide (kind = candidate)) allowed.

Fixpoint remove_entry (id : string) (kinds : list LiveRunKindV1) (runs : list LiveRunV1)
    : option (list LiveRunV1) :=
  match runs with
  | [] => None
  | entry :: rest =>
    if negb (bool_decide (lr_ID entry = id)) || negb (liveRunKindInV1 (lr_Kind entry) kinds)
    then option_map (cons entry) (remove_entry id kinds rest)
    else Some rest
  end.
Definition removeLiveQueueEntryV1 (queue : LiveRunQueueV1) (id : string) (kinds : list LiveRunKindV1)
    : LiveRunQueueV1 * bool :=
  let cloned := cloneLiveRunQueueV1 queue in
  match remove_entry id kinds (runs_of cloned) with
  | Some runs => (promoteLiveRunsV1 (set_runs runs cloned), true)
  | None => (cloned, false)
  end.

Definition RemoveLiveRunV1 (queue : LiveRunQueueV1) (id : string) : result (LiveRunQueueV1 * bool) :=
  _ ← ValidateLiveRunQueueV1 queue;
  _ ← ValidateLiveRunIDV1 id;
  Ok (removeLiveQueueEntryV1 queue id [LiveRunKindAppV1; LiveRunKindShellV1]).

Definition RemoveControlMarkerV1 (queue : LiveRunQueueV1) (id : string)
    : result (LiveRunQueueV1 * bool) :=
  _ ← ValidateLiveRunQueueV1 queue;
  _ ← ValidateControlMarkerIDV1 id;
  Ok (removeLiveQueueEntryV1 queue id [LiveRunKindControlV1]).

(** The loop of [ActivateReadyLiveRunV1] up to the assignment of the status. *)
Fixpoint activate_entry (id : string) (runs : list LiveRunV1) : result (list LiveRunV1) :=
  match runs with
  | [] => Err "live run is not outstanding"
  | run :: rest =>
    if negb (bool_decide (lr_ID run = id)) || is_control run then
      rest ← activate_entry id rest; Ok (run :: rest)
    else
      _ ← reject_if (negb (is_ready run)) "live run is not ready";
      Ok (set_status LiveRunStatusActiveV1 run :: rest)
  end.
Definition ActivateReadyLiveRunV1 (queue : LiveRunQueueV1) (id : string) : result LiveRunQueueV1 :=
  _ ← ValidateLiveRunQueueV1 queue;
  _ ← ValidateLiveRunIDV1 id;
  let cloned := cloneLiveRunQueueV1 queue in
  runs ← activate_entry id (runs_of cloned);
  let activated := promoteLiveRunsV1 (set_runs runs cloned) in
  _ ← wrap (ValidateLiveRunQueueV1 activated) "validate queue after activating live run";
  Ok activated.

Definition cancelled_entry (entry : LiveRunV1) : bool := negb (is_control entry) && negb (is_active entry).

Definition CancelWaitingLiveRunsV1 (queue : LiveRunQueueV1)
    : result (LiveRunQueueV1 * list LiveRunV1) :=
  _ ← ValidateLiveRunQueueV1 queue;
  let cloned := cloneLiveRunQueueV1 queue in
  let canceled := filter (λ entry, cancelled_entry entry = true) (runs_of cloned) in
  let retained := filter (λ entry, cancelled_entry entry = false) (runs_of cloned) in
  let result := promoteLiveRunsV1 (set_runs retained cloned) in
  _ ← wrap (ValidateLiveRunQueueV1 result) "validate queue after canceling waiting live runs";
  Ok (result, canceled).

Definition ControlMarkersV1 (queue : LiveRunQueueV1) : list ControlMarkerV1 :=
  map (λ entry, ControlMarker (lr_ID entry) (lr_Name entry) (lr_GenerationReference entry)
                  (lr_BootSession entry) (lr_Status entry))
    (filter (λ entry, is_control entry = true) (runs_of queue)).
