(* ===== verification/LiveRunQueueFacts.v ===== *)
(** * The live-run queue: specification and correctness

    [queue_ok] says what a valid queue is without the validation loop, and
    [ValidateLiveRunQueueV1] decides it.  Every operation maps valid queues to
    valid queues, also those whose result the code does not validate again, and
    the validations the code does perform on its own results never fail. *)

From S2P Require Import Prelude GoText Identifiers LiveRunQueue.

Open Scope Z_scope.

(** ** The shape of a valid queue *)

Definition has_status (status : LiveRunStatusV1) (run : LiveRunV1) : Prop := lr_Status run = status.
#[export] Instance has_status_dec status run : Decision (has_status status run).
Proof. unfold has_status. apply _. Defined.
Definition exclusive (run : LiveRunV1) : Prop := lr_Exclusive run = true.
Definition ids (runs : list LiveRunV1) : list string := map lr_ID runs.

(** Active entries, at most one ready reservation, waiting entries; an exclusive
    runnable entry is the only runnable one. *)
Record ordered (active ready waiting : list LiveRunV1) : Prop := {
  ord_active : Forall (has_status LiveRunStatusActiveV1) active;
  ord_ready : Forall (has_status LiveRunStatusReadyV1) ready;
  ord_waiting : Forall (has_status LiveRunStatusWaitingV1) waiting;
  ord_one_ready : (length ready ≤ 1)%nat;
  ord_exclusive : Exists exclusive (active ++ ready) → length (active ++ ready) = 1%nat
}.

(** The first waiting entry has a reason to wait: a reservation ahead of it, an
    exclusive entry ahead of it, or entries ahead of an exclusive one. *)
Definition no_needless_wait (active ready waiting : list LiveRunV1) : Prop :=
  match waiting with
  | [] => True
  | first :: _ =>
    active ++ ready ≠ [] ∧ (ready ≠ [] ∨ Exists exclusive (active ++ ready) ∨ exclusive first)
  end.

Definition entries_ok (runs : list LiveRunV1) : Prop :=
  Forall (λ r, validateLiveQueueEntryV1 r = Ok tt) runs ∧ NoDup (ids runs).

Definition rest_ok (queue : LiveRunQueueV1) : Prop :=
  q_Schema queue = LiveRunQueueSchemaV1
  ∧ check_each check_session None (q_ControlledSessions queue) = Ok tt
  ∧ check_each check_cleanup None (q_Cleanup queue) = Ok tt.

Record queue_ok (queue : LiveRunQueueV1) : Prop := {
  ok_rest : rest_ok queue;
  ok_runs : is_Some (q_Runs queue);
  ok_entries : entries_ok (runs_of queue);
  ok_shape : ∃ active ready waiting, runs_of queue = active ++ ready ++ waiting
    ∧ ordered active ready waiting ∧ no_needless_wait active ready waiting
}.

Definition count (runs : list LiveRunV1) : Z := Z.of_nat (length runs).
Definition any_exclusive (runs : list LiveRunV1) : bool := existsb lr_Exclusive runs.

Lemma any_exclusive_spec runs : any_exclusive runs = true ↔ Exists exclusive runs.
Proof.
  unfold any_exclusive, exclusive. rewrite existsb_exists, Exists_exists.
  by setoid_rewrite list_elem_of_In.
Qed.
Lemma any_exclusive_app l k : any_exclusive (l ++ k) = any_exclusive l || any_exclusive k.
Proof. apply existsb_app. Qed.

(** ** The validation loop *)

Lemma scan_runs_app s l k : scan_runs s (l ++ k) = s' ← scan_runs s l; scan_runs s' k.
Proof.
  revert s; induction l as [|x l IH]; intros s; simpl; [done|].
  destruct (scan_run s x); simpl; [apply IH|done].
Qed.

Lemma entry_status run :
  validateLiveQueueEntryV1 run = Ok tt → valid_status (lr_Status run) = true.
Proof.
  unfold validateLiveQueueEntryV1, validateLiveRunV1. intros H.
  destruct (negb _); go_ok; by go_bool.
Qed.

(** What the loop has computed after [active ++ ready ++ waiting]. *)
Definition scanned (active ready waiting : list LiveRunV1) : scan :=
  Scan (rev (ids (active ++ ready ++ waiting))) (negb (bool_decide (waiting = [])))
    (count (active ++ ready)) (any_exclusive (active ++ ready)) (count ready).

Ltac scan_simpl :=
  unfold ids, count, any_exclusive; list_simplifier;
  repeat progress (rewrite ?map_app, ?rev_app_distr, ?length_app, ?existsb_app, ?orb_false_r,
    ?orb_assoc, <-?app_assoc; simpl);
  f_equal; solve [done | lia].

Lemma scan_runs_scanned runs s :
  scan_runs scan_start runs = Ok s →
  entries_ok runs ∧ ∃ active ready waiting, runs = active ++ ready ++ waiting
    ∧ Forall (has_status LiveRunStatusActiveV1) active
    ∧ Forall (has_status LiveRunStatusReadyV1) ready
    ∧ Forall (has_status LiveRunStatusWaitingV1) waiting
    ∧ s = scanned active ready waiting.
Proof.
  revert s; induction runs as [|r runs IH] using rev_ind; intros s Hs.
  { simpl in Hs. go_ok. split; [by repeat constructor|]. by exists [], [], []. }
  rewrite scan_runs_app in Hs. apply bind_ok in Hs as (s0 & Hs0 & Hr).
  destruct (IH s0 Hs0) as ([Hv Hn] & A & R & W & -> & HA & HR & HW & ->). clear IH Hs0.
  simpl in Hr. apply bind_ok in Hr as (s1 & Hr & [= ->]). unfold scan_run in Hr. go_ok.
  assert (Hst := entry_status r ltac:(done)).
  split.
  { split; [by apply Forall_app; auto|]. unfold ids. rewrite map_app. apply NoDup_app.
    split; [done|]. split; [|apply NoDup_singleton]. intros x Hx [->|[]%elem_of_nil]%elem_of_cons.
    go_bool. apply H0. simpl. by rewrite list_elem_of_In, <-in_rev, <-list_elem_of_In. }
  unfold has_status.
  destruct (lr_Status r) eqn:Hrs; try done; go_ok; simpl in *; go_bool.
  - destruct W; [|done]. destruct R; [|done].
    exists (A ++ [r]), [], []. unfold scanned. split_and!; [by list_simplifier| |done..|].
    + by apply Forall_app; auto.
    + scan_simpl.
  - exists A, R, (W ++ [r]). unfold scanned. split_and!; [by list_simplifier|done|done| |].
    + by apply Forall_app; auto.
    + destruct W; scan_simpl.
  - destruct W; [|done]. exists A, (R ++ [r]), []. unfold scanned.
    split_and!; [by list_simplifier|done| |done|].
    + by apply Forall_app; auto.
    + scan_simpl.
Qed.

Lemma entries_ok_app l k : entries_ok (l ++ k) → entries_ok l ∧ entries_ok k.
Proof.
  intros [Hv Hn]. apply Forall_app in Hv as [? ?]. unfold ids in Hn. rewrite map_app in Hn.
  apply NoDup_app in Hn as (? & _ & ?). by repeat split.
Qed.
Lemma entries_ok_snoc l r :
  entries_ok (l ++ [r]) → entries_ok l ∧ validateLiveQueueEntryV1 r = Ok tt
  ∧ bool_decide (lr_ID r ∈ rev (ids l)) = false.
Proof.
  intros H. destruct (entries_ok_app _ _ H) as [? [Hr _]]. destruct H as [_ Hn].
  split_and!; [done|by inversion Hr|]. go_bool. unfold ids in *.
  rewrite map_app in Hn. apply NoDup_app in Hn as (_ & Hd & _).
  rewrite list_elem_of_In, <-in_rev, <-list_elem_of_In. intros Hx. apply (Hd _ Hx).
  by apply elem_of_cons; left.
Qed.

(** One more entry of a valid list. *)
Lemma scan_runs_snoc active ready waiting l r s :
  scan_runs scan_start l = Ok (scanned active ready waiting) →
  l = active ++ ready ++ waiting → entries_ok (l ++ [r]) →
  match lr_Status r with
  | LiveRunStatusActiveV1 => ready = [] ∧ waiting = [] ∧ s = scanned (active ++ [r]) [] []
  | LiveRunStatusReadyV1 => waiting = [] ∧ s = scanned active (ready ++ [r]) []
  | LiveRunStatusWaitingV1 => s = scanned active ready (waiting ++ [r])
  | _ => False
  end →
  scan_runs scan_start (l ++ [r]) = Ok s.
Proof.
  intros Hl -> He Hs. apply entries_ok_snoc in He as (He & Hx & Hid).
  rewrite scan_runs_app, Hl, bind_Ok. simpl. unfold scan_run. rewrite Hx. simpl. rewrite Hid.
  simpl. destruct (lr_Status r); try done; destruct_and?; subst; simpl; rewrite ?bind_Ok;
    unfold scanned; f_equal; [|destruct waiting|]; scan_simpl.
Qed.

Lemma scanned_scan_runs active ready waiting :
  entries_ok (active ++ ready ++ waiting) →
  Forall (has_status LiveRunStatusActiveV1) active →
  Forall (has_status LiveRunStatusReadyV1) ready →
  Forall (has_status LiveRunStatusWaitingV1) waiting →
  scan_runs scan_start (active ++ ready ++ waiting) = Ok (scanned active ready waiting).
Proof.
  unfold has_status. intros He HA HR HW. induction waiting as [|w waiting IH] using rev_ind.
  - clear HW. induction ready as [|r ready IH] using rev_ind.
    + clear HR. induction active as [|x active IH] using rev_ind; [done|].
      apply Forall_app in HA as [HA [Hs _]%Forall_cons]. rewrite !app_nil_r in He.
      replace ((active ++ [x]) ++ [] ++ []) with ((active ++ [] ++ []) ++ [x])
        by by rewrite !app_nil_r.
      eapply (scan_runs_snoc active [] []); [apply IH|done| |by rewrite Hs];
        rewrite ?app_nil_r; [by apply entries_ok_app in He as [? _]|done..].
    + apply Forall_app in HR as [HR [Hs _]%Forall_cons].
      replace (active ++ (ready ++ [r]) ++ []) with ((active ++ ready ++ []) ++ [r]) in He |- *
        by by rewrite !app_nil_r, app_assoc.
      eapply (scan_runs_snoc active ready []); [apply IH|done|done|by rewrite Hs]; [|done].
      by apply entries_ok_app in He as [? _].
  - apply Forall_app in HW as [HW [Hs _]%Forall_cons].
    replace (active ++ ready ++ waiting ++ [w]) with ((active ++ ready ++ waiting) ++ [w]) in He |- *
      by by rewrite <-!app_assoc.
    eapply (scan_runs_snoc active ready waiting); [apply IH|done|done|by rewrite Hs]; [|done].
    by apply entries_ok_app in He as [? _].
Qed.

(** ** Validation decides the specification *)

Lemma first_waiting_spec active ready waiting :
  Forall (has_status LiveRunStatusActiveV1) active →
  Forall (has_status LiveRunStatusReadyV1) ready →
  Forall (has_status LiveRunStatusWaitingV1) waiting →
  firstWaitingLiveRunV1 (active ++ ready ++ waiting) = head waiting.
Proof.
  unfold firstWaitingLiveRunV1, is_waiting, has_status. intros HA HR HW.
  induction HA as [|x active Hx _ IH]; simpl; [|by rewrite Hx].
  induction HR as [|x ready Hx _ IH]; simpl; [|by rewrite Hx].
  destruct HW as [|x waiting Hx _]; simpl; [done|by rewrite Hx].
Qed.

Lemma count_zero l : (count l =? 0) = true ↔ l = [].
Proof. unfold count. rewrite Z.eqb_eq. destruct l; simpl; [done|]. split; [lia|done]. Qed.

(** The three conditions checked after the loop. *)
Lemma shape_checks active ready waiting :
  Forall (has_status LiveRunStatusActiveV1) active →
  Forall (has_status LiveRunStatusReadyV1) ready →
  Forall (has_status LiveRunStatusWaitingV1) waiting →
  (ordered active ready waiting ∧ no_needless_wait active ready waiting) ↔
  any_exclusive (active ++ ready) && negb (count (active ++ ready) =? 1) = false
  ∧ (1 <? count ready) = false
  ∧ match head waiting with
    | None => True
    | Some first =>
      (count (active ++ ready) =? 0)
      || ((count ready =? 0) && negb (any_exclusive (active ++ ready)) && negb (lr_Exclusive first))
      = false
    end.
Proof.
  intros HA HR HW. rewrite andb_false_iff, negb_false_iff, Z.eqb_eq, Z.ltb_ge.
  assert (∀ l : list LiveRunV1, (count l =? 0) = false ↔ l ≠ []) as Hz.
  { intros l. rewrite <-not_true_iff_false, count_zero. done. }
  assert (no_needless_wait active ready waiting ↔
    match head waiting with
    | None => True
    | Some first =>
      (count (active ++ ready) =? 0)
      || ((count ready =? 0) && negb (any_exclusive (active ++ ready)) && negb (lr_Exclusive first))
      = false
    end) as ->.
  { unfold no_needless_wait. destruct waiting as [|w waiting]; simpl; [done|].
    rewrite orb_false_iff, !andb_false_iff, !negb_false_iff, any_exclusive_spec, !Hz.
    unfold exclusive at 2. tauto. }
  assert (ordered active ready waiting ↔
    (any_exclusive (active ++ ready) = false ∨ count (active ++ ready) = 1) ∧ count ready ≤ 1) as ->;
    [|tauto].
  unfold count. split.
  - intros [_ _ _ Hone Hex]. split; [|lia].
    destruct (any_exclusive _) eqn:Hx; [|by left]. right.
    apply any_exclusive_spec in Hx. rewrite Hex by done. done.
  - intros [Hex Hone]. constructor; try done; [lia|]. rewrite <-any_exclusive_spec.
    intros Hx. destruct Hex; [congruence|lia].
Qed.

Lemma valid_queue_iff queue :
  ValidateLiveRunQueueV1 queue = Ok tt ↔ queue_ok queue.
Proof.
  unfold ValidateLiveRunQueueV1. split.
  - intros H. go_ok. apply negb_false_iff, bool_decide_eq_true in H0.
    destruct (q_Runs queue) as [runs|] eqn:Hq; [|done]. go_ok.
    assert (runs_of queue = runs) as Hr by (unfold runs_of; by rewrite Hq).
    destruct (scan_runs_scanned _ _ H3) as (He & A & R & W & -> & HA & HR & HW & ->).
    constructor; rewrite ?Hr; [by repeat split|by rewrite Hq; eexists|done|].
    exists A, R, W. split; [done|]. apply shape_checks; [done..|].
    rewrite first_waiting_spec in H by done. simpl in *.
    split_and!; [done|done|]. destruct (head W); [by apply reject_if_ok in H|done].
  - intros [(Hs & Hc & Hu) [runs Hq] He (A & R & W & Hr & Ho & Hn)].
    unfold runs_of in *. rewrite Hq in *. simpl in *. subst runs.
    rewrite Hs, bool_decide_true by done. simpl. rewrite ?bind_Ok, Hc, ?bind_Ok, Hu, ?bind_Ok.
    assert (Ho' := Ho). destruct Ho' as [HA HR HW _ _].
    rewrite scanned_scan_runs by done. simpl. rewrite ?bind_Ok.
    destruct (proj1 (shape_checks A R W HA HR HW) (conj Ho Hn)) as (-> & -> & Hh). simpl.
    rewrite ?bind_Ok, first_waiting_spec by done. destruct (head W); [by rewrite Hh|done].
Qed.

(** ** Promotion *)

(** [l'] is [l] with at most its first waiting entry made ready. *)
Inductive promoted (l : list LiveRunV1) : list LiveRunV1 → Prop :=
| promoted_same : promoted l l
| promoted_first before first after :
    l = before ++ first :: after →
    Forall (λ r, ¬ has_status LiveRunStatusWaitingV1 r) before →
    has_status LiveRunStatusWaitingV1 first →
    promoted l (before ++ set_status LiveRunStatusReadyV1 first :: after).

Lemma promoted_ids l l' : promoted l l' → ids l' = ids l.
Proof.
  intros [|before first after -> _ _]; [done|]. unfold ids. rewrite !map_app. done.
Qed.

Definition can_promote (runnable ready : list LiveRunV1) (first : LiveRunV1) : bool :=
  negb (any_exclusive runnable) && (count ready =? 0)
  && (negb (lr_Exclusive first) || (count runnable =? 0)).

Lemma promote_from_skip n e k l rest :
  Forall (λ r, ¬ has_status LiveRunStatusWaitingV1 r) l →
  promote_from n e k (l ++ rest) =
  l ++ promote_from (n + count l) (e || any_exclusive l)
         (k + count (filter (has_status LiveRunStatusReadyV1) l)) rest.
Proof.
  intros Hl. revert n e k; induction Hl as [|x l Hx Hl IH]; intros n e k; simpl.
  { by rewrite !Z.add_0_r, orb_false_r. }
  unfold is_waiting, is_ready. rewrite bool_decide_false by done. rewrite IH, orb_assoc. f_equal.
  rewrite filter_cons. unfold count. case_bool_decide as Hr.
  - rewrite decide_True by done. cbn [length]. do 2 f_equal; lia.
  - rewrite decide_False by done. cbn [length]. do 2 f_equal; lia.
Qed.

Lemma filter_ready active ready :
  Forall (has_status LiveRunStatusActiveV1) active →
  Forall (has_status LiveRunStatusReadyV1) ready →
  filter (has_status LiveRunStatusReadyV1) (active ++ ready) = ready.
Proof.
  intros HA HR. rewrite filter_app, (filter_none _ active), (filter_every _ ready); [done..|].
  unfold has_status in *. eapply Forall_impl; [done|]. simpl. congruence.
Qed.

Lemma runnable_not_waiting active ready :
  Forall (has_status LiveRunStatusActiveV1) active →
  Forall (has_status LiveRunStatusReadyV1) ready →
  Forall (λ r, ¬ has_status LiveRunStatusWaitingV1 r) (active ++ ready).
Proof.
  unfold has_status. intros HA HR.
  apply Forall_app; split; (eapply Forall_impl; [done|]); simpl; congruence.
Qed.

Lemma promote_from_spec active ready waiting :
  ordered active ready waiting →
  promote_from 0 false 0 (active ++ ready ++ waiting) =
  match waiting with
  | first :: rest =>
    if can_promote (active ++ ready) ready first
    then active ++ ready ++ set_status LiveRunStatusReadyV1 first :: rest
    else active ++ ready ++ waiting
  | [] => active ++ ready
  end.
Proof.
  intros [HA HR HW _ _]. rewrite app_assoc, promote_from_skip by by apply runnable_not_waiting.
  rewrite filter_ready by done. unfold can_promote.
  destruct HW as [|w rest Hw _]; [simpl; by rewrite app_nil_r|].
  simpl. unfold is_waiting. rewrite bool_decide_true, !Z.add_0_l by done.
  destruct (any_exclusive _), (count ready =? 0), (lr_Exclusive w), (count (_ ++ _) =? 0);
    simpl; by rewrite <-app_assoc.
Qed.

(** An entry stays valid when a pending one changes between the pending and the
    active status. *)
Lemma set_status_valid status run :
  validateLiveQueueEntryV1 run = Ok tt → lr_Status run ≠ LiveRunStatusActiveV1 →
  valid_status status = true → validateLiveQueueEntryV1 (set_status status run) = Ok tt.
Proof.
  unfold validateLiveQueueEntryV1, validateLiveRunV1. destruct run as [id k n g b s e m ps c]; simpl.
  intros H Hs Hst. destruct (negb _).
  - go_ok. rewrite Hst. repeat match goal with
    | H : ?f = Ok tt |- context [?f] => rewrite H
    | H : ?f = false |- context [?f] => rewrite H
    end. simpl. rewrite ?bind_Ok. rewrite bool_decide_false in * by done. simpl in *.
    match goal with H : negb (bool_decide (c = "")) = false |- _ => rewrite H end.
    by rewrite andb_false_r.
  - go_ok. rewrite Hst. repeat match goal with
    | H : ?f = Ok tt |- context [?f] => rewrite H
    | H : ?f = false |- context [?f] => rewrite H
    end. done.
Qed.

Lemma entries_ok_set_status l1 l2 r status :
  entries_ok (l1 ++ r :: l2) → lr_Status r ≠ LiveRunStatusActiveV1 → valid_status status = true →
  entries_ok (l1 ++ set_status status r :: l2).
Proof.
  intros [Hv Hn] Hs Hst. split.
  - apply Forall_app in Hv as [H1 [Hr H2]%Forall_cons]. apply Forall_app; split; [done|].
    constructor; [by apply set_status_valid|done].
  - unfold ids in *. by rewrite map_app in Hn |- *.
Qed.

(** Promotion re-establishes the only condition that dropping or activating entries
    can break. *)
Lemma promote_from_ok active ready waiting :
  ordered active ready waiting → entries_ok (active ++ ready ++ waiting) →
  let l := promote_from 0 false 0 (active ++ ready ++ waiting) in
  promoted (active ++ ready ++ waiting) l ∧ entries_ok l
  ∧ ∃ active' ready' waiting', l = active' ++ ready' ++ waiting'
    ∧ ordered active' ready' waiting' ∧ no_needless_wait active' ready' waiting'.
Proof.
  intros Ho He. rewrite promote_from_spec by done. assert (Ho' := Ho).
  destruct Ho' as [HA HR HW H1 Hx].
  destruct waiting as [|w rest].
  { rewrite app_nil_r in *. split; [constructor|]. split; [done|].
    exists active, ready, []. by rewrite app_nil_r. }
  apply Forall_cons in HW as [Hw HW].
  destruct (can_promote _ _ _) eqn:Hc; unfold can_promote in Hc.
  - rewrite !andb_true_iff, orb_true_iff, !negb_true_iff, !count_zero in Hc.
    destruct Hc as ((Hnx & ->) & Hcw). rewrite app_nil_r in *. simpl.
    split; [|split].
    + apply (promoted_first _ active w rest); [done| |done].
      rewrite <-(app_nil_r active). by apply runnable_not_waiting.
    + apply entries_ok_set_status; [done| |done]. unfold has_status in Hw. by rewrite Hw.
    + exists active, [set_status LiveRunStatusReadyV1 w], rest. split; [done|]. split.
      * constructor; [done|by repeat constructor|done|done|].
        rewrite <-any_exclusive_spec, any_exclusive_app, Hnx. simpl. rewrite orb_false_r.
        intros Hwx. destruct Hcw as [|Hn]; [congruence|]. by rewrite Hn.
      * unfold no_needless_wait. destruct rest; [done|]. split; [by destruct active|by left].
  - split; [constructor|]. split; [done|]. exists active, ready, (w :: rest).
    split; [done|]. split; [done|]. unfold no_needless_wait.
    rewrite !andb_false_iff, orb_false_iff, !negb_false_iff, any_exclusive_spec in Hc.
    rewrite <-!not_true_iff_false, !count_zero in Hc. unfold exclusive at 2.
    destruct Hc as [[Hc|Hc]|[Hc1 Hc2]].
    + split; [|by auto]. intros Hn. rewrite Hn in Hc. by apply Exists_nil in Hc.
    + split; [|by auto]. intros [_ ?]%app_nil. done.
    + destruct (lr_Exclusive w); [by auto|done].
Qed.

Lemma ordered_filter (P : LiveRunV1 → Prop) `{!∀ r, Decision (P r)} active ready waiting :
  ordered active ready waiting → ordered (filter P active) (filter P ready) (filter P waiting).
Proof.
  intros [HA HR HW H1 Hx].
  constructor; try (eapply Forall_sublist; [apply sublist_filter|done]).
  - etrans; [apply length_filter|done].
  - rewrite <-filter_app. intros Hf.
    assert (Exists exclusive (active ++ ready)) as He%Hx.
    { apply Exists_exists in Hf as (x & [_ Hi]%list_elem_of_filter & Hxx).
      apply Exists_exists. by exists x. }
    assert (length (filter P (active ++ ready)) ≤ 1)%nat by (rewrite <-He; apply length_filter).
    destruct (filter P (active ++ ready)) as [|? [|]]; [by apply Exists_nil in Hf|done|simpl in *; lia].
Qed.

Lemma entries_ok_sublist l k : sublist l k → entries_ok k → entries_ok l.
Proof.
  intros Hs [Hv Hn]. split; [by eapply Forall_sublist|].
  eapply NoDup_sublist; [|done]. unfold ids. by apply sublist_map.
Qed.

(** A list of entries whose order can be repaired by promotion makes a valid queue. *)
Lemma promote_queue_ok queue active ready waiting :
  rest_ok queue → ordered active ready waiting → entries_ok (active ++ ready ++ waiting) →
  queue_ok (promoteLiveRunsV1 (set_runs (active ++ ready ++ waiting) (cloneLiveRunQueueV1 queue)))
  ∧ promoted (active ++ ready ++ waiting)
      (runs_of (promoteLiveRunsV1 (set_runs (active ++ ready ++ waiting) (cloneLiveRunQueueV1 queue)))).
Proof.
  intros Hr Ho He. destruct (promote_from_ok active ready waiting Ho He) as (Hp & Hl & Hs).
  split; [|done]. constructor; [done|by eexists|done|done].
Qed.

Lemma filter_queue_ok (P : LiveRunV1 → Prop) `{!∀ r, Decision (P r)} queue :
  queue_ok queue →
  let queue' := promoteLiveRunsV1 (set_runs (filter P (runs_of queue)) (cloneLiveRunQueueV1 queue)) in
  queue_ok queue' ∧ promoted (filter P (runs_of queue)) (runs_of queue').
Proof.
  intros [Hr _ He (A & R & W & Hq & Ho & _)]. rewrite Hq in He |- *.
  assert (entries_ok (filter P (A ++ R ++ W))) as Hf.
  { eapply entries_ok_sublist; [apply sublist_filter|done]. }
  rewrite !filter_app in Hf |- *. apply promote_queue_ok; [done| |done]. by apply ordered_filter.
Qed.

(** ** Removal *)

Definition other (id : string) (r : LiveRunV1) : Prop := lr_ID r ≠ id.

Lemma other_every id l : id ∉ ids l → filter (other id) l = l.
Proof.
  intros Hn. apply filter_every, Forall_forall. intros x Hx Hid. apply Hn. rewrite <-Hid.
  by apply list_elem_of_fmap_2.
Qed.

Lemma remove_entry_spec id kinds runs :
  NoDup (ids runs) →
  match remove_entry id kinds runs with
  | Some runs' => runs' = filter (other id) runs
      ∧ Exists (λ r, lr_ID r = id ∧ liveRunKindInV1 (lr_Kind r) kinds = true) runs
  | None => Forall (λ r, ¬ (lr_ID r = id ∧ liveRunKindInV1 (lr_Kind r) kinds = true)) runs
  end.
Proof.
  induction runs as [|r runs IH]; simpl; [by constructor|]. intros [Hn Hd]%NoDup_cons.
  specialize (IH Hd). destruct (_ || _) eqn:Hc.
  - assert (¬ (lr_ID r = id ∧ liveRunKindInV1 (lr_Kind r) kinds = true)) as Hr.
    { go_bool. destruct Hc as [?|Hc]; [tauto|]. rewrite Hc. by intros [_ ?]. }
    destruct (remove_entry id kinds runs) as [runs'|]; simpl; [|by constructor].
    destruct IH as [-> Hex]. split; [|by right].
    rewrite filter_cons_True; [done|]. intros Hid. apply Exists_exists in Hex as (x & Hx & Hxid & _).
    apply Hn. rewrite Hid, <-Hxid. by apply list_elem_of_fmap_2.
  - go_bool. split; [|by left]. destruct Hc as [Hid _].
    rewrite filter_cons_False by (unfold other; tauto). symmetry. apply other_every. by rewrite <-Hid.
Qed.

(** What a removal does to a valid queue. *)
Definition removal (queue : LiveRunQueueV1) (id : string) (kinds : list LiveRunKindV1)
    (queue' : LiveRunQueueV1) (found : bool) : Prop :=
  queue_ok queue'
  ∧ q_ControlledSessions queue' = q_ControlledSessions queue ∧ q_Cleanup queue' = q_Cleanup queue
  ∧ if found then promoted (filter (other id) (runs_of queue)) (runs_of queue') ∧ id ∈ ids (runs_of queue)
    else queue' = queue
      ∧ Forall (λ r, ¬ (lr_ID r = id ∧ liveRunKindInV1 (lr_Kind r) kinds = true)) (runs_of queue).

Lemma clone_ok queue : queue_ok queue → cloneLiveRunQueueV1 queue = queue.
Proof.
  intros [_ [runs Hr] _ _]. unfold cloneLiveRunQueueV1, runs_of. destruct queue; simpl in *.
  by subst.
Qed.

Lemma removeLiveQueueEntryV1_ok queue id kinds queue' found :
  queue_ok queue → removeLiveQueueEntryV1 queue id kinds = (queue', found) →
  removal queue id kinds queue' found.
Proof.
  intros Hok. unfold removeLiveQueueEntryV1. rewrite (clone_ok queue Hok).
  assert (Hs := remove_entry_spec id kinds (runs_of queue) (proj2 (ok_entries _ Hok))).
  destruct (remove_entry id kinds (runs_of queue)) as [runs'|]; intros [= <- <-].
  - destruct Hs as [-> Hex]. destruct (filter_queue_ok (other id) queue Hok) as [Hq Hp].
    rewrite (clone_ok queue Hok) in Hq, Hp. split_and!; [done|done|done|done|].
    apply Exists_exists in Hex as (x & Hx & <- & _). by apply list_elem_of_fmap_2.
  - by split_and!.
Qed.

(** ** Admission *)

(** Nothing stands in the way: only active, concurrent entries, and none at all if the
    candidate is exclusive. *)
Definition can_start (queue : LiveRunQueueV1) (candidate : LiveRunV1) : Prop :=
  Forall (λ r, has_status LiveRunStatusActiveV1 r ∧ ¬ exclusive r) (runs_of queue)
  ∧ (exclusive candidate → runs_of queue = []).

Lemma count_active_spec n runs :
  match count_active n runs with
  | Some m => m = n + count runs ∧ Forall (λ r, has_status LiveRunStatusActiveV1 r ∧ ¬ exclusive r) runs
  | None => ¬ Forall (λ r, has_status LiveRunStatusActiveV1 r ∧ ¬ exclusive r) runs
  end.
Proof.
  revert n; induction runs as [|r runs IH]; intros n; simpl; [split; [unfold count; simpl; lia|done]|].
  unfold is_active, has_status in *. case_bool_decide as Ha; simpl.
  - destruct (lr_Exclusive r) eqn:Hx.
    + intros [[_ Hn] _]%Forall_cons. by apply Hn.
    + specialize (IH (n + 1)). destruct (count_active _ _) as [m|].
      * destruct IH as [-> IH]. split; [unfold count; cbn [length]; lia|].
        constructor; [|done]. unfold exclusive. by rewrite Hx.
      * by intros [_ ?]%Forall_cons.
  - by intros [[? _] _]%Forall_cons.
Qed.

Lemma liveRunCanStartNowV1_spec queue candidate :
  liveRunCanStartNowV1 queue candidate = true ↔ can_start queue candidate.
Proof.
  unfold liveRunCanStartNowV1, can_start, exclusive.
  assert (H := count_active_spec 0 (runs_of queue)). destruct (count_active _ _) as [m|].
  - destruct H as [-> H]. rewrite Z.add_0_l, orb_true_iff, negb_true_iff, count_zero.
    destruct (lr_Exclusive candidate); naive_solver.
  - split; [done|]. by intros [? _].
Qed.

(** The queue after [candidate], given with the waiting status, was admitted. *)
Record admitted (queue : LiveRunQueueV1) (candidate : LiveRunV1) (wait : bool)
    (queue' : LiveRunQueueV1) (status : LiveRunStatusV1) : Prop := {
  adm_fresh : lr_ID candidate ∉ ids (runs_of queue);
  adm_valid : queue_ok queue';
  adm_runs : runs_of queue' = runs_of queue ++ [set_status status candidate];
  adm_rest : q_ControlledSessions queue' = q_ControlledSessions queue
             ∧ q_Cleanup queue' = q_Cleanup queue;
  adm_status : (status = LiveRunStatusActiveV1 ∧ can_start queue candidate)
    ∨ (status = LiveRunStatusWaitingV1 ∧ ¬ can_start queue candidate ∧ wait = true)
}.

Lemma all_active_shape active ready waiting :
  ordered active ready waiting →
  Forall (λ r, has_status LiveRunStatusActiveV1 r ∧ ¬ exclusive r) (active ++ ready ++ waiting) →
  ready = [] ∧ waiting = [].
Proof.
  unfold has_status. intros [_ HR HW _ _] [_ [H1 H2]%Forall_app]%Forall_app.
  split; [destruct HR as [|? ? Hr]|destruct HW as [|? ? Hw]]; try done.
  - apply Forall_cons in H1 as [[? _] _]. unfold has_status in *. congruence.
  - apply Forall_cons in H2 as [[? _] _]. unfold has_status in *. congruence.
Qed.

Lemma append_active_ok queue candidate :
  queue_ok queue → entries_ok (runs_of queue ++ [candidate]) →
  has_status LiveRunStatusActiveV1 candidate → can_start queue candidate →
  queue_ok (set_runs (runs_of queue ++ [candidate]) queue).
Proof.
  intros [Hr _ _ (A & R & W & Hq & Ho & _)] He Ha [Hall Hx]. rewrite Hq in *.
  destruct (all_active_shape A R W Ho Hall) as [-> ->]. rewrite !app_nil_r in *.
  constructor; [done|by eexists|done|]. exists (A ++ [candidate]), [], [].
  simpl. rewrite !app_nil_r. split; [done|]. split; [|done].
  destruct Ho as [HA _ _ _ _]. constructor; simpl; try done; [by apply Forall_app; auto|lia|].
  rewrite app_nil_r. intros [Hex|Hex]%Exists_app.
  - exfalso. apply Exists_exists in Hex as (x & Hxin & Hxx).
    rewrite Forall_forall in Hall. by apply (Hall x Hxin).
  - apply Exists_cons in Hex as [Hex|Hex]; [|by apply Exists_nil in Hex].
    by rewrite (Hx Hex).
Qed.

Lemma append_waiting_ok queue candidate :
  queue_ok queue → entries_ok (runs_of queue ++ [candidate]) →
  has_status LiveRunStatusWaitingV1 candidate → ¬ can_start queue candidate →
  queue_ok (set_runs (runs_of queue ++ [candidate]) queue).
Proof.
  intros [Hr _ _ (A & R & W & Hq & Ho & Hw)] He Ha Hn. unfold can_start in Hn. rewrite Hq in *.
  constructor; [done|by eexists|done|]. exists A, R, (W ++ [candidate]).
  simpl. rewrite <-!app_assoc. split; [done|]. destruct Ho as [HA HR HW H1 Hx].
  split; [constructor; try done; by apply Forall_app; auto|].
  destruct W as [|w W]; [|done]. clear Hw. unfold no_needless_wait. simpl. rewrite app_nil_r in Hn.
  destruct (decide (R = [])) as [->|HR']; [|split; [by intros [_ ?]%app_nil|by left]].
  rewrite app_nil_r in *. destruct (any_exclusive A) eqn:Hax.
  { apply any_exclusive_spec in Hax. split; [by intros ->; apply Exists_nil in Hax|by auto]. }
  assert (¬ Exists exclusive A) as Hna by by rewrite <-any_exclusive_spec, Hax.
  assert (Forall (λ r, has_status LiveRunStatusActiveV1 r ∧ ¬ exclusive r) A) as Hall.
  { rewrite Forall_forall in HA |- *. intros x Hxin. split; [by apply HA|].
    intros Hxx. apply Hna, Exists_exists. by exists x. }
  split; [intros ->; by apply Hn|]. right; right.
  destruct (lr_Exclusive candidate) eqn:Hc; [done|]. exfalso. apply Hn. split; [done|].
  unfold exclusive. by rewrite Hc.
Qed.

Lemma admitLiveQueueEntryV1_spec queue candidate wait :
  queue_ok queue → validateLiveQueueEntryV1 candidate = Ok tt →
  lr_Status candidate = LiveRunStatusWaitingV1 →
  match admitLiveQueueEntryV1 queue candidate wait with
  | Ok (queue', status) => admitted queue candidate wait queue' status
  | Err msg => lr_ID candidate ∈ ids (runs_of queue)
      ∨ (msg = ErrLiveRunConflict ∧ ¬ can_start queue candidate ∧ wait = false)
  end.
Proof.
  intros Hok Hv Hs. unfold admitLiveQueueEntryV1. rewrite (clone_ok queue Hok).
  destruct (existsb _ _) eqn:He.
  { left. apply existsb_exists in He as (x & Hx & Hid). go_bool. rewrite <-Hid.
    apply list_elem_of_fmap_2. by apply list_elem_of_In. }
  assert (lr_ID candidate ∉ ids (runs_of queue)) as Hfresh.
  { intros (x & Hid & Hx)%list_elem_of_fmap. apply not_true_iff_false in He. apply He.
    apply existsb_exists. exists x. split; [by apply list_elem_of_In|]. by go_bool. }
  assert (∀ status, valid_status status = true →
    entries_ok (runs_of queue ++ [set_status status candidate])) as Hentries.
  { intros status Hst. apply (entries_ok_set_status _ [] candidate); [|by rewrite Hs|done].
    destruct (ok_entries _ Hok) as [Hall Hnd]. split; [by apply Forall_app; auto|].
    unfold ids in *. rewrite map_app. apply NoDup_app. split; [done|]. split; [|apply NoDup_singleton].
    by intros x Hx ->%list_elem_of_singleton. }
  assert (set_status LiveRunStatusWaitingV1 candidate = candidate) as Hsame.
  { by destruct candidate; simpl in *; subst. }
  destruct (liveRunCanStartNowV1 queue candidate) eqn:Hc.
  - apply liveRunCanStartNowV1_spec in Hc. constructor; simpl; [done| |done|done|by left].
    apply append_active_ok; [done|by apply Hentries|done|done].
  - apply not_true_iff_false in Hc. rewrite liveRunCanStartNowV1_spec in Hc.
    destruct wait; simpl; [|by right]. rewrite Hs.
    constructor; simpl; [done| |by rewrite Hsame|done|by right].
    apply append_waiting_ok; [done| |done|done]. rewrite <-Hsame. by apply Hentries.
Qed.

(** ** Activation *)

Definition ready_run (id : string) (r : LiveRunV1) : Prop :=
  lr_ID r = id ∧ lr_Kind r ≠ LiveRunKindControlV1 ∧ has_status LiveRunStatusReadyV1 r.

Lemma activate_entry_spec id runs :
  NoDup (ids runs) →
  match activate_entry id runs with
  | Ok runs' => ∃ before r after, runs = before ++ r :: after ∧ ready_run id r
      ∧ runs' = before ++ set_status LiveRunStatusActiveV1 r :: after
  | Err _ => Forall (λ r, ¬ ready_run id r) runs
  end.
Proof.
  unfold ready_run. induction runs as [|r runs IH]; simpl; [done|]. intros [Hn Hd]%NoDup_cons.
  specialize (IH Hd). unfold is_control, is_ready. destruct (_ || _) eqn:Hc.
  - assert (¬ (lr_ID r = id ∧ lr_Kind r ≠ LiveRunKindControlV1
               ∧ has_status LiveRunStatusReadyV1 r)) as Hr by (go_bool; naive_solver).
    destruct (activate_entry id runs) as [runs'|]; [|by constructor].
    destruct IH as (before & x & after & -> & Hx & ->). by exists (r :: before), x, after.
  - go_bool. destruct Hc as [Hid Hk]. destruct (bool_decide _) eqn:Hr; simpl; go_bool.
    + by exists [], r, runs.
    + constructor; [unfold has_status; tauto|]. apply Forall_forall. intros x Hx [Hxid _].
      apply Hn. rewrite Hid, <-Hxid. by apply list_elem_of_fmap_2.
Qed.

Lemma ready_position active ready waiting before r after :
  ordered active ready waiting → active ++ ready ++ waiting = before ++ r :: after →
  has_status LiveRunStatusReadyV1 r → before = active ∧ ready = [r] ∧ after = waiting.
Proof.
  unfold has_status. intros [HA HR HW H1 _] Heq Hr. revert before Heq.
  induction HA as [|x active Hx HA IH]; intros before Heq; simpl in *.
  - destruct HR as [|y ready Hy HR]; simpl in *.
    + exfalso. assert (r ∈ waiting) as Hin by (rewrite Heq; set_solver).
      rewrite Forall_forall in HW. apply HW in Hin. unfold has_status in *. congruence.
    + destruct ready; [|simpl in H1; lia]. simpl in Heq.
      destruct before as [|b before]; injection Heq as Hb Hrest; [by subst|].
      exfalso. assert (r ∈ waiting) as Hin by (rewrite Hrest; set_solver).
      rewrite Forall_forall in HW. apply HW in Hin. unfold has_status in *. congruence.
  - destruct before as [|b before]; injection Heq as Hb Hrest.
    + unfold has_status in *. congruence.
    + destruct (IH before Hrest) as (-> & -> & ->). by subst.
Qed.

Lemma activate_shape active r waiting :
  ordered active [r] waiting →
  ordered (active ++ [set_status LiveRunStatusActiveV1 r]) [] waiting.
Proof.
  intros [HA HR HW _ Hx]. constructor; [|done|done|simpl; lia|].
  - apply Forall_app; split; [done|by repeat constructor].
  - rewrite app_nil_r. rewrite <-any_exclusive_spec, any_exclusive_app in Hx |- *.
    simpl in *. rewrite length_app in *. done.
Qed.

(** ** One operation *)

Inductive queue_step : LiveRunQueueV1 → LiveRunQueueV1 → Prop :=
| step_admit q candidate wait q' s : AdmitLiveRunV1 q candidate wait = Ok (q', s) → queue_step q q'
| step_admit_control q candidate wait q' s :
    AdmitControlMarkerV1 q candidate wait = Ok (q', s) → queue_step q q'
| step_remove q id q' found : RemoveLiveRunV1 q id = Ok (q', found) → queue_step q q'
| step_remove_control q id q' found : RemoveControlMarkerV1 q id = Ok (q', found) → queue_step q q'
| step_activate q id q' : ActivateReadyLiveRunV1 q id = Ok q' → queue_step q q'
| step_cancel q q' canceled : CancelWaitingLiveRunsV1 q = Ok (q', canceled) → queue_step q q'.

Inductive queue_reachable : LiveRunQueueV1 → Prop :=
| queue_new : queue_reachable NewLiveRunQueueV1
| queue_next q q' : queue_reachable q → queue_step q q' → queue_reachable q'.

(** Progress of a status: waiting, then ready, then active. *)
Definition status_rank (status : LiveRunStatusV1) : nat :=
  match status with
  | LiveRunStatusWaitingV1 => 0
  | LiveRunStatusReadyV1 => 1
  | _ => 2
  end.
(** [r'] is [r], with its status possibly advanced. *)
Definition same_run (r r' : LiveRunV1) : Prop :=
  r' = set_status (lr_Status r') r ∧ (status_rank (lr_Status r) ≤ status_rank (lr_Status r'))%nat.

Lemma same_run_refl r : same_run r r.
Proof. split; [by destruct r|done]. Qed.
Lemma promoted_same_run l l' : promoted l l' → Forall2 same_run l l'.
Proof.
  assert (∀ k, Forall2 same_run k k) as Hrefl by (induction k; constructor; auto using same_run_refl).
  intros [|before first after -> _ Hf]; [done|]. apply Forall2_app; [done|].
  constructor; [|done]. unfold has_status in Hf. split; simpl; [done|]. rewrite Hf. simpl. lia.
Qed.

Lemma live_run_entry r : validateLiveRunV1 r = Ok tt → validateLiveQueueEntryV1 r = Ok tt.
Proof.
  intros H. unfold validateLiveQueueEntryV1. rewrite bool_decide_false; [done|].
  unfold validateLiveRunV1 in H. intros Hk. rewrite Hk in H. by go_ok.
Qed.

Lemma AdmitLiveRunV1_admitted q c wait q' s :
  AdmitLiveRunV1 q c wait = Ok (q', s) →
  queue_ok q ∧ admitted q (set_status LiveRunStatusWaitingV1 c) wait q' s.
Proof.
  unfold AdmitLiveRunV1. intros H. go_ok. apply valid_queue_iff in H0. split; [done|].
  assert (Ha := admitLiveQueueEntryV1_spec q (set_status LiveRunStatusWaitingV1 c) wait H0).
  rewrite H in Ha. apply Ha; [by apply live_run_entry|done].
Qed.

Lemma AdmitControlMarkerV1_admitted q c wait q' s :
  AdmitControlMarkerV1 q c wait = Ok (q', s) → queue_ok q ∧ admitted q (control_entry c) wait q' s.
Proof.
  unfold AdmitControlMarkerV1. intros H. go_ok. apply valid_queue_iff in H0. split; [done|].
  assert (Ha := admitLiveQueueEntryV1_spec q (control_entry c) wait H0).
  rewrite H in Ha. by apply Ha.
Qed.

(** What an activation of [id] does to a valid queue. *)
Definition activation (queue : LiveRunQueueV1) (id : string) (queue' : LiveRunQueueV1) : Prop :=
  queue_ok queue'
  ∧ q_ControlledSessions queue' = q_ControlledSessions queue ∧ q_Cleanup queue' = q_Cleanup queue
  ∧ ∃ before r after, runs_of queue = before ++ r :: after ∧ ready_run id r
    ∧ promoted (before ++ set_status LiveRunStatusActiveV1 r :: after) (runs_of queue').

Lemma ActivateReadyLiveRunV1_activation queue id :
  queue_ok queue → ValidateLiveRunIDV1 id = Ok tt →
  match ActivateReadyLiveRunV1 queue id with
  | Ok queue' => activation queue id queue'
  | Err _ => Forall (λ r, ¬ ready_run id r) (runs_of queue)
  end.
Proof.
  intros Hok Hid. unfold ActivateReadyLiveRunV1.
  rewrite (proj2 (valid_queue_iff queue) Hok), Hid, !bind_Ok, (clone_ok queue Hok).
  assert (Ha := activate_entry_spec id (runs_of queue) (proj2 (ok_entries _ Hok))).
  destruct (activate_entry id (runs_of queue)) as [runs'|]; [|done].
  destruct Ha as (before & r & after & Hq & Hr & ->). rewrite bind_Ok.
  destruct Hok as [Hrest Hruns He (A & R & W & Hs & Ho & Hw)].
  assert (before ++ r :: after = A ++ R ++ W) as Heq by congruence.
  destruct (ready_position A R W before r after Ho (eq_sym Heq) (proj2 (proj2 Hr))) as (-> & -> & ->).
  assert (entries_ok (A ++ set_status LiveRunStatusActiveV1 r :: W)) as He'.
  { apply entries_ok_set_status; [by rewrite <-Hq| |done].
    destruct Hr as (_ & _ & Hr). unfold has_status in Hr. by rewrite Hr. }
  assert (A ++ set_status LiveRunStatusActiveV1 r :: W
          = (A ++ [set_status LiveRunStatusActiveV1 r]) ++ [] ++ W) as Hl by (by rewrite <-app_assoc).
  destruct (promote_queue_ok queue (A ++ [set_status LiveRunStatusActiveV1 r]) [] W)
    as [Hok' Hp]; [done|by apply activate_shape|by rewrite <-Hl|].
  rewrite <-Hl, (clone_ok queue) in Hok', Hp by (constructor; [done..|by exists A, [r], W]).
  apply valid_queue_iff in Hok'. rewrite Hok'. simpl. rewrite ?bind_Ok.
  split_and!; [by apply valid_queue_iff|done|done|]. by exists A, r, W.
Qed.

Lemma CancelWaitingLiveRunsV1_total queue :
  queue_ok queue → ∃ queue',
  CancelWaitingLiveRunsV1 queue =
    Ok (queue', filter (λ r, cancelled_entry r = true) (runs_of queue))
  ∧ queue_ok queue'
  ∧ q_ControlledSessions queue' = q_ControlledSessions queue ∧ q_Cleanup queue' = q_Cleanup queue
  ∧ promoted (filter (λ r, cancelled_entry r = false) (runs_of queue)) (runs_of queue').
Proof.
  intros Hok. unfold CancelWaitingLiveRunsV1. rewrite (proj2 (valid_queue_iff queue) Hok), bind_Ok.
  destruct (filter_queue_ok (λ r, cancelled_entry r = false) queue Hok) as [Hok' Hp].
  rewrite (clone_ok queue Hok) in Hok', Hp |- *.
  rewrite (proj2 (valid_queue_iff _) Hok'). simpl. rewrite ?bind_Ok.
  eexists. split; [reflexivity|]. done.
Qed.

Lemma same_run_trans r1 r2 r3 : same_run r1 r2 → same_run r2 r3 → same_run r1 r3.
Proof.
  intros [H1 H1'] [H2 H2']. split; [|lia]. rewrite H2, H1. by destruct r1, r2, r3.
Qed.
#[export] Instance same_run_transitive : Transitive same_run := same_run_trans.

(** What one operation does to the order of the entries: some are dropped, the kept ones
    stay in order with their status at most advanced, and at most one is appended. *)
Definition keeps_order (runs runs' : list LiveRunV1) : Prop :=
  ∃ kept kept' new, sublist kept runs ∧ Forall2 same_run kept kept' ∧ runs' = kept' ++ new
  ∧ (length new ≤ 1)%nat.

Lemma promoted_keeps_order runs kept runs' :
  sublist kept runs → promoted kept runs' → keeps_order runs runs'.
Proof.
  intros Hs Hp. exists kept, runs', []. rewrite app_nil_r.
  split_and!; [done|by apply promoted_same_run|done|simpl; lia].
Qed.

Lemma admitted_keeps_order q c wait q' s :
  admitted q c wait q' s → keeps_order (runs_of q) (runs_of q').
Proof.
  intros [_ _ Hr _ _]. exists (runs_of q), (runs_of q), [set_status s c].
  split_and!; [done| |done|simpl; lia].
  generalize (runs_of q) as l. induction l; constructor; auto using same_run_refl.
Qed.

Lemma removal_keeps_order q id kinds q' found :
  removal q id kinds q' found → keeps_order (runs_of q) (runs_of q').
Proof.
  intros (_ & _ & _ & H). destruct found; destruct H as [H _].
  - eapply promoted_keeps_order; [|done]. apply sublist_filter.
  - subst. eapply promoted_keeps_order; [|constructor]. done.
Qed.

Lemma activation_keeps_order q id q' : activation q id q' → keeps_order (runs_of q) (runs_of q').
Proof.
  intros (_ & _ & _ & before & r & after & -> & (_ & _ & Hr) & Hp).
  exists (before ++ r :: after), (runs_of q'), []. rewrite app_nil_r.
  split_and!; [done| |done|simpl; lia]. etrans; [|by apply promoted_same_run].
  assert (∀ k, Forall2 same_run k k) as Hrefl by (induction k; constructor; auto using same_run_refl).
  apply Forall2_app; [done|]. constructor; [|done]. unfold has_status in Hr. split; simpl; [done|].
  rewrite Hr. simpl. lia.
Qed.

Lemma queue_step_keeps q q' :
  queue_step q q' → queue_ok q' ∧ keeps_order (runs_of q) (runs_of q').
Proof.
  intros Hstep. destruct Hstep as [q c w q' s H|q c w q' s H|q id q' f H|q id q' f H|q id q' H|q q' cs H].
  - apply AdmitLiveRunV1_admitted in H as [_ H]. split; [apply H|by eapply admitted_keeps_order].
  - apply AdmitControlMarkerV1_admitted in H as [_ H]. split; [apply H|by eapply admitted_keeps_order].
  - unfold RemoveLiveRunV1 in H. go_ok. apply valid_queue_iff in H0.
    apply removeLiveQueueEntryV1_ok in H; [|done]. split; [apply H|by eapply removal_keeps_order].
  - unfold RemoveControlMarkerV1 in H. go_ok. apply valid_queue_iff in H0.
    apply removeLiveQueueEntryV1_ok in H; [|done]. split; [apply H|by eapply removal_keeps_order].
  - assert (Hq := H). unfold ActivateReadyLiveRunV1 in Hq. go_ok. apply valid_queue_iff in H0.
    assert (Ha := ActivateReadyLiveRunV1_activation q id H0 H1). rewrite H in Ha.
    split; [apply Ha|by eapply activation_keeps_order].
  - assert (queue_ok q) as Hok.
    { unfold CancelWaitingLiveRunsV1 in H. go_ok. by apply valid_queue_iff. }
    destruct (CancelWaitingLiveRunsV1_total q Hok) as (q1 & Hq1 & Hok1 & _ & _ & Hp).
    assert (q1 = q') as -> by congruence. split; [done|].
    eapply promoted_keeps_order; [|done]. apply sublist_filter.
Qed.

Lemma NewLiveRunQueueV1_ok : queue_ok NewLiveRunQueueV1.
Proof. by apply valid_queue_iff. Qed.

(** ** The guarantees *)

(** A queue with an active concurrent run, a ready one and a waiting exclusive one. *)
Definition sample_run (id : string) (status : LiveRunStatusV1) (exclusive : bool) : LiveRunV1 :=
  LiveRun ("run-" +:+ id) LiveRunKindAppV1 "web" "generation-1" "boot-1" status exclusive "" [] "".
Definition sample_queue : LiveRunQueueV1 :=
  LiveRunQueue LiveRunQueueSchemaV1
    (Some [sample_run "0000000000000001" LiveRunStatusActiveV1 false;
           sample_run "0000000000000002" LiveRunStatusReadyV1 false;
           sample_run "0000000000000003" LiveRunStatusWaitingV1 true]) [] [].

Lemma sample_queue_ok : queue_ok sample_queue.
Proof. apply valid_queue_iff. vm_compute. reflexivity. Qed.

(** C13: [ValidateLiveRunQueueV1] accepts exactly the queues of the specification: the
    schema, sorted and unique valid controlled sessions and cleanup entries, valid
    entries with unique IDs, active entries first, then at most one ready
    reservation, then the waiting ones, an exclusive runnable entry alone, and no
    first waiting entry without a reason to wait. *)
Theorem ValidateLiveRunQueueV1_spec queue :
  ValidateLiveRunQueueV1 queue = Ok tt ↔ queue_ok queue.
Proof. apply valid_queue_iff. Qed.

(** C27: [AdmitLiveRunV1] on a valid queue: a valid candidate with a fresh ID is appended,
    active if and only if only active concurrent entries (none, for an exclusive
    candidate) are ahead of it, otherwise waiting when the caller waits and the
    conflict error when not; the new queue is valid, everything else is kept. *)
Theorem AdmitLiveRunV1_spec queue candidate wait :
  queue_ok queue →
  match AdmitLiveRunV1 queue candidate wait with
  | Ok (queue', status) =>
    admitted queue (set_status LiveRunStatusWaitingV1 candidate) wait queue' status
  | Err msg =>
    lr_Status candidate ≠ LiveRunStatusUnsetV1
    ∨ validateLiveRunV1 (set_status LiveRunStatusWaitingV1 candidate) ≠ Ok tt
    ∨ lr_ID candidate ∈ ids (runs_of queue)
    ∨ (msg = ErrLiveRunConflict ∧ ¬ can_start queue candidate ∧ wait = false)
  end.
Proof.
  intros Hok. destruct (AdmitLiveRunV1 queue candidate wait) as [[q' s]|msg] eqn:H.
  { by apply AdmitLiveRunV1_admitted in H as [_ H]. }
  unfold AdmitLiveRunV1 in H. rewrite (proj2 (valid_queue_iff queue) Hok), bind_Ok in H.
  destruct (bool_decide _) eqn:Hs; [|go_bool; by left]. simpl in H. rewrite ?bind_Ok in H. right.
  destruct (validateLiveRunV1 _) as [[]|] eqn:Hv; [right|by left]. rewrite bind_Ok in H.
  assert (Ha := admitLiveQueueEntryV1_spec queue (set_status LiveRunStatusWaitingV1 candidate) wait
    Hok (live_run_entry _ Hv) eq_refl). by rewrite H in Ha.
Qed.

Lemma AdmitLiveRunV1_spec_witness :
  queue_ok sample_queue
  ∧ match AdmitLiveRunV1 sample_queue (sample_run "000000000000000a" LiveRunStatusUnsetV1 false) true with
    | Ok (_, status) => status = LiveRunStatusWaitingV1
    | Err _ => False
    end.
Proof.
  split; [apply sample_queue_ok|].
  assert (H := AdmitLiveRunV1_spec sample_queue
    (sample_run "000000000000000a" LiveRunStatusUnsetV1 false) true sample_queue_ok).
  destruct (AdmitLiveRunV1 _ _ _) as [[q' s]|msg] eqn:Ha; vm_compute in Ha; [|discriminate].
  destruct H as [_ _ _ _ [[_ [Hall _]]|[Hs _]]]; [|done].
  apply Forall_cons in Hall as [_ [[Hr _] _]%Forall_cons]. discriminate Hr.
Defined.

(** [AdmitControlMarkerV1] on a valid queue: like a run's admission, with the control
    operation as an exclusive entry: it starts only when the queue is empty. *)
Theorem AdmitControlMarkerV1_spec queue candidate wait :
  queue_ok queue →
  match AdmitControlMarkerV1 queue candidate wait with
  | Ok (queue', status) =>
    admitted queue (control_entry candidate) wait queue' status
    ∧ (status = LiveRunStatusActiveV1 ↔ runs_of queue = [])
  | Err msg =>
    cm_Status candidate ≠ LiveRunStatusUnsetV1
    ∨ validateLiveQueueEntryV1 (control_entry candidate) ≠ Ok tt
    ∨ cm_ID candidate ∈ ids (runs_of queue)
    ∨ (msg = ErrLiveRunConflict ∧ runs_of queue ≠ [] ∧ wait = false)
  end.
Proof.
  intros Hok.
  assert (can_start queue (control_entry candidate) ↔ runs_of queue = []) as Hc.
  { unfold can_start, exclusive. simpl. split; [by intros [_ ?]; auto|]. intros ->. by split. }
  destruct (AdmitControlMarkerV1 queue candidate wait) as [[q' s]|msg] eqn:H.
  { apply AdmitControlMarkerV1_admitted in H as [_ H]. split; [done|].
    destruct (adm_status _ _ _ _ _ H) as [[-> ?]|[-> [? _]]]; naive_solver. }
  unfold AdmitControlMarkerV1 in H. rewrite (proj2 (valid_queue_iff queue) Hok), bind_Ok in H.
  destruct (bool_decide _) eqn:Hs; [|go_bool; by left]. simpl in H. rewrite ?bind_Ok in H. right.
  destruct (validateLiveQueueEntryV1 _) as [[]|] eqn:Hv; [right|by left]. rewrite bind_Ok in H.
  assert (Ha := admitLiveQueueEntryV1_spec queue (control_entry candidate) wait Hok Hv eq_refl).
  rewrite H, Hc in Ha. done.
Qed.

Lemma AdmitControlMarkerV1_spec_witness :
  let marker := ControlMarker "control-0000000000000001" "stop" "generation-1" "boot-1" LiveRunStatusUnsetV1 in
  match AdmitControlMarkerV1 NewLiveRunQueueV1 marker false with
  | Ok (_, status) => status = LiveRunStatusActiveV1
  | Err _ => False
  end.
Proof.
  intros marker. assert (H := AdmitControlMarkerV1_spec NewLiveRunQueueV1 marker false NewLiveRunQueueV1_ok).
  destruct (AdmitControlMarkerV1 _ _ _) as [[q' s]|msg] eqn:Ha; vm_compute in Ha; [|discriminate].
  destruct H as [_ H]. by apply H.
Defined.

(** [RemoveLiveRunV1] and [RemoveControlMarkerV1] on a valid queue: the named entry
    of the right kind is removed and the first waiting entry is promoted when it
    can start; the result is valid although the code does not validate it; an
    absent entry leaves the queue as it is. *)
Theorem remove_spec queue id :
  queue_ok queue →
  (ValidateLiveRunIDV1 id = Ok tt → ∃ queue' found,
     RemoveLiveRunV1 queue id = Ok (queue', found)
     ∧ removal queue id [LiveRunKindAppV1; LiveRunKindShellV1] queue' found)
  ∧ (ValidateControlMarkerIDV1 id = Ok tt → ∃ queue' found,
     RemoveControlMarkerV1 queue id = Ok (queue', found)
     ∧ removal queue id [LiveRunKindControlV1] queue' found).
Proof.
  intros Hok. unfold RemoveLiveRunV1, RemoveControlMarkerV1.
  rewrite (proj2 (valid_queue_iff queue) Hok), !bind_Ok.
  split; intros ->; rewrite bind_Ok;
    destruct (removeLiveQueueEntryV1 _ _ _) as [q' f] eqn:H;
    exists q', f; (split; [done|]); by apply removeLiveQueueEntryV1_ok.
Qed.

Lemma remove_spec_witness :
  ∃ queue', RemoveLiveRunV1 sample_queue "run-0000000000000001" = Ok (queue', true)
  ∧ removal sample_queue "run-0000000000000001" [LiveRunKindAppV1; LiveRunKindShellV1] queue' true.
Proof.
  destruct (proj1 (remove_spec sample_queue "run-0000000000000001" sample_queue_ok)) as (q' & f & H & Hr).
  - vm_compute. reflexivity.
  - assert (f = true) as -> by (vm_compute in H; congruence). by exists q'.
Defined.

(** [ActivateReadyLiveRunV1] on a valid queue succeeds exactly when the named run is
    the ready reservation; it becomes active, the first waiting entry is promoted
    when it can start, and the validation of the result never fails. *)
Theorem ActivateReadyLiveRunV1_spec queue id :
  queue_ok queue → ValidateLiveRunIDV1 id = Ok tt →
  match ActivateReadyLiveRunV1 queue id with
  | Ok queue' => activation queue id queue'
  | Err _ => Forall (λ r, ¬ ready_run id r) (runs_of queue)
  end.
Proof. apply ActivateReadyLiveRunV1_activation. Qed.

Lemma ActivateReadyLiveRunV1_spec_witness :
  ∃ queue', ActivateReadyLiveRunV1 sample_queue "run-0000000000000002" = Ok queue'
  ∧ activation sample_queue "run-0000000000000002" queue'.
Proof.
  assert (H := ActivateReadyLiveRunV1_spec sample_queue "run-0000000000000002" sample_queue_ok
    ltac:(vm_compute; reflexivity)).
  destruct (ActivateReadyLiveRunV1 _ _) as [q'|] eqn:Ha; [by exists q'|].
  vm_compute in Ha. discriminate.
Defined.

(** [CancelWaitingLiveRunsV1] never fails on a valid queue: it returns every pending
    app and shell run, keeps active runs and control operations in order, promotes
    a control operation left at the head, and its result is valid. *)
Theorem CancelWaitingLiveRunsV1_spec queue :
  queue_ok queue → ∃ queue',
  CancelWaitingLiveRunsV1 queue = Ok (queue', filter (λ r, cancelled_entry r = true) (runs_of queue))
  ∧ queue_ok queue'
  ∧ q_ControlledSessions queue' = q_ControlledSessions queue ∧ q_Cleanup queue' = q_Cleanup queue
  ∧ promoted (filter (λ r, cancelled_entry r = false) (runs_of queue)) (runs_of queue').
Proof. apply CancelWaitingLiveRunsV1_total. Qed.

Lemma CancelWaitingLiveRunsV1_spec_witness :
  ∃ queue' canceled, CancelWaitingLiveRunsV1 sample_queue = Ok (queue', canceled)
  ∧ queue_ok queue' ∧ length canceled = 2%nat.
Proof.
  destruct (CancelWaitingLiveRunsV1_spec sample_queue sample_queue_ok) as (q' & H & Hok & _).
  eexists q', _. split; [exact H|]. split; [exact Hok|]. reflexivity.
Defined.

(** C2: every queue reachable from the empty one by any sequence of successful
    operations is valid, whichever operations are interleaved. *)
Theorem reachable_queue_valid queue :
  queue_reachable queue → ValidateLiveRunQueueV1 queue = Ok tt.
Proof.
  intros H. apply valid_queue_iff. induction H as [|q q' _ _ Hstep]; [apply NewLiveRunQueueV1_ok|].
  by apply queue_step_keeps in Hstep as [? _].
Qed.

Lemma reachable_queue_valid_witness :
  ∃ queue, queue_reachable queue ∧ length (runs_of queue) = 1%nat
  ∧ ValidateLiveRunQueueV1 queue = Ok tt.
Proof.
  set (r := sample_run "000000000000000a" LiveRunStatusUnsetV1 true).
  destruct (AdmitLiveRunV1 NewLiveRunQueueV1 r false) as [[q s]|] eqn:Ha;
    [|vm_compute in Ha; discriminate].
  assert (queue_reachable q) as H.
  { eapply queue_next; [apply queue_new|]. exact (step_admit _ _ _ _ _ Ha). }
  exists q. split; [exact H|]. split; [vm_compute in Ha; injection Ha as <- _; reflexivity|].
  exact (reachable_queue_valid q H).
Defined.

(** The queue is first in, first out: no operation reorders entries or takes back a
    promotion; entries leave, keep their place with a status that only advances
    from waiting over ready to active, and at most one entry is appended. *)
Theorem queue_fifo queue queue' :
  queue_step queue queue' → keeps_order (runs_of queue) (runs_of queue').
Proof. intros H. by apply queue_step_keeps in H as [_ ?]. Qed.

Lemma queue_fifo_witness :
  ∃ queue', queue_step sample_queue queue' ∧ keeps_order (runs_of sample_queue) (runs_of queue').
Proof.
  destruct (ActivateReadyLiveRunV1 sample_queue "run-0000000000000002") as [q|] eqn:Ha;
    [|vm_compute in Ha; discriminate].
  assert (queue_step sample_queue q) as H by exact (step_activate _ _ _ Ha).
  exists q. split; [exact H|]. exact (queue_fifo sample_queue q H).
Defined.

(** Mutual exclusion and no starvation: in a valid queue an exclusive active or ready
    entry is the only runnable one, at most one entry is reserved, and the head of
    the queue is never waiting, so an entry waits only while others are ahead. *)
Theorem queue_exclusion queue r :
  ValidateLiveRunQueueV1 queue = Ok tt → r ∈ runs_of queue →
  (lr_Exclusive r = true → lr_Status r ≠ LiveRunStatusWaitingV1 →
   ∀ x, x ∈ runs_of queue → lr_Status x ≠ LiveRunStatusWaitingV1 → x = r)
  ∧ (lr_Status r = LiveRunStatusReadyV1 →
     ∀ x, x ∈ runs_of queue → lr_Status x = LiveRunStatusReadyV1 → x = r)
  ∧ (lr_Status r = LiveRunStatusWaitingV1 → head (runs_of queue) ≠ Some r).
Proof.
  intros Hok Hr. apply valid_queue_iff in Hok as [_ _ _ (A & R & W & Hq & [HA HR HW H1 Hx] & Hw)].
  rewrite Hq in *. unfold has_status in *. rewrite Forall_forall in HA, HR, HW.
  assert (∀ x, x ∈ A ++ R ++ W → lr_Status x ≠ LiveRunStatusWaitingV1 → x ∈ A ++ R) as Hrun.
  { intros x Hin Hn. rewrite app_assoc in Hin. apply elem_of_app in Hin as [|Hin]; [done|].
    by apply HW in Hin. }
  split_and!.
  - intros Hex Hs x Hin Hn. apply Hrun in Hr; [|done]. apply Hrun in Hin; [|done].
    assert (length (A ++ R) = 1%nat) as Hl by (apply Hx, Exists_exists; by exists r).
    destruct (A ++ R) as [|y [|]]; try done. set_solver.
  - intros Hs x Hin Hxs. assert (∀ y, y ∈ A ++ R ++ W → lr_Status y = LiveRunStatusReadyV1 → y ∈ R) as HinR.
    { intros y Hy Hys. apply elem_of_app in Hy as [Hy|[|Hy]%elem_of_app]; [|done|].
      - apply HA in Hy. congruence.
      - apply HW in Hy. congruence. }
    apply HinR in Hr, Hin; try done. destruct R as [|y [|]]; simpl in H1; [set_solver|set_solver|lia].
  - intros Hs Hh. destruct A as [|a A]; simpl in Hh; [|injection Hh as ->].
    + destruct R as [|b R]; simpl in Hh; [|injection Hh as ->].
      * destruct W as [|w W]; [done|]. by destruct Hw as [? _].
      * specialize (HR r ltac:(set_solver)). congruence.
    + specialize (HA r ltac:(set_solver)). congruence.
Qed.

Lemma queue_exclusion_witness :
  head (runs_of sample_queue) ≠ Some (sample_run "0000000000000003" LiveRunStatusWaitingV1 true).
Proof.
  refine (proj2 (proj2 (queue_exclusion sample_queue _ _ _)) _).
  - vm_compute. reflexivity.
  - apply list_elem_of_In. simpl. auto.
  - reflexivity.
Defined.
