(* ===== verification/LiveRunStore.v ===== *)
(** * The durable live-run queue of one deployment

    [internal/deploy/live_run_queue_file.go], [control_lease.go], [boot_session.go]
    and the gates of [terminal_removal_guard.go].  Every operation runs under the
    deployment's operation lock, so one operation is one step on the [Store]: the
    queue file (absent or holding a queue), the lease files beside it with the
    kernel's view of their owners, the terminal guard and the boot session.

    Files are regular files and reading, writing and removing them succeeds; the
    codec of the queue file is the identity (the source validates on both sides,
    and so does the model).  [sort.Slice] is a parameter: its order of equal keys
    is unspecified. *)

From Stdlib Require Import Ascii.
From S2P Require Import Prelude GoText Identifiers LiveRunQueue.

Open Scope Z_scope.

(** Whether a lease file is locked by a living owner. *)
Inductive LeaseState := LeaseHeld | LeaseFree.
#[export] Instance LeaseState_eq_dec : EqDecision LeaseState.
Proof. solve_decision. Defined.

Record Store := MkStore {
  st_held : bool;                       (** the operation lock passes its identity checks *)
  st_directory : string;                (** the deployment directory *)
  st_guard : string;                    (** the terminal guard in the deployment state *)
  st_retirement : string;               (** the authority bound to this lock *)
  st_bootCache : string;                (** the cached boot-session identity *)
  st_bootRead : result string;          (** what reading it from the host gives *)
  st_queue : option LiveRunQueueV1;     (** the queue file *)
  st_leases : gmap string LeaseState    (** the lease files by queue-entry ID *)
}.
Definition set_bootCache (cache : string) (st : Store) : Store :=
  MkStore (st_held st) (st_directory st) (st_guard st) (st_retirement st) cache (st_bootRead st)
    (st_queue st) (st_leases st).
Definition set_queue (queue : option LiveRunQueueV1) (st : Store) : Store :=
  MkStore (st_held st) (st_directory st) (st_guard st) (st_retirement st) (st_bootCache st)
    (st_bootRead st) queue (st_leases st).
Definition set_leases (leases : gmap string LeaseState) (st : Store) : Store :=
  MkStore (st_held st) (st_directory st) (st_guard st) (st_retirement st) (st_bootCache st)
    (st_bootRead st) (st_queue st) leases.

(** ** The monad of one locked operation *)

Definition SM (A : Type) : Type := Store → Store * result A.
#[export] Instance SM_ret : MRet SM := λ A a st, (st, Ok a).
#[export] Instance SM_bind : MBind SM := λ A B f e st,
  match e st with (st', Ok a) => f a st' | (st', Err msg) => (st', Err msg) end.
Definition check {A} (r : result A) : SM A := λ st, (st, r).
Definition read {A} (f : Store → A) : SM A := λ st, (st, Ok (f st)).
Definition update (f : Store → Store) : SM unit := λ st, (f st, Ok tt).

(** ** Gates *)

Definition requireHeldLocked : SM unit :=
  held ← read st_held; check (reject_if (negb held) "operation lock is not held").

Definition requireWritableLocked : SM unit :=
  _ ← requireHeldLocked;
  guard ← read st_guard;
  retirement ← read st_retirement;
  check (reject_if (negb (bool_decide (guard = "")) || negb (bool_decide (retirement = "")))
           "deployment is guarded for terminal removal").

Definition requireRetirementLocked : SM unit :=
  _ ← requireHeldLocked;
  guard ← read st_guard;
  retirement ← read st_retirement;
  if bool_decide (guard = "") && bool_decide (retirement = "") then mret tt
  else check (reject_if (bool_decide (guard = "") || negb (bool_decide (guard = retirement)))
                "terminal removal requires unchanged explicitly bound authority").

Definition CurrentBootSessionIDV1 : SM string :=
  cache ← read st_bootCache;
  if negb (bool_decide (cache = "")) then mret cache
  else
    raw ← read st_bootRead;
    value ← check (wrap raw "obtain current boot-session identity");
    let value := trim_space value in
    _ ← check (wrap (validateBootSessionIDV1 value) "obtain current boot-session identity");
    _ ← update (set_bootCache value);
    mret value.

(** ** The queue file *)

Definition readLiveRunQueuePathV1 : SM (LiveRunQueueV1 * bool) :=
  file ← read st_queue;
  match file with
  | None => mret (NewLiveRunQueueV1, false)
  | Some queue =>
    _ ← check (wrap (ValidateLiveRunQueueV1 queue) "validate live run queue");
    mret (queue, true)
  end.

Definition empty_queue (queue : LiveRunQueueV1) : bool :=
  bool_decide (runs_of queue = []) && bool_decide (q_ControlledSessions queue = [])
  && bool_decide (q_Cleanup queue = []).

Definition commitLiveRunQueuePathV1 (queue : LiveRunQueueV1) : SM unit :=
  _ ← check (wrap (ValidateLiveRunQueueV1 queue) "encode live run queue");
  if empty_queue queue then update (set_queue None) else update (set_queue (Some queue)).

(** While the deployment is retired only entries that were active before stay; the code
    changes [next] in place, so the answer is the queue it then holds. *)
Definition commitRemovalQueueLockedV1 (previous next : LiveRunQueueV1) : SM LiveRunQueueV1 :=
  retirement ← read st_retirement;
  let was_active (run : LiveRunV1) :=
    existsb (λ old, bool_decide (lr_ID old = lr_ID run) && is_active old) (runs_of previous) in
  let next :=
    if bool_decide (retirement = "") then next
    else set_runs (filter (λ run, was_active run = true) (runs_of next)) next in
  _ ← commitLiveRunQueuePathV1 next;
  mret next.

(** ** Leases *)

Definition queueEntryLeaseAbandonedV1 (id : string) : SM bool :=
  leases ← read st_leases;
  match leases !! id with
  | None => mret true
  | Some LeaseHeld => mret false
  | Some LeaseFree => _ ← update (λ st, set_leases (delete id (st_leases st)) st); mret true
  end.

Definition removeQueueEntryLeasePathV1 (id : string) : SM unit :=
  update (λ st, set_leases (delete id (st_leases st)) st).

Definition acquireQueueEntryLeaseV1 (id : string) : SM unit :=
  _ ← requireWritableLocked;
  leases ← read st_leases;
  _ ← check (reject_if (bool_decide (leases !! id = Some LeaseHeld)) "queue-entry lease is already owned");
  update (λ st, set_leases (<[id := LeaseHeld]> (st_leases st)) st).

Definition AcquireControlLeaseV1 (id : string) : SM unit :=
  _ ← check (ValidateControlMarkerIDV1 id); acquireQueueEntryLeaseV1 id.
Definition AcquireLiveRunLeaseV1 (id : string) : SM unit :=
  _ ← check (ValidateLiveRunIDV1 id); acquireQueueEntryLeaseV1 id.

Definition RequireQueueEntryLeaseHeldV1 (id : string) : SM unit :=
  _ ← check (validateQueueEntryLeaseIDV1 id);
  _ ← requireHeldLocked;
  leases ← read st_leases;
  check (reject_if (negb (bool_decide (leases !! id = Some LeaseHeld))) "queue-entry lease is not held").

(** [Release] by the owner removes the file; [Close] leaves it unlocked. *)
Definition ReleaseLease (id : string) : SM unit := removeQueueEntryLeasePathV1 id.
Definition CloseLease (id : string) : SM unit :=
  update (λ st, set_leases (alter (λ _, LeaseFree) id (st_leases st)) st).

(** Every lease file of a valid, unretained ID is examined, and removed when free. *)
Definition removeOrphanedQueueEntryLeasesV1 (retained : list string) : SM unit :=
  update (λ st, set_leases
    (filter (λ '(id, lease), is_ok (validateQueueEntryLeaseIDV1 id) = false ∨ id ∈ retained
                             ∨ lease = LeaseHeld) (st_leases st)) st).

(** ** Operations that admit or activate work *)

Definition set_run_boot (boot : string) (r : LiveRunV1) : LiveRunV1 :=
  LiveRun (lr_ID r) (lr_Kind r) (lr_Name r) (lr_GenerationReference r) boot (lr_Status r)
    (lr_Exclusive r) (lr_WritableMount r) (lr_WritablePaths r) (lr_Container r).
Definition set_container (container : string) (r : LiveRunV1) : LiveRunV1 :=
  LiveRun (lr_ID r) (lr_Kind r) (lr_Name r) (lr_GenerationReference r) (lr_BootSession r)
    (lr_Status r) (lr_Exclusive r) (lr_WritableMount r) (lr_WritablePaths r) container.

(** [append(list[:index], list[index+1:]...)] at the first element that matches. *)
Fixpoint remove_first {A} (p : A → bool) (l : list A) : list A :=
  match l with [] => [] | x :: rest => if p x then rest else x :: remove_first p rest end.

(** [sort.Search]: binary search for the first index below [n] that satisfies [f]. *)
Fixpoint search_loop (fuel : nat) (i j : nat) (f : nat → bool) : nat :=
  match fuel with
  | O => i
  | S fuel =>
    if (i <? j)%nat then
      let h := Nat.div2 (i + j) in
      if f h then search_loop fuel i h f else search_loop fuel (S h) j f
    else i
  end.
Definition sort_search (n : nat) (f : nat → bool) : nat := search_loop n 0 n f.

(** The rest of [deduplicateLiveRunCleanupV1], after an entry of container [last]. *)
Fixpoint dedup_after (last : string) (cleanup : list LiveRunContainerCleanupV1)
    : list LiveRunContainerCleanupV1 :=
  match cleanup with
  | [] => []
  | entry :: rest =>
    if bool_decide (cc_Container entry = last) then dedup_after last rest
    else entry :: dedup_after (cc_Container entry) rest
  end.

(** What recovery reports. *)
Record RecoveredLiveRunV1 := Recovered {
  rec_Run : LiveRunV1;
  rec_Reason : LiveRunRecoveryReasonV1
}.
Record LiveRunRecoveryV1 := Recovery {
  rc_Removed : list RecoveredLiveRunV1;
  rc_ControlledSessions : list ControlledSessionOwnershipV1
}.

Module Locked.

Definition ReadLiveRunQueueV1 : SM (LiveRunQueueV1 * bool) :=
  _ ← requireHeldLocked; readLiveRunQueuePathV1.

Definition CommitLiveRunQueueV1 (queue : LiveRunQueueV1) : SM unit :=
  _ ← requireWritableLocked; commitLiveRunQueuePathV1 queue.

Definition AdmitLiveRunV1 (candidate : LiveRunV1) (wait : bool) : SM LiveRunStatusV1 :=
  _ ← requireWritableLocked;
  boot ← CurrentBootSessionIDV1;
  file ← readLiveRunQueuePathV1;
  admitted ← check (AdmitLiveRunV1 file.1 (set_run_boot boot candidate) wait);
  _ ← commitLiveRunQueuePathV1 admitted.1;
  mret admitted.2.

Definition AdmitControlMarkerV1 (candidate : ControlMarkerV1) (wait : bool) : SM LiveRunStatusV1 :=
  _ ← requireWritableLocked;
  boot ← CurrentBootSessionIDV1;
  file ← readLiveRunQueuePathV1;
  admitted ← check (AdmitControlMarkerV1 file.1
    (ControlMarker (cm_ID candidate) (cm_Operation candidate) (cm_GenerationReference candidate) boot
       (cm_Status candidate)) wait);
  _ ← commitLiveRunQueuePathV1 admitted.1;
  mret admitted.2.

(** The loop of [RecordLiveRunContainerV1]. *)
Fixpoint record_container (id container : string) (runs : list LiveRunV1) : result (list LiveRunV1) :=
  match runs with
  | [] => Err "live run is not outstanding"
  | run :: rest =>
    if negb (bool_decide (lr_ID run = id)) then
      rest ← record_container id container rest; Ok (run :: rest)
    else
      _ ← reject_if (negb (is_active run)) "cannot record a container for unclaimed live run";
      _ ← reject_if (negb (bool_decide (lr_Container run = ""))
                     && negb (bool_decide (lr_Container run = container)))
            "live run already names a container";
      Ok (set_container container run :: rest)
  end.
Definition RecordLiveRunContainerV1 (id container : string) : SM unit :=
  _ ← check (ValidateLiveRunIDV1 id);
  _ ← check (reject_if (negb (safeRecoveryIdentity container))
        "live run container must be nonempty safe text");
  _ ← requireWritableLocked;
  file ← readLiveRunQueuePathV1;
  runs ← check (record_container id container (runs_of file.1));
  commitLiveRunQueuePathV1 (set_runs runs file.1).

Definition ActivateReadyLiveRunV1 (id : string) : SM unit :=
  _ ← requireWritableLocked;
  file ← readLiveRunQueuePathV1;
  updated ← check (ActivateReadyLiveRunV1 file.1 id);
  commitLiveRunQueuePathV1 updated.

Fixpoint activate_control (id : string) (runs : list LiveRunV1) : result (list LiveRunV1) :=
  match runs with
  | [] => Err "control marker is not outstanding"
  | entry :: rest =>
    if negb (bool_decide (lr_ID entry = id)) || negb (is_control entry) then
      rest ← activate_control id rest; Ok (entry :: rest)
    else
      _ ← reject_if (negb (is_ready entry)) "control marker is not ready";
      Ok (set_status LiveRunStatusActiveV1 entry :: rest)
  end.
Definition ActivateReadyControlMarkerV1 (id : string) : SM unit :=
  _ ← check (ValidateControlMarkerIDV1 id);
  _ ← requireWritableLocked;
  file ← readLiveRunQueuePathV1;
  runs ← check (activate_control id (runs_of file.1));
  commitLiveRunQueuePathV1 (set_runs runs file.1).

(** ** Operations that retire work *)

Definition RemoveLiveRunV1 (id : string) : SM (LiveRunQueueV1 * bool) :=
  _ ← requireRetirementLocked;
  file ← readLiveRunQueuePathV1;
  removed ← check (RemoveLiveRunV1 file.1 id);
  if negb removed.2 then mret removed
  else updated ← commitRemovalQueueLockedV1 file.1 removed.1; mret (updated, removed.2).

Definition RemoveControlMarkerV1 (id : string) : SM (LiveRunQueueV1 * bool) :=
  _ ← requireRetirementLocked;
  file ← readLiveRunQueuePathV1;
  removed ← check (RemoveControlMarkerV1 file.1 id);
  if negb removed.2 then mret removed
  else updated ← commitRemovalQueueLockedV1 file.1 removed.1; mret (updated, removed.2).

Definition CancelWaitingLiveRunsV1 : SM (LiveRunQueueV1 * list LiveRunV1) :=
  _ ← requireRetirementLocked;
  file ← readLiveRunQueuePathV1;
  canceled ← check (CancelWaitingLiveRunsV1 file.1);
  if bool_decide (canceled.2 = []) then mret canceled
  else updated ← commitRemovalQueueLockedV1 file.1 canceled.1; mret (updated, canceled.2).

Definition CompleteLiveRunContainerCleanupV1 (container : string) : SM bool :=
  _ ← check (reject_if (negb (safeRecoveryIdentity container))
        "cleanup container must be nonempty safe text");
  _ ← requireRetirementLocked;
  file ← readLiveRunQueuePathV1;
  let queue := file.1 in
  if existsb (λ entry, bool_decide (cc_Container entry = container)) (q_Cleanup queue) then
    _ ← commitLiveRunQueuePathV1
          (LiveRunQueue (q_Schema queue) (q_Runs queue) (q_ControlledSessions queue)
             (remove_first (λ entry, bool_decide (cc_Container entry = container)) (q_Cleanup queue)));
    mret true
  else mret false.

(** ** Controlled-session ownership *)

Definition merge_id (current next resource : string) : result string :=
  if bool_decide (next = "") then Ok current
  else if negb (bool_decide (current = "")) && negb (bool_decide (current = next))
  then Err (resource +:+ " ID changed")
  else Ok next.

Definition set_co_ID (id : string) (c : ControlledSessionContainerOwnershipV1)
    : ControlledSessionContainerOwnershipV1 :=
  ContainerOwnership (co_Role c) id (co_Name c) (co_DeploymentID c) (co_GenerationReference c)
    (co_BuildIdentity c).
Definition set_ids (network controller workload : string) (o : ControlledSessionOwnershipV1)
    : ControlledSessionOwnershipV1 :=
  SessionOwnership (so_LiveRunID o) (so_BootSession o) (so_SessionHandle o) (so_DockerEndpoint o)
    (so_ControllerDeploymentDirectory o) (so_WorkloadDeploymentDirectory o) (so_ChannelDirectory o)
    network (so_NetworkName o) (set_co_ID controller (so_Controller o)) (set_co_ID workload (so_Workload o)).

Definition mergeControlledSessionOwnershipV1 (existing requested : ControlledSessionOwnershipV1)
    : result ControlledSessionOwnershipV1 :=
  _ ← reject_if (negb (bool_decide (set_ids "" "" "" existing = set_ids "" "" "" requested)))
        "immutable resource plan changed";
  network ← merge_id (so_NetworkID existing) (so_NetworkID requested) "network";
  controller ← merge_id (co_ID (so_Controller existing)) (co_ID (so_Controller requested))
                 "controller container";
  workload ← merge_id (co_ID (so_Workload existing)) (co_ID (so_Workload requested))
               "workload container";
  let merged := set_ids network controller workload existing in
  _ ← validateCurrentControlledSessionOwnershipV1 merged;
  Ok merged.

Definition set_so_BootSession (boot : string) (o : ControlledSessionOwnershipV1)
    : ControlledSessionOwnershipV1 :=
  SessionOwnership (so_LiveRunID o) boot (so_SessionHandle o) (so_DockerEndpoint o)
    (so_ControllerDeploymentDirectory o) (so_WorkloadDeploymentDirectory o) (so_ChannelDirectory o)
    (so_NetworkID o) (so_NetworkName o) (so_Controller o) (so_Workload o).

(** The checks of [RecordControlledSessionOwnershipV1] against the admitted run; the
    ownership with the run's boot session. *)
Definition admitted_ownership (directory : string) (runs : list LiveRunV1)
    (ownership : ControlledSessionOwnershipV1) : result ControlledSessionOwnershipV1 :=
  match find_first (λ run, bool_decide (lr_ID run = so_LiveRunID ownership)) runs with
  | None => Err "live run is not outstanding"
  | Some admitted =>
    _ ← reject_if (negb (is_active admitted)
                   || negb (bool_decide (lr_Kind admitted = LiveRunKindShellV1)))
          "controlled session live run must be an active shell";
    _ ← reject_if (negb (bool_decide (lr_Container admitted = "")))
          "controlled session live run already names a container";
    let ownership := set_so_BootSession (lr_BootSession admitted) ownership in
    _ ← validateCurrentControlledSessionOwnershipV1 ownership;
    participant ←
      (if bool_decide (directory = so_ControllerDeploymentDirectory ownership)
       then Ok (so_Controller ownership)
       else if bool_decide (directory = so_WorkloadDeploymentDirectory ownership)
       then Ok (so_Workload ownership)
       else Err "controlled session ownership does not name deployment directory");
    _ ← reject_if (negb (bool_decide (lr_GenerationReference admitted = co_GenerationReference participant)))
          "controlled session generation does not match admitted live run";
    Ok ownership
  end.

Definition set_sessions (sessions : list ControlledSessionOwnershipV1) (queue : LiveRunQueueV1)
    : LiveRunQueueV1 :=
  LiveRunQueue (q_Schema queue) (q_Runs queue) sessions (q_Cleanup queue).

Definition RecordControlledSessionOwnershipV1 (ownership : ControlledSessionOwnershipV1)
    : SM ControlledSessionOwnershipV1 :=
  _ ← check (ValidateLiveRunIDV1 (so_LiveRunID ownership));
  _ ← requireWritableLocked;
  file ← readLiveRunQueuePathV1;
  let queue := file.1 in
  directory ← read st_directory;
  ownership ← check (admitted_ownership directory (runs_of queue) ownership);
  let sessions := q_ControlledSessions queue in
  let position := sort_search (length sessions) (λ index,
    match sessions !! index with
    | Some o => string_geb (so_LiveRunID o) (so_LiveRunID ownership)
    | None => true
    end) in
  match sessions !! position with
  | Some existing =>
    if bool_decide (so_LiveRunID existing = so_LiveRunID ownership) then
      merged ← check (wrap (mergeControlledSessionOwnershipV1 existing ownership)
                        "live run already has different controlled-session ownership");
      if bool_decide (merged = existing) then mret merged
      else _ ← commitLiveRunQueuePathV1 (set_sessions (<[position := merged]> sessions) queue);
           mret merged
    else
      _ ← commitLiveRunQueuePathV1
            (set_sessions (take position sessions ++ ownership :: drop position sessions) queue);
      mret ownership
  | None =>
    _ ← commitLiveRunQueuePathV1
          (set_sessions (take position sessions ++ ownership :: drop position sessions) queue);
    mret ownership
  end.

Definition CompleteControlledSessionV1 (id : string) : SM bool :=
  _ ← check (ValidateLiveRunIDV1 id);
  _ ← requireRetirementLocked;
  file ← readLiveRunQueuePathV1;
  removed ← check (LiveRunQueue.RemoveLiveRunV1 file.1 id);
  let named (o : ControlledSessionOwnershipV1) := bool_decide (so_LiveRunID o = id) in
  let updated := set_sessions (remove_first named (q_ControlledSessions removed.1)) removed.1 in
  if negb removed.2 && negb (existsb named (q_ControlledSessions removed.1)) then mret false
  else _ ← commitRemovalQueueLockedV1 file.1 updated; mret true.

(** ** Cleanup inventory and recovery *)

Section sorted.
(** [sort.Slice] by container name. *)
Context (sort_cleanup : list LiveRunContainerCleanupV1 → list LiveRunContainerCleanupV1).

Definition deduplicateLiveRunCleanupV1 (cleanup : list LiveRunContainerCleanupV1)
    : list LiveRunContainerCleanupV1 :=
  match cleanup with
  | [] => []
  | first :: rest => first :: dedup_after (cc_Container first) rest
  end.

Definition set_cleanup (cleanup : list LiveRunContainerCleanupV1) (queue : LiveRunQueueV1)
    : LiveRunQueueV1 :=
  LiveRunQueue (q_Schema queue) (q_Runs queue) (q_ControlledSessions queue)
    (deduplicateLiveRunCleanupV1 (sort_cleanup cleanup)).

Definition CompleteLiveRunWithContainerCleanupV1 (id container : string) : SM bool :=
  _ ← check (ValidateLiveRunIDV1 id);
  _ ← check (reject_if (negb (safeRecoveryIdentity container))
        "cleanup container must be nonempty safe text");
  _ ← requireRetirementLocked;
  file ← readLiveRunQueuePathV1;
  let queue := file.1 in
  let run := find_first (λ entry, bool_decide (lr_ID entry = id) && negb (is_control entry)) (runs_of queue) in
  removed ← check (LiveRunQueue.RemoveLiveRunV1 queue id);
  if negb removed.2 then mret false
  else match run with
  | None => check (Err "unreachable: the removed run was listed")
  | Some run =>
    _ ← check (reject_if (negb (bool_decide (lr_Container run = ""))
                          && negb (bool_decide (lr_Container run = container)))
          "live run names another container");
    let updated := removed.1 in
    let updated := set_cleanup (q_Cleanup updated ++
      [ContainerCleanup container (lr_ID run) (lr_Kind run) (lr_Name run) LiveRunRecoveryCleanupFailedV1])
      updated in
    _ ← commitRemovalQueueLockedV1 queue updated;
    mret true
  end.

(** Why an entry cannot belong to a live owner; examining a lease may remove it. *)
Definition recovery_reason (session : string) (entry : LiveRunV1)
    : SM (option LiveRunRecoveryReasonV1) :=
  if bool_decide (lr_BootSession entry = "") then mret (Some LiveRunRecoveryLegacyEntryV1)
  else if negb (bool_decide (lr_BootSession entry = session)) then
    mret (Some LiveRunRecoveryPriorSessionV1)
  else
    abandoned ← queueEntryLeaseAbandonedV1 (lr_ID entry);
    mret (if abandoned : bool then Some LiveRunRecoveryAbandonedOwnerV1 else None).

Definition cleanup_of (entry : LiveRunV1) (reason : LiveRunRecoveryReasonV1)
    : list LiveRunContainerCleanupV1 :=
  if bool_decide (lr_Container entry = "") then []
  else [ContainerCleanup (lr_Container entry) (lr_ID entry) (lr_Kind entry) (lr_Name entry) reason].

(** The loop over the entries: those that stay, those removed, and the cleanup
    inventory of the removed ones. *)
Fixpoint recover_entries (session : string) (terminal : bool) (entries : list LiveRunV1)
    : SM (list LiveRunV1 * list RecoveredLiveRunV1 * list LiveRunContainerCleanupV1) :=
  match entries with
  | [] => mret ([], [], [])
  | entry :: rest =>
    reason ← recovery_reason session entry;
    match reason with
    | None =>
      found ← recover_entries session terminal rest;
      let '(runs, removed, cleanup) := found in
      mret (if negb terminal || is_active entry then entry :: runs else runs, removed, cleanup)
    | Some reason =>
      _ ← (if bool_decide (reason = LiveRunRecoveryAbandonedOwnerV1) then mret tt
           else removeQueueEntryLeasePathV1 (lr_ID entry));
      found ← recover_entries session terminal rest;
      let '(runs, removed, cleanup) := found in
      mret (runs, Recovered entry reason :: removed, cleanup_of entry reason ++ cleanup)
    end
  end.

(** The loop over the recorded sessions: those whose run is gone and whose owner is. *)
Fixpoint recover_sessions (session : string) (retained : list string)
    (sessions : list ControlledSessionOwnershipV1) : SM (list ControlledSessionOwnershipV1) :=
  match sessions with
  | [] => mret []
  | ownership :: rest =>
    if bool_decide (so_LiveRunID ownership ∈ retained) then recover_sessions session retained rest
    else if bool_decide (so_BootSession ownership = session) then
      abandoned ← queueEntryLeaseAbandonedV1 (so_LiveRunID ownership);
      others ← recover_sessions session retained rest;
      mret (if abandoned : bool then ownership :: others else others)
    else others ← recover_sessions session retained rest; mret (ownership :: others)
  end.

Definition recoverLiveRunQueuePathV1 (session : string) (terminal : bool) : SM LiveRunRecoveryV1 :=
  _ ← check (validateBootSessionIDV1 session);
  file ← readLiveRunQueuePathV1;
  let queue := file.1 in
  found ← recover_entries session terminal (runs_of queue);
  let '(runs, removed, cleanup) := found in
  let kept := set_runs runs (cloneLiveRunQueueV1 queue) in
  let kept := if terminal then kept else promoteLiveRunsV1 kept in
  let result := set_cleanup (q_Cleanup kept ++ cleanup) kept in
  _ ← check (wrap (ValidateLiveRunQueueV1 result) "validate recovered live run queue");
  _ ← (if negb (bool_decide (removed = []))
          || negb (bool_decide (length (runs_of result) = length (runs_of queue)))
       then commitLiveRunQueuePathV1 result else mret tt);
  let retained := map lr_ID (runs_of result) in
  sessions ← recover_sessions session retained (q_ControlledSessions result);
  _ ← removeOrphanedQueueEntryLeasesV1 retained;
  mret (Recovery removed sessions).

Definition RecoverLiveRunQueueV1 : SM LiveRunRecoveryV1 :=
  session ← CurrentBootSessionIDV1;
  _ ← requireRetirementLocked;
  retirement ← read st_retirement;
  recoverLiveRunQueuePathV1 session (negb (bool_decide (retirement = ""))).

Definition RecoverAbandonedControlMarkerV1 : SM (option ControlMarkerV1) :=
  recovery ← RecoverLiveRunQueueV1;
  mret (option_map (λ r, let entry := rec_Run r in
          ControlMarker (lr_ID entry) (lr_Name entry) (lr_GenerationReference entry)
            (lr_BootSession entry) (lr_Status entry))
        (find_first (λ r, is_control (rec_Run r)) (rc_Removed recovery))).
End sorted.

End Locked.
