(* ===== verification/LiveRunStoreFacts.v ===== *)
(** * The durable live-run queue: correctness of the locked operations

    Every operation keeps the queue file valid, the validation before a commit never
    rejects what an operation computed, recovery removes exactly the entries
    without a live owner and loses no container, and a recorded session ownership
    only gains identities. *)

From S2P Require Import Prelude GoText Identifiers LiveRunQueue LiveRunQueueFacts LiveRunStore.

Open Scope Z_scope.

(** ** The queue file *)

Definition current (st : Store) : LiveRunQueueV1 := default NewLiveRunQueueV1 (st_queue st).
Definition file_of (queue : LiveRunQueueV1) : option LiveRunQueueV1 :=
  if empty_queue queue then None else Some queue.
(** A queue file, when there is one, is valid and not empty. *)
Definition store_ok (st : Store) : Prop :=
  match st_queue st with Some queue => queue_ok queue ∧ empty_queue queue = false | None => True end.

Lemma current_ok st : store_ok st → queue_ok (current st).
Proof.
  unfold store_ok, current. destruct (st_queue st); [by intros [? _]|]. intros _.
  apply NewLiveRunQueueV1_ok.
Qed.

Lemma store_ok_file st : store_ok st → st_queue st = file_of (current st).
Proof.
  unfold store_ok, file_of, current. destruct (st_queue st); [|done]. simpl. by intros [_ ->].
Qed.

Lemma read_runs st :
  store_ok st → ∃ found, readLiveRunQueuePathV1 st = (st, Ok (current st, found)).
Proof.
  unfold store_ok, readLiveRunQueuePathV1, mbind, SM_bind, read, current. simpl.
  destruct (st_queue st) as [q|]; [|by eexists]. intros [Hq _]. unfold check.
  rewrite (proj2 (valid_queue_iff q) Hq). by eexists.
Qed.

Lemma commit_runs queue st :
  queue_ok queue → commitLiveRunQueuePathV1 queue st = (set_queue (file_of queue) st, Ok tt).
Proof.
  intros Hq. unfold commitLiveRunQueuePathV1, file_of, mbind, SM_bind, check.
  rewrite (proj2 (valid_queue_iff queue) Hq). simpl. by destruct (empty_queue queue).
Qed.

(** ** Every operation keeps the file valid *)

Definition keeps_ok {A} (e : SM A) : Prop := ∀ st, store_ok st → store_ok (e st).1.

Lemma keeps_bind {A B} (e : SM A) (f : A → SM B) :
  keeps_ok e → (∀ a, keeps_ok (f a)) → keeps_ok (e ≫= f).
Proof.
  intros He Hf st Hst. unfold mbind, SM_bind. specialize (He st Hst).
  destruct (e st) as [st1 [a|]]; simpl in *; [by apply Hf|done].
Qed.
Lemma keeps_ret {A} (a : A) : keeps_ok (mret a : SM A). Proof. by intros st. Qed.
Lemma keeps_check {A} (r : result A) : keeps_ok (check r). Proof. by intros st. Qed.
Lemma keeps_read {A} (f : Store → A) : keeps_ok (read f). Proof. by intros st. Qed.
Lemma keeps_update f : (∀ st, st_queue (f st) = st_queue st) → keeps_ok (update f).
Proof. intros Hf st. unfold store_ok. simpl. by rewrite Hf. Qed.
Lemma keeps_commit queue : keeps_ok (commitLiveRunQueuePathV1 queue).
Proof.
  intros st Hst. unfold commitLiveRunQueuePathV1, mbind, SM_bind, check.
  destruct (ValidateLiveRunQueueV1 queue) as [[]|] eqn:Hq; simpl; [|done].
  apply valid_queue_iff in Hq. unfold store_ok. destruct (empty_queue queue) eqn:He; by simpl.
Qed.
Create HintDb store discriminated.
#[export] Hint Resolve keeps_ret keeps_check keeps_read keeps_commit : store.

Ltac solve_keeps :=
  repeat match goal with
  | |- ∀ _, _ => intros ?
  | |- keeps_ok (_ ≫= _) => apply keeps_bind
  | |- keeps_ok (match ?x with _ => _ end) => destruct x
  | |- keeps_ok (update _) => apply keeps_update
  | |- keeps_ok (let _ := _ in _) => cbv zeta
  | _ => solve [auto 2 with store]
  end; try done.

Lemma keeps_held : keeps_ok requireHeldLocked.
Proof. unfold requireHeldLocked. solve_keeps. Qed.
#[export] Hint Resolve keeps_held : store.
Lemma keeps_writable : keeps_ok requireWritableLocked.
Proof. unfold requireWritableLocked. solve_keeps. Qed.
Lemma keeps_retirement : keeps_ok requireRetirementLocked.
Proof. unfold requireRetirementLocked. solve_keeps. Qed.
Lemma keeps_boot : keeps_ok CurrentBootSessionIDV1.
Proof. unfold CurrentBootSessionIDV1. solve_keeps. Qed.
Lemma keeps_read_queue : keeps_ok readLiveRunQueuePathV1.
Proof. unfold readLiveRunQueuePathV1. solve_keeps. Qed.
Lemma keeps_removal previous next : keeps_ok (commitRemovalQueueLockedV1 previous next).
Proof. unfold commitRemovalQueueLockedV1. solve_keeps. Qed.
Lemma keeps_abandoned id : keeps_ok (queueEntryLeaseAbandonedV1 id).
Proof. unfold queueEntryLeaseAbandonedV1. solve_keeps. Qed.
Lemma keeps_remove_lease id : keeps_ok (removeQueueEntryLeasePathV1 id).
Proof. unfold removeQueueEntryLeasePathV1. solve_keeps. Qed.
Lemma keeps_acquire id : keeps_ok (acquireQueueEntryLeaseV1 id).
Proof.
  unfold acquireQueueEntryLeaseV1. apply keeps_bind; [apply keeps_writable|]. solve_keeps.
Qed.
Lemma keeps_orphans retained : keeps_ok (removeOrphanedQueueEntryLeasesV1 retained).
Proof. unfold removeOrphanedQueueEntryLeasesV1. solve_keeps. Qed.
#[export] Hint Resolve keeps_writable keeps_retirement keeps_boot keeps_read_queue keeps_removal
  keeps_abandoned keeps_remove_lease keeps_acquire keeps_orphans : store.
Lemma keeps_reason session entry : keeps_ok (Locked.recovery_reason session entry).
Proof. unfold Locked.recovery_reason. solve_keeps. Qed.
#[export] Hint Resolve keeps_reason : store.
Lemma keeps_entries session terminal entries : keeps_ok (Locked.recover_entries session terminal entries).
Proof. induction entries; simpl; solve_keeps. Qed.
Lemma keeps_sessions session retained sessions :
  keeps_ok (Locked.recover_sessions session retained sessions).
Proof. induction sessions; simpl; solve_keeps. Qed.
#[export] Hint Resolve keeps_entries keeps_sessions : store.

(** One step of a deployment: a locked operation, whatever its outcome, or an owner that
    releases its lease or dies. *)
Inductive store_step (sort_cleanup : list LiveRunContainerCleanupV1 → list LiveRunContainerCleanupV1)
    : Store → Store → Prop :=
| store_commit q st : store_step _ st (Locked.CommitLiveRunQueueV1 q st).1
| store_admit c w st : store_step _ st (Locked.AdmitLiveRunV1 c w st).1
| store_admit_control c w st : store_step _ st (Locked.AdmitControlMarkerV1 c w st).1
| store_record id container st : store_step _ st (Locked.RecordLiveRunContainerV1 id container st).1
| store_activate id st : store_step _ st (Locked.ActivateReadyLiveRunV1 id st).1
| store_activate_control id st : store_step _ st (Locked.ActivateReadyControlMarkerV1 id st).1
| store_remove id st : store_step _ st (Locked.RemoveLiveRunV1 id st).1
| store_remove_control id st : store_step _ st (Locked.RemoveControlMarkerV1 id st).1
| store_cancel st : store_step _ st (Locked.CancelWaitingLiveRunsV1 st).1
| store_cleaned container st : store_step _ st (Locked.CompleteLiveRunContainerCleanupV1 container st).1
| store_cleanup_failed id container st :
    store_step _ st (Locked.CompleteLiveRunWithContainerCleanupV1 sort_cleanup id container st).1
| store_own o st : store_step _ st (Locked.RecordControlledSessionOwnershipV1 o st).1
| store_complete id st : store_step _ st (Locked.CompleteControlledSessionV1 id st).1
| store_recover st : store_step _ st (Locked.RecoverLiveRunQueueV1 sort_cleanup st).1
| store_lease id st : store_step _ st (acquireQueueEntryLeaseV1 id st).1
| store_release id st : store_step _ st (ReleaseLease id st).1
| store_owner_gone id st : store_step _ st (CloseLease id st).1.

Lemma store_step_ok sort_cleanup st st' : store_step sort_cleanup st st' → store_ok st → store_ok st'.
Proof.
  intros Hs Hst. destruct Hs; refine ((_ : keeps_ok _) st Hst);
    unfold Locked.CommitLiveRunQueueV1, Locked.AdmitLiveRunV1, Locked.AdmitControlMarkerV1,
      Locked.RecordLiveRunContainerV1, Locked.ActivateReadyLiveRunV1,
      Locked.ActivateReadyControlMarkerV1, Locked.RemoveLiveRunV1, Locked.RemoveControlMarkerV1,
      Locked.CancelWaitingLiveRunsV1, Locked.CompleteLiveRunContainerCleanupV1,
      Locked.CompleteLiveRunWithContainerCleanupV1, Locked.RecordControlledSessionOwnershipV1,
      Locked.CompleteControlledSessionV1, Locked.RecoverLiveRunQueueV1,
      Locked.recoverLiveRunQueuePathV1, ReleaseLease, CloseLease;
    cbv zeta; solve_keeps.
Qed.

(** ** Gates *)

Definition writable (st : Store) : Prop :=
  st_held st = true ∧ st_guard st = "" ∧ st_retirement st = "".
Definition retirable (st : Store) : Prop :=
  st_held st = true ∧ (st_guard st = "" ∧ st_retirement st = ""
                       ∨ st_guard st ≠ "" ∧ st_guard st = st_retirement st).

Lemma writable_run st : writable st → requireWritableLocked st = (st, Ok tt).
Proof.
  intros (Hh & Hg & Hr). unfold requireWritableLocked, requireHeldLocked, mbind, SM_bind, read, check.
  by rewrite Hh, Hg, Hr.
Qed.
Lemma writable_refused st : ¬ writable st → ∃ msg, requireWritableLocked st = (st, Err msg).
Proof.
  intros Hn. unfold requireWritableLocked, requireHeldLocked, mbind, SM_bind, read, check.
  destruct (st_held st) eqn:Hh; simpl; [|by eexists].
  destruct (decide (st_guard st = "")) as [Hg|Hg].
  - rewrite (bool_decide_true _ Hg). destruct (decide (st_retirement st = "")) as [Hr|Hr].
    + by destruct Hn.
    + rewrite (bool_decide_false _ Hr). by eexists.
  - rewrite (bool_decide_false _ Hg). by eexists.
Qed.
Lemma retirable_run st : retirable st → requireRetirementLocked st = (st, Ok tt).
Proof.
  intros (Hh & Hg). unfold requireRetirementLocked, requireHeldLocked, mbind, SM_bind, read, check.
  rewrite Hh. destruct Hg as [[-> ->]|[Hg Hr]]; [done|]. simpl.
  rewrite (bool_decide_false _ Hg), (bool_decide_true _ Hr). done.
Qed.

Lemma SM_bind_ok {A B} (e : SM A) (f : A → SM B) st st1 a :
  e st = (st1, Ok a) → (e ≫= f) st = f a st1.
Proof. unfold mbind, SM_bind. by intros ->. Qed.
Lemma SM_bind_err {A B} (e : SM A) (f : A → SM B) st st1 msg :
  e st = (st1, Err msg) → (e ≫= f) st = (st1, Err msg).
Proof. unfold mbind, SM_bind. by intros ->. Qed.
Lemma SM_bind_check {A B} (r : result A) (f : A → SM B) st :
  (check r ≫= f) st = match r with Ok a => f a st | Err msg => (st, Err msg) end.
Proof. unfold mbind, SM_bind, check. by destruct r. Qed.
Lemma SM_bind_read {A B} (g : Store → A) (f : A → SM B) st : (read g ≫= f) st = f (g st) st.
Proof. done. Qed.

(** ** Locked operations are the queue operations on the file *)

Lemma boot_keeps_file st st1 r :
  CurrentBootSessionIDV1 st = (st1, r) →
  st_queue st1 = st_queue st ∧ st_leases st1 = st_leases st ∧ st_retirement st1 = st_retirement st
  ∧ (∀ boot, r = Ok boot → st_bootCache st = "" → validateBootSessionIDV1 boot = Ok tt).
Proof.
  unfold CurrentBootSessionIDV1, mbind, SM_bind, read, check, update. simpl.
  destruct (bool_decide (st_bootCache st = "")) eqn:Hc; simpl.
  - destruct (st_bootRead st) as [v|]; simpl; [|by intros [= <- <-]].
    destruct (validateBootSessionIDV1 (trim_space v)) as [[]|] eqn:Hv; simpl; intros [= <- <-]; [|done].
    simpl. split_and!; try done. by intros boot [= <-].
  - intros [= <- <-]. split_and!; try done. intros boot _ He. go_bool. done.
Qed.

Lemma current_file st1 st : st_queue st1 = st_queue st → current st1 = current st.
Proof. unfold current. by intros ->. Qed.

Lemma admitted_nonempty queue c w queue' s :
  admitted queue c w queue' s → file_of queue' = Some queue'.
Proof.
  intros [_ _ Hr _ _]. unfold file_of, empty_queue. rewrite Hr, bool_decide_false; [done|].
  by intros [_ ?]%app_nil.
Qed.

Lemma locked_admit_run st st1 boot c wait :
  store_ok st → writable st → CurrentBootSessionIDV1 st = (st1, Ok boot) →
  Locked.AdmitLiveRunV1 c wait st =
  match AdmitLiveRunV1 (current st) (set_run_boot boot c) wait with
  | Ok (queue', status) => (set_queue (Some queue') st1, Ok status)
  | Err msg => (st1, Err msg)
  end.
Proof.
  intros Hok Hw Hb. unfold Locked.AdmitLiveRunV1.
  rewrite (SM_bind_ok _ _ _ _ _ (writable_run st Hw)), (SM_bind_ok _ _ _ _ _ Hb).
  destruct (boot_keeps_file _ _ _ Hb) as (Hf & _).
  assert (store_ok st1) as Hok1 by (unfold store_ok; by rewrite Hf).
  destruct (read_runs st1 Hok1) as [found Hr]. rewrite (SM_bind_ok _ _ _ _ _ Hr). cbn [fst].
  rewrite (current_file _ _ Hf), SM_bind_check.
  destruct (AdmitLiveRunV1 _ _ _) as [[q' s]|] eqn:Ha; [|done].
  apply AdmitLiveRunV1_admitted in Ha as [_ Ha].
  rewrite (SM_bind_ok _ _ _ _ _ (commit_runs q' st1 (adm_valid _ _ _ _ _ Ha))).
  by rewrite (admitted_nonempty _ _ _ _ _ Ha).
Qed.

Lemma locked_admit_control_run st st1 boot c wait :
  store_ok st → writable st → CurrentBootSessionIDV1 st = (st1, Ok boot) →
  Locked.AdmitControlMarkerV1 c wait st =
  match AdmitControlMarkerV1 (current st)
          (ControlMarker (cm_ID c) (cm_Operation c) (cm_GenerationReference c) boot (cm_Status c)) wait with
  | Ok (queue', status) => (set_queue (Some queue') st1, Ok status)
  | Err msg => (st1, Err msg)
  end.
Proof.
  intros Hok Hw Hb. unfold Locked.AdmitControlMarkerV1.
  rewrite (SM_bind_ok _ _ _ _ _ (writable_run st Hw)), (SM_bind_ok _ _ _ _ _ Hb).
  destruct (boot_keeps_file _ _ _ Hb) as (Hf & _).
  assert (store_ok st1) as Hok1 by (unfold store_ok; by rewrite Hf).
  destruct (read_runs st1 Hok1) as [found Hr]. rewrite (SM_bind_ok _ _ _ _ _ Hr). cbn [fst].
  rewrite (current_file _ _ Hf), SM_bind_check.
  destruct (AdmitControlMarkerV1 _ _ _) as [[q' s]|] eqn:Ha; [|done].
  apply AdmitControlMarkerV1_admitted in Ha as [_ Ha].
  rewrite (SM_bind_ok _ _ _ _ _ (commit_runs q' st1 (adm_valid _ _ _ _ _ Ha))).
  by rewrite (admitted_nonempty _ _ _ _ _ Ha).
Qed.

(** ** Retirement *)

Definition active_before (previous : LiveRunQueueV1) (run : LiveRunV1) : bool :=
  existsb (λ old, bool_decide (lr_ID old = lr_ID run) && is_active old) (runs_of previous).
Definition retired_queue (retirement : string) (previous next : LiveRunQueueV1) : LiveRunQueueV1 :=
  if bool_decide (retirement = "") then next
  else set_runs (filter (λ run, active_before previous run = true) (runs_of next)) next.

Lemma same_id_same_run l r x : NoDup (ids l) → r ∈ l → x ∈ l → lr_ID r = lr_ID x → r = x.
Proof.
  induction l as [|y l IH]; simpl; [by intros _ ?%elem_of_nil|]. intros [Hy Hn]%NoDup_cons.
  intros [->|Hr]%elem_of_cons [->|Hx]%elem_of_cons Hid; [done| | |by apply IH].
  - destruct Hy. rewrite Hid. by apply list_elem_of_fmap_2.
  - destruct Hy. rewrite <-Hid. by apply list_elem_of_fmap_2.
Qed.

Lemma entry_known queue r : queue_ok queue → r ∈ runs_of queue → valid_status (lr_Status r) = true.
Proof.
  intros Hok Hr. apply entry_status. destruct (ok_entries _ Hok) as [Hv _].
  rewrite Forall_forall in Hv. by apply Hv.
Qed.

(** Entries that were active before a removal are active after it. *)
Lemma active_stays previous kept next r :
  queue_ok previous → queue_ok next → sublist kept (runs_of previous) →
  promoted kept (runs_of next) → r ∈ runs_of next → active_before previous r = true →
  has_status LiveRunStatusActiveV1 r.
Proof.
  intros Hp Hn Hs Hpr Hr Ha. apply promoted_same_run in Hpr.
  destruct (Forall2_right _ _ _ _ Hpr Hr) as (x & Hx & Hsame & Hrank).
  unfold active_before in Ha. apply existsb_exists in Ha as (old & Hold & Ha). go_bool.
  destruct Ha as [Hid Hact]. apply list_elem_of_In in Hold. unfold is_active in Hact. go_bool.
  assert (old = x) as ->.
  { eapply same_id_same_run; [apply (ok_entries _ Hp)|done| |].
    - eapply elem_of_sublist; [done|]. done.
    - rewrite Hid, Hsame. done. }
  assert (Hv := entry_known next r Hn Hr). unfold has_status. rewrite Hact in Hrank.
  destruct (lr_Status r); simpl in *; try done; lia.
Qed.

(** A valid queue cut down to active entries is valid. *)
Lemma active_filter_ok (P : LiveRunV1 → Prop) `{!∀ r, Decision (P r)} queue :
  queue_ok queue → Forall (has_status LiveRunStatusActiveV1) (filter P (runs_of queue)) →
  queue_ok (set_runs (filter P (runs_of queue)) queue).
Proof.
  intros [Hrest _ He (A & R & W & Hq & Ho & Hw)] Hall.
  constructor; [done|by eexists|by eapply entries_ok_sublist; [apply sublist_filter|]|].
  exists (filter P (runs_of queue)), [], []. rewrite !app_nil_r. split; [done|]. split; [|done].
  assert (Ho' := ordered_filter P A R W Ho). rewrite Hq in Hall |- *.
  rewrite !filter_app in Hall |- *. apply Forall_app in Hall as [HfA [HfR HfW]%Forall_app].
  destruct Ho' as [_ HR' HW' _ Hx].
  assert (filter P W = []) as ->.
  { destruct HfW as [|w l Hw1]; [done|]. apply Forall_cons in HW' as [? _].
    unfold has_status in *. congruence. }
  constructor; rewrite ?app_nil_r; [by apply Forall_app|done|done|simpl; lia|done].
Qed.

Lemma retired_queue_ok retirement previous kept next :
  queue_ok previous → queue_ok next → sublist kept (runs_of previous) →
  promoted kept (runs_of next) →
  queue_ok (retired_queue retirement previous next)
  ∧ (retirement ≠ "" → Forall (has_status LiveRunStatusActiveV1)
       (runs_of (retired_queue retirement previous next))).
Proof.
  intros Hp Hn Hs Hpr. unfold retired_queue. case_bool_decide as Hr; [done|].
  assert (Forall (has_status LiveRunStatusActiveV1)
    (filter (λ run, active_before previous run = true) (runs_of next))) as Hall.
  { apply Forall_forall. intros r [Ha Hin]%list_elem_of_filter. by apply (active_stays previous kept next). }
  split; [|done]. by apply active_filter_ok.
Qed.

Lemma commit_removal_run previous kept next st :
  queue_ok previous → queue_ok next → sublist kept (runs_of previous) →
  promoted kept (runs_of next) →
  commitRemovalQueueLockedV1 previous next st =
  (set_queue (file_of (retired_queue (st_retirement st) previous next)) st,
   Ok (retired_queue (st_retirement st) previous next)).
Proof.
  intros Hp Hn Hs Hpr. unfold commitRemovalQueueLockedV1. rewrite SM_bind_read.
  destruct (retired_queue_ok (st_retirement st) previous kept next Hp Hn Hs Hpr) as [Hok _].
  cbv zeta.
  unfold retired_queue in Hok |- *. by rewrite (SM_bind_ok _ _ _ _ _ (commit_runs _ st Hok)).
Qed.

(** What a removal of [id] reports and leaves in the file. *)
Definition locked_removal (st : Store) (id : string) (kinds : list LiveRunKindV1) (st' : Store)
    (r : result (LiveRunQueueV1 * bool)) : Prop :=
  ∃ (queue' : LiveRunQueueV1) (found : bool),
  r = Ok (if found then retired_queue (st_retirement st) (current st) queue' else queue', found)
  ∧ removal (current st) id kinds queue' found
  ∧ st' = if found then set_queue (file_of (retired_queue (st_retirement st) (current st) queue')) st
          else st.

Lemma removal_sublist queue id kinds queue' :
  removal queue id kinds queue' true →
  sublist (filter (other id) (runs_of queue)) (runs_of queue)
  ∧ promoted (filter (other id) (runs_of queue)) (runs_of queue').
Proof. intros (_ & _ & _ & Hp & _). split; [apply sublist_filter|done]. Qed.

Lemma locked_remove_run st id :
  store_ok st → retirable st → ValidateLiveRunIDV1 id = Ok tt →
  locked_removal st id [LiveRunKindAppV1; LiveRunKindShellV1]
    (Locked.RemoveLiveRunV1 id st).1 (Locked.RemoveLiveRunV1 id st).2.
Proof.
  intros Hok Hr Hid. assert (Hq := current_ok st Hok). unfold Locked.RemoveLiveRunV1.
  rewrite (SM_bind_ok _ _ _ _ _ (retirable_run st Hr)).
  destruct (read_runs st Hok) as [found Hf]. rewrite (SM_bind_ok _ _ _ _ _ Hf). cbn [fst].
  rewrite SM_bind_check. unfold RemoveLiveRunV1.
  rewrite (proj2 (valid_queue_iff _) Hq), Hid, !bind_Ok.
  destruct (removeLiveQueueEntryV1 _ _ _) as [q' f] eqn:He.
  apply removeLiveQueueEntryV1_ok in He; [|done]. exists q', f. cbn [snd].
  destruct f; cbn [negb]; [|done].
  destruct (removal_sublist _ _ _ _ He) as [Hs Hp].
  rewrite (SM_bind_ok _ _ _ _ _ (commit_removal_run _ _ _ st Hq (proj1 He) Hs Hp)). done.
Qed.

Lemma locked_remove_control_run st id :
  store_ok st → retirable st → ValidateControlMarkerIDV1 id = Ok tt →
  locked_removal st id [LiveRunKindControlV1]
    (Locked.RemoveControlMarkerV1 id st).1 (Locked.RemoveControlMarkerV1 id st).2.
Proof.
  intros Hok Hr Hid. assert (Hq := current_ok st Hok). unfold Locked.RemoveControlMarkerV1.
  rewrite (SM_bind_ok _ _ _ _ _ (retirable_run st Hr)).
  destruct (read_runs st Hok) as [found Hf]. rewrite (SM_bind_ok _ _ _ _ _ Hf). cbn [fst].
  rewrite SM_bind_check. unfold RemoveControlMarkerV1.
  rewrite (proj2 (valid_queue_iff _) Hq), Hid, !bind_Ok.
  destruct (removeLiveQueueEntryV1 _ _ _) as [q' f] eqn:He.
  apply removeLiveQueueEntryV1_ok in He; [|done]. exists q', f. cbn [snd].
  destruct f; cbn [negb]; [|done].
  destruct (removal_sublist _ _ _ _ He) as [Hs Hp].
  rewrite (SM_bind_ok _ _ _ _ _ (commit_removal_run _ _ _ st Hq (proj1 He) Hs Hp)). done.
Qed.

(** ** The cleanup inventory *)

Definition by_container (a b : LiveRunContainerCleanupV1) : Prop :=
  string_lt (cc_Container a) (cc_Container b).
Definition not_after (a b : LiveRunContainerCleanupV1) : Prop :=
  ¬ string_lt (cc_Container b) (cc_Container a).

(** The documented behaviour of [sort.Slice]: the elements, in an order that [less]
    never inverts; nothing about elements that compare equal. *)
Definition sorts (sort_cleanup : list LiveRunContainerCleanupV1 → list LiveRunContainerCleanupV1) : Prop :=
  ∀ l, sort_cleanup l ≡ₚ l ∧ Sorted not_after (sort_cleanup l).

Lemma not_after_le a b :
  not_after a b ↔ cc_Container a = cc_Container b ∨ string_lt (cc_Container a) (cc_Container b).
Proof.
  unfold not_after. destruct (string_lt_total (cc_Container a) (cc_Container b)) as [H|[H|H]].
  - split; [by right|]. intros _ H'. apply (StrictOrder_Irreflexive (cc_Container a)). by etrans.
  - rewrite H. split; [by left|]. intros _ H'. by apply (StrictOrder_Irreflexive (cc_Container b)).
  - split; [done|]. intros [He|H'] _.
    + rewrite He in H. by apply (StrictOrder_Irreflexive (cc_Container b)).
    + apply (StrictOrder_Irreflexive (cc_Container a)). by etrans.
Qed.
#[export] Instance not_after_transitive : Transitive not_after.
Proof.
  intros a b c. rewrite !not_after_le. intros [->|H1] [H2|H2]; [by left|by right|..].
  - rewrite <-H2. by right.
  - right. by etrans.
Qed.
#[export] Instance by_container_transitive : Transitive by_container.
Proof. unfold by_container. intros a b c ??. by etrans. Qed.

Definition cleanup_ok (l : list LiveRunContainerCleanupV1) : Prop :=
  Forall (λ c, validateLiveRunContainerCleanupV1 c = Ok tt) l ∧ Sorted by_container l.

Lemma cleanup_ok_iff l : check_each check_cleanup None l = Ok tt ↔ cleanup_ok l.
Proof.
  unfold cleanup_ok. rewrite (check_each_spec _
    (λ c, validateLiveRunContainerCleanupV1 c = Ok tt) by_container).
  - split; [by intros (? & ? & _)|]. by intros [??].
  - intros previous c. unfold check_cleanup. destruct (validateLiveRunContainerCleanupV1 c) as [[]|];
      simpl; [|by split; [|intros []]]. unfold by_container.
    destruct previous as [p|]; simpl; [|by split].
    rewrite reject_if_ok, string_geb_lt. split; [intros ?; split; [done|by intros ? [= <-]]|].
    intros [_ H]. by apply H.
Qed.

Definition containers (l : list LiveRunContainerCleanupV1) : list string := map cc_Container l.

Lemma dedup_after_spec last l :
  StronglySorted not_after l → Forall (λ c, ¬ string_lt (cc_Container c) last) l →
  sublist (dedup_after last l) l ∧ StronglySorted by_container (dedup_after last l)
  ∧ Forall (λ c, string_lt last (cc_Container c)) (dedup_after last l)
  ∧ ∀ x, x ∈ containers l → x = last ∨ x ∈ containers (dedup_after last l).
Proof.
  intros Hs. revert last. induction Hs as [|c l Hs IH Hc]; intros last Hl; simpl.
  { split; [done|]. split; [constructor|]. split; [done|]. by intros x ?%elem_of_nil. }
  apply Forall_cons in Hl as [Hcl Hl]. case_bool_decide as He.
  - destruct (IH last Hl) as (H1 & H2 & H3 & H4). split_and!; [by constructor|done|done|].
    intros x [->|Hx]%elem_of_cons; [by left|by apply H4].
  - assert (string_lt last (cc_Container c)) as Hlt.
    { destruct (string_lt_total last (cc_Container c)) as [|[|]]; congruence || done. }
    destruct (IH (cc_Container c)) as (H1 & H2 & H3 & H4).
    { eapply Forall_impl; [exact Hc|]. done. }
    split_and!.
    + by constructor.
    + by constructor.
    + constructor; [done|]. eapply Forall_impl; [exact H3|]. simpl. intros y Hy. by etrans.
    + intros x [->|Hx]%elem_of_cons; [by right; left|].
      destruct (H4 x Hx) as [->|]; [by right; left|by right; right].
Qed.

Lemma deduplicate_spec l :
  Sorted not_after l →
  sublist (Locked.deduplicateLiveRunCleanupV1 l) l
  ∧ Sorted by_container (Locked.deduplicateLiveRunCleanupV1 l)
  ∧ ∀ x, x ∈ containers l ↔ x ∈ containers (Locked.deduplicateLiveRunCleanupV1 l).
Proof.
  intros Hs. apply Sorted_StronglySorted in Hs; [|apply _].
  destruct Hs as [|c l Hs Hc]; simpl; [done|].
  destruct (dedup_after_spec (cc_Container c) l Hs) as (H1 & H2 & H3 & H4); [done|].
  split_and!; [by constructor|apply StronglySorted_Sorted; by constructor|].
  intros x. rewrite !elem_of_cons. split.
  - intros [->|Hx]; [by left|]. by apply H4.
  - intros [->|Hx]; [by left|]. right. unfold containers in *.
    eapply elem_of_sublist; [done|]. by apply sublist_map.
Qed.

(** Sorting and deduplicating valid entries makes a valid inventory of the same
    containers. *)
Lemma set_cleanup_ok sort_cleanup l :
  sorts sort_cleanup → Forall (λ c, validateLiveRunContainerCleanupV1 c = Ok tt) l →
  cleanup_ok (Locked.deduplicateLiveRunCleanupV1 (sort_cleanup l))
  ∧ ∀ x, x ∈ containers l ↔ x ∈ containers (Locked.deduplicateLiveRunCleanupV1 (sort_cleanup l)).
Proof.
  intros Hsort Hv. destruct (Hsort l) as [Hp Hs].
  destruct (deduplicate_spec _ Hs) as (H1 & H2 & H3). split.
  - split; [|done]. eapply Forall_sublist; [done|]. by rewrite Hp.
  - intros x. rewrite <-H3. unfold containers. by rewrite Hp.
Qed.

(** ** Recovery *)

(** Why recovery in [session] removes an entry, given the leases. *)
Definition entry_reason (session : string) (leases : gmap string LeaseState) (entry : LiveRunV1)
    : option LiveRunRecoveryReasonV1 :=
  if bool_decide (lr_BootSession entry = "") then Some LiveRunRecoveryLegacyEntryV1
  else if bool_decide (lr_BootSession entry = session) then
    if bool_decide (leases !! lr_ID entry = Some LeaseHeld) then None
    else Some LiveRunRecoveryAbandonedOwnerV1
  else Some LiveRunRecoveryPriorSessionV1.
Definition recovered (session : string) (leases : gmap string LeaseState) (entries : list LiveRunV1)
    : list RecoveredLiveRunV1 :=
  omap (λ e, Recovered e <$> entry_reason session leases e) entries.
Definition stays (session : string) (terminal : bool) (leases : gmap string LeaseState)
    (entry : LiveRunV1) : bool :=
  bool_decide (entry_reason session leases entry = None) && (negb terminal || is_active entry).
Definition cleanups (removed : list RecoveredLiveRunV1) : list LiveRunContainerCleanupV1 :=
  flat_map (λ r, Locked.cleanup_of (rec_Run r) (rec_Reason r)) removed.
(** The leases after the files of [gone] were removed. *)
Definition without (gone : list string) (leases leases' : gmap string LeaseState) : Prop :=
  ∀ id, leases' !! id = if decide (id ∈ gone) then None else leases !! id.

Lemma entry_reason_ext session leases leases' e :
  leases !! lr_ID e = leases' !! lr_ID e → entry_reason session leases e = entry_reason session leases' e.
Proof. unfold entry_reason. by intros ->. Qed.

Lemma without_nil leases : without [] leases leases.
Proof. intros id. by rewrite decide_False by apply not_elem_of_nil. Qed.
Lemma without_delete id leases : without [id] leases (delete id leases).
Proof.
  intros x. destruct (decide (id = x)) as [->|Hn].
  - rewrite lookup_delete_eq, decide_True; [done|by left].
  - rewrite lookup_delete_ne by done. rewrite decide_False; [done|]. by intros ->%list_elem_of_singleton.
Qed.
Lemma without_app g1 g2 l1 l2 l3 : without g1 l1 l2 → without g2 l2 l3 → without (g1 ++ g2) l1 l3.
Proof.
  intros H1 H2 id. rewrite H2, H1. repeat case_decide; try done; rewrite elem_of_app in *; tauto.
Qed.

Lemma set_leases_same st : set_leases (st_leases st) st = st.
Proof. by destruct st. Qed.

Definition held (leases : gmap string LeaseState) (id : string) : bool :=
  bool_decide (leases !! id = Some LeaseHeld).
Lemma abandoned_run id st :
  ∃ leases1, queueEntryLeaseAbandonedV1 id st = (set_leases leases1 st, Ok (negb (held (st_leases st) id)))
  ∧ (leases1 = st_leases st ∨ leases1 = delete id (st_leases st) ∧ st_leases st !! id ≠ Some LeaseHeld)
  ∧ (held (st_leases st) id = false → without [id] (st_leases st) leases1).
Proof.
  unfold queueEntryLeaseAbandonedV1, held. rewrite SM_bind_read.
  destruct (st_leases st !! id) as [[]|] eqn:Hl.
  - exists (st_leases st). rewrite set_leases_same, bool_decide_true by done. by split_and!; [|left|].
  - exists (delete id (st_leases st)). rewrite bool_decide_false by done.
    split; [done|]. split; [by right|]. intros _. apply without_delete.
  - exists (st_leases st). rewrite set_leases_same, bool_decide_false by done.
    split; [done|]. split; [by left|]. intros _ x. case_decide as Hx; [|done].
    by apply list_elem_of_singleton in Hx as ->.
Qed.

(** Examining one entry, and the removal of its lease. *)
Lemma examine_entry session entry st :
  ∃ leases1, Locked.recovery_reason session entry st
             = (set_leases leases1 st, Ok (entry_reason session (st_leases st) entry))
  ∧ match entry_reason session (st_leases st) entry with
    | None => leases1 = st_leases st
    | Some LiveRunRecoveryAbandonedOwnerV1 => without [lr_ID entry] (st_leases st) leases1
    | Some _ => leases1 = st_leases st
    end.
Proof.
  unfold Locked.recovery_reason, entry_reason.
  case_bool_decide as H1; [exists (st_leases st); by rewrite set_leases_same|].
  case_bool_decide as H2; simpl; [|exists (st_leases st); by rewrite set_leases_same].
  destruct (abandoned_run (lr_ID entry) st) as (l1 & Hr & Hl & Hw).
  rewrite (SM_bind_ok _ _ _ _ _ Hr). exists l1. unfold held in *.
  case_bool_decide as Hh; [|split; [done|by apply Hw]]. split; [done|]. by destruct Hl as [|[_ ?]].
Qed.

Lemma recover_entries_spec session terminal entries st :
  NoDup (ids entries) → ∃ leases',
  Locked.recover_entries session terminal entries st =
    (set_leases leases' st,
     Ok (filter (λ e, stays session terminal (st_leases st) e = true) entries,
         recovered session (st_leases st) entries,
         cleanups (recovered session (st_leases st) entries)))
  ∧ without (ids (map rec_Run (recovered session (st_leases st) entries))) (st_leases st) leases'.
Proof.
  revert st. induction entries as [|e rest IH]; intros st.
  { intros _. exists (st_leases st). split; [by destruct st|apply without_nil]. }
  simpl. intros [He Hd]%NoDup_cons.
  destruct (examine_entry session e st) as (l1 & Hr & Hl1). rewrite (SM_bind_ok _ _ _ _ _ Hr).
  assert (∀ gone l2, gone = [lr_ID e] ∨ gone = [] → without gone (st_leases st) l2 → Forall (λ x,
    entry_reason session (st_leases st) x = entry_reason session l2 x) rest) as Hext.
  { intros gone l2 Hg Hw. apply Forall_forall. intros x Hx. apply entry_reason_ext.
    rewrite Hw, decide_False; [done|]. destruct Hg as [->| ->]; [|by intros ?%elem_of_nil].
    intros Hi%list_elem_of_singleton. apply He. rewrite <-Hi. by apply list_elem_of_fmap_2. }
  assert (∀ l2, Forall (λ x, entry_reason session (st_leases st) x = entry_reason session l2 x) rest →
    recovered session l2 rest = recovered session (st_leases st) rest
    ∧ filter (λ x, stays session terminal l2 x = true) rest
      = filter (λ x, stays session terminal (st_leases st) x = true) rest) as Hsame.
  { intros l2 Hf. split.
    - apply omap_ext_in. eapply Forall_impl; [exact Hf|]. simpl. by intros x ->.
    - apply filter_ext_in. eapply Forall_impl; [exact Hf|]. simpl. unfold stays. by intros x ->. }
  assert (∀ gone l2, gone = [lr_ID e] ∨ gone = [] → without gone (st_leases st) l2 → ∃ l3,
    Locked.recover_entries session terminal rest (set_leases l2 st) =
    (set_leases l3 st, Ok (filter (λ x, stays session terminal (st_leases st) x = true) rest,
         recovered session (st_leases st) rest, cleanups (recovered session (st_leases st) rest)))
    ∧ without (gone ++ ids (map rec_Run (recovered session (st_leases st) rest))) (st_leases st) l3) as Hrec.
  { intros gone l2 Hg Hw. destruct (IH (set_leases l2 st) Hd) as (l3 & Hi & Hw3). simpl in Hi, Hw3.
    destruct (Hsame l2 (Hext gone l2 Hg Hw)) as [H1 H2]. rewrite H1, H2 in Hi. rewrite H1 in Hw3.
    exists l3. split; [done|]. by eapply without_app. }
  assert (set_leases (delete (lr_ID e) l1) st = set_leases (delete (lr_ID e) l1) (set_leases l1 st)) as Hdel by done.
  destruct (entry_reason session (st_leases st) e) as [reason|] eqn:Hreason.
  - assert (∃ l2, (if bool_decide (reason = LiveRunRecoveryAbandonedOwnerV1) then mret tt
       else removeQueueEntryLeasePathV1 (lr_ID e)) (set_leases l1 st) = (set_leases l2 st, Ok tt)
       ∧ without [lr_ID e] (st_leases st) l2) as (l2 & Hrm & Hw2).
    { case_bool_decide as Ha; [subst; by exists l1|]. exists (delete (lr_ID e) l1). split; [done|].
      replace l1 with (st_leases st) by (by destruct reason). apply without_delete. }
    rewrite (SM_bind_ok _ _ _ _ _ Hrm).
    destruct (Hrec [lr_ID e] l2 (or_introl eq_refl) Hw2) as (l3 & Hi & Hw3).
    rewrite (SM_bind_ok _ _ _ _ _ Hi). exists l3.
    rewrite filter_cons_False by (unfold stays; rewrite Hreason; simpl; done).
    done.
  - subst l1. destruct (Hrec [] (st_leases st) (or_intror eq_refl) (without_nil _)) as (l3 & Hi & Hw3).
    rewrite (SM_bind_ok _ _ _ _ _ Hi). exists l3. simpl.
    split; [|done]. f_equal. f_equal. f_equal. f_equal. destruct (negb terminal || is_active e) eqn:Ht.
    + rewrite filter_cons_True; [done|]. unfold stays. by rewrite Hreason, Ht.
    + rewrite filter_cons_False; [done|]. unfold stays. by rewrite Hreason, Ht.
Qed.

(** The owner of a recorded session is gone: its run is not retained, and its lease, when
    it is of this boot session, is not held. *)
Definition owner_gone (session : string) (retained : list string) (leases : gmap string LeaseState)
    (o : ControlledSessionOwnershipV1) : bool :=
  negb (bool_decide (so_LiveRunID o ∈ retained))
  && (negb (bool_decide (so_BootSession o = session)) || negb (held leases (so_LiveRunID o))).

Lemma recover_sessions_spec session retained sessions st :
  ∃ leases',
  Locked.recover_sessions session retained sessions st =
    (set_leases leases' st,
     Ok (filter (λ o, owner_gone session retained (st_leases st) o = true) sessions))
  ∧ (∀ id, held leases' id = held (st_leases st) id).
Proof.
  revert st. induction sessions as [|o rest IH]; intros st; simpl.
  { exists (st_leases st). by rewrite set_leases_same. }
  assert (∀ l1, (∀ id, held l1 id = held (st_leases st) id) → ∃ l2,
    Locked.recover_sessions session retained rest (set_leases l1 st) =
    (set_leases l2 st, Ok (filter (λ o, owner_gone session retained (st_leases st) o = true) rest))
    ∧ (∀ id, held l2 id = held (st_leases st) id)) as Hrec.
  { intros l1 H1. destruct (IH (set_leases l1 st)) as (l2 & Hi & H2). exists l2. split.
    - rewrite Hi. simpl. f_equal. f_equal. apply filter_ext_in, Forall_forall. intros x _.
      unfold owner_gone. by rewrite H1.
    - intros id. by rewrite H2. }
  destruct (Hrec (st_leases st) (λ _, eq_refl)) as (l0 & Hi0 & H0). rewrite set_leases_same in Hi0.
  case_bool_decide as Hin.
  { exists l0. rewrite filter_cons_False; [done|]. unfold owner_gone. by rewrite bool_decide_true. }
  case_bool_decide as Hb.
  - destruct (abandoned_run (so_LiveRunID o) st) as (l1 & Hr & Hl & _).
    rewrite (SM_bind_ok _ _ _ _ _ Hr). destruct (Hrec l1) as (l2 & Hi & H2).
    { intros id. destruct Hl as [-> |[-> Hn]]; [done|]. unfold held.
      destruct (decide (so_LiveRunID o = id)) as [<-|Hne]; [|by rewrite lookup_delete_ne].
      by rewrite lookup_delete_eq, (bool_decide_false _ Hn). }
    rewrite (SM_bind_ok _ _ _ _ _ Hi). exists l2. split; [|done].
    unfold mret, SM_ret. f_equal. f_equal. destruct (held (st_leases st) (so_LiveRunID o)) eqn:Hh; simpl.
    + rewrite filter_cons_False; [done|]. unfold owner_gone. rewrite Hh, (bool_decide_true _ Hb).
      by rewrite andb_false_r.
    + rewrite filter_cons_True; [done|]. unfold owner_gone. by rewrite Hh, (bool_decide_false _ Hin), orb_true_r.
  - rewrite (SM_bind_ok _ _ _ _ _ Hi0). exists l0. split; [|done].
    rewrite filter_cons_True; [done|]. unfold owner_gone.
    by rewrite (bool_decide_false _ Hin), (bool_decide_false _ Hb).
Qed.

Lemma orphans_held retained st id :
  held (st_leases (removeOrphanedQueueEntryLeasesV1 retained st).1) id = held (st_leases st) id.
Proof.
  unfold removeOrphanedQueueEntryLeasesV1, update, held. simpl. apply bool_decide_ext.
  rewrite map_lookup_filter_Some. split; [by intros [? _]|]. intros H. split; [done|]. by right; right.
Qed.

Lemma cleanup_valid e reason :
  validateLiveQueueEntryV1 e = Ok tt →
  match reason with LiveRunRecoveryRawV1 _ => False | _ => True end →
  Forall (λ c, validateLiveRunContainerCleanupV1 c = Ok tt) (Locked.cleanup_of e reason).
Proof.
  intros He Hr. unfold Locked.cleanup_of. case_bool_decide as Hc; [done|].
  apply Forall_cons. split; [|done]. unfold validateLiveQueueEntryV1 in He.
  destruct (negb _) eqn:Hk.
  - unfold validateLiveRunV1 in He. go_ok.
    unfold validateLiveRunContainerCleanupV1. simpl.
    repeat match goal with H : ValidateLiveRunIDV1 _ = Ok _ |- _ => rewrite H end. simpl.
    rewrite (bool_decide_false _ Hc) in *. simpl in *.
    repeat match goal with H : negb _ = false |- _ => rewrite H
      | H : negb _ && negb _ = false |- _ => rewrite H end.
    by destruct reason.
  - go_ok. rewrite (bool_decide_false _ Hc) in *. go_bool. naive_solver.
Qed.

Lemma current_file_of queue st :
  queue_ok queue →
  let now := current (set_queue (file_of queue) st) in
  runs_of now = runs_of queue ∧ q_ControlledSessions now = q_ControlledSessions queue
  ∧ q_Cleanup now = q_Cleanup queue.
Proof.
  intros _. unfold current, file_of. simpl. destruct (empty_queue queue) eqn:He; [|done]. simpl.
  unfold empty_queue in He. go_bool. destruct He as [[-> ->] ->]. done.
Qed.

Definition gone_ids (session : string) (st : Store) : list string :=
  ids (map rec_Run (recovered session (st_leases st) (runs_of (current st)))).
Definition staying (session : string) (terminal : bool) (st : Store) : list LiveRunV1 :=
  filter (λ e, stays session terminal (st_leases st) e = true) (runs_of (current st)).

(** What recovery in boot session [session] does to a store. *)
Record recovers (session : string) (terminal : bool) (st st' : Store) (rec : LiveRunRecoveryV1)
    : Prop := {
  rcv_ok : store_ok st';
  rcv_rest : ∃ file leases, st' = set_queue file (set_leases leases st);
  rcv_removed : rc_Removed rec = recovered session (st_leases st) (runs_of (current st));
  rcv_runs : promoted (staying session terminal st) (runs_of (current st'))
    ∧ (terminal = true → runs_of (current st') = staying session terminal st);
  rcv_kept : q_ControlledSessions (current st') = q_ControlledSessions (current st);
  rcv_containers : ∀ x, x ∈ containers (q_Cleanup (current st')) ↔
    x ∈ containers (q_Cleanup (current st)) ∨ x ∈ containers (cleanups (rc_Removed rec));
  rcv_same : rc_Removed rec = [] → staying session terminal st = runs_of (current st) →
    st_queue st' = st_queue st;
  rcv_sessions : rc_ControlledSessions rec =
    filter (λ o, negb (bool_decide (so_LiveRunID o ∈ ids (runs_of (current st'))))
      && (negb (bool_decide (so_BootSession o = session)) || negb (held (st_leases st) (so_LiveRunID o))
          || bool_decide (so_LiveRunID o ∈ gone_ids session st)) = true) (q_ControlledSessions (current st));
  rcv_leases : ∀ id, held (st_leases st') id =
    held (st_leases st) id && negb (bool_decide (id ∈ gone_ids session st))
}.

Lemma recovered_no_raw session leases runs r :
  r ∈ recovered session leases runs →
  rec_Run r ∈ runs ∧ entry_reason session leases (rec_Run r) = Some (rec_Reason r)
  ∧ match rec_Reason r with LiveRunRecoveryRawV1 _ => False | _ => True end.
Proof.
  unfold recovered. rewrite list_elem_of_omap. intros (e & He & Hr).
  destruct (entry_reason session leases e) as [reason|] eqn:Hre; [|done]. injection Hr as <-. simpl.
  split_and!; [done|done|]. unfold entry_reason in Hre. by repeat case_bool_decide; simplify_eq.
Qed.

Lemma cleanups_valid session leases queue :
  queue_ok queue → Forall (λ c, validateLiveRunContainerCleanupV1 c = Ok tt)
    (cleanups (recovered session leases (runs_of queue))).
Proof.
  intros Hq. unfold cleanups. apply Forall_forall. intros c Hc. apply list_elem_of_In, in_flat_map in Hc.
  destruct Hc as (r & Hr%list_elem_of_In & Hc%list_elem_of_In).
  destruct (recovered_no_raw _ _ _ _ Hr) as (Hin & _ & Hraw).
  destruct (ok_entries _ Hq) as [Hv _]. rewrite Forall_forall in Hv.
  assert (Hf := cleanup_valid _ _ (Hv _ Hin) Hraw). rewrite Forall_forall in Hf. by apply Hf.
Qed.

(** The queue that recovery keeps, before its cleanup inventory. *)
Lemma kept_queue_ok session terminal st :
  store_ok st →
  let kept := set_runs (staying session terminal st) (cloneLiveRunQueueV1 (current st)) in
  let kept := if terminal then kept else promoteLiveRunsV1 kept in
  queue_ok kept ∧ promoted (staying session terminal st) (runs_of kept)
  ∧ (terminal = true → runs_of kept = staying session terminal st).
Proof.
  intros Hok. assert (Hq := current_ok st Hok). destruct terminal; cbv zeta.
  - rewrite (clone_ok _ Hq). split; [|split; [constructor|done]]. apply active_filter_ok; [done|].
    apply Forall_forall. intros r [Hr _]%list_elem_of_filter. unfold stays, is_active in Hr. simpl in Hr.
    go_bool. by destruct Hr.
  - destruct (filter_queue_ok (λ e, stays session false (st_leases st) e = true) (current st) Hq).
    split_and!; [done|done|discriminate].
Qed.

Lemma set_cleanup_queue_ok sort_cleanup queue new :
  sorts sort_cleanup → queue_ok queue →
  Forall (λ c, validateLiveRunContainerCleanupV1 c = Ok tt) new →
  let result := Locked.set_cleanup sort_cleanup (q_Cleanup queue ++ new) queue in
  queue_ok result
  ∧ ∀ x, x ∈ containers (q_Cleanup result) ↔ x ∈ containers (q_Cleanup queue) ∨ x ∈ containers new.
Proof.
  intros Hs [[Hschema [Hsess Hclean]] Hruns He Hshape] Hnew.
  assert (Hc := Hclean). apply cleanup_ok_iff in Hc as [Hv _].
  destruct (set_cleanup_ok sort_cleanup (q_Cleanup queue ++ new) Hs) as [Hok Hx]; [by apply Forall_app|].
  split.
  - constructor; [|done|done|done]. split; [done|]. split; [done|]. by apply cleanup_ok_iff.
  - intros x. simpl. rewrite <-Hx. unfold containers. by rewrite map_app, elem_of_app.
Qed.

(** What recovery makes of the queue file. *)
Record recovered_file (session : string) (terminal : bool) (st st1 : Store) : Prop := {
  rf_ok : store_ok st1;
  rf_runs : promoted (staying session terminal st) (runs_of (current st1))
    ∧ (terminal = true → runs_of (current st1) = staying session terminal st);
  rf_sessions : q_ControlledSessions (current st1) = q_ControlledSessions (current st);
  rf_containers : ∀ x, x ∈ containers (q_Cleanup (current st1)) ↔
    x ∈ containers (q_Cleanup (current st))
    ∨ x ∈ containers (cleanups (recovered session (st_leases st) (runs_of (current st))));
  rf_same : recovered session (st_leases st) (runs_of (current st)) = [] →
    staying session terminal st = runs_of (current st) → st_queue st1 = st_queue st
}.

(** The file is written only when an entry was removed. *)
Lemma commit_recovered session terminal st leases result :
  store_ok st → queue_ok result →
  promoted (staying session terminal st) (runs_of result) →
  (terminal = true → runs_of result = staying session terminal st) →
  q_ControlledSessions result = q_ControlledSessions (current st) →
  (∀ x, x ∈ containers (q_Cleanup result) ↔ x ∈ containers (q_Cleanup (current st))
    ∨ x ∈ containers (cleanups (recovered session (st_leases st) (runs_of (current st))))) →
  ∃ st1,
  (if negb (bool_decide (recovered session (st_leases st) (runs_of (current st)) = []))
      || negb (bool_decide (length (runs_of result) = length (runs_of (current st))))
   then commitLiveRunQueuePathV1 result else mret tt) (set_leases leases st) = (st1, Ok tt)
  ∧ (∃ file, st1 = set_queue file (set_leases leases st)) ∧ recovered_file session terminal st st1
  ∧ ids (runs_of (current st1)) = ids (runs_of result).
Proof.
  intros Hok Hrq Hp Ht Hs Hc. assert (Hids := promoted_ids _ _ Hp).
  assert (length (runs_of result) = length (staying session terminal st)) as Hlen.
  { unfold ids in Hids. by rewrite <-(length_map lr_ID), Hids, length_map. }
  destruct (negb _ || negb _) eqn:Hn.
  - rewrite (commit_runs result _ Hrq). eexists. split; [done|]. split; [by eexists|].
    destruct (current_file_of result (set_leases leases st) Hrq) as (H1 & H2 & H3).
    split; [|by rewrite H1]. constructor; rewrite ?H1, ?H2, ?H3; [|done..|].
    + unfold store_ok, file_of. simpl. by destruct (empty_queue result) eqn:He.
    + intros Hr Hst. rewrite Hr in Hn. go_bool. destruct Hn as [|Hn]; [done|].
      by rewrite Hlen, Hst in Hn.
  - go_bool. destruct Hn as [Hr Hl]. exists (set_leases leases st). split; [done|]. split; [by exists (st_queue st); destruct st|].
    assert (staying session terminal st = runs_of (current st)) as Hst.
    { apply sublist_full; [apply sublist_filter|]. by rewrite <-Hlen, Hl. }
    rewrite Hst in Hids. split; [|by rewrite Hids]. constructor; [done| |done| |done].
    + rewrite Hst. split; [constructor|done].
    + intros x. rewrite Hr. simpl. split; [by left|]. by intros [|?%elem_of_nil].
Qed.

Lemma recover_run sort_cleanup session terminal st :
  sorts sort_cleanup → store_ok st → validateBootSessionIDV1 session = Ok tt →
  ∃ st' rec, Locked.recoverLiveRunQueuePathV1 sort_cleanup session terminal st = (st', Ok rec)
  ∧ recovers session terminal st st' rec.
Proof.
  intros Hsort Hok Hsession. assert (Hq := current_ok st Hok).
  unfold Locked.recoverLiveRunQueuePathV1. rewrite SM_bind_check, Hsession.
  destruct (read_runs st Hok) as [found Hf]. rewrite (SM_bind_ok _ _ _ _ _ Hf). cbn [fst]. clear found Hf.
  destruct (recover_entries_spec session terminal (runs_of (current st)) st (proj2 (ok_entries _ Hq)))
    as (l1 & Hrec & Hl1).
  rewrite (SM_bind_ok _ _ _ _ _ Hrec). cbv beta iota zeta. fold (staying session terminal st).
  destruct (kept_queue_ok session terminal st Hok) as (Hkq & Hkp & Hkt).
  set (kept := if terminal then _ else _) in *.
  assert (Hv := cleanups_valid session (st_leases st) (current st) Hq).
  destruct (set_cleanup_queue_ok sort_cleanup kept _ Hsort Hkq Hv) as [Hrq Hrx].
  set (result := Locked.set_cleanup sort_cleanup _ kept) in *.
  assert (q_Cleanup kept = q_Cleanup (current st)) as Hclean by (unfold kept; by destruct terminal).
  rewrite Hclean in Hrx. rewrite SM_bind_check, (proj2 (valid_queue_iff result) Hrq). cbn [wrap].
  destruct (commit_recovered session terminal st l1 result Hok Hrq Hkp Hkt) as (st1 & Hc & [file Hst1] & Hfile & Hids);
    [unfold result, kept; by destruct terminal|done|]. assert (st_leases st1 = l1) as Hl by (by rewrite Hst1).
  rewrite (SM_bind_ok _ _ _ _ _ Hc).
  fold (ids (runs_of result)). rewrite <-Hids. destruct Hfile as [F1 F2 F3 F4 F5].
  destruct (recover_sessions_spec session (ids (runs_of (current st1))) (q_ControlledSessions result) st1)
    as (l2 & Hs & Hl2). rewrite (SM_bind_ok _ _ _ _ _ Hs).
  assert (∀ id, held l1 id = held (st_leases st) id && negb (bool_decide (id ∈ gone_ids session st))) as Hheld.
  { intros id. unfold held. rewrite Hl1. fold (gone_ids session st).
    destruct (decide (id ∈ gone_ids session st)) as [Hd|Hd].
    - by rewrite (bool_decide_true _ Hd), andb_false_r.
    - by rewrite (bool_decide_false _ Hd), andb_true_r. }
  eexists _, _. split; [reflexivity|]. constructor; simpl; try done.
  - exists file. eexists. rewrite Hst1. reflexivity.
  - unfold owner_gone. rewrite Hl.
    change (current (set_leases _ (set_leases _ st1))) with (current st1).
    replace (q_ControlledSessions kept) with (q_ControlledSessions (current st))
      by (unfold kept; by destruct terminal).
    apply filter_ext_in, Forall_forall. intros o _. rewrite Hheld.
    destruct (held _ _), (bool_decide (_ ∈ gone_ids _ _)), (bool_decide (_ ∈ ids _)),
      (bool_decide (_ = session)); simpl; done.
  - intros id. rewrite <-Hheld, <-Hl, <-Hl2. apply (orphans_held _ (set_leases l2 st1)).
Qed.
