(* ===== verification/LiveRunSessions.v ===== *)
(** * Recorded session ownership

    The identities of a controlled session's resources are merged one by one into its
    recorded plan: binary search finds the entry, a merge only adds identities, and the
    inventory stays sorted. *)

From S2P Require Import Prelude GoText Identifiers LiveRunQueue LiveRunQueueFacts LiveRunStore.
From S2P Require Import LiveRunStoreFacts.

Open Scope Z_scope.

(** ** Binary search *)

Section search.
Context (n : nat) (f : nat → bool).
Hypothesis f_monotone : ∀ a b, (a ≤ b < n)%nat → f a = true → f b = true.

Definition partition_point (p : nat) : Prop :=
  (p ≤ n)%nat ∧ (∀ k, (k < p)%nat → f k = false) ∧ (∀ k, (p ≤ k < n)%nat → f k = true).

Lemma search_loop_spec fuel i j :
  (i ≤ j ≤ n)%nat → (j - i ≤ fuel)%nat →
  (∀ k, (k < i)%nat → f k = false) → (∀ k, (j ≤ k < n)%nat → f k = true) →
  partition_point (search_loop fuel i j f).
Proof using f_monotone.
  revert i j. induction fuel as [|fuel IH]; intros i j Hij Hfuel Hlow Hhigh; simpl.
  { assert (i = j) as -> by lia. by split_and!; [lia|..]. }
  destruct (Nat.ltb_spec i j); [|assert (i = j) as -> by lia; by split_and!; [lia|..]].
  assert (i ≤ Nat.div2 (i + j) < j)%nat as Hh by
    (rewrite Nat.div2_div; assert (Hd := Nat.div_mod (i + j) 2);
     assert (Hm := Nat.mod_upper_bound (i + j) 2); lia).
  destruct (f (Nat.div2 (i + j))) eqn:Hf.
  - apply IH; [lia|lia|done|]. intros k Hk. destruct (decide (j ≤ k)%nat); [apply Hhigh; lia|].
    apply (f_monotone (Nat.div2 (i + j))); [lia|done].
  - apply IH; [lia|lia| |done]. intros k Hk. destruct (f k) eqn:Hfk; [|done].
    rewrite <-Hf. symmetry. apply (f_monotone k); [lia|done].
Qed.

Lemma sort_search_spec : partition_point (sort_search n f).
Proof using f_monotone. apply search_loop_spec; [lia|lia|intros; lia|intros; lia]. Qed.
End search.

(** ** The sorted inventory of sessions *)

Definition by_run (a b : ControlledSessionOwnershipV1) : Prop :=
  string_lt (so_LiveRunID a) (so_LiveRunID b).
#[export] Instance by_run_transitive : Transitive by_run.
Proof. unfold by_run. intros a b c ??. by etrans. Qed.

Definition sessions_ok (l : list ControlledSessionOwnershipV1) : Prop :=
  Forall (λ o, validateControlledSessionOwnershipV1 o = Ok tt) l ∧ StronglySorted by_run l.

Lemma sessions_ok_iff l : check_each check_session None l = Ok tt ↔ sessions_ok l.
Proof.
  unfold sessions_ok. rewrite (check_each_spec _
    (λ o, validateControlledSessionOwnershipV1 o = Ok tt) by_run).
  - split.
    + intros (? & ? & _). split; [done|]. by apply Sorted_StronglySorted; [apply _|].
    + intros [? ?%StronglySorted_Sorted]. done.
  - intros previous o. unfold check_session.
    destruct (validateControlledSessionOwnershipV1 o) as [[]|]; simpl; [|by split; [|intros []]].
    unfold by_run. destruct previous as [p|]; simpl; [|by split].
    rewrite reject_if_ok, string_geb_lt. split; [intros ?; split; [done|by intros ? [= <-]]|].
    intros [_ H]. by apply H.
Qed.

Definition position (id : string) (sessions : list ControlledSessionOwnershipV1) : nat :=
  sort_search (length sessions) (λ index,
    match sessions !! index with
    | Some o => string_geb (so_LiveRunID o) id
    | None => true
    end).

Lemma position_spec id l :
  StronglySorted by_run l →
  Forall (λ o, string_lt (so_LiveRunID o) id) (take (position id l) l)
  ∧ Forall (λ o, ¬ string_lt (so_LiveRunID o) id) (drop (position id l) l).
Proof.
  intros Hs. unfold position.
  edestruct (sort_search_spec (length l) (λ index,
    match l !! index with Some o => string_geb (so_LiveRunID o) id | None => true end)) as (Hp & Hlow & Hhigh).
  { intros a b Hab. simpl. destruct (lookup_lt_is_Some_2 l a) as [x Hx]; [lia|].
    destruct (lookup_lt_is_Some_2 l b) as [y Hy]; [lia|]. rewrite Hx, Hy.
    destruct (decide (a = b)) as [->|Hne]; [by simplify_eq|].
    destruct (string_geb (so_LiveRunID y) id) eqn:Hgy; [done|]. intros Hgx.
    apply string_geb_lt in Hgy. assert (string_geb (so_LiveRunID x) id = false); [|congruence].
    apply string_geb_lt. etrans; [|exact Hgy].
    apply list_elem_of_split_length in Hx as (l1 & l2 & -> & ->).
    apply StronglySorted_app_1_r, StronglySorted_cons in Hs as [Hall _].
    rewrite Forall_forall in Hall. apply Hall.
    rewrite lookup_app_r in Hy by lia. destruct (b - length l1)%nat as [|k] eqn:Hk; [lia|].
    simpl in Hy. by eapply list_elem_of_lookup_2. }
  set (p := sort_search _ _) in *. split; apply Forall_forall.
  - intros o (k & Hk)%list_elem_of_lookup_1. apply lookup_take_Some in Hk as [Hk Hlt].
    specialize (Hlow k Hlt). simpl in Hlow. rewrite Hk in Hlow. by apply string_geb_lt.
  - intros o (k & Hk)%list_elem_of_lookup_1 Hlt. rewrite lookup_drop in Hk.
    assert (p + k < length l)%nat by by eapply lookup_lt_Some.
    specialize (Hhigh (p + k)%nat). simpl in Hhigh. rewrite Hk in Hhigh.
    apply string_geb_lt in Hlt. rewrite Hhigh in Hlt by lia. done.
Qed.

(** ** Merging *)

(** The merge of two possibly missing identities. *)
Definition id_merged (current next merged : string) : Prop :=
  (current = "" ∨ current = merged) ∧ (next = "" ∨ next = merged) ∧ (merged = current ∨ merged = next).

Lemma merge_id_iff current next resource merged :
  Locked.merge_id current next resource = Ok merged ↔ id_merged current next merged.
Proof.
  unfold Locked.merge_id, id_merged. case_bool_decide as Hn.
  { subst. split; [intros [= ->]|]; [naive_solver|]. intros (H1 & _ & [->| ->]); [done|]. naive_solver. }
  destruct (negb _ && negb _) eqn:H; go_bool; (split; [intros Hm|]); simplify_eq; naive_solver.
Qed.

(** The plan of a session: everything but the identities. *)
Definition plan (o : ControlledSessionOwnershipV1) : ControlledSessionOwnershipV1 :=
  Locked.set_ids "" "" "" o.
Definition controller_id (o : ControlledSessionOwnershipV1) : string := co_ID (so_Controller o).
Definition workload_id (o : ControlledSessionOwnershipV1) : string := co_ID (so_Workload o).

(** [merged] has the plan of both, and each identity that either has. *)
Record session_merged (existing requested merged : ControlledSessionOwnershipV1) : Prop := {
  sm_plan : plan requested = plan existing ∧ plan merged = plan existing;
  sm_network : id_merged (so_NetworkID existing) (so_NetworkID requested) (so_NetworkID merged);
  sm_controller : id_merged (controller_id existing) (controller_id requested) (controller_id merged);
  sm_workload : id_merged (workload_id existing) (workload_id requested) (workload_id merged);
  sm_valid : validateCurrentControlledSessionOwnershipV1 merged = Ok tt
}.

Lemma set_ids_plan a b : plan a = plan b →
  Locked.set_ids (so_NetworkID a) (controller_id a) (workload_id a) b = a.
Proof.
  intros H. transitivity (Locked.set_ids (so_NetworkID a) (controller_id a) (workload_id a) (plan b)); [done|].
  rewrite <-H. by destruct a as [????????? [] []].
Qed.

Lemma merge_iff existing requested merged :
  Locked.mergeControlledSessionOwnershipV1 existing requested = Ok merged ↔
  session_merged existing requested merged.
Proof.
  unfold Locked.mergeControlledSessionOwnershipV1. split.
  - intros H. go_ok. go_bool. fold (plan existing) (plan requested) in *.
    repeat match goal with H : Locked.merge_id _ _ _ = Ok _ |- _ => apply merge_id_iff in H end.
    by constructor.
  - intros [[Hp Hm] Hn Hc Hw Hv]. fold (plan existing) (plan requested).
    rewrite bool_decide_true by done. cbn [negb]. unfold reject_if. rewrite bind_Ok.
    rewrite (proj2 (merge_id_iff _ _ "network" _) Hn), bind_Ok.
    fold (controller_id existing) (controller_id requested) (workload_id existing) (workload_id requested).
    rewrite (proj2 (merge_id_iff _ _ _ _) Hc), bind_Ok, (proj2 (merge_id_iff _ _ _ _) Hw), bind_Ok.
    rewrite (set_ids_plan _ _ Hm), Hv. done.
Qed.

Lemma current_valid o :
  validateCurrentControlledSessionOwnershipV1 o = Ok tt → validateControlledSessionOwnershipV1 o = Ok tt.
Proof. unfold validateCurrentControlledSessionOwnershipV1. intros H. by go_ok. Qed.

Lemma plan_run a b : plan a = plan b → so_LiveRunID a = so_LiveRunID b.
Proof. intros H. change (so_LiveRunID (plan a) = so_LiveRunID (plan b)). by rewrite H. Qed.

(** ** Recording *)

Lemma set_sessions_ok queue l :
  queue_ok queue → sessions_ok l → queue_ok (Locked.set_sessions l queue).
Proof.
  intros [[Hschema [_ Hclean]] Hruns He Hshape] Hl.
  constructor; [split; [done|]; split; [by apply sessions_ok_iff|done]|done|done|done].
Qed.

Lemma queue_sessions queue : queue_ok queue → sessions_ok (q_ControlledSessions queue).
Proof. intros [[_ [Hs _]] _ _ _]. by apply sessions_ok_iff. Qed.

Lemma forall_between id l :
  Forall (λ o : ControlledSessionOwnershipV1, ¬ string_lt (so_LiveRunID o) id) l →
  Forall (λ o, so_LiveRunID o ≠ id) l → Forall (λ o, string_lt id (so_LiveRunID o)) l.
Proof.
  intros H1 H2. rewrite Forall_forall in *. intros o Ho.
  destruct (string_lt_total (so_LiveRunID o) id) as [|[|]]; [by destruct (H1 o Ho)|by destruct (H2 o Ho)|done].
Qed.

(** Inserting an entry, or replacing the one of the same run, where the search ends. *)
Lemma place_ok l1 l2 o :
  Forall (λ o, validateControlledSessionOwnershipV1 o = Ok tt) (l1 ++ l2) →
  StronglySorted by_run (l1 ++ l2) → validateControlledSessionOwnershipV1 o = Ok tt →
  Forall (λ x, string_lt (so_LiveRunID x) (so_LiveRunID o)) l1 →
  Forall (λ x, string_lt (so_LiveRunID o) (so_LiveRunID x)) l2 →
  sessions_ok (l1 ++ o :: l2).
Proof.
  intros Hv Hs Ho H1 H2. apply Forall_app in Hv as [Hv1 Hv2]. apply StronglySorted_app in Hs as (Hx & Hs1 & Hs2).
  split; [by apply Forall_app; split; [|constructor]|].
  apply StronglySorted_app. rewrite StronglySorted_cons. split_and!; [|done|done|done].
  intros x y Hx1 [->|Hy]%elem_of_cons; [|by apply Hx]. rewrite Forall_forall in H1. by apply H1.
Qed.

Lemma admitted_run directory runs o o' :
  Locked.admitted_ownership directory runs o = Ok o' →
  so_LiveRunID o' = so_LiveRunID o ∧ validateCurrentControlledSessionOwnershipV1 o' = Ok tt.
Proof.
  unfold Locked.admitted_ownership. destruct (find_first _ _) as [a|]; [|done]. intros H. by go_ok.
Qed.

Lemma commit_sessions l1 o l2 st :
  store_ok st → sessions_ok (l1 ++ o :: l2) →
  commitLiveRunQueuePathV1 (Locked.set_sessions (l1 ++ o :: l2) (current st)) st =
  (set_queue (Some (Locked.set_sessions (l1 ++ o :: l2) (current st))) st, Ok tt).
Proof.
  intros Hok Hl. assert (l1 ++ o :: l2 ≠ []) as Hne by (by destruct l1). rewrite (commit_runs _ st (set_sessions_ok _ _ (current_ok st Hok) Hl)).
  unfold file_of, empty_queue. simpl. by rewrite (bool_decide_false _ Hne), andb_false_r.
Qed.

Lemma set_sessions_same queue : Locked.set_sessions (q_ControlledSessions queue) queue = queue.
Proof. by destruct queue. Qed.

(** Recording [ownership] leaves [sessions] in the file and answers [recorded]. *)
Definition records (st : Store) (ownership : ControlledSessionOwnershipV1)
    (sessions : list ControlledSessionOwnershipV1) (recorded : ControlledSessionOwnershipV1) : Prop :=
  sessions_ok sessions
  ∧ Locked.RecordControlledSessionOwnershipV1 ownership st =
    (set_queue (Some (Locked.set_sessions sessions (current st))) st, Ok recorded).

Lemma file_unchanged st (existing : ControlledSessionOwnershipV1) :
  existing ∈ q_ControlledSessions (current st) → st = set_queue (Some (current st)) st.
Proof.
  unfold current, set_queue. destruct st as [? ? ? ? ? ? [q|] ?]; simpl; [done|]. by intros ?%elem_of_nil.
Qed.

Section record.
Context (st : Store) (o o' : ControlledSessionOwnershipV1).
Hypothesis Hok : store_ok st.
Hypothesis Hid : so_LiveRunID o' = so_LiveRunID o.
Let sessions := q_ControlledSessions (current st).
Let p := position (so_LiveRunID o) sessions.

(** No session of the run is recorded: the commit of the insertion. *)
Lemma insert_session :
  validateControlledSessionOwnershipV1 o' = Ok tt →
  Forall (λ x, so_LiveRunID x ≠ so_LiveRunID o) (drop p sessions) →
  Forall (λ s, so_LiveRunID s ≠ so_LiveRunID o) sessions
  ∧ ∃ l1 l2, sessions = l1 ++ l2 ∧ sessions_ok (l1 ++ o' :: l2)
    ∧ (_ ← commitLiveRunQueuePathV1 (Locked.set_sessions (take p sessions ++ o' :: drop p sessions) (current st));
       mret o') st = (set_queue (Some (Locked.set_sessions (l1 ++ o' :: l2) (current st))) st, Ok o').
Proof using Hok Hid.
  intros Hv Hne. destruct (queue_sessions _ (current_ok st Hok)) as [Hall Hs].
  destruct (position_spec (so_LiveRunID o) _ Hs) as [Hlow Hhigh].
  assert (sessions_ok (take p sessions ++ o' :: drop p sessions)) as Hins.
  { apply place_ok; rewrite ?take_drop, ?Hid; [done|done|done|done|by apply forall_between]. }
  split.
  - rewrite <-(take_drop p sessions). apply Forall_app. split; [|done].
    eapply Forall_impl; [exact Hlow|]. simpl. intros x Hx He. rewrite He in Hx.
    by apply (StrictOrder_Irreflexive (so_LiveRunID o)).
  - exists (take p sessions), (drop p sessions). rewrite take_drop. split; [done|]. split; [done|].
    by rewrite (SM_bind_ok _ _ _ _ _ (commit_sessions _ _ _ st Hok Hins)).
Qed.

(** Replacing the session of the run by a merged one keeps the inventory sorted. *)
Lemma replace_session existing merged :
  sessions !! p = Some existing → so_LiveRunID merged = so_LiveRunID existing →
  validateControlledSessionOwnershipV1 merged = Ok tt →
  sessions_ok (take p sessions ++ merged :: drop (S p) sessions).
Proof using Hok.
  intros Hp Hm Hv. destruct (queue_sessions _ (current_ok st Hok)) as [Hall Hs].
  fold sessions in Hall, Hs. rewrite <-(take_drop_middle _ _ _ Hp) in Hs, Hall.
  apply StronglySorted_app in Hs as (Hx & Hs1 & [Hx2 Hs2]%StronglySorted_cons).
  apply Forall_app in Hall as [Hall1 [_ Hall2]%Forall_cons].
  apply place_ok; rewrite ?Hm; [by apply Forall_app| |done| |exact Hx2].
  - apply StronglySorted_app. split_and!; [|done|done]. intros x y Hx1 Hy. apply Hx; [done|by right].
  - apply Forall_forall. intros x Hx1. apply Hx; [done|by left].
Qed.

(** Where the search ends at another run, no session of this run is recorded. *)
Lemma no_session existing :
  sessions !! p = Some existing → so_LiveRunID existing ≠ so_LiveRunID o →
  Forall (λ x, so_LiveRunID x ≠ so_LiveRunID o) (drop p sessions).
Proof using Hok.
  intros Hp He. destruct (queue_sessions _ (current_ok st Hok)) as [_ Hs].
  destruct (position_spec (so_LiveRunID o) _ Hs) as [_ Hhigh]. fold sessions in Hs, Hhigh. fold p in Hhigh.
  rewrite (drop_S _ _ _ Hp) in Hhigh |- *. constructor; [done|].
  apply Forall_cons in Hhigh as [Hh _]. rewrite <-(take_drop_middle _ _ _ Hp) in Hs.
  apply StronglySorted_app in Hs as (_ & _ & [Hx2 _]%StronglySorted_cons).
  eapply Forall_impl; [exact Hx2|]. simpl. intros x Hx Hxid. apply Hh. rewrite <-Hxid. exact Hx.
Qed.
End record.

Lemma record_run st o :
  store_ok st → writable st → ValidateLiveRunIDV1 (so_LiveRunID o) = Ok tt →
  match Locked.admitted_ownership (st_directory st) (runs_of (current st)) o with
  | Err msg => Locked.RecordControlledSessionOwnershipV1 o st = (st, Err msg)
  | Ok o' =>
    (Forall (λ s, so_LiveRunID s ≠ so_LiveRunID o) (q_ControlledSessions (current st))
     ∧ ∃ l1 l2, q_ControlledSessions (current st) = l1 ++ l2 ∧ records st o (l1 ++ o' :: l2) o')
    ∨ ∃ l1 existing l2, q_ControlledSessions (current st) = l1 ++ existing :: l2
      ∧ so_LiveRunID existing = so_LiveRunID o
      ∧ match Locked.mergeControlledSessionOwnershipV1 existing o' with
        | Ok merged => records st o (l1 ++ merged :: l2) merged
        | Err _ => ∃ msg, Locked.RecordControlledSessionOwnershipV1 o st = (st, Err msg)
        end
  end.
Proof.
  intros Hok Hw Hid. unfold records, Locked.RecordControlledSessionOwnershipV1.
  rewrite SM_bind_check, Hid, (SM_bind_ok _ _ _ _ _ (writable_run st Hw)).
  destruct (read_runs st Hok) as [found Hf]. rewrite (SM_bind_ok _ _ _ _ _ Hf). cbn [fst]. clear found Hf.
  cbv zeta. rewrite SM_bind_read, SM_bind_check.
  destruct (Locked.admitted_ownership _ _ _) as [o'|msg] eqn:Ha; [|done].
  destruct (admitted_run _ _ _ _ Ha) as [Hid' Hcur]. rewrite Hid'.
  fold (position (so_LiveRunID o) (q_ControlledSessions (current st))).
  assert (Hins := insert_session st o o' Hok Hid' (current_valid _ Hcur)).
  set (sessions := q_ControlledSessions (current st)) in *. set (p := position _ _) in *.
  destruct (sessions !! p) as [existing|] eqn:Hp.
  2: { left. apply Hins. rewrite drop_ge; [done|]. by apply lookup_ge_None. }
  case_bool_decide as He; [|left; apply Hins; by eapply no_session].
  right. exists (take p sessions), existing, (drop (S p) sessions).
  split; [by rewrite take_drop_middle|]. split; [done|]. rewrite SM_bind_check.
  destruct (Locked.mergeControlledSessionOwnershipV1 existing o') as [merged|] eqn:Hm; simpl; [|by eexists].
  apply merge_iff in Hm. destruct Hm as [[_ Hplan] _ _ _ Hvm].
  assert (Hr := replace_session st o Hok existing merged Hp (plan_run _ _ Hplan) (current_valid _ Hvm)).
  split; [exact Hr|]. case_bool_decide as Hsame.
  - subst merged. rewrite (take_drop_middle _ _ _ Hp). unfold sessions. rewrite set_sessions_same.
    rewrite <-(file_unchanged st existing); [done|]. by eapply list_elem_of_lookup_2.
  - rewrite insert_take_drop by (by eapply lookup_lt_Some).
    by rewrite (SM_bind_ok _ _ _ _ _ (commit_sessions _ _ _ st Hok Hr)).
Qed.
