(* ===== verification/LiveRunStoreProps.v ===== *)
(** * The durable live-run queue: the properties of the locked operations *)

From S2P Require Import Prelude GoText Identifiers LiveRunQueue LiveRunQueueFacts LiveRunStore.
From S2P Require Import LiveRunStoreFacts LiveRunSessions.

Open Scope Z_scope.

(** ** Completion with a failed container cleanup *)

Lemma entry_kind run :
  validateLiveQueueEntryV1 run = Ok tt → is_control run = false →
  liveRunKindInV1 (lr_Kind run) [LiveRunKindAppV1; LiveRunKindShellV1] = true.
Proof.
  intros Hv Hk. unfold is_control in Hk. unfold validateLiveQueueEntryV1 in Hv. rewrite Hk in Hv. simpl in Hv.
  unfold validateLiveRunV1 in Hv. go_ok. go_bool. unfold liveRunKindInV1.
  by destruct (lr_Kind run); naive_solver.
Qed.

Lemma named_run queue id :
  queue_ok queue → ValidateLiveRunIDV1 id = Ok tt → id ∈ ids (runs_of queue) →
  ∃ run, find_first (λ entry, bool_decide (lr_ID entry = id) && negb (is_control entry)) (runs_of queue)
         = Some run
  ∧ run ∈ runs_of queue ∧ lr_ID run = id ∧ is_control run = false.
Proof.
  intros Hq Hid (r & Hr & Hin)%list_elem_of_fmap_1. destruct (ok_entries _ Hq) as [Hv _].
  rewrite Forall_forall in Hv. specialize (Hv r Hin).
  assert (is_control r = false) as Hc.
  { unfold is_control. apply bool_decide_eq_false. intros Hk. unfold validateLiveQueueEntryV1 in Hv.
    rewrite (bool_decide_true _ Hk) in Hv. simpl in Hv. go_ok. by apply (run_not_control (lr_ID r)). }
  destruct (find_first _ _) as [run|] eqn:Hf.
  - exists run. apply find_first_Some in Hf as (l1 & l2 & -> & Hp & _). unfold is_control in *. go_bool.
    destruct Hp as [H1 H2]. split_and!; [done|by apply elem_of_app; right; left|done|by go_bool].
  - apply find_first_None in Hf. rewrite Forall_forall in Hf. specialize (Hf r Hin). simpl in Hf.
    rewrite Hc, andb_true_r in Hf. go_bool. congruence.
Qed.

Definition failed_cleanup (container : string) (run : LiveRunV1) : LiveRunContainerCleanupV1 :=
  ContainerCleanup container (lr_ID run) (lr_Kind run) (lr_Name run) LiveRunRecoveryCleanupFailedV1.

Lemma failed_cleanup_valid container run :
  safeRecoveryIdentity container = true → validateLiveQueueEntryV1 run = Ok tt → is_control run = false →
  validateLiveRunContainerCleanupV1 (failed_cleanup container run) = Ok tt.
Proof.
  intros Hc Hv Hk. unfold is_control in Hk. unfold validateLiveQueueEntryV1 in Hv. rewrite Hk in Hv. simpl in Hv.
  unfold validateLiveRunV1 in Hv. go_ok. unfold validateLiveRunContainerCleanupV1. simpl.
  rewrite Hc. simpl. repeat match goal with H : ValidateLiveRunIDV1 _ = Ok _ |- _ => rewrite H end. simpl.
  by repeat match goal with H : negb _ = false |- _ => rewrite H
    | H : negb _ && negb _ = false |- _ => rewrite H end.
Qed.

(** The run is gone, its container is in the inventory, and nothing leaves the inventory. *)
Record completed (st st' : Store) (id container : string) : Prop := {
  cp_ok : store_ok st';
  cp_gone : id ∉ ids (runs_of (current st'));
  cp_order : keeps_order (runs_of (current st)) (runs_of (current st'));
  cp_container : ∀ x, x ∈ containers (q_Cleanup (current st')) ↔
    x ∈ containers (q_Cleanup (current st)) ∨ x = container;
  cp_sessions : q_ControlledSessions (current st') = q_ControlledSessions (current st)
}.

Lemma store_file_ok queue st : queue_ok queue → store_ok (set_queue (file_of queue) st).
Proof.
  intros Hq. unfold store_ok, file_of. simpl. by destruct (empty_queue queue) eqn:He.
Qed.

Lemma ids_sublist l k : sublist l k → sublist (ids l) (ids k).
Proof. apply sublist_map. Qed.

Lemma promoted_filter_order (P : LiveRunV1 → Prop) `{!∀ r, Decision (P r)} runs kept runs' :
  sublist kept runs → promoted kept runs' → keeps_order runs (filter P runs').
Proof.
  intros Hs Hp%promoted_same_run. assert (∃ kept', sublist kept' kept ∧ Forall2 same_run kept' (filter P runs'))
    as (kept' & Hs' & Hf).
  { clear Hs. induction Hp as [|x y l k Hxy _ (l' & Hl & Hf)]; [by exists []|].
    rewrite filter_cons. case_decide.
    - exists (x :: l'). split; [by constructor|by constructor].
    - exists l'. split; [by constructor|done]. }
  exists kept', (filter P runs'), []. rewrite app_nil_r. split_and!; [by etrans|done|done|simpl; lia].
Qed.

Lemma retired_order retirement previous kept next :
  sublist kept (runs_of previous) → promoted kept (runs_of next) →
  keeps_order (runs_of previous) (runs_of (retired_queue retirement previous next))
  ∧ sublist (runs_of (retired_queue retirement previous next)) (runs_of next).
Proof.
  intros Hs Hp. unfold retired_queue. case_bool_decide.
  - split; [by eapply promoted_keeps_order|done].
  - split; [by eapply promoted_filter_order|apply sublist_filter].
Qed.

Lemma retired_parts retirement previous next :
  q_Cleanup (retired_queue retirement previous next) = q_Cleanup next
  ∧ q_ControlledSessions (retired_queue retirement previous next) = q_ControlledSessions next.
Proof. unfold retired_queue. destruct (bool_decide _); split; done. Qed.

Lemma complete_run sort_cleanup st id container :
  sorts sort_cleanup → store_ok st → retirable st →
  ValidateLiveRunIDV1 id = Ok tt → safeRecoveryIdentity container = true →
  id ∈ ids (runs_of (current st)) →
  match Locked.CompleteLiveRunWithContainerCleanupV1 sort_cleanup id container st with
  | (st', Ok done) => done = true ∧ completed st st' id container
  | (st', Err _) => st' = st
      ∧ ∃ run, run ∈ runs_of (current st) ∧ lr_ID run = id ∧ lr_Container run ≠ "" ∧ lr_Container run ≠ container
  end.
Proof.
  intros Hsort Hok Hr Hid Hc Hin. assert (Hq := current_ok st Hok).
  unfold Locked.CompleteLiveRunWithContainerCleanupV1.
  rewrite !SM_bind_check, Hid, Hc. cbn [negb reject_if].
  rewrite (SM_bind_ok _ _ _ _ _ (retirable_run st Hr)).
  destruct (read_runs st Hok) as [found Hf]. rewrite (SM_bind_ok _ _ _ _ _ Hf). cbn [fst]. clear found Hf.
  destruct (named_run _ id Hq Hid Hin) as (run & Hrun & Hrin & Hrid & Hk). rewrite Hrun.
  cbv zeta. rewrite SM_bind_check. unfold LiveRunQueue.RemoveLiveRunV1.
  rewrite (proj2 (valid_queue_iff _) Hq), Hid, !bind_Ok.
  destruct (removeLiveQueueEntryV1 _ _ _) as [q' f] eqn:He. cbn [fst snd].
  apply removeLiveQueueEntryV1_ok in He; [|done].
  destruct f; cbn [negb].
  2: { destruct He as (_ & _ & _ & _ & Hno). rewrite Forall_forall in Hno. destruct (Hno run Hrin).
       split; [done|]. destruct (ok_entries _ Hq) as [Hv _]. rewrite Forall_forall in Hv.
       by apply entry_kind; [apply Hv|]. }
  rewrite SM_bind_check. destruct (negb _ && negb _) eqn:Hn; cbn [reject_if].
  { split; [done|]. exists run. go_bool. naive_solver. }
  destruct (removal_sublist _ _ _ _ He) as [Hs Hp]. destruct He as (Hq' & Hses & Hcl & _ & _).
  fold (failed_cleanup container run).
  destruct (set_cleanup_queue_ok sort_cleanup q' [failed_cleanup container run] Hsort Hq') as [Hu Hx].
  { apply Forall_cons. split; [|done]. apply failed_cleanup_valid; [done| |done].
    destruct (ok_entries _ Hq) as [Hv _]. rewrite Forall_forall in Hv. by apply Hv. }
  set (updated := Locked.set_cleanup _ _ _) in *.
  rewrite (SM_bind_ok _ _ _ _ _ (commit_removal_run _ _ updated st Hq Hu Hs Hp)).
  split; [done|]. destruct (retired_order (st_retirement st) (current st) _ updated Hs Hp) as [Ho Hsub].
  destruct (retired_queue_ok (st_retirement st) _ _ updated Hq Hu Hs Hp) as [Hrq _].
  set (retired := retired_queue _ _ _) in *.
  destruct (current_file_of retired st Hrq) as (E1 & E2 & E3).
  destruct (retired_parts (st_retirement st) (current st) updated) as [Hrc Hrs]. fold retired in Hrc, Hrs.
  constructor; rewrite ?E1, ?E2, ?E3; [by apply store_file_ok| |done| |by rewrite Hrs].
  - intros Hin'. assert (id ∈ ids (runs_of updated)) as Hin2
      by (eapply elem_of_sublist; [exact Hin'|by apply ids_sublist]).
    change (runs_of updated) with (runs_of q') in Hin2. rewrite (promoted_ids _ _ Hp) in Hin2.
    apply list_elem_of_fmap_1 in Hin2 as (x & -> & [Hx' _]%list_elem_of_filter). by apply Hx'.
  - intros x. rewrite Hrc, Hx, Hcl. unfold containers at 2. simpl. by rewrite list_elem_of_singleton.
Qed.

(** ** A second recovery *)

Lemma boot_again st st1 session st2 :
  CurrentBootSessionIDV1 st = (st1, Ok session) → session ≠ "" → st_bootCache st2 = st_bootCache st1 →
  CurrentBootSessionIDV1 st2 = (st2, Ok session).
Proof.
  intros Hb Hne Hc. assert (st_bootCache st1 = session) as Hs.
  { revert Hb. unfold CurrentBootSessionIDV1. rewrite SM_bind_read.
    destruct (negb (bool_decide (st_bootCache st = ""))); [by intros [= <-]|].
    rewrite SM_bind_read, SM_bind_check. destruct (wrap (st_bootRead st) _) as [v|]; [|done].
    cbv zeta. rewrite SM_bind_check. destruct (wrap _ _) as [[]|]; [|done]. unfold update.
    unfold mbind, SM_bind, mret, SM_ret. by intros [= <- <-]. }
  unfold CurrentBootSessionIDV1. rewrite SM_bind_read, Hc, Hs, (bool_decide_false _ Hne). done.
Qed.

Lemma boot_same st st1 session :
  CurrentBootSessionIDV1 st = (st1, Ok session) → ∃ cache, st1 = set_bootCache cache st.
Proof.
  unfold CurrentBootSessionIDV1. rewrite SM_bind_read.
  destruct (negb (bool_decide (st_bootCache st = ""))).
  { intros [= <- _]. exists (st_bootCache st). by destruct st. }
  rewrite SM_bind_read, SM_bind_check. destruct (wrap (st_bootRead st) _) as [v|]; [|done].
  cbv zeta. rewrite SM_bind_check. destruct (wrap _ _) as [[]|]; [|done]. unfold update.
  unfold mbind, SM_bind, mret, SM_ret. intros [= <- _]. by eexists.
Qed.

Lemma staying_reason session terminal st r :
  r ∈ staying session terminal st →
  r ∈ runs_of (current st) ∧ lr_BootSession r = session ∧ session ≠ ""
  ∧ held (st_leases st) (lr_ID r) = true ∧ (terminal = true → is_active r = true).
Proof.
  intros [Hs Hin]%list_elem_of_filter. unfold stays in Hs. go_bool. destruct Hs as [Hr Ha].
  split; [done|]. unfold entry_reason in Hr. case_bool_decide as H1; [done|].
  case_bool_decide as H2; [|done]. case_bool_decide as H3; [|done].
  split; [done|]. split; [congruence|]. split; [by apply bool_decide_eq_true|].
  intros ->. by destruct Ha.
Qed.

Lemma gone_reason session st id :
  id ∈ gone_ids session st → ∃ r, r ∈ runs_of (current st) ∧ lr_ID r = id
  ∧ entry_reason session (st_leases st) r ≠ None.
Proof.
  unfold gone_ids. intros (x & -> & (rec & -> & Hrec)%list_elem_of_fmap_1)%list_elem_of_fmap_1.
  destruct (recovered_no_raw _ _ _ _ Hrec) as (Hin & Hr & _). exists (rec_Run rec).
  split_and!; [done|done|]. by rewrite Hr.
Qed.

(** The entries a recovery left have living owners of this session. *)
Lemma recovered_owners session terminal st st' rec r :
  store_ok st → recovers session terminal st st' rec → r ∈ runs_of (current st') →
  lr_BootSession r = session ∧ session ≠ "" ∧ held (st_leases st') (lr_ID r) = true
  ∧ (terminal = true → is_active r = true).
Proof.
  intros Hok Hrec Hin. destruct (rcv_runs _ _ _ _ _ Hrec) as [Hp Ht].
  destruct (Forall2_right _ _ _ _ (promoted_same_run _ _ Hp) Hin) as (x & Hx & Hsame & _).
  destruct (staying_reason _ _ _ _ Hx) as (Hxin & Hb & Hne & Hh & Ha).
  assert (lr_ID r = lr_ID x ∧ lr_BootSession r = lr_BootSession x) as [Hid Hboot] by (rewrite Hsame; by split).
  split_and!; [by rewrite Hboot|done| |].
  - rewrite (rcv_leases _ _ _ _ _ Hrec), Hid, Hh. simpl. apply negb_true_iff, bool_decide_eq_false.
    intros (y & Hy & Hyid & Hyr)%gone_reason.
    assert (y = x) as -> by by eapply same_id_same_run; [apply (ok_entries _ (current_ok st Hok))|..].
    apply list_elem_of_filter in Hx as [Hst _]. unfold stays in Hst. go_bool. by destruct Hst.
  - intros HT. rewrite (Ht HT) in Hin. by destruct (staying_reason _ _ _ _ Hin) as (_ & _ & _ & _ & H); apply H.
Qed.

Lemma recovered_again session terminal st st' rec :
  store_ok st → recovers session terminal st st' rec →
  recovered session (st_leases st') (runs_of (current st')) = []
  ∧ staying session terminal st' = runs_of (current st').
Proof.
  intros Hok Hrec. assert (Forall (λ r, entry_reason session (st_leases st') r = None
    ∧ (terminal = true → is_active r = true)) (runs_of (current st'))) as Hall.
  { apply Forall_forall. intros r Hin. destruct (recovered_owners _ _ _ _ _ _ Hok Hrec Hin) as (Hb & Hne & Hh & Ha).
    split; [|done]. unfold entry_reason. rewrite Hb, (bool_decide_false _ Hne), bool_decide_true by done.
    unfold held in Hh. by rewrite Hh. }
  split.
  - unfold recovered. induction Hall as [|r l [Hr _] _ IH]; [done|]. simpl. by rewrite Hr.
  - apply filter_every. eapply Forall_impl; [exact Hall|]. simpl. intros r [Hr Ha]. unfold stays.
    rewrite Hr. simpl. destruct terminal; [by apply Ha|done].
Qed.

(** ** Sample data *)

#[export] Instance not_after_dec a b : Decision (not_after a b).
Proof. unfold not_after. apply _. Defined.
#[export] Instance not_after_total : Total not_after.
Proof.
  intros a b. rewrite !not_after_le.
  destruct (string_lt_total (cc_Container a) (cc_Container b)) as [|[|]]; auto.
Qed.

(** A sort that meets the documented behaviour. *)
Definition sort_sample : list LiveRunContainerCleanupV1 → list LiveRunContainerCleanupV1 :=
  merge_sort not_after.
Lemma sort_sample_sorts : sorts sort_sample.
Proof. intros l. unfold sort_sample. split; [apply merge_sort_Permutation|apply (Sorted_merge_sort _)]. Qed.

Definition sample_entry (id boot container : string) (status : LiveRunStatusV1) : LiveRunV1 :=
  LiveRun ("run-" +:+ id) LiveRunKindAppV1 "web" "gen-1" boot status false "" [] container.
Definition sample_file : LiveRunQueueV1 :=
  LiveRunQueue LiveRunQueueSchemaV1
    (Some [sample_entry "0000000000000001" "boot-a" "web-1" LiveRunStatusActiveV1;
           sample_entry "0000000000000002" "boot-b" "web-2" LiveRunStatusActiveV1;
           sample_entry "0000000000000003" "boot-b" "" LiveRunStatusReadyV1])
    [] [ContainerCleanup "old" "run-0000000000000009" LiveRunKindShellV1 "web" LiveRunRecoveryCleanupFailedV1].
Definition sample_store : Store :=
  MkStore true "/srv/web" "" "" "boot-b" (Ok "boot-b") (Some sample_file)
    {[ "run-0000000000000001" := LeaseFree; "run-0000000000000002" := LeaseHeld ]}.

Lemma sample_store_ok : store_ok sample_store.
Proof. split; [|done]. apply valid_queue_iff. vm_compute. reflexivity. Qed.
Lemma sample_retirable : retirable sample_store.
Proof. split; [done|]. by left. Qed.
Lemma sample_writable : writable sample_store.
Proof. done. Qed.

(** ** Properties *)

Lemma recover_queue_run sort_cleanup st st0 session :
  sorts sort_cleanup → store_ok st → retirable st →
  CurrentBootSessionIDV1 st = (st0, Ok session) → validateBootSessionIDV1 session = Ok tt →
  ∃ st' rec, Locked.RecoverLiveRunQueueV1 sort_cleanup st = (st', Ok rec)
  ∧ recovers session (negb (bool_decide (st_retirement st = ""))) st0 st' rec.
Proof.
  intros Hsort Hok Hr Hb Hs. unfold Locked.RecoverLiveRunQueueV1.
  rewrite (SM_bind_ok _ _ _ _ _ Hb). destruct (boot_same _ _ _ Hb) as [cache ->].
  rewrite (SM_bind_ok _ _ _ _ _ (retirable_run (set_bootCache cache st) Hr)), SM_bind_read.
  by apply recover_run.
Qed.

(** C3: recovery always succeeds on a valid store, and reports and removes exactly the
    entries without a boot session, of an earlier boot session, or of this one whose
    lease no living owner holds; the others keep their order and stay (only the active
    ones while the deployment is retired); the containers of the removed entries join
    the cleanup inventory and none leaves it; the recorded sessions stay in the file and
    those whose run and owner are gone are reported; a held lease of a remaining entry
    is never removed. *)
Theorem RecoverLiveRunQueueV1_spec sort_cleanup st st0 session :
  sorts sort_cleanup → store_ok st → retirable st →
  CurrentBootSessionIDV1 st = (st0, Ok session) → validateBootSessionIDV1 session = Ok tt →
  ∃ st' rec, Locked.RecoverLiveRunQueueV1 sort_cleanup st = (st', Ok rec)
  ∧ recovers session (negb (bool_decide (st_retirement st = ""))) st0 st' rec.
Proof. apply recover_queue_run. Qed.

Lemma RecoverLiveRunQueueV1_spec_witness :
  ∃ st' rec, Locked.RecoverLiveRunQueueV1 sort_sample sample_store = (st', Ok rec)
  ∧ map (λ r, lr_ID (rec_Run r)) (rc_Removed rec) = ["run-0000000000000001"; "run-0000000000000003"]
  ∧ containers (q_Cleanup (current st')) = ["old"; "web-1"].
Proof.
  destruct (RecoverLiveRunQueueV1_spec sort_sample sample_store sample_store "boot-b") as (st' & rec & H & Hr);
    [apply sort_sample_sorts|apply sample_store_ok|apply sample_retirable|reflexivity|vm_compute; reflexivity|].
  exists st', rec. split; [exact H|]. split.
  - rewrite (rcv_removed _ _ _ _ _ Hr). vm_compute. reflexivity.
  - assert (st' = (Locked.RecoverLiveRunQueueV1 sort_sample sample_store).1) as -> by (by rewrite H).
    vm_compute. reflexivity.
Defined.

(** A recovery that follows a recovery removes nothing and leaves the queue file as
    it is. *)
Theorem recovery_idempotent sort_cleanup st st0 session st1 rec1 :
  sorts sort_cleanup → store_ok st → retirable st →
  CurrentBootSessionIDV1 st = (st0, Ok session) → validateBootSessionIDV1 session = Ok tt →
  Locked.RecoverLiveRunQueueV1 sort_cleanup st = (st1, Ok rec1) →
  ∃ st2 rec2, Locked.RecoverLiveRunQueueV1 sort_cleanup st1 = (st2, Ok rec2)
  ∧ rc_Removed rec2 = [] ∧ st_queue st2 = st_queue st1.
Proof.
  intros Hsort Hok Hr Hb Hs H1.
  destruct (recover_queue_run sort_cleanup st st0 session Hsort Hok Hr Hb Hs) as (st' & rec & Hrun & Hrec).
  assert (st' = st1 ∧ rec = rec1) as [-> ->] by (rewrite H1 in Hrun; by injection Hrun).
  destruct (boot_same _ _ _ Hb) as [cache Hst0]. destruct (rcv_rest _ _ _ _ _ Hrec) as (file & leases & Hst1).
  assert (session ≠ "") as Hne by (intros ->; by vm_compute in Hs).
  destruct (recover_queue_run sort_cleanup st1 st1 session Hsort (rcv_ok _ _ _ _ _ Hrec)) as (st2 & rec2 & H2 & Hrec2).
  { unfold retirable. by rewrite Hst1, Hst0. }
  { eapply boot_again; [exact Hb|done|]. by rewrite Hst1. }
  { done. }
  exists st2, rec2. split; [done|].
  assert (store_ok st0) as Hok0 by (by rewrite Hst0).
  destruct (recovered_again _ _ _ _ _ Hok0 Hrec) as [Hrm Hst].
  assert (st_retirement st1 = st_retirement st) as Hret by (by rewrite Hst1, Hst0). rewrite Hret in Hrec2.
  split; [by rewrite (rcv_removed _ _ _ _ _ Hrec2)|].
  apply (rcv_same _ _ _ _ _ Hrec2); [by rewrite (rcv_removed _ _ _ _ _ Hrec2)|done].
Qed.

Lemma recovery_idempotent_witness :
  ∃ st2 rec2, Locked.RecoverLiveRunQueueV1 sort_sample
    (Locked.RecoverLiveRunQueueV1 sort_sample sample_store).1 = (st2, Ok rec2) ∧ rc_Removed rec2 = [].
Proof.
  destruct (recover_queue_run sort_sample sample_store sample_store "boot-b") as (st1 & rec1 & H & _);
    [apply sort_sample_sorts|apply sample_store_ok|apply sample_retirable|reflexivity|vm_compute; reflexivity|].
  rewrite H. simpl.
  destruct (recovery_idempotent sort_sample sample_store sample_store "boot-b" st1 rec1) as (st2 & rec2 & H2 & Hr & _);
    [apply sort_sample_sorts|apply sample_store_ok|apply sample_retirable|reflexivity|vm_compute; reflexivity|done|].
  by exists st2, rec2.
Defined.

Inductive store_reachable (sort_cleanup : list LiveRunContainerCleanupV1 → list LiveRunContainerCleanupV1)
    : Store → Prop :=
| store_new st : st_queue st = None → store_reachable _ st
| store_next st st' : store_reachable _ st → store_step sort_cleanup st st' → store_reachable _ st'.

(** C34: whatever locked operations run in a deployment that started without a queue file,
    whichever of them fail and whenever lease owners die, the queue file is absent or
    holds a valid nonempty queue, so that reading it never fails. *)
Theorem store_file_valid sort_cleanup st :
  store_reachable sort_cleanup st →
  store_ok st ∧ ∃ found, readLiveRunQueuePathV1 st = (st, Ok (current st, found)).
Proof.
  intros Hr. assert (store_ok st) as Hok; [|split; [done|by apply read_runs]].
  induction Hr as [st Hn|st st' _ IH Hs].
  - unfold store_ok. by rewrite Hn.
  - by eapply store_step_ok.
Qed.

Definition empty_store : Store := MkStore true "/srv/web" "" "" "boot-b" (Ok "boot-b") None ∅.
Definition sample_candidate : LiveRunV1 :=
  LiveRun "run-000000000000000a" LiveRunKindShellV1 "sh" "gen-1" "" LiveRunStatusUnsetV1 true "" [] "".

Lemma store_file_valid_witness :
  store_ok (Locked.AdmitLiveRunV1 sample_candidate true empty_store).1
  ∧ ids (runs_of (current (Locked.AdmitLiveRunV1 sample_candidate true empty_store).1))
    = ["run-000000000000000a"].
Proof.
  split; [|vm_compute; reflexivity].
  apply (store_file_valid sort_sample). eapply store_next; [by apply (store_new _ empty_store)|constructor].
Defined.

(** C35: while the deployment is guarded for terminal removal, or the lock is bound to a
    removal, or its identity checks fail, no operation that admits, activates or records
    work succeeds or changes anything. *)
Theorem guard_refuses_work st candidate marker id container ownership queue wait :
  ¬ writable st →
  (∃ msg, Locked.AdmitLiveRunV1 candidate wait st = (st, Err msg))
  ∧ (∃ msg, Locked.AdmitControlMarkerV1 marker wait st = (st, Err msg))
  ∧ (∃ msg, Locked.ActivateReadyLiveRunV1 id st = (st, Err msg))
  ∧ (∃ msg, Locked.ActivateReadyControlMarkerV1 id st = (st, Err msg))
  ∧ (∃ msg, Locked.RecordLiveRunContainerV1 id container st = (st, Err msg))
  ∧ (∃ msg, Locked.RecordControlledSessionOwnershipV1 ownership st = (st, Err msg))
  ∧ (∃ msg, Locked.CommitLiveRunQueueV1 queue st = (st, Err msg))
  ∧ (∃ msg, AcquireLiveRunLeaseV1 id st = (st, Err msg))
  ∧ (∃ msg, AcquireControlLeaseV1 id st = (st, Err msg)).
Proof.
  intros Hn. destruct (writable_refused st Hn) as [msg Hmsg].
  assert (∀ {A} (f : unit → SM A), ∃ msg, (requireWritableLocked ≫= f) st = (st, Err msg)) as Hrefuse.
  { intros A f. exists msg. by apply SM_bind_err. }
  assert (∀ {A B} (r : result A) (f : A → SM B), (∀ a, ∃ msg, f a st = (st, Err msg)) →
    ∃ msg, (check r ≫= f) st = (st, Err msg)) as Hcheck.
  { intros A B r f Hf. rewrite SM_bind_check. destruct r as [a|m]; [apply Hf|by exists m]. }
  split_and!; repeat (apply Hcheck; intros ?); try apply Hrefuse.
Qed.

Lemma guard_refuses_work_witness :
  ∃ msg, Locked.AdmitLiveRunV1 sample_candidate true
    (MkStore true "/srv/web" "removing" "" "boot-b" (Ok "boot-b") None ∅)
  = (MkStore true "/srv/web" "removing" "" "boot-b" (Ok "boot-b") None ∅, Err msg).
Proof.
  apply (guard_refuses_work _ sample_candidate (ControlMarker "" "" "" "" LiveRunStatusUnsetV1) "" ""
    (SessionOwnership "" "" "" "" "" "" "" "" "" (ContainerOwnership "" "" "" "" "" "")
       (ContainerOwnership "" "" "" "" "" "")) NewLiveRunQueueV1 true).
  by intros (_ & ? & _).
Defined.

(** C36: a locked removal applies the queue's removal to the file and never fails on a
    valid store; while the deployment is retired it also drops every entry that was not
    active before, so that nothing starts any more. *)
Theorem locked_removal_spec st id :
  store_ok st → retirable st →
  (ValidateLiveRunIDV1 id = Ok tt →
     locked_removal st id [LiveRunKindAppV1; LiveRunKindShellV1]
       (Locked.RemoveLiveRunV1 id st).1 (Locked.RemoveLiveRunV1 id st).2)
  ∧ (ValidateControlMarkerIDV1 id = Ok tt →
     locked_removal st id [LiveRunKindControlV1]
       (Locked.RemoveControlMarkerV1 id st).1 (Locked.RemoveControlMarkerV1 id st).2)
  ∧ (∀ kinds queue', removal (current st) id kinds queue' true → st_retirement st ≠ "" →
     Forall (has_status LiveRunStatusActiveV1)
       (runs_of (retired_queue (st_retirement st) (current st) queue'))).
Proof.
  intros Hok Hr. split_and!; [by apply locked_remove_run|by apply locked_remove_control_run|].
  intros kinds queue' Hrm Hne. destruct (removal_sublist _ _ _ _ Hrm) as [Hs Hp].
  apply (retired_queue_ok _ _ _ queue' (current_ok st Hok) (proj1 Hrm) Hs Hp); done.
Qed.

Lemma locked_removal_spec_witness :
  locked_removal sample_store "run-0000000000000002" [LiveRunKindAppV1; LiveRunKindShellV1]
    (Locked.RemoveLiveRunV1 "run-0000000000000002" sample_store).1
    (Locked.RemoveLiveRunV1 "run-0000000000000002" sample_store).2.
Proof.
  apply (locked_removal_spec sample_store "run-0000000000000002" sample_store_ok sample_retirable).
  vm_compute. reflexivity.
Defined.

(** Completing a run whose container cleanup failed removes the run and puts its
    container into the cleanup inventory, from which nothing is lost, in one commit that
    never fails; it is refused, without effect, exactly when the run names another
    container. *)
Theorem CompleteLiveRunWithContainerCleanupV1_spec sort_cleanup st id container :
  sorts sort_cleanup → store_ok st → retirable st →
  ValidateLiveRunIDV1 id = Ok tt → safeRecoveryIdentity container = true →
  id ∈ ids (runs_of (current st)) →
  match Locked.CompleteLiveRunWithContainerCleanupV1 sort_cleanup id container st with
  | (st', Ok done) => done = true ∧ completed st st' id container
  | (st', Err _) => st' = st
      ∧ ∃ run, run ∈ runs_of (current st) ∧ lr_ID run = id ∧ lr_Container run ≠ "" ∧ lr_Container run ≠ container
  end.
Proof. apply complete_run. Qed.

Lemma CompleteLiveRunWithContainerCleanupV1_spec_witness :
  containers (q_Cleanup (current (Locked.CompleteLiveRunWithContainerCleanupV1 sort_sample
    "run-0000000000000001" "web-1" sample_store).1)) = ["old"; "web-1"]
  ∧ store_ok (Locked.CompleteLiveRunWithContainerCleanupV1 sort_sample
    "run-0000000000000001" "web-1" sample_store).1.
Proof.
  split; [vm_compute; reflexivity|].
  assert (H := CompleteLiveRunWithContainerCleanupV1_spec sort_sample sample_store "run-0000000000000001" "web-1"
    sort_sample_sorts sample_store_ok sample_retirable eq_refl eq_refl).
  destruct (Locked.CompleteLiveRunWithContainerCleanupV1 _ _ _ _) as [st' [b|msg]] eqn:E.
  - apply H. by left.
  - exfalso. assert (match (Locked.CompleteLiveRunWithContainerCleanupV1 sort_sample "run-0000000000000001" "web-1"
      sample_store).2 with Ok _ => true | Err _ => false end = true) as Hok by (vm_compute; reflexivity).
    by rewrite E in Hok.
Defined.

(** Recording the ownership of a session, once its run is admitted as an active shell
    of this deployment's generation, inserts it in order, or merges it into the recorded
    one: the plan of resources is unchanged, and every identity either side has is in the
    result; it is refused without effect exactly when no such merge exists, and the
    validation of the file never rejects the result. *)
Theorem RecordControlledSessionOwnershipV1_spec st o :
  store_ok st → writable st → ValidateLiveRunIDV1 (so_LiveRunID o) = Ok tt →
  match Locked.admitted_ownership (st_directory st) (runs_of (current st)) o with
  | Err msg => Locked.RecordControlledSessionOwnershipV1 o st = (st, Err msg)
  | Ok o' =>
    (Forall (λ s, so_LiveRunID s ≠ so_LiveRunID o) (q_ControlledSessions (current st))
     ∧ ∃ l1 l2, q_ControlledSessions (current st) = l1 ++ l2 ∧ records st o (l1 ++ o' :: l2) o')
    ∨ ∃ l1 existing l2, q_ControlledSessions (current st) = l1 ++ existing :: l2
      ∧ so_LiveRunID existing = so_LiveRunID o
      ∧ ((∃ merged, session_merged existing o' merged ∧ records st o (l1 ++ merged :: l2) merged)
         ∨ (¬ ∃ merged, session_merged existing o' merged)
           ∧ ∃ msg, Locked.RecordControlledSessionOwnershipV1 o st = (st, Err msg))
  end.
Proof.
  intros Hok Hw Hid. assert (H := record_run st o Hok Hw Hid).
  destruct (Locked.admitted_ownership _ _ _) as [o'|]; [|done].
  destruct H as [H|(l1 & existing & l2 & Hs & He & H)]; [by left|right].
  exists l1, existing, l2. split; [done|]. split; [done|].
  destruct (Locked.mergeControlledSessionOwnershipV1 existing o') as [merged|msg] eqn:Hm.
  - left. exists merged. split; [by apply merge_iff|done].
  - right. split; [|done]. intros [merged Hc]. apply merge_iff in Hc. congruence.
Qed.

Definition sample_participant (role id : string) : ControlledSessionContainerOwnershipV1 :=
  ContainerOwnership role id (role +:+ "-1") "dep-1" "gen-1"
    "sha256:0123456789abcdef0123456789abcdef0123456789abcdef0123456789abcdef".
Definition sample_ownership (controller_id : string) : ControlledSessionOwnershipV1 :=
  SessionOwnership "run-000000000000000a" ""
    "session-0123456789abcdef0123456789abcdef0123456789abcdef0123456789abcdef"
    "unix:///var/run/docker.sock" "/srv/web" "/srv/work"
    "/srv/work/.reploy/sessions/run-000000000000000a" "" ""
    (sample_participant "controller" controller_id) (sample_participant "workload" "").
Definition sample_admitted : Store := (Locked.AdmitLiveRunV1 sample_candidate true empty_store).1.

Lemma RecordControlledSessionOwnershipV1_spec_witness :
  ∃ sessions recorded, records sample_admitted (sample_ownership "") sessions recorded.
Proof.
  assert (H := RecordControlledSessionOwnershipV1_spec sample_admitted (sample_ownership "")).
  destruct H as [(_ & l1 & l2 & _ & H)|(l1 & e & l2 & H & _)].
  - split; [|vm_compute; reflexivity]. apply valid_queue_iff. vm_compute. reflexivity.
  - vm_compute. split; [reflexivity|split; reflexivity].
  - vm_compute. reflexivity.
  - eexists _, _. exact H.
  - exfalso. vm_compute in H. by destruct l1.
Defined.
