(* ===== verification/Geometry.v ===== *)
(** * Identity-mapping geometry

    [internal/identitymapping/geometry.go] and the interval part of [host.go]:
    canonical forms of container-to-host ID mappings, and the union of a proposed
    mapping with protected reservations.

    A [uint32] field is a [Z]; the sums the code makes in [uint64] and the differences
    it makes in [int64] are exact, and the one narrowing conversion is written out.
    [slices.SortFunc] is not stable and container starts may be equal, so the sort of
    intervals is a parameter; spans are sorted by a total order, where every sort
    gives the same list. *)

From S2P Require Import Prelude.

Open Scope Z_scope.

Definition MaxUint32 : Z := 4294967295.
(** [uint32(x)]. *)
Definition to_uint32 (x : Z) : Z := x mod 4294967296.

Record Interval := MkInterval {
  ContainerStart : Z;
  HostStart : Z;
  Count : Z
}.
#[export] Instance Interval_eq_dec : EqDecision Interval.
Proof. solve_decision. Defined.

Record Geometry := MkGeometry {
  Profile : string;
  UIDs : list Interval;
  GIDs : list Interval
}.
#[export] Instance Geometry_eq_dec : EqDecision Geometry.
Proof. solve_decision. Defined.

Record span := MkSpan { start : Z; count : Z }.
#[export] Instance span_eq_dec : EqDecision span.
Proof. solve_decision. Defined.

Definition span_end (s : span) : Z := start s + count s.
Definition overlaps (s t : span) : bool := (start s <? span_end t) && (start t <? span_end s).

Definition ValidateInterval (value : Interval) : result unit :=
  reject_if ((Count value =? 0) || (MaxUint32 <? ContainerStart value + Count value)
             || (MaxUint32 <? HostStart value + Count value))
    "mapping interval must contain usable unsigned 32-bit IDs".

(** The comparison of [sortSpans] is not positive. *)
Definition span_le (a b : span) : Prop :=
  start a < start b ∨ start a = start b ∧ count a ≤ count b.
#[export] Instance span_le_dec a b : Decision (span_le a b).
Proof. unfold span_le. apply _. Defined.
Definition sortSpans (values : list span) : list span := merge_sort span_le values.

Definition check_span (interval : Interval) : result unit :=
  _ ← ValidateInterval interval;
  reject_if (HostStart interval =? 0) "mapping cannot include host root".
Definition span_of (interval : Interval) : span := MkSpan (HostStart interval) (Count interval).
Definition check_disjoint (previous : option span) (s : span) : result unit :=
  reject_if (match previous with Some p => overlaps p s | None => false end)
    "mapping host intervals overlap".
Definition hostSpans (values : list Interval) : result (list span) :=
  _ ← reject_if (bool_decide (values = [])) "mapping requires nonempty UID and GID intervals";
  _ ← check_each (λ _, check_span) None values;
  let result := sortSpans (map span_of values) in
  _ ← check_each check_disjoint None result;
  Ok result.

Definition containerEnd (value : Interval) : Z := ContainerStart value + Count value.
Definition bindingOffset (value : Interval) : Z := HostStart value - ContainerStart value.
Definition set_Count (count : Z) (value : Interval) : Interval :=
  MkInterval (ContainerStart value) (HostStart value) count.

(** The loop of [combineReservations], with the last interval of its result apart. *)
Fixpoint combine (last : Interval) (values : list Interval) : result (list Interval) :=
  match values with
  | [] => Ok [last]
  | value :: rest =>
    let overlaps := ContainerStart value <? containerEnd last in
    let adjacent := ContainerStart value =? containerEnd last in
    let sameBinding := bindingOffset value =? bindingOffset last in
    if overlaps && negb sameBinding then Err "established container-to-host assignment cannot change"
    else if sameBinding && (overlaps || adjacent) then
      let last_end := Z.max (containerEnd last) (containerEnd value) in
      combine (set_Count (to_uint32 (last_end - ContainerStart last)) last) rest
    else result ← combine value rest; Ok (last :: result)
  end.
Definition combineReservations (values : list Interval) : result (list Interval) :=
  match values with [] => Ok [] | first :: rest => combine first rest end.

Definition check_container (previous : option Interval) (interval : Interval) : result unit :=
  _ ← ValidateInterval interval;
  reject_if (match previous with
             | Some p => ContainerStart interval <? containerEnd p
             | None => false
             end) "container intervals overlap".

Section sorted.
(** [sortContainerIntervals]: by container start. *)
Context (sortContainerIntervals : list Interval → list Interval).

(** One pass of the loop of [ValidateGeometry], for the UIDs or the GIDs. *)
Definition validate_kind (profile : string) (values : list Interval) : result (list Interval) :=
  _ ← reject_if ((length values =? 0)%nat
                 || bool_decide (profile = "bounded") && negb (length values =? 1)%nat)
        "mapping requires nonempty intervals; bounded requires exactly one";
  let ordered := sortContainerIntervals values in
  _ ← check_each check_container None ordered;
  _ ← hostSpans ordered;
  combineReservations ordered.

Definition ValidateGeometry (value : Geometry) : result Geometry :=
  _ ← reject_if (negb (bool_decide (Profile value = "exact")) && negb (bool_decide (Profile value = "bounded")))
        "mapping profile must be exact or bounded";
  uids ← validate_kind (Profile value) (UIDs value);
  gids ← validate_kind (Profile value) (GIDs value);
  Ok (MkGeometry (Profile value) uids gids).

(** One pass of the loop of [RetainGeometry]. *)
Definition retain_kind (values protected : list Interval) : result (list Interval) :=
  reserved ← combineReservations (sortContainerIntervals (protected ++ values));
  _ ← hostSpans reserved;
  Ok reserved.

Definition RetainGeometry (proposed : Geometry) (retained : option Geometry) : result Geometry :=
  candidate ← wrap (ValidateGeometry proposed) "proposed mapping";
  match retained with
  | None => Ok candidate
  | Some retained =>
    previous ← wrap (ValidateGeometry retained) "retained mapping";
    _ ← reject_if (negb (bool_decide (Profile candidate = Profile previous)))
          "retained mapping profile cannot change";
    if bool_decide (Profile candidate = "bounded") then
      _ ← reject_if (negb (bool_decide (UIDs candidate = UIDs previous))
                     || negb (bool_decide (GIDs candidate = GIDs previous)))
            "retained bounded mapping geometry cannot change";
      Ok previous
    else
      uids ← wrap (retain_kind (UIDs candidate) (UIDs previous)) "UID retained mapping";
      gids ← wrap (retain_kind (GIDs candidate) (GIDs previous)) "GID retained mapping";
      Ok (MkGeometry (Profile candidate) uids gids)
  end.
End sorted.
