(* ===== verification/GeometryFacts.v ===== *)
(** * Identity-mapping geometry: canonical forms and retention

    A geometry means a relation from container IDs to host IDs.  Validation accepts
    exactly the partial injections made of usable intervals and gives the canonical
    list of intervals of the same relation; retention gives the union, exactly when it
    is still a partial injection. *)

From S2P Require Import Prelude Geometry.

Open Scope Z_scope.

(** ** Meaning *)

(** The fields are [uint32]. *)
Definition u32 (x : Z) : Prop := 0 ≤ x ≤ MaxUint32.
Definition wf (i : Interval) : Prop := u32 (ContainerStart i) ∧ u32 (HostStart i) ∧ u32 (Count i).

Definition binds (i : Interval) (c h : Z) : Prop :=
  ContainerStart i ≤ c < containerEnd i ∧ h = c + bindingOffset i.
Definition maps (l : list Interval) (c h : Z) : Prop := ∃ i, i ∈ l ∧ binds i c h.
Definition functional (l : list Interval) : Prop := ∀ c h h', maps l c h → maps l c h' → h = h'.
Definition injective (l : list Interval) : Prop := ∀ c c' h, maps l c h → maps l c' h → c = c'.

Definition usable (i : Interval) : Prop :=
  0 ≤ ContainerStart i ∧ 0 ≤ HostStart i ∧ 0 < Count i
  ∧ containerEnd i ≤ MaxUint32 ∧ HostStart i + Count i ≤ MaxUint32.

Lemma ValidateInterval_iff i : wf i → ValidateInterval i = Ok tt ↔ usable i.
Proof.
  intros (Hc & Hh & Hn). unfold ValidateInterval, usable, containerEnd, u32 in *.
  rewrite reject_if_ok. go_bool. lia.
Qed.

Lemma usable_wf i : usable i → wf i.
Proof. unfold usable, wf, u32, containerEnd. lia. Qed.

(** ** Canonical lists *)

(** [b] starts after [a] and does not continue it. *)
Definition apart (a b : Interval) : Prop :=
  containerEnd a < ContainerStart b
  ∨ containerEnd a = ContainerStart b ∧ bindingOffset a ≠ bindingOffset b.
Definition canonical (l : list Interval) : Prop := Forall usable l ∧ Sorted apart l.
(** [b] starts after the end of [a]. *)
Definition after (a b : Interval) : Prop := containerEnd a ≤ ContainerStart b.

Lemma maps_cons i l c h : maps (i :: l) c h ↔ binds i c h ∨ maps l c h.
Proof. unfold maps. setoid_rewrite elem_of_cons. naive_solver. Qed.
Lemma maps_nil c h : ¬ maps [] c h.
Proof. by intros (i & ?%elem_of_nil & _). Qed.
Lemma maps_app l k c h : maps (l ++ k) c h ↔ maps l c h ∨ maps k c h.
Proof. unfold maps. setoid_rewrite elem_of_app. naive_solver. Qed.
Lemma maps_perm l k c h : l ≡ₚ k → maps l c h ↔ maps k c h.
Proof. intros Hp. unfold maps. by setoid_rewrite Hp. Qed.

Lemma Sorted_after_strong l : Forall usable l → Sorted after l → StronglySorted after l.
Proof.
  induction l as [|a l IH]; [by constructor|]. intros [Ha Hu]%Forall_cons [Hs Hh]%Sorted_inv.
  specialize (IH Hu Hs). constructor; [done|].
  destruct Hh as [|b l' Hab]; [done|]. apply StronglySorted_cons in IH as [Hb _].
  apply Forall_cons in Hu as [Hb' _]. constructor; [done|].
  eapply Forall_impl; [exact Hb|]. unfold after, usable, containerEnd in *. simpl. intros x. lia.
Qed.

Lemma canonical_after l : canonical l → StronglySorted after l.
Proof.
  intros [Hu Hs]. apply Sorted_after_strong; [done|].
  induction Hs as [|a l Hs IH Hh]; [constructor|]. apply Forall_cons in Hu as [_ Hu].
  constructor; [by apply IH|]. destruct Hh as [|b l' Hab]; constructor. unfold after.
  destruct Hab as [?|[? _]]; lia.
Qed.

(** An ordered list is functional: its intervals are disjoint. *)
Lemma after_functional l : StronglySorted after l → functional l.
Proof.
  induction l as [|a l IH]; [by intros _ c h h' ?%maps_nil|]. intros [Ha Hs]%StronglySorted_cons c h h'.
  rewrite !maps_cons. rewrite Forall_forall in Ha.
  assert (∀ h1, binds a c h1 → ∀ h2, ¬ maps l c h2) as Hx.
  { intros h1 [Hc _] h2 (i & Hi & [Hci _]). specialize (Ha i Hi). unfold after in Ha. lia. }
  intros [H1|H1] [H2|H2].
  - destruct H1, H2. lia.
  - by destruct (Hx h H1 h').
  - by destruct (Hx h' H2 h).
  - by eapply IH.
Qed.

(** ** Combining reservations *)

Lemma to_uint32_small x : 0 ≤ x ≤ MaxUint32 → to_uint32 x = x.
Proof. unfold to_uint32, MaxUint32. intros. apply Z.mod_small. lia. Qed.

Lemma combine_spec values last :
  Forall usable (last :: values) →
  Sorted (λ a b, ContainerStart a ≤ ContainerStart b) (last :: values) →
  match combine last values with
  | Ok out => (∀ c h, maps out c h ↔ maps (last :: values) c h) ∧ canonical out
      ∧ ∃ first rest, out = first :: rest ∧ ContainerStart first = ContainerStart last
        ∧ bindingOffset first = bindingOffset last
  | Err _ => ¬ functional (last :: values)
  end.
Proof.
  revert last. induction values as [|v rest IH]; intros last; simpl.
  { intros Hu _. split; [done|]. split; [by split; [|by constructor]|]. by exists last, []. }
  intros [Hl [Hv Hr]%Forall_cons]%Forall_cons [[Hs Hh]%Sorted_inv Hlv%HdRel_inv]%Sorted_inv.
  destruct (_ && negb _) eqn:Hconflict.
  { go_bool. intros Hf. assert (ContainerStart v + bindingOffset last = ContainerStart v + bindingOffset v); [|lia].
    apply (Hf (ContainerStart v)); apply maps_cons; [left|right; apply maps_cons; left];
      unfold binds, usable, containerEnd in *; lia. }
  destruct (_ && (_ || _)) eqn:Hmerge.
  - go_bool. destruct Hmerge as [Hsame Hnear].
    set (m := set_Count _ last).
    assert (ContainerStart m = ContainerStart last ∧ HostStart m = HostStart last
            ∧ Count m = Z.max (containerEnd last) (containerEnd v) - ContainerStart last) as (Hm1 & Hm2 & Hm3).
    { split; [done|]. split; [done|]. simpl. apply to_uint32_small.
      unfold usable, containerEnd in *. lia. }
    assert (usable m) as Hm.
    { unfold usable, containerEnd, bindingOffset in *. rewrite Hm1, Hm2, Hm3. lia. }
    assert (∀ c h, binds m c h ↔ binds last c h ∨ binds v c h) as Hb.
    { intros c h. unfold binds, usable, containerEnd, bindingOffset in *. rewrite Hm1, Hm2, Hm3. lia. }
    assert (∀ c h, maps (m :: rest) c h ↔ maps (last :: v :: rest) c h) as Hmaps.
    { intros c h. rewrite !maps_cons, Hb. tauto. }
    specialize (IH m). destruct (combine m rest) as [out|].
    + destruct IH as (H1 & H2 & first & tl & -> & H3 & H4); [by constructor| |].
      { constructor; [done|]. destruct Hh as [|b l Hvb]; constructor. simpl in *. lia. }
      split; [intros c h; by rewrite H1, Hmaps|]. split; [done|]. exists first, tl.
      unfold bindingOffset in *. split_and!; [done|lia|lia].
    + intros Hf. apply IH; [by constructor| |].
      { constructor; [done|]. destruct Hh as [|b l Hvb]; constructor. simpl in *. lia. }
      intros c h h' ??. apply (Hf c); by apply Hmaps.
  - specialize (IH v). destruct (combine v rest) as [out|]; simpl.
    + destruct IH as (H1 & [H2 H2'] & first & tl & -> & H3 & H4); [by constructor|by constructor|].
      split; [intros c h; rewrite !(maps_cons last), H1; done|].
      split; [|by exists last, (first :: tl)]. split; [by constructor|]. constructor; [done|].
      constructor. unfold apart. go_bool. lia.
    + intros Hf. apply IH; [by constructor|by constructor|]. intros c h h' ??.
      apply (Hf c); apply maps_cons; by right.
Qed.

(** ** A relation has one canonical list *)

Lemma binds_start i : usable i → binds i (ContainerStart i) (HostStart i).
Proof. unfold usable, binds, containerEnd, bindingOffset. lia. Qed.

Lemma maps_from a l c h : usable a → StronglySorted after (a :: l) → maps (a :: l) c h → ContainerStart a ≤ c.
Proof.
  intros Ha [Hs _]%StronglySorted_cons [[Hc _]|(i & Hi & [Hc _])]%maps_cons; [lia|].
  rewrite Forall_forall in Hs. specialize (Hs i Hi). unfold after, usable, containerEnd in *. lia.
Qed.

Lemma canonical_cons a l : canonical (a :: l) → usable a ∧ canonical l ∧ StronglySorted after (a :: l)
  ∧ ∀ h, maps l (containerEnd a) h → h ≠ containerEnd a + bindingOffset a.
Proof.
  intros Hc. assert (Hafter := canonical_after _ Hc).
  destruct Hc as [[Ha Hu]%Forall_cons [Hs Hh]%Sorted_inv].
  split_and!; [done|by split|done|]. intros h Hm. destruct Hh as [|b l' Hab]; [by apply maps_nil in Hm|].
  apply Forall_cons in Hu as [Hb _]. apply StronglySorted_cons in Hafter as [_ Hl].
  assert (Hge := maps_from b l' _ _ Hb Hl Hm).
  destruct Hab as [Hlt|[Heq Hne]]; [lia|]. assert (h = containerEnd a + bindingOffset b) as ->; [|lia].
  apply (after_functional _ Hl (containerEnd a)); [done|]. apply maps_cons. left.
  unfold binds, usable, containerEnd in *. lia.
Qed.

Lemma canonical_head a l b k :
  canonical (a :: l) → canonical (b :: k) → (∀ c h, maps (a :: l) c h → maps (b :: k) c h) →
  ContainerStart b ≤ ContainerStart a.
Proof.
  intros (Ha & _ & Hl & _)%canonical_cons (Hb & _ & Hk & _)%canonical_cons Hm.
  eapply maps_from; [exact Hb|exact Hk|]. apply Hm, maps_cons. left. by apply binds_start.
Qed.

(** The head of one list does not reach beyond the head of the other. *)
Lemma canonical_count a l b k :
  canonical (a :: l) → canonical (b :: k) → (∀ c h, maps (b :: k) c h → maps (a :: l) c h) →
  ContainerStart a = ContainerStart b → HostStart a = HostStart b → Count b ≤ Count a.
Proof.
  intros (Ha & _ & _ & Hend)%canonical_cons (Hb & _ & _ & _)%canonical_cons Hm Hc Hh.
  destruct (decide (Count b ≤ Count a)) as [|Hlt]; [done|]. exfalso.
  assert (binds b (containerEnd a) (containerEnd a + bindingOffset b)) as Hbind.
  { unfold binds, usable, containerEnd in *. lia. }
  assert (maps (a :: l) (containerEnd a) (containerEnd a + bindingOffset b)) as [Hx|Hx]%maps_cons.
  { apply Hm, maps_cons. by left. }
  - unfold binds in Hx. lia.
  - apply (Hend _ Hx). unfold bindingOffset. lia.
Qed.

Lemma canonical_unique l k : canonical l → canonical k → (∀ c h, maps l c h ↔ maps k c h) → l = k.
Proof.
  revert k. induction l as [|a l IH]; intros [|b k] Hl Hk Hm; [done| | |].
  - apply canonical_cons in Hk as (Hb & _). destruct (maps_nil (ContainerStart b) (HostStart b)).
    apply Hm, maps_cons. left. by apply binds_start.
  - apply canonical_cons in Hl as (Ha & _). destruct (maps_nil (ContainerStart a) (HostStart a)).
    apply Hm, maps_cons. left. by apply binds_start.
  - assert (ContainerStart a = ContainerStart b) as Hc.
    { apply Z.le_antisymm; eapply canonical_head; eauto; intros; by apply Hm. }
    destruct (canonical_cons _ _ Hl) as (Ha & Hl' & Hal & _).
    destruct (canonical_cons _ _ Hk) as (Hb & Hk' & Hbk & _).
    assert (HostStart a = HostStart b) as Hh.
    { apply (after_functional _ Hbk (ContainerStart b)); [|apply maps_cons; left; by apply binds_start].
      apply Hm, maps_cons. left. rewrite <-Hc. by apply binds_start. }
    assert (Count a = Count b) as Hn.
    { apply Z.le_antisymm; eapply canonical_count; eauto; intros; by apply Hm. }
    assert (a = b) as <- by (destruct a, b; simpl in *; congruence). f_equal.
    apply IH; [done|done|]. intros c h. specialize (Hm c h). rewrite !maps_cons in Hm.
    assert (∀ m, StronglySorted after (a :: m) → maps m c h → ¬ binds a c h) as Hx.
    { intros m [Hs _]%StronglySorted_cons (i & Hi & [Hci _]) [Hca _]. rewrite Forall_forall in Hs.
      specialize (Hs i Hi). unfold after in Hs. lia. }
    specialize (Hx l Hal) as Hx1. specialize (Hx k Hbk) as Hx2. tauto.
Qed.

(** ** Host spans *)

Definition disjoint_spans (s t : span) : Prop := span_end s ≤ start t ∨ span_end t ≤ start s.
#[export] Instance disjoint_spans_symmetric : Symmetric disjoint_spans.
Proof. intros s t [?|?]; [by right|by left]. Qed.

(** Being pairwise related by a symmetric relation does not depend on the order. *)
Lemma pairwise_perm {A} (R : A → A → Prop) `{!Symmetric R} l k :
  l ≡ₚ k → StronglySorted R l → StronglySorted R k.
Proof.
  induction 1 as [|x l k Hp IH|x y l|l k m _ IH1 _ IH2]; [done| | |auto].
  - rewrite !StronglySorted_cons. intros [Hx Hs]. split; [by rewrite <-Hp|auto].
  - rewrite !StronglySorted_cons, !Forall_cons. intros [[Hxy Hy] [Hx Hs]]. by split_and!.
Qed.

Lemma pairwise_elem {A} (R : A → A → Prop) `{!Symmetric R} l x y :
  StronglySorted R l → x ∈ l → y ∈ l → x ≠ y → R x y.
Proof.
  induction l as [|z l IH]; [by intros _ ?%elem_of_nil|]. intros [Hz Hs]%StronglySorted_cons.
  rewrite Forall_forall in Hz. intros [->|Hx]%elem_of_cons [->|Hy]%elem_of_cons Hne; [done| | |auto].
  - by apply Hz.
  - symmetry. by apply Hz.
Qed.

#[export] Instance span_le_total : Total span_le.
Proof. intros a b. unfold span_le. lia. Qed.
#[export] Instance span_le_transitive : Transitive span_le.
Proof. intros a b c. unfold span_le. lia. Qed.

Lemma sorted_spans_iff l :
  Forall (λ s, 0 < count s) l → StronglySorted span_le l →
  check_each check_disjoint None l = Ok tt ↔ StronglySorted disjoint_spans l.
Proof.
  intros Hpos Hle. rewrite (check_each_spec _ (λ _, True) (λ s t, overlaps s t = false)).
  2: { intros [p|] s; unfold check_disjoint; rewrite reject_if_ok; naive_solver. }
  transitivity (Sorted (λ s t, overlaps s t = false) l).
  { split; [by intros (_ & ? & _)|]. intros Hs. split; [by apply Forall_true|]. by split. }
  induction Hle as [|s l Hle IH Hs]; [by split; constructor|].
  apply Forall_cons in Hpos as [Hps Hpos]. specialize (IH Hpos). rewrite StronglySorted_cons, <-IH.
  clear IH. split.
  - intros [Hl Hh]%Sorted_inv. split; [|done]. destruct Hh as [|t l Hst]; [done|].
    apply StronglySorted_cons in Hle as [Ht _]. apply Forall_cons in Hs as [Hst' Hs].
    apply Forall_cons in Hpos as [Hpt _].
    assert (span_end s ≤ start t) as Hend.
    { unfold overlaps, span_le, span_end in *. go_bool. lia. }
    constructor; [by left|]. eapply Forall_impl; [exact Ht|]. intros u Hu. left.
    unfold span_le in Hu. lia.
  - intros [Hd Hl]. constructor; [done|]. destruct l as [|t l]; constructor.
    apply Forall_cons in Hd as [Hd _]. apply Forall_cons in Hs as [Hst _]. apply Forall_cons in Hpos as [Hpt _].
    unfold disjoint_spans, overlaps, span_le, span_end in *. go_bool. lia.
Qed.

Definition disjoint_containers (a b : Interval) : Prop := after a b ∨ after b a.
#[export] Instance disjoint_containers_symmetric : Symmetric disjoint_containers.
Proof. intros a b [?|?]; [by right|by left]. Qed.
Definition disjoint_hosts (a b : Interval) : Prop := disjoint_spans (span_of a) (span_of b).
#[export] Instance disjoint_hosts_symmetric : Symmetric disjoint_hosts.
Proof. intros a b ?. by apply disjoint_spans_symmetric. Qed.

Lemma StronglySorted_fmap {A B} (f : A → B) (R : B → B → Prop) l :
  StronglySorted R (map f l) ↔ StronglySorted (λ x y, R (f x) (f y)) l.
Proof.
  induction l as [|x l IH]; [by split; constructor|]. simpl. rewrite !StronglySorted_cons, IH.
  by rewrite Forall_fmap.
Qed.

(** Disjoint containers and disjoint hosts make a partial injection. *)
Lemma disjoint_injective l :
  Forall usable l → StronglySorted disjoint_containers l →
  StronglySorted disjoint_hosts l ↔ injective l.
Proof.
  intros Hu Hc. split.
  - intros Hh c c' h (a & Ha & [H1 H2]) (b & Hb & [H3 H4]). destruct (decide (a = b)) as [->|Hne].
    + lia.
    + assert (Hd := pairwise_elem _ _ _ _ Hh Ha Hb Hne).
      unfold disjoint_hosts, disjoint_spans, span_of, span_end, containerEnd, bindingOffset in *. simpl in Hd. lia.
  - intros Hi. induction Hc as [|a l Hc IH Ha]; [constructor|]. apply Forall_cons in Hu as [Hau Hu].
    constructor.
    + apply IH; [done|]. intros c c' h ??. apply (Hi c c' h); apply maps_cons; by right.
    + rewrite Forall_forall in *. intros b Hb. specialize (Ha b Hb). specialize (Hu b Hb). clear IH Hc.
      destruct (decide (disjoint_hosts a b)) as [|Hn]; [done|exfalso].
      set (h := Z.max (HostStart a) (HostStart b)).
      assert (binds a (h - bindingOffset a) h ∧ binds b (h - bindingOffset b) h) as [Hba Hbb].
      { unfold binds, h, disjoint_hosts, disjoint_spans, span_of, span_end, usable, containerEnd, bindingOffset in *.
        simpl in Hn. lia. }
      assert (h - bindingOffset a = h - bindingOffset b) as He.
      { apply (Hi _ _ h); apply maps_cons; [by left|right]. by exists b. }
      destruct Hba as [Hba _], Hbb as [Hbb _]. rewrite He in Hba.
      unfold disjoint_containers, after in Ha. lia.
Qed.

(** ** Validation of one kind *)

Definition no_root (l : list Interval) : Prop := Forall (λ i, HostStart i ≠ 0) l.

Lemma check_spans l :
  Forall wf l → check_each (λ _, check_span) None l = Ok tt ↔ Forall usable l ∧ no_root l.
Proof.
  intros Hw. rewrite check_all. unfold no_root. rewrite <-Forall_and, !Forall_forall.
  rewrite Forall_forall in Hw. apply forall_proper. intros i. unfold check_span. split.
  - intros H Hi. specialize (H Hi). go_ok. go_bool. split; [|done]. by apply ValidateInterval_iff; [apply Hw|].
  - intros H Hi. destruct (H Hi) as [Hu Hr]. rewrite (proj2 (ValidateInterval_iff i (Hw i Hi)) Hu), bind_Ok.
    apply reject_if_ok. by go_bool.
Qed.

Lemma sorted_spans l : StronglySorted span_le (sortSpans l) ∧ sortSpans l ≡ₚ l.
Proof.
  unfold sortSpans. split; [|apply merge_sort_Permutation].
  apply Sorted_StronglySorted; [apply _|]. apply (Sorted_merge_sort _).
Qed.

Lemma hostSpans_iff l :
  Forall wf l →
  is_ok (hostSpans l) = true ↔
  l ≠ [] ∧ Forall usable l ∧ no_root l ∧ StronglySorted disjoint_hosts l.
Proof.
  intros Hw. rewrite is_ok_true. unfold hostSpans.
  destruct (sorted_spans (map span_of l)) as [Hs Hp].
  assert (Forall usable l → check_each check_disjoint None (sortSpans (map span_of l)) = Ok tt
          ↔ StronglySorted disjoint_hosts l) as Hdisjoint.
  { intros Hu. rewrite sorted_spans_iff; [|rewrite Hp; apply Forall_fmap|done].
    - rewrite <-(StronglySorted_fmap span_of disjoint_spans l).
      split; apply pairwise_perm; try apply _; [done|by symmetry].
    - eapply Forall_impl; [exact Hu|]. unfold usable. simpl. intros i. lia. }
  split.
  - intros (spans & H). go_ok. go_bool. apply (check_spans l Hw) in H1 as [Hu Hr].
    split_and!; [done|done|done|by apply Hdisjoint].
  - intros (Hne & Hu & Hr & Hd). rewrite (bool_decide_false _ Hne). cbn [reject_if]. rewrite bind_Ok.
    rewrite (proj2 (check_spans l Hw) (conj Hu Hr)), bind_Ok. cbv zeta.
    rewrite (proj2 (Hdisjoint Hu) Hd), bind_Ok. by eexists.
Qed.

(** The documented behaviour of the sort by container start. *)
Definition sorts (sort : list Interval → list Interval) : Prop :=
  ∀ l, sort l ≡ₚ l ∧ Sorted (λ a b, ContainerStart a ≤ ContainerStart b) (sort l).

Lemma check_containers l :
  Forall wf l → check_each check_container None l = Ok tt ↔ Forall usable l ∧ StronglySorted after l.
Proof.
  intros Hw. rewrite (check_each_spec _ (λ i, ValidateInterval i = Ok tt) after).
  2: { intros [p|] i; unfold check_container; rewrite bind_ok.
       - split; [intros ([] & ? & H)|intros [? H]].
         + go_ok. go_bool. split; [done|]. intros y [= ->]. done.
         + exists tt. split; [done|]. apply reject_if_ok. go_bool. by apply H.
       - split; [intros ([] & ? & _)|intros [? _]; exists tt]; by split. }
  assert (Forall (λ i, ValidateInterval i = Ok tt) l ↔ Forall usable l) as Hv.
  { rewrite !Forall_forall in *. apply forall_proper. intros i. split; intros H Hi; specialize (H Hi);
      by apply ValidateInterval_iff; [apply Hw|]. }
  rewrite Hv. split.
  - intros (Hu & Hs & _). split; [done|]. by apply Sorted_after_strong.
  - intros [Hu Hs]. split; [done|]. split; [by apply StronglySorted_Sorted|done].
Qed.

(** The inputs of one kind that validation accepts. *)
Record admissible (profile : string) (l : list Interval) : Prop := {
  adm_nonempty : l ≠ [];
  adm_bounded : profile = "bounded" → length l = 1%nat;
  adm_usable : Forall usable l;
  adm_containers : StronglySorted disjoint_containers l;
  adm_hosts : StronglySorted disjoint_hosts l;
  adm_root : no_root l
}.

Lemma sorted_after l :
  Forall usable l → StronglySorted disjoint_containers l →
  Sorted (λ a b, ContainerStart a ≤ ContainerStart b) l → StronglySorted after l.
Proof.
  intros Hu Hd Hs. apply Sorted_after_strong; [done|].
  induction Hs as [|a l Hs IH Hh]; [constructor|]. apply Forall_cons in Hu as [Ha Hu].
  apply StronglySorted_cons in Hd as [Hx Hd]. constructor; [by apply IH|].
  destruct Hh as [|b l' Hab]; constructor. apply Forall_cons in Hx as [Hx _]. apply Forall_cons in Hu as [Hb _].
  unfold disjoint_containers, after, usable, containerEnd in *. lia.
Qed.

(** Lists that mean the same relation. *)
Definition same_maps (l k : list Interval) : Prop := ∀ c h, maps l c h ↔ maps k c h.
#[export] Instance same_maps_equivalence : Equivalence same_maps.
Proof.
  split; [by intros l c h|by intros l k H c h; symmetry; apply H|].
  intros l k m H1 H2 c h. etrans; [apply H1|apply H2].
Qed.
#[export] Instance maps_proper : Proper (same_maps ==> (=) ==> (=) ==> iff) maps.
Proof. intros l k H c _ <- h _ <-. apply H. Qed.
#[export] Instance functional_proper : Proper (same_maps ==> iff) functional.
Proof. intros l k H. unfold functional. by setoid_rewrite (H _ _). Qed.
#[export] Instance injective_proper : Proper (same_maps ==> iff) injective.
Proof. intros l k H. unfold injective. by setoid_rewrite (H _ _). Qed.
#[export] Instance perm_same_maps : subrelation (≡ₚ) same_maps.
Proof. intros l k Hp c h. by apply maps_perm. Qed.

Lemma combine_all l :
  Forall usable l → Sorted (λ a b, ContainerStart a ≤ ContainerStart b) l →
  match combineReservations l with
  | Ok out => same_maps out l ∧ canonical out
  | Err _ => ¬ functional l
  end.
Proof.
  destruct l as [|a l]; simpl; [split; [done|]; split; constructor|]. intros Hu Hs.
  assert (H := combine_spec l a Hu Hs). destruct (combine a l); [|done]. by destruct H as (? & ? & _).
Qed.

Lemma validate_kind_spec sort profile l :
  sorts sort → Forall wf l →
  match validate_kind sort profile l with
  | Ok r => admissible profile l ∧ canonical r ∧ same_maps r l
  | Err _ => ¬ admissible profile l
  end.
Proof.
  intros Hsort Hw. destruct (Hsort l) as [Hp Hs]. unfold validate_kind.
  assert (Forall wf (sort l)) as Hwo by (by rewrite Hp).
  destruct (_ || _) eqn:Hr; cbn [reject_if].
  { intros [Hne Hb _ _ _ _]. go_bool. destruct Hr as [Hr|[Hpb Hr]].
    - apply Nat.eqb_eq in Hr. by destruct l.
    - apply Nat.eqb_neq in Hr. by apply Hr, Hb. }
  rewrite bind_Ok. assert (Hcheck := check_containers (sort l) Hwo).
  cbv zeta. destruct (check_each check_container None (sort l)) as [[]|].
  2: { intros [_ _ Hu Hd _ _]. assert (Forall usable (sort l)) as Huo by (by rewrite Hp).
       discriminate (proj2 Hcheck). split; [done|]. apply sorted_after; [done| |done].
       eapply pairwise_perm; [apply _|by symmetry in Hp; exact Hp|done]. }
  destruct (proj1 Hcheck eq_refl) as [Huo Hafter]. rewrite bind_Ok.
  assert (Forall usable l) as Hu by (by rewrite <-Hp).
  assert (StronglySorted disjoint_containers l) as Hd.
  { eapply pairwise_perm; [apply _|exact Hp|]. eapply StronglySorted_impl; [|exact Hafter]. by left. }
  assert (Hspans := hostSpans_iff (sort l) Hwo).
  destruct (hostSpans (sort l)) as [spans|]; cbn [is_ok] in *.
  2: { intros [Hne _ _ _ Hh Hrt]. discriminate (proj2 Hspans). split_and!; [|done|unfold no_root; by rewrite Hp|].
       - intros He. rewrite He in Hp. by apply Permutation_nil_l in Hp.
       - eapply pairwise_perm; [apply _|by symmetry in Hp; exact Hp|done]. }
  destruct (proj1 Hspans eq_refl) as (Hne & _ & Hrt & Hh). rewrite bind_Ok.
  assert (Hc := combine_all _ Huo Hs).
  destruct (combineReservations (sort l)) as [r|]; [|by destruct Hc; apply after_functional].
  destruct Hc as [Hm Hcan]. split_and!; [constructor; [| |done|done| |]|done|].
  - intros ->. by apply Permutation_nil_r in Hp.
  - intros Hb. go_bool. destruct Hr as [_ [Hr|Hr]]; [done|]. by apply Nat.eqb_eq in Hr.
  - by eapply pairwise_perm; [apply _|exact Hp|].
  - unfold no_root in *. by rewrite <-Hp.
  - etrans; [exact Hm|by apply perm_same_maps].
Qed.

(** ** A valid geometry and its normal form *)

Lemma maps_root l : Forall usable l → no_root l ↔ ∀ c, ¬ maps l c 0.
Proof.
  intros Hu. unfold no_root. rewrite Forall_forall. rewrite Forall_forall in Hu. split.
  - intros Hr c (i & Hi & [Hc Hh]). specialize (Hr i Hi). specialize (Hu i Hi).
    unfold usable, containerEnd, bindingOffset in *. lia.
  - intros H i Hi Hz. apply (H (ContainerStart i)). exists i. split; [done|].
    rewrite <-Hz. apply binds_start. by apply Hu.
Qed.

Lemma canonical_disjoint l : canonical l → StronglySorted disjoint_containers l.
Proof. intros Hc. eapply StronglySorted_impl; [|by apply canonical_after]. by left. Qed.

Lemma canonical_sorted l : canonical l → StronglySorted after l ∧ Sorted (λ a b, ContainerStart a ≤ ContainerStart b) l.
Proof.
  intros Hc. assert (H := canonical_after l Hc). split; [done|]. destruct Hc as [Hu _].
  apply StronglySorted_Sorted. induction H as [|a l _ IH Ha]; [constructor|].
  apply Forall_cons in Hu as [Hua Hu]. constructor; [by apply IH|].
  eapply Forall_impl; [exact Ha|]. unfold after, usable, containerEnd in *. intros b. lia.
Qed.

(** The normal form of an accepted list is accepted. *)
Lemma canonical_admissible profile l r :
  admissible profile l → canonical r → same_maps r l → admissible profile r.
Proof.
  intros [Hne Hb Hu Hd Hh Hr] Hc Hm. constructor.
  - intros ->. destruct l as [|i l]; [done|]. apply Forall_cons in Hu as [Hi _].
    apply (maps_nil (ContainerStart i) (HostStart i)), Hm, maps_cons. left. by apply binds_start.
  - intros Hp. specialize (Hb Hp). destruct l as [|i [|]]; [done| |done].
    assert (r = [i]) as ->; [|done]. apply canonical_unique; [done| |done]. split; [done|by constructor].
  - apply Hc.
  - by apply canonical_disjoint.
  - apply disjoint_injective; [apply Hc|by apply canonical_disjoint|]. rewrite Hm.
    by apply disjoint_injective.
  - apply maps_root; [apply Hc|]. intros c. rewrite (Hm c 0). by apply maps_root.
Qed.

Definition wf_geometry (g : Geometry) : Prop := Forall wf (UIDs g) ∧ Forall wf (GIDs g).
(** What validation accepts. *)
Definition valid_geometry (g : Geometry) : Prop :=
  (Profile g = "exact" ∨ Profile g = "bounded")
  ∧ admissible (Profile g) (UIDs g) ∧ admissible (Profile g) (GIDs g).
(** Geometries with the same profile and the same assignments. *)
Definition same_geometry (g k : Geometry) : Prop :=
  Profile g = Profile k ∧ same_maps (UIDs g) (UIDs k) ∧ same_maps (GIDs g) (GIDs k).
Definition canonical_geometry (g : Geometry) : Prop := canonical (UIDs g) ∧ canonical (GIDs g).

#[export] Instance same_geometry_equivalence : Equivalence same_geometry.
Proof.
  split.
  - intros g. by split_and!.
  - intros g k (H1 & H2 & H3). by split_and!.
  - intros g k m (H1 & H2 & H3) (H4 & H5 & H6). split_and!; etrans; eauto.
Qed.

Lemma validate_run sort g :
  sorts sort → wf_geometry g →
  match ValidateGeometry sort g with
  | Ok r => valid_geometry g ∧ canonical_geometry r ∧ same_geometry r g
  | Err _ => ¬ valid_geometry g
  end.
Proof.
  intros Hsort [Hwu Hwg]. unfold ValidateGeometry.
  destruct (negb _ && negb _) eqn:Hprofile; cbn [reject_if].
  { intros [Hp _]. go_bool. naive_solver. }
  rewrite bind_Ok. assert (Hu := validate_kind_spec sort (Profile g) _ Hsort Hwu).
  assert (Hg := validate_kind_spec sort (Profile g) _ Hsort Hwg).
  destruct (validate_kind sort _ (UIDs g)) as [u|]; [rewrite bind_Ok|by intros (_ & H & _)].
  destruct (validate_kind sort _ (GIDs g)) as [v|]; [rewrite bind_Ok|by intros (_ & _ & H)].
  destruct Hu as (Hu1 & Hu2 & Hu3), Hg as (Hg1 & Hg2 & Hg3).
  split; [|by split_and!]. split_and!; [|done|done]. go_bool. naive_solver.
Qed.

Lemma canonical_wf l : canonical l → Forall wf l.
Proof. intros [Hu _]. eapply Forall_impl; [exact Hu|]. apply usable_wf. Qed.

Lemma geometry_eq g k : canonical_geometry g → canonical_geometry k → same_geometry g k → g = k.
Proof.
  intros [Hu Hg] [Hu' Hg'] (Hp & Hmu & Hmg). destruct g as [p u v], k as [p' u' v']. simpl in *. subst.
  f_equal; by apply canonical_unique.
Qed.

Lemma valid_normal g r :
  valid_geometry g → canonical_geometry r → same_geometry r g → valid_geometry r.
Proof.
  intros (Hp & Hu & Hg) [Hcu Hcg] (Hpr & Hmu & Hmg). unfold valid_geometry. rewrite Hpr.
  split_and!; [done|by apply (canonical_admissible _ (UIDs g))|by apply (canonical_admissible _ (GIDs g))].
Qed.

(** Validation of a canonical valid geometry returns it. *)
Lemma validate_normal sort g :
  sorts sort → valid_geometry g → canonical_geometry g → ValidateGeometry sort g = Ok g.
Proof.
  intros Hsort Hv Hc. assert (wf_geometry g) as Hw by (split; apply canonical_wf; apply Hc).
  assert (H := validate_run sort g Hsort Hw). destruct (ValidateGeometry sort g) as [r|]; [|done].
  destruct H as (_ & Hr & Hs). f_equal. by apply geometry_eq.
Qed.

(** ** Retention *)

Lemma canonical_injective l : canonical l → StronglySorted disjoint_hosts l ↔ injective l.
Proof. intros Hc. apply disjoint_injective; [apply Hc|by apply canonical_disjoint]. Qed.

Lemma retain_kind_spec sort values protected :
  sorts sort → canonical values → canonical protected → no_root values → no_root protected →
  protected ≠ [] →
  match retain_kind sort values protected with
  | Ok r => functional (protected ++ values) ∧ injective (protected ++ values)
      ∧ canonical r ∧ same_maps r (protected ++ values)
  | Err _ => ¬ (functional (protected ++ values) ∧ injective (protected ++ values))
  end.
Proof.
  intros Hsort Hv Hp Hrv Hrp Hne. destruct (Hsort (protected ++ values)) as [Hperm Hs]. unfold retain_kind.
  assert (same_maps (sort (protected ++ values)) (protected ++ values)) as Hm by (by apply perm_same_maps).
  assert (Forall usable (sort (protected ++ values))) as Hu.
  { rewrite Hperm. apply Forall_app. by split; [apply Hp|apply Hv]. }
  assert (Hc := combine_all _ Hu Hs). destruct (combineReservations _) as [r|].
  2: { rewrite Hm in Hc. by intros [? _]. }
  destruct Hc as [Hmr Hcr]. rewrite Hm in Hmr. rewrite bind_Ok.
  assert (Hspans := hostSpans_iff r (canonical_wf r Hcr)). rewrite (canonical_injective r Hcr) in Hspans.
  assert (injective r ↔ injective (protected ++ values)) as Hinj by (by rewrite Hmr).
  assert (no_root (protected ++ values)) as Hrt by (by apply Forall_app).
  assert (r ≠ []) as Hner.
  { intros ->. destruct protected as [|i l]; [done|]. destruct Hp as [[Hi _]%Forall_cons _].
    apply (maps_nil (ContainerStart i) (HostStart i)), Hmr, maps_app. left. apply maps_cons. left.
    by apply binds_start. }
  destruct (hostSpans r) as [spans|]; cbn [is_ok] in Hspans.
  - destruct (proj1 Hspans eq_refl) as (_ & _ & _ & Hi%Hinj). rewrite bind_Ok. split_and!; [|done|done|done].
    rewrite <-Hmr. apply after_functional. by apply canonical_after.
  - intros [_ Hi%Hinj]. discriminate (proj2 Hspans). split_and!; [done|apply Hcr| |done].
    apply maps_root; [apply Hcr|]. intros c. rewrite (Hmr c 0). apply maps_root; [|done].
    by rewrite <-Hperm.
Qed.

(** The proposed assignments together with the retained ones. *)
Definition union (proposed retained : Geometry) : Geometry :=
  MkGeometry (Profile proposed) (UIDs retained ++ UIDs proposed) (GIDs retained ++ GIDs proposed).
(** No container has two hosts and no host has two containers. *)
Definition partial_injection (g : Geometry) : Prop :=
  functional (UIDs g) ∧ injective (UIDs g) ∧ functional (GIDs g) ∧ injective (GIDs g).

Lemma valid_injection g : valid_geometry g → partial_injection g.
Proof.
  assert (∀ profile l, admissible profile l → functional l ∧ injective l) as H.
  { intros profile l [Hne Hb Hu Hd Hh Hr]. split; [|by apply disjoint_injective].
    intros c h h' (a & Ha & [H1 H2]) (b & Hb' & [H3 H4]). destruct (decide (a = b)) as [->|Hab]; [lia|].
    assert (Hx := pairwise_elem _ _ _ _ Hd Ha Hb' Hab). unfold disjoint_containers, after in Hx. lia. }
  intros (_ & Hu & Hg). destruct (H _ _ Hu), (H _ _ Hg). by split_and!.
Qed.

Lemma union_normal p k p' k' :
  same_geometry p' p → same_geometry k' k → same_geometry (union p' k') (union p k).
Proof.
  intros (H1 & H2 & H3) (H4 & H5 & H6). split_and!; [done| |]; intros c h; simpl; rewrite !maps_app.
  - by rewrite (H2 c h), (H5 c h).
  - by rewrite (H3 c h), (H6 c h).
Qed.

Lemma injection_same g k : same_geometry g k → partial_injection g ↔ partial_injection k.
Proof. intros (_ & Hu & Hg). unfold partial_injection. by rewrite Hu, Hg. Qed.

Lemma retained_admissible l r :
  canonical r → same_maps r l → injective l → l ≠ [] → Forall usable l → no_root l → admissible "exact" r.
Proof.
  intros Hc Hm Hi Hne Hu Hr. constructor; [|done|apply Hc|by apply canonical_disjoint| |].
  - intros ->. destruct l as [|i l]; [done|]. apply Forall_cons in Hu as [Hi' _].
    apply (maps_nil (ContainerStart i) (HostStart i)), Hm, maps_cons. left. by apply binds_start.
  - apply canonical_injective; [done|]. by rewrite Hm.
  - apply maps_root; [apply Hc|]. intros c. rewrite (Hm c 0). by apply maps_root.
Qed.

(** What retention requires of the proposed and the retained mapping. *)
Definition retainable (p k : Geometry) : Prop :=
  valid_geometry p ∧ valid_geometry k ∧ Profile p = Profile k
  ∧ (Profile p = "bounded" → same_geometry p k)
  ∧ partial_injection (union p k).

Lemma union_same p k : same_geometry p k → same_geometry (union p k) k.
Proof.
  intros (Hp & Hu & Hg). split_and!; [done| |]; intros c h; simpl; rewrite maps_app.
  - rewrite (Hu c h). tauto.
  - rewrite (Hg c h). tauto.
Qed.

(** Retention of a geometry with the profile "exact", already in normal form. *)
Lemma retain_exact sort p k :
  sorts sort → valid_geometry p → valid_geometry k → canonical_geometry p → canonical_geometry k →
  Profile p = "exact" →
  match (uids ← wrap (retain_kind sort (UIDs p) (UIDs k)) "UID retained mapping";
         gids ← wrap (retain_kind sort (GIDs p) (GIDs k)) "GID retained mapping";
         Ok (MkGeometry (Profile p) uids gids)) with
  | Ok r => partial_injection (union p k) ∧ valid_geometry r ∧ canonical_geometry r ∧ same_geometry r (union p k)
  | Err _ => ¬ partial_injection (union p k)
  end.
Proof.
  intros Hsort (_ & Hpu & Hpg) (_ & Hku & Hkg) [Hcpu Hcpg] [Hcku Hckg] Hprofile.
  assert (Hu := retain_kind_spec sort (UIDs p) (UIDs k) Hsort Hcpu Hcku (adm_root _ _ Hpu) (adm_root _ _ Hku)
    (adm_nonempty _ _ Hku)).
  assert (Hg := retain_kind_spec sort (GIDs p) (GIDs k) Hsort Hcpg Hckg (adm_root _ _ Hpg) (adm_root _ _ Hkg)
    (adm_nonempty _ _ Hkg)).
  destruct (retain_kind sort (UIDs p) (UIDs k)) as [u|]; cbn [wrap]; [rewrite bind_Ok|].
  2: { intros (H1 & H2 & _). by apply Hu. }
  destruct (retain_kind sort (GIDs p) (GIDs k)) as [g|]; cbn [wrap]; [rewrite bind_Ok|].
  2: { intros (_ & _ & H1 & H2). by apply Hg. }
  destruct Hu as (Hu1 & Hu2 & Hu3 & Hu4), Hg as (Hg1 & Hg2 & Hg3 & Hg4).
  split; [by split_and!|]. split; [|by split; [|split_and!]]. unfold valid_geometry. simpl. rewrite Hprofile.
  assert (∀ profile1 profile2 l1 l2, admissible profile1 l1 → admissible profile2 l2 →
    l1 ++ l2 ≠ [] ∧ Forall usable (l1 ++ l2) ∧ no_root (l1 ++ l2)) as Happ.
  { intros profile1 profile2 l1 l2 [? _ ? _ _ ?] [? _ ? _ _ ?].
    split; [by intros [? _]%app_nil|]. by split; apply Forall_app. }
  destruct (Happ _ _ _ _ Hku Hpu) as (? & ? & ?). destruct (Happ _ _ _ _ Hkg Hpg) as (? & ? & ?).
  split_and!; [by left|by eapply retained_admissible|by eapply retained_admissible].
Qed.

Lemma retain_run sort p k :
  sorts sort → wf_geometry p → wf_geometry k →
  match RetainGeometry sort p (Some k) with
  | Ok r => retainable p k ∧ valid_geometry r ∧ canonical_geometry r ∧ same_geometry r (union p k)
  | Err _ => ¬ retainable p k
  end.
Proof.
  intros Hsort Hwp Hwk. unfold RetainGeometry.
  assert (Hp := validate_run sort p Hsort Hwp). assert (Hk := validate_run sort k Hsort Hwk).
  destruct (ValidateGeometry sort p) as [p'|]; cbn [wrap]; [rewrite bind_Ok|by intros [? _]].
  destruct (ValidateGeometry sort k) as [k'|]; cbn [wrap]; [rewrite bind_Ok|by intros (_ & ? & _)].
  destruct Hp as (Hvp & Hcp & Hsp), Hk as (Hvk & Hck & Hsk).
  assert (Hp' := valid_normal _ _ Hvp Hcp Hsp). assert (Hk' := valid_normal _ _ Hvk Hck Hsk).
  assert (Hunion := union_normal _ _ _ _ Hsp Hsk). assert (Hinj := injection_same _ _ Hunion).
  rewrite (proj1 Hsp), (proj1 Hsk).
  destruct (decide (Profile p = Profile k)) as [Hprofile|Hprofile];
    [rewrite (bool_decide_true _ Hprofile)|rewrite (bool_decide_false _ Hprofile)]; cbn [negb reject_if].
  2: { by intros (_ & _ & ? & _). }
  rewrite bind_Ok. unfold retainable. case_bool_decide as Hb.
  - destruct (negb _ || negb _) eqn:Hne; cbn [reject_if].
    + intros (_ & _ & _ & Hs & _). specialize (Hs Hb).
      assert (p' = k') as <- by (apply geometry_eq; [done|done|by rewrite Hsp, Hs, Hsk]).
      go_bool. by destruct Hne.
    + go_bool. destruct Hne as [Heu Heg].
      assert (p' = k') as -> by (destruct p', k'; simpl in *; destruct Hsp, Hsk; simpl in *; congruence).
      assert (same_geometry p k) as Hs by (by rewrite <-Hsp).
      assert (same_geometry (union p k) k) as Hus by (by apply union_same). rewrite bind_Ok.
      split; [|split_and!; [done|done|by rewrite Hsk, Hus]]. split_and!; [done|done|done|done|].
      apply (injection_same _ _ Hus). by apply valid_injection.
  - assert (Profile p' = "exact") as He.
    { destruct Hvp as [[?|?] _]; [by rewrite (proj1 Hsp)|done]. }
    assert (H := retain_exact sort p' k' Hsort Hp' Hk' Hcp Hck He). rewrite (proj1 Hsp) in H.
    destruct (uids ← _; _) as [r|].
    + destruct H as (H1%Hinj & H2 & H3 & H4). split_and!; [done|done|done|done|done|done|done|].
      by rewrite H4, Hunion.
    + intros (_ & _ & _ & _ & H1%Hinj). done.
Qed.

(** ** Sample data *)

Definition start_le (a b : Interval) : Prop := ContainerStart a ≤ ContainerStart b.
#[export] Instance start_le_dec a b : Decision (start_le a b).
Proof. unfold start_le. apply _. Defined.
#[export] Instance start_le_total : Total start_le.
Proof. intros a b. unfold start_le. lia. Qed.
Definition sort_intervals : list Interval → list Interval := merge_sort start_le.
Lemma sort_intervals_sorts : sorts sort_intervals.
Proof. intros l. unfold sort_intervals. split; [apply merge_sort_Permutation|apply (Sorted_merge_sort _)]. Qed.

Definition sample_geometry : Geometry :=
  MkGeometry "exact" [MkInterval 12 112 3; MkInterval 2 102 3; MkInterval 0 100 2]
    [MkInterval 4 400 2; MkInterval 0 200 1].
Definition sample_proposed : Geometry :=
  MkGeometry "exact" [MkInterval 0 100 9] [MkInterval 6 402 1].

Ltac wf_sample := split; repeat constructor; simpl; unfold u32, MaxUint32; lia.
Lemma sample_geometry_wf : wf_geometry sample_geometry.
Proof. wf_sample. Qed.
Lemma sample_proposed_wf : wf_geometry sample_proposed.
Proof. wf_sample. Qed.

(** ** Properties *)

(** C14: [ValidateGeometry] accepts exactly the geometries with a known profile whose
    intervals are usable, disjoint in the container, disjoint on the host and free of
    host root, one interval per kind when bounded; its result is the canonical list of
    intervals of the same assignments. *)
Theorem ValidateGeometry_spec sort g :
  sorts sort → wf_geometry g →
  match ValidateGeometry sort g with
  | Ok r => valid_geometry g ∧ canonical_geometry r ∧ same_geometry r g
  | Err _ => ¬ valid_geometry g
  end.
Proof. apply validate_run. Qed.

Lemma ValidateGeometry_spec_witness :
  valid_geometry sample_geometry
  ∧ ValidateGeometry sort_intervals sample_geometry =
    Ok (MkGeometry "exact" [MkInterval 0 100 5; MkInterval 12 112 3] [MkInterval 0 200 1; MkInterval 4 400 2]).
Proof.
  assert (H := ValidateGeometry_spec sort_intervals sample_geometry sort_intervals_sorts sample_geometry_wf).
  assert (ValidateGeometry sort_intervals sample_geometry =
    Ok (MkGeometry "exact" [MkInterval 0 100 5; MkInterval 12 112 3] [MkInterval 0 200 1; MkInterval 4 400 2]))
    as Hrun by (vm_compute; reflexivity).
  rewrite Hrun in H. split; [apply H|exact Hrun].
Defined.

(** The result of [ValidateGeometry] is a normal form: it does not depend on the order
    or the partition of the intervals nor on how equal sort keys are ordered, and
    validating it again returns it. *)
Theorem geometry_normal_form sort sort' g k r :
  sorts sort → sorts sort' → wf_geometry g → wf_geometry k → same_geometry g k →
  ValidateGeometry sort g = Ok r →
  ValidateGeometry sort' r = Ok r ∧ ∀ r', ValidateGeometry sort' k = Ok r' → r' = r.
Proof.
  intros Hsort Hsort' Hg Hk Hs Hr. assert (H := validate_run sort g Hsort Hg). rewrite Hr in H.
  destruct H as (Hv & Hc & Hm). split.
  - apply validate_normal; [done| |done]. by eapply valid_normal.
  - intros r' Hr'. assert (H := validate_run sort' k Hsort' Hk). rewrite Hr' in H.
    destruct H as (_ & Hc' & Hm'). apply geometry_eq; [done|done|]. by rewrite Hm', Hm.
Qed.

Lemma geometry_normal_form_witness :
  ValidateGeometry sort_intervals
    (MkGeometry "exact" [MkInterval 0 100 5; MkInterval 12 112 3] [MkInterval 0 200 1; MkInterval 4 400 2])
  = Ok (MkGeometry "exact" [MkInterval 0 100 5; MkInterval 12 112 3] [MkInterval 0 200 1; MkInterval 4 400 2]).
Proof.
  apply (geometry_normal_form sort_intervals sort_intervals sample_geometry sample_geometry);
    [apply sort_intervals_sorts|apply sort_intervals_sorts|apply sample_geometry_wf|apply sample_geometry_wf|reflexivity|].
  vm_compute. reflexivity.
Defined.

(** C4: [RetainGeometry] succeeds exactly when both mappings are valid, the profile is
    unchanged, a bounded mapping is the same, and the proposed and the retained
    assignments together still give no container two hosts and no host two
    containers; the result is valid, canonical and holds exactly the assignments of
    both, so no retained assignment is released or changed. *)
Theorem RetainGeometry_spec sort proposed retained :
  sorts sort → wf_geometry proposed → wf_geometry retained →
  match RetainGeometry sort proposed (Some retained) with
  | Ok r => retainable proposed retained
      ∧ valid_geometry r ∧ canonical_geometry r ∧ same_geometry r (union proposed retained)
  | Err _ => ¬ retainable proposed retained
  end.
Proof. apply retain_run. Qed.

Lemma RetainGeometry_spec_witness :
  RetainGeometry sort_intervals sample_proposed (Some sample_geometry) =
    Ok (MkGeometry "exact" [MkInterval 0 100 9; MkInterval 12 112 3] [MkInterval 0 200 1; MkInterval 4 400 3])
  ∧ retainable sample_proposed sample_geometry.
Proof.
  assert (H := RetainGeometry_spec sort_intervals sample_proposed sample_geometry sort_intervals_sorts
    sample_proposed_wf sample_geometry_wf).
  assert (RetainGeometry sort_intervals sample_proposed (Some sample_geometry) =
    Ok (MkGeometry "exact" [MkInterval 0 100 9; MkInterval 12 112 3] [MkInterval 0 200 1; MkInterval 4 400 3]))
    as Hrun by (vm_compute; reflexivity).
  rewrite Hrun in H. split; [exact Hrun|apply H].
Defined.
