(* ===== verification/HostCheck.v ===== *)
(** * The check of a proposed mapping against the host

    [internal/identitymapping/host.go] beyond its intervals ([Geometry.v]): the parsers
    of the host inventories, the coverage of a mapping by the operator's subordinate
    delegation, the collisions with host principals, and the whole of [checkHost].

    The host is a parameter of [checkHost] ([hostBackend]): every file is read once
    before and once after the checks and every command runs once, so reading is a
    function of the phase and the path.  The final comparison ranges over a map in
    the source; its order decides only which of two failures is reported. *)

From Stdlib Require Import Ascii.
From S2P Require Import Prelude GoText Geometry.

Open Scope Z_scope.

Record HostIdentity := MkHostIdentity {
  Username : string;
  UID : Z;
  GID : Z
}.
#[export] Instance HostIdentity_eq_dec : EqDecision HostIdentity.
Proof. solve_decision. Defined.

(** ** Inventories *)

Definition NUL : ascii := ascii_of_nat 0.
Definition TAB : ascii := ascii_of_nat 9.
Definition LF : ascii := ascii_of_nat 10.
Definition CR : ascii := ascii_of_nat 13.

Definition number (value : string) : result Z :=
  match parse_uint value 32 with
  | Some n =>
    if (n =? MaxUint32) || negb (bool_decide (format_uint n = value))
    then Err "host inventory contains a noncanonical or unusable ID" else Ok n
  | None => Err "host inventory contains a noncanonical or unusable ID"
  end.

Definition inventoryLines (content : string) : result (list string) :=
  if contains_any content (String NUL (String CR ""))
     || negb (bool_decide (content = "")) && negb (has_suffix content (String LF ""))
  then Err "host inventory is malformed or incomplete"
  else Ok (filter (λ line, has_prefix line "#" = false ∧ line ≠ "")
             (map trim_space (split_byte content LF))).

(** The loop of [filesOnly], with the keys seen so far. *)
Fixpoint files_loop (seen : list string) (lines : list string) : result (list string) :=
  match lines with
  | [] => Ok seen
  | line :: rest =>
    let line := match cut_byte line "#"%char with Some (before, _) => before | None => line end in
    let '(key, value, ok) := match cut_byte line ":"%char with
                             | Some (key, value) => (key, value, true)
                             | None => (line, "", false)
                             end in
    let key := trim_space key in
    if negb (bool_decide (key ∈ ["passwd"; "group"; "subid"; "initgroups"])) then files_loop seen rest
    else if negb ok || bool_decide (key ∈ seen) || negb (bool_decide (trim_space value = "files"))
    then Err "identity mapping requires complete files-backed inventory"
    else files_loop (key :: seen) rest
  end.
Definition filesOnly (content : string) : result unit :=
  lines ← inventoryLines content;
  seen ← files_loop [] lines;
  reject_if (negb (bool_decide ("passwd" ∈ seen)) || negb (bool_decide ("group" ∈ seen)))
    "identity mapping cannot prove complete passwd/group sources".

Definition account (line : string) : result HostIdentity :=
  match split_byte line ":"%char with
  | [name; _; uid; gid; _; _; _] =>
    if bool_decide (name = "") || contains_any name (String " " (String TAB "\"))
       || has_prefix name "-" || has_prefix name "+" || contains_any line (String LF (String NUL ""))
    then Err "host passwd record is malformed"
    else match number uid, number gid with
         | Ok uid, Ok gid => Ok (MkHostIdentity name uid gid)
         | _, _ => Err "host passwd IDs are invalid"
         end
  | _ => Err "host passwd record is malformed"
  end.

(** ** Delegations *)

(** The range of one record. *)
Definition range (start count : string) (message : string) : result span :=
  match number start, number count with
  | Ok start, Ok count =>
    if (count =? 0) || (MaxUint32 <? start + count) then Err message else Ok (MkSpan start count)
  | _, _ => Err message
  end.
Definition names_caller (owner : string) (caller : HostIdentity) : bool :=
  bool_decide (owner = Username caller) || bool_decide (owner = format_uint (UID caller)).

(** The records of a subordinate file: owner and range. *)
Definition delegation (line : string) : result (string * span) :=
  match split_byte line ":"%char with
  | [owner; start; count] =>
    if bool_decide (owner = "") then Err "subordinate delegation record is malformed"
    else s ← range start count "subordinate delegation range is invalid"; Ok (owner, s)
  | _ => Err "subordinate delegation record is malformed"
  end.
Fixpoint delegated_loop (caller : HostIdentity) (lines : list string)
    : result (list span * list span * list string) :=
  match lines with
  | [] => Ok ([], [], [])
  | line :: rest =>
    record ← delegation line;
    let '(owner, s) := record in
    found ← delegated_loop caller rest;
    let '(own, foreign, owners) := found in
    Ok (if names_caller owner caller then (s :: own, foreign, owner :: owners)
        else (own, s :: foreign, owners))
  end.
Definition check_own (previous : option span) (s : span) : result unit :=
  reject_if (match previous with Some p => overlaps p s | None => false end)
    "operator delegation is ambiguous".
Definition delegated (content : string) (caller : HostIdentity)
    : result (list span * list span * list string) :=
  lines ← inventoryLines content;
  found ← delegated_loop caller lines;
  let '(own, foreign, owners) := found in
  let own := sortSpans own in
  _ ← reject_if (bool_decide (own = [])) "operator has no subordinate delegation";
  _ ← check_each check_own None own;
  Ok (own, foreign, owners).

(** One pass over the operator's ranges: how far they cover from [next] on. *)
Fixpoint advance (next : Z) (own : list span) : Z :=
  match own with
  | [] => next
  | available :: rest =>
    advance (if (start available <=? next) && (next <? span_end available)
             then span_end available else next) rest
  end.
Fixpoint checkDelegation (proposed own foreign : list span) : result unit :=
  match proposed with
  | [] => Ok tt
  | wanted :: rest =>
    _ ← reject_if (advance (start wanted) own <? span_end wanted)
          "mapping lies outside operator delegation";
    _ ← reject_if (existsb (overlaps wanted) foreign)
          "mapping overlaps another principal's delegation";
    checkDelegation rest own foreign
  end.

(** What [getsubids] reports. *)
Fixpoint active_loop (index : Z) (caller : HostIdentity) (lines : list string) : result (list span) :=
  match lines with
  | [] => Ok []
  | line :: rest =>
    match fields line with
    | [position; owner; start; count] =>
      if negb (bool_decide (position = format_uint index +:+ ":")) || negb (names_caller owner caller)
      then Err "active subordinate delegation output is malformed"
      else
        s ← range start count "active subordinate delegation range is invalid";
        others ← active_loop (index + 1) caller rest;
        Ok (s :: others)
    | _ => Err "active subordinate delegation output is malformed"
    end
  end.
Definition activeRanges (content : string) (caller : HostIdentity) : result (list span) :=
  lines ← inventoryLines content;
  found ← active_loop 0 caller lines;
  Ok (sortSpans found).

(** ** Principals *)

Record ownerPrincipal := MkPrincipal { principal_name : string; principal_id : Z }.
#[export] Instance ownerPrincipal_eq_dec : EqDecision ownerPrincipal.
Proof. solve_decision. Defined.
Record ownerInventory := MkInventory {
  byName : gmap string ownerPrincipal;
  byID : gmap Z (list ownerPrincipal)
}.

Definition addOwnerPrincipal (inventory : ownerInventory) (principal : ownerPrincipal)
    : result ownerInventory :=
  match byName inventory !! principal_name principal with
  | Some _ => Err "host principal names are ambiguous"
  | None =>
    Ok (MkInventory (<[principal_name principal := principal]> (byName inventory))
          (<[principal_id principal :=
               default [] (byID inventory !! principal_id principal) ++ [principal]]> (byID inventory)))
  end.
Fixpoint inventory_loop (inventory : ownerInventory) (lines : list string) : result ownerInventory :=
  match lines with
  | [] => Ok inventory
  | line :: rest =>
    entry ← account line;
    inventory ← addOwnerPrincipal inventory (MkPrincipal (Username entry) (UID entry));
    inventory_loop inventory rest
  end.
Definition passwdOwnerInventory (content : string) : result ownerInventory :=
  lines ← inventoryLines content;
  inventory_loop (MkInventory ∅ ∅) lines.

Definition numericOwnerID (value : string) : option Z :=
  if bool_decide (value = "") || negb (string_forallb is_digit value) then None
  else match parse_uint value 32 with
       | Some n => if n =? MaxUint32 then None else Some n
       | None => None
       end.
Definition foreign_principal (callerName : string) (callerID : Z) (principal : ownerPrincipal) : bool :=
  negb (bool_decide (principal_name principal = callerName))
  || negb (principal_id principal =? callerID).
Fixpoint checkOwnerTokens (owners : list string) (callerName : string) (callerID : Z)
    (inventory : ownerInventory) : result unit :=
  match owners with
  | [] => Ok tt
  | owner :: rest =>
    _ ← reject_if (match byName inventory !! owner with
                   | Some principal => foreign_principal callerName callerID principal
                   | None => false
                   end) "subordinate owner token is foreign or ambiguous";
    _ ← reject_if (match numericOwnerID owner with
                   | Some numeric => existsb (foreign_principal callerName callerID)
                                       (default [] (byID inventory !! numeric))
                   | None => false
                   end) "subordinate owner token is foreign or ambiguous";
    checkOwnerTokens rest callerName callerID inventory
  end.

Definition collides (id : Z) (ranges : list span) : bool :=
  existsb (λ r, (start r <=? id) && (id <? span_end r)) ranges.

(** The loop over the passwd records: the names seen, and how many have the caller's UID. *)
Fixpoint passwd_loop (caller : HostIdentity) (uids gids : list span) (names : list string) (found : Z)
    (lines : list string) : result Z :=
  match lines with
  | [] => Ok found
  | line :: rest =>
    entry ← account line;
    _ ← reject_if (bool_decide (Username entry ∈ names)) "host passwd names are ambiguous";
    _ ← reject_if ((UID entry =? UID caller) && negb (bool_decide (entry = caller)))
          "operator account changed or has an alias";
    _ ← reject_if (collides (UID entry) uids || collides (GID entry) gids)
          "mapping aliases a host passwd UID or primary GID";
    passwd_loop caller uids gids (Username entry :: names)
      (if UID entry =? UID caller then found + 1 else found) rest
  end.
Fixpoint group_loop (gids : list span) (names : list string) (lines : list string) : result unit :=
  match lines with
  | [] => Ok tt
  | line :: rest =>
    match split_byte line ":"%char with
    | [name; _; gid; _] =>
      _ ← reject_if (bool_decide (name = "") || bool_decide (name ∈ names))
            "host group inventory is malformed or ambiguous";
      gid ← number gid;
      _ ← reject_if (collides gid gids) "mapping aliases a host group GID";
      group_loop gids (name :: names) rest
    | _ => Err "host group inventory is malformed or ambiguous"
    end
  end.
Definition checkPrincipals (passwd group : string) (caller : HostIdentity) (uids gids : list span)
    : result unit :=
  lines ← inventoryLines passwd;
  found ← passwd_loop caller uids gids [] 0 lines;
  _ ← reject_if (negb (found =? 1)) "operator account is absent or ambiguous";
  lines ← inventoryLines group;
  _ ← reject_if (bool_decide (lines = [])) "host group inventory is incomplete";
  group_loop gids [] lines.

(** ** The whole check *)

Inductive Phase := Before | After.
Record hostBackend := MkBackend {
  hb_uid : Z; hb_euid : Z; hb_gid : Z; hb_egid : Z;
  hb_sudo : bool;
  hb_read : Phase → string → result string;
  hb_run : list string → result string;
  (** [ctx.Err] when the check starts and when it ends *)
  hb_ctx : Phase → result unit
}.

(** One pass of the loop over the two kinds: the owner tokens of the operator. *)
Definition check_kind (b : hostBackend) (caller : HostIdentity) (path : string) (args : list string)
    (proposed : list span) : result (list string) :=
  text ← hb_read b Before path;
  found ← delegated text caller;
  let '(own, foreign, owners) := found in
  _ ← checkDelegation proposed own foreign;
  output ← hb_run b ("getsubids" :: args);
  active ← wrap (activeRanges output caller) "files and active subordinate delegation disagree";
  _ ← reject_if (negb (bool_decide (own = active))) "files and active subordinate delegation disagree";
  Ok owners.

Definition snapshot_paths : list string :=
  ["/etc/nsswitch.conf"; "/etc/subuid"; "/etc/subgid"; "/etc/passwd"; "/etc/group"].
Fixpoint recheck (b : hostBackend) (paths : list string) : result unit :=
  match paths with
  | [] => Ok tt
  | path :: rest =>
    before ← hb_read b Before path;
    after ← hb_read b After path;
    _ ← reject_if (negb (bool_decide (after = before))) "host authority changed during identity check";
    recheck b rest
  end.

Definition checkHost (b : hostBackend) (ownerUID ownerGID : Z) (uids gids : list Interval)
    : result HostIdentity :=
  _ ← hb_ctx b Before;
  u ← hostSpans uids;
  g ← hostSpans gids;
  _ ← reject_if ((hb_uid b <=? 0) || (hb_gid b <=? 0) || negb (hb_uid b =? hb_euid b)
                 || negb (hb_gid b =? hb_egid b) || hb_sudo b || negb (hb_uid b =? ownerUID)
                 || negb (hb_gid b =? ownerGID))
        "identity mapping requires the same non-root caller and deployment owner without sudo substitution";
  nss ← hb_read b Before "/etc/nsswitch.conf";
  _ ← filesOnly nss;
  lookup ← hb_run b ["getent"; "passwd"; format_uint (hb_uid b)];
  lines ← wrap (inventoryLines lookup) "cannot resolve one canonical operator account";
  match lines with
  | [line] =>
    caller ← wrap (account line) "canonical operator account differs from caller IDs";
    _ ← reject_if (negb (UID caller =? hb_uid b) || negb (GID caller =? hb_gid b))
          "canonical operator account differs from caller IDs";
    uidOwners ← check_kind b caller "/etc/subuid" [Username caller] u;
    gidOwners ← check_kind b caller "/etc/subgid" ["-g"; Username caller] g;
    passwd ← hb_read b Before "/etc/passwd";
    group ← hb_read b Before "/etc/group";
    inventory ← passwdOwnerInventory passwd;
    _ ← checkOwnerTokens uidOwners (Username caller) (UID caller) inventory;
    _ ← checkOwnerTokens gidOwners (Username caller) (UID caller) inventory;
    _ ← checkPrincipals passwd group caller u g;
    _ ← recheck b snapshot_paths;
    _ ← hb_ctx b After;
    Ok caller
  | _ => Err "cannot resolve one canonical operator account"
  end.
