(* ===== verification/HostCheckFacts.v ===== *)
(** * The host check: soundness

    The one-pass coverage test decides coverage; a successful [checkHost] means that
    every host ID of the mapping is delegated to the operator and to nobody else, that
    no host principal has it, that the operator is an unambiguous account, and that
    the inventories did not change meanwhile. *)

From Stdlib Require Import Ascii.
From S2P Require Import Prelude GoText Geometry GeometryFacts HostCheck.

Open Scope Z_scope.

(** ** Coverage *)

Definition in_span (s : span) (id : Z) : Prop := start s ≤ id < span_end s.
Definition covered (own : list span) (id : Z) : Prop := ∃ s, s ∈ own ∧ in_span s id.

Lemma advance_mono next own : next ≤ advance next own.
Proof.
  revert next. induction own as [|s own IH]; intros next; simpl; [done|].
  destruct (_ && _) eqn:H; [|apply IH]. go_bool. specialize (IH (span_end s)). lia.
Qed.

Lemma advance_covers next own id : next ≤ id < advance next own → covered own id.
Proof.
  revert next. induction own as [|s own IH]; intros next; simpl; [lia|]. intros Hid.
  assert (covered own id → covered (s :: own) id) as Htail.
  { intros (t & Ht & ?). exists t. split; [by right|done]. }
  destruct (_ && _) eqn:H; [|by apply Htail, (IH next)]. go_bool.
  destruct (decide (id < span_end s)).
  - exists s. split; [by left|]. unfold in_span. lia.
  - apply Htail, (IH (span_end s)). lia.
Qed.

(** Ranges that all start beyond [next] do not move it. *)
Lemma advance_stuck next own : Forall (λ s, next < start s) own → advance next own = next.
Proof.
  induction 1 as [|s own Hs _ IH]; simpl; [done|]. destruct (_ && _) eqn:H; [go_bool; lia|done].
Qed.

(** Over sorted ranges one pass stops only at an ID that none of them has. *)
Lemma advance_complete next own : StronglySorted span_le own → ¬ covered own (advance next own).
Proof.
  intros Hs. revert next. induction Hs as [|s own Hs IH Hle]; intros next; simpl.
  { by intros (t & ?%elem_of_nil & _). }
  intros (t & [->|Ht]%elem_of_cons & Hin).
  - destruct (_ && _) eqn:H.
    + assert (Hm := advance_mono (span_end s) own). unfold in_span in Hin. lia.
    + assert (Hm := advance_mono next own). unfold in_span in Hin. go_bool. destruct H as [H|H]; [|lia].
      rewrite (advance_stuck next own) in Hin; [lia|]. eapply Forall_impl; [exact Hle|].
      simpl. intros t. unfold span_le. lia.
  - eapply IH. by exists t.
Qed.

Lemma checkDelegation_run proposed own foreign :
  StronglySorted span_le own →
  checkDelegation proposed own foreign = Ok tt ↔
  Forall (λ w, (∀ id, in_span w id → covered own id) ∧ Forall (λ o, overlaps w o = false) foreign) proposed.
Proof.
  intros Hs. induction proposed as [|w proposed IH]; simpl; [by split|].
  rewrite reject_if_bind, reject_if_bind, Forall_cons, IH.
  assert ((advance (start w) own <? span_end w) = false ↔ ∀ id, in_span w id → covered own id) as Hcov.
  { rewrite Z.ltb_ge. split.
    - intros Hle id [H1 H2]. apply (advance_covers (start w)). lia.
    - intros Hall. destruct (decide (span_end w ≤ advance (start w) own)) as [|Hlt]; [done|].
      destruct (advance_complete (start w) own Hs). apply Hall. unfold in_span.
      assert (Hm := advance_mono (start w) own). lia. }
  assert (existsb (overlaps w) foreign = false ↔ Forall (λ o, overlaps w o = false) foreign) as Hfor.
  { clear. induction foreign as [|o foreign IH]; simpl; [by split|].
    rewrite orb_false_iff, Forall_cons. by rewrite IH. }
  rewrite Hcov, Hfor. tauto.
Qed.

(** ** What the loops read *)

(** The records of a subordinate file. *)
Definition delegation_records (content : string) : result (list (string * span)) :=
  lines ← inventoryLines content; mapM delegation lines.
(** The accounts of a passwd file. *)
Definition accounts (content : string) : result (list HostIdentity) :=
  lines ← inventoryLines content; mapM account lines.

Lemma mapM_cons_ok {A B} (f : A → result B) x l k :
  mapM f (x :: l) = Ok k ↔ ∃ y ys, k = y :: ys ∧ f x = Ok y ∧ mapM f l = Ok ys.
Proof.
  simpl. rewrite bind_ok. setoid_rewrite bind_ok. split.
  - intros (y & ? & ys & ? & [= <-]). eauto 10.
  - intros (y & ys & -> & ? & ?). exists y. split; [done|]. by exists ys.
Qed.

Lemma delegated_loop_spec caller lines own foreign owners :
  delegated_loop caller lines = Ok (own, foreign, owners) →
  ∃ records, mapM delegation lines = Ok records
  ∧ own = map snd (filter (λ r, names_caller r.1 caller = true) records)
  ∧ foreign = map snd (filter (λ r, names_caller r.1 caller = false) records)
  ∧ owners = map fst (filter (λ r, names_caller r.1 caller = true) records).
Proof.
  revert own foreign owners. induction lines as [|line rest IH]; intros own foreign owners; simpl.
  { intros [= <- <- <-]. by exists []. }
  intros H. go_ok. destruct a as [owner s]. go_ok. destruct a as [[own' foreign'] owners'].
  destruct (IH _ _ _ H1) as (records & Hm & -> & -> & ->). exists ((owner, s) :: records).
  split; [by rewrite H0; simpl; rewrite Hm|]. injection H as H.
  destruct (names_caller owner caller) eqn:Hn; simplify_eq.
  - rewrite !filter_cons_True by done. rewrite filter_cons_False by (simpl; by rewrite Hn). done.
  - rewrite !(filter_cons_False (λ r : string * span, names_caller r.1 caller = true)) by (simpl; by rewrite Hn).
    rewrite filter_cons_True by done. done.
Qed.

(** ID [id] is delegated to the operator by the file's records and to nobody else. *)
Definition delegated_only (records : list (string * span)) (caller : HostIdentity) (id : Z) : Prop :=
  (∃ r, r ∈ records ∧ names_caller r.1 caller = true ∧ in_span r.2 id)
  ∧ ∀ r, r ∈ records → in_span r.2 id → names_caller r.1 caller = true.

Lemma range_positive s c msg r : range s c msg = Ok r → 0 < count r ∧ 0 ≤ start r ∧ span_end r ≤ MaxUint32.
Proof.
  unfold range. destruct (number s) as [x|] eqn:Hx; [|done]. destruct (number c) as [n|] eqn:Hn; [|done].
  assert (∀ v m, number v = Ok m → 0 ≤ m) as Hnum.
  { clear. intros v m. unfold number. destruct (parse_uint v 32) as [k|] eqn:Hp; [|done].
    destruct (_ || _); [done|]. intros [= <-]. by apply parse_uint_range in Hp as [? _]. }
  destruct (_ || _) eqn:H; [done|]. intros [= <-]. go_bool. specialize (Hnum _ _ Hx) as H1.
  specialize (Hnum _ _ Hn) as H2. unfold span_end. simpl. lia.
Qed.

(** A host ID of the mapping. *)
Definition host_id (l : list Interval) (id : Z) : Prop :=
  ∃ i, i ∈ l ∧ HostStart i ≤ id < HostStart i + Count i.

Lemma hostSpans_covered l spans id : hostSpans l = Ok spans → covered spans id ↔ host_id l id.
Proof.
  unfold hostSpans. intros H. go_ok. destruct (sorted_spans (map span_of l)) as [_ Hp].
  unfold covered, host_id. setoid_rewrite Hp. split.
  - intros (s & (i & -> & Hi)%list_elem_of_fmap_1 & Hin). exists i. split; [done|]. exact Hin.
  - intros (i & Hi & Hin). exists (span_of i). split; [by apply list_elem_of_fmap_2|]. exact Hin.
Qed.

Lemma delegated_ok content caller own foreign owners :
  delegated content caller = Ok (own, foreign, owners) →
  ∃ records, delegation_records content = Ok records ∧ StronglySorted span_le own
  ∧ own ≡ₚ map snd (filter (λ r, names_caller r.1 caller = true) records)
  ∧ foreign = map snd (filter (λ r, names_caller r.1 caller = false) records)
  ∧ owners = map fst (filter (λ r, names_caller r.1 caller = true) records).
Proof.
  unfold delegated, delegation_records. intros H. go_ok. destruct a0 as [[own0 foreign0] owners0].
  cbv zeta in H. go_ok. simplify_eq. apply delegated_loop_spec in H1 as (records & Hm & -> & -> & ->).
  exists records. destruct (sorted_spans (map snd (filter (λ r, names_caller r.1 caller = true) records))) as [Hs Hp].
  rewrite H0, bind_Ok. by split_and!.
Qed.

Lemma check_kind_ok b caller path args proposed owners :
  check_kind b caller path args proposed = Ok owners →
  ∃ text records, hb_read b Before path = Ok text ∧ delegation_records text = Ok records
  ∧ owners = map fst (filter (λ r, names_caller r.1 caller = true) records)
  ∧ ∀ id, covered proposed id → delegated_only records caller id.
Proof.
  unfold check_kind. intros H. go_ok. destruct a0 as [[own foreign] owners0].
  apply bind_ok in H as ([] & Hd & H). go_ok.
  apply delegated_ok in H1 as (records & Hrec & Hs & Hown & Hfor & ->).
  exists a, records. split_and!; [done|done|done|]. intros id (w & Hw & Hin).
  apply (checkDelegation_run _ _ _ Hs) in Hd. rewrite Forall_forall in Hd. destruct (Hd w Hw) as [Hc Hf]. split.
  - destruct (Hc id Hin) as (s & Hs' & Hsin). rewrite Hown in Hs'.
    apply list_elem_of_fmap_1 in Hs' as (r & -> & [Hn Hr]%list_elem_of_filter). by exists r.
  - intros r Hr Hrin. destruct (names_caller r.1 caller) eqn:Hn; [done|].
    rewrite Forall_forall in Hf. assert (overlaps w r.2 = false) as Ho.
    { apply Hf. rewrite Hfor. apply list_elem_of_fmap_2, list_elem_of_filter. by split. }
    unfold overlaps, in_span, span_end in *. go_bool. lia.
Qed.

Lemma collides_iff id ranges : collides id ranges = false ↔ ¬ covered ranges id.
Proof.
  unfold collides, covered. rewrite <-not_true_iff_false, existsb_exists. apply not_iff_compat.
  split.
  - intros (s & Hs%list_elem_of_In & H). exists s. split; [done|]. go_bool. exact H.
  - intros (s & Hs%list_elem_of_In & H). exists s. split; [done|]. go_bool. exact H.
Qed.

Lemma passwd_loop_ok caller uids gids names found lines n :
  passwd_loop caller uids gids names found lines = Ok n →
  ∃ entries, mapM account lines = Ok entries
  ∧ NoDup (map Username entries) ∧ Forall (λ e, Username e ∉ names) entries
  ∧ Forall (λ e, (UID e = UID caller → e = caller)
                 ∧ ¬ covered uids (UID e) ∧ ¬ covered gids (GID e)) entries
  ∧ (n ≠ found → caller ∈ entries).
Proof.
  revert names found. induction lines as [|line rest IH]; intros names found.
  { simpl. intros [= <-]. exists []. split_and!; [done|constructor|constructor|constructor|done]. }
  cbn [passwd_loop]. intros H. go_ok. destruct (IH _ _ H) as (entries & Hm & Hn & Hnames & Hall & Hf).
  exists (a :: entries). split; [apply mapM_cons_ok; by exists a, entries|].
  go_bool. destruct H3 as [Hc1%collides_iff Hc2%collides_iff].
  assert (UID a = UID caller → a = caller) as Hsame.
  { intros Hu. destruct H2 as [H2|H2]; [|done]. done. }
  split_and!.
  - simpl. constructor; [|done]. intros (e & He & Hin)%list_elem_of_fmap_1.
    rewrite Forall_forall in Hnames. apply (Hnames e Hin). rewrite <-He. by left.
  - constructor; [done|]. eapply Forall_impl; [exact Hnames|]. simpl. intros e He Hin. apply He. by right.
  - by constructor.
  - intros Hne. destruct (decide (UID a = UID caller)) as [Hu|Hu].
    + rewrite (Hsame Hu). by left.
    + right. apply Hf. rewrite (proj2 (Z.eqb_neq _ _) Hu). done.
Qed.

(** The ID of a group record. *)
Definition group_gid (line : string) : result Z :=
  match split_byte line ":"%char with
  | [_; _; gid; _] => number gid
  | _ => Err "host group inventory is malformed or ambiguous"
  end.

Lemma group_loop_ok gids names lines :
  group_loop gids names lines = Ok tt →
  ∃ groups, mapM group_gid lines = Ok groups ∧ Forall (λ g, ¬ covered gids g) groups.
Proof.
  revert names. induction lines as [|line rest IH]; intros names; [by exists []|].
  cbn [group_loop]. intros H.
  destruct (split_byte line ":"%char) as [|name [|x [|gid [|y [|]]]]] eqn:Hs; try done. go_ok.
  destruct (IH _ H) as (groups & Hm & Hg). exists (a :: groups). split.
  - apply mapM_cons_ok. exists a, groups. split; [done|]. split; [|done]. unfold group_gid. by rewrite Hs.
  - constructor; [by apply collides_iff|done].
Qed.

Definition principal_of (e : HostIdentity) : ownerPrincipal := MkPrincipal (Username e) (UID e).

Lemma inventory_loop_ok inventory lines inventory' entries :
  inventory_loop inventory lines = Ok inventory' → mapM account lines = Ok entries →
  (∀ n p, byName inventory !! n = Some p → byName inventory' !! n = Some p)
  ∧ (∀ k p, p ∈ default [] (byID inventory !! k) → p ∈ default [] (byID inventory' !! k))
  ∧ Forall (λ e, byName inventory' !! Username e = Some (principal_of e)
                 ∧ principal_of e ∈ default [] (byID inventory' !! UID e)) entries.
Proof.
  revert inventory entries. induction lines as [|line rest IH]; intros inventory entries.
  { simpl. intros [= <-] [= <-]. done. }
  cbn [inventory_loop]. intros H (e & es & -> & He & Hes)%mapM_cons_ok. go_ok. simplify_eq.
  rewrite H0 in He. injection He as ->.
  unfold addOwnerPrincipal in H1. simpl in H1. destruct (byName inventory !! Username e) eqn:Hnone; [done|].
  injection H1 as <-. destruct (IH _ _ H Hes) as (H1 & H2 & H3). simpl in H1, H2. split_and!.
  - intros n p Hp. apply H1. rewrite lookup_insert_ne; [done|]. intros <-. congruence.
  - intros k p Hp. apply H2. destruct (decide (UID e = k)) as [->|Hk].
    + rewrite lookup_insert_eq. simpl. apply elem_of_app. by left.
    + by rewrite lookup_insert_ne.
  - constructor; [|done]. split; [apply H1; by rewrite lookup_insert_eq|].
    apply H2. rewrite lookup_insert_eq. simpl. apply elem_of_app. right. by left.
Qed.

Lemma checkOwnerTokens_ok owners name id inventory :
  checkOwnerTokens owners name id inventory = Ok tt →
  Forall (λ owner, (∀ p, byName inventory !! owner = Some p → p = MkPrincipal name id)
    ∧ ∀ k p, numericOwnerID owner = Some k → p ∈ default [] (byID inventory !! k) → p = MkPrincipal name id) owners.
Proof.
  assert (∀ p, foreign_principal name id p = false → p = MkPrincipal name id) as Hp.
  { intros [n k]. unfold foreign_principal. simpl. intros H. go_bool. destruct H as [-> ->]. done. }
  induction owners as [|owner rest IH]; simpl; [constructor|]. intros H. go_ok.
  constructor; [|by apply IH]. split.
  - intros p Hl. rewrite Hl in H0. by apply Hp.
  - intros k p Hk Hin. rewrite Hk in H1. apply Hp. rewrite <-not_true_iff_false, existsb_exists in H1.
    apply not_true_iff_false. intros Hf. apply H1. exists p. split; [by apply list_elem_of_In|done].
Qed.

(** ** The whole check *)

Definition read_before (b : hostBackend) (path text : string) : Prop := hb_read b Before path = Ok text.
(** The records of the file delegate [id] to the operator and to nobody else. *)
Definition file_delegates (b : hostBackend) (path : string) (caller : HostIdentity) (id : Z) : Prop :=
  ∃ text records, read_before b path text ∧ delegation_records text = Ok records
  ∧ delegated_only records caller id.
(** The owner names of the operator's records are no other account's name or UID. *)
Definition tokens_unambiguous (b : hostBackend) (path : string) (caller : HostIdentity)
    (entries : list HostIdentity) : Prop :=
  ∃ text records, read_before b path text ∧ delegation_records text = Ok records
  ∧ ∀ r e, r ∈ records → names_caller r.1 caller = true → e ∈ entries →
    (Username e = r.1 ∨ numericOwnerID r.1 = Some (UID e)) →
    Username e = Username caller ∧ UID e = UID caller.

Record host_checked (b : hostBackend) (ownerUID ownerGID : Z) (uids gids : list Interval)
    (caller : HostIdentity) : Prop := {
  hc_operator : 0 < hb_uid b ∧ 0 < hb_gid b ∧ hb_uid b = hb_euid b ∧ hb_gid b = hb_egid b
    ∧ hb_sudo b = false ∧ hb_uid b = ownerUID ∧ hb_gid b = ownerGID
    ∧ UID caller = hb_uid b ∧ GID caller = hb_gid b;
  hc_uids : ∀ id, host_id uids id → file_delegates b "/etc/subuid" caller id;
  hc_gids : ∀ id, host_id gids id → file_delegates b "/etc/subgid" caller id;
  hc_accounts : ∃ text entries, read_before b "/etc/passwd" text ∧ accounts text = Ok entries
    ∧ NoDup (map Username entries) ∧ caller ∈ entries
    ∧ (∀ e, e ∈ entries → (UID e = UID caller → e = caller) ∧ ¬ host_id uids (UID e) ∧ ¬ host_id gids (GID e))
    ∧ tokens_unambiguous b "/etc/subuid" caller entries
    ∧ tokens_unambiguous b "/etc/subgid" caller entries;
  hc_groups : ∃ text lines groups, read_before b "/etc/group" text ∧ inventoryLines text = Ok lines
    ∧ mapM group_gid lines = Ok groups ∧ groups ≠ [] ∧ ∀ g, g ∈ groups → ¬ host_id gids g;
  hc_unchanged : ∀ path, path ∈ snapshot_paths → hb_read b After path = hb_read b Before path
}.

Lemma recheck_ok b paths :
  recheck b paths = Ok tt → ∀ path, path ∈ paths → hb_read b After path = hb_read b Before path.
Proof.
  induction paths as [|p paths IH]; simpl; [by intros _ path ?%elem_of_nil|]. intros H. go_ok. go_bool.
  intros path [->|Hp]%elem_of_cons; [congruence|by apply IH].
Qed.

Lemma tokens_ok b path caller text records entries inventory lines :
  read_before b path text → delegation_records text = Ok records →
  inventory_loop (MkInventory ∅ ∅) lines = Ok inventory → mapM account lines = Ok entries →
  checkOwnerTokens (map fst (filter (λ r, names_caller r.1 caller = true) records))
    (Username caller) (UID caller) inventory = Ok tt →
  tokens_unambiguous b path caller entries.
Proof.
  intros Hr Hrec Hinv Hent Ht. exists text, records. split_and!; [done|done|].
  intros r e Hin Hn He Hname. apply checkOwnerTokens_ok in Ht. rewrite Forall_forall in Ht.
  destruct (Ht r.1) as [H1 H2]; [apply list_elem_of_fmap_2; by apply list_elem_of_filter|].
  destruct (inventory_loop_ok _ _ _ _ Hinv Hent) as (_ & _ & Hall). rewrite Forall_forall in Hall.
  destruct (Hall e He) as [H3 H4].
  assert (principal_of e = MkPrincipal (Username caller) (UID caller)) as Hp; [|by injection Hp].
  destruct Hname as [Hname|Hname]; [apply H1; rewrite <-Hname; exact H3|by eapply H2].
Qed.

Lemma check_principals_ok passwd group caller uids gids :
  checkPrincipals passwd group caller uids gids = Ok tt →
  (∃ lines entries, inventoryLines passwd = Ok lines ∧ mapM account lines = Ok entries
   ∧ NoDup (map Username entries) ∧ caller ∈ entries
   ∧ ∀ e, e ∈ entries → (UID e = UID caller → e = caller) ∧ ¬ covered uids (UID e) ∧ ¬ covered gids (GID e))
  ∧ ∃ lines groups, inventoryLines group = Ok lines ∧ mapM group_gid lines = Ok groups ∧ groups ≠ []
   ∧ ∀ g, g ∈ groups → ¬ covered gids g.
Proof.
  unfold checkPrincipals. intros H. go_ok.
  apply passwd_loop_ok in H1 as (entries & Hm & Hn & _ & Hall & Hf). go_bool.
  apply group_loop_ok in H as (groups & Hg & Hgall). rewrite Forall_forall in Hall.
  rewrite Forall_forall in Hgall.
  split; [exists a, entries|exists a1, groups]; split_and!; try done; [apply Hf; lia|].
  intros ->. destruct a1 as [|line rest]; [done|]. by apply mapM_cons_ok in Hg as (? & ? & ? & _).
Qed.

(** One pass over the sorted ranges of the operator decides coverage: the delegation
    check accepts exactly the mappings all of whose IDs lie in some range of the operator
    and whose spans meet no range of another principal. *)
Theorem checkDelegation_spec proposed own foreign :
  StronglySorted span_le own →
  checkDelegation proposed own foreign = Ok tt ↔
  Forall (λ w, (∀ id, in_span w id → covered own id) ∧ Forall (λ o, overlaps w o = false) foreign) proposed.
Proof. apply checkDelegation_run. Qed.

Lemma checkDelegation_spec_witness :
  covered [MkSpan 100 100; MkSpan 200 100] 220.
Proof.
  assert (H : checkDelegation [MkSpan 150 100] [MkSpan 100 100; MkSpan 200 100] [MkSpan 300 5] = Ok tt)
    by (vm_compute; reflexivity).
  apply (checkDelegation_spec [MkSpan 150 100] [MkSpan 100 100; MkSpan 200 100] [MkSpan 300 5]) in H.
  - apply Forall_cons in H as [[H _] _]. apply H. unfold in_span, span_end. simpl. lia.
  - repeat constructor.
Defined.

(** C12: when the host check succeeds, the operator is the unambiguous non-root owner of
    the deployment, every host ID of the mapping is delegated to the operator's account
    by the subordinate files and to nobody else, no account or group of the host has any
    of them, and no inventory changed during the check. *)
Theorem checkHost_sound b ownerUID ownerGID uids gids caller :
  checkHost b ownerUID ownerGID uids gids = Ok caller →
  host_checked b ownerUID ownerGID uids gids caller.
Proof.
  unfold checkHost. intros H. go_ok.
  destruct a5 as [|line [|]]; [done| |done]. go_ok. go_bool.
  apply check_kind_ok in H10 as (utext & urecords & Hu1 & Hu2 & -> & Hu3).
  apply check_kind_ok in H11 as (gtext & grecords & Hg1 & Hg2 & -> & Hg3).
  apply check_principals_ok in H17 as [(plines & entries & Hp1 & Hp2 & Hp3 & Hp4 & Hp5)
    (glines & groups & Hq1 & Hq2 & Hq3 & Hq4)].
  unfold passwdOwnerInventory in H14. rewrite Hp1, bind_Ok in H14.
  assert (Hcu := λ id, hostSpans_covered _ _ id H1). assert (Hcg := λ id, hostSpans_covered _ _ id H2).
  constructor.
  - split_and!; lia || tauto.
  - intros id Hid%Hcu. exists utext, urecords. by split_and!; [| |apply Hu3].
  - intros id Hid%Hcg. exists gtext, grecords. by split_and!; [| |apply Hg3].
  - exists a6, entries. split; [done|]. unfold accounts. rewrite Hp1, bind_Ok. split_and!; [done|done|done| | |].
    + intros e He. rewrite <-Hcu, <-Hcg. by apply Hp5.
    + by eapply tokens_ok.
    + by eapply tokens_ok.
  - exists a7, glines, groups. split_and!; [done|done|done|done|]. intros g Hg. rewrite <-Hcg. by apply Hq4.
  - by apply recheck_ok.
Qed.

(** A host on which user 1000 has the delegation 100000 to 165535. *)
Definition line (text : string) : string := text +:+ String LF "".
Definition sample_backend : hostBackend :=
  MkBackend 1000 1000 1000 1000 false
    (λ _ path,
       if bool_decide (path = "/etc/nsswitch.conf") then Ok (line "passwd: files" +:+ line "group: files")
       else if bool_decide (path = "/etc/subuid") then Ok (line "ada:100000:65536" +:+ line "bob:165536:65536")
       else if bool_decide (path = "/etc/subgid") then Ok (line "ada:100000:65536")
       else if bool_decide (path = "/etc/passwd") then
         Ok (line "root:x:0:0:root:/root:/bin/sh" +:+ line "ada:x:1000:1000::/home/ada:/bin/sh")
       else if bool_decide (path = "/etc/group") then Ok (line "root:x:0:" +:+ line "ada:x:1000:")
       else Err "no such file")
    (λ args,
       if bool_decide (args = ["getent"; "passwd"; "1000"]) then Ok (line "ada:x:1000:1000::/home/ada:/bin/sh")
       else if bool_decide (head args = Some "getsubids") then Ok (line "0: ada 100000 65536")
       else Err "no such command")
    (λ _, Ok tt).

Lemma checkHost_sound_witness :
  checkHost sample_backend 1000 1000 [MkInterval 0 100000 1000] [MkInterval 0 100000 1000]
    = Ok (MkHostIdentity "ada" 1000 1000)
  ∧ file_delegates sample_backend "/etc/subuid" (MkHostIdentity "ada" 1000 1000) 100500.
Proof.
  assert (checkHost sample_backend 1000 1000 [MkInterval 0 100000 1000] [MkInterval 0 100000 1000]
    = Ok (MkHostIdentity "ada" 1000 1000)) as H by (vm_compute; reflexivity).
  split; [exact H|]. apply checkHost_sound in H. apply (hc_uids _ _ _ _ _ _ H).
  exists (MkInterval 0 100000 1000). split; [by left|]. simpl. lia.
Defined.
