(* ===== verification/PythonClaim.v ===== *)
(** * Supported-interpreter claims

    [internal/providers/python_claim.go] and the version syntax of
    [internal/portabletool/record_validate.go]: a claim is a minor series
    ("3.11") or one exact release ("3.11.4"); sets of claims are normalised and
    intersected.

    [int] is 64 bits wide.  [sort.Slice] orders parsed claims by a comparison that is
    zero only on equal claims, so every sort gives the list of [merge_sort]. *)

From Stdlib Require Import Ascii.
From S2P Require Import Prelude GoText.

Open Scope Z_scope.

(** ** Definitions *)

Definition maxInt : Z := 2 ^ 63 - 1.

Definition validate_component (part : string) : result unit :=
  _ ← reject_if (match part with
                 | EmptyString => true
                 | String c rest => negb (bool_decide (rest = "")) && bool_decide (c = "0"%char)
                 end) "Python interpreter version is not canonical";
  _ ← reject_if (negb (string_forallb is_digit part)) "Python interpreter version is not canonical";
  reject_if (match atoi part with Some _ => false | None => true end)
    "Python interpreter version has an out-of-range component".
Definition ValidatePythonInterpreterVersionV1 (value : string) : result unit :=
  let parts := split_byte value "."%char in
  _ ← reject_if ((length parts <? 2)%nat || (3 <? length parts)%nat)
        "Python interpreter version must use major.minor or major.minor.patch";
  check_each (λ _, validate_component) None parts.

Record SupportedPythonClaimV1 := Claim {
  Major : Z;
  Minor : Z;
  Patch : Z;
  Exact : bool
}.
#[export] Instance SupportedPythonClaimV1_eq_dec : EqDecision SupportedPythonClaimV1.
Proof. solve_decision. Defined.

(** [strconv.Atoi] with its error ignored. *)
Definition atoi_value (s : string) : Z := default 0 (atoi s).

Definition ParseSupportedPythonClaimV1 (value : string) : result SupportedPythonClaimV1 :=
  _ ← ValidatePythonInterpreterVersionV1 value;
  match split_byte value "."%char with
  | [major; minor; patch] => Ok (Claim (atoi_value major) (atoi_value minor) (atoi_value patch) true)
  | major :: minor :: _ => Ok (Claim (atoi_value major) (atoi_value minor) 0 false)
  | _ => Err "unreachable: the version has two or three components"
  end.

(** [SupportedPythonClaimV1.String]; the fields of a parsed claim are not negative. *)
Definition claim_string (claim : SupportedPythonClaimV1) : string :=
  if Exact claim
  then format_uint (Major claim) +:+ "." +:+ format_uint (Minor claim) +:+ "." +:+ format_uint (Patch claim)
  else format_uint (Major claim) +:+ "." +:+ format_uint (Minor claim).

Definition compareSupportedPythonClaimsV1 (left right : SupportedPythonClaimV1) : Z :=
  if negb (Major left =? Major right) then (if Major left <? Major right then -1 else 1)
  else if negb (Minor left =? Minor right) then (if Minor left <? Minor right then -1 else 1)
  else if negb (eqb (Exact left) (Exact right)) then (if negb (Exact left) then -1 else 1)
  else if negb (Exact left) || (Patch left =? Patch right) then 0
  else if Patch left <? Patch right then -1 else 1.

Definition sameSupportedPythonMinorV1 (left right : SupportedPythonClaimV1) : bool :=
  (Major left =? Major right) && (Minor left =? Minor right).

Definition claim_le (left right : SupportedPythonClaimV1) : Prop :=
  compareSupportedPythonClaimsV1 left right ≤ 0.
#[export] Instance claim_le_dec left right : Decision (claim_le left right).
Proof. unfold claim_le. apply _. Defined.

(** The loop of [NormalizeSupportedPythonClaimsV1] over the sorted claims. *)
Fixpoint normalize_loop (previous : option SupportedPythonClaimV1) (seriesByMinor : gset (Z * Z))
    (claims : list SupportedPythonClaimV1) : list SupportedPythonClaimV1 :=
  match claims with
  | [] => []
  | claim :: rest =>
    let minorKey := (Major claim, Minor claim) in
    if bool_decide (previous = Some claim) then normalize_loop (Some claim) seriesByMinor rest
    else if negb (Exact claim) then claim :: normalize_loop (Some claim) ({[minorKey]} ∪ seriesByMinor) rest
    else if bool_decide (minorKey ∈ seriesByMinor) then normalize_loop (Some claim) seriesByMinor rest
    else claim :: normalize_loop (Some claim) seriesByMinor rest
  end.
Definition normalize_claims (claims : list SupportedPythonClaimV1) : list SupportedPythonClaimV1 :=
  normalize_loop None ∅ (merge_sort claim_le claims).
Definition NormalizeSupportedPythonClaimsV1 (values : list string) : result (list string) :=
  claims ← mapM ParseSupportedPythonClaimV1 values;
  Ok (map claim_string (normalize_claims claims)).

(** The loop of [IntersectSupportedPythonClaimsV1]; each pass drops a claim. *)
Fixpoint intersect_loop (fuel : nat) (lefts rights : list SupportedPythonClaimV1)
    : list SupportedPythonClaimV1 :=
  match fuel, lefts, rights with
  | S fuel, leftClaim :: leftRest, rightClaim :: rightRest =>
    if negb (sameSupportedPythonMinorV1 leftClaim rightClaim) then
      if compareSupportedPythonClaimsV1 leftClaim rightClaim <? 0
      then intersect_loop fuel leftRest rights
      else intersect_loop fuel lefts rightRest
    else if negb (Exact leftClaim) && Exact rightClaim then
      rightClaim :: intersect_loop fuel lefts rightRest
    else if Exact leftClaim && negb (Exact rightClaim) then
      leftClaim :: intersect_loop fuel leftRest rights
    else if negb (Exact leftClaim) && negb (Exact rightClaim) then
      leftClaim :: intersect_loop fuel leftRest rightRest
    else if Patch leftClaim =? Patch rightClaim then
      leftClaim :: intersect_loop fuel leftRest rightRest
    else if Patch leftClaim <? Patch rightClaim then intersect_loop fuel leftRest rights
    else intersect_loop fuel lefts rightRest
  | _, _, _ => []
  end.

(** [ParseSupportedPythonClaimV1] with its error ignored. *)
Definition parse_value (value : string) : SupportedPythonClaimV1 :=
  match ParseSupportedPythonClaimV1 value with Ok claim => claim | Err _ => Claim 0 0 0 false end.
Definition IntersectSupportedPythonClaimsV1 (left right : list string) : result (list string) :=
  leftNormalized ← NormalizeSupportedPythonClaimsV1 left;
  rightNormalized ← NormalizeSupportedPythonClaimsV1 right;
  let leftClaims := map parse_value leftNormalized in
  let rightClaims := map parse_value rightNormalized in
  NormalizeSupportedPythonClaimsV1
    (map claim_string (intersect_loop (length leftClaims + length rightClaims) leftClaims rightClaims)).

(** ** Text of a claim *)

Definition in_int (x : Z) : Prop := 0 ≤ x ≤ maxInt.
Definition valid_claim (c : SupportedPythonClaimV1) : Prop :=
  in_int (Major c) ∧ in_int (Minor c) ∧ in_int (Patch c) ∧ (Exact c = false → Patch c = 0).

Lemma atoi_unsigned c rest :
  is_digit c = true →
  atoi (String c rest) = match parse_digits 0 (String c rest) with
                         | Some n => if n <? 2 ^ 63 then Some n else None
                         | None => None
                         end.
Proof.
  intros Hd. unfold atoi. destruct c as [[] [] [] [] [] [] [] []]; first [discriminate Hd|reflexivity].
Qed.

Lemma atoi_format n : in_int n → atoi (format_uint n) = Some n.
Proof.
  intros Hn. unfold in_int, maxInt in Hn.
  assert (Hp := parse_format_uint n ltac:(lia)).
  destruct (format_uint_shape n) as (c & rest & Hf & Hd & _ & _); [lia|]. rewrite Hf in *.
  rewrite (atoi_unsigned c rest Hd), Hp. destruct (Z.ltb_spec n (2 ^ 63)); [done|lia].
Qed.

Lemma atoi_value_format n : in_int n → atoi_value (format_uint n) = n.
Proof. intros Hn. unfold atoi_value. by rewrite atoi_format. Qed.

Lemma format_component n : in_int n → validate_component (format_uint n) = Ok tt.
Proof.
  intros Hn. unfold validate_component. assert (Ha := atoi_format n Hn). unfold in_int in Hn.
  destruct (format_uint_shape n) as (c & rest & Hf & Hd & Hr & Hz); [lia|]. rewrite Hf in *. rewrite Ha.
  replace (negb (bool_decide (rest = "")) && bool_decide (c = "0"%char)) with false.
  - simpl. by rewrite Hd, Hr.
  - symmetry. apply andb_false_iff. destruct (decide (c = "0"%char)) as [Hc|Hc].
    + left. destruct (Hz Hc) as [_ ->]. done.
    + right. by apply bool_decide_eq_false.
Qed.

Lemma digits_no_byte s b : string_forallb is_digit s = true → is_digit b = false → contains_byte s b = false.
Proof.
  induction s as [|c s IH]; simpl; [done|]. intros [Hc Hs]%andb_true_iff Hb. rewrite IH by done.
  rewrite orb_false_r. apply bool_decide_eq_false. intros ->. congruence.
Qed.

Lemma format_no_dot n : 0 ≤ n → contains_byte (format_uint n) "."%char = false.
Proof.
  intros Hn. destruct (format_uint_shape n Hn) as (c & rest & -> & Hd & Hr & _).
  apply digits_no_byte; [|done]. simpl. by rewrite Hd, Hr.
Qed.

Lemma claim_parts c : valid_claim c →
  split_byte (claim_string c) "."%char =
  format_uint (Major c) :: format_uint (Minor c) :: (if Exact c then [format_uint (Patch c)] else []).
Proof.
  intros (H1 & H2 & H3 & _). unfold in_int in *. unfold claim_string. destruct (Exact c).
  - simpl. rewrite split_byte_app by (apply format_no_dot; lia).
    rewrite split_byte_app by (apply format_no_dot; lia).
    by rewrite split_byte_none by (apply format_no_dot; lia).
  - simpl. rewrite split_byte_app by (apply format_no_dot; lia).
    by rewrite split_byte_none by (apply format_no_dot; lia).
Qed.

(** Printing a claim and parsing it gives the claim. *)
Lemma parse_claim_string c : valid_claim c → ParseSupportedPythonClaimV1 (claim_string c) = Ok c.
Proof.
  intros Hv. unfold ParseSupportedPythonClaimV1, ValidatePythonInterpreterVersionV1.
  rewrite (claim_parts c Hv). destruct Hv as (H1 & H2 & H3 & H4).
  destruct c as [major minor patch exact]; simpl in *. destruct exact; simpl.
  - rewrite !format_component by done. simpl. by rewrite !atoi_value_format.
  - rewrite !format_component by done. simpl. rewrite !atoi_value_format by done. by rewrite H4.
Qed.
