(* ===== verification/PythonClaimFacts.v ===== *)
(** * Sets of supported-interpreter claims

    What [ParseSupportedPythonClaimV1], [NormalizeSupportedPythonClaimsV1] and
    [IntersectSupportedPythonClaimsV1] promise: claims are read and printed
    without loss, normal forms are canonical descriptions of sets of releases,
    and intersecting claims intersects those sets. *)

From Stdlib Require Import Ascii.
From S2P Require Import Prelude GoText PythonClaim.

Open Scope Z_scope.

(** ** The releases a list of claims stands for *)

(** Major, minor and patch number of a release; a series has every patch. *)
Definition release : Type := Z * Z * Z.
Definition claim_admits (c : SupportedPythonClaimV1) (r : release) : Prop :=
  r.1 = (Major c, Minor c) ∧ 0 ≤ r.2 ∧ (Exact c = true → r.2 = Patch c).
Definition admits (claims : list SupportedPythonClaimV1) (r : release) : Prop :=
  ∃ c, c ∈ claims ∧ claim_admits c r.

Definition claim_lt (left right : SupportedPythonClaimV1) : Prop :=
  compareSupportedPythonClaimsV1 left right < 0.

(** Sorted without duplicates, no release listed beside its series. *)
Definition canonical_claims (claims : list SupportedPythonClaimV1) : Prop :=
  Forall valid_claim claims ∧ StronglySorted claim_lt claims ∧
  ∀ series exact, series ∈ claims → exact ∈ claims → Exact series = false → Exact exact = true →
    sameSupportedPythonMinorV1 series exact = false.

(** ** The comparison of claims *)

Lemma claim_lt_iff a b :
  claim_lt a b ↔
  Major a < Major b ∨ Major a = Major b ∧ (Minor a < Minor b ∨ Minor a = Minor b ∧
    (Exact a = false ∧ Exact b = true ∨ Exact a = true ∧ Exact b = true ∧ Patch a < Patch b)).
Proof.
  unfold claim_lt, compareSupportedPythonClaimsV1. destruct a as [M1 m1 p1 e1], b as [M2 m2 p2 e2]; simpl.
  destruct (Z.eqb_spec M1 M2), (Z.eqb_spec m1 m2), (Z.eqb_spec p1 p2), (Z.ltb_spec M1 M2), (Z.ltb_spec m1 m2),
    (Z.ltb_spec p1 p2), e1, e2; simpl; split; intros; intuition (first [done|lia]).
Qed.

Lemma claim_le_iff a b : claim_le a b ↔ ¬ claim_lt b a.
Proof.
  rewrite claim_lt_iff. unfold claim_le, compareSupportedPythonClaimsV1.
  destruct a as [M1 m1 p1 e1], b as [M2 m2 p2 e2]; simpl.
  destruct (Z.eqb_spec M1 M2), (Z.eqb_spec m1 m2), (Z.eqb_spec p1 p2), (Z.ltb_spec M1 M2), (Z.ltb_spec m1 m2),
    (Z.ltb_spec p1 p2), e1, e2; simpl; split; intros; intuition (first [done|lia]).
Qed.

#[export] Instance claim_le_trans : Transitive claim_le.
Proof.
  intros a b c. rewrite !claim_le_iff, !claim_lt_iff. destruct (Exact a), (Exact b), (Exact c); intuition (first [done|lia]).
Qed.
#[export] Instance claim_le_total : Total claim_le.
Proof.
  intros a b. rewrite !claim_le_iff. destruct (Z_lt_dec (compareSupportedPythonClaimsV1 b a) 0) as [Hlt|]; [|by left].
  right. intros Hgt. change (claim_lt b a) in Hlt. rewrite claim_lt_iff in Hlt, Hgt.
  destruct (Exact a), (Exact b); intuition (first [done|lia]).
Qed.
#[export] Instance claim_lt_trans : Transitive claim_lt.
Proof. intros a b c. rewrite !claim_lt_iff. destruct (Exact a), (Exact b), (Exact c); intuition (first [done|lia]). Qed.
#[export] Instance claim_lt_irrefl : Irreflexive claim_lt.
Proof. intros a. unfold complement. rewrite !claim_lt_iff. destruct (Exact a); intuition (first [done|lia]). Qed.

Lemma claim_eq a b :
  Major a = Major b → Minor a = Minor b → Patch a = Patch b → Exact a = Exact b → a = b.
Proof. destruct a, b; simpl. by intros -> -> -> ->. Qed.

(** Between claims with valid fields the comparison is zero only on equal claims. *)
Lemma claim_le_lt a b : valid_claim a → valid_claim b → claim_le a b → a ≠ b → claim_lt a b.
Proof.
  intros (_ & _ & _ & Ha) (_ & _ & _ & Hb) Hle Hne. rewrite claim_le_iff, claim_lt_iff in Hle. rewrite claim_lt_iff.
  assert (¬ (Major a = Major b ∧ Minor a = Minor b ∧ Patch a = Patch b ∧ Exact a = Exact b)) as Hd.
  { intros (? & ? & ? & ?). apply Hne. by apply claim_eq. }
  destruct (Exact a), (Exact b); try specialize (Ha eq_refl); try specialize (Hb eq_refl); lia.
Qed.

Lemma same_minor_true a b :
  sameSupportedPythonMinorV1 a b = true ↔ Major a = Major b ∧ Minor a = Minor b.
Proof. unfold sameSupportedPythonMinorV1. by rewrite andb_true_iff, !Z.eqb_eq. Qed.
Lemma same_minor_false a b :
  sameSupportedPythonMinorV1 a b = false ↔ ¬ (Major a = Major b ∧ Minor a = Minor b).
Proof. by rewrite <-same_minor_true, not_true_iff_false. Qed.

(** ** Reading and printing *)

Lemma validate_component_canonical part :
  validate_component part = Ok tt → canonical_digits part ∧ ∃ n, parse_digits 0 part = Some n ∧ in_int n ∧ atoi part = Some n.
Proof.
  destruct part as [|c rest]; [done|]. unfold validate_component. intros H. go_ok.
  assert (is_digit c = true) as Hc by (simpl in *; go_bool; tauto).
  rewrite (atoi_unsigned c rest Hc) in *.
  assert (canonical_digits (String c rest)) as Hcd.
  { exists c, rest. split_and!; [done|done|]. intros ->.
    apply andb_false_iff in H0 as [H0|H0]; by go_bool. }
  split; [done|]. destruct (parse_digits 0 (String c rest)) as [n|] eqn:Hp; [|done].
  exists n. assert (0 ≤ n) by (by eapply parse_digits_ge in Hp). destruct (Z.ltb_spec n (2 ^ 63)); [|done].
  unfold in_int, maxInt. split_and!; [done|lia|lia|done].
Qed.

Lemma component_format part n : validate_component part = Ok tt → atoi_value part = n → in_int n ∧ format_uint n = part.
Proof.
  intros (Hc & m & Hp & Hm & Ha)%validate_component_canonical <-. unfold atoi_value. rewrite Ha. simpl.
  split; [done|]. by apply format_parse_digits.
Qed.

(** Reading succeeds on the printed form of a claim, and only there. *)
Lemma parse_claim_iff value c :
  ParseSupportedPythonClaimV1 value = Ok c ↔ valid_claim c ∧ claim_string c = value.
Proof.
  split; [|intros [Hv <-]; by apply parse_claim_string].
  unfold ParseSupportedPythonClaimV1, ValidatePythonInterpreterVersionV1. intros H. go_ok.
  assert (Hj := join_split value "."%char). rename select (check_each _ _ _ = _) into Hall. apply check_all in Hall.
  destruct (split_byte value "."%char) as [|p1 [|p2 [|p3 [|]]]] eqn:Hs; simpl in *; try done;
    repeat match goal with H : Forall _ (_ :: _) |- _ => apply Forall_cons in H as [? H] end;
    repeat match goal with Hv : validate_component ?p = Ok tt |- _ =>
      destruct (component_format p _ Hv eq_refl); clear Hv end; simplify_eq.
  - split; [|unfold claim_string; simpl; congruence].
    unfold valid_claim, in_int, maxInt in *. simpl. repeat split; lia.
  - split; [|unfold claim_string; simpl; congruence]. unfold valid_claim. by simpl.
Qed.

(** ** Normal forms *)

Definition minor_of (c : SupportedPythonClaimV1) : Z * Z := (Major c, Minor c).
Definition series_in (claims : list SupportedPythonClaimV1) (minor : Z * Z) : Prop :=
  ∃ c, c ∈ claims ∧ Exact c = false ∧ minor_of c = minor.

Lemma normalize_loop_sublist previous series claims : sublist (normalize_loop previous series claims) claims.
Proof.
  revert previous series. induction claims as [|c rest IH]; intros previous series; simpl; [constructor|].
  repeat case_match; by constructor.
Qed.

(** In a sorted list a series stands before the releases of its minor. *)
Lemma no_series_after c rest :
  StronglySorted claim_le (c :: rest) → Exact c = true → ¬ series_in (c :: rest) (minor_of c).
Proof.
  intros [_ Hall]%StronglySorted_inv Hc (s & Hs & He & [= HM Hm]). apply elem_of_cons in Hs as [->|Hs]; [congruence|].
  rewrite Forall_forall in Hall. specialize (Hall s Hs). rewrite claim_le_iff, claim_lt_iff in Hall.
  rewrite Hc, He in Hall. apply Hall. right. split; [done|]. right. split; [done|]. by left.
Qed.

Lemma series_in_cons d rest m :
  series_in (d :: rest) m ↔ Exact d = false ∧ minor_of d = m ∨ series_in rest m.
Proof.
  unfold series_in. setoid_rewrite elem_of_cons. split.
  - intros (s & [->|Hs] & ? & ?); [by left|]. right. by exists s.
  - intros [[? ?]|(s & ? & ? & ?)]; [exists d|exists s]; tauto.
Qed.

Lemma normalize_loop_spec previous series claims :
  StronglySorted claim_le claims → Forall valid_claim claims →
  (∀ p, previous = Some p →
    valid_claim p ∧ Forall (claim_le p) claims ∧ (Exact p = false → minor_of p ∈ series)) →
  ∀ c, c ∈ normalize_loop previous series claims ↔
    c ∈ claims ∧ previous ≠ Some c ∧
    (Exact c = true → (minor_of c ∉ series) ∧ ¬ series_in claims (minor_of c)).
Proof.
  revert previous series. induction claims as [|d rest IH]; intros previous series Hs Hv Hp c.
  { simpl. by split; [intros ?%elem_of_nil|intros (?%elem_of_nil & _)]. }
  apply Forall_cons in Hv as [Hvd Hv]. assert (Hs' := Hs). apply StronglySorted_inv in Hs as [Hs Hd].
  assert (∀ p, previous = Some p → p ≠ d → p ∉ rest) as Hpr.
  { intros p Hpp Hne Hin. destruct (Hp p Hpp) as (Hvp & Hall & _). apply Forall_cons in Hall as [Hpd _].
    apply claim_le_lt in Hpd; [|done..]. rewrite Forall_forall in Hd. specialize (Hd p Hin).
    by apply claim_le_iff in Hd. }
  assert (∀ series', (Exact d = false → minor_of d ∈ series') →
    c ∈ normalize_loop (Some d) series' rest ↔ c ∈ rest ∧ d ≠ c ∧
      (Exact c = true → (minor_of c ∉ series') ∧ ¬ series_in rest (minor_of c))) as IH'.
  { intros series' Hse. rewrite IH; [|done|done|by intros ? [= <-]]. naive_solver. }
  simpl. rewrite series_in_cons. case_bool_decide as Hprev.
  { assert (Exact d = false → minor_of d ∈ series) as Hse by (by apply Hp). rewrite (IH' series Hse), elem_of_cons.
    subst previous. split.
    - intros (? & ? & Hc). split_and!; [by right|congruence|]. intros He. destruct (Hc He). split; [done|].
      intros [[? Hm]|?]; [|done]. rewrite <-Hm in *. tauto.
    - intros ([->|?] & ? & Hc); [done|]. split_and!; [done|congruence|]. intros He. destruct (Hc He). tauto. }
  assert (c ∈ rest → previous ≠ Some c) as Hpc.
  { intros Hin ->. destruct (decide (c = d)) as [->|Hne]; [done|by apply (Hpr c)]. }
  clear Hpr IH Hp. destruct (Exact d) eqn:He; simpl.
  - assert (c = d → ¬ series_in (d :: rest) (minor_of c)) as Hnd by (intros ->; by apply no_series_after).
    rewrite series_in_cons in Hnd. clear Hs' Hs Hd Hv Hvd.
    case_bool_decide as Hin; rewrite ?elem_of_cons, IH' by done; clear IH'; destruct (decide (c = d)) as [->|Hne].
    + split; [tauto|]. intros (_ & _ & Hc). by destruct (Hc He).
    + assert (d ≠ c) by congruence. clear He. intuition congruence.
    + split; [|tauto]. intros _. split_and!; [tauto|done|]. intros _. split; [done|]. rewrite <-He. by apply Hnd.
    + assert (d ≠ c) by congruence. clear He. intuition congruence.
  - rewrite !elem_of_cons, IH' by set_solver. fold (minor_of d). clear IH' Hs' Hs Hd Hv Hvd.
    rewrite elem_of_union, elem_of_singleton. destruct (decide (c = d)) as [->|Hne].
    + split; [|tauto]. intros _. split_and!; [by left|done|congruence].
    + assert (d ≠ c) by congruence. assert (minor_of c = minor_of d ↔ minor_of d = minor_of c) as -> by done.
      clear He. tauto.
Qed.

Lemma sort_claims claims : StronglySorted claim_le (merge_sort claim_le claims) ∧ merge_sort claim_le claims ≡ₚ claims.
Proof. split; [apply (StronglySorted_merge_sort claim_le)|apply merge_sort_Permutation]. Qed.

#[export] Instance series_in_proper : Proper ((≡ₚ) ==> (=) ==> (iff)) series_in.
Proof. intros l k Hlk m ? <-. unfold series_in. by setoid_rewrite Hlk. Qed.

(** Which claims a normal form keeps. *)
Lemma elem_of_normalize claims c :
  Forall valid_claim claims →
  c ∈ normalize_claims claims ↔ c ∈ claims ∧ (Exact c = true → ¬ series_in claims (minor_of c)).
Proof.
  intros Hv. destruct (sort_claims claims) as [Hs Hp]. unfold normalize_claims.
  rewrite normalize_loop_spec; [|done|by rewrite Hp|done]. rewrite Hp. split.
  - intros (Hc & _ & Hx). split; [done|]. by intros [_ ?]%Hx.
  - intros (Hc & Hx). split_and!; [done|done|]. intros He%Hx. by split; [set_solver|].
Qed.

Lemma normalize_loop_sorted previous series claims :
  StronglySorted claim_le claims → Forall valid_claim claims →
  (∀ p, previous = Some p →
    valid_claim p ∧ Forall (claim_le p) claims ∧ (Exact p = false → minor_of p ∈ series)) →
  StronglySorted claim_lt (normalize_loop previous series claims).
Proof.
  revert previous series. induction claims as [|d rest IH]; intros previous series Hs Hv Hp; simpl; [constructor|].
  apply Forall_cons in Hv as [Hvd Hv]. apply StronglySorted_inv in Hs as [Hs Hd].
  assert (∀ series', (Exact d = false → minor_of d ∈ series') →
    StronglySorted claim_lt (normalize_loop (Some d) series' rest) ∧
    StronglySorted claim_lt (d :: normalize_loop (Some d) series' rest)) as HIH.
  { intros series' Hse. assert (∀ p, Some d = Some p →
      valid_claim p ∧ Forall (claim_le p) rest ∧ (Exact p = false → minor_of p ∈ series')) by (by intros ? [= <-]).
    split; [by apply IH|]. constructor; [by apply IH|]. apply Forall_forall. intros c Hc.
    apply normalize_loop_spec in Hc as (Hc & Hne & _); [|done..].
    rewrite Forall_forall in Hd, Hv. apply claim_le_lt; [done|by apply Hv|by apply Hd|congruence]. }
  case_bool_decide as Hprev; [apply HIH; by apply Hp|].
  destruct (Exact d); simpl; [|apply HIH; set_solver]. case_bool_decide; by apply HIH.
Qed.

Lemma normalize_canonical claims : Forall valid_claim claims → canonical_claims (normalize_claims claims).
Proof.
  intros Hv. destruct (sort_claims claims) as [Hs Hp]. split_and!.
  - eapply Forall_sublist; [apply normalize_loop_sublist|]. by rewrite Hp.
  - apply normalize_loop_sorted; [done|by rewrite Hp|done].
  - intros s x (Hins & _)%elem_of_normalize (Hinx & Hx)%elem_of_normalize Hes Hex; [|done..].
    apply same_minor_false. intros [HM Hm]. apply Hx; [done|]. exists s. unfold minor_of. by rewrite HM, Hm.
Qed.

(** A normal form stands for the same releases. *)
Lemma normalize_admits claims r :
  Forall valid_claim claims → admits (normalize_claims claims) r ↔ admits claims r.
Proof.
  intros Hv. split.
  - intros (c & (Hc & _)%elem_of_normalize & Ha); [|done]. by exists c.
  - intros (c & Hc & Ha).
    assert (c ∈ normalize_claims claims ∨ series_in claims (minor_of c)) as [Hn|(s & Hs & He & Hm)].
    { destruct (Exact c) eqn:Hex.
      - destruct (decide (Exists (λ s, Exact s = false ∧ minor_of s = minor_of c) claims)) as [Hx|Hx].
        + right. by apply Exists_exists in Hx.
        + left. apply elem_of_normalize; [done|]. split; [done|]. intros _ (s & Hs). apply Hx, Exists_exists. by exists s.
      - left. apply elem_of_normalize; [done|]. split; [done|congruence]. }
    + by exists c.
    + exists s. split; [apply elem_of_normalize; [done|]; split; [done|congruence]|].
      destruct Ha as (Hr & H0 & _). split_and!; [|done|congruence]. rewrite Hr. symmetry. exact Hm.
Qed.

Lemma series_in_same_releases l k c :
  Forall valid_claim l → Forall valid_claim k → (∀ r, admits l r → admits k r) →
  c ∈ l → Exact c = false → c ∈ k.
Proof.
  intros Hvl Hvk Hsub Hc He.
  assert (∃ bound, 0 ≤ bound ∧ Forall (λ d, Patch d < bound) k) as (p & H0 & Hp).
  { clear. induction k as [|d k (b & ? & IH)]; [by exists 0|]. exists (Z.max b (Patch d + 1)). split; [lia|].
    constructor; [lia|]. eapply Forall_impl; [done|]. intros ? ?. simpl in *. lia. }
  destruct (Hsub (minor_of c, p)) as (d & Hd & Hr & _ & Hx).
  { exists c. split; [done|]. split_and!; [done|done|congruence]. }
  rewrite Forall_forall in Hvl, Hvk, Hp. destruct (Exact d) eqn:Hed.
  { specialize (Hp d Hd). specialize (Hx eq_refl). simpl in *. lia. }
  destruct (Hvl c Hc) as (_ & _ & _ & Hpc), (Hvk d Hd) as (_ & _ & _ & Hpd).
  injection Hr as HM Hm. replace c with d; [done|]. apply claim_eq; try done; try congruence.
  by rewrite Hpc, Hpd.
Qed.

Lemma canonical_subset l k c :
  canonical_claims l → canonical_claims k → (∀ r, admits l r ↔ admits k r) → c ∈ l → c ∈ k.
Proof.
  intros (Hvl & _ & Hl) (Hvk & _ & _) Heq Hc. destruct (Exact c) eqn:He.
  - assert (valid_claim c) as (_ & _ & Hpc & _) by (by rewrite Forall_forall in Hvl; apply Hvl). unfold in_int in Hpc.
    destruct (proj1 (Heq (minor_of c, Patch c))) as (d & Hd & [= HM Hm] & _ & Hx).
    { exists c. split; [done|]. split_and!; [done|simpl; lia|done]. }
    destruct (Exact d) eqn:Hed; [|exfalso].
    + replace c with d; [done|]. apply claim_eq; try done; [symmetry; by apply Hx|congruence].
    + assert (d ∈ l) by (apply (series_in_same_releases k); [done|done|apply Heq|done|done]).
      assert (sameSupportedPythonMinorV1 d c = false) as Hs%same_minor_false by (by apply Hl). by apply Hs.
  - apply (series_in_same_releases l); try done. apply Heq.
Qed.

Lemma claims_sorted_NoDup l : StronglySorted claim_lt l → NoDup l.
Proof.
  induction 1 as [|c l Hl IH Hc]; constructor; [|done]. intros Hin. rewrite Forall_forall in Hc.
  by apply (claim_lt_irrefl c), Hc.
Qed.

(** Canonical lists that stand for the same releases are equal. *)
Lemma canonical_claims_unique l k :
  canonical_claims l → canonical_claims k → (∀ r, admits l r ↔ admits k r) → l = k.
Proof.
  intros Hl Hk Heq. assert (Hl' := Hl). assert (Hk' := Hk). destruct Hl as (_ & Hsl & _), Hk as (_ & Hsk & _).
  assert (AntiSymm (=) claim_lt) as Hanti.
  { intros a b Hab Hba. exfalso. apply (claim_lt_irrefl a). by etrans. }
  apply (StronglySorted_unique claim_lt); [done|done|]. apply NoDup_Permutation; [by apply claims_sorted_NoDup..|].
  intros c. split; [by apply canonical_subset|]. apply canonical_subset; [done|done|]. intros r. by rewrite Heq.
Qed.

(** ** Lists of texts *)

Lemma read_claims values claims :
  mapM ParseSupportedPythonClaimV1 values = Ok claims ↔
  Forall valid_claim claims ∧ map claim_string claims = values.
Proof.
  revert claims. induction values as [|v values IH]; intros claims; simpl.
  { split; [by intros [= <-]|]. intros [_ H]. by destruct claims. }
  rewrite bind_ok. split.
  - intros (c & [? <-]%parse_claim_iff & (cs & [? <-]%IH & [= <-])%bind_ok). split; [by constructor|done].
  - intros [Hv Hm]. destruct claims as [|c cs]; [done|]. apply Forall_cons in Hv as [? ?]. injection Hm as ? ?.
    exists c. split; [by apply parse_claim_iff|]. apply bind_ok. exists cs. split; [by apply IH|done].
Qed.

Lemma read_printed claims :
  Forall valid_claim claims → mapM ParseSupportedPythonClaimV1 (map claim_string claims) = Ok claims.
Proof. intros Hv. by apply read_claims. Qed.

Lemma read_all_ok values :
  is_ok (mapM ParseSupportedPythonClaimV1 values) = forallb (λ v, is_ok (ParseSupportedPythonClaimV1 v)) values.
Proof.
  induction values as [|v values IH]; simpl; [done|].
  destruct (ParseSupportedPythonClaimV1 v); simpl; [|done]. rewrite <-IH. by destruct (mapM _ values).
Qed.

Lemma NormalizeSupported_ok values claims :
  mapM ParseSupportedPythonClaimV1 values = Ok claims →
  NormalizeSupportedPythonClaimsV1 values = Ok (map claim_string (normalize_claims claims)).
Proof. unfold NormalizeSupportedPythonClaimsV1. by intros ->. Qed.

(** ** Intersection *)

Lemma admits_cons c l r : admits (c :: l) r ↔ claim_admits c r ∨ admits l r.
Proof.
  unfold admits. setoid_rewrite elem_of_cons. split.
  - intros (d & [->|?] & ?); [by left|right; by exists d].
  - intros [?|(d & ? & ?)]; [exists c|exists d]; tauto.
Qed.

Lemma canonical_rest c l : canonical_claims (c :: l) → valid_claim c ∧ Forall (claim_lt c) l ∧ canonical_claims l.
Proof.
  intros ([? ?]%Forall_cons & [? ?]%StronglySorted_inv & Hx). split_and!; [done|done|]. split_and!; [done|done|].
  intros s e Hs He. by apply Hx; right.
Qed.

(** A claim below the head of a list shares no release with the list, unless
    it is the series of the head. *)
Lemma below_disjoint d e k r :
  Forall (claim_lt e) k → claim_lt d e → (sameSupportedPythonMinorV1 d e = true → Exact d = true) →
  claim_admits d r → ¬ admits (e :: k) r.
Proof.
  intros Hk Hde Hsame (Hrd & _ & Hxd) (c & Hc & Hrc & _ & Hxc). rewrite same_minor_true in Hsame.
  rewrite Hrd in Hrc. injection Hrc as HM Hm. apply claim_lt_iff in Hde.
  assert (c = e ∨ claim_lt e c) as Hec by (rewrite Forall_forall in Hk; apply elem_of_cons in Hc as [->|Hc]; auto).
  rewrite claim_lt_iff in Hec.
  assert (Exact d = true) as Hd by (apply Hsame; destruct Hec as [->|?]; lia). specialize (Hxd Hd). clear Hsame Hk Hc Hrd.
  destruct Hec as [->|Hec]; rewrite Hd in Hde; [destruct (Exact e)|destruct (Exact e), (Exact c)];
    try specialize (Hxc eq_refl); intuition (first [done|lia]).
Qed.

(** An exact claim in a series stands for one of its releases. *)
Lemma admits_in_series series c r :
  sameSupportedPythonMinorV1 series c = true → Exact series = false → claim_admits c r → claim_admits series r.
Proof.
  rewrite same_minor_true. intros [HM Hm] He (Hr & H0 & _). split_and!; [|done|congruence]. by rewrite HM, Hm.
Qed.

Lemma admits_same c d r :
  sameSupportedPythonMinorV1 c d = true → Exact c = Exact d → Patch c = Patch d → claim_admits c r ↔ claim_admits d r.
Proof. rewrite same_minor_true. unfold claim_admits. by intros [-> ->] -> ->. Qed.

Lemma intersect_loop_spec fuel l k :
  canonical_claims l → canonical_claims k → (length l + length k ≤ fuel)%nat →
  Forall valid_claim (intersect_loop fuel l k) ∧ ∀ r, admits (intersect_loop fuel l k) r ↔ admits l r ∧ admits k r.
Proof.
  assert (∀ r, ¬ admits [] r) as Hnil by (by intros r (? & ?%elem_of_nil & _)).
  revert l k. induction fuel as [|fuel IH]; intros [|d l] [|e k] Hl Hk Hf; simpl in Hf |- *;
    try (split; [constructor|intros r; specialize (Hnil r); tauto]); [lia|].
  destruct (canonical_rest d l Hl) as (Hvd & Hdl & Hl'), (canonical_rest e k Hk) as (Hve & Hek & Hk').
  destruct (IH l (e :: k) Hl' Hk ltac:(simpl; lia)) as [Hv1 H1], (IH (d :: l) k Hl Hk' ltac:(simpl; lia)) as [Hv2 H2],
    (IH l k Hl' Hk' ltac:(lia)) as [Hv3 H3]. clear IH.
  assert (claim_lt d e → (sameSupportedPythonMinorV1 d e = true → Exact d = true) →
    ∀ r, admits (intersect_loop fuel l (e :: k)) r ↔ admits (d :: l) r ∧ admits (e :: k) r) as HL.
  { intros Hlt Hs r. rewrite H1, (admits_cons d). assert (Hb := below_disjoint d e k r Hek Hlt Hs). tauto. }
  assert (claim_lt e d → (sameSupportedPythonMinorV1 e d = true → Exact e = true) →
    ∀ r, admits (intersect_loop fuel (d :: l) k) r ↔ admits (d :: l) r ∧ admits (e :: k) r) as HR.
  { intros Hlt Hs r. rewrite H2, (admits_cons e). assert (Hb := below_disjoint e d l r Hdl Hlt Hs). tauto. }
  clear Hl Hk Hl' Hk' Hdl Hek Hf.
  assert (sameSupportedPythonMinorV1 e d = sameSupportedPythonMinorV1 d e) as Hsym.
  { unfold sameSupportedPythonMinorV1. by rewrite (Z.eqb_sym (Major d)), (Z.eqb_sym (Minor d)). }
  rewrite Hsym in HR. destruct (sameSupportedPythonMinorV1 d e) eqn:Hs; simpl.
  - rewrite claim_lt_iff in HL, HR. assert (Hm := Hs). apply same_minor_true in Hm as [HM Hm].
    destruct (Exact d) eqn:Hd, (Exact e) eqn:He; simpl.
    + destruct (Z.eqb_spec (Patch d) (Patch e)) as [Hp|Hp]; [|destruct (Z.ltb_spec (Patch d) (Patch e))].
      * split; [by constructor|]. intros r. rewrite !admits_cons, H3, <-(admits_same d e) by congruence. tauto.
      * split; [done|]. apply HL; [intuition lia|done].
      * split; [done|]. apply HR; [intuition lia|done].
    + split; [by constructor|]. intros r. rewrite !admits_cons, H1, !admits_cons.
      assert (Hi := admits_in_series e d r). rewrite Hsym in Hi. tauto.
    + split; [by constructor|]. intros r. rewrite !admits_cons, H2, !admits_cons.
      assert (Hi := admits_in_series d e r). tauto.
    + split; [by constructor|]. intros r. rewrite !admits_cons, H3, (admits_same d e); [tauto|done|congruence|].
      destruct Hvd as (_ & _ & _ & Hpd), Hve as (_ & _ & _ & Hpe). by rewrite Hpd, Hpe.
  - destruct (Z.ltb_spec (compareSupportedPythonClaimsV1 d e) 0) as [Hlt|Hge].
    + split; [done|]. by apply HL.
    + split; [done|]. apply HR; [|done]. apply claim_le_lt; [done|done|apply claim_le_iff; unfold claim_lt; lia|].
      intros ->. apply same_minor_false in Hs. by apply Hs.
Qed.

Lemma parse_values claims : Forall valid_claim claims → map parse_value (map claim_string claims) = claims.
Proof.
  induction 1 as [|c claims Hc _ IH]; simpl; [done|]. unfold parse_value at 1. rewrite parse_claim_string by done. by f_equal.
Qed.

Lemma IntersectSupported_ok left right leftClaims rightClaims :
  mapM ParseSupportedPythonClaimV1 left = Ok leftClaims → mapM ParseSupportedPythonClaimV1 right = Ok rightClaims →
  ∃ normal, IntersectSupportedPythonClaimsV1 left right = Ok (map claim_string normal) ∧ canonical_claims normal ∧
    ∀ r, admits normal r ↔ admits leftClaims r ∧ admits rightClaims r.
Proof.
  intros Hl Hr. unfold IntersectSupportedPythonClaimsV1.
  rewrite (NormalizeSupported_ok _ _ Hl), bind_Ok, (NormalizeSupported_ok _ _ Hr), bind_Ok. cbv zeta.
  apply read_claims in Hl as [Hl _], Hr as [Hr _].
  assert (canonical_claims (normalize_claims leftClaims)) as Hcl by (by apply normalize_canonical).
  assert (canonical_claims (normalize_claims rightClaims)) as Hcr by (by apply normalize_canonical).
  rewrite !parse_values by (by apply Hcl || by apply Hcr).
  edestruct (intersect_loop_spec _ _ _ Hcl Hcr (Nat.le_refl _)) as [Hv Ha].
  erewrite NormalizeSupported_ok by (by apply read_printed).
  eexists. split; [done|]. split; [by apply normalize_canonical|]. intros r.
  by rewrite normalize_admits, Ha, !normalize_admits.
Qed.

Lemma canonical_texts l k :
  canonical_claims l → canonical_claims k → (∀ r, admits l r ↔ admits k r) → map claim_string l = map claim_string k.
Proof. intros. f_equal. by apply canonical_claims_unique. Qed.

(** ** Theorems *)

(** [ParseSupportedPythonClaimV1] accepts exactly the texts that printing a
    claim with components in the range of [int] gives, and returns that claim:
    reading and printing are inverse to each other. *)
Theorem ParseSupportedPythonClaimV1_spec value c :
  ParseSupportedPythonClaimV1 value = Ok c ↔ valid_claim c ∧ claim_string c = value.
Proof. apply parse_claim_iff. Qed.

(** [NormalizeSupportedPythonClaimsV1] succeeds exactly when every text is a
    claim, and its result is the one canonical list (sorted, without
    duplicates, without a release whose series is listed) that stands for the
    same releases as its argument. *)
Theorem NormalizeSupportedPythonClaimsV1_spec values :
  is_ok (NormalizeSupportedPythonClaimsV1 values) = forallb (λ v, is_ok (ParseSupportedPythonClaimV1 v)) values ∧
  ∀ out, NormalizeSupportedPythonClaimsV1 values = Ok out ↔
    ∃ claims normal, mapM ParseSupportedPythonClaimV1 values = Ok claims ∧
      mapM ParseSupportedPythonClaimV1 out = Ok normal ∧ canonical_claims normal ∧
      ∀ r, admits normal r ↔ admits claims r.
Proof.
  rewrite <-read_all_ok. split.
  { unfold NormalizeSupportedPythonClaimsV1. by destruct (mapM ParseSupportedPythonClaimV1 values). }
  intros out. split.
  - intros H. assert (H' := H). unfold NormalizeSupportedPythonClaimsV1 in H'. apply bind_ok in H' as (claims & Hr & [= <-]).
    assert (Hv := Hr). apply read_claims in Hv as [Hv _]. exists claims, (normalize_claims claims).
    split; [done|]. split; [by apply read_printed, normalize_canonical|]. split; [by apply normalize_canonical|].
    intros r. by apply normalize_admits.
  - intros (claims & normal & Hr & [Hvn <-]%read_claims & Hn & Ha). rewrite (NormalizeSupported_ok _ _ Hr). f_equal.
    apply read_claims in Hr as [Hr _]. apply canonical_texts; [by apply normalize_canonical|done|].
    intros r. by rewrite normalize_admits, Ha.
Qed.

(** [IntersectSupportedPythonClaimsV1] succeeds exactly when every text of
    both lists is a claim, and its result is the canonical list that stands for
    the releases both lists stand for. *)
Theorem IntersectSupportedPythonClaimsV1_spec left right :
  is_ok (IntersectSupportedPythonClaimsV1 left right) =
    forallb (λ v, is_ok (ParseSupportedPythonClaimV1 v)) (left ++ right) ∧
  ∀ out, IntersectSupportedPythonClaimsV1 left right = Ok out ↔
    ∃ leftClaims rightClaims normal,
      mapM ParseSupportedPythonClaimV1 left = Ok leftClaims ∧ mapM ParseSupportedPythonClaimV1 right = Ok rightClaims ∧
      mapM ParseSupportedPythonClaimV1 out = Ok normal ∧ canonical_claims normal ∧
      ∀ r, admits normal r ↔ admits leftClaims r ∧ admits rightClaims r.
Proof.
  rewrite forallb_app, <-!read_all_ok.
  destruct (mapM ParseSupportedPythonClaimV1 left) as [lc|e] eqn:Hl;
    [destruct (mapM ParseSupportedPythonClaimV1 right) as [rc|e] eqn:Hr|]; simpl.
  - destruct (IntersectSupported_ok left right lc rc Hl Hr) as (normal & Hi & Hc & Ha). rewrite Hi. split; [done|].
    intros out. split.
    + intros [= <-]. exists lc, rc, normal. split_and!; [done|done| |done|done]. apply read_printed, Hc.
    + intros (? & ? & k & [= <-] & [= <-] & [_ <-]%read_claims & Hk & Hak). f_equal.
      apply canonical_texts; [done|done|]. intros r. by rewrite Ha, Hak.
  - unfold IntersectSupportedPythonClaimsV1, NormalizeSupportedPythonClaimsV1. rewrite Hl, Hr. simpl. split; [done|].
    intros out. split; [done|]. by intros (? & ? & ? & _ & ? & _).
  - unfold IntersectSupportedPythonClaimsV1, NormalizeSupportedPythonClaimsV1. rewrite Hl. simpl. split; [done|].
    intros out. split; [done|]. by intros (? & ? & ? & ? & _).
Qed.

Example intersect_example :
  IntersectSupportedPythonClaimsV1 ["3.11"; "3.12.4"; "3.10.2"; "3.12.1"] ["3.12"; "3.10.3"; "3.11.9"; "3.11.9"] =
  Ok ["3.11.9"; "3.12.1"; "3.12.4"].
Proof. vm_compute. reflexivity. Qed.
