(* ===== verification/PythonVersion.v ===== *)
(** * Python release constraints

    [internal/providers/python/version.go]: version specifiers are parsed into
    one constraint on releases, a constraint is evaluated on a release, and two
    questions are answered about a minor series: does the constraint admit some
    release of it, and does it admit all of them.

    A release is its list of components.  [int] is 64 bits wide; every increment
    of the code is guarded against overflow and the guards are here.  A Go map
    used as a set is a [gset]; [nil] slices that are told apart from empty ones
    are options. *)

From Stdlib Require Import Ascii.
From S2P Require Import Prelude GoText PythonClaim.

Open Scope Z_scope.

(** ** Release numbers *)

Definition pythonReleaseComponentV1 (release : list Z) (index : nat) : Z := default 0 (release !! index).

(** The operators in the order in which they are tried. *)
Definition version_operators : list string := ["==="; "~="; "=="; "!="; "<="; ">="; "<"; ">"].
Fixpoint split_operator (operators : list string) (value : string) : option (string * string) :=
  match operators with
  | [] => None
  | operator :: operators =>
    match cut_prefix value operator with
    | Some expected =>
      let expected := trim_space expected in
      if bool_decide (expected = "") then None else Some (operator, expected)
    | None => split_operator operators value
    end
  end.
Definition splitVersionSpecifier (value : string) : option (string * string) :=
  split_operator version_operators value.

Definition parse_part (part : string) : option Z :=
  if bool_decide (part = "") then None
  else match atoi part with
       | Some parsed => if parsed <? 0 then None else Some parsed
       | None => None
       end.
Definition parseReleaseVersion (value : string) : option (list Z) :=
  let value := trim_space value in
  let after_epoch := match cut_byte value "!"%char with
                     | Some (epoch, rest) => if bool_decide (atoi epoch = Some 0) then Some rest else None
                     | None => Some value
                     end in
  match after_epoch with
  | None => None
  | Some value =>
    let value := match cut_byte value "+"%char with Some (public, _) => public | None => value end in
    mapM parse_part (split_byte value "."%char)
  end.

(** The loop up to the longer length; a missing component counts as zero. *)
Fixpoint compare_from (steps index : nat) (left right : list Z) : Z :=
  match steps with
  | O => 0
  | S steps =>
    let leftPart := pythonReleaseComponentV1 left index in
    let rightPart := pythonReleaseComponentV1 right index in
    if leftPart <? rightPart then -1
    else if rightPart <? leftPart then 1
    else compare_from steps (S index) left right
  end.
Definition compareReleaseVersions (left right : list Z) : Z :=
  compare_from (length left `max` length right) 0 left right.

Definition releaseHasPrefix (version prefix : list Z) : bool :=
  forallb (λ index, pythonReleaseComponentV1 version index =? pythonReleaseComponentV1 prefix index)
          (seq 0 (length prefix)).
Definition releaseHasLiteralPrefixV1 (version prefix : list Z) : bool :=
  if (length version <? length prefix)%nat then false
  else forallb (λ index, pythonReleaseComponentV1 version index =? pythonReleaseComponentV1 prefix index)
               (seq 0 (length prefix)).

Definition nextReleasePrefixV1 (prefix : list Z) : option (list Z) :=
  match last prefix with
  | None => None
  | Some component => if component =? maxInt then None else Some (removelast prefix ++ [component + 1])
  end.

(** [for index := 3; index < len(release); index++ { if release[index] != 0 ... }]. *)
Definition zero_after_patch (release : list Z) : bool := forallb (λ component, component =? 0) (drop 3 release).

Definition pythonCanonicalInterpreterPatchV1 (release : list Z) (major minor : Z) : option Z :=
  if negb (pythonReleaseComponentV1 release 0 =? major) || negb (pythonReleaseComponentV1 release 1 =? minor) then None
  else if negb (zero_after_patch release) then None
  else Some (pythonReleaseComponentV1 release 2).

Definition pythonExactReleaseMatchesPrefixV1 (exact prefix : list Z) : bool :=
  if negb (zero_after_patch exact) then false
  else releaseHasPrefix [pythonReleaseComponentV1 exact 0; pythonReleaseComponentV1 exact 1;
                         pythonReleaseComponentV1 exact 2] prefix.

Definition pythonCanonicalInterpreterReleaseV1 (major minor patch : Z) : list Z * string :=
  ([major; minor; patch],
   format_uint major +:+ "." +:+ format_uint minor +:+ "." +:+ format_uint patch).

(** ** Bounds and constraints *)

Record pythonReleaseBoundV1 := Bound { version : list Z; inclusive : bool; set : bool }.
Definition unset_bound : pythonReleaseBoundV1 := Bound [] false false.

Record pythonReleaseConstraintV1 := Constraint {
  lower : pythonReleaseBoundV1;
  upper : pythonReleaseBoundV1;
  equality : option (list Z);
  equalityPrefix : bool;
  strict : string;
  excludedExact : list (list Z);
  excludedPrefixes : list (list Z);
  unsatisfiable : bool
}.

Definition any_release : pythonReleaseConstraintV1 :=
  Constraint (Bound [0] true true) unset_bound None false "" [] [] false.

Definition set_lower (c : pythonReleaseConstraintV1) b :=
  Constraint b (upper c) (equality c) (equalityPrefix c) (strict c) (excludedExact c) (excludedPrefixes c) (unsatisfiable c).
Definition set_upper (c : pythonReleaseConstraintV1) b :=
  Constraint (lower c) b (equality c) (equalityPrefix c) (strict c) (excludedExact c) (excludedPrefixes c) (unsatisfiable c).
Definition set_equality (c : pythonReleaseConstraintV1) release prefix :=
  Constraint (lower c) (upper c) (Some release) prefix (strict c) (excludedExact c) (excludedPrefixes c) (unsatisfiable c).
Definition set_strict (c : pythonReleaseConstraintV1) text :=
  Constraint (lower c) (upper c) (equality c) (equalityPrefix c) text (excludedExact c) (excludedPrefixes c) (unsatisfiable c).
Definition exclude_exact (c : pythonReleaseConstraintV1) release :=
  Constraint (lower c) (upper c) (equality c) (equalityPrefix c) (strict c) (excludedExact c ++ [release]) (excludedPrefixes c) (unsatisfiable c).
Definition exclude_prefix (c : pythonReleaseConstraintV1) release :=
  Constraint (lower c) (upper c) (equality c) (equalityPrefix c) (strict c) (excludedExact c) (excludedPrefixes c ++ [release]) (unsatisfiable c).
Definition unsatisfiable_if (condition : bool) (c : pythonReleaseConstraintV1) :=
  Constraint (lower c) (upper c) (equality c) (equalityPrefix c) (strict c) (excludedExact c) (excludedPrefixes c)
    (unsatisfiable c || condition).

(** The bound that [constrainPythonLowerV1] and [pythonIntervalConstrainLowerV1]
    store, and the one their upper counterparts store. *)
Definition raise_lower (bound : pythonReleaseBoundV1) (release : list Z) (incl : bool) : pythonReleaseBoundV1 :=
  if negb (set bound) || (0 <? compareReleaseVersions release (version bound)) then Bound release incl true
  else if compareReleaseVersions release (version bound) =? 0
       then Bound (version bound) (inclusive bound && incl) (set bound)
  else bound.
Definition drop_upper (bound : pythonReleaseBoundV1) (release : list Z) (incl : bool) : pythonReleaseBoundV1 :=
  if negb (set bound) || (compareReleaseVersions release (version bound) <? 0) then Bound release incl true
  else if compareReleaseVersions release (version bound) =? 0
       then Bound (version bound) (inclusive bound && incl) (set bound)
  else bound.

Definition constrainPythonLowerV1 (c : pythonReleaseConstraintV1) (release : list Z) (incl : bool) :=
  set_lower c (raise_lower (lower c) release incl).
Definition constrainPythonUpperV1 (c : pythonReleaseConstraintV1) (release : list Z) (incl : bool) :=
  set_upper c (drop_upper (upper c) release incl).

Definition constrainPythonPrefixV1 (c : pythonReleaseConstraintV1) (prefix : list Z)
    : option pythonReleaseConstraintV1 :=
  match nextReleasePrefixV1 prefix with
  | None => None
  | Some next => Some (constrainPythonUpperV1 (constrainPythonLowerV1 c prefix true) next false)
  end.

(** The constraint after the call, and what the call returns. *)
Definition constrainPythonEqualityV1 (c : pythonReleaseConstraintV1) (expected : list Z) (prefix : bool)
    : pythonReleaseConstraintV1 * bool :=
  match equality c with
  | None => (set_equality c expected prefix, true)
  | Some current =>
    if negb (equalityPrefix c) && negb prefix then (c, compareReleaseVersions current expected =? 0)
    else if negb (equalityPrefix c) && prefix then (c, pythonExactReleaseMatchesPrefixV1 current expected)
    else if equalityPrefix c && negb prefix then
      if negb (pythonExactReleaseMatchesPrefixV1 expected current) then (c, false)
      else (set_equality c expected false, true)
    else if releaseHasLiteralPrefixV1 current expected then (c, true)
    else if releaseHasLiteralPrefixV1 expected current then (set_equality c expected (equalityPrefix c), true)
    else (c, false)
  end.
(** [if !constrainPythonEqualityV1(...) { constraint.unsatisfiable = true }]. *)
Definition require_equality (c : pythonReleaseConstraintV1) (expected : list Z) (prefix : bool)
    : pythonReleaseConstraintV1 :=
  let '(c, ok) := constrainPythonEqualityV1 c expected prefix in unsatisfiable_if (negb ok) c.

Definition pythonConstraintIntervalEmptyV1 (c : pythonReleaseConstraintV1) : bool :=
  let equality_outside :=
    match equality c with
    | None => false
    | Some equal =>
      if equalityPrefix c then
        match nextReleasePrefixV1 equal with
        | None => true
        | Some next =>
          (set (lower c) && (compareReleaseVersions next (version (lower c)) <=? 0)) ||
          (set (upper c) &&
            ((0 <? compareReleaseVersions equal (version (upper c))) ||
             (compareReleaseVersions equal (version (upper c)) =? 0) && negb (inclusive (upper c))))
        end
      else
        (set (lower c) && ((compareReleaseVersions equal (version (lower c)) <? 0) ||
           (compareReleaseVersions equal (version (lower c)) =? 0) && negb (inclusive (lower c)))) ||
        (set (upper c) && ((0 <? compareReleaseVersions equal (version (upper c))) ||
           (compareReleaseVersions equal (version (upper c)) =? 0) && negb (inclusive (upper c))))
    end in
  if equality_outside then true
  else if negb (set (upper c)) then false
  else
    let comparison := compareReleaseVersions (version (lower c)) (version (upper c)) in
    (0 <? comparison) || (comparison =? 0) && (negb (inclusive (lower c)) || negb (inclusive (upper c))).

Definition allows (c : pythonReleaseConstraintV1) (actual : list Z) (raw : string) : bool :=
  if unsatisfiable c then false
  else if negb (bool_decide (strict c = "")) && negb (bool_decide (raw = strict c)) then false
  else if (match equality c with
           | None => false
           | Some equal => if equalityPrefix c then negb (releaseHasPrefix actual equal)
                           else negb (compareReleaseVersions actual equal =? 0)
           end) then false
  else if set (lower c) && ((compareReleaseVersions actual (version (lower c)) <? 0) ||
            (compareReleaseVersions actual (version (lower c)) =? 0) && negb (inclusive (lower c))) then false
  else if set (upper c) && ((0 <? compareReleaseVersions actual (version (upper c))) ||
            (compareReleaseVersions actual (version (upper c)) =? 0) && negb (inclusive (upper c))) then false
  else if existsb (λ excluded, compareReleaseVersions actual excluded =? 0) (excludedExact c) then false
  else negb (existsb (releaseHasPrefix actual) (excludedPrefixes c)).

(** ** Parsing *)

(** One round of the loop over the specifiers; [None] is the result [false]. *)
Definition parse_specifier (c : pythonReleaseConstraintV1) (raw : string) : option pythonReleaseConstraintV1 :=
  let specifier := trim_space raw in
  if bool_decide (specifier = "") then None
  else
  '(operator, expectedText) ← splitVersionSpecifier specifier;
  if bool_decide (operator = "===") then
    if contains_any expectedText "+-*" then None
    else
    expected ← parseReleaseVersion expectedText;
    let c := unsatisfiable_if (negb (bool_decide (strict c = "")) && negb (bool_decide (strict c = expectedText))) c in
    Some (set_strict (require_equality c expected false) expectedText)
  else if contains_byte expectedText "+"%char then None
  else
  let wildcard := has_suffix expectedText ".*" in
  if wildcard && negb (bool_decide (operator = "==")) && negb (bool_decide (operator = "!=")) then None
  else
  let expectedText := if wildcard then trim_suffix expectedText ".*" else expectedText in
  expected ← parseReleaseVersion expectedText;
  if bool_decide (length expected = 0%nat) then None
  else if bool_decide (operator = "==") then Some (require_equality c expected wildcard)
  else if bool_decide (operator = "!=") then
    Some (if wildcard then exclude_prefix c expected else exclude_exact c expected)
  else if bool_decide (operator = ">=") then Some (constrainPythonLowerV1 c expected true)
  else if bool_decide (operator = ">") then Some (constrainPythonLowerV1 c expected false)
  else if bool_decide (operator = "<=") then Some (constrainPythonUpperV1 c expected true)
  else if bool_decide (operator = "<") then Some (constrainPythonUpperV1 c expected false)
  else if bool_decide (operator = "~=") then
    if (length expected <? 2)%nat then None
    else constrainPythonPrefixV1 (constrainPythonLowerV1 c expected true) (removelast expected)
  else None.
Fixpoint parse_specifiers (c : pythonReleaseConstraintV1) (raws : list string) : option pythonReleaseConstraintV1 :=
  match raws with
  | [] => Some c
  | raw :: raws => c ← parse_specifier c raw; parse_specifiers c raws
  end.
Definition parsePythonReleaseConstraintV1 (specifiers : string) : option pythonReleaseConstraintV1 :=
  if bool_decide (trim_space specifiers = "") then Some any_release
  else
  c ← parse_specifiers any_release (split_byte specifiers ","%char);
  Some (unsatisfiable_if (pythonConstraintIntervalEmptyV1 c) c).

(** The two results [(matches, supported)]. *)
Definition versionSpecifiersAllowVersion (specifiers version : string) : bool * bool :=
  match parsePythonReleaseConstraintV1 specifiers with
  | None => (false, false)
  | Some c => match parseReleaseVersion version with
              | None => (false, false)
              | Some actual => (allows c actual version, true)
              end
  end.
Definition InterpreterVersionSatisfies (constraint version : string) : result bool :=
  let constraint := trim_space constraint in
  if bool_decide (constraint = "") then
    match parseReleaseVersion version with
    | Some _ => Ok true
    | None => Err "Python interpreter version is not a normalized release version"
    end
  else
    let '(matches, supported) := versionSpecifiersAllowVersion constraint version in
    if negb supported then Err "Python interpreter version constraint is unsupported" else Ok matches.

(** The loop of [packageVersionSpecifiersAllowVersion]: an answer of the loop,
    or the specifiers it leaves to the release comparison. *)
Fixpoint arbitrary_equalities (raws : list string) (version : string) (remaining : list string)
    : (bool * bool) + list string :=
  match raws with
  | [] => inr remaining
  | raw :: raws =>
    let specifier := trim_space raw in
    match splitVersionSpecifier specifier with
    | None => inl (false, false)
    | Some (operator, expectedText) =>
      if negb (bool_decide (operator = "===")) then arbitrary_equalities raws version (remaining ++ [specifier])
      else if negb (bool_decide (version = expectedText)) then inl (false, true)
      else arbitrary_equalities raws version remaining
    end
  end.
Definition packageVersionSpecifiersAllowVersion (specifiers version : string) : bool * bool :=
  match arbitrary_equalities (split_byte specifiers ","%char) version [] with
  | inl answer => answer
  | inr [] => (true, true)
  | inr remaining => versionSpecifiersAllowVersion (join remaining ",") version
  end.

(** ** Series of releases *)

Record pythonReleaseIntervalV1 := Interval {
  interval_lower : pythonReleaseBoundV1;
  interval_upper : pythonReleaseBoundV1
}.

Definition pythonIntervalConstrainLowerV1 (i : pythonReleaseIntervalV1) (release : list Z) (incl : bool) :=
  Interval (raise_lower (interval_lower i) release incl) (interval_upper i).
Definition pythonIntervalConstrainUpperV1 (i : pythonReleaseIntervalV1) (release : list Z) (incl : bool) :=
  Interval (interval_lower i) (drop_upper (interval_upper i) release incl).
Definition pythonIntervalEmptyV1 (i : pythonReleaseIntervalV1) : bool :=
  if negb (set (interval_upper i)) then false
  else
    let comparison := compareReleaseVersions (version (interval_lower i)) (version (interval_upper i)) in
    (0 <? comparison) ||
    (comparison =? 0) && (negb (inclusive (interval_lower i)) || negb (inclusive (interval_upper i))).

(** [None] when the second result of the function is [false]. *)
Definition pythonConstraintIntervalV1 (c : pythonReleaseConstraintV1) : option pythonReleaseIntervalV1 :=
  if unsatisfiable c then None
  else
    let interval := Interval (lower c) (upper c) in
    let nonempty i := if pythonIntervalEmptyV1 i then None else Some i in
    match equality c with
    | None => nonempty interval
    | Some equal =>
      if equalityPrefix c then
        next ← nextReleasePrefixV1 equal;
        nonempty (pythonIntervalConstrainUpperV1 (pythonIntervalConstrainLowerV1 interval equal true) next false)
      else
        nonempty (pythonIntervalConstrainUpperV1 (pythonIntervalConstrainLowerV1 interval equal true) equal true)
    end.

Definition pythonMinimumSeriesPatchV1 (bound : pythonReleaseBoundV1) (major minor : Z) : option Z :=
  if negb (set bound) then Some 0
  else
    let comparison := compareReleaseVersions [major; minor; 0] (version bound) in
    if 0 <? comparison then Some 0
    else if comparison =? 0 then (if inclusive bound then Some 0 else Some 1)
    else if negb (pythonReleaseComponentV1 (version bound) 0 =? major) ||
            negb (pythonReleaseComponentV1 (version bound) 1 =? minor) then None
    else
      let patch := pythonReleaseComponentV1 (version bound) 2 in
      let comparison := compareReleaseVersions [major; minor; patch] (version bound) in
      if (0 <? comparison) || (comparison =? 0) && inclusive bound then Some patch
      else if patch =? maxInt then None
      else Some (patch + 1).

(** The patch numbers the [!=] specifiers take out of the series, [None] when
    they take out the whole series. *)
Definition excluded_exact_patches (releases : list (list Z)) (major minor : Z) : gset Z :=
  list_to_set (omap (λ release, pythonCanonicalInterpreterPatchV1 release major minor) releases).
Fixpoint excluded_prefix_patches (prefixes : list (list Z)) (major minor : Z) (excluded : gset Z) : option (gset Z) :=
  match prefixes with
  | [] => Some excluded
  | prefix :: prefixes =>
    let next := match pythonCanonicalInterpreterPatchV1 prefix major minor with
                | Some patch => {[patch]} ∪ excluded
                | None => excluded
                end in
    match prefix with
    | [first] => if first =? major then None else excluded_prefix_patches prefixes major minor excluded
    | [first; second] => if (first =? major) && (second =? minor) then None
                         else excluded_prefix_patches prefixes major minor excluded
    | _ => excluded_prefix_patches prefixes major minor next
    end
  end.
Definition pythonExcludedSeriesPatchesV1 (c : pythonReleaseConstraintV1) (major minor : Z) : option (gset Z) :=
  excluded_prefix_patches (excludedPrefixes c) major minor (excluded_exact_patches (excludedExact c) major minor).

(** The loop over [remaining], from the number of excluded patches down to zero. *)
Fixpoint first_free_patch (remaining : nat) (c : pythonReleaseConstraintV1) (excluded : gset Z)
    (major minor patch : Z) : bool :=
  if bool_decide (patch ∉ excluded) then
    let '(candidate, raw) := pythonCanonicalInterpreterReleaseV1 major minor patch in allows c candidate raw
  else if patch =? maxInt then false
  else match remaining with
       | O => false
       | S remaining => first_free_patch remaining c excluded major minor (patch + 1)
       end.

(** The patch at which the search starts: the least one the lower bound allows,
    or the one the equality fixes. *)
Definition series_start (c : pythonReleaseConstraintV1) (major minor : Z) : option Z :=
  patch ← pythonMinimumSeriesPatchV1 (lower c) major minor;
  let fixed release :=
    match pythonCanonicalInterpreterPatchV1 release major minor with
    | Some equalPatch => if equalPatch <? patch then None else Some equalPatch
    | None => None
    end in
  match equality c with
  | None => Some patch
  | Some equal =>
    if equalityPrefix c then
      match equal with
      | [first] => if negb (first =? major) then None else Some patch
      | [first; second] => if negb (first =? major) || negb (second =? minor) then None else Some patch
      | _ => fixed equal
      end
    else fixed equal
  end.

Definition pythonConstraintHasSeriesReleaseV1 (c : pythonReleaseConstraintV1) (major minor : Z) : bool :=
  if unsatisfiable c then false
  else if negb (bool_decide (strict c = "")) then
    match pythonCanonicalInterpreterPatchV1 (default [] (equality c)) major minor with
    | None => false
    | Some patch =>
      let '(candidate, raw) := pythonCanonicalInterpreterReleaseV1 major minor patch in
      bool_decide (raw = strict c) && allows c candidate raw
    end
  else
    match series_start c major minor with
    | None => false
    | Some patch =>
      match pythonExcludedSeriesPatchesV1 c major minor with
      | None => false
      | Some excluded => first_free_patch (size excluded) c excluded major minor patch
      end
    end.

Definition claim_release (claim : SupportedPythonClaimV1) : list Z := [Major claim; Minor claim; Patch claim].

Definition PythonRequiresPythonIntersectsClaimV1 (requiresPython claim : string) : result bool :=
  match parsePythonReleaseConstraintV1 (trim_space requiresPython) with
  | None => Err "Requires-Python is outside the normalized release subset"
  | Some parsed =>
    parsedClaim ← ParseSupportedPythonClaimV1 claim;
    if Exact parsedClaim then Ok (allows parsed (claim_release parsedClaim) (claim_string parsedClaim))
    else match nextReleasePrefixV1 [Major parsedClaim; Minor parsedClaim] with
         | None => Err "Python interpreter claim has no representable minor successor"
         | Some _ => Ok (pythonConstraintHasSeriesReleaseV1 parsed (Major parsedClaim) (Minor parsedClaim))
         end
  end.

(** The comparison of the allowed interval with the series, and the exclusions. *)
Definition covers_series (c : pythonReleaseConstraintV1) (major minor : Z) (successor : list Z) : bool :=
  match pythonConstraintIntervalV1 c with
  | None => false
  | Some allowed =>
    let claimed := Interval (Bound [major; minor] true true) (Bound successor false true) in
    let low := compareReleaseVersions (version (interval_lower allowed)) (version (interval_lower claimed)) in
    let high := compareReleaseVersions (version (interval_upper allowed)) (version (interval_upper claimed)) in
    if (0 <? low) || (low =? 0) && negb (inclusive (interval_lower allowed)) then false
    else if set (interval_upper allowed) &&
            ((high <? 0) || (high =? 0) && inclusive (interval_upper claimed) && negb (inclusive (interval_upper allowed)))
         then false
    else match pythonExcludedSeriesPatchesV1 c major minor with
         | None => false
         | Some excluded => (size excluded =? 0)%nat
         end
  end.

Definition PythonRequiresPythonCoversClaimV1 (requiresPython claim : string) : result bool :=
  match parsePythonReleaseConstraintV1 (trim_space requiresPython) with
  | None => Err "Requires-Python is outside the normalized release subset"
  | Some parsed =>
    parsedClaim ← ParseSupportedPythonClaimV1 claim;
    if Exact parsedClaim then Ok (allows parsed (claim_release parsedClaim) (claim_string parsedClaim))
    else if negb (bool_decide (strict parsed = "")) ||
            negb (bool_decide (equality parsed = None)) && negb (equalityPrefix parsed) then Ok false
    else match nextReleasePrefixV1 [Major parsedClaim; Minor parsedClaim] with
         | None => Err "Python interpreter claim has no representable minor successor"
         | Some minorSuccessor => Ok (covers_series parsed (Major parsedClaim) (Minor parsedClaim) minorSuccessor)
         end
  end.

Example covers_example :
  PythonRequiresPythonCoversClaimV1 ">=3.9, <4, !=3.12.3" "3.11" = Ok true ∧
  PythonRequiresPythonCoversClaimV1 ">=3.9, <4, !=3.12.3" "3.12" = Ok false ∧
  PythonRequiresPythonIntersectsClaimV1 "~=3.11.2, !=3.11.2.*" "3.11" = Ok true ∧
  PythonRequiresPythonIntersectsClaimV1 "===3.11.2, !=3.11.2.*" "3.11" = Ok false ∧
  InterpreterVersionSatisfies " >=3.9 , ==3.*" "3.10.1" = Ok true.
Proof. vm_compute. done. Qed.
