(* ===== verification/PythonReleaseOrder.v ===== *)
(** * The order of releases

    [compareReleaseVersions] is the lexicographic order of the components, with
    a missing component counting as zero; it is a total order up to trailing
    zeros, and the releases with a prefix are the interval from the prefix to
    its successor.  [release_order] decides goals about the order. *)

From Stdlib Require Import Ascii Orders OrdersTac.
From S2P Require Import Prelude GoText PythonClaim PythonVersion.

Open Scope Z_scope.

Abbreviation comp := pythonReleaseComponentV1.

Definition release_eq (a b : list Z) : Prop := ∀ i, comp a i = comp b i.
Definition release_lt (a b : list Z) : Prop := ∃ i, (∀ j, (j < i)%nat → comp a j = comp b j) ∧ comp a i < comp b i.

Lemma comp_beyond a i : (length a ≤ i)%nat → comp a i = 0.
Proof. intros Hi. unfold comp. by rewrite lookup_ge_None_2. Qed.

Lemma compare_from_cases steps index a b :
  (∀ j, (j < index)%nat → comp a j = comp b j) → (∀ j, (index + steps ≤ j)%nat → comp a j = comp b j) →
  compare_from steps index a b = -1 ∧ release_lt a b ∨ compare_from steps index a b = 0 ∧ release_eq a b ∨
  compare_from steps index a b = 1 ∧ release_lt b a.
Proof.
  revert index. induction steps as [|steps IH]; intros index Hlo Hhi; simpl.
  { right. left. split; [done|]. intros i. destruct (decide (i < index)%nat); [by apply Hlo|apply Hhi; lia]. }
  destruct (Z.ltb_spec (comp a index) (comp b index)) as [Hl|]; [left; split; [done|]; by exists index|].
  destruct (Z.ltb_spec (comp b index) (comp a index)) as [Hl|].
  { do 2 right. split; [done|]. exists index. split; [|done]. intros j Hj. symmetry. by apply Hlo. }
  apply IH; intros j Hj; [|apply Hhi; lia]. destruct (decide (j = index)) as [->|]; [lia|apply Hlo; lia].
Qed.

Lemma compare_cases a b :
  compareReleaseVersions a b = -1 ∧ release_lt a b ∨ compareReleaseVersions a b = 0 ∧ release_eq a b ∨
  compareReleaseVersions a b = 1 ∧ release_lt b a.
Proof.
  apply compare_from_cases; [intros; lia|]. intros j Hj. by rewrite !comp_beyond by lia.
Qed.

#[export] Instance release_eq_equivalence : Equivalence release_eq.
Proof. split; [done|intros a b H i; by rewrite H|intros a b c H1 H2 i; by rewrite H1]. Qed.

#[export] Instance release_lt_strict : StrictOrder release_lt.
Proof.
  split.
  - intros a (i & _ & Hi). lia.
  - intros a b c (i & Hi & Hai) (k & Hk & Hbk). destruct (Nat.lt_total i k) as [Hl|[->|Hl]].
    + exists i. split; [|by rewrite <-(Hk i)]. intros j Hj. rewrite Hi by done. apply Hk. lia.
    + exists k. split; [|lia]. intros j Hj. rewrite Hi by done. by apply Hk.
    + exists k. split; [|by rewrite Hi]. intros j Hj. rewrite Hi by lia. by apply Hk.
Qed.

#[export] Instance release_lt_proper : Proper (release_eq ==> release_eq ==> iff) release_lt.
Proof.
  intros a a' Ha b b' Hb. unfold release_lt, release_eq in *. by setoid_rewrite Ha; setoid_rewrite Hb.
Qed.

Definition release_le (a b : list Z) : Prop := release_lt a b ∨ release_eq a b.

Module ReleaseOrder <: TotalOrder.
Definition t := list Z.
Definition eq := release_eq.
Definition lt := release_lt.
Definition le := release_le.
Definition eq_equiv : Equivalence eq := release_eq_equivalence.
Definition lt_strorder : StrictOrder lt := release_lt_strict.
Definition lt_compat : Proper (eq ==> eq ==> iff) lt := release_lt_proper.
Lemma le_lteq x y : le x y ↔ lt x y ∨ eq x y.
Proof. done. Qed.
Lemma lt_total x y : lt x y ∨ eq x y ∨ lt y x.
Proof. destruct (compare_cases x y) as [[_ ?]|[[_ ?]|[_ ?]]]; unfold lt, eq; tauto. Qed.
End ReleaseOrder.
Module ReleaseTac := MakeOrderTac ReleaseOrder ReleaseOrder.

Ltac release_order := ReleaseTac.order.

(** Case analysis on every comparison of the goal and the hypotheses. *)
Ltac compare_releases a b :=
  let H := fresh "Hcmp" in
  let E := fresh "E" in
  destruct (compare_cases a b) as [[E H]|[[E H]|[E H]]]; rewrite ?E in *; clear E.
Ltac all_comparisons :=
  repeat match goal with
  | |- context [compareReleaseVersions ?a ?b] => compare_releases a b
  | H : context [compareReleaseVersions ?a ?b] |- _ => compare_releases a b
  end.

Example release_order_test a b c d : release_lt a b → release_eq b c → ¬ release_lt d c → ¬ release_lt d a.
Proof. intros. release_order. Qed.

(** ** Bounds *)

Definition above (bound : pythonReleaseBoundV1) (a : list Z) : bool :=
  negb (set bound && ((compareReleaseVersions a (version bound) <? 0) ||
    (compareReleaseVersions a (version bound) =? 0) && negb (inclusive bound))).
Definition below (bound : pythonReleaseBoundV1) (a : list Z) : bool :=
  negb (set bound && ((0 <? compareReleaseVersions a (version bound)) ||
    (compareReleaseVersions a (version bound) =? 0) && negb (inclusive bound))).

(** Raising a bound adds a condition: the result is the conjunction. *)
Lemma above_raise bound release incl a :
  above (raise_lower bound release incl) a = above bound a && above (Bound release incl true) a.
Proof.
  unfold above, raise_lower. destruct bound as [v i s]; simpl. destruct s; simpl; [|done].
  compare_releases release v; simpl; all_comparisons; destruct i, incl; simpl; try done; exfalso; release_order.
Qed.

Lemma below_drop bound release incl a :
  below (drop_upper bound release incl) a = below bound a && below (Bound release incl true) a.
Proof.
  unfold below, drop_upper. destruct bound as [v i s]; simpl. destruct s; simpl; [|done].
  compare_releases release v; simpl; all_comparisons; destruct i, incl; simpl; try done; exfalso; release_order.
Qed.

(** ** Prefixes *)

Lemma has_prefix_iff a p : releaseHasPrefix a p = true ↔ ∀ i, (i < length p)%nat → comp a i = comp p i.
Proof.
  unfold releaseHasPrefix. rewrite forallb_forall. setoid_rewrite in_seq. setoid_rewrite Z.eqb_eq.
  split; intros H i Hi; apply H; lia.
Qed.

Lemma literal_prefix_iff a p :
  releaseHasLiteralPrefixV1 a p = true ↔ (length p ≤ length a)%nat ∧ ∀ i, (i < length p)%nat → comp a i = comp p i.
Proof.
  unfold releaseHasLiteralPrefixV1. destruct (Nat.ltb_spec (length a) (length p)); [split; [done|lia]|].
  change (forallb _ _) with (releaseHasPrefix a p). rewrite has_prefix_iff. split; [by split|]. by intros [_ ?].
Qed.

#[export] Instance has_prefix_proper : Proper (release_eq ==> (=) ==> (=)) releaseHasPrefix.
Proof.
  intros a b Hab p ? <-. apply eq_true_iff_eq. rewrite !has_prefix_iff.
  split; intros H i Hi; rewrite <-H by done; by rewrite Hab.
Qed.

Definition natural (a : list Z) : Prop := ∀ i, 0 ≤ comp a i.

Lemma natural_Forall a : Forall (λ x, 0 ≤ x) a → natural a.
Proof.
  intros H i. unfold comp. destruct (a !! i) as [x|] eqn:Hx; simpl; [|lia].
  rewrite Forall_lookup in H. by eapply H.
Qed.

Lemma next_prefix_spec p n :
  nextReleasePrefixV1 p = Some n →
  ∃ k, length p = S k ∧ length n = S k ∧ comp p k ≠ maxInt ∧ comp n k = comp p k + 1 ∧
    ∀ i, (i < k)%nat → comp n i = comp p i.
Proof.
  unfold nextReleasePrefixV1. destruct (last p) as [x|] eqn:Hl; [|done]. apply last_Some in Hl as [q ->].
  destruct (Z.eqb_spec x maxInt) as [|Hx]; [done|]. intros [= <-]. rewrite removelast_last. exists (length q).
  unfold comp. rewrite !length_app. simpl. split_and!; [lia|lia| | |].
  - by rewrite list_lookup_middle.
  - by rewrite !list_lookup_middle.
  - intros i Hi. by rewrite !lookup_app_l.
Qed.

Lemma prefix_not_lt a p : natural a → releaseHasPrefix a p = true → ¬ release_lt a p.
Proof.
  intros Ha Hp (i & Hlo & Hi). rewrite has_prefix_iff in Hp.
  destruct (decide (i < length p)%nat) as [Hl|Hl]; [rewrite (Hp i Hl) in Hi; lia|].
  rewrite (comp_beyond p i) in Hi by lia. specialize (Ha i). lia.
Qed.

(** The releases with a prefix are those from the prefix to its successor. *)
Lemma prefix_interval a p n :
  natural a → nextReleasePrefixV1 p = Some n →
  releaseHasPrefix a p = true ↔ ¬ release_lt a p ∧ release_lt a n.
Proof.
  intros Ha (k & Hp & Hn & _ & Hk & Hlo)%next_prefix_spec. split.
  - intros H. split; [by apply prefix_not_lt|]. rewrite has_prefix_iff in H. exists k. split.
    + intros j Hj. rewrite H by lia. by rewrite Hlo.
    + rewrite H by lia. lia.
  - intros [Hnl (i & Hi & Hai)]. apply has_prefix_iff. rewrite Hp.
    assert (i ≤ k)%nat as Hik.
    { destruct (decide (i ≤ k)%nat); [done|]. rewrite (comp_beyond n i) in Hai by lia. specialize (Ha i). lia. }
    destruct (decide (i = k)) as [->|Hne].
    + intros j Hj. destruct (decide (j = k)) as [->|]; [|rewrite Hi, Hlo by lia; done].
      destruct (Z.lt_total (comp a k) (comp p k)) as [Hlt|[?|?]]; [|done|lia]. exfalso. apply Hnl. exists k.
      split; [|done]. intros j Hjk. by rewrite Hi, Hlo by lia.
    + exfalso. apply Hnl. exists i. split; [|by rewrite <-(Hlo i) by lia]. intros j Hj. rewrite Hi, Hlo by lia. done.
Qed.
