(* ===== verification/PythonVersionFacts.v ===== *)
(** * What a Python release constraint means

    A constraint parsed from a list of version specifiers admits a canonical
    interpreter release exactly when every specifier admits it, each read on its
    own; the questions about a minor series are answered exactly. *)

From Stdlib Require Import Ascii.
From S2P Require Import Prelude GoText PythonClaim PythonVersion PythonReleaseOrder.

Open Scope Z_scope.

(** ** The specifiers read one by one *)

(** What one operator demands of a release, by PEP 440's rules for release numbers. *)
Definition operator_admits (actual : list Z) (operator : string) (wildcard : bool) (expected : list Z) : bool :=
  let comparison := compareReleaseVersions actual expected in
  let equal := if wildcard then releaseHasPrefix actual expected else comparison =? 0 in
  if bool_decide (operator = "==") then equal
  else if bool_decide (operator = "!=") then negb equal
  else if bool_decide (operator = ">=") then 0 <=? comparison
  else if bool_decide (operator = ">") then 0 <? comparison
  else if bool_decide (operator = "<=") then comparison <=? 0
  else if bool_decide (operator = "<") then comparison <? 0
  else (0 <=? comparison) && releaseHasPrefix actual (removelast expected).

Definition specifier_admits (actual : list Z) (raw text : string) : bool :=
  match splitVersionSpecifier (trim_space text) with
  | None => false
  | Some (operator, expectedText) =>
    if bool_decide (operator = "===") then bool_decide (raw = expectedText)
    else
      let wildcard := has_suffix expectedText ".*" in
      let expectedText := if wildcard then trim_suffix expectedText ".*" else expectedText in
      match parseReleaseVersion expectedText with
      | None => false
      | Some expected => operator_admits actual operator wildcard expected
      end
  end.

Definition specifiers_admit (actual : list Z) (raw specifiers : string) : bool :=
  bool_decide (trim_space specifiers = "") ||
  forallb (specifier_admits actual raw) (split_byte specifiers ","%char).

(** A release of an interpreter: zero after the patch number. *)
Definition interpreter_release (a : list Z) : Prop :=
  natural a ∧ (∀ i, comp a i < maxInt) ∧ ∀ i, (3 ≤ i)%nat → comp a i = 0.

(** ** A constraint as a conjunction *)

Definition equality_admits (c : pythonReleaseConstraintV1) (a : list Z) : bool :=
  match equality c with
  | None => true
  | Some equal => if equalityPrefix c then releaseHasPrefix a equal else compareReleaseVersions a equal =? 0
  end.
Definition strict_admits (c : pythonReleaseConstraintV1) (raw : string) : bool :=
  bool_decide (strict c = "") || bool_decide (raw = strict c).
Definition exclusions_admit (c : pythonReleaseConstraintV1) (a : list Z) : bool :=
  negb (existsb (λ excluded, compareReleaseVersions a excluded =? 0) (excludedExact c)) &&
  negb (existsb (releaseHasPrefix a) (excludedPrefixes c)).

Lemma allows_conj c a raw :
  allows c a raw =
  negb (unsatisfiable c) && strict_admits c raw && equality_admits c a && above (lower c) a && below (upper c) a &&
  exclusions_admit c a.
Proof.
  unfold allows, strict_admits, equality_admits, above, below, exclusions_admit.
  destruct (unsatisfiable c); simpl; [done|].
  destruct (bool_decide (strict c = "")); simpl; [|destruct (bool_decide (raw = strict c)); simpl; [|done]];
  (destruct (equality c) as [e|]; [destruct (equalityPrefix c)|]; simpl;
  [destruct (releaseHasPrefix a e); simpl; [|done]|destruct (compareReleaseVersions a e =? 0); simpl; [|done]|];
  (destruct (set (lower c) && _); simpl; [done|]; destruct (set (upper c) && _); simpl; [done|];
  destruct (existsb _ (excludedExact c)); done)).
Qed.

(** Each step conjoins what it adds. *)
Lemma allows_lower c v incl a raw :
  allows (constrainPythonLowerV1 c v incl) a raw = allows c a raw && above (Bound v incl true) a.
Proof.
  rewrite !allows_conj. unfold constrainPythonLowerV1, equality_admits, strict_admits, exclusions_admit; simpl.
  rewrite above_raise. destruct (above (lower c) a), (above (Bound v incl true) a); rewrite ?andb_true_r, ?andb_false_r; done.
Qed.
Lemma allows_upper c v incl a raw :
  allows (constrainPythonUpperV1 c v incl) a raw = allows c a raw && below (Bound v incl true) a.
Proof.
  rewrite !allows_conj. unfold constrainPythonUpperV1, equality_admits, strict_admits, exclusions_admit; simpl.
  rewrite below_drop. destruct (below (upper c) a), (below (Bound v incl true) a); rewrite ?andb_true_r, ?andb_false_r; done.
Qed.
Lemma allows_unsatisfiable_if b c a raw : allows (unsatisfiable_if b c) a raw = allows c a raw && negb b.
Proof.
  rewrite !allows_conj. unfold equality_admits, strict_admits, exclusions_admit; simpl.
  destruct (unsatisfiable c), b; simpl; rewrite ?andb_true_r, ?andb_false_r; done.
Qed.
Lemma allows_exclude_exact c v a raw :
  allows (exclude_exact c v) a raw = allows c a raw && negb (compareReleaseVersions a v =? 0).
Proof.
  rewrite !allows_conj. unfold equality_admits, strict_admits, exclusions_admit; simpl. rewrite existsb_app. simpl.
  rewrite orb_false_r, negb_orb. destruct (compareReleaseVersions a v =? 0); simpl; rewrite ?andb_true_r, ?andb_false_r; done.
Qed.
Lemma allows_exclude_prefix c v a raw :
  allows (exclude_prefix c v) a raw = allows c a raw && negb (releaseHasPrefix a v).
Proof.
  rewrite !allows_conj. unfold equality_admits, strict_admits, exclusions_admit; simpl. rewrite existsb_app. simpl.
  rewrite orb_false_r, negb_orb. destruct (releaseHasPrefix a v); simpl; rewrite ?andb_true_r, ?andb_false_r; done.
Qed.

Lemma above_closed v incl a :
  above (Bound v incl true) a = if incl then 0 <=? compareReleaseVersions a v else 0 <? compareReleaseVersions a v.
Proof. unfold above; simpl. all_comparisons; by destruct incl. Qed.
Lemma below_closed v incl a :
  below (Bound v incl true) a = if incl then compareReleaseVersions a v <=? 0 else compareReleaseVersions a v <? 0.
Proof. unfold below; simpl. all_comparisons; by destruct incl. Qed.

Lemma compare_zero a b : compareReleaseVersions a b = 0 ↔ release_eq a b.
Proof. destruct (compare_cases a b) as [[-> ?]|[[-> ?]|[-> ?]]]; split; try done; intros; exfalso; release_order. Qed.
Lemma compare_neg a b : compareReleaseVersions a b < 0 ↔ release_lt a b.
Proof. destruct (compare_cases a b) as [[-> ?]|[[-> ?]|[-> ?]]]; split; try done; try lia; intros; exfalso; release_order. Qed.
Lemma compare_pos a b : 0 < compareReleaseVersions a b ↔ release_lt b a.
Proof. destruct (compare_cases a b) as [[-> ?]|[[-> ?]|[-> ?]]]; split; try done; try lia; intros; exfalso; release_order. Qed.

(** ** Equality specifiers *)

Lemma zero_after_iff a : zero_after_patch a = true ↔ ∀ i, (3 ≤ i)%nat → comp a i = 0.
Proof.
  unfold zero_after_patch. rewrite forallb_forall. setoid_rewrite Z.eqb_eq. setoid_rewrite <-list_elem_of_In. split.
  - intros H i Hi. unfold comp. destruct (a !! i) as [x|] eqn:Hx; [|done]. simpl. apply H.
    apply list_elem_of_lookup. exists (i - 3)%nat. rewrite lookup_drop. by replace (3 + (i - 3))%nat with i by lia.
  - intros H x (i & Hx)%list_elem_of_lookup. rewrite lookup_drop in Hx.
    specialize (H (3 + i)%nat ltac:(lia)). unfold comp in H. by rewrite Hx in H.
Qed.

Lemma exact_matches_prefix exact p :
  pythonExactReleaseMatchesPrefixV1 exact p = zero_after_patch exact && releaseHasPrefix exact p.
Proof.
  unfold pythonExactReleaseMatchesPrefixV1. destruct (zero_after_patch exact) eqn:Hz; simpl; [|done].
  apply has_prefix_proper; [|done]. rewrite zero_after_iff in Hz. intros [|[|[|i]]]; try done.
  rewrite comp_beyond by (simpl; lia). symmetry. apply Hz. lia.
Qed.

Definition demands (a e : list Z) (prefix : bool) : bool :=
  if prefix then releaseHasPrefix a e else compareReleaseVersions a e =? 0.

Lemma exact_and_prefix a exact p :
  interpreter_release a → release_eq a exact → pythonExactReleaseMatchesPrefixV1 exact p = releaseHasPrefix a p.
Proof.
  intros (_ & _ & Hz) He. rewrite exact_matches_prefix, (has_prefix_proper a exact He p p eq_refl).
  replace (zero_after_patch exact) with true; [done|].
  symmetry. apply zero_after_iff. intros i Hi. by rewrite <-(He i), Hz.
Qed.

Lemma equality_step c e prefix a :
  interpreter_release a →
  equality_admits (constrainPythonEqualityV1 c e prefix).1 a && (constrainPythonEqualityV1 c e prefix).2 =
  equality_admits c a && demands a e prefix.
Proof.
  intros Ha. unfold constrainPythonEqualityV1, equality_admits. destruct (equality c) as [current|] eqn:Hc.
  2:{ simpl. by rewrite andb_true_r. }
  destruct (equalityPrefix c) eqn:Hp, prefix; simpl; rewrite ?Hc, ?Hp.
  - apply eq_true_iff_eq. destruct (releaseHasLiteralPrefixV1 current e) eqn:H1;
      [|destruct (releaseHasLiteralPrefixV1 e current) eqn:H2]; simpl; rewrite ?Hc, ?Hp, !andb_true_iff.
    + apply literal_prefix_iff in H1 as [Hl H1]. rewrite !has_prefix_iff. split; [|tauto]. intros [H _].
      split; [done|]. intros i Hi. rewrite H by lia. by apply H1.
    + apply literal_prefix_iff in H2 as [Hl H2]. rewrite !has_prefix_iff. split; [|tauto]. intros [H _].
      split; [|done]. intros i Hi. rewrite H by lia. by apply H2.
    + split; [by intros [_ ?]|]. intros [Hx Hy]. exfalso. apply not_true_iff_false in H1, H2.
      rewrite has_prefix_iff in Hx, Hy. rewrite literal_prefix_iff in H1, H2.
      destruct (Nat.le_total (length e) (length current)); [apply H1|apply H2];
        (split; [done|]; intros i Hi; rewrite <-Hx, <-Hy by lia; done).
  - destruct (pythonExactReleaseMatchesPrefixV1 e current) eqn:He; simpl; rewrite ?Hc, ?Hp, ?andb_true_r, ?andb_false_r.
    + destruct (Z.eqb_spec (compareReleaseVersions a e) 0) as [Hz|]; [|by rewrite andb_false_r].
      apply compare_zero in Hz. rewrite <-(exact_and_prefix a e) by done. by rewrite He.
    + destruct (Z.eqb_spec (compareReleaseVersions a e) 0) as [Hz|]; [|by rewrite andb_false_r].
      apply compare_zero in Hz. rewrite <-(exact_and_prefix a e) by done. by rewrite He.
  - destruct (Z.eqb_spec (compareReleaseVersions a current) 0) as [Hz|]; [|done].
    apply compare_zero in Hz. simpl. by apply exact_and_prefix.
  - destruct (Z.eqb_spec (compareReleaseVersions a current) 0) as [Hz|]; [|done]. simpl. apply compare_zero in Hz.
    apply eq_true_iff_eq. rewrite !Z.eqb_eq, !compare_zero. split; intros; release_order.
Qed.

Lemma allows_require_equality c e prefix a raw :
  interpreter_release a →
  allows (require_equality c e prefix) a raw = allows c a raw && demands a e prefix.
Proof.
  intros Ha. assert (Hs := equality_step c e prefix a Ha). unfold require_equality.
  destruct (constrainPythonEqualityV1 c e prefix) as [c' ok] eqn:Hc. simpl in Hs.
  assert (unsatisfiable c' = unsatisfiable c ∧ strict c' = strict c ∧ lower c' = lower c ∧ upper c' = upper c ∧
    excludedExact c' = excludedExact c ∧ excludedPrefixes c' = excludedPrefixes c) as (H1 & H2 & H3 & H4 & H5 & H6).
  { unfold constrainPythonEqualityV1 in Hc. repeat case_match; by simplify_eq/=. }
  rewrite allows_unsatisfiable_if, !allows_conj, negb_involutive. unfold strict_admits, exclusions_admit.
  rewrite H1, H2, H3, H4, H5, H6.
  destruct (equality_admits c' a), (equality_admits c a), ok, (demands a e prefix); try discriminate Hs;
    rewrite ?andb_true_r, ?andb_false_r; done.
Qed.

(** ** Parsing a list of specifiers *)

Lemma require_equality_fields c e prefix :
  strict (require_equality c e prefix) = strict c ∧
  (unsatisfiable c = true → unsatisfiable (require_equality c e prefix) = true).
Proof.
  unfold require_equality, constrainPythonEqualityV1.
  repeat case_match; simplify_eq/=; split; try done; by intros ->.
Qed.

Lemma allows_strict c expected text a raw :
  interpreter_release a → text ≠ "" → parseReleaseVersion text = Some expected →
  (∀ v, parseReleaseVersion raw = Some v → v = a) →
  allows (set_strict (require_equality
      (unsatisfiable_if (negb (bool_decide (strict c = "")) && negb (bool_decide (strict c = text))) c)
      expected false) text) a raw =
  allows c a raw && bool_decide (raw = text).
Proof.
  intros Ha Ht Hp Hraw. set (c0 := unsatisfiable_if _ c).
  destruct (decide (raw = text)) as [->|Hne].
  2:{ rewrite !allows_conj. unfold strict_admits. simpl. rewrite (bool_decide_false (raw = text)),
        (bool_decide_false (text = "")) by done. simpl. by rewrite !andb_false_r. }
  rewrite (bool_decide_true (text = text)), andb_true_r by done. rewrite <-(Hraw _ Hp) in *.
  assert (demands expected expected false = true) as Hd by (simpl; by apply Z.eqb_eq, compare_zero).
  assert (Hc := allows_require_equality c0 expected false expected text Ha). rewrite Hd, andb_true_r in Hc.
  unfold c0 in Hc at 2. rewrite allows_unsatisfiable_if in Hc.
  destruct (require_equality_fields c0 expected false) as [Hs Hu]. simpl in Hs.
  transitivity (allows (require_equality c0 expected false) expected text).
  - rewrite !allows_conj. unfold strict_admits, equality_admits, exclusions_admit. simpl. rewrite Hs.
    rewrite (bool_decide_true (text = text)), orb_true_r by done.
    destruct (bool_decide (strict c = "") || bool_decide (text = strict c)) eqn:Hsa; [done|].
    rewrite Hu; [done|]. simpl. apply orb_false_iff in Hsa as [H1 H2]. rewrite H1. simpl.
    replace (bool_decide (strict c = text)) with false; [by rewrite orb_true_r|].
    symmetry. apply bool_decide_eq_false in H2. by apply bool_decide_eq_false.
  - rewrite Hc, allows_conj. unfold strict_admits.
    destruct (bool_decide_reflect (strict c = "")) as [|H1]; simpl; [by rewrite !andb_true_r|].
    destruct (bool_decide_reflect (strict c = text)) as [->|H2]; simpl.
    + by rewrite bool_decide_true, !andb_true_r by done.
    + rewrite bool_decide_false by congruence. by rewrite !andb_false_r.
Qed.

Lemma split_operator_in operators value operator expected :
  split_operator operators value = Some (operator, expected) → operator ∈ operators ∧ expected ≠ "".
Proof.
  induction operators as [|o operators IH]; simpl; [done|].
  destruct (cut_prefix value o); [case_bool_decide; [done|]; intros [= <- <-]; split; [by left|done]|].
  intros [? ?]%IH. split; [by right|done].
Qed.

Lemma allows_prefix_interval c p c' a raw :
  natural a → constrainPythonPrefixV1 c p = Some c' → allows c' a raw = allows c a raw && releaseHasPrefix a p.
Proof.
  unfold constrainPythonPrefixV1. intros Ha. destruct (nextReleasePrefixV1 p) as [n|] eqn:Hn; [|done]. intros [= <-].
  rewrite allows_upper, allows_lower, above_closed, below_closed, <-andb_assoc. f_equal.
  apply eq_true_iff_eq. rewrite andb_true_iff, (prefix_interval a p n) by done.
  rewrite Z.leb_le, Z.ltb_lt, compare_neg, <-compare_neg. rewrite <-compare_neg. lia.
Qed.

Lemma parse_specifier_allows c text c' a raw :
  interpreter_release a → (∀ v, parseReleaseVersion raw = Some v → v = a) →
  parse_specifier c text = Some c' → allows c' a raw = allows c a raw && specifier_admits a raw text.
Proof.
  intros Ha Hraw. unfold parse_specifier, specifier_admits. case_bool_decide; [done|].
  destruct (splitVersionSpecifier (trim_space text)) as [[operator expected]|] eqn:Hs; [simpl|done].
  apply split_operator_in in Hs as [Hop Hne]. case_bool_decide as H3.
  { destruct (contains_any expected "+-*"); [done|].
    destruct (parseReleaseVersion expected) as [v|] eqn:Hp; [|done]. intros [= <-]. by apply allows_strict. }
  destruct (contains_byte expected "+"%char); [done|].
  destruct (has_suffix expected ".*" && _ && _) eqn:Hw; [done|].
  destruct (parseReleaseVersion (if has_suffix expected ".*" then trim_suffix expected ".*" else expected)) as [v|] eqn:Hp;
    [simpl|discriminate]. destruct (bool_decide (length v = 0%nat)); [discriminate|].
  unfold operator_admits. unfold version_operators in Hop. rewrite !elem_of_cons, elem_of_nil in Hop.
  destruct_or! Hop; subst operator; try done; simpl in *; intros Hc.
  - destruct (length v <? 2)%nat; [done|]. rewrite (allows_prefix_interval _ _ _ a raw (proj1 Ha) Hc), allows_lower, above_closed.
    by rewrite andb_assoc.
  - injection Hc as <-. by apply allows_require_equality.
  - injection Hc as <-. destruct (has_suffix expected ".*"); [apply allows_exclude_prefix|apply allows_exclude_exact].
  - injection Hc as <-. by rewrite allows_upper, below_closed.
  - injection Hc as <-. by rewrite allows_lower, above_closed.
  - injection Hc as <-. by rewrite allows_upper, below_closed.
  - injection Hc as <-. by rewrite allows_lower, above_closed.
Qed.

Lemma parse_specifiers_allows c texts c' a raw :
  interpreter_release a → (∀ v, parseReleaseVersion raw = Some v → v = a) →
  parse_specifiers c texts = Some c' → allows c' a raw = allows c a raw && forallb (specifier_admits a raw) texts.
Proof.
  intros Ha Hraw. revert c. induction texts as [|t texts IH]; intros c; simpl; [intros [= ->]; by rewrite andb_true_r|].
  destruct (parse_specifier c t) as [c1|] eqn:Hc; [simpl|done]. intros H. rewrite (IH _ H).
  by rewrite (parse_specifier_allows _ _ _ _ _ Ha Hraw Hc), andb_assoc.
Qed.

(** ** Well-formed constraints *)

Definition int_release (a : list Z) : Prop := Forall in_int a.

Record well_formed (c : pythonReleaseConstraintV1) : Prop := {
  wf_set : set (lower c) = true;
  wf_lower : int_release (version (lower c));
  wf_upper : int_release (version (upper c));
  wf_equality e : equality c = Some e → int_release e ∧ e ≠ [];
  wf_exact : Forall int_release (excludedExact c);
  wf_prefixes : Forall (λ p, int_release p ∧ p ≠ []) (excludedPrefixes c);
  wf_strict : strict c ≠ "" → unsatisfiable c = true ∨ equality c ≠ None ∧ equalityPrefix c = false
}.

Lemma int_release_natural a : int_release a → natural a.
Proof. intros H. apply natural_Forall. eapply Forall_impl; [done|]. unfold in_int. intros; lia. Qed.
Lemma int_release_comp a i : int_release a → in_int (comp a i).
Proof.
  intros H. unfold comp. destruct (a !! i) as [x|] eqn:Hx; simpl; [|unfold in_int, maxInt; lia].
  unfold int_release in H. rewrite Forall_lookup in H. by eapply H.
Qed.

Lemma atoi_upper s n : atoi s = Some n → n < 2 ^ 63.
Proof.
  unfold atoi. intros H.
  repeat match goal with
  | H : context [match ?x with _ => _ end] |- _ => destruct x eqn:?; try done
  end; simplify_eq; go_bool; try lia.
  all: repeat match goal with H : parse_digits 0 _ = Some _ |- _ => apply parse_digits_ge in H; [|done] end; lia.
Qed.

Lemma parse_release_int text v : parseReleaseVersion text = Some v → int_release v ∧ v ≠ [].
Proof.
  unfold parseReleaseVersion. case_match; [|done]. clear. intros H.
  match type of H with mapM _ (split_byte ?t _) = _ => generalize dependent t end. intros txt H.
  apply mapM_Some in H. split.
  - apply Forall_forall. intros x Hx. destruct (Forall2_right _ _ _ _ H Hx) as (p & _ & Hp).
    unfold parse_part in Hp. case_bool_decide; [done|]. destruct (atoi p) as [n|] eqn:Hn; [|done].
    destruct (Z.ltb_spec n 0); [done|]. injection Hp as <-. apply atoi_upper in Hn. unfold in_int, maxInt. lia.
  - intros ->. apply Forall2_nil_inv_r in H. destruct (split_byte_cons txt "."%char) as (? & ? & He). by rewrite He in H.
Qed.

Lemma next_prefix_int p n : int_release p → nextReleasePrefixV1 p = Some n → int_release n.
Proof.
  unfold nextReleasePrefixV1. destruct (last p) as [x|] eqn:Hl; [|done]. apply last_Some in Hl as [q ->].
  intros [Hq [Hx _]%Forall_cons]%Forall_app. destruct (Z.eqb_spec x maxInt); [done|]. intros [= <-].
  rewrite removelast_last. apply Forall_app. split; [done|]. apply Forall_singleton. unfold in_int in *. lia.
Qed.

Lemma wf_any : well_formed any_release.
Proof. split; simpl; try done; repeat constructor; unfold maxInt; simpl; lia. Qed.

Lemma wf_constrain_lower c v incl : well_formed c → int_release v → well_formed (constrainPythonLowerV1 c v incl).
Proof.
  intros [] Hv. unfold constrainPythonLowerV1, raise_lower.
  split; simpl; try done; repeat case_match; simpl; try done.
Qed.
Lemma wf_constrain_upper c v incl : well_formed c → int_release v → well_formed (constrainPythonUpperV1 c v incl).
Proof. intros [] Hv. unfold constrainPythonUpperV1, drop_upper. split; simpl; try done; repeat case_match; simpl; try done. Qed.

Lemma wf_require_equality c v prefix :
  well_formed c → int_release v → v ≠ [] → well_formed (require_equality c v prefix).
Proof.
  intros [] Hv Hne. unfold require_equality, constrainPythonEqualityV1.
  destruct (equality c) as [e|] eqn:He; [|].
  - destruct (equalityPrefix c) eqn:Hp, prefix; simpl; repeat case_match; split; simpl; rewrite ?He; try done;
      intros; simplify_eq/=; rewrite ?orb_true_r; eauto;
      match goal with H : strict _ ≠ "" |- _ => by destruct (wf_strict0 H) as [->|[_ ?]]; [left|] end.
  - split; simpl; try done; [by intros ? [= <-]|]. rewrite orb_false_r. naive_solver.
Qed.

Lemma exact_equality_kept c v :
  let c' := require_equality c v false in
  unsatisfiable c' = true ∨ equality c' ≠ None ∧ equalityPrefix c' = false.
Proof.
  unfold require_equality, constrainPythonEqualityV1. destruct (equality c) as [e|] eqn:He; [|by right].
  destruct (equalityPrefix c) eqn:Hp; simpl; repeat case_match; simplify_eq/=; rewrite ?He, ?Hp, ?orb_true_r; naive_solver.
Qed.

Lemma wf_parse_specifier c text c' : well_formed c → parse_specifier c text = Some c' → well_formed c'.
Proof.
  intros Hc. unfold parse_specifier. case_bool_decide; [done|].
  destruct (splitVersionSpecifier (trim_space text)) as [[operator expected]|]; [simpl|done]. case_bool_decide.
  { destruct (contains_any expected "+-*"); [done|].
    destruct (parseReleaseVersion expected) as [v|] eqn:Hp; [|done]. intros [= <-].
    apply parse_release_int in Hp as [Hv Hne].
    set (c0 := unsatisfiable_if _ c). assert (well_formed c0) as Hc0.
    { destruct Hc. split; simpl; try done. rewrite orb_true_iff. naive_solver. }
    destruct (wf_require_equality c0 v false Hc0 Hv Hne). split; simpl; try done.
    intros _. apply exact_equality_kept. }
  destruct (contains_byte expected "+"%char); [done|]. destruct (has_suffix expected ".*" && _ && _); [done|].
  destruct (parseReleaseVersion (if has_suffix expected ".*" then trim_suffix expected ".*" else expected)) as [v|] eqn:Hp;
    [simpl|discriminate].
  apply parse_release_int in Hp as [Hv Hne]. destruct (bool_decide (length v = 0%nat)); [done|].
  repeat (case_bool_decide; [try (intros [= <-]; by first [apply wf_require_equality|apply wf_constrain_lower|apply wf_constrain_upper])|]);
    [| |done].
  - intros [= <-]. destruct Hc, (has_suffix expected ".*"); split; simpl; try done; apply Forall_app; by repeat constructor.
  - destruct (length v <? 2)%nat; [done|]. unfold constrainPythonPrefixV1.
    destruct (nextReleasePrefixV1 (removelast v)) as [n|] eqn:Hn; [|done]. intros [= <-].
    assert (int_release (removelast v)) as Hr.
    { destruct (exists_last Hne) as (q & x & ->). rewrite removelast_last. by apply Forall_app in Hv as [? _]. }
    apply wf_constrain_upper; [|by eapply next_prefix_int]. by repeat apply wf_constrain_lower.
Qed.

Lemma wf_parse_specifiers c texts c' : well_formed c → parse_specifiers c texts = Some c' → well_formed c'.
Proof.
  revert c. induction texts as [|t texts IH]; intros c Hc; simpl; [by intros [= <-]|].
  destruct (parse_specifier c t) as [c1|] eqn:Ht; [simpl|done]. apply IH. by eapply wf_parse_specifier.
Qed.

(** ** The whole constraint *)

Lemma above_iff b a : set b = true →
  above b a = true ↔ ¬ release_lt a (version b) ∧ (release_eq a (version b) → inclusive b = true).
Proof.
  unfold above. intros ->. simpl. all_comparisons; destruct (inclusive b); simpl; split; try done;
    try (intros _; split; [|done]; intros ?; release_order);
    try (intros _; split; intros ?; exfalso; release_order);
    intros [H1 H2]; exfalso; first [by apply H1|by discriminate H2].
Qed.
Lemma below_iff b a : set b = true →
  below b a = true ↔ ¬ release_lt (version b) a ∧ (release_eq a (version b) → inclusive b = true).
Proof.
  unfold below. intros ->. simpl. all_comparisons; destruct (inclusive b); simpl; split; try done;
    try (intros _; split; [|done]; intros ?; release_order);
    try (intros _; split; intros ?; exfalso; release_order);
    intros [H1 H2]; exfalso; first [by apply H1|by discriminate H2].
Qed.

Lemma has_prefix_next a p :
  interpreter_release a → p ≠ [] → releaseHasPrefix a p = true → ∃ n, nextReleasePrefixV1 p = Some n.
Proof.
  intros (_ & Hmax & _) Hne H. destruct (exists_last Hne) as (q & x & ->). unfold nextReleasePrefixV1.
  rewrite last_snoc. destruct (Z.eqb_spec x maxInt) as [->|]; [|by eexists].
  rewrite has_prefix_iff in H. specialize (H (length q)). rewrite length_app in H. simpl in H. specialize (H ltac:(lia)).
  specialize (Hmax (length q)). unfold comp in H at 2. rewrite list_lookup_middle in H by done. simpl in H. lia.
Qed.

(** An interval that admits a release is not judged empty. *)
Lemma interval_nonempty c a :
  well_formed c → interpreter_release a → equality_admits c a = true → above (lower c) a = true →
  below (upper c) a = true → pythonConstraintIntervalEmptyV1 c = false.
Proof.
  intros Hc Ha He Hl Hu. unfold pythonConstraintIntervalEmptyV1. assert (Hset := wf_set c Hc). rewrite Hset.
  apply (above_iff (lower c) a Hset) in Hl as [Hl Hli].
  assert (set (upper c) = true → ¬ release_lt (version (upper c)) a ∧ (release_eq a (version (upper c)) → inclusive (upper c) = true))
    as Hup by (intros Hs; by apply below_iff in Hu).
  match goal with |- (if ?x then _ else _) = _ => assert (x = false) as -> end.
  - unfold equality_admits in He. destruct (equality c) as [e|] eqn:Hee; [|done].
    destruct (equalityPrefix c); simpl.
    + destruct (has_prefix_next a e Ha) as [n Hn]; [by eapply wf_equality|done|]. rewrite Hn.
      apply (prefix_interval a e n (proj1 Ha) Hn) in He as [He1 He2].
      destruct (set (upper c)); simpl; rewrite ?orb_false_r.
      * destruct (Hup eq_refl) as [Hu1 Hu2].
        all_comparisons; simpl; try done; try (exfalso; release_order); rewrite Hu2; try done; release_order.
      * all_comparisons; simpl; try done; exfalso; release_order.
    + apply Z.eqb_eq, compare_zero in He. destruct (set (upper c)); simpl; rewrite ?orb_false_r.
      * destruct (Hup eq_refl) as [Hu1 Hu2].
        all_comparisons; simpl; try done; try (exfalso; release_order); rewrite ?Hli, ?Hu2; try done; release_order.
      * all_comparisons; simpl; try done; try (exfalso; release_order); rewrite Hli; try done; release_order.
  - destruct (set (upper c)); [simpl|done]. destruct (Hup eq_refl) as [Hu1 Hu2].
    all_comparisons; simpl; try done; [|exfalso; release_order].
    rewrite Hli, Hu2; [done|release_order..].
Qed.

Lemma allows_interval c a raw :
  well_formed c → interpreter_release a →
  allows (unsatisfiable_if (pythonConstraintIntervalEmptyV1 c) c) a raw = allows c a raw.
Proof.
  intros Hc Ha. rewrite allows_unsatisfiable_if. destruct (allows c a raw) eqn:H; [simpl|done].
  rewrite allows_conj in H. rewrite !andb_true_iff in H. destruct H as [[[[[_ _] He] Hl] Hu] _].
  by rewrite (interval_nonempty c a).
Qed.

Lemma allows_any a raw : natural a → allows any_release a raw = true.
Proof.
  intros Ha. rewrite allows_conj. simpl. change (below unset_bound a) with true. rewrite !andb_true_r. apply (above_iff (Bound [0] true true) a); [done|]. simpl.
  split; [|done]. intros (i & _ & Hi). assert (comp [0] i = 0) as Hz.
  { destruct i; [done|]. by rewrite comp_beyond by (simpl; lia). }
  rewrite Hz in Hi. specialize (Ha i). lia.
Qed.

Lemma parse_constraint_cases specifiers c :
  parsePythonReleaseConstraintV1 specifiers = Some c →
  trim_space specifiers = "" ∧ c = any_release ∨
  trim_space specifiers ≠ "" ∧ ∃ c0, parse_specifiers any_release (split_byte specifiers ","%char) = Some c0 ∧
    c = unsatisfiable_if (pythonConstraintIntervalEmptyV1 c0) c0.
Proof.
  unfold parsePythonReleaseConstraintV1. case_bool_decide as Ht; [intros [= <-]; by left|].
  destruct (parse_specifiers any_release _) as [c0|] eqn:Hc; [|done]. intros [= <-]. right. split; [done|]. by exists c0.
Qed.

(** A parsed constraint is well formed, and its empty interval is noticed. *)
Lemma parse_constraint_wf specifiers c :
  parsePythonReleaseConstraintV1 specifiers = Some c →
  well_formed c ∧ (unsatisfiable c = false → pythonConstraintIntervalEmptyV1 c = false).
Proof.
  intros [[_ ->]|(_ & c0 & Hc & ->)]%parse_constraint_cases; [split; [exact wf_any|done]|].
  assert (well_formed c0) as [] by (by eapply wf_parse_specifiers; [exact wf_any|]). split.
  - split; simpl; try done. rewrite orb_true_iff. naive_solver.
  - simpl. intros [_ H]%orb_false_iff. exact H.
Qed.

Lemma parse_constraint_allows specifiers c a raw :
  interpreter_release a → (∀ v, parseReleaseVersion raw = Some v → v = a) →
  parsePythonReleaseConstraintV1 specifiers = Some c → allows c a raw = specifiers_admit a raw specifiers.
Proof.
  intros Ha Hraw Hp. unfold specifiers_admit.
  apply parse_constraint_cases in Hp as [[-> ->]|(Hne & c0 & Hc & ->)].
  - rewrite bool_decide_true by done. simpl. apply allows_any, Ha.
  - rewrite bool_decide_false by done. simpl.
    rewrite allows_interval by (done || by eapply wf_parse_specifiers; [exact wf_any|]).
    rewrite (parse_specifiers_allows _ _ _ _ _ Ha Hraw Hc). by rewrite allows_any by apply Ha.
Qed.

(** ** Theorem *)

(** When the specifiers are in the supported subset, the constraint that
    [versionSpecifiersAllowVersion] merges them into (one lower bound, one upper
    bound, one equality, the exclusions and the flag for contradictions) admits
    a canonical interpreter release exactly when each specifier on its own
    admits it by the rules for its operator. *)
Theorem versionSpecifiersAllowVersion_spec specifiers raw actual matches :
  parseReleaseVersion raw = Some actual → interpreter_release actual →
  versionSpecifiersAllowVersion specifiers raw = (matches, true) →
  matches = specifiers_admit actual raw specifiers.
Proof.
  intros Hraw Ha. unfold versionSpecifiersAllowVersion.
  destruct (parsePythonReleaseConstraintV1 specifiers) as [c|] eqn:Hc; [|done]. rewrite Hraw. intros [= <-].
  apply parse_constraint_allows; [done| |done]. intros v. congruence.
Qed.

Lemma versionSpecifiersAllowVersion_spec_witness :
  versionSpecifiersAllowVersion "~=3.9.1, !=3.9.4, ==3.*" "3.9.6" = (true, true) ∧
  true = specifiers_admit [3; 9; 6] "3.9.6" "~=3.9.1, !=3.9.4, ==3.*".
Proof.
  split; [vm_compute; reflexivity|].
  apply (versionSpecifiersAllowVersion_spec "~=3.9.1, !=3.9.4, ==3.*" "3.9.6" [3; 9; 6] true).
  - vm_compute. reflexivity.
  - split; [|split].
    + apply natural_Forall. repeat constructor; lia.
    + intros [|[|[|i]]]; [vm_compute; reflexivity..|]. rewrite comp_beyond by (simpl; lia). vm_compute. reflexivity.
    + intros i Hi. by apply comp_beyond.
  - vm_compute. reflexivity.
Defined.

(** Two package specifiers that each admit a version of four components are
    refused together, because an exact release and a prefix are compared on
    three components. *)
Example package_conjunction_refused :
  packageVersionSpecifiersAllowVersion "==1.2.3.4" "1.2.3.4" = (true, true) ∧
  packageVersionSpecifiersAllowVersion "==1.2.3.*" "1.2.3.4" = (true, true) ∧
  packageVersionSpecifiersAllowVersion "==1.2.3.4, ==1.2.3.*" "1.2.3.4" = (false, true).
Proof. vm_compute. done. Qed.
