(* ===== verification/PythonSeriesFacts.v ===== *)
(** * Series of Python releases

    [PythonRequiresPythonIntersectsClaimV1] and
    [PythonRequiresPythonCoversClaimV1] answer, for a minor series, whether the
    constraint admits some patch release of it and whether it admits all of
    them.  Both answers are exact: the search looks at finitely many patch
    numbers, the proof of coverage at none. *)

From Stdlib Require Import Ascii.
From S2P Require Import Prelude GoText PythonClaim PythonClaimFacts PythonVersion PythonReleaseOrder PythonVersionFacts.

Open Scope Z_scope.

Section series.
Context (major minor : Z) (Hmajor : in_int major) (Hminor : in_int minor).

Local Definition patch_release (patch : Z) : list Z := [major; minor; patch].
Local Definition patch_text (patch : Z) : string := (pythonCanonicalInterpreterReleaseV1 major minor patch).2.

(** ** The place of a release in the series *)

Lemma comp_patch_release p i :
  comp (patch_release p) i = match i with 0%nat => major | 1%nat => minor | 2%nat => p | _ => 0 end.
Proof. destruct i as [|[|[|i]]]; [done..|]. by apply comp_beyond; simpl; lia. Qed.

Lemma patch_release_natural p : 0 ≤ p → natural (patch_release p).
Proof using Hmajor Hminor. intros Hp i. rewrite comp_patch_release. unfold in_int in *. destruct i as [|[|[|i]]]; lia. Qed.

Lemma pointwise_not_lt a b : (∀ i, comp a i ≤ comp b i) → ¬ release_lt b a.
Proof using Type. intros H (i & _ & Hi). specialize (H i). lia. Qed.

Definition of_series (v : list Z) : Prop := comp v 0 = major ∧ comp v 1 = minor.

Lemma series_eq v p : release_eq (patch_release p) v ↔ of_series v ∧ comp v 2 = p ∧ zero_after_patch v = true.
Proof using Type.
  rewrite zero_after_iff. split.
  - intros H. split; [split; by rewrite <-H|]. split; [by rewrite <-H|].
    intros i Hi. rewrite <-H, comp_patch_release. destruct i as [|[|[|i]]]; [lia..|done].
  - intros ([H0 H1] & H2 & Hz) i. rewrite comp_patch_release. destruct i as [|[|[|i]]]; [done..|]. rewrite Hz by lia. done.
Qed.

Lemma series_below v p : of_series v → comp v 2 < p → release_lt v (patch_release p).
Proof using Type.
  intros [H0 H1] H. exists 2%nat. split; [|done]. intros [|[|j]] Hj; [done..|lia].
Qed.

Lemma series_above v p :
  natural v → of_series v → p < comp v 2 ∨ p = comp v 2 ∧ zero_after_patch v = false → release_lt (patch_release p) v.
Proof using Type.
  intros Hv [H0 H1] [H|[H Hz]].
  - exists 2%nat. split; [|done]. intros [|[|j]] Hj; [done..|lia].
  - destruct (compare_cases (patch_release p) v) as [[_ ?]|[[_ He]|[_ Hlt]]]; [done| |].
    + apply series_eq in He as (_ & _ & He). congruence.
    + exfalso. revert Hlt. apply pointwise_not_lt. intros i. rewrite comp_patch_release.
      destruct i as [|[|[|i]]]; [lia..|apply Hv].
Qed.

(** A release outside the series is below all of it or above all of it. *)
Lemma outside_series v : ¬ of_series v →
  (∀ p, release_lt v (patch_release p)) ∨ (∀ p, release_lt (patch_release p) v).
Proof using Type.
  intros Hv. unfold of_series in Hv.
  assert (comp v 0 < major ∨ comp v 0 = major ∧ comp v 1 < minor ∨
          major < comp v 0 ∨ comp v 0 = major ∧ minor < comp v 1) as [H|[[? H]|[H|[? H]]]] by lia.
  - left. intros p. exists 0%nat. split; [lia|done].
  - left. intros p. exists 1%nat. split; [|done]. intros [|j] Hj; [done|lia].
  - right. intros p. exists 0%nat. split; [lia|done].
  - right. intros p. exists 1%nat. split; [|done]. intros [|j] Hj; [done|lia].
Qed.

Lemma series_lt p q : release_lt (patch_release p) (patch_release q) ↔ p < q.
Proof using Type.
  split; [|intros H; by apply series_below].
  intros H. destruct (Z.lt_total p q) as [?|[->|Hlt]]; [done|release_order|].
  assert (release_lt (patch_release q) (patch_release p)) by (by apply series_below). release_order.
Qed.

Lemma compare_series v p :
  natural v → of_series v →
  compareReleaseVersions (patch_release p) v =
  if p <? comp v 2 then -1 else if comp v 2 <? p then 1 else if zero_after_patch v then 0 else -1.
Proof using Type.
  intros Hv Hs. assert (Heq := series_eq v p).
  destruct (Z.ltb_spec p (comp v 2)) as [Hlt|Hge].
  { assert (release_lt (patch_release p) v) by (apply series_above; tauto).
    destruct (compare_cases (patch_release p) v) as [[-> ?]|[[-> ?]|[-> ?]]]; [done|exfalso; release_order..]. }
  destruct (Z.ltb_spec (comp v 2) p) as [Hlt|Hge'].
  { assert (release_lt v (patch_release p)) by (by apply series_below).
    destruct (compare_cases (patch_release p) v) as [[-> ?]|[[-> ?]|[-> ?]]]; [exfalso; release_order..|done]. }
  assert (p = comp v 2) as Hp by lia. destruct (zero_after_patch v) eqn:Hz.
  - apply compare_zero, Heq. done.
  - assert (release_lt (patch_release p) v) by (apply series_above; tauto).
    destruct (compare_cases (patch_release p) v) as [[-> ?]|[[-> ?]|[-> ?]]]; [done|exfalso; release_order..].
Qed.

(** ** The least patch a lower bound admits *)

Lemma minimum_patch_spec bound :
  set bound = true → int_release (version bound) →
  match pythonMinimumSeriesPatchV1 bound major minor with
  | Some q => in_int q ∧ ∀ p, 0 ≤ p → above bound (patch_release p) = true ↔ q ≤ p
  | None => ∀ p, in_int p → above bound (patch_release p) = false
  end.
Proof using Type.
  intros Hset Hint. assert (natural (version bound)) as Hnat by (by apply int_release_natural).
  assert (in_int (comp (version bound) 2)) as H2 by (by apply int_release_comp).
  unfold pythonMinimumSeriesPatchV1. rewrite Hset. simpl. change [major; minor; 0] with (patch_release 0).
  change [major; minor; comp (version bound) 2] with (patch_release (comp (version bound) 2)).
  destruct (decide (of_series (version bound))) as [Hs|Hs].
  - assert (Habove := λ p, eq_refl (above bound (patch_release p))). unfold above in Habove at 1. rewrite Hset in Habove.
    assert (∀ p, above bound (patch_release p) = negb (let comparison := if p <? comp (version bound) 2 then -1
      else if comp (version bound) 2 <? p then 1 else if zero_after_patch (version bound) then 0 else -1 in
      (comparison <? 0) || (comparison =? 0) && negb (inclusive bound))) as Ha
      by (intros p; rewrite <-Habove, (compare_series _ _ Hnat Hs); done).
    rewrite !(compare_series _ _ Hnat Hs). clear Habove. destruct Hs as [-> ->].
    rewrite !Z.eqb_refl, !Z.ltb_irrefl. simpl. unfold in_int, maxInt in *.
    destruct (Z.ltb_spec 0 (comp (version bound) 2)), (Z.ltb_spec (comp (version bound) 2) 0),
      (zero_after_patch (version bound)), (inclusive bound), (Z.eqb_spec (comp (version bound) 2) (2 ^ 63 - 1)); simpl in *;
    (split; [lia|]) || idtac; intros p Hp; rewrite Ha; destruct (Z.ltb_spec p (comp (version bound) 2)), (Z.ltb_spec (comp (version bound) 2) p);
      simpl; first [done|lia|split; intros; first [done|lia]].
  - destruct (outside_series (version bound) Hs) as [Hl|Hl].
    + destruct (compare_cases (patch_release 0) (version bound)) as [[_ ?]|[[_ ?]|[-> ?]]];
        [specialize (Hl 0); exfalso; release_order..|]. simpl. split; [unfold in_int, maxInt; lia|]. intros p Hp. split; [done|].
      intros _. specialize (Hl p). unfold above. rewrite Hset. all_comparisons; try done; exfalso; release_order.
    + destruct (compare_cases (patch_release 0) (version bound)) as [[-> ?]|[[_ ?]|[_ ?]]];
        [|specialize (Hl 0); exfalso; release_order..]. simpl.
      replace (negb (comp (version bound) 0 =? major) || negb (comp (version bound) 1 =? minor)) with true.
      * intros p _. specialize (Hl p). unfold above. rewrite Hset. all_comparisons; try done; exfalso; release_order.
      * symmetry. apply orb_true_iff. rewrite !negb_true_iff, !Z.eqb_neq.
        unfold of_series in Hs. destruct (decide (comp (version bound) 0 = major)); tauto.
Qed.

(** ** The patches the exclusions take out *)

Lemma canonical_patch_iff v q :
  pythonCanonicalInterpreterPatchV1 v major minor = Some q ↔ release_eq (patch_release q) v.
Proof using Type.
  clear Hmajor Hminor. rewrite series_eq. unfold pythonCanonicalInterpreterPatchV1, of_series.
  destruct (Z.eqb_spec (comp v 0) major), (Z.eqb_spec (comp v 1) minor), (zero_after_patch v); simpl;
    split; intros H; simplify_eq; naive_solver.
Qed.

Lemma long_prefix v p : (3 ≤ length v)%nat →
  releaseHasPrefix (patch_release p) v = true ↔ pythonCanonicalInterpreterPatchV1 v major minor = Some p.
Proof using Type.
  intros Hl. rewrite canonical_patch_iff, has_prefix_iff. split; [|by intros H i _].
  intros H i. destruct (decide (i < length v)%nat) as [?|?]; [by apply H|].
  rewrite (comp_beyond v) by lia. rewrite comp_beyond; [done|simpl; lia].
Qed.

Lemma short_prefix_1 p first : releaseHasPrefix (patch_release p) [first] = (first =? major).
Proof using Type. unfold releaseHasPrefix. simpl. by rewrite andb_true_r, Z.eqb_sym. Qed.
Lemma short_prefix_2 p first second :
  releaseHasPrefix (patch_release p) [first; second] = (first =? major) && (second =? minor).
Proof using Type. unfold releaseHasPrefix. simpl. by rewrite andb_true_r, (Z.eqb_sym first), (Z.eqb_sym second). Qed.

Lemma excluded_exact_spec releases p :
  p ∈ excluded_exact_patches releases major minor ↔
  existsb (λ excluded, compareReleaseVersions (patch_release p) excluded =? 0) releases = true.
Proof using Type.
  unfold excluded_exact_patches. rewrite elem_of_list_to_set, list_elem_of_omap, existsb_exists.
  setoid_rewrite canonical_patch_iff. setoid_rewrite Z.eqb_eq. setoid_rewrite compare_zero.
  by setoid_rewrite list_elem_of_In.
Qed.

Lemma excluded_prefix_spec prefixes excluded :
  Forall (λ p, int_release p ∧ p ≠ []) prefixes →
  match excluded_prefix_patches prefixes major minor excluded with
  | Some result => ∀ p, p ∈ result ↔ p ∈ excluded ∨ existsb (releaseHasPrefix (patch_release p)) prefixes = true
  | None => ∀ p, existsb (releaseHasPrefix (patch_release p)) prefixes = true
  end.
Proof using Type.
  clear Hmajor Hminor. intros Hall. revert excluded.
  induction Hall as [|v prefixes [_ Hne] _ IH]; intros excluded; cbn [excluded_prefix_patches existsb]; [naive_solver|].
  assert (∀ next : gset Z, (∀ p, p ∈ next ↔ p ∈ excluded ∨ releaseHasPrefix (patch_release p) v = true) →
    match excluded_prefix_patches prefixes major minor next with
    | Some result => ∀ p, p ∈ result ↔
        p ∈ excluded ∨ releaseHasPrefix (patch_release p) v || existsb (releaseHasPrefix (patch_release p)) prefixes = true
    | None => ∀ p, releaseHasPrefix (patch_release p) v || existsb (releaseHasPrefix (patch_release p)) prefixes = true
    end) as Hstep.
  { intros next Hnext. specialize (IH next). destruct (excluded_prefix_patches prefixes major minor next) as [result|].
    - intros p. rewrite IH, Hnext, orb_true_iff. tauto.
    - intros p. rewrite IH. apply orb_true_r. }
  assert ((3 ≤ length v)%nat → ∀ p,
    p ∈ (match pythonCanonicalInterpreterPatchV1 v major minor with Some patch => ({[patch]} ∪ excluded) | None => excluded end)
    ↔ p ∈ excluded ∨ releaseHasPrefix (patch_release p) v = true) as Hlong.
  { intros Hl p. rewrite long_prefix by done. destruct (pythonCanonicalInterpreterPatchV1 v major minor); set_solver. }
  destruct v as [|v0 [|v1 [|v2 v]]]; [done| | |].
  - destruct (v0 =? major) eqn:H0; [intros p; by rewrite short_prefix_1, H0|]. apply Hstep. intros p.
    rewrite short_prefix_1, H0. naive_solver.
  - destruct ((v0 =? major) && (v1 =? minor)) eqn:H0; [intros p; by rewrite short_prefix_2, H0|]. apply Hstep. intros p.
    rewrite short_prefix_2, H0. naive_solver.
  - apply Hstep, Hlong. simpl. lia.
Qed.

(** The excluded patches are exactly those the exclusions reject. *)
Lemma excluded_patches_spec c :
  well_formed c →
  match pythonExcludedSeriesPatchesV1 c major minor with
  | Some excluded => ∀ p, p ∈ excluded ↔ exclusions_admit c (patch_release p) = false
  | None => ∀ p, exclusions_admit c (patch_release p) = false
  end.
Proof using Type.
  clear Hmajor Hminor. intros Hc. unfold pythonExcludedSeriesPatchesV1, exclusions_admit.
  assert (H := excluded_prefix_spec (excludedPrefixes c) (excluded_exact_patches (excludedExact c) major minor) (wf_prefixes c Hc)).
  destruct (excluded_prefix_patches _ _ _ _); intros p; rewrite ?H, ?excluded_exact_spec.
  - destruct (existsb _ _), (existsb _ _); naive_solver.
  - apply andb_false_r.
Qed.

Lemma canonical_patch_int v q : int_release v → pythonCanonicalInterpreterPatchV1 v major minor = Some q → in_int q.
Proof using Type. intros Hv (_ & <- & _)%canonical_patch_iff%series_eq. by apply int_release_comp. Qed.

(** ** The search for a release *)

Definition bounds_admit (c : pythonReleaseConstraintV1) (a : list Z) : bool := equality_admits c a && above (lower c) a.

(** The search starts at the least patch that equality and lower bound admit;
    they admit every later patch as well, or none. *)
Lemma series_start_spec c :
  well_formed c →
  match series_start c major minor with
  | Some q => in_int q ∧ ((∀ p, 0 ≤ p → bounds_admit c (patch_release p) = true ↔ q ≤ p) ∨
                          (∀ p, 0 ≤ p → bounds_admit c (patch_release p) = true ↔ p = q))
  | None => ∀ p, in_int p → bounds_admit c (patch_release p) = false
  end.
Proof using Type.
  clear Hmajor Hminor. intros Hc. unfold series_start, bounds_admit, equality_admits.
  assert (Hmin := minimum_patch_spec (lower c) (wf_set c Hc) (wf_lower c Hc)).
  destruct (pythonMinimumSeriesPatchV1 (lower c) major minor) as [q|]; simpl.
  2:{ intros p Hp. rewrite Hmin by done. apply andb_false_r. }
  destruct Hmin as [Hq Hmin]. destruct (equality c) as [e|] eqn:He; [|split; [done|by left]].
  assert (∀ (admitted : Z → bool), (∀ p, admitted p = true ↔ pythonCanonicalInterpreterPatchV1 e major minor = Some p) →
    match (match pythonCanonicalInterpreterPatchV1 e major minor with
           | Some equal => if equal <? q then None else Some equal | None => None end) with
    | Some q => in_int q ∧ ((∀ p, 0 ≤ p → admitted p && above (lower c) (patch_release p) = true ↔ q ≤ p) ∨
                            (∀ p, 0 ≤ p → admitted p && above (lower c) (patch_release p) = true ↔ p = q))
    | None => ∀ p, in_int p → admitted p && above (lower c) (patch_release p) = false
    end) as Hfixed.
  { intros admitted Ha. assert (∀ r, pythonCanonicalInterpreterPatchV1 e major minor = Some r → in_int r) as Hint.
    { intros r. apply canonical_patch_int. by eapply wf_equality. }
    destruct (pythonCanonicalInterpreterPatchV1 e major minor) as [r|]; [destruct (Z.ltb_spec r q)|].
    - intros p [Hp _]. apply not_true_iff_false. rewrite andb_true_iff, Ha, Hmin by done. intros [[= ->] ?]. lia.
    - split; [by apply Hint|]. right. intros p Hp. rewrite andb_true_iff, Ha, Hmin by done.
      split; [by intros [[= ->] _]|]. intros ->. split; [done|lia].
    - intros p [Hp _]. apply not_true_iff_false. rewrite andb_true_iff, Ha. by intros [? _]. }
  destruct (equalityPrefix c) eqn:Hpre.
  - destruct e as [|e0 [|e1 [|e2 e]]]; [by edestruct (wf_equality c Hc)| | |].
    + destruct (e0 =? major) eqn:H0; simpl; [split; [done|left]|]; intros p Hp; rewrite short_prefix_1, H0; simpl; auto.
    + rewrite <-negb_andb. destruct ((e0 =? major) && (e1 =? minor)) eqn:H0; simpl; [split; [done|left]|];
        intros p Hp; rewrite short_prefix_2, H0; simpl; auto.
    + apply (Hfixed (λ p, releaseHasPrefix (patch_release p) (e0 :: e1 :: e2 :: e))).
      intros p. apply long_prefix. simpl. lia.
  - apply (Hfixed (λ p, compareReleaseVersions (patch_release p) e =? 0)).
    intros p. by rewrite Z.eqb_eq, compare_zero, canonical_patch_iff.
Qed.

(** The search takes the first patch that is not excluded; as many further
    rounds as there are excluded patches are enough. *)
Lemma first_free_patch_spec remaining c (excluded : gset Z) patch :
  in_int patch → (size (filter (λ p, (patch ≤ p)%Z) excluded) ≤ remaining)%nat →
  first_free_patch remaining c excluded major minor patch = true ↔
  ∃ q, patch ≤ q ≤ maxInt ∧ (q ∉ excluded) ∧ (∀ r, patch ≤ r < q → r ∈ excluded) ∧
    allows c (patch_release q) (patch_text q) = true.
Proof using Type.
  clear Hmajor Hminor. revert patch. induction remaining as [|remaining IH]; intros patch Hp Hsize;
    cbn [first_free_patch]; case_bool_decide as Hin.
  1, 3: split; [intros H; exists patch; unfold in_int in Hp; split_and!; [lia|lia|done|intros; lia|exact H]|];
    intros (q & Hq & Hqe & Hr & Ha); destruct (decide (q = patch)) as [->|]; [exact Ha|]; exfalso; apply Hin, Hr; lia.
  - exfalso. assert (filter (λ p, (patch ≤ p)%Z) excluded ≡ ∅) as He by (apply size_empty_inv; lia).
    assert (patch ∈ filter (λ p, (patch ≤ p)%Z) excluded) by (apply elem_of_filter; split; [lia|done]). set_solver.
  - destruct (Z.eqb_spec patch maxInt) as [->|Hmax].
    { split; [done|]. intros (q & Hq & Hqe & _). assert (q = maxInt) as -> by lia. done. }
    rewrite IH; [|unfold in_int in *; lia|].
    + split; intros (q & Hq & Hqe & Hr & Ha); exists q.
      * split_and!; [lia|lia|done| |done]. intros r Hrq. destruct (decide (r = patch)) as [->|]; [done|]. apply Hr. lia.
      * assert (q ≠ patch) by (by intros ->). split_and!; [lia|lia|done| |done]. intros r Hrq. apply Hr. lia.
    + assert (size (filter (λ p, (patch + 1 ≤ p)%Z) excluded) < size (filter (λ p, (patch ≤ p)%Z) excluded))%nat; [|lia].
      apply subset_size. split; [intros x; rewrite !elem_of_filter; intros [? ?]; split; [lia|done]|].
      intros Hsub. assert (patch ∈ filter (λ p, (patch + 1 ≤ p)%Z) excluded) as Hf.
      { apply Hsub, elem_of_filter. split; [lia|done]. }
      apply elem_of_filter in Hf. lia.
Qed.

Lemma allows_true c a raw :
  allows c a raw = true ↔
  unsatisfiable c = false ∧ strict_admits c raw = true ∧ bounds_admit c a = true ∧ below (upper c) a = true ∧
  exclusions_admit c a = true.
Proof using Type. unfold bounds_admit. rewrite allows_conj, !andb_true_iff, negb_true_iff. tauto. Qed.

Lemma below_mono bound p q : p ≤ q → below bound (patch_release q) = true → below bound (patch_release p) = true.
Proof using Type.
  clear Hmajor Hminor. intros Hpq. destruct (decide (p = q)) as [->|Hne]; [done|].
  assert (release_lt (patch_release p) (patch_release q)) by (apply series_lt; lia).
  unfold below. destruct (set bound); [simpl|done]. all_comparisons; try done; exfalso; release_order.
Qed.
Lemma above_mono bound p q : p ≤ q → above bound (patch_release p) = true → above bound (patch_release q) = true.
Proof using Type.
  clear Hmajor Hminor. intros Hpq. destruct (decide (p = q)) as [->|Hne]; [done|].
  assert (release_lt (patch_release p) (patch_release q)) by (apply series_lt; lia).
  unfold above. destruct (set bound); [simpl|done]. all_comparisons; try done; exfalso; release_order.
Qed.

(** A strict equality fixes the patch. *)
Lemma strict_patch c p raw :
  well_formed c → strict c ≠ "" → allows c (patch_release p) raw = true →
  raw = strict c ∧ pythonCanonicalInterpreterPatchV1 (default [] (equality c)) major minor = Some p.
Proof using Type.
  clear Hmajor Hminor. intros Hc Hs (Hu & Hst & Hb & _)%allows_true. unfold strict_admits in Hst.
  rewrite bool_decide_false in Hst by done. simpl in Hst. apply bool_decide_eq_true in Hst. split; [done|].
  destruct (wf_strict c Hc Hs) as [?|[Hne Hpre]]; [congruence|]. unfold bounds_admit, equality_admits in Hb.
  destruct (equality c) as [e|]; [|done]. rewrite Hpre in Hb. apply andb_true_iff in Hb as [Hb _]. simpl.
  by apply canonical_patch_iff, compare_zero, Z.eqb_eq.
Qed.

Lemma least_free (taken : gset Z) q p :
  q ≤ p → p ∉ taken → ∃ r, q ≤ r ≤ p ∧ (r ∉ taken) ∧ ∀ s, q ≤ s < r → s ∈ taken.
Proof using Type.
  clear Hmajor Hminor. intros Hqp Hp. remember (Z.to_nat (p - q)) as n eqn:Hn. revert q Hqp Hn.
  induction n as [|n IH]; intros q Hqp Hn; [exists p; split_and!; [lia|lia|done|intros; lia]|].
  destruct (decide (q ∈ taken)) as [Hq|Hq]; [|exists q; split_and!; [lia|lia|done|intros; lia]].
  destruct (IH (q + 1)) as (r & Hr & Hrx & Hs); [lia|lia|]. exists r. split_and!; [lia|lia|done|].
  intros s Hsr. destruct (decide (s = q)) as [->|]; [done|]. apply Hs. lia.
Qed.

Lemma has_series_release_spec c :
  well_formed c →
  pythonConstraintHasSeriesReleaseV1 c major minor = true ↔
  ∃ p, in_int p ∧ allows c (patch_release p) (patch_text p) = true.
Proof using Type.
  clear Hmajor Hminor. intros Hc. unfold pythonConstraintHasSeriesReleaseV1. destruct (unsatisfiable c) eqn:Hu.
  { split; [done|]. intros (p & _ & (? & _)%allows_true). congruence. }
  destruct (decide (strict c = "")) as [Hs|Hs].
  2:{ rewrite bool_decide_false by done. simpl. split.
      - destruct (pythonCanonicalInterpreterPatchV1 (default [] (equality c)) major minor) as [p|] eqn:Hp; [|done].
        intros [_ Ha]%andb_true_iff. exists p. split; [|done]. eapply canonical_patch_int; [|done].
        destruct (equality c) as [e|] eqn:He; [by eapply wf_equality|constructor].
      - intros (p & _ & Ha). destruct (strict_patch c p _ Hc Hs Ha) as [Ht ->]. apply andb_true_iff.
        split; [by apply bool_decide_eq_true|done]. }
  rewrite bool_decide_true by done. simpl. assert (Hstart := series_start_spec c Hc).
  assert (Hex := excluded_patches_spec c Hc). destruct (series_start c major minor) as [q|].
  2:{ split; [done|]. intros (p & Hp & (_ & _ & Hb & _)%allows_true). rewrite Hstart in Hb; done. }
  destruct Hstart as [Hq Hstart]. destruct (pythonExcludedSeriesPatchesV1 c major minor) as [ex|].
  2:{ split; [done|]. intros (p & Hp & (_ & _ & _ & _ & Hx)%allows_true). rewrite Hex in Hx. done. }
  rewrite first_free_patch_spec; [|done|apply subseteq_size; intros x; rewrite elem_of_filter; tauto].
  split; [intros (p & [? ?] & _ & _ & Ha); exists p; unfold in_int in *; split; [lia|done]|].
  intros (p & Hp & Ha). assert (Ha' := Ha). apply allows_true in Ha' as (_ & Hst & Hb & Hbelow & Hx).
  assert (p ∉ ex) as Hpex by (rewrite Hex, Hx; done). unfold in_int in *.
  assert (q ≤ p) as Hqp by (destruct Hstart as [H|H]; apply H in Hb; lia).
  destruct Hstart as [Hge|Heq].
  - destruct (least_free ex q p Hqp Hpex) as (r & Hr & Hrex & Hmin). exists r. split_and!; [lia|lia|done|done|].
    apply allows_true. split_and!; [done| |apply Hge; lia|by apply (below_mono _ r p); [lia|]|].
    + unfold strict_admits. by rewrite bool_decide_true.
    + apply not_false_iff_true. by rewrite <-Hex.
  - assert (p = q) as -> by (apply Heq; [lia|done]). exists q. split_and!; [lia|lia|done|intros; lia|done].
Qed.

(** ** Coverage of the series *)

Lemma interval_empty_spec i a :
  set (interval_lower i) = true → pythonIntervalEmptyV1 i = true →
  above (interval_lower i) a && below (interval_upper i) a = false.
Proof using Type.
  clear Hmajor Hminor. unfold pythonIntervalEmptyV1. intros Hl. destruct (set (interval_upper i)) eqn:Hu; [simpl|done].
  intros He. apply not_true_iff_false. rewrite andb_true_iff, above_iff, below_iff by done. intros [[Ha Hai] [Hb Hbi]].
  destruct (compare_cases (version (interval_lower i)) (version (interval_upper i))) as [[E ?]|[[E ?]|[E ?]]];
    rewrite E in He; simpl in He; [done| |release_order].
  assert (release_eq a (version (interval_lower i))) as Hal by release_order.
  assert (release_eq a (version (interval_upper i))) as Hau by release_order. by rewrite Hai, Hbi in He.
Qed.

Lemma prefix_bounds a p n : natural a → nextReleasePrefixV1 p = Some n →
  above (Bound p true true) a && below (Bound n false true) a = releaseHasPrefix a p.
Proof using Type.
  intros Ha Hn. apply eq_true_iff_eq. rewrite andb_true_iff, above_closed, below_closed, (prefix_interval a p n) by done.
  rewrite Z.leb_le, Z.ltb_lt, <-!compare_neg. lia.
Qed.
Lemma exact_bounds a e : above (Bound e true true) a && below (Bound e true true) a = (compareReleaseVersions a e =? 0).
Proof using Type. rewrite above_closed, below_closed. by all_comparisons. Qed.

Definition in_interval (i : pythonReleaseIntervalV1) (a : list Z) : bool :=
  above (interval_lower i) a && below (interval_upper i) a.

Lemma raise_lower_set b v incl : set b = true → set (raise_lower b v incl) = true.
Proof using Type. unfold raise_lower. intros Hs. by destruct (negb (set b) || _); [|destruct (_ =? 0)]. Qed.

(** The allowed interval is the constraint without its exclusions. *)
Lemma constraint_interval_spec c :
  well_formed c → (unsatisfiable c = false → pythonConstraintIntervalEmptyV1 c = false) →
  match pythonConstraintIntervalV1 c with
  | Some i => unsatisfiable c = false ∧ set (interval_lower i) = true ∧
      ∀ a, natural a → in_interval i a = bounds_admit c a && below (upper c) a
  | None => ∀ a raw, natural a → allows c a raw = false
  end.
Proof using Type.
  clear Hmajor Hminor. intros Hc Hempty. unfold pythonConstraintIntervalV1. destruct (unsatisfiable c) eqn:Hu.
  { intros a raw _. by rewrite allows_conj, Hu. }
  assert (∀ i, set (interval_lower i) = true →
    (∀ a, natural a → in_interval i a = bounds_admit c a && below (upper c) a) →
    match (if pythonIntervalEmptyV1 i then None else Some i) with
    | Some i => false = false ∧ set (interval_lower i) = true ∧
        ∀ a, natural a → in_interval i a = bounds_admit c a && below (upper c) a
    | None => ∀ a raw, natural a → allows c a raw = false
    end) as Hnonempty.
  { intros i Hset Hi. destruct (pythonIntervalEmptyV1 i) eqn:He; [|done]. intros a raw Ha.
    apply not_true_iff_false. intros (_ & _ & Hb & Hbel & _)%allows_true. specialize (Hi a Ha).
    rewrite Hb, Hbel in Hi. unfold in_interval in Hi. by rewrite interval_empty_spec in Hi. }
  assert (Hset := wf_set c Hc). unfold bounds_admit, equality_admits in *. specialize (Hempty eq_refl).
  destruct (equality c) as [e|] eqn:He; [|by apply Hnonempty]. destruct (equalityPrefix c) eqn:Hp.
  - destruct (nextReleasePrefixV1 e) as [n|] eqn:Hn; simpl.
    + apply Hnonempty; [by apply raise_lower_set|]. intros a Ha. unfold in_interval. simpl.
      rewrite above_raise, below_drop, <-(prefix_bounds a e n) by done.
      destruct (above (lower c) a), (below (upper c) a), (above _ a), (below _ a); done.
    + unfold pythonConstraintIntervalEmptyV1 in Hempty. by rewrite He, Hp, Hn in Hempty.
  - apply Hnonempty; [by apply raise_lower_set|]. intros a Ha. unfold in_interval. simpl.
    rewrite above_raise, below_drop, <-exact_bounds.
    destruct (above (lower c) a), (below (upper c) a), (above _ a), (below _ a); done.
Qed.

Lemma series_base : release_eq (patch_release 0) [major; minor].
Proof using Type. intros i. rewrite comp_patch_release. destruct i as [|[|[|i]]]; [done..|]. by rewrite comp_beyond by (simpl; lia). Qed.

Lemma series_next : minor ≠ maxInt → nextReleasePrefixV1 [major; minor] = Some [major; minor + 1].
Proof using Type. intros H. unfold nextReleasePrefixV1. simpl. by destruct (Z.eqb_spec minor maxInt). Qed.

(** An upper bound below the next minor leaves out some patch of the series. *)
Lemma upper_leaves_out v :
  minor ≠ maxInt → natural v → release_lt v [major; minor + 1] → ∃ p, 0 ≤ p ∧ release_lt v (patch_release p).
Proof using Type.
  clear Hmajor Hminor. intros Hm Hv Hlt. destruct (decide (of_series v)) as [Hs|Hs].
  - exists (comp v 2 + 1). specialize (Hv 2%nat). split; [lia|]. apply series_below; [done|lia].
  - destruct (outside_series v Hs) as [Hl|Hl]; [by exists 0|]. exfalso. apply Hs.
    assert (releaseHasPrefix v [major; minor] = true) as Hpre.
    { apply (prefix_interval v _ _ Hv (series_next Hm)). split; [|done].
      specialize (Hl 0). assert (Hb := series_base). intros ?. release_order. }
    rewrite has_prefix_iff in Hpre. split; [apply (Hpre 0%nat)|apply (Hpre 1%nat)]; simpl; lia.
Qed.

Lemma below_next_minor p : minor ≠ maxInt → 0 ≤ p → release_lt (patch_release p) [major; minor + 1].
Proof using Type.
  intros Hm Hp. exists 1%nat. split; [|unfold comp; simpl; lia]. intros [|j] Hj; [done|lia].
Qed.

Lemma int_bounds c i :
  well_formed c → pythonConstraintIntervalV1 c = Some i → natural (version (interval_upper i)).
Proof using Type.
  clear Hmajor Hminor. intros Hc. unfold pythonConstraintIntervalV1. destruct (unsatisfiable c); [done|].
  assert (∀ j, int_release (version (interval_upper j)) →
    (if pythonIntervalEmptyV1 j then None else Some j) = Some i → natural (version (interval_upper i))) as Hj.
  { intros j Hj. destruct (pythonIntervalEmptyV1 j); [done|]. intros [= <-]. by apply int_release_natural. }
  assert (∀ b v incl, int_release (version b) → int_release v → int_release (version (drop_upper b v incl))) as Hd.
  { intros b v incl ? ?. unfold drop_upper. by repeat case_match. }
  destruct (equality c) as [e|] eqn:He; [|apply Hj, Hc]. assert (int_release e) as Hie by (by eapply wf_equality).
  destruct (equalityPrefix c).
  - destruct (nextReleasePrefixV1 e) as [n|] eqn:Hn; [simpl|done]. apply Hj. simpl. apply Hd; [apply Hc|by eapply next_prefix_int].
  - apply Hj. simpl. apply Hd; [apply Hc|done].
Qed.

Lemma upper_covers bound :
  minor ≠ maxInt → natural (version bound) →
  set bound && (compareReleaseVersions (version bound) [major; minor + 1] <? 0) = false ↔
  ∀ p, 0 ≤ p → below bound (patch_release p) = true.
Proof using Type.
  clear Hmajor Hminor. intros Hm Hv. unfold below. destruct (set bound); [simpl|done]. split.
  - intros Hn%Z.ltb_ge p Hp. assert (Hlt := below_next_minor p Hm Hp).
    assert (¬ release_lt (version bound) [major; minor + 1]) by (rewrite <-compare_neg; lia).
    all_comparisons; try done; exfalso; release_order.
  - intros H. apply Z.ltb_ge. destruct (Z.ltb_spec (compareReleaseVersions (version bound) [major; minor + 1]) 0) as [Hn|]; [|done].
    apply compare_neg in Hn. destruct (upper_leaves_out _ Hm Hv Hn) as (p & Hp & Hlt). specialize (H p Hp).
    assert ((0 <? compareReleaseVersions (patch_release p) (version bound)) = true) as Hpos by (by apply Z.ltb_lt, compare_pos).
    by rewrite Hpos in H.
Qed.

Lemma lower_covers bound :
  set bound = true →
  (0 <? compareReleaseVersions (version bound) [major; minor]) ||
    (compareReleaseVersions (version bound) [major; minor] =? 0) && negb (inclusive bound) = false ↔
  ∀ p, 0 ≤ p → above bound (patch_release p) = true.
Proof using Type.
  clear Hmajor Hminor. intros Hset. assert (Hbase := series_base).
  assert (∀ b, b = negb (above bound (patch_release 0)) →
    b = false ↔ ∀ p, 0 ≤ p → above bound (patch_release p) = true) as Hb.
  { intros b ->. rewrite negb_false_iff. split; [|intros H; by apply H]. intros H p Hp. by apply (above_mono _ 0). }
  apply Hb. unfold above. rewrite Hset, negb_involutive. simpl. all_comparisons; try done; exfalso; release_order.
Qed.

Lemma excluded_patches_int c excluded :
  well_formed c → pythonExcludedSeriesPatchesV1 c major minor = Some excluded → ∀ p, p ∈ excluded → in_int p.
Proof using Type.
  clear Hmajor Hminor. intros [_ _ _ _ Hexact Hprefixes _]. unfold pythonExcludedSeriesPatchesV1.
  assert (∀ p, p ∈ excluded_exact_patches (excludedExact c) major minor → in_int p) as Hinit.
  { intros p. unfold excluded_exact_patches. rewrite elem_of_list_to_set, list_elem_of_omap.
    intros (v & Hv & Hp). rewrite Forall_forall in Hexact. by eapply canonical_patch_int; [apply Hexact|]. }
  revert Hinit. generalize (excluded_exact_patches (excludedExact c) major minor) as taken.
  induction Hprefixes as [|v prefixes [Hv _] _ IH]; intros taken Htaken; cbn [excluded_prefix_patches]; [by intros [= ->]|].
  assert (∀ p, p ∈ (match pythonCanonicalInterpreterPatchV1 v major minor with
                    | Some patch => ({[patch]} ∪ taken) | None => taken end) → in_int p) as Hnext.
  { intros p. destruct (pythonCanonicalInterpreterPatchV1 v major minor) as [q|] eqn:Hq; [|apply Htaken].
    rewrite elem_of_union, elem_of_singleton. intros [->|?]; [by eapply canonical_patch_int|by apply Htaken]. }
  destruct v as [|v0 [|v1 [|v2 v]]]; [by apply IH| | |by apply IH].
  - destruct (v0 =? major); [done|by apply IH].
  - destruct ((v0 =? major) && (v1 =? minor)); [done|by apply IH].
Qed.

Lemma exclusions_cover c :
  well_formed c →
  (match pythonExcludedSeriesPatchesV1 c major minor with Some excluded => (size excluded =? 0)%nat | None => false end) = true ↔
  ∀ p, 0 ≤ p → exclusions_admit c (patch_release p) = true.
Proof using Type.
  clear Hmajor Hminor. intros Hc. assert (Hex := excluded_patches_spec c Hc). destruct (pythonExcludedSeriesPatchesV1 c major minor) as [ex|] eqn:Hs.
  - rewrite Nat.eqb_eq. split.
    + intros He%size_empty_inv p _. apply not_false_iff_true. rewrite <-Hex. set_solver.
    + intros H. apply size_empty_iff. intros p. split; [|set_solver]. intros Hp. assert (Hp' := Hp). apply Hex in Hp'.
      destruct (excluded_patches_int c ex Hc Hs p Hp). by rewrite H in Hp'.
  - split; [done|]. intros H. specialize (H 0 ltac:(lia)). by rewrite Hex in H.
Qed.

Lemma covers_series_spec c :
  well_formed c → (unsatisfiable c = false → pythonConstraintIntervalEmptyV1 c = false) →
  minor ≠ maxInt → strict c = "" →
  covers_series c major minor [major; minor + 1] = true ↔
  ∀ p, 0 ≤ p → allows c (patch_release p) (patch_text p) = true.
Proof using Hmajor Hminor.
  intros Hc Hempty Hm Hst. unfold covers_series. assert (Hint := constraint_interval_spec c Hc Hempty).
  assert (Hnat := patch_release_natural). assert (Hup := int_bounds c). assert (Hbase := series_base).
  destruct (pythonConstraintIntervalV1 c) as [i|]; simpl.
  2:{ split; [done|]. intros H. specialize (H 0 ltac:(lia)). rewrite Hint in H; [done|apply Hnat; lia]. }
  specialize (Hup i Hc eq_refl). destruct Hint as (Hu & Hset & Hint).
  assert (∀ p, 0 ≤ p → allows c (patch_release p) (patch_text p) = true ↔
    in_interval i (patch_release p) = true ∧ exclusions_admit c (patch_release p) = true) as Hall.
  { intros p Hp. rewrite allows_true, Hint, andb_true_iff by auto. unfold strict_admits.
    rewrite bool_decide_true by done. tauto. }
  assert (Hlow := lower_covers _ Hset). assert (Hhigh := upper_covers _ Hm Hup).
  assert (Hexcl := exclusions_cover c Hc). rewrite andb_false_r, andb_false_l, orb_false_r.
  transitivity ((∀ p, 0 ≤ p → above (interval_lower i) (patch_release p) = true) ∧
    (∀ p, 0 ≤ p → below (interval_upper i) (patch_release p) = true) ∧
    (∀ p, 0 ≤ p → exclusions_admit c (patch_release p) = true)).
  - rewrite <-Hlow, <-Hhigh, <-Hexcl.
    match goal with |- (if ?x then _ else if ?y then _ else _) = true ↔ _ => destruct x, y end; clear; intuition congruence.
  - split; [intros (H1 & H2 & H3) p Hp; apply Hall; [done|]; unfold in_interval; by rewrite H1, H2, H3|].
    intros H. split_and!; intros p Hp; specialize (H p Hp); apply Hall in H as [Hi He]; try done;
      apply andb_true_iff in Hi; tauto.
Qed.

(** A constraint that fixes one release does not cover a series. *)
Lemma exact_does_not_cover c :
  well_formed c → strict c ≠ "" ∨ equality c ≠ None ∧ equalityPrefix c = false →
  ¬ ∀ p, 0 ≤ p → allows c (patch_release p) (patch_text p) = true.
Proof using Type.
  clear Hmajor Hminor. intros Hc Hfix H. assert (H0 := H 0 ltac:(lia)). assert (H1 := H 1 ltac:(lia)).
  assert (∃ e, equality c = Some e ∧ equalityPrefix c = false) as (e & He & Hp).
  { destruct Hfix as [Hs|[Hne Hp]]; [destruct (wf_strict c Hc Hs) as [Hu|[Hne Hp]]|].
    - apply allows_true in H0 as [H0 _]. congruence.
    - destruct (equality c) as [e|]; [by exists e|done].
    - destruct (equality c) as [e|]; [by exists e|done]. }
  assert (∀ p, allows c (patch_release p) (patch_text p) = true → comp e 2 = p) as Hpatch.
  { intros p (_ & _ & Hb & _)%allows_true. unfold bounds_admit, equality_admits in Hb. rewrite He, Hp in Hb.
    apply andb_true_iff in Hb as [Hb%Z.eqb_eq%compare_zero%series_eq _]. tauto. }
  apply Hpatch in H0, H1. lia.
Qed.
End series.

(** ** Theorems *)

Lemma series_claim claim cl :
  ParseSupportedPythonClaimV1 claim = Ok cl → in_int (Major cl) ∧ in_int (Minor cl).
Proof. intros [[? [? _]] _]%parse_claim_iff. done. Qed.

(** For a minor series, [PythonRequiresPythonIntersectsClaimV1] answers
    [true] exactly when the constraint admits a release of the series with a
    patch number in the range of [int]; the search always finds one if there is
    one. *)
Theorem PythonRequiresPythonIntersectsClaimV1_spec requiresPython claim c cl :
  parsePythonReleaseConstraintV1 (trim_space requiresPython) = Some c →
  ParseSupportedPythonClaimV1 claim = Ok cl → Exact cl = false → Minor cl ≠ maxInt →
  ∃ answer, PythonRequiresPythonIntersectsClaimV1 requiresPython claim = Ok answer ∧
    (answer = true ↔ ∃ patch, 0 ≤ patch ≤ maxInt ∧
      let '(candidate, raw) := pythonCanonicalInterpreterReleaseV1 (Major cl) (Minor cl) patch in
      allows c candidate raw = true).
Proof.
  intros Hc Hcl Hex Hm. unfold PythonRequiresPythonIntersectsClaimV1. rewrite Hc, Hcl, bind_Ok, Hex, series_next by done.
  eexists. split; [done|]. apply has_series_release_spec. by eapply parse_constraint_wf.
Qed.

Lemma PythonRequiresPythonIntersectsClaimV1_spec_witness :
  ∃ c answer, parsePythonReleaseConstraintV1 ">=3.9.2, !=3.9.2, !=3.9.3.*" = Some c ∧
    PythonRequiresPythonIntersectsClaimV1 ">=3.9.2, !=3.9.2, !=3.9.3.*" "3.9" = Ok answer ∧
    (answer = true ↔ ∃ patch, 0 ≤ patch ≤ maxInt ∧
      let '(candidate, raw) := pythonCanonicalInterpreterReleaseV1 3 9 patch in allows c candidate raw = true).
Proof.
  eexists. destruct (PythonRequiresPythonIntersectsClaimV1_spec ">=3.9.2, !=3.9.2, !=3.9.3.*" "3.9" _ (Claim 3 9 0 false)
    ltac:(vm_compute; reflexivity) ltac:(vm_compute; reflexivity) eq_refl ltac:(done)) as (answer & H1 & H2).
  exists answer. split; [vm_compute; reflexivity|]. split; [exact H1|exact H2].
Defined.

(** For a minor series, [PythonRequiresPythonCoversClaimV1] answers [true]
    exactly when the constraint admits every patch release of the series, though
    it enumerates none of them. *)
Theorem PythonRequiresPythonCoversClaimV1_spec requiresPython claim c cl :
  parsePythonReleaseConstraintV1 (trim_space requiresPython) = Some c →
  ParseSupportedPythonClaimV1 claim = Ok cl → Exact cl = false → Minor cl ≠ maxInt →
  ∃ answer, PythonRequiresPythonCoversClaimV1 requiresPython claim = Ok answer ∧
    (answer = true ↔ ∀ patch, 0 ≤ patch →
      let '(candidate, raw) := pythonCanonicalInterpreterReleaseV1 (Major cl) (Minor cl) patch in
      allows c candidate raw = true).
Proof.
  intros Hc Hcl Hex Hm. apply parse_constraint_wf in Hc as Hwf. destruct Hwf as [Hwf Hempty].
  destruct (series_claim _ _ Hcl) as [HM Hmi].
  unfold PythonRequiresPythonCoversClaimV1. rewrite Hc, Hcl, bind_Ok, Hex.
  destruct (negb (bool_decide (strict c = "")) || _) eqn:Hfix; eexists; [split; [done|]|rewrite series_next by done; split; [done|]].
  - split; [done|]. intros H. exfalso. apply (exact_does_not_cover (Major cl) (Minor cl) c Hwf); [|exact H].
    apply orb_true_iff in Hfix as [Hs|Hs]; [left; by go_bool|right]. apply andb_true_iff in Hs as [H1 H2].
    split; [by apply negb_true_iff, bool_decide_eq_false in H1|by apply negb_true_iff in H2].
  - apply covers_series_spec; try done. apply orb_false_iff in Hfix as [Hs _]. by apply negb_false_iff, bool_decide_eq_true in Hs.
Qed.

Lemma PythonRequiresPythonCoversClaimV1_spec_witness :
  ∃ c answer, parsePythonReleaseConstraintV1 ">=3.9, <3.12, !=3.10.1" = Some c ∧
    PythonRequiresPythonCoversClaimV1 ">=3.9, <3.12, !=3.10.1" "3.11" = Ok answer ∧
    (answer = true ↔ ∀ patch, 0 ≤ patch →
      let '(candidate, raw) := pythonCanonicalInterpreterReleaseV1 3 11 patch in allows c candidate raw = true).
Proof.
  eexists. destruct (PythonRequiresPythonCoversClaimV1_spec ">=3.9, <3.12, !=3.10.1" "3.11" _ (Claim 3 11 0 false)
    ltac:(vm_compute; reflexivity) ltac:(vm_compute; reflexivity) eq_refl ltac:(done)) as (answer & H1 & H2).
  exists answer. split; [vm_compute; reflexivity|]. split; [exact H1|exact H2].
Defined.
