(* ===== verification/Canonical.v ===== *)
(** * Canonical JSON and content identities

    [internal/canonical/canonical.go]: [Marshal] writes a Go value as
    canonical-json-v1 and [Sum] hashes that text under a kind and a schema.

    A Go value is the tree that reflection shows the encoder: nil values of every
    kind are [Nil], a pointer or interface that is not nil is a [Ref] to its
    target.  Values that contain themselves, which the encoder refuses, have no
    tree and are outside the model.  The entries of a map come in the order of an
    iteration, which Go leaves open; the encoder sorts them. *)

From Stdlib Require Import Ascii.
From S2P Require Import Prelude GoText.

Open Scope Z_scope.

(** ** Go values *)

(** What reflection tells of a struct field: its name, whether it is exported,
    and the text of its [json] tag. *)
Record structFieldInfo := FieldInfo { fieldName : string; exported : bool; jsonTag : string }.

#[warnings="-register-all"]
Inductive goValue : Type :=
| Nil
| Bool (b : bool)
| Str (s : string)
| Slice (elements : list goValue)
| Map (entries : list (string * goValue))
| OtherMap (empty : bool)
| Struct (fields : list (structFieldInfo * goValue))
| Ref (target : goValue)
| Number
| Unsupported.

(** ** Strings *)

(** [Buffer.WriteRune] of a Unicode scalar value. *)
Definition byte_char (x : Z) : ascii := ascii_of_N (Z.to_N x).
Definition utf8_encode (r : Z) : list ascii :=
  if r <? 128 then [byte_char r]
  else if r <? 2048 then [byte_char (192 + r / 64); byte_char (128 + r mod 64)]
  else if r <? 65536 then
    [byte_char (224 + r / 4096); byte_char (128 + r / 64 mod 64); byte_char (128 + r mod 64)]
  else [byte_char (240 + r / 262144); byte_char (128 + r / 4096 mod 64); byte_char (128 + r / 64 mod 64);
        byte_char (128 + r mod 64)].

(** [fmt.Fprintf(output, `\u%04x`, char)] for [char] below 32. *)
Definition hex_digit (d : Z) : ascii := if d <? 10 then byte_char (48 + d) else byte_char (87 + d).
Definition control_escape (r : Z) : list ascii :=
  ["\"; "u"; "0"; "0"; hex_digit (r / 16); hex_digit (r mod 16)]%char.

Definition escape_rune (r : Z) : list ascii :=
  if (r =? 34) || (r =? 92) then "\"%char :: utf8_encode r
  else if r =? 8 then ["\"; "b"]%char
  else if r =? 9 then ["\"; "t"]%char
  else if r =? 10 then ["\"; "n"]%char
  else if r =? 12 then ["\"; "f"]%char
  else if r =? 13 then ["\"; "r"]%char
  else if r <? 32 then control_escape r
  else utf8_encode r.

Definition quote : list ascii := [byte_char 34].
Definition writeString (value : string) : result (list ascii) :=
  _ ← reject_if (negb (valid_utf8 value)) "canonical JSON contains invalid UTF-8";
  Ok (quote ++ concat (map (λ r, escape_rune (rune_value r)) (runes value)) ++ quote).

(** [utf16.Encode] of one rune. *)
Definition utf16_units (r : Z) : list Z :=
  if in_range 0 55295 r || in_range 57344 65535 r then [r]
  else if in_range 65536 1114111 r then [55296 + (r - 65536) / 1024; 56320 + (r - 65536) mod 1024]
  else [65533].

Fixpoint compare_units (leftUnits rightUnits : list Z) : Z :=
  match leftUnits, rightUnits with
  | [], [] => 0
  | [], _ => -1
  | _, [] => 1
  | l :: leftUnits, r :: rightUnits =>
    if l <? r then -1 else if r <? l then 1 else compare_units leftUnits rightUnits
  end.
Definition utf16_of (s : string) : list Z := concat (map (λ r, utf16_units (rune_value r)) (runes s)).
Definition compareUTF16 (left right : string) : Z := compare_units (utf16_of left) (utf16_of right).

(** ** Struct fields *)

Fixpoint tag_options (options : list string) (omitEmpty : bool) : result bool :=
  match options with
  | [] => Ok omitEmpty
  | option :: options =>
    if bool_decide (option = "omitempty") then
      if omitEmpty then Err "duplicate json tag option" else tag_options options true
    else Err "unsupported json tag option"
  end.
Definition parseJSONTag (tag : string) : result (string * bool) :=
  match split_byte tag ","%char with
  | name :: options => omitEmpty ← tag_options options false; Ok (name, omitEmpty)
  | [] => Ok ("", false)
  end.

Definition isEmptyValue (v : goValue) : bool :=
  match v with
  | Nil => true
  | Bool b => negb b
  | Str s => bool_decide (s = "")
  | Slice elements => bool_decide (length elements = 0%nat)
  | Map entries => bool_decide (length entries = 0%nat)
  | OtherMap empty => empty
  | _ => false
  end.

(** The first loop of [writeStruct]; with every field comes what
    [isEmptyValue] says of its value. *)
Section collect.
Context {A : Type}.
Fixpoint collect_fields (fields : list (structFieldInfo * (bool * A))) (seen : gset string)
    : result (list (string * A)) :=
  match fields with
  | [] => Ok []
  | (info, (empty, value)) :: rest =>
    if negb (exported info) then collect_fields rest seen
    else
      '(name, omitEmpty) ← parseJSONTag (jsonTag info);
      if bool_decide (name = "-") then collect_fields rest seen
      else
        let name := if bool_decide (name = "") then fieldName info else name in
        _ ← reject_if (negb (valid_utf8 name)) "canonical JSON contains an invalid UTF-8 field name";
        if omitEmpty && empty then collect_fields rest seen
        else
          _ ← reject_if (bool_decide (name ∈ seen)) "canonical JSON contains duplicate field";
          others ← collect_fields rest ({[name]} ∪ seen);
          Ok ((name, value) :: others)
  end.
End collect.

(** ** The encoder *)

(** Members of an object by name, and their order. *)
Definition member_le {A} (left right : string * A) : Prop := compareUTF16 left.1 right.1 ≤ 0.
#[export] Instance member_le_dec {A} (left right : string * A) : Decision (member_le left right).
Proof. unfold member_le. apply _. Defined.

(** The last loop of [writeMap] and [writeStruct]; [first] stands for
    [index == 0]. *)
Fixpoint write_members (first : bool) (members : list (string * result (list ascii))) : result (list ascii) :=
  match members with
  | [] => Ok []
  | (name, value) :: members =>
    _ ← reject_if (negb (valid_utf8 name)) "canonical JSON contains an invalid UTF-8 object key";
    key ← writeString name;
    text ← value;
    others ← write_members false members;
    Ok ((if first then [] else [","%char]) ++ key ++ ":"%char :: text ++ others)
  end.
Definition write_object (members : list (string * result (list ascii))) : result (list ascii) :=
  body ← write_members true (merge_sort member_le members);
  Ok ("{"%char :: body ++ ["}"%char]).

Fixpoint write_elements (first : bool) (elements : list (result (list ascii))) : result (list ascii) :=
  match elements with
  | [] => Ok []
  | element :: elements =>
    text ← element;
    others ← write_elements false elements;
    Ok ((if first then [] else [","%char]) ++ text ++ others)
  end.
Definition write_array (elements : list (result (list ascii))) : result (list ascii) :=
  body ← write_elements true elements;
  Ok ("["%char :: body ++ ["]"%char]).

Fixpoint write (v : goValue) : result (list ascii) :=
  match v with
  | Nil => Ok (String.list_ascii_of_string "null")
  | Bool b => Ok (String.list_ascii_of_string (if b then "true" else "false"))
  | Str s => writeString s
  | Slice elements => write_array (map write elements)
  | Map entries => write_object (map (λ entry, (entry.1, write entry.2)) entries)
  | OtherMap _ => Err "canonical JSON has unsupported map key type"
  | Struct fields =>
    members ← collect_fields (map (λ field, (field.1, (isEmptyValue field.2, write field.2))) fields) ∅;
    write_object members
  | Ref target => write target
  | Number => Err "canonical JSON has unsupported numeric type"
  | Unsupported => Err "canonical JSON has unsupported type"
  end.

Definition Marshal (v : goValue) : result (list ascii) := write v.

(** ** Identities *)

Definition token_char (c : ascii) : bool := is_lower c || is_digit c || bool_decide (c = "-"%char).
Definition validateIdentityToken (value : string) : result unit :=
  _ ← reject_if (bool_decide (value = "")) "canonical identity must not be empty";
  reject_if (negb (string_forallb token_char value))
    "canonical identity must contain only lowercase ASCII letters, digits, and hyphens".

Definition hex_byte (c : ascii) : list ascii := [hex_digit (code c / 16); hex_digit (code c mod 16)].
(** What is hashed: the writes to the hash, in order. *)
Definition identity_preimage (kind schema : string) (payload : list ascii) : list ascii :=
  String.list_ascii_of_string ("reploy:" +:+ kind +:+ ":" +:+ schema) ++ [byte_char 0] ++ payload.

Section sum.
(** [crypto/sha256]. *)
Context (sha256 : list ascii → list ascii).

Definition Sum (kind schema : string) (v : goValue) : result string :=
  _ ← validateIdentityToken kind;
  _ ← validateIdentityToken schema;
  payload ← Marshal v;
  Ok ("sha256:" +:+ String.string_of_list_ascii (concat (map hex_byte (sha256 (identity_preimage kind schema payload))))).
End sum.

(** The text, with apostrophes for quotes. *)
Example marshal_example :
  (λ text, String.string_of_list_ascii (map (λ c, if decide (c = byte_char 34) then "'"%char else c) text)) <$>
    Marshal (Struct [
      (FieldInfo "Schema" true "schema", Str "a\b");
      (FieldInfo "hidden" false "", Number);
      (FieldInfo "Value" true "value", Map [("z", Slice [Bool true; Nil]); ("a", Ref (Str "x"))]);
      (FieldInfo "Note" true "note,omitempty", Str "")])
  = Ok "{'schema':'a\\b','value':{'a':'x','z':[true,null]}}".
Proof. vm_compute. reflexivity. Qed.
