(* ===== verification/CanonicalText.v ===== *)
(** * Strings of canonical JSON

    A valid UTF-8 string is the encoding of its runes, and its runes are
    determined by their UTF-16 units; so escaping a string rune by rune is
    escaping it byte by byte, and the UTF-16 order separates valid strings. *)

From Stdlib Require Import Ascii.
From S2P Require Import Prelude GoText Canonical.

Open Scope Z_scope.

(** ** Bytes *)

Lemma code_range c : 0 ≤ code c < 256.
Proof. unfold code. destruct (N_ascii_bounded c); [|lia..]. pose proof (N_ascii_bounded c). lia. Qed.
Lemma byte_char_code c : byte_char (code c) = c.
Proof. unfold byte_char, code. by rewrite N2Z.id, ascii_N_embedding. Qed.
Lemma code_byte_char x : 0 ≤ x < 256 → code (byte_char x) = x.
Proof. intros Hx. unfold byte_char, code. rewrite N_ascii_embedding by lia. lia. Qed.
Lemma byte_char_eq x c : x = code c → byte_char x = c.
Proof. intros ->. apply byte_char_code. Qed.

(** A Unicode scalar value. *)
Definition scalar (r : Z) : Prop := 0 ≤ r ≤ 55295 ∨ 57344 ≤ r ≤ 1114111.

Definition rune_ok (r : rune) : Prop :=
  rune_valid r = true → rune_bytes r = utf8_encode (rune_value r) ∧ scalar (rune_value r).

Lemma continuation_range c : continuation (code c) = true → 128 ≤ code c ≤ 191.
Proof. unfold continuation, in_range. intros H. go_bool. lia. Qed.

Lemma land_small a n : 0 ≤ n → Z.land a (Z.ones n) = a mod 2 ^ n.
Proof. intros. by rewrite Z.land_ones. Qed.

Lemma value_2 b0 b1 : 194 ≤ b0 < 224 → 128 ≤ b1 ≤ 191 →
  Z.lor (Z.shiftl (Z.land b0 31) 6) (Z.land b1 63) = (b0 - 192) * 64 + (b1 - 128).
Proof.
  intros H0 H1. change 31 with (Z.ones 5). change 63 with (Z.ones 6). rewrite !land_small by lia.
  rewrite lor_shiftl_add by (try lia; apply Z.mod_pos_bound; lia). change (2 ^ 5) with 32. change (2 ^ 6) with 64. div_lia.
Qed.

Lemma value_3 b0 b1 b2 : 224 ≤ b0 < 240 → 128 ≤ b1 ≤ 191 → 128 ≤ b2 ≤ 191 →
  Z.lor (Z.lor (Z.shiftl (Z.land b0 15) 12) (Z.shiftl (Z.land b1 63) 6)) (Z.land b2 63) =
  (b0 - 224) * 4096 + (b1 - 128) * 64 + (b2 - 128).
Proof.
  intros H0 H1 H2. change 15 with (Z.ones 4). change 63 with (Z.ones 6). rewrite !land_small by lia.
  change (2 ^ 4) with 16. change (2 ^ 6) with 64.
  assert (b0 mod 16 = b0 - 224 ∧ b1 mod 64 = b1 - 128 ∧ b2 mod 64 = b2 - 128) as (-> & -> & ->) by (split_and!; div_lia).
  rewrite (Z.shiftl_mul_pow2 (b1 - 128)), lor_shiftl_add by lia.
  replace ((b0 - 224) * 2 ^ 12 + (b1 - 128) * 2 ^ 6) with (Z.shiftl ((b0 - 224) * 64 + (b1 - 128)) 6)
    by (rewrite Z.shiftl_mul_pow2; lia).
  rewrite lor_shiftl_add; lia.
Qed.

Lemma value_4 b0 b1 b2 b3 : 240 ≤ b0 ≤ 244 → 128 ≤ b1 ≤ 191 → 128 ≤ b2 ≤ 191 → 128 ≤ b3 ≤ 191 →
  Z.lor (Z.lor (Z.shiftl (Z.land b0 7) 18) (Z.shiftl (Z.land b1 63) 12))
    (Z.lor (Z.shiftl (Z.land b2 63) 6) (Z.land b3 63)) =
  (b0 - 240) * 262144 + (b1 - 128) * 4096 + (b2 - 128) * 64 + (b3 - 128).
Proof.
  intros H0 H1 H2 H3. change 7 with (Z.ones 3). change 63 with (Z.ones 6). rewrite !land_small by lia.
  change (2 ^ 3) with 8. change (2 ^ 6) with 64.
  assert (b0 mod 8 = b0 - 240 ∧ b1 mod 64 = b1 - 128 ∧ b2 mod 64 = b2 - 128 ∧ b3 mod 64 = b3 - 128)
    as (-> & -> & -> & ->) by (split_and!; div_lia).
  rewrite (Z.shiftl_mul_pow2 (b1 - 128)), (lor_shiftl_add (b0 - 240)), (lor_shiftl_add (b2 - 128)) by lia.
  replace ((b0 - 240) * 2 ^ 18 + (b1 - 128) * 2 ^ 12) with (Z.shiftl ((b0 - 240) * 64 + (b1 - 128)) 12)
    by (rewrite Z.shiftl_mul_pow2; lia).
  rewrite lor_shiftl_add; lia.
Qed.

Ltac encoded_bytes :=
  repeat lazymatch goal with
  | |- _ :: _ = _ :: _ => f_equal
  | |- [] = [] => reflexivity
  | |- ?c = byte_char _ => symmetry; apply byte_char_eq; div_lia
  end.

Lemma rune_ok_1 c : code c < 128 → rune_ok (Rune (code c) [c] true).
Proof.
  intros Hc _. simpl. pose proof (code_range c). unfold scalar, utf8_encode. split; [|lia].
  destruct (Z.ltb_spec (code c) 128); [|lia]. encoded_bytes.
Qed.

Lemma rune_ok_2 c0 c1 : 194 ≤ code c0 < 224 → 128 ≤ code c1 ≤ 191 →
  rune_ok (Rune (Z.lor (Z.shiftl (Z.land (code c0) 31) 6) (Z.land (code c1) 63)) [c0; c1] true).
Proof.
  intros H0 H1 _. simpl. rewrite value_2 by done. unfold scalar, utf8_encode. split; [|lia].
  destruct (Z.ltb_spec ((code c0 - 192) * 64 + (code c1 - 128)) 128); [lia|].
  destruct (Z.ltb_spec ((code c0 - 192) * 64 + (code c1 - 128)) 2048); [|lia]. encoded_bytes.
Qed.

Lemma rune_ok_3 c0 c1 c2 : 224 ≤ code c0 < 240 → 128 ≤ code c1 ≤ 191 → 128 ≤ code c2 ≤ 191 →
  (code c0 = 224 → 160 ≤ code c1) → (code c0 = 237 → code c1 ≤ 159) →
  rune_ok (Rune (Z.lor (Z.lor (Z.shiftl (Z.land (code c0) 15) 12) (Z.shiftl (Z.land (code c1) 63) 6)) (Z.land (code c2) 63))
    [c0; c1; c2] true).
Proof.
  intros H0 H1 H2 Hlo Hhi _. simpl. rewrite value_3 by done. unfold scalar, utf8_encode. split; [|lia].
  set (v := (code c0 - 224) * 4096 + (code c1 - 128) * 64 + (code c2 - 128)).
  destruct (Z.ltb_spec v 128); [lia|]. destruct (Z.ltb_spec v 2048); [lia|]. destruct (Z.ltb_spec v 65536); [|lia].
  subst v. encoded_bytes.
Qed.

Lemma rune_ok_4 c0 c1 c2 c3 : 240 ≤ code c0 ≤ 244 → 128 ≤ code c1 ≤ 191 → 128 ≤ code c2 ≤ 191 → 128 ≤ code c3 ≤ 191 →
  (code c0 = 240 → 144 ≤ code c1) → (code c0 = 244 → code c1 ≤ 143) →
  rune_ok (Rune (Z.lor (Z.lor (Z.shiftl (Z.land (code c0) 7) 18) (Z.shiftl (Z.land (code c1) 63) 12))
    (Z.lor (Z.shiftl (Z.land (code c2) 63) 6) (Z.land (code c3) 63))) [c0; c1; c2; c3] true).
Proof.
  intros H0 H1 H2 H3 Hlo Hhi _. simpl. rewrite value_4 by done. unfold scalar, utf8_encode. split; [|lia].
  set (v := (code c0 - 240) * 262144 + (code c1 - 128) * 4096 + (code c2 - 128) * 64 + (code c3 - 128)).
  destruct (Z.ltb_spec v 128); [lia|]. destruct (Z.ltb_spec v 2048); [lia|]. destruct (Z.ltb_spec v 65536); [lia|].
  subst v. encoded_bytes.
Qed.

(** Decoding loses no byte, and the runes it finds are well encoded. *)
Lemma decode_runes_ok s : concat (map rune_bytes (decode_runes s)) = s ∧ Forall rune_ok (decode_runes s).
Proof.
  remember (length s) as n eqn:Hn. revert s Hn. induction (lt_wf n) as [n _ IH]. intros s ->.
  assert (∀ k t, (length t < length s)%nat → k ++ t = s → ∀ r, rune_bytes r = k → rune_ok r →
    concat (map rune_bytes (r :: decode_runes t)) = s ∧ Forall rune_ok (r :: decode_runes t)) as Hstep.
  { intros k t Hl Hk r Hr Hok. destruct (IH (length t) Hl t eq_refl) as [Ht Hf]. simpl. rewrite Hr, Ht.
    split; [done|by constructor]. }
  destruct s as [|c0 s0]; [by split|]. assert (∀ c, rune_ok (rune_error c)) as Herr by done.
  assert (concat (map rune_bytes (rune_error c0 :: decode_runes s0)) = c0 :: s0 ∧ Forall rune_ok (rune_error c0 :: decode_runes s0))
    as Hbad by (apply (Hstep [c0] s0); [simpl; lia|done|done|done]).
  cbn [decode_runes]. pose proof (code_range c0) as Hr0. unfold utf8_lead.
  destruct (Z.ltb_spec (code c0) 128).
  { apply (Hstep [c0] s0); [simpl; lia|done|done|by apply rune_ok_1]. }
  destruct (Z.ltb_spec (code c0) 194); [exact Hbad|].
  destruct (Z.ltb_spec (code c0) 224).
  { destruct s0 as [|c1 s1]; [exact Hbad|]. destruct (in_range 128 191 (code c1)) eqn:Hc1; [|exact Hbad].
    apply (Hstep [c0; c1] s1); [simpl; lia|done|done|]. apply continuation_range in Hc1. apply rune_ok_2; lia. }
  assert (∀ lo hi, 128 ≤ lo → hi ≤ 191 → (code c0 = 224 → 160 ≤ lo) → (code c0 = 237 → hi ≤ 159) → code c0 < 240 →
    ∀ c1 c2 s2, s0 = c1 :: c2 :: s2 → in_range lo hi (code c1) && continuation (code c2) = true →
    rune_ok (Rune (Z.lor (Z.lor (Z.shiftl (Z.land (code c0) 15) 12) (Z.shiftl (Z.land (code c1) 63) 6)) (Z.land (code c2) 63))
      [c0; c1; c2] true)) as H3.
  { intros lo hi Hlo Hhi Ha Hb Hc c1 c2 s2 _ Hr. unfold in_range in Hr. go_bool. destruct Hr as [[? ?] Hc2%continuation_range].
    apply rune_ok_3; lia. }
  assert (∀ lo hi, 128 ≤ lo → hi ≤ 191 → (code c0 = 240 → 144 ≤ lo) → (code c0 = 244 → hi ≤ 143) → 240 ≤ code c0 ≤ 244 →
    ∀ c1 c2 c3 s3, s0 = c1 :: c2 :: c3 :: s3 →
    in_range lo hi (code c1) && continuation (code c2) && continuation (code c3) = true →
    rune_ok (Rune (Z.lor (Z.lor (Z.shiftl (Z.land (code c0) 7) 18) (Z.shiftl (Z.land (code c1) 63) 12))
      (Z.lor (Z.shiftl (Z.land (code c2) 63) 6) (Z.land (code c3) 63))) [c0; c1; c2; c3] true)) as H4.
  { intros lo hi Hlo Hhi Ha Hb Hc c1 c2 c3 s3 _ Hr. unfold in_range in Hr. go_bool.
    destruct Hr as [[[? ?] Hc2%continuation_range] Hc3%continuation_range]. apply rune_ok_4; lia. }
  repeat match goal with
  | |- context [if code c0 =? ?x then _ else _] => destruct (Z.eqb_spec (code c0) x)
  | |- context [if code c0 <? ?x then _ else _] => destruct (Z.ltb_spec (code c0) x)
  end; try exact Hbad; destruct s0 as [|c1 s1]; try exact Hbad; destruct s1 as [|c2 s2]; try exact Hbad.
  all: try (match goal with |- context [if ?b then Rune _ [_; _; _] _ :: _ else _] => destruct b eqn:Hb; [|exact Hbad];
    apply (Hstep [c0; c1; c2] s2); [simpl; lia|done|done|]; eapply H3; [| | | | | |exact Hb]; first [done|lia] end).
  all: destruct s2 as [|c3 s3]; try exact Hbad;
    match goal with |- context [if ?b then _ else _] => destruct b eqn:Hb; [|exact Hbad] end;
    apply (Hstep [c0; c1; c2; c3] s3); [simpl; lia|done|done|]; eapply H4; [| | | | | |exact Hb]; first [done|lia].
Qed.

(** ** Escaping *)

Definition escape_byte (c : ascii) : list ascii := if 128 <=? code c then [c] else escape_rune (code c).
Definition escaped (s : string) : list ascii := concat (map escape_byte (bytes s)).

Lemma utf8_encode_high r : 128 ≤ r → scalar r → Forall (λ c, 128 ≤ code c) (utf8_encode r).
Proof.
  intros Hr Hs. unfold scalar in Hs. unfold utf8_encode. destruct (Z.ltb_spec r 128); [lia|].
  destruct (Z.ltb_spec r 2048); [|destruct (Z.ltb_spec r 65536)];
    repeat constructor; rewrite code_byte_char; div_lia.
Qed.

Lemma escape_high cs : Forall (λ c, 128 ≤ code c) cs → concat (map escape_byte cs) = cs.
Proof.
  induction 1 as [|c cs Hc _ IH]; [done|]. simpl. rewrite IH. unfold escape_byte.
  by destruct (Z.leb_spec 128 (code c)); [|lia].
Qed.

Lemma escape_rune_bytes r : scalar r → escape_rune r = concat (map escape_byte (utf8_encode r)).
Proof.
  intros Hs. destruct (decide (r < 128)) as [Hr|Hr].
  - assert (utf8_encode r = [byte_char r]) as Hu by (unfold utf8_encode; by destruct (Z.ltb_spec r 128); [|lia]).
    rewrite Hu. simpl. unfold escape_byte. rewrite code_byte_char by (unfold scalar in Hs; lia).
    destruct (Z.leb_spec 128 r); [lia|]. by rewrite app_nil_r.
  - rewrite (escape_high (utf8_encode r)) by (apply utf8_encode_high; [lia|done]). unfold escape_rune, scalar in *.
    repeat match goal with
    | |- context [?x =? ?y] => destruct (Z.eqb_spec x y); [lia|]
    | |- context [?x <? ?y] => destruct (Z.ltb_spec x y); [lia|]
    end. done.
Qed.

Lemma valid_runes s : valid_utf8 s = true →
  Forall (λ r, rune_bytes r = utf8_encode (rune_value r) ∧ scalar (rune_value r)) (runes s).
Proof.
  unfold valid_utf8. intros Hv%Forall_bool. destruct (decode_runes_ok (bytes s)) as [_ Hok]. unfold runes, bytes in *.
  apply Forall_forall. intros r Hr. rewrite Forall_forall in Hv, Hok. apply Hok; [done|by apply Hv].
Qed.

(** Escaping rune by rune is escaping byte by byte. *)
Lemma escape_runes s : valid_utf8 s = true →
  concat (map (λ r, escape_rune (rune_value r)) (runes s)) = escaped s.
Proof.
  intros Hv%valid_runes. destruct (decode_runes_ok (bytes s)) as [Hb _].
  change (decode_runes (bytes s)) with (runes s) in Hb. unfold escaped. rewrite <-Hb. clear Hb. induction Hv as [|r rs [Hr Hs] _ IH]; [done|].
  simpl. rewrite map_app, concat_app, IH, Hr. f_equal. by apply escape_rune_bytes.
Qed.

Lemma writeString_spec s : writeString s =
  if valid_utf8 s then Ok (quote ++ escaped s ++ quote) else Err "canonical JSON contains invalid UTF-8".
Proof.
  unfold writeString. destruct (valid_utf8 s) eqn:Hv; [|done]. simpl. by rewrite escape_runes.
Qed.

(** ** Reading escaped text back *)

Fixpoint starts_with (prefix l : list ascii) : bool :=
  match prefix, l with
  | [], _ => true
  | p :: prefix, c :: l => bool_decide (p = c) && starts_with prefix l
  | _, [] => false
  end.

Lemma append_prefix k1 k2 l1 l2 : k1 ++ l1 = k2 ++ l2 → starts_with k1 k2 = true ∨ starts_with k2 k1 = true.
Proof.
  revert k2. induction k1 as [|c k1 IH]; intros [|d k2]; simpl; try tauto. intros [= -> H].
  rewrite !bool_decide_true by done. simpl. by apply IH.
Qed.

Definition all_bytes : list ascii := map (λ n, byte_char (Z.of_nat n)) (seq 0 256).
Lemma all_bytes_complete c : c ∈ all_bytes.
Proof.
  apply list_elem_of_fmap. exists (Z.to_nat (code c)). pose proof (code_range c). rewrite Z2Nat.id by lia.
  split; [by rewrite byte_char_code|]. apply list_elem_of_In, in_seq. lia.
Qed.

Definition escapes_apart : bool :=
  forallb (λ c, negb (starts_with quote (escape_byte c)) && negb (starts_with (escape_byte c) quote) &&
    forallb (λ d, bool_decide (c = d) || negb (starts_with (escape_byte c) (escape_byte d))) all_bytes) all_bytes.
Lemma escapes_are_apart : escapes_apart = true.
Proof. vm_compute. reflexivity. Qed.

Lemma escape_apart c d : starts_with (escape_byte c) (escape_byte d) = true → c = d.
Proof.
  assert (H := escapes_are_apart). unfold escapes_apart in H. rewrite forallb_forall in H.
  specialize (H c (proj1 (list_elem_of_In _ _) (all_bytes_complete c))). apply andb_true_iff in H as [_ H].
  rewrite forallb_forall in H. specialize (H d (proj1 (list_elem_of_In _ _) (all_bytes_complete d))).
  intros Hs. rewrite Hs, orb_false_r in H. by apply bool_decide_eq_true in H.
Qed.
Lemma quote_apart c : starts_with quote (escape_byte c) = false ∧ starts_with (escape_byte c) quote = false.
Proof.
  assert (H := escapes_are_apart). unfold escapes_apart in H. rewrite forallb_forall in H.
  specialize (H c (proj1 (list_elem_of_In _ _) (all_bytes_complete c))). apply andb_true_iff in H as [H _].
  apply andb_true_iff in H as [H1 H2]. by apply negb_true_iff in H1, H2.
Qed.

Lemma escaped_text_inj cs ds x y :
  concat (map escape_byte cs) ++ quote ++ x = concat (map escape_byte ds) ++ quote ++ y → cs = ds ∧ x = y.
Proof.
  assert (∀ c k l, quote ++ k ≠ escape_byte c ++ l) as Hq.
  { intros c k l H. destruct (quote_apart c) as [H1 H2]. apply append_prefix in H as [H|H]; congruence. }
  revert ds. induction cs as [|c cs IH]; intros [|d ds]; cbn [map concat app]; rewrite <-?app_assoc.
  - intros H. by apply app_inv_head in H as ->.
  - intros H. by apply Hq in H.
  - intros H. symmetry in H. by apply Hq in H.
  - intros H. assert (c = d) as ->.
    { apply append_prefix in H as [H|H]; [by apply escape_apart|symmetry; by apply escape_apart]. }
    apply app_inv_head in H. apply IH in H as [-> ->]. done.
Qed.

(** Quoted text can be told from what follows it. *)
Lemma quoted_inj s t x y : quote ++ escaped s ++ quote ++ x = quote ++ escaped t ++ quote ++ y → s = t ∧ x = y.
Proof. intros H. apply app_inv_head in H. apply escaped_text_inj in H as [H ->]. by apply bytes_inj in H. Qed.

(** * The member order of canonical JSON

    Comparing strings by their UTF-16 units is a total order, and on valid UTF-8
    it is antisymmetric: the units of a valid string determine it.  So members
    with different valid names have exactly one order. *)

(** ** UTF-16 units *)

Lemma utf16_units_inj rs ss : Forall scalar rs → Forall scalar ss →
  concat (map utf16_units rs) = concat (map utf16_units ss) → rs = ss.
Proof.
  intros Hr. revert ss. induction Hr as [|r rs Hr _ IH]; intros ss [|s ss' Hs Hss]; [done|..].
  - unfold scalar, utf16_units, in_range in *. simpl. repeat case_match; go_bool; done || lia.
  - unfold scalar, utf16_units, in_range in *. simpl. repeat case_match; go_bool; done || lia.
  - simpl. intros H. enough (r = s ∧ concat (map utf16_units rs) = concat (map utf16_units ss')) as [-> H'].
    { f_equal. by apply IH. }
    clear IH Hss. revert H. unfold scalar, utf16_units, in_range in *.
    destruct ((0 <=? r) && (r <=? 55295) || (57344 <=? r) && (r <=? 65535)) eqn:E1;
    destruct ((0 <=? s) && (s <=? 55295) || (57344 <=? s) && (s <=? 65535)) eqn:E2;
    [|destruct ((65536 <=? s) && (s <=? 1114111)) eqn:E3|destruct ((65536 <=? r) && (r <=? 1114111)) eqn:E3|
     destruct ((65536 <=? r) && (r <=? 1114111)) eqn:E3; destruct ((65536 <=? s) && (s <=? 1114111)) eqn:E4];
    go_bool; simpl; intros [=]; split; try done; try lia; try (exfalso; div_lia); div_lia.
Qed.

Lemma rune_values_inj s t : valid_utf8 s = true → valid_utf8 t = true →
  map rune_value (runes s) = map rune_value (runes t) → s = t.
Proof.
  intros Hs%valid_runes Ht%valid_runes Heq. apply bytes_inj.
  rewrite <-(proj1 (decode_runes_ok (bytes s))), <-(proj1 (decode_runes_ok (bytes t))).
  change (decode_runes (bytes s)) with (runes s). change (decode_runes (bytes t)) with (runes t).
  assert (∀ rs, Forall (λ r, rune_bytes r = utf8_encode (rune_value r) ∧ scalar (rune_value r)) rs →
    map rune_bytes rs = map utf8_encode (map rune_value rs)) as Hmap.
  { induction 1 as [|r rs [Hr _] _ IH]; [done|]. simpl. by rewrite Hr, IH. }
  by rewrite (Hmap _ Hs), (Hmap _ Ht), Heq.
Qed.

Lemma utf16_of_inj s t : valid_utf8 s = true → valid_utf8 t = true → utf16_of s = utf16_of t → s = t.
Proof.
  intros Hs Ht Heq. apply rune_values_inj; [done..|]. apply utf16_units_inj.
  - apply Forall_map. eapply Forall_impl; [by apply valid_runes|]. by intros r [_ H].
  - apply Forall_map. eapply Forall_impl; [by apply valid_runes|]. by intros r [_ H].
  - unfold utf16_of in Heq. by rewrite !map_map.
Qed.

(** ** The comparison *)

Lemma compare_units_opp l r : compare_units r l = - compare_units l r.
Proof.
  revert r. induction l as [|x l IH]; intros [|y r]; simpl; [lia..|].
  destruct (Z.ltb_spec x y), (Z.ltb_spec y x); try lia. apply IH.
Qed.
Lemma compare_units_zero l r : compare_units l r = 0 → l = r.
Proof.
  revert r. induction l as [|x l IH]; intros [|y r]; simpl; [done|lia..|].
  destruct (Z.ltb_spec x y), (Z.ltb_spec y x); try lia. intros ->%IH. f_equal. lia.
Qed.
Lemma compare_units_refl l : compare_units l l = 0.
Proof. pose proof (compare_units_opp l l). lia. Qed.
Lemma compare_units_trans l m r : compare_units l m ≤ 0 → compare_units m r ≤ 0 → compare_units l r ≤ 0.
Proof.
  revert m r. induction l as [|x l IH]; intros [|y m] [|z r]; simpl; try lia.
  destruct (Z.ltb_spec x y), (Z.ltb_spec y x), (Z.ltb_spec y z), (Z.ltb_spec z y), (Z.ltb_spec x z), (Z.ltb_spec z x);
    try lia. apply IH.
Qed.

(** Two names compare equal only if they are equal or one is not valid. *)
Lemma compareUTF16_zero s t : valid_utf8 s = true → valid_utf8 t = true → compareUTF16 s t = 0 → s = t.
Proof. intros Hs Ht H%compare_units_zero. by apply utf16_of_inj. Qed.

#[export] Instance member_le_trans {A} : Transitive (@member_le A).
Proof. intros [a ?] [b ?] [c ?]. unfold member_le. apply compare_units_trans. Qed.
#[export] Instance member_le_total {A} : Total (@member_le A).
Proof.
  intros [a ?] [b ?]. unfold member_le, compareUTF16. simpl.
  pose proof (compare_units_opp (utf16_of a) (utf16_of b)). lia.
Qed.

Definition named {A} (member : string * A) : Prop := valid_utf8 member.1 = true.

Lemma member_le_antisym {A} (x y : string * A) : named x → named y → member_le x y → member_le y x → x.1 = y.1.
Proof.
  unfold member_le, named, compareUTF16. intros Hx Hy H1 H2. apply compareUTF16_zero; [done..|]. unfold compareUTF16.
  pose proof (compare_units_opp (utf16_of x.1) (utf16_of y.1)). lia.
Qed.

(** Sorting forgets the order of the entries. *)
Lemma sorted_members_unique {A} (l k : list (string * A)) :
  Sorted member_le l → Sorted member_le k → l ≡ₚ k → NoDup l.*1 → Forall named l → l = k.
Proof.
  intros Hl Hk. apply Sorted_StronglySorted in Hl, Hk; [|apply _..]. revert k Hk.
  induction Hl as [|x l Hl IH Hx]; intros k Hk Hp Hnd Hv; [by apply Permutation_nil_l in Hp|].
  destruct k as [|y k]; [by apply Permutation_nil_r in Hp|].
  apply StronglySorted_inv in Hk as [Hk Hy]. apply NoDup_cons in Hnd as [Hnx Hnd].
  apply Forall_cons in Hv as [Hvx Hvl].
  assert (x = y) as <-.
  { assert (x ∈ y :: k) as Hxk by (rewrite <-Hp; left). assert (y ∈ x :: l) as Hyl by (rewrite Hp; left).
    apply elem_of_cons in Hxk as [->|Hxk]; [done|]. apply elem_of_cons in Hyl as [->|Hyl]; [done|].
    exfalso. rewrite Forall_forall in Hx, Hy, Hvl. apply Hnx.
    rewrite (member_le_antisym x y); [by apply list_elem_of_fmap_2|done|by apply Hvl|by apply Hx|by apply Hy]. }
  f_equal. apply IH; [done| |done|done]. by apply Permutation_cons_inv in Hp.
Qed.

Lemma sort_members_perm {A} (l k : list (string * A)) :
  l ≡ₚ k → NoDup l.*1 → Forall named l → merge_sort member_le l = merge_sort member_le k.
Proof.
  intros Hp Hnd Hv. assert (merge_sort member_le l ≡ₚ l) as Hl by apply merge_sort_Permutation.
  apply sorted_members_unique; [apply Sorted_merge_sort; apply _..| | |].
  - rewrite Hl, Hp. symmetry. apply merge_sort_Permutation.
  - by rewrite Hl.
  - by rewrite Hl.
Qed.
