(* ===== verification/CanonicalFacts.v ===== *)
(** * What canonical JSON determines

    A JSON value is null, a boolean, a string, an array, or a finite map from
    valid names to values.  [Marshal] writes exactly the Go values that denote
    one, the text depends only on the value denoted, and the value can be read
    back from the text; so texts are equal exactly when values are. *)

From Stdlib Require Import Ascii.
From S2P Require Import Prelude GoText Canonical CanonicalText.

Open Scope Z_scope.

(** ** JSON values *)

#[warnings="-register-all"]
Inductive json : Type :=
| JNull
| JBool (b : bool)
| JString (s : string)
| JArray (elements : list json)
| JObject (members : gmap string json).

Section json_induction.
Context (P : json → Prop)
  (null : P JNull) (bool_case : ∀ b, P (JBool b)) (string_case : ∀ s, P (JString s))
  (array_case : ∀ js, Forall P js → P (JArray js))
  (object_case : ∀ ms, map_Forall (λ _, P) ms → P (JObject ms)).

Fixpoint json_size (j : json) : nat :=
  match j with
  | JArray js => S (sum_list (map json_size js))
  | JObject ms => S (sum_list (map snd (map_to_list (json_size <$> ms))))
  | _ => 1%nat
  end.

Lemma sum_list_elem n l : n ∈ l → (n ≤ sum_list l)%nat.
Proof using Type.
  clear. induction l as [|m l IH]; [by intros ?%elem_of_nil|]. rewrite elem_of_cons. simpl. intros [->|H%IH]; lia.
Qed.

Lemma json_ind' j : P j.
Proof using All.
  remember (json_size j) as n eqn:Hn. revert j Hn. induction (lt_wf n) as [n _ IH]. intros [| | |js|ms] ->;
    [done|apply bool_case|apply string_case|apply array_case|apply object_case].
  - apply Forall_forall. intros j Hj. apply (IH (json_size j)); [|done]. simpl.
    enough (json_size j ≤ sum_list (map json_size js))%nat by lia. by apply sum_list_elem, list_elem_of_fmap_2.
  - intros k j Hj. apply (IH (json_size j)); [|done]. simpl.
    enough (json_size j ≤ sum_list (map snd (map_to_list (json_size <$> ms))))%nat by lia. apply sum_list_elem.
    apply (list_elem_of_fmap_2 snd _ (k, json_size j)), elem_of_map_to_list. by rewrite lookup_fmap, Hj.
Qed.
End json_induction.

(** The JSON value a Go value denotes, if it has one.  A struct has the members
    that its tags select. *)
Definition collect_option {A} : list (option A) → option (list A) := mapM id.
Definition object_of (members : list (string * option json)) : option json :=
  if forallb (λ m, valid_utf8 m.1) members
  then values ← collect_option (map (λ m, pair m.1 <$> m.2) members); Some (JObject (list_to_map values))
  else None.

Fixpoint json_of (v : goValue) : option json :=
  match v with
  | Nil => Some JNull
  | Bool b => Some (JBool b)
  | Str s => if valid_utf8 s then Some (JString s) else None
  | Slice elements => JArray <$> collect_option (map json_of elements)
  | Map entries => object_of (map (λ entry, (entry.1, json_of entry.2)) entries)
  | Struct fields =>
    match collect_fields (map (λ field, (field.1, (isEmptyValue field.2, json_of field.2))) fields) ∅ with
    | Ok members => object_of members
    | Err _ => None
    end
  | Ref target => json_of target
  | _ => None
  end.

(** ** Its text *)

Fixpoint separated (first : bool) (texts : list (list ascii)) : list ascii :=
  match texts with
  | [] => []
  | text :: texts => (if first then [] else [","%char]) ++ text ++ separated false texts
  end.
Definition member_text (member : string * list ascii) : list ascii :=
  quote ++ escaped member.1 ++ quote ++ ":"%char :: member.2.

Fixpoint render (j : json) : list ascii :=
  match j with
  | JNull => String.list_ascii_of_string "null"
  | JBool b => String.list_ascii_of_string (if b then "true" else "false")
  | JString s => quote ++ escaped s ++ quote
  | JArray js => "["%char :: separated true (map render js) ++ ["]"%char]
  | JObject ms =>
    "{"%char :: separated true (map member_text (merge_sort member_le (map_to_list (render <$> ms)))) ++ ["}"%char]
  end.

(** ** Induction on Go values *)

Section value_induction.
Context (P : goValue → Prop)
  (nil_case : P Nil) (bool_case : ∀ b, P (Bool b)) (str_case : ∀ s, P (Str s))
  (slice_case : ∀ vs, Forall P vs → P (Slice vs))
  (map_case : ∀ es, Forall (λ e, P e.2) es → P (Map es))
  (other_case : ∀ empty, P (OtherMap empty))
  (struct_case : ∀ fs, Forall (λ f, P f.2) fs → P (Struct fs))
  (ref_case : ∀ v, P v → P (Ref v)) (number_case : P Number) (unsupported_case : P Unsupported).

Fixpoint goValue_ind' (v : goValue) : P v :=
  match v with
  | Nil => nil_case
  | Bool b => bool_case b
  | Str s => str_case s
  | Slice vs => slice_case vs ((fix go vs : Forall P vs :=
      match vs with [] => List.Forall_nil P | v :: vs => List.Forall_cons P v vs (goValue_ind' v) (go vs) end) vs)
  | Map es => map_case es ((fix go es : Forall (λ e, P e.2) es :=
      match es with [] => List.Forall_nil _ | (k, v) :: es => List.Forall_cons _ (k, v) es (goValue_ind' v) (go es) end) es)
  | OtherMap empty => other_case empty
  | Struct fs => struct_case fs ((fix go fs : Forall (λ f, P f.2) fs :=
      match fs with [] => List.Forall_nil _ | (k, v) :: fs => List.Forall_cons _ (k, v) fs (goValue_ind' v) (go fs) end) fs)
  | Ref v => ref_case v (goValue_ind' v)
  | Number => number_case
  | Unsupported => unsupported_case
  end.
End value_induction.

(** Map keys are unique in Go. *)
Fixpoint wf_value (v : goValue) : bool :=
  match v with
  | Slice vs => forallb wf_value vs
  | Map es => bool_decide (NoDup es.*1) && forallb (λ e, wf_value e.2) es
  | Struct fs => forallb (λ f, wf_value f.2) fs
  | Ref v => wf_value v
  | _ => true
  end.

(** ** Writing *)

Definition value_of {A} (r : result A) : option A := match r with Ok a => Some a | Err _ => None end.
Lemma value_of_bind {A B} (r : result A) (f : A → result B) : value_of (r ≫= f) = value_of r ≫= (value_of ∘ f).
Proof. by destruct r. Qed.

(** A member the encoder can write. *)
Definition written (member : string * result (list ascii)) : option (list ascii) :=
  if valid_utf8 member.1 then (λ text, member_text (member.1, text)) <$> value_of member.2 else None.

Lemma collect_cons {A} (x : option A) l :
  collect_option (x :: l) = x ≫= λ a, (a ::.) <$> collect_option l.
Proof. unfold collect_option. simpl. destruct x; [|done]. simpl. by destruct (mapM id l). Qed.

Lemma write_elements_value first es :
  value_of (write_elements first es) = separated first <$> collect_option (map value_of es).
Proof.
  revert first. induction es as [|[text|msg] es IH]; intros first; [done| |done].
  cbn [map write_elements]. rewrite collect_cons, !value_of_bind. simpl. rewrite value_of_bind, IH.
  by destruct (collect_option (map value_of es)).
Qed.

Lemma write_members_value first ms :
  value_of (write_members first ms) = separated first <$> collect_option (map written ms).
Proof.
  revert first. induction ms as [|[name r] ms IH]; intros first; [done|].
  cbn [map write_members]. rewrite collect_cons. unfold written in *. simpl.
  rewrite writeString_spec. destruct (valid_utf8 name); [|done]. destruct r as [text|]; [|done]. simpl.
  rewrite value_of_bind, IH. destruct (collect_option _); [|done]. simpl. f_equal.
  unfold member_text. simpl. by rewrite <-!app_assoc.
Qed.

Lemma collect_some {A} (l : list (option A)) k : collect_option l = Some k ↔ l = map Some k.
Proof.
  unfold collect_option. rewrite mapM_Some. split.
  - induction 1 as [|x a l k Hx _ IH]; [done|]. simpl. change (x = Some a) in Hx. by rewrite Hx, IH.
  - intros ->. induction k; by constructor.
Qed.
Lemma collect_none {A} (l : list (option A)) : collect_option l = None ↔ None ∈ l.
Proof.
  unfold collect_option. split.
  - intros H%mapM_None_1. apply Exists_exists in H as (x & Hx & Hn). change (x = None) in Hn. by subst x.
  - intros H. destruct (mapM id l) as [k|] eqn:Hk; [|done]. apply collect_some in Hk as ->.
    by apply list_elem_of_fmap in H as (? & ? & _).
Qed.
Lemma collect_none_perm {A} (l k : list (option A)) : l ≡ₚ k → collect_option l = None → collect_option k = None.
Proof. rewrite !collect_none. by intros ->. Qed.

Lemma map_pair_Some {A B} (f : A → option B) (l : list (string * A)) (k : list (string * B)) :
  map (λ m, pair m.1 <$> f m.2) l = map Some k → map (λ m, (m.1, f m.2)) l = map (λ m, (m.1, Some m.2)) k.
Proof.
  revert k. induction l as [|[n a] l IH]; intros [|[m b] k]; try done. simpl. intros [= H1 H2%IH].
  destruct (f a); [|done]. simpl in H1. by injection H1 as -> ->; rewrite H2.
Qed.

(** The members of an object, sorted, when every one of them can be written. *)
Lemma render_object (values : list (string * json)) :
  NoDup values.*1 → Forall named values →
  render (JObject (list_to_map values)) =
    "{"%char :: separated true (map member_text (merge_sort member_le (map (λ m, (m.1, render m.2)) values))) ++ ["}"%char].
Proof.
  intros Hnd Hv. simpl. do 4 f_equal. apply sort_members_perm.
  - rewrite map_to_list_fmap. change (λ m : string * json, (m.1, render m.2)) with (prod_map (@id string) render).
    apply fmap_Permutation. by apply map_to_list_to_map.
  - apply NoDup_fst_map_to_list.
  - apply Forall_forall. intros [k t] Hk%elem_of_map_to_list. rewrite lookup_fmap in Hk.
    apply fmap_Some in Hk as (j & Hj%elem_of_list_to_map_2 & _). rewrite Forall_forall in Hv. by apply (Hv (k, j)).
Qed.

Lemma written_all (members : list (string * list ascii)) :
  Forall named members → map written (map (λ m, (m.1, Ok m.2)) members) = map Some (map member_text members).
Proof.
  induction 1 as [|[n t] ms Hn _ IH]; [done|]. cbn [map]. rewrite IH. f_equal. unfold written, named in *. simpl in *.
  by rewrite Hn.
Qed.

Lemma sort_named {A} (members : list (string * A)) : Forall named members → Forall named (merge_sort member_le members).
Proof. by rewrite merge_sort_Permutation. Qed.

Lemma write_object_all (members : list (string * list ascii)) : Forall named members →
  value_of (write_object (map (λ m, (m.1, Ok m.2)) members)) =
    Some ("{"%char :: separated true (map member_text (merge_sort member_le members)) ++ ["}"%char]).
Proof.
  intros Hv. unfold write_object.
  rewrite value_of_bind, (merge_sort_map (λ m, (m.1, Ok m.2)) (@member_le (list ascii)) (@member_le (result (list ascii)))) by done.
  rewrite write_members_value, written_all by (by apply sort_named). by rewrite (proj2 (collect_some _ _) eq_refl).
Qed.

Lemma write_object_fails members : None ∈ map written members → value_of (write_object members) = None.
Proof.
  intros Hn. unfold write_object. rewrite value_of_bind, write_members_value.
  rewrite (proj2 (collect_none _)); [done|]. by rewrite merge_sort_Permutation.
Qed.

Definition writes (v : goValue) : Prop := value_of (write v) = render <$> json_of v.

Lemma write_object_value (es : list (string * goValue)) :
  NoDup es.*1 → Forall (λ e, writes e.2) es →
  value_of (write_object (map (λ e, (e.1, write e.2)) es)) = render <$> object_of (map (λ e, (e.1, json_of e.2)) es).
Proof.
  intros Hnd Hw. unfold object_of. destruct (forallb _ _) eqn:Hall.
  - destruct (collect_option _) as [values|] eqn:Hc.
    + change (render <$> _) with (Some (render (JObject (list_to_map values)))). apply collect_some in Hc. rewrite map_map in Hc. apply map_pair_Some in Hc.
      assert (values.*1 = es.*1) as Hnames.
      { apply (f_equal (map fst)) in Hc. rewrite !map_map in Hc. by symmetry. }
      assert (map (λ e, (e.1, write e.2)) es = map (λ m, (m.1, Ok m.2)) (map (λ m, (m.1, render m.2)) values)) as ->.
      { rewrite map_map. clear Hnd Hall Hnames. revert values Hc.
        induction Hw as [|[k v] es Hv _ IH]; intros [|[n j] values]; try done. simpl. intros [= -> Hj H%IH].
        rewrite H. unfold writes in Hv. simpl in Hv. rewrite Hj in Hv. destruct (write v); [|done]. by injection Hv as ->. }
      assert (Forall named values) as Hv.
      { apply Forall_bool in Hall. apply Forall_map in Hall. change (Forall (λ e, named e) es) in Hall.
        apply (proj1 (Forall_map fst (λ n, valid_utf8 n = true) values)). change (map fst values) with values.*1. rewrite Hnames. by apply Forall_map. }
      rewrite write_object_all by (by apply Forall_map). f_equal. by rewrite render_object by (by rewrite ?Hnames).
    + simpl. apply write_object_fails. apply collect_none in Hc. rewrite map_map in Hc.
      apply list_elem_of_fmap in Hc as ([k v] & Hkv & Hin). rewrite map_map. apply list_elem_of_fmap.
      exists (k, v). split; [|done]. unfold written. simpl in *. rewrite Forall_forall in Hw. specialize (Hw _ Hin).
      unfold writes in Hw. simpl in Hw. destruct (json_of v); [done|]. simpl in Hw. rewrite Hw. by case_match.
  - simpl. apply write_object_fails. apply not_true_iff_false in Hall. rewrite Forall_bool, Forall_map in Hall.
    apply not_Forall_Exists in Hall; [|apply _]. apply Exists_exists in Hall as ([k v] & Hin & Hn).
    rewrite map_map. apply list_elem_of_fmap. exists (k, v). split; [|done]. unfold written. simpl in *.
    by destruct (valid_utf8 k).
Qed.

Lemma collect_fields_map {A B} (g : A → B) fields seen :
  collect_fields (map (λ f, (f.1, (f.2.1, g f.2.2))) fields) seen =
    map (λ m, (m.1, g m.2)) <$> collect_fields fields seen.
Proof.
  revert seen. induction fields as [|[info [empty value]] fields IH]; intros seen; [done|]. simpl.
  destruct (negb (exported info)); [apply IH|]. destruct (parseJSONTag (jsonTag info)) as [[name omit]|msg]; [|done].
  simpl. destruct (bool_decide (name = "-")); [apply IH|]. destruct (reject_if (negb _) _); [|done]. simpl.
  destruct (omit && empty); [apply IH|]. destruct (reject_if _ _); [|done]. simpl. rewrite IH.
  by destruct (collect_fields fields _).
Qed.

Lemma collect_fields_ok {A} (fields : list (structFieldInfo * (bool * A))) seen members :
  collect_fields fields seen = Ok members →
  NoDup members.*1 ∧ Forall (λ m, (m.1 ∉ seen) ∧ ∃ f, f ∈ fields ∧ f.2.2 = m.2) members.
Proof.
  revert seen members. induction fields as [|[info [empty value]] fields IH]; intros seen members; simpl.
  { intros [= <-]. split; constructor. }
  assert (∀ ms, NoDup ms.*1 ∧ Forall (λ m, (m.1 ∉ seen) ∧ ∃ f, f ∈ fields ∧ f.2.2 = m.2) ms →
    NoDup ms.*1 ∧ Forall (λ m, (m.1 ∉ seen) ∧ ∃ f, f ∈ (info, (empty, value)) :: fields ∧ f.2.2 = m.2) ms) as Hmore.
  { intros ms [Hnd Hf]. split; [done|]. eapply Forall_impl; [exact Hf|]. intros m (Hm & f & Hin & Heq).
    split; [done|]. exists f. split; [by right|done]. }
  destruct (negb (exported info)); [intros H%IH; auto|].
  rewrite bind_ok. intros ([name omit] & _ & H). revert H.
  destruct (bool_decide (name = "-")); [intros H%IH; auto|]. rewrite reject_if_bind. intros [_ H]. revert H.
  set (full := if bool_decide (name = "") then fieldName info else name).
  destruct (omit && empty); [intros H%IH; auto|]. rewrite reject_if_bind, bind_ok.
  intros (Hseen & others & [Hnd Hf]%IH & [= <-]). apply bool_decide_eq_false in Hseen. split.
  - simpl. apply NoDup_cons. split; [|done]. intros (m & -> & Hm)%list_elem_of_fmap. rewrite Forall_forall in Hf.
    destruct (Hf m Hm) as [Hn _]. set_solver.
  - constructor; [split; [done|]; exists (info, (empty, value)); split; [left|done]|].
    apply Hmore. split; [done|]. eapply Forall_impl; [exact Hf|]. intros m [Hm ?]. split; [set_solver|done].
Qed.

Lemma Forall_mp {A} (P Q : A → Prop) l : Forall (λ x, P x → Q x) l → Forall P l → Forall Q l.
Proof. induction 1; intros HP; [constructor|]. apply Forall_cons in HP as [? ?]. constructor; auto. Qed.

Lemma collect_fmap {A B} (f : A → B) (l : list (option A)) :
  collect_option (map (fmap f) l) = map f <$> collect_option l.
Proof.
  induction l as [|[a|] l IH]; [done| |done]. cbn [map]. rewrite !collect_cons, IH. simpl.
  by destruct (collect_option l).
Qed.

(** The encoder writes the text of the JSON value that its argument denotes,
    and fails when there is none. *)
Lemma write_value v : wf_value v = true → writes v.
Proof.
  unfold writes. induction v as [|b|s|vs IH|es IH|empty|fs IH|v IH| |] using goValue_ind'; simpl; intros Hwf; try done.
  - rewrite writeString_spec. by destruct (valid_utf8 s).
  - unfold write_array. rewrite value_of_bind, write_elements_value, map_map.
    assert (map (λ v, value_of (write v)) vs = map (fmap render) (map json_of vs)) as ->.
    { rewrite map_map. apply Forall_bool in Hwf. apply map_ext_Forall. exact (Forall_mp _ _ _ IH Hwf). }
    rewrite collect_fmap. by destruct (collect_option (map json_of vs)).
  - apply andb_true_iff in Hwf as [Hnd%bool_decide_eq_true Hwf%Forall_bool]. apply write_object_value; [done|].
    exact (Forall_mp _ _ _ IH Hwf).
  - apply Forall_bool in Hwf. set (fields := map (λ f, (f.1, (isEmptyValue f.2, f.2))) fs).
    assert (∀ A (g : goValue → A), map (λ f, (f.1, (isEmptyValue f.2, g f.2))) fs =
      map (λ f, (f.1, (f.2.1, g f.2.2))) fields) as Hf by (intros A g; unfold fields; by rewrite map_map).
    rewrite (Hf _ write), (Hf _ json_of), !collect_fields_map, value_of_bind.
    destruct (collect_fields fields ∅) as [members|msg] eqn:Hc; [|done]. simpl.
    apply collect_fields_ok in Hc as [Hnd Hm]. apply write_object_value; [done|].
    eapply Forall_impl; [exact Hm|]. intros m (_ & f & Hin & <-). unfold fields in Hin.
    apply list_elem_of_fmap in Hin as (f' & -> & Hin). simpl. rewrite Forall_forall in IH, Hwf. by apply IH, Hwf.
  - by apply IH.
Qed.
