(* ===== verification/CanonicalReading.v ===== *)
(** * Reading canonical JSON back

    The text of a JSON value determines the value, whatever follows the text.
    With [write_value] this makes [Marshal] a faithful image of the values its
    arguments denote.  The text that [Sum] hashes determines kind, schema and value,
    so that a digest names them as far as SHA-256 tells two such texts apart. *)

From Stdlib Require Import Ascii.
From S2P Require Import Prelude GoText Identifiers Canonical CanonicalText CanonicalFacts.

Open Scope Z_scope.

(** [f a] can be told from what follows it. *)
Definition delimited {A} (f : A → list ascii) (a : A) : Prop := ∀ b x y, f a ++ x = f b ++ y → a = b ∧ x = y.

Section separated.
Context {A : Type} (f : A → list ascii) (closing : ascii).
Hypothesis not_comma : closing ≠ ","%char.
Hypothesis not_first : ∀ a, ∃ c text, f a = c :: text ∧ c ≠ closing.

Lemma separated_inj first l k x y : Forall (delimited f) l →
  separated first (map f l) ++ closing :: x = separated first (map f k) ++ closing :: y → l = k ∧ x = y.
Proof using Type*.
  intros Hl. revert first k. induction Hl as [|a l Ha _ IH]; intros first [|b k]; simpl.
  - by intros [= ->].
  - destruct (not_first b) as (c & text & -> & Hc). destruct first; simpl; intros [= ? _]; congruence.
  - destruct (not_first a) as (c & text & -> & Hc). destruct first; simpl; intros [= ? _]; congruence.
  - rewrite <-!app_assoc. intros H%app_inv_head.
    apply Ha in H as [-> H]. by apply IH in H as [-> ->].
Qed.
End separated.

(** ** Values *)

Definition first_char (j : json) : ascii :=
  match j with
  | JNull => "n"
  | JBool b => if b then "t" else "f"
  | JString _ => byte_char 34
  | JArray _ => "["
  | JObject _ => "{"
  end.
Lemma render_first j : ∃ text, render j = first_char j :: text.
Proof. destruct j as [|[]| | |]; by eexists. Qed.

Definition member_of (member : string * json) : list ascii := member_text (member.1, render member.2).
Lemma member_delimited m : delimited render m.2 → delimited member_of m.
Proof.
  destruct m as [n j]. intros Hj [m k] x y. unfold member_of, member_text. simpl fst. simpl snd. simpl in Hj.
  rewrite <-!app_assoc. intros H. apply quoted_inj in H as [-> H]. simpl in H. injection H as H.
  by apply Hj in H as [-> ->].
Qed.

(** An object is written in some order of its members. *)
Lemma render_members ms : ∃ members, members ≡ₚ map_to_list ms ∧
  render (JObject ms) = "{"%char :: separated true (map member_of members) ++ ["}"%char].
Proof.
  assert (map (λ m, (m.1, render m.2)) (map_to_list ms) ≡ₚ merge_sort member_le (map_to_list (render <$> ms))) as Hp.
  { rewrite merge_sort_Permutation, map_to_list_fmap. by apply Permutation_refl'. }
  symmetry in Hp. apply Permutation_map_inv in Hp as (members & Heq & Hp). exists members. split; [by symmetry|].
  simpl. rewrite Heq, map_map. done.
Qed.

Lemma render_delimited j : delimited render j.
Proof.
  induction j as [|b|s|js IH|ms IH] using json_ind'; intros k x y H.
  all: assert (first_char k = first_char _) as Hf by
    (destruct (render_first k) as [tk Hk]; rewrite Hk in H; match type of H with render ?j ++ _ = _ =>
      destruct (render_first j) as [tj Hj]; rewrite Hj in H; by injection H end).
  all: destruct k as [|b'|t|ks|ns]; try (by destruct b); try (by destruct b'); try done.
  - simpl in H. injection H as H. done.
  - destruct b, b'; simpl in H; try done; by injection H as ->.
  - change ((quote ++ escaped s ++ quote) ++ x = (quote ++ escaped t ++ quote) ++ y) in H.
    rewrite <-!app_assoc in H. by apply quoted_inj in H as [-> ->].
  - simpl in H. injection H as H. rewrite <-!app_assoc in H. apply separated_inj in H as [-> ->]; [done|done| |done].
    intros j. destruct (render_first j) as [text ->]. exists (first_char j), text. split; [done|].
    destruct j as [|[]| | |]; done.
  - destruct (render_members ms) as (l & Hl & Hlr). destruct (render_members ns) as (k & Hk & Hkr).
    rewrite Hlr, Hkr in H. simpl in H. injection H as H. rewrite <-!app_assoc in H.
    apply separated_inj in H as [-> ->]; [|done| |].
    + split; [|done]. f_equal. apply map_to_list_inj. by rewrite <-Hl, <-Hk.
    + intros m. by eexists _, _.
    + rewrite Hl. apply Forall_forall. intros [n j] Hin%elem_of_map_to_list. apply member_delimited. by apply (IH n).
Qed.

Lemma render_inj j k : render j = render k → j = k.
Proof. intros H. apply (render_delimited j k [] []). by rewrite H. Qed.

(** The order of a map's entries is lost. *)
Lemma collect_perm {A} (l k : list (option A)) : l ≡ₚ k →
  match collect_option l, collect_option k with Some a, Some b => a ≡ₚ b | None, None => True | _, _ => False end.
Proof.
  intros Hp. destruct (collect_option l) as [a|] eqn:Ha; destruct (collect_option k) as [b|] eqn:Hb; [| | |done].
  - apply collect_some in Ha, Hb. subst.
    assert (∀ l : list A, omap (λ o, o) (map Some l) = l) as Hid by (induction l as [|? ? IH]; [done|]; simpl; f_equal; exact IH).
    rewrite <-(Hid a), <-(Hid b). by rewrite Hp.
  - apply collect_none in Hb. rewrite <-Hp in Hb. apply collect_none in Hb. congruence.
  - apply collect_none in Ha. rewrite Hp in Ha. apply collect_none in Ha. congruence.
Qed.

Lemma object_of_perm l k : l ≡ₚ k → NoDup l.*1 → object_of l = object_of k.
Proof.
  intros Hp Hnd. unfold object_of.
  assert (forallb (λ m : string * option json, valid_utf8 m.1) l = forallb (λ m, valid_utf8 m.1) k) as ->
    by (apply eq_true_iff_eq; rewrite !Forall_bool; by rewrite Hp).
  destruct (forallb _ k); [|done].
  pose proof (collect_perm _ _ (Permutation_map (λ m : string * option json, pair m.1 <$> m.2) Hp)) as Hc.
  destruct (collect_option (map _ l)) as [a|] eqn:Ha, (collect_option (map _ k)) as [b|] eqn:Hb; try done.
  simpl. do 2 f_equal. apply list_to_map_proper; [|done]. apply collect_some, (map_pair_Some id l a) in Ha.
  apply (f_equal (map fst)) in Ha. rewrite !map_map in Ha. change (l.*1 = a.*1) in Ha. by rewrite <-Ha.
Qed.

(** ** Digests *)

Lemma hex_digit_inj a b : 0 ≤ a < 16 → 0 ≤ b < 16 → hex_digit a = hex_digit b → a = b.
Proof.
  intros Ha Hb H. apply (f_equal code) in H. revert H. unfold hex_digit.
  destruct (Z.ltb_spec a 10), (Z.ltb_spec b 10); rewrite !code_byte_char by lia; lia.
Qed.
Lemma hex_digit_lower a : 0 ≤ a < 16 → is_lower_hex (hex_digit a) = true.
Proof.
  intros Ha. unfold is_lower_hex, is_digit, in_range, hex_digit.
  destruct (Z.ltb_spec a 10); rewrite !code_byte_char by lia; go_bool; lia.
Qed.
Lemma hex_bytes_inj l k : concat (map hex_byte l) = concat (map hex_byte k) → l = k.
Proof.
  revert k. induction l as [|c l IH]; intros [|d k]; try done. simpl. intros [= H1 H2 H%IH]. f_equal; [|done].
  pose proof (code_range c). pose proof (code_range d).
  apply hex_digit_inj in H1; [|div_lia..]. apply hex_digit_inj in H2; [|div_lia..].
  rewrite <-(byte_char_code c), <-(byte_char_code d). f_equal. div_lia.
Qed.

(** Text up to a separator that it does not contain. *)
Lemma before_separator (c : ascii) k1 k2 r1 r2 : c ∉ k1 → c ∉ k2 → k1 ++ c :: r1 = k2 ++ c :: r2 → k1 = k2 ∧ r1 = r2.
Proof.
  revert k2. induction k1 as [|a k1 IH]; intros [|b k2] H1 H2; simpl; rewrite ?not_elem_of_cons in *.
  - by intros [= ->].
  - intros [= -> _]. tauto.
  - intros [= -> _]. tauto.
  - intros [= -> H]. destruct H1, H2. by destruct (IH k2) as [-> ->].
Qed.

Lemma token_without s c : validateIdentityToken s = Ok tt → token_char c = false → c ∉ bytes s.
Proof.
  unfold validateIdentityToken. rewrite reject_if_bind, reject_if_ok. intros [_ H] Hc Hin.
  apply negb_false_iff in H. induction s as [|d s IH]; [by apply elem_of_nil in Hin|]. simpl in H.
  apply andb_true_iff in H as [Hd H]. unfold bytes in Hin. simpl in Hin. apply elem_of_cons in Hin as [->|Hin]; [congruence|].
  by apply IH.
Qed.

Lemma preimage_inj kind schema payload kind' schema' payload' :
  validateIdentityToken kind = Ok tt → validateIdentityToken schema = Ok tt →
  validateIdentityToken kind' = Ok tt → validateIdentityToken schema' = Ok tt →
  identity_preimage kind schema payload = identity_preimage kind' schema' payload' →
  kind = kind' ∧ schema = schema' ∧ payload = payload'.
Proof.
  intros Hk Hs Hk' Hs'. unfold identity_preimage. fold (bytes ("reploy:" +:+ kind +:+ ":" +:+ schema)).
  fold (bytes ("reploy:" +:+ kind' +:+ ":" +:+ schema')). rewrite !bytes_app, <-!app_assoc. intros H%app_inv_head.
  apply (before_separator ":"%char) in H as [Hkk H]; [|by apply token_without..].
  apply before_separator in H as [Hss Hpp]; [|by apply token_without..].
  by apply bytes_inj in Hkk, Hss.
Qed.

Lemma Sum_ok sha256 kind schema v d : Sum sha256 kind schema v = Ok d ↔
  validateIdentityToken kind = Ok tt ∧ validateIdentityToken schema = Ok tt ∧
  ∃ payload, Marshal v = Ok payload ∧
    d = "sha256:" +:+ String.string_of_list_ascii (concat (map hex_byte (sha256 (identity_preimage kind schema payload)))).
Proof.
  unfold Sum. rewrite bind_ok. split.
  - intros ([] & ? & H). apply bind_ok in H as ([] & ? & H). apply bind_ok in H as (payload & ? & [= <-]). eauto.
  - intros (? & ? & payload & ? & ->). exists tt. split; [done|]. apply bind_ok. exists tt. split; [done|].
    apply bind_ok. by exists payload.
Qed.

Lemma hex_text_digest l : length l = 32%nat →
  ParseDigest ("sha256:" +:+ String.string_of_list_ascii (concat (map hex_byte l))) =
    Ok ("sha256:" +:+ String.string_of_list_ascii (concat (map hex_byte l))).
Proof.
  intros Hl. unfold ParseDigest.
  assert (length (concat (map hex_byte l)) = 64%nat ∧ forallb is_lower_hex (concat (map hex_byte l)) = true) as [Hlen Hhex].
  { replace 64%nat with (2 * length l)%nat by lia. clear Hl. induction l as [|c l [IHl IHh]]; [done|].
    pose proof (code_range c). simpl. rewrite IHl, IHh, !hex_digit_lower by div_lia. split; [lia|done]. }
  set (text := String.string_of_list_ascii _).
  assert (len ("sha256:" +:+ text) = 71) as Hn.
  { unfold len. rewrite length_bytes, bytes_app, length_app. unfold text. rewrite bytes_of_list, Hlen. done. }
  rewrite Hn. change (has_prefix ("sha256:" +:+ text) "sha256:") with (String.prefix "" text).
  assert (String.prefix "" text = true) as -> by (by destruct text).
  assert (∀ t, cut_prefix ("sha256:" +:+ t) "sha256:" = Some t) as -> by (by intros []). simpl.
  assert (string_forallb is_lower_hex text = true) as ->; [|done].
  rewrite string_forallb_bytes. unfold text. by rewrite bytes_of_list.
Qed.

Lemma wf_map_perm es es' : es ≡ₚ es' → wf_value (Map es) = true → wf_value (Map es') = true.
Proof.
  intros Hp. simpl. rewrite !andb_true_iff, !bool_decide_eq_true, !Forall_bool. by rewrite Hp.
Qed.

(** ** Properties *)

(** C28: [Marshal] computes a function of the JSON value that a Go value denotes
    and of nothing else.  It succeeds exactly on the values that denote one (all
    text valid UTF-8, no number, no unsupported kind, struct tags well formed
    and without duplicates), it writes the value's one canonical text, whatever
    order a map is iterated in, and two values have the same text only when they
    denote the same JSON value. *)
Theorem Marshal_canonical v w : wf_value v = true → wf_value w = true →
  value_of (Marshal v) = render <$> json_of v ∧
  (∀ a b, Marshal v = Ok a → Marshal w = Ok b → (a = b ↔ json_of v = json_of w)) ∧
  (∀ es es', v = Map es → es ≡ₚ es' → value_of (Marshal (Map es')) = value_of (Marshal v)).
Proof.
  intros Hwf Hw%write_value. assert (writes v) as Hv by (by apply write_value).
  unfold writes, Marshal in *. split_and!; [done| |].
  - intros a b Ha Hb. rewrite Ha in Hv. rewrite Hb in Hw. simpl in Hv, Hw.
    destruct (json_of v) as [j|], (json_of w) as [k|]; try done. injection Hv as ->. injection Hw as ->.
    split; [by intros ->%render_inj|]. by intros [= ->].
  - intros es es' -> Hp. assert (wf_value (Map es') = true) as Hw' by (by apply (wf_map_perm es)).
    apply write_value in Hw'. unfold writes in Hw'. rewrite Hw', Hv. f_equal. simpl. symmetry.
    apply object_of_perm; [by rewrite Hp|]. simpl in Hwf. apply andb_true_iff in Hwf as [Hnd%bool_decide_eq_true _].
    by rewrite <-list_fmap_compose.
Qed.

Definition marshal_left : goValue := Map [("b", Slice [Bool true; Nil]); ("a", Ref (Str "x"))].
Definition marshal_right : goValue := Struct [
  (FieldInfo "A" true "a", Str "x"); (FieldInfo "B" true "b", Slice [Bool true; Ref Nil]);
  (FieldInfo "C" true "c,omitempty", Slice [])].
Lemma Marshal_canonical_witness :
  Marshal marshal_left = Marshal marshal_right ∧ json_of marshal_left = json_of marshal_right.
Proof.
  destruct (Marshal_canonical marshal_left marshal_right) as (_ & H & _); [vm_compute; reflexivity..|].
  assert (Marshal marshal_left = Marshal marshal_right) as Heq by (vm_compute; reflexivity).
  split; [done|]. destruct (Marshal marshal_left) as [a|] eqn:Ha; [|by vm_compute in Ha].
  by apply (H a a).
Defined.

(** The texts that two digests are of: the digests are equal exactly when these hash
    alike, and the texts are equal exactly when they are of one value. *)
Definition digests_of (sha256 : list ascii → list ascii) (kind schema : string) (v : goValue) (d : string)
    (kind' schema' : string) (w : goValue) (d' : string) (text text' : list ascii) : Prop :=
  (∃ a, Marshal v = Ok a ∧ text = identity_preimage kind schema a)
  ∧ (∃ b, Marshal w = Ok b ∧ text' = identity_preimage kind' schema' b)
  ∧ (d = d' ↔ sha256 text = sha256 text')
  ∧ (text = text' ↔ kind = kind' ∧ schema = schema' ∧ json_of v = json_of w).
Lemma Sum_names sha256 kind schema v d kind' schema' w d' : wf_value v = true → wf_value w = true →
  Sum sha256 kind schema v = Ok d → Sum sha256 kind' schema' w = Ok d' →
  ∃ text text', digests_of sha256 kind schema v d kind' schema' w d' text text'.
Proof.
  intros Hv%write_value Hw%write_value (Hk & Hs & a & Ha & ->)%Sum_ok (Hk' & Hs' & b & Hb & ->)%Sum_ok.
  exists (identity_preimage kind schema a), (identity_preimage kind' schema' b).
  split; [by exists a|]. split; [by exists b|]. unfold writes, Marshal in *. rewrite Ha in Hv. rewrite Hb in Hw. simpl in Hv, Hw.
  destruct (json_of v) as [j|], (json_of w) as [k|]; try done. injection Hv as ->. injection Hw as ->. split; split.
  - intros [= Hd]. apply (f_equal bytes) in Hd. rewrite !bytes_of_list in Hd. by apply hex_bytes_inj in Hd.
  - by intros ->.
  - intros (-> & -> & Hr%render_inj)%preimage_inj; [|done..]. by subst.
  - by intros (-> & -> & [= ->]).
Qed.
Lemma Sum_digest sha256 kind schema v d :
  (∀ x, length (sha256 x) = 32%nat) → Sum sha256 kind schema v = Ok d → ParseDigest d = Ok d.
Proof. intros H (_ & _ & a & _ & ->)%Sum_ok. by apply hex_text_digest. Qed.

(** C29: a digest names its kind, its schema and its value as far as SHA-256 tells
    texts apart: two digests that [Sum] gives are equal exactly when the two texts
    that were hashed, the kind and the schema before the canonical text of the value,
    have one hash; and these two texts are equal exactly when kind, schema and the
    JSON value denoted are.  A digest of [Sum] is one that [ParseDigest] accepts. *)
Theorem Sum_identity sha256 kind schema v d kind' schema' w d' : wf_value v = true → wf_value w = true →
  Sum sha256 kind schema v = Ok d → Sum sha256 kind' schema' w = Ok d' →
  (∃ a b, Marshal v = Ok a ∧ Marshal w = Ok b
    ∧ (d = d' ↔ sha256 (identity_preimage kind schema a) = sha256 (identity_preimage kind' schema' b))
    ∧ (identity_preimage kind schema a = identity_preimage kind' schema' b ↔
        kind = kind' ∧ schema = schema' ∧ json_of v = json_of w)) ∧
  ((∀ x, length (sha256 x) = 32%nat) → ParseDigest d = Ok d).
Proof.
  intros Hv Hw Hd Hd'. split; [|intros H; by eapply Sum_digest].
  destruct (Sum_names sha256 _ _ _ _ _ _ _ _ Hv Hw Hd Hd') as (? & ? & (a & Ha & ->) & (b & Hb & ->) & He & Ht). by exists a, b.
Qed.

(** A stand-in for the hash: the text cut or padded to 32 bytes. *)
Definition first_32_bytes (text : list ascii) : list ascii := take 32 (text ++ replicate 32 (byte_char 0)).
Lemma Sum_identity_witness : ∃ d d',
  Sum first_32_bytes "blueprint" "v1" marshal_left = Ok d ∧ Sum first_32_bytes "plan" "v1" marshal_right = Ok d' ∧
  d ≠ d' ∧ ParseDigest d = Ok d.
Proof.
  destruct (Sum first_32_bytes "blueprint" "v1" marshal_left) as [d|] eqn:Hd; [|by vm_compute in Hd].
  destruct (Sum first_32_bytes "plan" "v1" marshal_right) as [d'|] eqn:Hd'; [|by vm_compute in Hd'].
  exists d, d'. split; [done|]. split; [done|].
  destruct (Sum_identity first_32_bytes "blueprint" "v1" marshal_left d "plan" "v1" marshal_right d')
    as [(a & b & Ha & Hb & He & _) Hp]; [vm_compute; reflexivity..|done|done|].
  split.
  - intros Heq%He. vm_compute in Ha, Hb. injection Ha as <-. injection Hb as <-. vm_compute in Heq. discriminate Heq.
  - apply Hp. intros x. unfold first_32_bytes. rewrite length_take, length_app, length_replicate. lia.
Defined.
