(* ===== verification/ProviderGraph.v ===== *)
(** * The order of a provider graph

    [StableProviderNodeOrder] of [internal/providers/graph.go]: Kahn's algorithm
    over the nodes and supplier edges of a provider plan, the ready nodes kept
    sorted by [compareReadyNodes].

    A Go map is a [gmap].  The first list of ready nodes is filled in the order
    of a map iteration, which Go leaves open; it is sorted before it is used. *)

From S2P Require Import Prelude GoText.

Open Scope Z_scope.

(** ** Definitions *)

Definition NodeID : Type := string.
Record QualifiedOutput := Qualified { Component : string; Name : string }.
#[export] Instance QualifiedOutput_eq_dec : EqDecision QualifiedOutput.
Proof. solve_decision. Defined.
Record ProviderEdgeV1 := ProviderEdge {
  Supplier : NodeID;
  Consumer : NodeID;
  RequirementID : string;
  Output : QualifiedOutput
}.
#[export] Instance ProviderEdgeV1_eq_dec : EqDecision ProviderEdgeV1.
Proof. solve_decision. Defined.

Definition nodeInitializationPriority (node : NodeID) : Z :=
  if bool_decide (node = "base") then 0 else if bool_decide (node = "apt") then 1 else 2.

Definition compareReadyNodes (left right : NodeID) : Z :=
  let leftPriority := nodeInitializationPriority left in
  let rightPriority := nodeInitializationPriority right in
  if leftPriority <? rightPriority then -1
  else if rightPriority <? leftPriority then 1
  else if String.ltb left right then -1
  else if String.ltb right left then 1
  else 0.
Definition ready_le (left right : NodeID) : Prop := compareReadyNodes left right ≤ 0.
#[export] Instance ready_le_dec left right : Decision (ready_le left right).
Proof. unfold ready_le. apply _. Defined.

(** The loop over the nodes. *)
Fixpoint index_nodes (nodes : list NodeID) (indegree : gmap NodeID Z) : result (gmap NodeID Z) :=
  match nodes with
  | [] => Ok indegree
  | node :: nodes =>
    _ ← reject_if (bool_decide (is_Some (indegree !! node))) "provider graph contains duplicate node";
    index_nodes nodes (<[node := 0]> indegree)
  end.

(** The loop over the edges. *)
Fixpoint index_edges (edges : list ProviderEdgeV1) (indegree : gmap NodeID Z) (adjacency : gmap NodeID (list NodeID))
    : result (gmap NodeID Z * gmap NodeID (list NodeID)) :=
  match edges with
  | [] => Ok (indegree, adjacency)
  | edge :: edges =>
    _ ← reject_if (bool_decide (indegree !! Supplier edge = None)) "provider graph edge supplier is missing";
    _ ← reject_if (bool_decide (indegree !! Consumer edge = None)) "provider graph edge consumer is missing";
    index_edges edges
      (<[Consumer edge := default 0 (indegree !! Consumer edge) + 1]> indegree)
      (<[Supplier edge := default [] (adjacency !! Supplier edge) ++ [Consumer edge]]> adjacency)
  end.

(** The loop over the consumers of the node just placed. *)
Fixpoint release_consumers (consumers : list NodeID) (indegree : gmap NodeID Z) (ready : list NodeID)
    : gmap NodeID Z * list NodeID :=
  match consumers with
  | [] => (indegree, ready)
  | consumer :: consumers =>
    let count := default 0 (indegree !! consumer) - 1 in
    release_consumers consumers (<[consumer := count]> indegree)
      (if count =? 0 then ready ++ [consumer] else ready)
  end.

(** The loop over the ready nodes; each round places a node, so as many rounds
    as there are nodes are enough. *)
Fixpoint place_nodes (fuel : nat) (adjacency : gmap NodeID (list NodeID)) (indegree : gmap NodeID Z)
    (ready order : list NodeID) : list NodeID :=
  match fuel, merge_sort ready_le ready with
  | S fuel, node :: ready =>
    let '(indegree, ready) := release_consumers (default [] (adjacency !! node)) indegree ready in
    place_nodes fuel adjacency indegree ready (order ++ [node])
  | _, _ => order
  end.

Definition StableProviderNodeOrder (nodes : list NodeID) (edges : list ProviderEdgeV1) : result (list NodeID) :=
  indegree ← index_nodes nodes ∅;
  '(indegree, adjacency) ← index_edges edges indegree ∅;
  let ready := map fst (filter (λ entry, entry.2 = 0) (map_to_list indegree)) in
  let order := place_nodes (length nodes) adjacency indegree ready [] in
  _ ← reject_if (negb (length order =? length nodes)%nat) "provider plan has no complete initialization order";
  Ok order.

Example order_example :
  StableProviderNodeOrder ["tool"; "python"; "apt"; "base"]
    (let edge s c := ProviderEdge s c "shell" (Qualified s "sh") in
     [edge "base" "apt"; edge "apt" "python"; edge "base" "python"; edge "base" "tool"])
  = Ok ["base"; "apt"; "python"; "tool"].
Proof. vm_compute. reflexivity. Qed.
