(* ===== verification/ProviderGraphFacts.v ===== *)
(** * What the order of a provider graph promises

    The order is the greedy topological order: every node comes after its
    suppliers, and is the least node whose suppliers were all placed.  It exists
    exactly when the graph has no cycle. *)

From S2P Require Import Prelude GoText ProviderGraph.

Open Scope Z_scope.

(** ** Specification *)

Section spec.
Context (nodes : list NodeID) (edges : list ProviderEdgeV1).

(** A node that can be placed after [placed]. *)
Definition available (placed : list NodeID) (n : NodeID) : Prop :=
  n ∈ nodes ∧ (n ∉ placed) ∧ ∀ e, e ∈ edges → Consumer e = n → Supplier e ∈ placed.

(** Every node of [order] is the least available one at its place. *)
Definition greedy (placed order : list NodeID) : Prop :=
  ∀ before x after, order = before ++ x :: after →
    available (placed ++ before) x ∧ ∀ y, available (placed ++ before) y → ready_le x y.

Definition endpoints_known : Prop := ∀ e, e ∈ edges → Supplier e ∈ nodes ∧ Consumer e ∈ nodes.
Definition acyclic : Prop := ∃ rank : NodeID → nat, ∀ e, e ∈ edges → (rank (Supplier e) < rank (Consumer e))%nat.
End spec.

(** ** The order of ready nodes *)

Lemma ready_le_iff a b :
  ready_le a b ↔
  nodeInitializationPriority a < nodeInitializationPriority b ∨
  nodeInitializationPriority a = nodeInitializationPriority b ∧ (string_lt a b ∨ a = b).
Proof.
  unfold ready_le, compareReadyNodes.
  destruct (Z.ltb_spec (nodeInitializationPriority a) (nodeInitializationPriority b)); [split; intros; lia|].
  destruct (Z.ltb_spec (nodeInitializationPriority b) (nodeInitializationPriority a)); [split; intros; lia|].
  assert (nodeInitializationPriority a = nodeInitializationPriority b) as Hp by lia.
  destruct (String.ltb a b) eqn:Hab; [split; intros; [right; split; [done|by left]|lia]|].
  destruct (String.ltb b a) eqn:Hba.
  - split; [intros; lia|]. intros [?|[_ [Hlt| ->]]]; [lia|unfold string_lt in Hlt; congruence|].
    congruence.
  - split; [|lia]. intros _. right. split; [done|]. destruct (string_lt_total a b) as [?|[?|?]]; unfold string_lt in *; [congruence|by right|congruence].
Qed.

#[export] Instance ready_le_trans : Transitive ready_le.
Proof.
  intros a b c. rewrite !ready_le_iff. intros [?|[? Hab]] [?|[? Hbc]]; [left; lia..|right]. split; [lia|].
  destruct Hab as [Hab| ->]; [|done]. destruct Hbc as [Hbc| <-]; [|by left]. left. by etrans.
Qed.
#[export] Instance ready_le_total : Total ready_le.
Proof.
  intros a b. rewrite !ready_le_iff. destruct (string_lt_total a b) as [?|[?|?]]; [|subst; right; right; tauto|];
    destruct (Z.lt_total (nodeInitializationPriority a) (nodeInitializationPriority b)) as [?|[?|?]]; naive_solver.
Qed.
#[export] Instance ready_le_antisymm : AntiSymm (=) ready_le.
Proof.
  intros a b. rewrite !ready_le_iff. intros [?|[? [Hab|?]]] [?|[? [Hba|?]]]; try lia; try done.
  exfalso. apply (irreflexivity string_lt a). by etrans.
Qed.

(** ** Counting edges *)

Definition open_suppliers (edges : list ProviderEdgeV1) (placed : list NodeID) (n : NodeID) : Z :=
  Z.of_nat (length (filter (λ e, Consumer e = n ∧ Supplier e ∉ placed) edges)).
Definition consumers_of (edges : list ProviderEdgeV1) (s : NodeID) : list NodeID :=
  map Consumer (filter (λ e, Supplier e = s) edges).
Definition occurrences (n : NodeID) (l : list NodeID) : Z := Z.of_nat (length (filter (n =.) l)).

Lemma occurrences_cons n c l : occurrences n (c :: l) = (if bool_decide (n = c) then 1 else 0) + occurrences n l.
Proof.
  unfold occurrences. case_bool_decide; [rewrite filter_cons_True by done|rewrite filter_cons_False by done]; simpl; lia.
Qed.

Lemma open_suppliers_place edges placed x n :
  x ∉ placed →
  open_suppliers edges placed n = open_suppliers edges (placed ++ [x]) n + occurrences n (consumers_of edges x).
Proof.
  intros Hx. unfold open_suppliers, occurrences, consumers_of. induction edges as [|e edges IH]; [done|].
  destruct (decide (Supplier e = x)) as [Hs|Hs].
  - rewrite (filter_cons_True (λ e, Supplier e = x)) by done. simpl map.
    rewrite (filter_cons_False (λ e, Consumer e = n ∧ Supplier e ∉ placed ++ [x])) by set_solver.
    destruct (decide (n = Consumer e)) as [Hn|Hn].
    + rewrite (filter_cons_True (n =.)), (filter_cons_True (λ e, Consumer e = n ∧ Supplier e ∉ placed)) by set_solver.
      simpl. lia.
    + rewrite (filter_cons_False (n =.)), (filter_cons_False (λ e, Consumer e = n ∧ Supplier e ∉ placed)) by naive_solver.
      simpl. lia.
  - rewrite (filter_cons_False (λ e, Supplier e = x)) by done.
    destruct (decide (Consumer e = n ∧ Supplier e ∉ placed)) as [Hc|Hc].
    + rewrite !filter_cons_True by set_solver. simpl. lia.
    + rewrite !filter_cons_False by set_solver. lia.
Qed.

Lemma open_suppliers_zero edges placed n :
  open_suppliers edges placed n = 0 ↔ ∀ e, e ∈ edges → Consumer e = n → Supplier e ∈ placed.
Proof.
  unfold open_suppliers. split.
  - intros H e He Hn. destruct (decide (Supplier e ∈ placed)) as [|Hs]; [done|].
    assert (e ∈ filter (λ e, Consumer e = n ∧ Supplier e ∉ placed) edges) as Hf by (by apply list_elem_of_filter).
    destruct (filter _ edges); [by apply elem_of_nil in Hf|simpl in H; lia].
  - intros H. rewrite filter_none; [done|]. apply Forall_forall. intros e He [Hn Hs]. apply Hs. by apply H.
Qed.

(** ** The loops *)

Lemma release_consumers_spec consumers m ready m' ready' :
  release_consumers consumers m ready = (m', ready') →
  (∀ c, c ∈ consumers → is_Some (m !! c)) →
  (∀ n k, m !! n = Some k → m' !! n = Some (k - occurrences n consumers)) ∧
  ∃ released, ready' = ready ++ released ∧ NoDup released ∧
    ∀ n, n ∈ released ↔ ∃ k, m !! n = Some k ∧ 1 ≤ k ≤ occurrences n consumers.
Proof.
  revert m ready. induction consumers as [|c consumers IH]; intros m ready; simpl.
  { intros [= <- <-] _. unfold occurrences. simpl. split; [intros n k; by rewrite Z.sub_0_r|].
    exists []. rewrite app_nil_r. split_and!; [done|constructor|]. intros n. rewrite elem_of_nil. split; [done|].
    intros (k & _ & ?). lia. }
  intros Hr Hin. destruct (Hin c ltac:(by left)) as [kc Hkc]. rewrite Hkc in Hr. simpl in Hr.
  apply IH in Hr as (Hm & released & -> & Hnd & Hrel).
  2:{ intros d Hd. rewrite lookup_insert_is_Some'. right. apply Hin. by right. }
  split.
  { intros n k Hk. rewrite occurrences_cons. case_bool_decide as Hn.
    - subst n. assert (k = kc) as -> by congruence. rewrite (Hm c (kc - 1)) by (by rewrite lookup_insert_eq). f_equal; lia.
    - rewrite (Hm n k) by (by rewrite lookup_insert_ne). f_equal; lia. }
  assert (∀ n, n ∈ released ↔ ∃ k, m !! n = Some k ∧ 1 ≤ (if bool_decide (n = c) then k - 1 else k) ≤ occurrences n consumers) as Hr.
  { intros n. rewrite Hrel. case_bool_decide as Hn.
    - subst n. rewrite lookup_insert_eq, Hkc. split; [intros (? & [= <-] & ?); by exists kc|intros (? & [= <-] & ?); by eexists].
    - by rewrite lookup_insert_ne. }
  exists ((if kc - 1 =? 0 then [c] else []) ++ released). rewrite app_assoc. split; [by destruct (kc - 1 =? 0); rewrite ?app_nil_r|].
  split.
  - destruct (Z.eqb_spec (kc - 1) 0) as [Hz|]; [|done]. apply NoDup_cons. split; [|done].
    rewrite Hr, bool_decide_true by done. intros (k & Hk & ?). simplify_eq. lia.
  - intros n. rewrite elem_of_app, Hr, occurrences_cons. destruct (decide (n = c)) as [->|Hn].
    + rewrite !bool_decide_true by done. assert (0 ≤ occurrences c consumers) by (unfold occurrences; lia).
      destruct (Z.eqb_spec (kc - 1) 0) as [Hz|Hz]; rewrite ?elem_of_nil, ?list_elem_of_singleton, Hkc; split.
      * intros _. exists kc. split; [done|lia].
      * intros _. by left.
      * intros [?|(k & [= <-] & ?)]; [done|]. exists kc. split; [done|lia].
      * intros (k & [= <-] & ?). right. exists kc. split; [done|lia].
    + rewrite !bool_decide_false by done. rewrite Z.add_0_l. destruct (kc - 1 =? 0); rewrite ?elem_of_nil, ?list_elem_of_singleton; naive_solver.
Qed.

Lemma index_nodes_ok nodes m : NoDup nodes → (∀ n, n ∈ nodes → m !! n = None) →
  ∃ m', index_nodes nodes m = Ok m' ∧ ∀ n, m' !! n = if bool_decide (n ∈ nodes) then Some 0 else m !! n.
Proof.
  revert m. induction nodes as [|x nodes IH]; intros m Hnd Hm; simpl; [by exists m|].
  apply NoDup_cons in Hnd as [Hx Hnd]. rewrite bool_decide_false by (rewrite Hm by (by left); by intros [? ?]). simpl.
  destruct (IH (<[x := 0]> m) Hnd) as (m' & -> & Hm').
  { intros n Hn. rewrite lookup_insert_ne by (by intros ->). apply Hm. by right. }
  exists m'. split; [done|]. intros n. rewrite Hm'. destruct (decide (n = x)) as [->|Hne].
  - rewrite bool_decide_false, lookup_insert_eq by done. by rewrite bool_decide_true by (by left).
  - rewrite lookup_insert_ne by done. do 2 case_bool_decide; set_solver.
Qed.

Lemma index_nodes_inv nodes m m' : index_nodes nodes m = Ok m' → NoDup nodes ∧ ∀ n, n ∈ nodes → m !! n = None.
Proof.
  revert m. induction nodes as [|x nodes IH]; intros m; simpl; [intros _; split; [constructor|by intros ? ?%elem_of_nil]|].
  intros H. go_ok. rename select (bool_decide _ = false) into Hx. apply bool_decide_eq_false in Hx.
  apply IH in H as [Hnd Hm]. split.
  - apply NoDup_cons. split; [|done]. intros Hin%Hm. by rewrite lookup_insert_eq in Hin.
  - intros n [->|Hn]%elem_of_cons; [by apply eq_None_not_Some|].
    apply Hm in Hn. destruct (decide (n = x)) as [->|]; [by rewrite lookup_insert_eq in Hn|by rewrite lookup_insert_ne in Hn].
Qed.

Lemma index_edges_spec edges m adj :
  match index_edges edges m adj with
  | Ok (m', adj') =>
    (∀ e, e ∈ edges → is_Some (m !! Supplier e) ∧ is_Some (m !! Consumer e)) ∧
    (∀ n, m' !! n = (λ k, k + open_suppliers edges [] n) <$> m !! n) ∧
    ∀ s, default [] (adj' !! s) = default [] (adj !! s) ++ consumers_of edges s
  | Err _ => ¬ ∀ e, e ∈ edges → is_Some (m !! Supplier e) ∧ is_Some (m !! Consumer e)
  end.
Proof.
  revert m adj. induction edges as [|e edges IH]; intros m adj; simpl.
  { split; [by intros ? ?%elem_of_nil|]. unfold consumers_of, open_suppliers. simpl. split; [|intros s; by rewrite app_nil_r].
    intros n. destruct (m !! n); simpl; f_equal. lia. }
  destruct (m !! Supplier e) as [ks|] eqn:Hs; simpl.
  2:{ intros H. destruct (H e ltac:(by left)) as [[? ?] _]. congruence. }
  destruct (m !! Consumer e) as [kc|] eqn:Hc; simpl.
  2:{ intros H. destruct (H e ltac:(by left)) as [_ [? ?]]. congruence. }
  specialize (IH (<[Consumer e := kc + 1]> m)
    (<[Supplier e := default [] (adj !! Supplier e) ++ [Consumer e]]> adj)).
  assert (∀ n, is_Some (<[Consumer e := kc + 1]> m !! n) ↔ is_Some (m !! n)) as Hdom.
  { intros n. destruct (decide (n = Consumer e)) as [->|Hne]; [rewrite lookup_insert_eq, Hc|by rewrite lookup_insert_ne].
    split; by eexists. }
  destruct (index_edges edges _ _) as [[m' adj']|].
  - destruct IH as (H1 & H2 & H3). split_and!.
    + intros d [->|Hd]%elem_of_cons; [rewrite Hs, Hc; by split; eexists|]. apply H1 in Hd. by rewrite !Hdom in Hd.
    + intros n. rewrite H2. unfold open_suppliers. destruct (decide (n = Consumer e)) as [->|Hne].
      * rewrite lookup_insert_eq, Hc. simpl. rewrite (filter_cons_True (λ e0, Consumer e0 = Consumer e ∧ Supplier e0 ∉ []) e)
          by set_solver. simpl. f_equal. lia.
      * rewrite lookup_insert_ne by done. rewrite filter_cons_False by naive_solver. done.
    + intros s. rewrite H3. unfold consumers_of. destruct (decide (s = Supplier e)) as [->|Hne].
      * rewrite lookup_insert_eq, filter_cons_True by done. simpl. by rewrite <-app_assoc.
      * rewrite lookup_insert_ne, filter_cons_False by done. done.
  - intros H. apply IH. intros d Hd. rewrite !Hdom. apply H. by right.
Qed.

(** ** The invariant of the main loop *)

Section loop.
Context (nodes : list NodeID) (edges : list ProviderEdgeV1) (adjacency : gmap NodeID (list NodeID)).
Context (Hnodes : NoDup nodes) (Hends : endpoints_known nodes edges).
Context (Hadj : ∀ s, default [] (adjacency !! s) = consumers_of edges s).

Record loop_state (indegree : gmap NodeID Z) (ready placed : list NodeID) : Prop := {
  ls_indegree n : n ∈ nodes → indegree !! n = Some (open_suppliers edges placed n);
  ls_ready_nodup : NoDup ready;
  ls_ready n : n ∈ ready ↔ available nodes edges placed n;
  ls_placed : NoDup placed;
  ls_closed n : n ∈ placed → open_suppliers edges placed n = 0;
  ls_known : placed ⊆ nodes
}.

Lemma consumers_known s c : c ∈ consumers_of edges s → c ∈ nodes.
Proof using Hends.
  unfold consumers_of. intros (e & -> & He)%list_elem_of_fmap. apply list_elem_of_filter in He as [_ He]. by apply Hends.
Qed.

Lemma place_one indegree ready placed x rest :
  loop_state indegree ready placed → ready ≡ₚ x :: rest →
  let '(indegree', ready') := release_consumers (default [] (adjacency !! x)) indegree rest in
  loop_state indegree' ready' (placed ++ [x]).
Proof using Hends Hadj.
  clear Hnodes. intros [Hi Hnd Hr Hp Hcl Hk] Hperm. assert (available nodes edges placed x) as (Hxn & Hxp & Hxs).
  { apply Hr. rewrite Hperm. by left. }
  rewrite Hperm in Hnd. apply NoDup_cons in Hnd as [Hxr Hnd].
  destruct (release_consumers _ indegree rest) as [indegree' ready'] eqn:Hrel. rewrite Hadj in Hrel.
  apply release_consumers_spec in Hrel as (Hm & released & -> & Hrnd & Hrin).
  2:{ intros c Hc%consumers_known. rewrite Hi by done. by eexists. }
  assert (∀ n, available nodes edges (placed ++ [x]) n ↔ n ∈ nodes ∧ (n ∉ placed) ∧ n ≠ x ∧ open_suppliers edges (placed ++ [x]) n = 0) as Hav.
  { intros n. unfold available. rewrite open_suppliers_zero. set_solver. }
  assert (∀ n, available nodes edges placed n ↔ n ∈ nodes ∧ (n ∉ placed) ∧ open_suppliers edges placed n = 0) as Hav0.
  { intros n. unfold available. by rewrite open_suppliers_zero. }
  assert (∀ n, 0 ≤ open_suppliers edges (placed ++ [x]) n) as Hge by (intros n; unfold open_suppliers; lia).
  assert (∀ n, 0 ≤ occurrences n (consumers_of edges x)) as Hocc by (intros n; unfold occurrences; lia).
  assert (∀ n, n ∈ released ↔ n ∈ nodes ∧ open_suppliers edges placed n ≠ 0 ∧ open_suppliers edges (placed ++ [x]) n = 0) as Hrel.
  { intros n. rewrite Hrin. assert (Hsum := open_suppliers_place edges placed x n Hxp). specialize (Hge n). split.
    - intros (k & Hkn & H1). assert (n ∈ nodes) as Hn.
      { apply (consumers_known x). unfold occurrences in H1.
        destruct (filter (n =.) (consumers_of edges x)) as [|y l] eqn:Hf; [simpl in H1; lia|].
        assert (y ∈ filter (n =.) (consumers_of edges x)) as Hy by (rewrite Hf; by left).
        apply list_elem_of_filter in Hy as [-> Hy]. done. }
      rewrite Hi in Hkn by done. injection Hkn as <-. split; [done|lia].
    - intros (Hn & H1 & H2). exists (open_suppliers edges placed n). rewrite Hi by done. split; [done|]. specialize (Hocc n). lia. }
  split.
  - intros n Hn. rewrite (Hm n _ (Hi n Hn)). f_equal. rewrite (open_suppliers_place edges placed x n Hxp). lia.
  - apply NoDup_app. split_and!; [done| |done]. intros n Hn Hn'. apply Hrel in Hn' as (_ & Hne & _).
    apply Hne. assert (n ∈ ready) as Hnr by (rewrite Hperm; by right). apply Hr, Hav0 in Hnr. tauto.
  - intros n. rewrite elem_of_app, Hrel, Hav.
    assert (n ∈ rest ↔ n ≠ x ∧ available nodes edges placed n) as ->.
    { rewrite <-Hr, Hperm, elem_of_cons. split; [intros Hn; split; [by intros ->|by right]|naive_solver]. }
    rewrite Hav0. assert (Hsum := open_suppliers_place edges placed x n Hxp). specialize (Hge n). specialize (Hocc n). split.
    + intros [(? & ? & ? & ?)|(? & Hne & ?)]; [split_and!; [done|done|done|lia]|]. split_and!; [done| | |done].
      * intros Hnp. by apply Hne, Hcl.
      * intros ->. by apply Hne, open_suppliers_zero.
    + intros (? & ? & ? & ?). destruct (decide (open_suppliers edges placed n = 0)); [left|right]; tauto.
  - apply NoDup_app. split_and!; [done|set_solver|apply NoDup_singleton].
  - intros n Hn. assert (Hsum := open_suppliers_place edges placed x n Hxp). specialize (Hge n). specialize (Hocc n).
    assert (open_suppliers edges placed n = 0); [|lia].
    apply elem_of_app in Hn as [Hn| ->%list_elem_of_singleton]; [by apply Hcl|by apply open_suppliers_zero].
  - set_solver.
Qed.

Lemma placed_length placed : NoDup placed → placed ⊆ nodes → (length placed ≤ length nodes)%nat.
Proof using Type. intros Hp Hk. by apply submseteq_length, NoDup_submseteq. Qed.

Lemma full_no_available placed n :
  NoDup placed → placed ⊆ nodes → (length nodes ≤ length placed)%nat → ¬ available nodes edges placed n.
Proof using Hnodes.
  clear Hadj Hends adjacency. intros Hp Hk Hl (Hn & Hnp & _). assert (NoDup (n :: placed)) as Hnd by (by apply NoDup_cons).
  assert (n :: placed ⊆ nodes) as Hs by set_solver. apply (placed_length _ Hnd) in Hs. simpl in Hs. lia.
Qed.

(** The loop places greedily until nothing is ready. *)
Lemma place_nodes_spec fuel indegree ready placed :
  loop_state indegree ready placed → (length nodes ≤ fuel + length placed)%nat →
  ∃ suffix, place_nodes fuel adjacency indegree ready placed = placed ++ suffix ∧
    NoDup (placed ++ suffix) ∧ placed ++ suffix ⊆ nodes ∧ greedy nodes edges placed suffix ∧
    ∀ n, ¬ available nodes edges (placed ++ suffix) n.
Proof using Hnodes Hends Hadj.
  revert indegree ready placed. induction fuel as [|fuel IH]; intros indegree ready placed Hst Hf; simpl.
  { exists []. rewrite app_nil_r. destruct Hst. split_and!; [done|done|done|by intros [|] ? ? ?|].
    intros n. apply full_no_available; [done|done|lia]. }
  assert (Hperm := merge_sort_Permutation ready_le ready). assert (Hsort := StronglySorted_merge_sort ready_le ready).
  destruct (merge_sort ready_le ready) as [|x rest].
  { exists []. rewrite app_nil_r. destruct Hst. split_and!; [done|done|done|by intros [|] ? ? ?|].
    intros n Hn%ls_ready0. apply Permutation_nil_l in Hperm as <-. by apply elem_of_nil in Hn. }
  assert (Hone := place_one indegree ready placed x rest Hst (Permutation_sym Hperm)).
  destruct (release_consumers _ indegree rest) as [indegree' ready'].
  destruct (IH _ _ _ Hone) as (suffix & -> & Hnd & Hsub & Hg & Hend); [rewrite length_app; simpl; lia|].
  exists (x :: suffix). rewrite <-app_assoc in *. simpl in *. split_and!; [done..| |done].
  intros [|y before] z after [= <- Heq].
  - rewrite app_nil_r. split; [apply Hst; rewrite <-Hperm; by left|]. intros y Hy.
    apply Hst in Hy. rewrite <-Hperm in Hy. apply StronglySorted_inv in Hsort as [_ Hall].
    apply elem_of_cons in Hy as [->|Hy]; [by apply ready_le_iff; right; split; [|right]|]. rewrite Forall_forall in Hall. by apply Hall.
  - specialize (Hg before z after Heq). by rewrite <-app_assoc in Hg.
Qed.
End loop.

Lemma greedy_cons nodes edges placed x order :
  greedy nodes edges placed (x :: order) ↔
  available nodes edges placed x ∧ (∀ y, available nodes edges placed y → ready_le x y) ∧
  greedy nodes edges (placed ++ [x]) order.
Proof.
  split.
  - intros H. destruct (H [] x order eq_refl) as [H1 H2]. rewrite app_nil_r in H1, H2. split_and!; [done|done|].
    intros before y after ->. rewrite <-app_assoc. by apply (H (x :: before) y after).
  - intros (H1 & H2 & H3) [|z before] y after [= -> Heq]; [by rewrite app_nil_r|].
    specialize (H3 before y after Heq). by rewrite <-app_assoc in H3.
Qed.

(** There is at most one greedy order that leaves nothing available. *)
Lemma greedy_unique nodes edges placed left right :
  greedy nodes edges placed left → (∀ n, ¬ available nodes edges (placed ++ left) n) →
  greedy nodes edges placed right → (∀ n, ¬ available nodes edges (placed ++ right) n) → left = right.
Proof.
  revert placed right. induction left as [|x left IH]; intros placed [|y right] Hl Hle Hr Hre; [done| | |].
  - apply greedy_cons in Hr as (Hy & _). rewrite app_nil_r in Hle. by apply Hle in Hy.
  - apply greedy_cons in Hl as (Hx & _). rewrite app_nil_r in Hre. by apply Hre in Hx.
  - apply greedy_cons in Hl as (Hx & Hxm & Hl), Hr as (Hy & Hym & Hr).
    assert (x = y) as -> by (apply (anti_symm ready_le); auto). f_equal.
    apply (IH (placed ++ [y])); rewrite <-?app_assoc; done.
Qed.

Lemma permutation_exhausts nodes edges order n :
  order ≡ₚ nodes → ¬ available nodes edges order n.
Proof. intros Hp (Hn & Hno & _). apply Hno. by rewrite Hp. Qed.

(** What the loops compute from well-formed input. *)
Lemma stable_order_run nodes edges :
  NoDup nodes → endpoints_known nodes edges →
  ∃ order, NoDup order ∧ order ⊆ nodes ∧ greedy nodes edges [] order ∧ (∀ n, ¬ available nodes edges order n) ∧
    StableProviderNodeOrder nodes edges =
    if (length order =? length nodes)%nat then Ok order else Err "provider plan has no complete initialization order".
Proof.
  intros Hnd Hends. unfold StableProviderNodeOrder.
  destruct (index_nodes_ok nodes ∅ Hnd) as (m & -> & Hm); [intros; apply lookup_empty|]. rewrite bind_Ok.
  assert (∀ n, m !! n = if bool_decide (n ∈ nodes) then Some 0 else None) as Hm0.
  { intros n. rewrite Hm. by case_bool_decide; [|rewrite lookup_empty]. }
  assert (He := index_edges_spec edges m ∅). destruct (index_edges edges m ∅) as [[m' adj]|] eqn:Hix.
  2:{ exfalso. apply He. intros e [Hs Hc]%Hends. rewrite !Hm0, !bool_decide_true by done. by split; eexists. }
  destruct He as (_ & Hm' & Hadj). rewrite bind_Ok. cbv beta iota zeta.
  assert (∀ s, default [] (adj !! s) = consumers_of edges s) as Hadj' by (intros s; by rewrite Hadj, lookup_empty).
  assert (loop_state nodes edges m' (map fst (filter (λ entry, entry.2 = 0) (map_to_list m'))) []) as Hst.
  { split; [| | |constructor|by intros n ?%elem_of_nil|set_solver].
    - intros n Hn. by rewrite Hm', Hm0, bool_decide_true.
    - apply NoDup_fmap_fst; [|apply NoDup_filter, NoDup_map_to_list].
      intros n k1 k2 [_ H1]%list_elem_of_filter [_ H2]%list_elem_of_filter.
      apply elem_of_map_to_list in H1, H2. congruence.
    - intros n. rewrite list_elem_of_fmap. unfold available. rewrite <-open_suppliers_zero. split.
      + intros ([? k] & -> & [Hk Hin]%list_elem_of_filter). simpl in *. subst k. apply elem_of_map_to_list in Hin.
        rewrite Hm', Hm0 in Hin. case_bool_decide; [|done]. simpl in Hin. split_and!; [done|by apply not_elem_of_nil|].
        injection Hin as Hin. done.
      + intros (Hn & _ & Hz). exists (n, 0). split; [done|]. apply list_elem_of_filter. split; [done|].
        apply elem_of_map_to_list. rewrite Hm', Hm0, bool_decide_true by done. simpl. by rewrite Hz. }
  destruct (place_nodes_spec nodes edges adj Hnd Hends Hadj' (length nodes) _ _ _ Hst) as (order & Ho & H1 & H2 & H3 & H4);
    [simpl; lia|].
  simpl in *. exists order. split_and!; [done..|]. rewrite Ho. by destruct (length order =? length nodes)%nat.
Qed.

Lemma full_permutation (order nodes : list NodeID) :
  NoDup order → order ⊆ nodes → length order = length nodes → order ≡ₚ nodes.
Proof. intros Hnd Hs Hl. apply submseteq_length_Permutation; [by apply NoDup_submseteq|lia]. Qed.

(** A graph without a cycle leaves no node behind. *)
Lemma acyclic_exhausts nodes edges order :
  endpoints_known nodes edges → acyclic edges → (∀ n, ¬ available nodes edges order n) → nodes ⊆ order.
Proof.
  intros Hends (rank & Hrank) Hno n. remember (rank n) as r eqn:Hr. revert n Hr.
  induction (lt_wf r) as [r _ IH]. intros n -> Hn. destruct (decide (n ∈ order)) as [|Hno']; [done|].
  exfalso. apply (Hno n). split_and!; [done|done|]. intros e He <-.
  apply (IH (rank (Supplier e))); [by apply Hrank|done|by apply Hends].
Qed.

(** Positions in a greedy order rank the edges. *)
Fixpoint position (n : NodeID) (l : list NodeID) : nat :=
  match l with [] => 0%nat | x :: l => if decide (n = x) then 0%nat else S (position n l) end.

Lemma position_before n l k : n ∈ l → (position n (l ++ k) < length l)%nat.
Proof.
  induction l as [|x l IH]; simpl; [by intros ?%elem_of_nil|]. intros Hn. destruct (decide (n = x)); [lia|].
  apply elem_of_cons in Hn as [?|Hn]; [done|]. apply IH in Hn. lia.
Qed.
Lemma position_at n l k : n ∉ l → position n (l ++ n :: k) = length l.
Proof.
  induction l as [|x l IH]; simpl; [by rewrite decide_True|]. intros Hn. rewrite decide_False by set_solver.
  rewrite IH; [done|set_solver].
Qed.

Lemma greedy_rank nodes edges order : endpoints_known nodes edges → order ≡ₚ nodes → greedy nodes edges [] order →
  ∀ e, e ∈ edges → (position (Supplier e) order < position (Consumer e) order)%nat.
Proof.
  intros Hends Hp Hg e He. destruct (Hends e He) as [_ Hc].
  rewrite <-Hp in Hc. apply list_elem_of_split in Hc as (before & after & Heq).
  destruct (Hg before _ after Heq) as [(_ & Hn & Hs) _]. simpl in Hn, Hs. subst order.
  rewrite (position_at _ before after Hn). by apply position_before, Hs.
Qed.

Lemma stable_order_inv nodes edges order :
  StableProviderNodeOrder nodes edges = Ok order → NoDup nodes ∧ endpoints_known nodes edges.
Proof.
  unfold StableProviderNodeOrder. intros (m & Hn & H)%bind_ok. assert (Hnd := Hn). apply index_nodes_inv in Hnd as [Hnd _].
  split; [done|]. destruct (index_nodes_ok nodes ∅ Hnd) as (m1 & Hn1 & Hm); [intros; apply lookup_empty|].
  assert (m = m1) as -> by congruence. assert (He := index_edges_spec edges m1 ∅).
  apply bind_ok in H as ([m' adj] & Hix & _). rewrite Hix in He. destruct He as (He & _).
  assert (∀ n, is_Some (m1 !! n) → n ∈ nodes) as Hdom.
  { intros n. rewrite Hm, lookup_empty. case_bool_decide; [done|by intros [? ?]]. }
  intros e Hin. destruct (He e Hin). split; by apply Hdom.
Qed.

Lemma stable_order_ok nodes edges order : StableProviderNodeOrder nodes edges = Ok order ↔
  NoDup nodes ∧ endpoints_known nodes edges ∧ order ≡ₚ nodes ∧ greedy nodes edges [] order.
Proof.
  split.
  - intros H. destruct (stable_order_inv _ _ _ H) as [Hnd Hends]. split_and!; [done|done|..];
      destruct (stable_order_run nodes edges Hnd Hends) as (o & H1 & H2 & H3 & _ & Ho); rewrite Ho in H;
      destruct (Nat.eqb_spec (length o) (length nodes)); try done; injection H as <-; [by apply full_permutation|done].
  - intros (Hnd & Hends & Hp & Hg).
    destruct (stable_order_run nodes edges Hnd Hends) as (o & H1 & H2 & H3 & H4 & ->).
    assert (o = order) as -> by (by apply (greedy_unique nodes edges [] o order); [..|intros n; apply permutation_exhausts]).
    by rewrite (Permutation_length Hp), Nat.eqb_refl.
Qed.

Lemma stable_order_exists nodes edges : NoDup nodes → endpoints_known nodes edges → acyclic edges →
  ∃ order, StableProviderNodeOrder nodes edges = Ok order.
Proof.
  intros Hnd Hends Hac. destruct (stable_order_run nodes edges Hnd Hends) as (o & H1 & H2 & H3 & H4 & ->).
  exists o. assert (nodes ⊆ o) as Hno by (by eapply acyclic_exhausts).
  assert (o ≡ₚ nodes) as Hp by (by apply NoDup_Permutation; [..|intros n; split; [apply H2|apply Hno]]).
  by rewrite (Permutation_length Hp), Nat.eqb_refl.
Qed.

(** ** Theorem *)

(** C30: [StableProviderNodeOrder] accepts a graph exactly when its nodes are
    distinct, its edges join known nodes and it has no cycle; the result is then
    the one greedy topological order: each place holds the least node, base
    first, apt second, the others by name, whose suppliers all stand before it. *)
Theorem StableProviderNodeOrder_spec nodes edges :
  (is_ok (StableProviderNodeOrder nodes edges) = true ↔ NoDup nodes ∧ endpoints_known nodes edges ∧ acyclic edges) ∧
  ∀ order, StableProviderNodeOrder nodes edges = Ok order ↔
    NoDup nodes ∧ endpoints_known nodes edges ∧ order ≡ₚ nodes ∧ greedy nodes edges [] order.
Proof.
  split; [|apply stable_order_ok]. rewrite is_ok_true. split.
  - intros (order & H). apply stable_order_ok in H as (? & ? & ? & ?). split_and!; [done|done|].
    exists (λ n, position n order). by eapply greedy_rank.
  - intros (Hnd & Hends & Hac). by apply stable_order_exists.
Qed.
