(* ===== verification/Contributions.v ===== *)
(** * Names and contribution identities of a blueprint

    [internal/blueprint/name.go] and the identities of
    [internal/blueprint/ownership.go]: what a component, an application and a
    provider contribution may be called, and how the owner is read back from the
    identity of a contribution.  The patterns are the anchored regular
    expressions of the source. *)

From Stdlib Require Import Ascii.
From S2P Require Import Prelude GoText.

Open Scope Z_scope.

(** ** Names *)

Definition is_upper (c : ascii) : bool := in_range 65 90 (code c).
Definition is_alphanumeric (c : ascii) : bool := is_upper c || is_lower c || is_digit c.
Definition is_portable_char (c : ascii) : bool :=
  is_alphanumeric c || bool_decide (c = "."%char) || bool_decide (c = "_"%char) || bool_decide (c = "-"%char).
Definition is_identifier_char (c : ascii) : bool :=
  is_lower c || is_digit c || bool_decide (c = "_"%char) || bool_decide (c = "-"%char).

Definition portableNamePattern : regex := Seq (Class is_alphanumeric) (Star (Class is_portable_char)).
Definition providerIdentifierPattern : regex := Seq (Class is_lower) (Star (Class is_identifier_char)).
Definition pythonDistributionNamePattern : regex :=
  Seq (Class is_alphanumeric)
    (Alt Nil (Seq (Star (Class is_portable_char)) (Class is_alphanumeric))).

Definition windowsReservedNames : gset string :=
  list_to_set ["CON"; "PRN"; "AUX"; "NUL";
    "COM1"; "COM2"; "COM3"; "COM4"; "COM5"; "COM6"; "COM7"; "COM8"; "COM9";
    "LPT1"; "LPT2"; "LPT3"; "LPT4"; "LPT5"; "LPT6"; "LPT7"; "LPT8"; "LPT9"].

(** [strings.ToUpper] of ASCII text. *)
Definition upper_char (c : ascii) : ascii := if is_lower c then ascii_of_N (Z.to_N (code c - 32)) else c.
Fixpoint to_upper (s : string) : string :=
  match s with EmptyString => EmptyString | String c s => String (upper_char c) (to_upper s) end.

Definition validatePortableName (name : string) : result unit :=
  _ ← reject_if (negb (full_match portableNamePattern name) || has_suffix name ".")
        "must be a portable basename using letters, numbers, '.', '_', or '-'";
  let stem := match cut_byte name "."%char with Some (stem, _) => stem | None => name end in
  reject_if (bool_decide (to_upper stem ∈ windowsReservedNames)) "must not use platform-reserved filename".
Definition ValidateEnvironmentID (name : string) : result unit := validatePortableName name.

Definition validateProviderIdentifier (name : string) : result unit :=
  reject_if (negb (full_match providerIdentifierPattern name)) "must match [a-z][a-z0-9_-]*".
Definition ValidateProviderIdentifier (name : string) : result unit := validateProviderIdentifier name.

Definition ValidatePythonDistributionName (name : string) : result unit :=
  reject_if (negb (full_match pythonDistributionNamePattern name))
    "must be a valid Python distribution name using letters, numbers, '.', '_', or '-'".

Definition validateNonBaseComponentIdentifier (name : string) : result unit :=
  _ ← validateProviderIdentifier name;
  reject_if (bool_decide (name = "base")) "uses reserved root component name".

(** ** Contribution identities *)

Definition ContributionProviderOS : string := "os".
Definition ContributionProviderPython : string := "python".

Definition EnvironmentContributionID (provider : string) : string := "environment/" +:+ provider.
Definition ApplicationID (application : string) : string := "application/" +:+ application.
Definition ApplicationContributionID (application provider : string) : string :=
  ApplicationID application +:+ "/" +:+ provider.
Definition ApplicationExecutableID (application executable : string) : string :=
  ApplicationID application +:+ "/executable/" +:+ executable.

Definition ApplicationContributionOwner (id provider : string) : option string :=
  match split_byte id "/"%char with
  | [kind; application; last] =>
    if bool_decide (kind = "application") && bool_decide (last = provider)
       && is_ok (validateProviderIdentifier application)
    then Some application else None
  | _ => None
  end.

Definition ContributionRuntimeOwner (id provider : string) : string :=
  match ApplicationContributionOwner id provider with
  | Some application => ApplicationID application
  | None => id
  end.

Definition validateContributionProvider (provider : string) : result unit :=
  reject_if (negb (bool_decide (provider = ContributionProviderOS) || bool_decide (provider = ContributionProviderPython)))
    "uses unsupported contribution provider".

Definition ValidateContributionID (id : string) : result unit :=
  let shape := Err "must be base, environment/<provider>, or application/<application>/<provider>" in
  match split_byte id "/"%char with
  | [kind] => if bool_decide (kind = "base") then Ok tt else shape
  | [kind; provider] => if bool_decide (kind = "environment") then validateContributionProvider provider else shape
  | [kind; application; provider] =>
    if bool_decide (kind = "application") then
      _ ← validateProviderIdentifier application;
      validateContributionProvider provider
    else shape
  | _ => shape
  end.

Definition ValidateContributionReference (id : string) : result unit :=
  if is_ok (ValidateContributionID id) then Ok tt else validateProviderIdentifier id.

Example owner_example :
  ApplicationContributionOwner "application/web/python" "python" = Some "web" ∧
  ApplicationContributionOwner "application/web/os" "python" = None ∧
  ContributionRuntimeOwner "environment/os" "os" = "environment/os" ∧
  is_ok (ValidateContributionID "application/Web/os") = false ∧
  is_ok (validatePortableName "nul.txt") = false.
Proof. vm_compute. done. Qed.

(** ** What the identities mean *)

(** A name of the identifier grammar. *)
Definition identifier (name : string) : Prop :=
  ∃ c rest, name = String c rest ∧ is_lower c = true ∧ string_forallb is_identifier_char rest = true.


Lemma star_class p l : denotes (Star (Class p)) l ↔ Forall (λ c, p c = true) l.
Proof.
  split.
  - remember (Star (Class p)) as r eqn:Hr. induction 1 as [| | | | | |r s1 s2 H1 _ _ IH]; try done.
    injection Hr as ->. inversion H1; subst. constructor; auto.
  - induction 1 as [|c l Hc _ IH]; [constructor|]. change (c :: l) with ([c] ++ l). by constructor; [constructor|].
Qed.

Lemma validateProviderIdentifier_ok name : validateProviderIdentifier name = Ok tt ↔ identifier name.
Proof.
  unfold validateProviderIdentifier. rewrite reject_if_ok, negb_false_iff, full_match_spec. unfold providerIdentifierPattern.
  split.
  - inversion 1 as [| |r1 r2 s1 s2 H1 H2 Hr Hs| | | |]; subst. inversion H1 as [|p c Hc| | | | |]; subst.
    destruct name as [|c' rest]; [done|]. simpl in Hs. injection Hs as -> Hs. exists c', rest. split_and!; [done|done|].
    apply star_class in H2. rewrite Hs in H2. rewrite string_forallb_bytes. by apply Forall_bool.
  - intros (c & rest & -> & Hc & Hr). change (String.list_ascii_of_string (String c rest)) with ([c] ++ bytes rest).
    constructor; [by constructor|]. apply star_class, Forall_bool. by rewrite <-string_forallb_bytes.
Qed.

Lemma identifier_char c : is_identifier_char c = true → c ≠ "/"%char ∧ c ≠ zero.
Proof. intros H. split; intros ->; by vm_compute in H. Qed.

Lemma contains_byte_false s b : contains_byte s b = false ↔ b ∉ bytes s.
Proof.
  induction s as [|c s IH]; [split; [intros _ ?%elem_of_nil|]; done|]. simpl.
  change (bytes (String c s)) with (c :: bytes s). rewrite orb_false_iff, bool_decide_eq_false, not_elem_of_cons, IH. naive_solver.
Qed.

(** No identifier contains a separator of identities or of keys. *)
Lemma identifier_without name b : identifier name → b = "/"%char ∨ b = zero → contains_byte name b = false.
Proof.
  intros (c & rest & -> & Hc & Hr) Hb. apply contains_byte_false. change (bytes (String c rest)) with (c :: bytes rest).
  assert (Forall (λ c, is_identifier_char c = true) (c :: bytes rest)) as Hall.
  { constructor; [unfold is_identifier_char; by rewrite Hc|]. rewrite string_forallb_bytes in Hr. by apply Forall_bool. }
  intros Hin. rewrite Forall_forall in Hall. apply Hall, identifier_char in Hin. naive_solver.
Qed.

Lemma split_byte_parts s sep p : p ∈ split_byte s sep → contains_byte p sep = false.
Proof.
  revert p. induction s as [|c s IH]; intros p; simpl; [by intros ->%list_elem_of_singleton|].
  destruct (bool_decide (c = sep)) eqn:Hc.
  - rewrite elem_of_cons. intros [->|H]; [done|by apply IH].
  - destruct (split_byte_cons s sep) as (first & others & Hs). rewrite Hs in *. rewrite elem_of_cons. intros [->|H].
    + simpl. rewrite Hc. apply IH. left.
    + apply IH. by right.
Qed.

Lemma split_application application provider : contains_byte application "/"%char = false →
  contains_byte provider "/"%char = false →
  split_byte (ApplicationContributionID application provider) "/"%char = ["application"; application; provider].
Proof.
  intros Ha Hp. unfold ApplicationContributionID, ApplicationID.
  change ("application/" +:+ application) with ("application" +:+ String "/" application).
  rewrite append_assoc. simpl (String "/" application +:+ _). rewrite split_byte_app by done.
  change ("/" +:+ provider) with (String "/" provider). rewrite split_byte_app by done. by rewrite split_byte_none.
Qed.

Lemma join_three a b c : join [a; b; c] "/" = a +:+ "/" +:+ b +:+ "/" +:+ c.
Proof. done. Qed.

(** The owner is read back from exactly the identities of its contributions. *)
Lemma ApplicationContributionOwner_spec id provider application :
  ApplicationContributionOwner id provider = Some application ↔
    contains_byte provider "/"%char = false ∧ identifier application ∧ id = ApplicationContributionID application provider.
Proof.
  unfold ApplicationContributionOwner. split.
  - destruct (split_byte id "/"%char) as [|kind [|app [|last [|? ?]]]] eqn:Hs; try done.
    destruct (bool_decide (kind = "application")) eqn:Hk; [|done]. destruct (bool_decide (last = provider)) eqn:Hl; [|done].
    destruct (is_ok (validateProviderIdentifier app)) eqn:Hi; [|done]. simpl. intros [= ->].
    apply bool_decide_eq_true in Hk, Hl. subst. apply is_ok_unit, validateProviderIdentifier_ok in Hi.
    split_and!; [|done|].
    + apply (split_byte_parts id "/"%char). rewrite Hs. set_solver.
    + rewrite <-(join_split id "/"%char), Hs, join_three. unfold ApplicationContributionID, ApplicationID. by rewrite append_assoc.
  - intros (Hp & Hi & ->). rewrite split_application; [|apply identifier_without; auto|done].
    assert (is_ok (validateProviderIdentifier application) = true) as ->; [|by rewrite !bool_decide_true by done].
    by apply is_ok_unit, validateProviderIdentifier_ok.
Qed.

Definition contribution_provider (provider : string) : Prop :=
  provider = ContributionProviderOS ∨ provider = ContributionProviderPython.
Lemma validateContributionProvider_ok provider :
  validateContributionProvider provider = Ok tt ↔ contribution_provider provider.
Proof.
  unfold validateContributionProvider, contribution_provider.
  by rewrite reject_if_ok, negb_false_iff, orb_true_iff, !bool_decide_eq_true.
Qed.
Lemma contribution_provider_plain provider b : contribution_provider provider → b = "/"%char ∨ b = zero →
  contains_byte provider b = false.
Proof. by intros [->| ->] [->| ->]. Qed.

(** The canonical contribution identities. *)
Definition contribution (id : string) : Prop :=
  id = "base" ∨
  (∃ provider, contribution_provider provider ∧ id = EnvironmentContributionID provider) ∨
  ∃ application provider, identifier application ∧ contribution_provider provider ∧
    id = ApplicationContributionID application provider.

Lemma ValidateContributionID_ok id : ValidateContributionID id = Ok tt ↔ contribution id.
Proof.
  unfold ValidateContributionID. split.
  - destruct (split_byte id "/"%char) as [|kind [|second [|third [|? ?]]]] eqn:Hs; try done;
      apply (f_equal (λ parts, join parts "/")) in Hs; rewrite join_split in Hs; simpl in Hs;
      case_bool_decide as Hk; try done; subst kind.
    + intros _. by left.
    + rewrite validateContributionProvider_ok. intros Hp. right. left. exists second. split; [done|]. by rewrite Hs.
    + intros ([] & Ha%validateProviderIdentifier_ok & Hp%validateContributionProvider_ok)%bind_ok. right. right.
      exists second, third. split_and!; [done|done|]. rewrite Hs. unfold ApplicationContributionID, ApplicationID.
      by rewrite append_assoc.
  - intros [->|[(p & Hp & ->)|(a & p & Ha & Hp & ->)]]; [done| |].
    + assert (split_byte (EnvironmentContributionID p) "/"%char = ["environment"; p]) as ->.
      { unfold EnvironmentContributionID. change ("environment/" +:+ p) with ("environment" +:+ String "/" p).
        rewrite split_byte_app by done. rewrite split_byte_none; [done|]. apply contribution_provider_plain; auto. }
      by rewrite bool_decide_true, validateContributionProvider_ok by done.
    + rewrite split_application; [|apply identifier_without; auto|apply contribution_provider_plain; auto].
      rewrite bool_decide_true by done. apply bind_ok. exists tt.
      by rewrite validateProviderIdentifier_ok, validateContributionProvider_ok.
Qed.

Lemma contains_byte_app s t b : contains_byte (s +:+ t) b = contains_byte s b || contains_byte t b.
Proof. induction s as [|c s IH]; [done|]. simpl. by rewrite IH, orb_assoc. Qed.

(** A reference contains no key separator. *)
Lemma reference_without_zero id : ValidateContributionReference id = Ok tt → contains_byte id zero = false.
Proof.
  unfold ValidateContributionReference. destruct (is_ok (ValidateContributionID id)) eqn:Hid.
  - intros _. apply is_ok_unit, ValidateContributionID_ok in Hid as [->|[(p & Hp & ->)|(a & p & Ha & Hp & ->)]]; [done| |];
      unfold ApplicationContributionID, ApplicationID, EnvironmentContributionID; rewrite !contains_byte_app;
      rewrite (contribution_provider_plain p) by auto; [done|]. by rewrite (identifier_without a) by auto.
  - intros H%validateProviderIdentifier_ok. apply identifier_without; auto.
Qed.
