(* ===== verification/ProviderPlan.v ===== *)
(** * Provider plans

    [internal/providers/plan.go]: the nodes of a provider plan, their outputs and
    requirements, the structural edges between them, and the checks a plan and
    the supplier edges selected at run time must pass.

    A Go slice whose nil value matters is an [option (list _)].  The value of an
    envelope is an object of the canonical encoder, or nil. *)

From Stdlib Require Import Ascii.
From S2P Require Import Prelude GoText Identifiers Contributions Canonical ProviderGraph.

Open Scope Z_scope.

(** ** Data *)

Definition ProviderPlanSchemaV1 : string := "provider-plan-v1".
Definition OutputKindExecutable : string := "executable".
Definition ValidationPolicyCompatible : string := "compatible".
Definition ValidationPolicyUnchanged : string := "unchanged".

Definition ComponentType : Type := string.
Definition ComponentTypeBase : ComponentType := "base".
Definition ComponentTypePython : ComponentType := "python".
Definition ComponentTypeAPT : ComponentType := "apt".

Definition Object : Type := list (string * goValue).
Definition object_value (value : option Object) : goValue :=
  match value with Some entries => Map entries | None => Nil end.

Record Envelope := { env_Schema : string; env_Value : option Object }.
Definition envelope_value (data : Envelope) : goValue :=
  Struct [(FieldInfo "Schema" true "schema", Str (env_Schema data));
          (FieldInfo "Value" true "value", object_value (env_Value data))].

Record CanonicalProviderRequest := {
  req_Schema : string;
  req_Provider : ComponentType;
  req_Value : option Object
}.
Definition request_value (request : CanonicalProviderRequest) : goValue :=
  Struct [(FieldInfo "Schema" true "schema", Str (req_Schema request));
          (FieldInfo "Provider" true "provider", Str (req_Provider request));
          (FieldInfo "Value" true "value", object_value (req_Value request))].

Record OutputDeclaration := {
  SupplierComponent : string;
  out_Name : string;
  out_Kind : string;
  CandidatePath : string;
  Provenance : Envelope
}.
Record ExecutableRequirement := {
  er_ID : string;
  er_Command : string;
  er_VersionConstraint : string;
  er_Supplier : string;
  er_ValidationPolicy : string
}.
Record FileRequirement := {
  fr_ID : string;
  fr_Path : string;
  fr_Kind : string;
  fr_ExpectedSHA256 : string;
  fr_ValidationPolicy : string
}.
Record RequirementDeclaration := {
  Executables : option (list ExecutableRequirement);
  Files : option (list FileRequirement);
  ProviderData : Envelope
}.
Record NodeSpec := {
  node_ID : NodeID;
  node_Provider : ComponentType;
  node_Components : option (list string);
  node_Request : CanonicalProviderRequest;
  node_Outputs : option (list OutputDeclaration);
  node_Requirements : RequirementDeclaration
}.
Record ProviderPlanV1 := {
  plan_Schema : string;
  plan_Nodes : option (list NodeSpec);
  plan_Edges : option (list ProviderEdgeV1)
}.

(** The elements a [range] or an index of a slice sees. *)
Definition elements {A} (slice : option (list A)) : list A := default [] slice.
Definition components_of (node : NodeSpec) : list string := elements (node_Components node).
Definition outputs_of (node : NodeSpec) : list OutputDeclaration := elements (node_Outputs node).
Definition executables_of (node : NodeSpec) : list ExecutableRequirement :=
  elements (Executables (node_Requirements node)).

(** ** Parts of a node *)

Definition validateComponentProvider (provider : ComponentType) : result unit :=
  reject_if (negb (bool_decide (provider ∈ [ComponentTypeBase; ComponentTypeAPT; ComponentTypePython])))
    "unsupported component provider".

Definition CanonicalProviderRequestBytes (request : CanonicalProviderRequest) : result (list ascii) :=
  _ ← validateComponentProvider (req_Provider request);
  _ ← reject_if (bool_decide (req_Schema request = "")) "canonical provider request schema is required";
  _ ← reject_if (bool_decide (req_Value request = None)) "canonical provider request value must be an object";
  wrap (Marshal (request_value request)) "canonical provider request".

Definition validateCanonicalProviderData (data : Envelope) : result unit :=
  _ ← reject_if (bool_decide (env_Schema data = "") || bool_decide (env_Value data = None))
        "must contain a schema and object value";
  _ ← Marshal (envelope_value data);
  Ok tt.

Definition validateNodeID (id : NodeID) (provider : ComponentType) (components : list string) : result unit :=
  _ ← validateComponentProvider provider;
  if bool_decide (provider = ComponentTypeBase) then
    reject_if (negb (bool_decide (id = "base") && bool_decide (components = ["base"])))
      "base provider node must use ID and component base"
  else if bool_decide (provider = ComponentTypeAPT) then
    _ ← reject_if (negb (bool_decide (id = "apt")) || bool_decide (components = []))
          "APT provider node must use ID apt and contain at least one component";
    reject_if (bool_decide ("base" ∈ components)) "APT provider node cannot claim the reserved base component"
  else
    match components with
    | [component] =>
      let expected :=
        match ApplicationContributionOwner component ContributionProviderPython with
        | Some application => "python/" +:+ ApplicationID application
        | None => "python/" +:+ component
        end in
      _ ← reject_if (negb (bool_decide (id = expected)))
            "Python provider node must use python/<component> or python/application/<application>";
      reject_if (bool_decide (component = "base")) "Python provider node cannot claim the reserved base component"
    | _ => Err "Python provider node must contain one application contribution"
    end.

Definition validateRequirementID (id : string) (seen : gset string) : result (gset string) :=
  _ ← ValidateProviderIdentifier id;
  _ ← reject_if (bool_decide (id ∈ seen)) "requirement ID is used more than once";
  Ok ({[id]} ∪ seen).

Definition validateValidationPolicy (policy : string) : result unit :=
  reject_if (negb (bool_decide (policy = ValidationPolicyCompatible) || bool_decide (policy = ValidationPolicyUnchanged)))
    "validation policy must be compatible or unchanged".

Definition validateAbsoluteLinuxPath (value : string) : result unit :=
  reject_if (bool_decide (value = "") || negb (path_is_abs value) || negb (bool_decide (path_clean value = value))
             || contains_byte value "\"%char)
    "must be a normalized absolute Linux path".

Definition three_way (left right : string) : Z :=
  if String.ltb left right then -1 else if String.ltb right left then 1 else 0.
Definition compareOutputDeclarations (left right : OutputDeclaration) : Z :=
  if String.ltb (SupplierComponent left) (SupplierComponent right) then -1
  else if String.ltb (SupplierComponent right) (SupplierComponent left) then 1
  else three_way (out_Name left) (out_Name right).
Definition compareProviderEdges (left right : ProviderEdgeV1) : Z :=
  if String.ltb (Supplier left) (Supplier right) then -1
  else if String.ltb (Supplier right) (Supplier left) then 1
  else if String.ltb (Consumer left) (Consumer right) then -1
  else if String.ltb (Consumer right) (Consumer left) then 1
  else three_way (RequirementID left) (RequirementID right).

(** ** Requirements *)

(** The comparison of neighbours, [index > 0 && ...]. *)
Definition follows {A} (unordered : A → A → bool) (previous : option A) (current : A) : bool :=
  match previous with Some p => negb (unordered p current) | None => true end.

Fixpoint check_executables (previous : option ExecutableRequirement) (requirements : list ExecutableRequirement)
    (seen : gset string) : result (gset string) :=
  match requirements with
  | [] => Ok seen
  | requirement :: rest =>
    _ ← reject_if (negb (follows (λ p r, string_geb (er_ID p) (er_ID r)) previous requirement))
          "executable requirements must be unique and sorted by ID";
    seen ← validateRequirementID (er_ID requirement) seen;
    _ ← ValidateProviderIdentifier (er_Command requirement);
    _ ← (if bool_decide (er_Supplier requirement = "") then Ok tt
         else ValidateContributionReference (er_Supplier requirement));
    _ ← validateValidationPolicy (er_ValidationPolicy requirement);
    check_executables (Some requirement) rest seen
  end.

Fixpoint check_files (previous : option FileRequirement) (requirements : list FileRequirement)
    (seen : gset string) : result (gset string) :=
  match requirements with
  | [] => Ok seen
  | requirement :: rest =>
    _ ← reject_if (negb (follows (λ p r, string_geb (fr_ID p) (fr_ID r)) previous requirement))
          "file requirements must be unique and sorted by ID";
    seen ← validateRequirementID (fr_ID requirement) seen;
    _ ← validateAbsoluteLinuxPath (fr_Path requirement);
    _ ← ValidateProviderIdentifier (fr_Kind requirement);
    _ ← (if bool_decide (fr_ExpectedSHA256 requirement = "") then Ok tt
         else ValidateDigest (fr_ExpectedSHA256 requirement));
    _ ← validateValidationPolicy (fr_ValidationPolicy requirement);
    check_files (Some requirement) rest seen
  end.

Definition ValidateRequirementDeclaration (declaration : RequirementDeclaration) : result unit :=
  match Executables declaration, Files declaration with
  | Some executables, Some files =>
    _ ← validateCanonicalProviderData (ProviderData declaration);
    seen ← check_executables None executables ∅;
    _ ← check_files None files seen;
    Ok tt
  | _, _ => Err "requirement declaration executables and files must use arrays"
  end.

(** ** Nodes *)

Definition check_component (previous : option string) (component : string) : result unit :=
  _ ← ValidateContributionReference component;
  reject_if (negb (follows string_geb previous component)) "node components must be unique and sorted".

Definition check_output (components : gset string) (previous : option OutputDeclaration) (output : OutputDeclaration)
    : result unit :=
  _ ← reject_if (negb (follows (λ p o, 0 <=? compareOutputDeclarations p o) previous output))
        "node outputs must be unique and sorted by supplier component and name";
  _ ← reject_if (negb (bool_decide (SupplierComponent output ∈ components)))
        "output references a component outside its node";
  _ ← ValidateProviderIdentifier (out_Name output);
  _ ← reject_if (negb (bool_decide (out_Kind output = OutputKindExecutable))) "output kind must be executable";
  _ ← validateAbsoluteLinuxPath (CandidatePath output);
  validateCanonicalProviderData (Provenance output).

Definition ValidateNodeSpec (node : NodeSpec) : result unit :=
  _ ← validateNodeID (node_ID node) (node_Provider node) (components_of node);
  match node_Components node, node_Outputs node, Executables (node_Requirements node), Files (node_Requirements node) with
  | Some components, Some outputs, Some _, Some _ =>
    _ ← check_each check_component None components;
    _ ← reject_if (negb (bool_decide (req_Provider (node_Request node) = node_Provider node)))
          "provider request does not match node provider";
    _ ← CanonicalProviderRequestBytes (node_Request node);
    _ ← check_each (check_output (list_to_set components)) None outputs;
    ValidateRequirementDeclaration (node_Requirements node)
  | _, _, _, _ => Err "node components, outputs, and requirements must use arrays"
  end.

(** ** Cycles *)

Inductive mark := Visiting | Done.
#[export] Instance mark_eq_dec : EqDecision mark.
Proof. solve_decision. Defined.

(** Running out of fuel is a result of its own; it does not happen, because the
    nodes being visited are all different. *)
Definition out_of_fuel : string := "out of fuel".

Section visit.
Context (adjacency : gmap NodeID (list NodeID)).

(** [for _, next := range adjacency[node] { visit(next) }]. *)
Fixpoint visit_each (visit : NodeID → gmap NodeID mark → result (gmap NodeID mark)) (consumers : list NodeID)
    (state : gmap NodeID mark) : result (gmap NodeID mark) :=
  match consumers with
  | [] => Ok state
  | consumer :: rest => state ← visit consumer state; visit_each visit rest state
  end.

Fixpoint visit (fuel : nat) (node : NodeID) (state : gmap NodeID mark) : result (gmap NodeID mark) :=
  match fuel with
  | O => Err out_of_fuel
  | S fuel =>
    match state !! node with
    | Some Visiting => Err "provider plan contains a structural cycle"
    | Some Done => Ok state
    | None =>
      state ← visit_each (visit fuel) (default [] (adjacency !! node)) (<[node := Visiting]> state);
      Ok (<[node := Done]> state)
    end
  end.
End visit.

Definition rejectProviderPlanCycles (nodes : list NodeSpec) (adjacency : gmap NodeID (list NodeID)) : result unit :=
  _ ← visit_each (visit adjacency (S (length nodes))) (map node_ID nodes) ∅;
  Ok tt.

(** ** Plans *)

Definition edgeRequirementKey (consumer : NodeID) (requirementID : string) : string :=
  consumer +:+ String zero requirementID.

Definition nodeDeclaresOutput (node : NodeSpec) (qualified : QualifiedOutput) : bool :=
  existsb (λ output, bool_decide (SupplierComponent output = Component qualified)
                     && bool_decide (out_Name output = Name qualified)) (outputs_of node).

(** What the loop over the nodes fills in. *)
Record plan_index := PlanIndex {
  ix_nodes : gmap NodeID NodeSpec;
  ix_componentNodes : gmap string NodeID;
  ix_baseCount : Z
}.

Fixpoint claim_components (node : NodeID) (components : list string) (componentNodes : gmap string NodeID)
    : result (gmap string NodeID) :=
  match components with
  | [] => Ok componentNodes
  | component :: rest =>
    _ ← reject_if (bool_decide (is_Some (componentNodes !! component))) "component belongs to two nodes";
    claim_components node rest (<[component := node]> componentNodes)
  end.

Fixpoint check_nodes (previous : option NodeSpec) (nodes : list NodeSpec) (ix : plan_index) : result plan_index :=
  match nodes with
  | [] => Ok ix
  | node :: rest =>
    _ ← reject_if (negb (follows (λ p n, string_geb (node_ID p) (node_ID n)) previous node))
          "provider plan nodes must be unique and sorted by node ID";
    _ ← ValidateNodeSpec node;
    componentNodes ← claim_components (node_ID node) (components_of node) (ix_componentNodes ix);
    check_nodes (Some node) rest
      (PlanIndex (<[node_ID node := node]> (ix_nodes ix)) componentNodes
         (if bool_decide (node_ID node = "base") then ix_baseCount ix + 1 else ix_baseCount ix))
  end.

(** The requirements of all nodes that [selects] picks, by key. *)
Definition index_requirements (selects : ExecutableRequirement → bool) (nodes : list NodeSpec)
    : gmap string ExecutableRequirement :=
  fold_left (λ requirements node,
      fold_left (λ requirements requirement,
          if selects requirement
          then <[edgeRequirementKey (node_ID node) (er_ID requirement) := requirement]> requirements
          else requirements) (executables_of node) requirements) nodes ∅.
Definition explicit_requirement (requirement : ExecutableRequirement) : bool :=
  negb (bool_decide (er_Supplier requirement = "")).

Definition add_consumer (edge : ProviderEdgeV1) (adjacency : gmap NodeID (list NodeID)) : gmap NodeID (list NodeID) :=
  <[Supplier edge := default [] (adjacency !! Supplier edge) ++ [Consumer edge]]> adjacency.

(** A loop over sorted edges: [check] is what its body tests, and gives the key
    of the requirement; the body ends by recording the key and the edge. *)
Fixpoint edge_loop (check : gset string → ProviderEdgeV1 → result string) (unsorted : string)
    (previous : option ProviderEdgeV1) (edges : list ProviderEdgeV1) (seen : gset string)
    (adjacency : gmap NodeID (list NodeID)) : result (gset string * gmap NodeID (list NodeID)) :=
  match edges with
  | [] => Ok (seen, adjacency)
  | edge :: rest =>
    _ ← reject_if (negb (follows (λ p e, 0 <=? compareProviderEdges p e) previous edge)) unsorted;
    key ← check seen edge;
    edge_loop check unsorted (Some edge) rest ({[key]} ∪ seen) (add_consumer edge adjacency)
  end.

Definition check_edge (nodes : gmap NodeID NodeSpec) (componentNodes : gmap string NodeID)
    (explicitRequirements : gmap string ExecutableRequirement) (seenEdges : gset string) (edge : ProviderEdgeV1)
    : result string :=
  match nodes !! Supplier edge, nodes !! Consumer edge with
  | Some supplier, Some _ =>
    _ ← reject_if (bool_decide (Supplier edge = Consumer edge)) "provider edge is a self-edge";
    _ ← reject_if (bool_decide (Consumer edge = "base")) "base root cannot consume provider outputs";
    let key := edgeRequirementKey (Consumer edge) (RequirementID edge) in
    match explicitRequirements !! key with
    | None => Err "provider edge does not match an explicit executable requirement"
    | Some requirement =>
      _ ← reject_if (negb (bool_decide (componentNodes !! er_Supplier requirement = Some (Supplier edge))))
            "provider edge does not match supplier component";
      _ ← reject_if (negb (bool_decide (Component (Output edge) = er_Supplier requirement))
                     || negb (bool_decide (Name (Output edge) = er_Command requirement)))
            "provider edge does not select the required output";
      _ ← reject_if (negb (nodeDeclaresOutput supplier (Output edge))) "provider edge references undeclared output";
      _ ← reject_if (bool_decide (key ∈ seenEdges)) "explicit requirement has multiple edges";
      Ok key
    end
  | _, _ => Err "provider edge references an unknown node"
  end.

(** The loop over the keys of a map of requirements; the order in which Go
    visits them decides only which key the message names. *)
Definition all_seen (requirements : gmap string ExecutableRequirement) (seen : gset string) : bool :=
  bool_decide (map_Forall (λ key _, key ∈ seen) requirements).

Definition ValidateProviderPlanV1 (plan : ProviderPlanV1) : result unit :=
  _ ← reject_if (negb (bool_decide (plan_Schema plan = ProviderPlanSchemaV1))) "provider plan schema must be provider-plan-v1";
  match plan_Nodes plan, plan_Edges plan with
  | Some nodes, Some edges =>
    ix ← check_nodes None nodes (PlanIndex ∅ ∅ 0);
    _ ← reject_if (negb (ix_baseCount ix =? 1)) "provider plan must contain exactly one base root";
    let explicitRequirements := index_requirements explicit_requirement nodes in
    '(seenEdges, adjacency) ←
      edge_loop (check_edge (ix_nodes ix) (ix_componentNodes ix) explicitRequirements)
        "provider plan edges must be unique and sorted by supplier, consumer, and requirement ID" None edges ∅ ∅;
    _ ← reject_if (negb (all_seen explicitRequirements seenEdges)) "explicit executable requirement has no structural edge";
    rejectProviderPlanCycles nodes adjacency
  | _, _ => Err "provider plan nodes and edges must use arrays"
  end.

Definition node_le (left right : NodeSpec) : Prop := String.le (node_ID left) (node_ID right).
#[export] Instance node_le_dec left right : Decision (node_le left right).
Proof. unfold node_le. apply _. Defined.
Definition edge_le (left right : ProviderEdgeV1) : Prop := compareProviderEdges left right ≤ 0.
#[export] Instance edge_le_dec left right : Decision (edge_le left right).
Proof. unfold edge_le. apply _. Defined.

Definition NormalizeProviderPlanV1 (plan : ProviderPlanV1) : ProviderPlanV1 :=
  {| plan_Schema := plan_Schema plan;
     plan_Nodes := Some (merge_sort node_le (elements (plan_Nodes plan)));
     plan_Edges := Some (merge_sort edge_le (elements (plan_Edges plan))) |}.

(** [internal/providers/graph.go]. *)
Definition StableProviderInitializationOrder (plan : ProviderPlanV1) : result (list NodeID) :=
  _ ← ValidateProviderPlanV1 plan;
  StableProviderNodeOrder (map node_ID (elements (plan_Nodes plan))) (elements (plan_Edges plan)).

(** ** Selected edges *)

(** [for index, node := range order { rank[node] = index }]. *)
Fixpoint rank_nodes (index : Z) (order : list NodeID) (rank : gmap NodeID Z) : gmap NodeID Z :=
  match order with
  | [] => rank
  | node :: rest => rank_nodes (index + 1) rest (<[node := index]> rank)
  end.

Definition check_selected (nodes : gmap NodeID NodeSpec) (requirements : gmap string ExecutableRequirement)
    (explicit : gmap string ProviderEdgeV1) (rank : gmap NodeID Z) (seen : gset string) (edge : ProviderEdgeV1)
    : result string :=
  match nodes !! Supplier edge, nodes !! Consumer edge with
  | Some supplier, Some _ =>
    _ ← reject_if (bool_decide (Supplier edge = Consumer edge) || bool_decide (Consumer edge = "base"))
          "provider selected edge is invalid";
    let key := edgeRequirementKey (Consumer edge) (RequirementID edge) in
    match requirements !! key with
    | None => Err "provider selected edge does not match an executable requirement"
    | Some requirement =>
      _ ← reject_if (bool_decide (key ∈ seen)) "provider executable requirement has multiple selected edges";
      _ ← reject_if (negb (bool_decide (Name (Output edge) = er_Command requirement))
                     || explicit_requirement requirement
                        && negb (bool_decide (Component (Output edge) = er_Supplier requirement)))
            "provider selected edge does not match its executable requirement";
      _ ← reject_if (negb (nodeDeclaresOutput supplier (Output edge)))
            "provider selected edge references undeclared output";
      _ ← reject_if (match explicit !! key with Some expected => negb (bool_decide (edge = expected)) | None => false end)
            "provider selected edge for explicit requirement does not match the structural plan";
      _ ← reject_if (default 0 (rank !! Consumer edge) <=? default 0 (rank !! Supplier edge))
            "provider selected edge does not select an earlier planned node";
      Ok key
    end
  | _, _ => Err "provider selected edge is invalid"
  end.

Definition ValidateProviderSelectedEdgesV1 (plan : ProviderPlanV1) (selected : option (list ProviderEdgeV1)) : result unit :=
  _ ← ValidateProviderPlanV1 plan;
  match selected with
  | None => Err "provider selected edges must use an array"
  | Some selected =>
    order ← StableProviderInitializationOrder plan;
    let planNodes := elements (plan_Nodes plan) in
    let nodes : gmap NodeID NodeSpec :=
      fold_left (λ nodes node, <[node_ID node := node]> nodes) planNodes ∅ in
    let requirements := index_requirements (λ _, true) planNodes in
    let explicit : gmap string ProviderEdgeV1 :=
      fold_left (λ explicit edge, <[edgeRequirementKey (Consumer edge) (RequirementID edge) := edge]> explicit)
        (elements (plan_Edges plan)) ∅ in
    '(seen, adjacency) ←
      edge_loop (check_selected nodes requirements explicit (rank_nodes 0 order ∅))
        "provider selected edges must be unique and sorted by supplier, consumer, and requirement ID" None selected ∅ ∅;
    _ ← reject_if (negb (all_seen requirements seen)) "provider executable requirement has no selected edge";
    wrap (rejectProviderPlanCycles planNodes adjacency) "provider selected edges"
  end.

(** ** An example: a Python application on the base image *)

Definition example_envelope (schema : string) : Envelope := {| env_Schema := schema; env_Value := Some [] |}.
Definition example_base : NodeSpec := {|
  node_ID := "base"; node_Provider := ComponentTypeBase; node_Components := Some ["base"];
  node_Request := {| req_Schema := "base-provider-request-v1"; req_Provider := ComponentTypeBase; req_Value := Some [] |};
  node_Outputs := Some [{| SupplierComponent := "base"; out_Name := "python"; out_Kind := OutputKindExecutable;
    CandidatePath := "/usr/local/bin/python"; Provenance := example_envelope "base-export-v1" |}];
  node_Requirements := {| Executables := Some []; Files := Some []; ProviderData := example_envelope "base-requirements-v1" |}
|}.
Definition example_python : NodeSpec := {|
  node_ID := "python/application/web"; node_Provider := ComponentTypePython;
  node_Components := Some ["application/web/python"];
  node_Request := {| req_Schema := "python-provider-request-v1"; req_Provider := ComponentTypePython; req_Value := Some [] |};
  node_Outputs := Some [];
  node_Requirements := {|
    Executables := Some [{| er_ID := "interpreter"; er_Command := "python"; er_VersionConstraint := "";
      er_Supplier := "base"; er_ValidationPolicy := ValidationPolicyCompatible |}];
    Files := Some []; ProviderData := example_envelope "python-requirements-v1" |}
|}.
Definition example_edge : ProviderEdgeV1 :=
  ProviderEdge "base" "python/application/web" "interpreter" (Qualified "base" "python").
Definition example_plan : ProviderPlanV1 := {|
  plan_Schema := ProviderPlanSchemaV1; plan_Nodes := Some [example_base; example_python]; plan_Edges := Some [example_edge] |}.

Example example_plan_accepted :
  ValidateProviderPlanV1 example_plan = Ok tt ∧
  StableProviderInitializationOrder example_plan = Ok ["base"; "python/application/web"] ∧
  ValidateProviderSelectedEdgesV1 example_plan (Some [example_edge]) = Ok tt ∧
  is_ok (ValidateProviderSelectedEdgesV1 example_plan (Some [])) = false.
Proof. vm_compute. done. Qed.
