(* ===== verification/ProviderCycles.v ===== *)
(** * The search for cycles in a provider plan

    The depth-first search of [rejectProviderPlanCycles] never runs out of fuel,
    and succeeds exactly on the graphs whose nodes can be ranked so that every
    edge goes up: the graphs that have an initialization order. *)

From S2P Require Import Prelude GoText Contributions Canonical ProviderGraph ProviderGraphFacts ProviderPlan.

Section search.
Context (adjacency : gmap NodeID (list NodeID)) (universe : list NodeID).
Definition consumers (n : NodeID) : list NodeID := default [] (adjacency !! n).
Hypothesis closed : ∀ n c, c ∈ consumers n → c ∈ universe.

Definition unmarked (state : gmap NodeID mark) : nat := length (filter (λ n, state !! n = None) universe).

(** Done nodes have done consumers, and can be ranked above them. *)
Definition ranked (state : gmap NodeID mark) : Prop :=
  ∃ rank : NodeID → nat, ∀ n c, state !! n = Some Done → c ∈ consumers n →
    state !! c = Some Done ∧ (rank c < rank n)%nat.
Definition extends (before after : gmap NodeID mark) : Prop :=
  before ⊆ after ∧ ∀ n, after !! n = Some Visiting → before !! n = Some Visiting.
Definition rising (rank : NodeID → nat) : Prop := ∀ n c, c ∈ consumers n → (rank n < rank c)%nat.
(** A search that fails had met one of its goals, or a node above it, before. *)
Definition search_spec (state : gmap NodeID mark) (goal : NodeID → Prop) (r : result (gmap NodeID mark)) : Prop :=
  match r with
  | Ok state' => ranked state' ∧ extends state state' ∧ ∀ n, goal n → state' !! n = Some Done
  | Err e => e ≠ out_of_fuel ∧ ∀ rank, rising rank → ∃ n v, goal n ∧ state !! v = Some Visiting ∧ (rank n ≤ rank v)%nat
  end.

#[local] Instance extends_refl : Reflexive extends.
Proof using Type. by intros state. Qed.
#[local] Instance extends_trans : Transitive extends.
Proof using Type. intros a b c [H1 H2] [H3 H4]. split; [by etrans|auto]. Qed.

Lemma unmarked_extends state state' : state ⊆ state' → (unmarked state' ≤ unmarked state)%nat.
Proof using Type.
  clear closed. intros Hs. unfold unmarked. induction universe as [|n l IH]; [done|]. rewrite !filter_cons.
  destruct (decide (state !! n = None)) as [Hn|Hn], (decide (state' !! n = None)) as [Hn'|Hn']; simpl; try lia.
  exfalso. apply Hn. by eapply lookup_weaken_None.
Qed.
Lemma unmarked_insert state n m : n ∈ universe → state !! n = None → (unmarked (<[n:=m]> state) < unmarked state)%nat.
Proof using Type.
  clear closed. intros Hn Hs.
  assert (∀ x, (<[n:=m]> state) !! x = None ↔ x ≠ n ∧ state !! x = None) as Hx.
  { intros x. rewrite lookup_insert_None. naive_solver. }
  assert (∀ l, length (filter (λ x, (<[n:=m]> state) !! x = None) l) ≤ length (filter (λ x, state !! x = None) l))%nat as Hle.
  { intros l. induction l as [|y l IH]; [done|]. rewrite !filter_cons.
    destruct (decide (state !! y = None)), (decide ((<[n:=m]> state) !! y = None)) as [Hy|]; simpl; try lia.
    by apply Hx in Hy as [_ ?]. }
  unfold unmarked. induction universe as [|x l IH]; [by apply elem_of_nil in Hn|]. rewrite !filter_cons.
  specialize (Hle l). apply elem_of_cons in Hn as [->|Hn].
  - rewrite (decide_True (P := state !! x = None)) by done. rewrite decide_False; [simpl; lia|].
    intros [? _]%Hx. done.
  - specialize (IH Hn). destruct (decide (state !! x = None)), (decide ((<[n:=m]> state) !! x = None)) as [Hy|]; simpl; try lia.
    by apply Hx in Hy as [_ ?].
Qed.

Lemma visit_each_spec (step : NodeID → gmap NodeID mark → result (gmap NodeID mark)) l bound state :
  (∀ node state, node ∈ universe → (unmarked state < bound)%nat → ranked state → search_spec state (eq node) (step node state)) →
  (∀ n, n ∈ l → n ∈ universe) → (unmarked state < bound)%nat → ranked state →
  search_spec state (λ n, n ∈ l) (visit_each step l state).
Proof using Type.
  intros Hstep. revert state. induction l as [|n l IH]; intros state Hl Hu Hr; simpl.
  { split_and!; [done|done|by intros ? ?%elem_of_nil]. }
  pose proof (Hstep n state (Hl n (list_elem_of_here _ _)) Hu Hr) as Hs. destruct (step n state) as [state1|e]; simpl in *.
  - destruct Hs as (Hr1 & He1 & Hn). specialize (IH state1 (λ m Hm, Hl m (list_elem_of_further _ _ _ Hm))).
    assert (unmarked state1 < bound)%nat as Hu1 by (pose proof (unmarked_extends _ _ (proj1 He1)); lia).
    specialize (IH Hu1 Hr1). destruct (visit_each step l state1) as [state2|e]; simpl in *.
    + destruct IH as (Hr2 & He2 & Hl2). split_and!; [done|by etrans|]. intros m [->|Hm]%elem_of_cons; [|by apply Hl2].
      eapply lookup_weaken; [by apply Hn|apply He2].
    + destruct IH as [Hne IH]. split; [done|]. intros rank Hrank. destruct (IH rank Hrank) as (m & v & Hm & Hv & ?).
      exists m, v. split_and!; [by right|by apply He1|done].
  - destruct Hs as [Hne Hs]. split; [done|]. intros rank Hrank. destruct (Hs rank Hrank) as (m & v & <- & Hv & ?).
    exists n, v. split_and!; [left|done|done].
Qed.

Lemma ranked_insert_visiting state n : state !! n = None → ranked state → ranked (<[n:=Visiting]> state).
Proof using Type.
  intros Hn (rank & Hr). exists rank. intros m c Hm Hc. destruct (decide (m = n)) as [->|Hmn].
  { by rewrite lookup_insert_eq in Hm. }
  rewrite lookup_insert_ne in Hm by done. destruct (Hr m c Hm Hc) as [Hcd ?]. split; [|done].
  rewrite lookup_insert_ne; [done|]. congruence.
Qed.

(** A node whose consumers are done can be ranked above them. *)
Lemma ranked_insert_done state n : state !! n = Some Visiting →
  (∀ c, c ∈ consumers n → state !! c = Some Done) → ranked state → ranked (<[n:=Done]> state).
Proof using Type.
  intros Hn Hc (rank & Hr).
  exists (λ m, if decide (m = n) then S (sum_list (map rank (consumers n))) else rank m).
  intros m c Hm Hmc. assert (state !! c = Some Done) as Hcd.
  { destruct (decide (m = n)) as [->|Hmn]; [by apply Hc|]. rewrite lookup_insert_ne in Hm by done. by apply (Hr m). }
  assert (c ≠ n) as Hcn by congruence. split; [by rewrite lookup_insert_ne|]. rewrite (decide_False (P := c = n)) by done.
  destruct (decide (m = n)) as [->|Hmn].
  - clear -Hmc. induction (consumers n) as [|x l IH]; [by apply elem_of_nil in Hmc|].
    apply elem_of_cons in Hmc as [->|Hmc]; simpl; [lia|]. specialize (IH Hmc). lia.
  - rewrite lookup_insert_ne in Hm by done. by apply (Hr m).
Qed.

Lemma visit_spec fuel node state :
  node ∈ universe → (unmarked state < fuel)%nat → ranked state → search_spec state (eq node) (visit adjacency fuel node state).
Proof using closed.
  revert node state. induction fuel as [|fuel IH]; intros node state Hin Hu Hr; [lia|]. simpl.
  destruct (state !! node) as [[]|] eqn:Hnode; simpl.
  - split; [done|]. intros rank _. by exists node, node.
  - split_and!; [done|done|by intros ? <-].
  - set (state1 := <[node:=Visiting]> state).
    assert (search_spec state1 (λ n, n ∈ consumers node) (visit_each (visit adjacency fuel) (consumers node) state1)) as Hs.
    { apply (visit_each_spec _ _ fuel); [done|intros c; apply closed| |by apply ranked_insert_visiting].
      pose proof (unmarked_insert state node Visiting Hin Hnode). unfold state1. lia. }
    assert (state ⊆ state1) as Hsub by (by apply insert_subseteq).
    destruct (visit_each _ _ state1) as [state2|e]; simpl in *.
    + destruct Hs as (Hr2 & [He2 Hv2] & Hc). assert (state2 !! node = Some Visiting) as Hn2.
      { eapply lookup_weaken; [|exact He2]. unfold state1. apply lookup_insert_eq. }
      split_and!; [by apply ranked_insert_done| |by intros ? <-; apply lookup_insert_eq]. split.
      * apply insert_subseteq_r; [done|by etrans].
      * intros n Hn. destruct (decide (n = node)) as [->|Hne]; [by rewrite lookup_insert_eq in Hn|].
        rewrite lookup_insert_ne in Hn by done. apply Hv2 in Hn. unfold state1 in Hn. by rewrite lookup_insert_ne in Hn.
    + destruct Hs as [Hne Hs]. split; [done|]. intros rank Hrank. destruct (Hs rank Hrank) as (c & v & Hc & Hv & Hle).
      specialize (Hrank node c Hc). unfold state1 in Hv. destruct (decide (v = node)) as [->|Hvn]; [lia|].
      rewrite lookup_insert_ne in Hv by done. exists node, v. split_and!; [done|done|lia].
Qed.
End search.

(** ** The whole search *)

Section cycles.
Context (nodes : list NodeSpec) (edges : list ProviderEdgeV1) (adjacency : gmap NodeID (list NodeID)).
Hypothesis adjacency_of : ∀ s, consumers adjacency s = consumers_of edges s.
Hypothesis known : endpoints_known (map node_ID nodes) edges.

Lemma consumer_iff n c : c ∈ consumers adjacency n ↔ ∃ e, e ∈ edges ∧ Supplier e = n ∧ Consumer e = c.
Proof using adjacency_of.
  rewrite adjacency_of. unfold consumers_of. rewrite list_elem_of_fmap. setoid_rewrite list_elem_of_filter. naive_solver.
Qed.

Lemma consumers_closed n c : c ∈ consumers adjacency n → c ∈ map node_ID nodes.
Proof using adjacency_of known. intros (e & He & _ & <-)%consumer_iff. by apply known. Qed.

Lemma search_all : search_spec adjacency ∅ (λ n, n ∈ map node_ID nodes)
  (visit_each (visit adjacency (S (length nodes))) (map node_ID nodes) ∅).
Proof using adjacency_of known.
  apply (visit_each_spec _ (map node_ID nodes) _ _ (S (length nodes))).
  - intros node state. apply visit_spec. exact consumers_closed.
  - done.
  - unfold unmarked. apply Nat.lt_succ_r. etrans; [apply length_filter|]. by rewrite length_map.
  - by exists (λ _, 0%nat).
Qed.

Lemma ranked_acyclic state : ranked adjacency state → (∀ n, n ∈ map node_ID nodes → state !! n = Some Done) → acyclic edges.
Proof using adjacency_of known.
  intros (rank & Hr) Hall. set (top := sum_list (map rank (map node_ID nodes))).
  assert (∀ n, n ∈ map node_ID nodes → (rank n ≤ top)%nat) as Htop.
  { intros n Hn. unfold top. clear -Hn. induction (map node_ID nodes) as [|x l IH]; [by apply elem_of_nil in Hn|].
    apply elem_of_cons in Hn as [->|Hn]; simpl; [lia|]. specialize (IH Hn). lia. }
  exists (λ n, top - rank n)%nat. intros e He. destruct (known e He) as [Hs Hc].
  destruct (Hr (Supplier e) (Consumer e)) as [_ Hlt]; [by apply Hall|apply consumer_iff; eauto|].
  pose proof (Htop _ Hs). lia.
Qed.

(** The search never runs out of fuel and accepts exactly the acyclic graphs. *)
Lemma rejectProviderPlanCycles_spec :
  rejectProviderPlanCycles nodes adjacency ≠ Err out_of_fuel ∧
  (rejectProviderPlanCycles nodes adjacency = Ok tt ↔ acyclic edges).
Proof using adjacency_of known.
  unfold rejectProviderPlanCycles. pose proof search_all as Hs.
  destruct (visit_each _ _ ∅) as [state|e]; simpl in *.
  - destruct Hs as (Hr & _ & Hall). split; [done|]. split; [|done]. intros _. by eapply ranked_acyclic.
  - destruct Hs as [Hne Hs]. split; [congruence|]. split; [done|]. intros (rank & Hrank). exfalso.
    destruct (Hs rank) as (n & v & _ & Hv & _); [|done]. intros n c (e' & He & <- & <-)%consumer_iff. by apply Hrank.
Qed.
End cycles.
