(* ===== verification/ProviderPlanFacts.v ===== *)
(** * What a valid provider plan is

    The loops of [ValidateProviderPlanV1] and [ValidateProviderSelectedEdgesV1]
    against a declarative reading: sorted nodes with disjoint components, and
    edges that are exactly the ones the explicit requirements ask for. *)

From Stdlib Require Import Ascii.
From S2P Require Import Prelude GoText Contributions Canonical ProviderGraph ProviderGraphFacts ProviderPlan ProviderCycles.

Open Scope Z_scope.

(** ** Sorted loops *)

(** The order of a loop's elements that still have to be checked. *)
Definition chain {A} (R : relation A) (previous : option A) (l : list A) : Prop :=
  match previous with Some p => Sorted R (p :: l) | None => Sorted R l end.

Lemma chain_cons {A} (R : relation A) previous x l :
  chain R previous (x :: l) ↔ (∀ p, previous = Some p → R p x) ∧ chain R (Some x) l.
Proof.
  destruct previous as [p|]; simpl.
  - split.
    + intros [H1 H2%HdRel_inv]%Sorted_inv. split; [by intros ? [= <-]|done].
    + intros [Hp Hl]. constructor; [done|]. constructor. by apply Hp.
  - split; [by split|]. by intros [_ ?].
Qed.

Lemma chain_nil {A} (R : relation A) previous : chain R previous [].
Proof. destruct previous; simpl; repeat constructor. Qed.

Lemma follows_ok {A} (unordered : A → A → bool) (R : relation A) previous x msg :
  (∀ a b, unordered a b = false ↔ R a b) →
  reject_if (negb (follows unordered previous x)) msg = Ok tt ↔ ∀ p, previous = Some p → R p x.
Proof.
  intros HR. rewrite reject_if_ok, negb_false_iff. unfold follows. destruct previous as [p|].
  - rewrite negb_true_iff, HR. split; [by intros ? ? [= <-]|auto].
  - split; [by intros|done].
Qed.

(** ** Orders *)

Definition edge_lt (left right : ProviderEdgeV1) : Prop := compareProviderEdges left right < 0.
Lemma edge_lt_unordered a b : (0 <=? compareProviderEdges a b) = false ↔ edge_lt a b.
Proof. unfold edge_lt. destruct (Z.leb_spec 0 (compareProviderEdges a b)); split; intros; done || lia. Qed.

Lemma edge_lt_iff a b : edge_lt a b ↔
  string_lt (Supplier a) (Supplier b) ∨
  Supplier a = Supplier b ∧ (string_lt (Consumer a) (Consumer b) ∨
    Consumer a = Consumer b ∧ string_lt (RequirementID a) (RequirementID b)).
Proof.
  unfold edge_lt, compareProviderEdges, three_way. unfold string_lt.
  assert (∀ s, String.ltb s s = false) as Hirr by (intros s; apply not_true_iff_false, (irreflexivity string_lt s)).
  assert (∀ s t, String.ltb s t = true → String.ltb t s = true → False) as Hasym.
  { intros s t H1 H2. apply (irreflexivity string_lt s). by transitivity t. }
  assert (∀ s t, String.ltb s t = false → String.ltb t s = false → s = t) as Htot.
  { intros s t H1 H2. destruct (string_lt_total s t) as [?|[?|?]]; unfold string_lt in *; congruence. }
  destruct (String.ltb (Supplier a) (Supplier b)) eqn:E1; [split; [by left|lia]|].
  destruct (String.ltb (Supplier b) (Supplier a)) eqn:E2.
  { split; [lia|]. intros [?|[Hs _]]; [congruence|]. by rewrite Hs, Hirr in E2. }
  assert (Supplier a = Supplier b) as Hs by auto.
  destruct (String.ltb (Consumer a) (Consumer b)) eqn:E3; [split; [auto|lia]|].
  destruct (String.ltb (Consumer b) (Consumer a)) eqn:E4.
  { split; [lia|]. intros [?|[_ [?|[Hc _]]]]; [congruence|congruence|]. by rewrite Hc, Hirr in E4. }
  assert (Consumer a = Consumer b) as Hc by auto.
  destruct (String.ltb (RequirementID a) (RequirementID b)) eqn:E5; [split; [auto|lia]|].
  destruct (String.ltb (RequirementID b) (RequirementID a)) eqn:E6; (split; [lia|]); naive_solver.
Qed.

#[export] Instance edge_lt_strict : StrictOrder edge_lt.
Proof.
  split.
  - intros a. unfold complement. rewrite edge_lt_iff. intros [H|[_ [H|[_ H]]]]; by apply (irreflexivity string_lt) in H.
  - intros a b c. rewrite !edge_lt_iff. intros [H1|(E1 & H1)] [H2|(E2 & H2)].
    + left. by etrans.
    + left. by rewrite <-E2.
    + left. by rewrite E1.
    + right. split; [congruence|]. destruct H1 as [H1|(F1 & H1)], H2 as [H2|(F2 & H2)].
      * left. by etrans.
      * left. by rewrite <-F2.
      * left. by rewrite F1.
      * right. split; [congruence|by etrans].
Qed.

(** ** The loop over the nodes *)

Lemma claim_components_ok node components m m' :
  claim_components node components m = Ok m' →
  NoDup components ∧ (∀ c, c ∈ components → m !! c = None) ∧
  ∀ c, m' !! c = if bool_decide (c ∈ components) then Some node else m !! c.
Proof.
  revert m. induction components as [|c cs IH]; intros m; simpl.
  { intros [= <-]. split_and!; [constructor|by intros ? ?%elem_of_nil|done]. }
  rewrite reject_if_bind. intros [Hc (Hnd & Hfresh & Hl)%IH]. apply bool_decide_eq_false, eq_None_not_Some in Hc.
  assert (c ∉ cs) as Hn by (intros Hin; specialize (Hfresh c Hin); by rewrite lookup_insert_eq in Hfresh).
  split_and!.
  - by constructor.
  - intros d [->|Hd]%elem_of_cons; [done|]. specialize (Hfresh d Hd). rewrite lookup_insert_ne in Hfresh; [done|].
    by intros ->.
  - intros d. rewrite Hl. destruct (decide (d = c)) as [->|Hd].
    + rewrite bool_decide_false by done. rewrite bool_decide_true by (by left). apply lookup_insert_eq.
    + rewrite lookup_insert_ne by done. by rewrite (bool_decide_ext (d ∈ c :: cs) (d ∈ cs)) by set_solver.
Qed.

Lemma claim_components_total node components m :
  NoDup components → (∀ c, c ∈ components → m !! c = None) → ∃ m', claim_components node components m = Ok m'.
Proof.
  revert m. induction components as [|c cs IH]; intros m Hnd Hm; simpl; [by eexists|].
  apply NoDup_cons in Hnd as [Hc Hnd]. rewrite bool_decide_false by (rewrite (Hm c) by (by left); by intros []).
  simpl. apply IH; [done|]. intros d Hd. rewrite lookup_insert_ne by (by intros ->). apply Hm. by right.
Qed.

Definition all_components (nodes : list NodeSpec) : list string := concat (map components_of nodes).
Definition node_lt (left right : NodeSpec) : Prop := string_lt (node_ID left) (node_ID right).

Definition bases (nodes : list NodeSpec) : Z := Z.of_nat (length (filter (λ n, node_ID n = "base") nodes)).

Lemma node_follows previous n msg :
  reject_if (negb (follows (λ p n, string_geb (node_ID p) (node_ID n)) previous n)) msg = Ok tt ↔
    ∀ p, previous = Some p → node_lt p n.
Proof. apply follows_ok. intros a b. apply string_geb_lt. Qed.

(** What the index says once [nodes] were added to [ix]. *)
Record indexed (nodes : list NodeSpec) (ix ix' : plan_index) : Prop := {
  ixd_node n : n ∈ nodes → NoDup (map node_ID nodes) → ix_nodes ix' !! node_ID n = Some n;
  ixd_other id : id ∉ map node_ID nodes → ix_nodes ix' !! id = ix_nodes ix !! id;
  ixd_component n c : n ∈ nodes → c ∈ components_of n → ix_componentNodes ix' !! c = Some (node_ID n);
  ixd_free c : c ∉ all_components nodes → ix_componentNodes ix' !! c = ix_componentNodes ix !! c;
  ixd_base : ix_baseCount ix' = ix_baseCount ix + bases nodes
}.

Lemma check_nodes_ok previous nodes ix ix' : check_nodes previous nodes ix = Ok ix' →
  chain node_lt previous nodes ∧ Forall (λ n, ValidateNodeSpec n = Ok tt) nodes ∧ NoDup (all_components nodes) ∧
  (∀ c, c ∈ all_components nodes → ix_componentNodes ix !! c = None) ∧ indexed nodes ix ix'.
Proof.
  revert previous ix. induction nodes as [|n nodes IH]; intros previous ix; simpl.
  { intros [= <-]. split_and!; [apply chain_nil|done|constructor|by intros ? ?%elem_of_nil|].
    split; try done; [by intros ? ?%elem_of_nil|by intros ? ? ?%elem_of_nil|]. unfold bases. simpl. lia. }
  intros ([] & Hf & H)%bind_ok. apply bind_ok in H as ([] & Hv & H). apply bind_ok in H as (m & Hm & H).
  assert (Hp := proj1 (node_follows _ _ _) Hf). apply claim_components_ok in Hm as (Hcnd & Hcf & Hml).
  apply IH in H as (Hch & Hall & Hnd & Hfree & Hix). simpl in Hfree.
  assert (∀ c, c ∈ components_of n → c ∉ all_components nodes) as Hdisj.
  { intros c Hc Hin. specialize (Hfree c Hin). rewrite Hml, bool_decide_true in Hfree; done. }
  split_and!; [apply chain_cons; by split|by constructor| | |].
  - unfold all_components. simpl. apply NoDup_app. split_and!; [done|exact Hdisj|done].
  - unfold all_components. simpl. intros c [Hc|Hc]%elem_of_app; [by apply Hcf|]. specialize (Hfree c Hc).
    rewrite Hml, bool_decide_false in Hfree; [done|]. intros Hc'. by apply (Hdisj c).
  - destruct Hix as [H1 H2 H3 H4 H5]. split; simpl in *.
    + intros k [->|Hk]%elem_of_cons [Hn Hnd']%NoDup_cons; [|by apply H1]. rewrite H2 by done. apply lookup_insert_eq.
    + intros id [Hid Hid']%not_elem_of_cons. rewrite H2 by done. by rewrite lookup_insert_ne.
    + intros k c [->|Hk]%elem_of_cons Hc; [|by apply H3]. rewrite H4 by (by apply Hdisj). by rewrite Hml, bool_decide_true.
    + intros c. unfold all_components. simpl. rewrite not_elem_of_app. intros [Hc Hc']. rewrite H4 by done.
      by rewrite Hml, bool_decide_false.
    + rewrite H5. unfold bases. destruct (decide (node_ID n = "base")) as [Hb|Hb].
      * rewrite bool_decide_true, filter_cons_True by done. simpl. lia.
      * by rewrite bool_decide_false, filter_cons_False by done.
Qed.

Lemma check_nodes_total previous nodes ix :
  chain node_lt previous nodes → Forall (λ n, ValidateNodeSpec n = Ok tt) nodes → NoDup (all_components nodes) →
  (∀ c, c ∈ all_components nodes → ix_componentNodes ix !! c = None) → ∃ ix', check_nodes previous nodes ix = Ok ix'.
Proof.
  revert previous ix. induction nodes as [|n nodes IH]; intros previous ix; simpl; [by eexists|].
  intros [Hf Hch]%chain_cons [Hv Hall]%Forall_cons Hnd Hfree. unfold all_components in Hnd, Hfree. simpl in Hnd, Hfree.
  apply NoDup_app in Hnd as (Hc & Hdisj & Hnd).
  rewrite (proj2 (node_follows _ _ _) Hf). simpl. rewrite Hv. simpl.
  destruct (claim_components_total (node_ID n) (components_of n) (ix_componentNodes ix)) as (m & Hm);
    [done|intros; apply Hfree, elem_of_app; by left|].
  rewrite Hm. simpl. apply IH; [done..|]. simpl. intros c Hin. apply claim_components_ok in Hm as (_ & _ & Hm).
  rewrite Hm, bool_decide_false by (intros Hc'; by apply (Hdisj c)). apply Hfree, elem_of_app. by right.
Qed.

(** ** Keys of requirements *)

Lemma key_inj n r n' r' : contains_byte n zero = false → contains_byte n' zero = false →
  edgeRequirementKey n r = edgeRequirementKey n' r' → n = n' ∧ r = r'.
Proof.
  unfold edgeRequirementKey. revert n'. induction n as [|c n IH]; intros [|c' n']; simpl.
  - by intros _ _ [= ->].
  - intros _ [Hc _]%orb_false_iff [= <- _]. by rewrite bool_decide_true in Hc.
  - intros [Hc _]%orb_false_iff _ [= -> _]. by rewrite bool_decide_true in Hc.
  - intros [_ Hn]%orb_false_iff [_ Hn']%orb_false_iff [= -> H]. by destruct (IH n' Hn Hn' H) as [-> ->].
Qed.

Definition requirement_lt (left right : ExecutableRequirement) : Prop := string_lt (er_ID left) (er_ID right).
Lemma check_executables_sorted previous l seen seen' :
  check_executables previous l seen = Ok seen' → chain requirement_lt previous l.
Proof.
  revert previous seen. induction l as [|r l IH]; intros previous seen; simpl; [intros _; apply chain_nil|].
  intros ([] & Hf & H)%bind_ok. apply bind_ok in H as (seen1 & _ & H). apply bind_ok in H as ([] & _ & H).
  apply bind_ok in H as ([] & _ & H). apply bind_ok in H as ([] & _ & H). apply chain_cons. split; [|by eapply IH].
  assert (Hp := proj1 (follows_ok _ requirement_lt _ _ _ (λ a b, string_geb_lt _ _)) Hf). exact Hp.
Qed.

Lemma ValidateNodeSpec_ids n : ValidateNodeSpec n = Ok tt →
  contains_byte (node_ID n) zero = false ∧ NoDup (map er_ID (executables_of n)).
Proof.
  unfold ValidateNodeSpec, executables_of, components_of. intros ([] & Hid & H)%bind_ok.
  destruct (node_Components n) as [components|], (node_Outputs n), (Executables (node_Requirements n)) as [executables|] eqn:He,
    (Files (node_Requirements n)); try done.
  apply bind_ok in H as ([] & Hc & H). apply bind_ok in H as ([] & _ & H). apply bind_ok in H as (? & _ & H).
  apply bind_ok in H as ([] & _ & H). split.
  - unfold validateNodeID in Hid. apply bind_ok in Hid as ([] & _ & Hid). cbv beta zeta in Hid.
    case_bool_decide.
    { apply reject_if_ok in Hid. apply negb_false_iff, andb_true_iff in Hid as [->%bool_decide_eq_true _]. done. }
    case_bool_decide.
    { apply bind_ok in Hid as ([] & Hid & _). apply reject_if_ok, orb_false_iff in Hid as [Hid _].
      apply negb_false_iff, bool_decide_eq_true in Hid as ->. done. }
    destruct components as [|component [|? ?]]; try done. apply bind_ok in Hid as ([] & Hid & _).
    apply reject_if_ok, negb_false_iff, bool_decide_eq_true in Hid as ->.
    assert (contains_byte component zero = false) as Hz.
    { simpl in Hc. apply bind_ok in Hc as ([] & Hc & _). unfold check_component in Hc.
      apply bind_ok in Hc as ([] & Hc & _). by apply reference_without_zero. }
    destruct (ApplicationContributionOwner component ContributionProviderPython) as [a|] eqn:Ho.
    + apply ApplicationContributionOwner_spec in Ho as (_ & Ha & _). unfold ApplicationID. rewrite !contains_byte_app.
      by rewrite (identifier_without a) by auto.
    + by rewrite contains_byte_app, Hz.
  - unfold ValidateRequirementDeclaration in H. rewrite He in H. destruct (Files _); [|done].
    apply bind_ok in H as ([] & _ & H). apply bind_ok in H as (seen & H & _). apply check_executables_sorted in H.
    simpl. by apply (strict_NoDup er_ID string_lt).
Qed.

(** ** The index of requirements *)

Lemma fold_left_insert {A} (l : list (string * A)) (m : gmap string A) :
  fold_left (λ m p, <[p.1 := p.2]> m) l m = list_to_map (rev l) ∪ m.
Proof.
  revert m. induction l as [|[k x] l IH]; intros m; [simpl; by rewrite (left_id_L ∅ (∪))|]. simpl.
  rewrite IH, list_to_map_app, <-(assoc_L (∪)). simpl. f_equal. by rewrite insert_union_singleton_l, insert_empty.
Qed.

Lemma lookup_fold_insert {A} (l : list (string * A)) k x :
  NoDup l.*1 → fold_left (λ (m : gmap string A) p, <[p.1 := p.2]> m) l ∅ !! k = Some x ↔ (k, x) ∈ l.
Proof.
  intros Hnd. rewrite fold_left_insert, (right_id_L ∅ (∪)), <-elem_of_list_to_map.
  - by rewrite !list_elem_of_In, <-in_rev.
  - by rewrite (Permutation_rev l) in Hnd.
Qed.

Definition node_pairs (selects : ExecutableRequirement → bool) (n : NodeSpec) : list (string * ExecutableRequirement) :=
  map (λ r, (edgeRequirementKey (node_ID n) (er_ID r), r)) (filter (λ r, selects r = true) (executables_of n)).

Lemma index_requirements_pairs selects nodes :
  index_requirements selects nodes = fold_left (λ m p, <[p.1 := p.2]> m) (concat (map (node_pairs selects) nodes)) ∅.
Proof.
  unfold index_requirements. generalize (∅ : gmap string ExecutableRequirement) as m.
  induction nodes as [|n nodes IH]; intros m; [done|]. simpl. rewrite fold_left_app, IH. f_equal. unfold node_pairs.
  generalize m. induction (executables_of n) as [|r l IHl]; intros m'; [done|]. simpl. rewrite IHl. clear IHl.
  destruct (selects r) eqn:Hr.
  - by rewrite filter_cons_True by done.
  - by rewrite filter_cons_False by congruence.
Qed.

Lemma elem_of_pairs selects nodes k r : (k, r) ∈ concat (map (node_pairs selects) nodes) ↔
  ∃ n, n ∈ nodes ∧ r ∈ executables_of n ∧ selects r = true ∧ k = edgeRequirementKey (node_ID n) (er_ID r).
Proof.
  rewrite list_elem_of_In, in_concat. split.
  - intros (l & (n & <- & Hn)%in_map_iff & Hin). exists n. unfold node_pairs in Hin.
    apply in_map_iff in Hin as (r' & [= <- ->] & Hr). apply list_elem_of_In in Hr, Hn.
    apply list_elem_of_filter in Hr as [? ?]. done.
  - intros (n & Hn & Hr & Hs & ->). exists (node_pairs selects n). split; [by apply in_map, list_elem_of_In|].
    apply (in_map (λ r, (edgeRequirementKey (node_ID n) (er_ID r), r))), list_elem_of_In, list_elem_of_filter. done.
Qed.

(** Nodes whose requirements have distinct keys. *)
Definition keyed (nodes : list NodeSpec) : Prop :=
  NoDup (map node_ID nodes) ∧
  Forall (λ n, contains_byte (node_ID n) zero = false ∧ NoDup (map er_ID (executables_of n))) nodes.

Lemma pairs_NoDup selects nodes : keyed nodes → NoDup (concat (map (node_pairs selects) nodes)).*1.
Proof.
  intros [Hnd Hall]. induction Hall as [|n nodes [Hz Hr] Hall IH]; [constructor|]. simpl in *.
  apply NoDup_cons in Hnd as [Hn Hnd]. rewrite fmap_app. apply NoDup_app. split_and!; [| |by apply IH].
  - unfold node_pairs. change (NoDup (map fst (map (λ r, (edgeRequirementKey (node_ID n) (er_ID r), r))
      (filter (λ r, selects r = true) (executables_of n))))). rewrite map_map. simpl.
    rewrite <-(map_map er_ID (edgeRequirementKey (node_ID n))). apply NoDup_fmap_2_strong.
    + intros a b _ _ Hab. by eapply key_inj.
    + eapply NoDup_sublist; [|exact Hr]. apply sublist_map, sublist_filter.
  - intros k (p & -> & Hp)%list_elem_of_fmap (q & Hq & Hq')%list_elem_of_fmap.
    unfold node_pairs in Hp. apply list_elem_of_fmap in Hp as (r & -> & Hin). simpl in Hq. destruct q as [k r'].
    apply elem_of_pairs in Hq' as (n' & Hn' & _ & _ & ->). simpl in Hq. apply key_inj in Hq as [Hid _]; [|done|].
    + apply Hn. rewrite Hid. by apply list_elem_of_fmap_2.
    + rewrite Forall_forall in Hall. by apply Hall.
Qed.

Lemma index_requirements_lookup selects nodes k r : keyed nodes →
  index_requirements selects nodes !! k = Some r ↔
  ∃ n, n ∈ nodes ∧ r ∈ executables_of n ∧ selects r = true ∧ k = edgeRequirementKey (node_ID n) (er_ID r).
Proof.
  intros Hk. rewrite index_requirements_pairs, lookup_fold_insert by (by apply pairs_NoDup). apply elem_of_pairs.
Qed.

(** ** The loops over edges *)

Definition edge_key (e : ProviderEdgeV1) : string := edgeRequirementKey (Consumer e) (RequirementID e).

Section edge_loop.
Context (check : gset string → ProviderEdgeV1 → result string) (Q : ProviderEdgeV1 → Prop) (unsorted : string).
Hypothesis check_spec : ∀ seen e key, check seen e = Ok key ↔ key = edge_key e ∧ Q e ∧ key ∉ seen.

Lemma edge_loop_ok previous edges seen adjacency out :
  edge_loop check unsorted previous edges seen adjacency = Ok out ↔
    chain edge_lt previous edges ∧ Forall Q edges ∧ NoDup (map edge_key edges) ∧
    (∀ e, e ∈ edges → edge_key e ∉ seen) ∧
    out = (list_to_set (map edge_key edges) ∪ seen, fold_left (λ adj e, add_consumer e adj) edges adjacency).
Proof using check_spec.
  revert previous seen adjacency. induction edges as [|e edges IH]; intros previous seen adjacency; simpl.
  - split.
    + intros [= <-]. split_and!; [apply chain_nil|constructor|constructor|by intros ? ?%elem_of_nil|].
      by rewrite (left_id_L ∅ (∪)).
    + intros (_ & _ & _ & _ & ->). by rewrite (left_id_L ∅ (∪)).
  - rewrite bind_ok, chain_cons, Forall_cons, NoDup_cons. split.
    + intros ([] & Hf & H). apply bind_ok in H as (key & (-> & HQ & Hkey)%check_spec & (Hch & Hall & Hnd & Hs & ->)%IH).
      assert (Hp := proj1 (follows_ok _ edge_lt _ _ _ edge_lt_unordered) Hf).
      split_and!; [done|done|done|done| |done| |].
      * intros (e' & He & Hin)%list_elem_of_fmap. specialize (Hs e' Hin). set_solver.
      * intros e' [->|He']%elem_of_cons; [done|]. specialize (Hs e' He'). set_solver.
      * f_equal. set_solver.
    + intros ([Hp Hch] & [HQ Hall] & [Hn Hnd] & Hs & ->). exists tt.
      split; [by apply (follows_ok _ edge_lt _ _ _ edge_lt_unordered)|]. apply bind_ok. exists (edge_key e).
      split; [apply check_spec; split_and!; [done|done|apply Hs; left]|]. apply IH. split_and!; [done|done|done| |].
      * intros e' He' [Heq%elem_of_singleton|Hin]%elem_of_union; [|by apply (Hs e'); [right|]].
        apply Hn. rewrite <-Heq. by apply list_elem_of_fmap_2.
      * f_equal. set_solver.
Qed.
End edge_loop.

Lemma add_consumers edges adjacency s :
  consumers (fold_left (λ adj e, add_consumer e adj) edges adjacency) s = consumers adjacency s ++ consumers_of edges s.
Proof.
  revert adjacency. induction edges as [|e edges IH]; intros adjacency; simpl; [by rewrite app_nil_r|].
  rewrite IH. unfold consumers, add_consumer, consumers_of. destruct (decide (Supplier e = s)) as [<-|Hs].
  - rewrite lookup_insert_eq, filter_cons_True by done. simpl. by rewrite <-app_assoc.
  - by rewrite lookup_insert_ne, filter_cons_False by done.
Qed.

(** ** Specification of a plan *)

Definition declares (supplier : NodeSpec) (r : ExecutableRequirement) : Prop :=
  ∃ o, o ∈ outputs_of supplier ∧ SupplierComponent o = er_Supplier r ∧ out_Name o = er_Command r.

(** [supplier] meets the explicit requirement [r] of [consumer]. *)
Definition meets (nodes : list NodeSpec) (supplier consumer : NodeSpec) (r : ExecutableRequirement) : Prop :=
  supplier ∈ nodes ∧ consumer ∈ nodes ∧ r ∈ executables_of consumer ∧ er_Supplier r ≠ "" ∧
  er_Supplier r ∈ components_of supplier ∧ declares supplier r ∧
  node_ID consumer ≠ "base" ∧ node_ID supplier ≠ node_ID consumer.
Definition structural_edge (supplier consumer : NodeSpec) (r : ExecutableRequirement) : ProviderEdgeV1 :=
  ProviderEdge (node_ID supplier) (node_ID consumer) (er_ID r) (Qualified (er_Supplier r) (er_Command r)).

Record valid_plan (nodes : list NodeSpec) (edges : list ProviderEdgeV1) : Prop := {
  vp_sorted : Sorted node_lt nodes;
  vp_nodes : Forall (λ n, ValidateNodeSpec n = Ok tt) nodes;
  vp_components : NoDup (all_components nodes);
  vp_base : "base" ∈ map node_ID nodes;
  vp_met consumer r : consumer ∈ nodes → r ∈ executables_of consumer → er_Supplier r ≠ "" →
    ∃ supplier, meets nodes supplier consumer r;
  vp_edges e : e ∈ edges ↔ ∃ supplier consumer r, meets nodes supplier consumer r ∧ e = structural_edge supplier consumer r;
  vp_edges_sorted : Sorted edge_lt edges;
  vp_acyclic : acyclic edges
}.

(** ** Nodes by ID and by component *)

Lemma elem_of_components nodes c : c ∈ all_components nodes ↔ ∃ n, n ∈ nodes ∧ c ∈ components_of n.
Proof.
  unfold all_components. rewrite list_elem_of_In, in_concat. setoid_rewrite in_map_iff. setoid_rewrite <-list_elem_of_In.
  naive_solver.
Qed.

Lemma component_owner_unique nodes n n' c : NoDup (all_components nodes) → n ∈ nodes → n' ∈ nodes →
  c ∈ components_of n → c ∈ components_of n' → n = n'.
Proof.
  induction nodes as [|x nodes IH]; [by intros _ ?%elem_of_nil|]. unfold all_components. simpl.
  intros (_ & Hd & Hnd)%NoDup_app [->|Hn]%elem_of_cons [->|Hn']%elem_of_cons Hc Hc'; [done| | |by apply IH].
  - destruct (Hd c Hc). apply elem_of_components. eauto.
  - destruct (Hd c Hc'). apply elem_of_components. eauto.
Qed.

Lemma node_lt_NoDup nodes : Sorted node_lt nodes → NoDup (map node_ID nodes).
Proof. apply (strict_NoDup node_ID string_lt). Qed.

Lemma valid_nodes_keyed nodes : Sorted node_lt nodes → Forall (λ n, ValidateNodeSpec n = Ok tt) nodes → keyed nodes.
Proof.
  intros Hs Hall. split; [by apply node_lt_NoDup|]. eapply Forall_impl; [exact Hall|]. intros n. apply ValidateNodeSpec_ids.
Qed.

Lemma bases_one nodes : NoDup (map node_ID nodes) → bases nodes = 1 ↔ "base" ∈ map node_ID nodes.
Proof.
  unfold bases. induction nodes as [|n nodes IH]; simpl; [by split; [|intros ?%elem_of_nil]|].
  intros [Hn Hnd]%NoDup_cons. rewrite elem_of_cons. destruct (decide (node_ID n = "base")) as [Hb|Hb].
  - rewrite filter_cons_True by done. simpl. split; [by left|]. intros _. rewrite filter_none; [done|].
    apply Forall_forall. intros x Hx Hxb. apply Hn. rewrite Hb, <-Hxb. by apply list_elem_of_fmap_2.
  - rewrite filter_cons_False by done. rewrite IH by done. naive_solver.
Qed.

Section lookup.
Context (nodes : list NodeSpec) (ix : plan_index).
Hypothesis distinct : NoDup (map node_ID nodes).
Hypothesis index : indexed nodes (PlanIndex ∅ ∅ 0) ix.

Lemma ix_node_iff id n : ix_nodes ix !! id = Some n ↔ n ∈ nodes ∧ node_ID n = id.
Proof using distinct index.
  destruct index as [H1 H2 _ _ _]. split.
  - intros Hl. destruct (decide (id ∈ map node_ID nodes)) as [Hid|Hid]; [|rewrite H2 in Hl; done].
    apply list_elem_of_fmap in Hid as (n' & -> & Hn'). rewrite (H1 n' Hn' distinct) in Hl. by injection Hl as ->.
  - intros [Hn <-]. by apply H1.
Qed.

Lemma ix_component_iff c id : ix_componentNodes ix !! c = Some id ↔ ∃ n, n ∈ nodes ∧ c ∈ components_of n ∧ node_ID n = id.
Proof using index.
  destruct index as [_ _ H3 H4 _]. split.
  - intros Hl. destruct (decide (c ∈ all_components nodes)) as [Hc|Hc]; [|rewrite H4 in Hl; done].
    apply elem_of_components in Hc as (n & Hn & Hc). rewrite (H3 n c Hn Hc) in Hl. injection Hl as <-. eauto.
  - intros (n & Hn & Hc & <-). by apply H3.
Qed.
End lookup.
