(* ===== verification/ProviderPlanProps.v ===== *)
(** * Properties of provider plans

    Validation accepts exactly the valid plans; a valid plan always has an
    initialization order; normalisation finds the one valid arrangement of a
    plan; and the edges selected at run time give every requirement one supplier
    that is initialized before. *)

From Stdlib Require Import Ascii.
From S2P Require Import Prelude GoText Contributions Canonical ProviderGraph ProviderGraphFacts ProviderPlan.
From S2P Require Import ProviderCycles ProviderPlanFacts.

Open Scope Z_scope.

(** ** The checks of an edge *)

Lemma nodeDeclaresOutput_ok n q : nodeDeclaresOutput n q = true ↔
  ∃ o, o ∈ outputs_of n ∧ SupplierComponent o = Component q ∧ out_Name o = Name q.
Proof.
  unfold nodeDeclaresOutput. rewrite existsb_exists. setoid_rewrite andb_true_iff. setoid_rewrite bool_decide_eq_true.
  by setoid_rewrite list_elem_of_In.
Qed.

Section plan.
Context (nodes : list NodeSpec) (ix : plan_index).
Hypothesis sorted : Sorted node_lt nodes.
Hypothesis valid : Forall (λ n, ValidateNodeSpec n = Ok tt) nodes.
Hypothesis disjoint : NoDup (all_components nodes).
Hypothesis index : indexed nodes (PlanIndex ∅ ∅ 0) ix.

Definition explicit_edge (e : ProviderEdgeV1) : Prop :=
  ∃ supplier consumer r, meets nodes supplier consumer r ∧ e = structural_edge supplier consumer r.

Lemma node_by_id n n' : n ∈ nodes → n' ∈ nodes → node_ID n = node_ID n' → n = n'.
Proof using sorted. apply NoDup_map_inj. by apply node_lt_NoDup. Qed.

Lemma requirement_by_id n r r' : n ∈ nodes → r ∈ executables_of n → r' ∈ executables_of n → er_ID r = er_ID r' → r = r'.
Proof using valid.
  intros Hn. rewrite Forall_forall in valid. apply valid, ValidateNodeSpec_ids in Hn as [_ Hnd]. by apply NoDup_map_inj.
Qed.

(** A requirement of a node determines its edge. *)
Lemma explicit_edge_unique e e' : explicit_edge e → explicit_edge e' →
  Consumer e = Consumer e' → RequirementID e = RequirementID e' → e = e'.
Proof using sorted valid disjoint.
  intros (s & c & r & (Hs & Hc & Hr & _ & Hcs & _) & ->) (s' & c' & r' & (Hs' & Hc' & Hr' & _ & Hcs' & _) & ->). simpl.
  intros Hcc Hrr. assert (c = c') as <- by (by apply node_by_id). assert (r = r') as <- by (by eapply requirement_by_id).
  by assert (s = s') as <- by (by eapply component_owner_unique).
Qed.

Lemma explicit_key_unique e e' : explicit_edge e → explicit_edge e' → edge_key e = edge_key e' → e = e'.
Proof using sorted valid disjoint.
  intros He He' Hk. pose proof He as (s & c & r & (_ & Hc & _) & ->). pose proof He' as (s' & c' & r' & (_ & Hc' & _) & ->).
  apply key_inj in Hk as [Hcc Hrr]; [by apply explicit_edge_unique|..]; simpl; rewrite Forall_forall in valid;
    by apply ValidateNodeSpec_ids, valid.
Qed.

Lemma explicit_known e : explicit_edge e → Supplier e ∈ map node_ID nodes ∧ Consumer e ∈ map node_ID nodes.
Proof using Type.
  intros (s & c & r & (Hs & Hc & _) & ->). simpl. split; by apply list_elem_of_fmap_2.
Qed.

Lemma check_edge_ok seen e key :
  check_edge (ix_nodes ix) (ix_componentNodes ix) (index_requirements explicit_requirement nodes) seen e = Ok key ↔
    key = edge_key e ∧ explicit_edge e ∧ key ∉ seen.
Proof using sorted valid disjoint index.
  assert (keyed nodes) as Hkeyed by (by apply valid_nodes_keyed). destruct (Hkeyed) as [Hdist Hplain].
  unfold check_edge. fold (edge_key e). split.
  - destruct (ix_nodes ix !! Supplier e) as [s|] eqn:Hs; [|done]. destruct (ix_nodes ix !! Consumer e) as [c|] eqn:Hc; [|done].
    apply (ix_node_iff nodes) in Hs as [Hs Hsid]; [|done..]. apply (ix_node_iff nodes) in Hc as [Hc Hcid]; [|done..].
    rewrite reject_if_bind. intros [Hne H]. apply reject_if_bind in H as [Hbase H].
    apply bool_decide_eq_false in Hne, Hbase.
    destruct (index_requirements explicit_requirement nodes !! edge_key e) as [r|] eqn:Hr; [|done].
    apply index_requirements_lookup in Hr as (n & Hn & Hr & Hsel & Hkey); [|done].
    apply key_inj in Hkey as [Hnc Hrid]; cycle 1.
    { rewrite <-Hcid. rewrite Forall_forall in Hplain. by apply Hplain. }
    { rewrite Forall_forall in Hplain. by apply Hplain. }
    assert (n = c) as -> by (apply node_by_id; [done..|congruence]).
    apply reject_if_bind in H as [Hown H]. apply negb_false_iff, bool_decide_eq_true in Hown.
    apply (ix_component_iff nodes) in Hown as (s' & Hs' & Hown & Hs'id); [|done].
    assert (s' = s) as -> by (apply node_by_id; [done..|congruence]).
    apply reject_if_bind in H as [Hout H]. apply orb_false_iff in Hout as [Hoc Hon].
    apply negb_false_iff, bool_decide_eq_true in Hoc, Hon.
    apply reject_if_bind in H as [Hdecl H]. apply negb_false_iff, nodeDeclaresOutput_ok in Hdecl.
    apply reject_if_bind in H as [Hseen [= <-]]. apply bool_decide_eq_false in Hseen.
    split_and!; [done| |done]. exists s, c, r.
    unfold explicit_requirement in Hsel. apply negb_true_iff, bool_decide_eq_false in Hsel.
    split; [|destruct e as [? ? ? []]; unfold structural_edge; simpl in *; congruence].
    split_and!; [done..| |congruence|congruence]. unfold declares. by rewrite <-Hoc, <-Hon.
  - intros (-> & (s & c & r & (Hs & Hc & Hr & Hex & Hown & Hdecl & Hbase & Hne) & ->) & Hseen).
    rewrite (proj2 (ix_node_iff nodes ix Hdist index _ s)) by done.
    rewrite (proj2 (ix_node_iff nodes ix Hdist index _ c)) by done. simpl.
    rewrite !bool_decide_false by done. simpl.
    assert (index_requirements explicit_requirement nodes !! edge_key (structural_edge s c r) = Some r) as ->.
    { apply index_requirements_lookup; [done|]. exists c. split_and!; [done..| |done]. unfold explicit_requirement.
      by rewrite bool_decide_false. }
    rewrite (proj2 (ix_component_iff nodes ix index (er_Supplier r) (node_ID s))) by eauto.
    rewrite !bool_decide_true by done. simpl.
    rewrite (proj2 (nodeDeclaresOutput_ok s (Qualified (er_Supplier r) (er_Command r)))) by done. simpl.
    done.
Qed.
End plan.

(** ** Validation *)

Lemma plan_edges_complete nodes edges :
  all_seen (index_requirements explicit_requirement nodes) (list_to_set (map edge_key edges) ∪ ∅) = true ↔
  map_Forall (λ key (_ : ExecutableRequirement), key ∈ map edge_key edges) (index_requirements explicit_requirement nodes).
Proof.
  unfold all_seen. rewrite bool_decide_eq_true, (right_id_L ∅ (∪)).
  unfold map_Forall. by setoid_rewrite elem_of_list_to_set.
Qed.

Lemma adjacency_consumers edges s :
  consumers (fold_left (λ adj e, add_consumer e adj) edges ∅) s = consumers_of edges s.
Proof. by rewrite add_consumers. Qed.

(** Edges that are sorted, explicit and complete are the edges of a valid plan. *)
Lemma valid_plan_iff nodes edges :
  Sorted node_lt nodes → Forall (λ n, ValidateNodeSpec n = Ok tt) nodes → NoDup (all_components nodes) →
  "base" ∈ map node_ID nodes →
  (Sorted edge_lt edges ∧ Forall (explicit_edge nodes) edges ∧ NoDup (map edge_key edges) ∧
    map_Forall (λ key _, key ∈ map edge_key edges) (index_requirements explicit_requirement nodes) ∧ acyclic edges) ↔
  valid_plan nodes edges.
Proof.
  intros Hs Hv Hd Hb. assert (keyed nodes) as Hk by (by apply valid_nodes_keyed). split.
  - intros (Hes & Hex & _ & Hall & Hac). rewrite Forall_forall in Hex.
    assert (∀ consumer r, consumer ∈ nodes → r ∈ executables_of consumer → er_Supplier r ≠ "" →
      ∃ e supplier, e ∈ edges ∧ meets nodes supplier consumer r ∧ e = structural_edge supplier consumer r) as Hmet.
    { intros c r Hc Hr Hne. assert (edgeRequirementKey (node_ID c) (er_ID r) ∈ map edge_key edges) as Hin.
      { apply (Hall _ r), index_requirements_lookup; [done|]. exists c. split_and!; [done..| |done].
        unfold explicit_requirement. by rewrite bool_decide_false. }
      apply list_elem_of_fmap in Hin as (e & Hkey & He). destruct (Hex e He) as (s & c' & r' & Hm & ->).
      pose proof Hm as (_ & Hc' & Hr' & _). destruct Hk as [_ Hplain]. rewrite Forall_forall in Hplain.
      apply key_inj in Hkey as [Hcc Hrr]; [|by apply Hplain..]. simpl in Hcc, Hrr.
      assert (c = c') as <- by (by eapply node_by_id). assert (r = r') as <- by (by eapply requirement_by_id). eauto. }
    split; [done..| | |done|done].
    + intros c r Hc Hr Hne. destruct (Hmet c r Hc Hr Hne) as (_ & s & _ & Hm & _). eauto.
    + intros e. split; [by apply Hex|]. intros (s & c & r & Hm & ->). pose proof Hm as (_ & Hc & Hr & Hne & _).
      destruct (Hmet c r Hc Hr Hne) as (e & s' & He & Hm' & ->).
      enough (structural_edge s c r = structural_edge s' c r) as -> by done.
      apply (explicit_edge_unique nodes); [done..|by exists s, c, r|by exists s', c, r|done|done].
  - intros [_ _ _ _ Hmet Hedges Hes Hac]. split_and!; [done| | | |done].
    + apply Forall_forall. intros e He. by apply Hedges.
    + assert (NoDup edges) as Hnd.
      { rewrite <-(map_id edges). apply (strict_NoDup id edge_lt). exact Hes. }
      apply NoDup_fmap_2_strong; [|done]. intros e e' He%Hedges He'%Hedges. by apply (explicit_key_unique nodes).
    + intros key r (c & Hc & Hr & Hsel & ->)%index_requirements_lookup; [|done].
      apply negb_true_iff, bool_decide_eq_false in Hsel. destruct (Hmet c r Hc Hr Hsel) as (s & Hm).
      change (edge_key (structural_edge s c r) ∈ map edge_key edges). apply list_elem_of_fmap_2, Hedges. eauto.
Qed.

Lemma plan_valid plan : ValidateProviderPlanV1 plan = Ok tt ↔
  plan_Schema plan = ProviderPlanSchemaV1 ∧
  ∃ nodes edges, plan_Nodes plan = Some nodes ∧ plan_Edges plan = Some edges ∧ valid_plan nodes edges.
Proof.
  unfold ValidateProviderPlanV1. rewrite reject_if_bind, negb_false_iff, bool_decide_eq_true.
  apply and_iff_compat_l. destruct (plan_Nodes plan) as [nodes|]; [|by split; [|intros (? & ? & ? & _)]].
  destruct (plan_Edges plan) as [edges|]; [|by split; [|intros (? & ? & _ & ? & _)]].
  split.
  - intros (ix & Hn & H)%bind_ok. exists nodes, edges. split_and!; [done..|].
    apply check_nodes_ok in Hn as (Hs & Hv & Hd & _ & Hix). apply reject_if_bind in H as [Hb H].
    apply negb_false_iff, Z.eqb_eq in Hb. rewrite (ixd_base _ _ _ Hix) in Hb. simpl in Hs, Hb.
    apply bases_one in Hb; [|by apply node_lt_NoDup].
    apply bind_ok in H as ([seen adjacency] & Hloop & H).
    apply (edge_loop_ok _ (explicit_edge nodes)) in Hloop as (Hes & Hex & Hnd & _ & [= -> ->]);
      [|intros; by apply check_edge_ok].
    apply reject_if_bind in H as [Hall H]. apply negb_false_iff, plan_edges_complete in Hall.
    apply (rejectProviderPlanCycles_spec nodes edges) in H; [|apply adjacency_consumers|].
    + by apply valid_plan_iff.
    + intros e He. rewrite Forall_forall in Hex. by apply explicit_known, Hex.
  - intros (? & ? & [= <-] & [= <-] & Hvp). pose proof Hvp as [Hs Hv Hd Hb _ _ _ _].
    apply valid_plan_iff in Hvp as (Hes & Hex & Hnd & Hall & Hac); [|done..].
    destruct (check_nodes_total None nodes (PlanIndex ∅ ∅ 0)) as (ix & Hn); [done..|].
    pose proof (check_nodes_ok _ _ _ _ Hn) as (_ & _ & _ & _ & Hix). rewrite Hn. simpl.
    rewrite (ixd_base _ _ _ Hix). simpl. rewrite (proj2 (bases_one nodes (node_lt_NoDup _ Hs)) Hb). simpl.
    rewrite (proj2 (edge_loop_ok _ (explicit_edge nodes) _ (λ seen e key, check_edge_ok nodes ix Hs Hv Hd Hix seen e key)
      None edges ∅ ∅ (list_to_set (map edge_key edges) ∪ ∅, fold_left (λ adj e, add_consumer e adj) edges ∅)));
      [|split_and!; [exact Hes|done|done|set_solver|reflexivity]]. simpl.
    rewrite (proj2 (plan_edges_complete nodes edges)) by done. simpl.
    apply (rejectProviderPlanCycles_spec nodes edges); [apply adjacency_consumers| |done].
    intros e He. rewrite Forall_forall in Hex. by apply explicit_known, Hex.
Qed.

(** C31: [ValidateProviderPlanV1] accepts exactly the valid plans: nodes sorted
    by ID and valid one by one, components claimed by one node only, one base
    root, and edges that are, sorted and without repetition, exactly the ones
    that the explicit executable requirements ask for, every such requirement
    met by a node that declares the output, and no cycle. *)
Theorem ValidateProviderPlanV1_spec plan :
  ValidateProviderPlanV1 plan = Ok tt ↔
    plan_Schema plan = ProviderPlanSchemaV1 ∧
    ∃ nodes edges, plan_Nodes plan = Some nodes ∧ plan_Edges plan = Some edges ∧ valid_plan nodes edges.
Proof. apply plan_valid. Qed.

(** ** The initialization order *)

Lemma valid_plan_graph nodes edges : valid_plan nodes edges →
  NoDup (map node_ID nodes) ∧ endpoints_known (map node_ID nodes) edges ∧ acyclic edges.
Proof.
  intros [Hs _ _ _ _ He _ Hac]. split_and!; [by apply node_lt_NoDup| |done]. intros e Hin.
  apply explicit_known. by apply He.
Qed.

Lemma valid_plan_consumer nodes edges e : valid_plan nodes edges → e ∈ edges → Consumer e ≠ "base".
Proof. intros Hv (s & c & r & (_ & _ & _ & _ & _ & _ & Hb & _) & ->)%(vp_edges _ _ Hv). done. Qed.

(** What can be placed first is the base root. *)
Lemma greedy_base nodes edges order : valid_plan nodes edges → order ≡ₚ map node_ID nodes →
  greedy (map node_ID nodes) edges [] order → head order = Some "base".
Proof.
  intros Hv Hp Hg. destruct order as [|x order].
  { pose proof (vp_base _ _ Hv) as Hb. rewrite <-Hp in Hb. by apply elem_of_nil in Hb. }
  apply greedy_cons in Hg as (_ & Hleast & _). simpl. f_equal.
  assert (ready_le x "base") as Hle.
  { apply Hleast. split_and!; [by apply (vp_base _ _ Hv)|by apply not_elem_of_nil|].
    intros e He Hc. by apply (valid_plan_consumer nodes edges) in He. }
  apply ready_le_iff in Hle. change (nodeInitializationPriority "base") with 0 in Hle.
  unfold nodeInitializationPriority in Hle. case_bool_decide; [done|]. case_bool_decide; lia.
Qed.

(** Any list of nodes in the order of initialization. *)
Definition initialization_order (nodes : list NodeSpec) (edges : list ProviderEdgeV1) (order : list NodeID) : Prop :=
  order ≡ₚ map node_ID nodes ∧ head order = Some "base" ∧
  ∀ e, e ∈ edges → (position (Supplier e) order < position (Consumer e) order)%nat.

Lemma valid_plan_order nodes edges order : valid_plan nodes edges →
  StableProviderNodeOrder (map node_ID nodes) edges = Ok order → initialization_order nodes edges order.
Proof.
  intros Hv (_ & Hends & Hp & Hg)%stable_order_ok. split_and!; [done| |].
  - by eapply greedy_base.
  - by apply (greedy_rank (map node_ID nodes)).
Qed.

(** C33: a plan has an initialization order exactly when it is valid: the
    message of an incomplete order is never seen.  The order lists every node
    once, the base root first, and each supplier before its consumers. *)
Theorem StableProviderInitializationOrder_total plan :
  is_ok (StableProviderInitializationOrder plan) = is_ok (ValidateProviderPlanV1 plan) ∧
  ∀ order, StableProviderInitializationOrder plan = Ok order →
    initialization_order (elements (plan_Nodes plan)) (elements (plan_Edges plan)) order.
Proof.
  unfold StableProviderInitializationOrder. destruct (ValidateProviderPlanV1 plan) as [[]|msg] eqn:Hv; [|done].
  apply plan_valid in Hv as (_ & nodes & edges & Hn & He & Hvp). rewrite Hn, He. simpl.
  destruct (valid_plan_graph nodes edges Hvp) as (Hnd & Hends & Hac). split.
  - by destruct (stable_order_exists (map node_ID nodes) edges) as (order & ->).
  - intros order Ho. by apply valid_plan_order.
Qed.

(** ** Normalisation *)

#[local] Instance node_le_trans : Transitive node_le.
Proof. intros a b c. unfold node_le. by etrans. Qed.
#[local] Instance node_lt_trans : Transitive node_lt.
Proof. intros a b c. unfold node_lt. by etrans. Qed.
#[local] Instance node_le_total : Total node_le.
Proof. intros a b. apply (total String.le). Qed.
Lemma edge_le_iff a b : edge_le a b ↔ ¬ edge_lt b a.
Proof.
  unfold edge_le, edge_lt. assert (compareProviderEdges b a = - compareProviderEdges a b) as ->; [|lia].
  unfold compareProviderEdges, three_way.
  assert (∀ s t, String.ltb s t = true → String.ltb t s = true → False) as Hasym.
  { intros s t H1 H2. apply (irreflexivity string_lt s). by transitivity t. }
  destruct (String.ltb (Supplier a) (Supplier b)) eqn:E1, (String.ltb (Supplier b) (Supplier a)) eqn:E2; try done;
    [by destruct (Hasym _ _ E1 E2)|].
  destruct (String.ltb (Consumer a) (Consumer b)) eqn:E3, (String.ltb (Consumer b) (Consumer a)) eqn:E4; try done;
    [by destruct (Hasym _ _ E3 E4)|].
  destruct (String.ltb (RequirementID a) (RequirementID b)) eqn:E5, (String.ltb (RequirementID b) (RequirementID a)) eqn:E6;
    try done. by destruct (Hasym _ _ E5 E6).
Qed.
Definition same_place (a b : ProviderEdgeV1) : Prop :=
  Supplier a = Supplier b ∧ Consumer a = Consumer b ∧ RequirementID a = RequirementID b.
Lemma edge_lt_total a b : edge_lt a b ∨ same_place a b ∨ edge_lt b a.
Proof.
  unfold same_place. rewrite !edge_lt_iff. destruct (string_lt_total (Supplier a) (Supplier b)) as [?|[?|?]]; [tauto| |tauto].
  destruct (string_lt_total (Consumer a) (Consumer b)) as [?|[?|?]]; [tauto| |naive_solver].
  destruct (string_lt_total (RequirementID a) (RequirementID b)) as [?|[?|?]]; naive_solver.
Qed.
Lemma edge_le_alt a b : edge_le a b ↔ edge_lt a b ∨ same_place a b.
Proof.
  rewrite edge_le_iff. destruct (edge_lt_total a b) as [H|[H|H]].
  - split; [by left|]. intros _ H'. apply (irreflexivity edge_lt a). by etrans.
  - split; [by right|]. intros _. destruct H as (Hs & Hc & Hr). rewrite edge_lt_iff. intros [H|[_ [H|[_ H]]]].
    + apply (irreflexivity string_lt (Supplier a)). congruence.
    + apply (irreflexivity string_lt (Consumer a)). congruence.
    + apply (irreflexivity string_lt (RequirementID a)). congruence.
  - split; [done|]. intros [H'|(Hs & Hc & Hr)] _.
    + apply (irreflexivity edge_lt a). by etrans.
    + apply (irreflexivity edge_lt a). rewrite edge_lt_iff in H |- *. congruence.
Qed.
#[local] Instance edge_le_trans : Transitive edge_le.
Proof.
  intros a b c. rewrite !edge_le_alt. intros [H1|(Hs & Hc & Hr)] [H2|(Hs' & Hc' & Hr')].
  - left. by etrans.
  - left. rewrite edge_lt_iff in *. congruence.
  - left. rewrite edge_lt_iff in *. congruence.
  - right. split_and!; congruence.
Qed.
#[local] Instance edge_le_total : Total edge_le.
Proof.
  intros a b. rewrite !edge_le_alt. destruct (edge_lt_total a b) as [?|[(? & ? & ?)|?]]; [tauto| |tauto].
  left. by right.
Qed.

Lemma normalize_valid plan nodes edges : valid_plan nodes edges →
  nodes ≡ₚ elements (plan_Nodes plan) → edges ≡ₚ elements (plan_Edges plan) →
  NormalizeProviderPlanV1 plan = Build_ProviderPlanV1 (plan_Schema plan) (Some nodes) (Some edges).
Proof.
  intros Hv Hn He. unfold NormalizeProviderPlanV1. do 2 f_equal.
  - apply (sort_strict _ node_lt); [|by symmetry|apply (vp_sorted _ _ Hv)].
    intros x y [Hle Hne]%string_lt_le. split; [done|]. intros Hge. apply Hne. by apply (anti_symm String.le).
  - f_equal. apply (sort_strict _ edge_lt); [|by symmetry|apply (vp_edges_sorted _ _ Hv)].
    intros x y Hlt. rewrite !edge_le_iff. split; [|naive_solver]. intros H. apply (irreflexivity edge_lt x). by etrans.
Qed.

(** [NormalizeProviderPlanV1] sorts the nodes and edges of a plan and
    changes nothing else; and whenever some arrangement of a plan's nodes and
    edges is valid, normalisation gives that arrangement. *)
Theorem NormalizeProviderPlanV1_spec plan :
  (let result := NormalizeProviderPlanV1 plan in
   elements (plan_Nodes result) ≡ₚ elements (plan_Nodes plan) ∧ Sorted node_le (elements (plan_Nodes result)) ∧
   elements (plan_Edges result) ≡ₚ elements (plan_Edges plan) ∧ Sorted edge_le (elements (plan_Edges result))) ∧
  ∀ nodes edges, valid_plan nodes edges → nodes ≡ₚ elements (plan_Nodes plan) → edges ≡ₚ elements (plan_Edges plan) →
    NormalizeProviderPlanV1 plan = Build_ProviderPlanV1 (plan_Schema plan) (Some nodes) (Some edges).
Proof.
  split.
  - simpl. split_and!; [apply merge_sort_Permutation|apply Sorted_merge_sort; apply _|apply merge_sort_Permutation|].
    apply Sorted_merge_sort; apply _.
  - intros nodes edges. apply normalize_valid.
Qed.

Lemma NormalizeProviderPlanV1_spec_witness :
  valid_plan [example_base; example_python] [example_edge] ∧
  NormalizeProviderPlanV1 {| plan_Schema := ProviderPlanSchemaV1;
    plan_Nodes := Some [example_python; example_base]; plan_Edges := Some [example_edge] |} = example_plan.
Proof.
  assert (valid_plan [example_base; example_python] [example_edge]) as Hv.
  { assert (ValidateProviderPlanV1 example_plan = Ok tt) as H by (vm_compute; reflexivity).
    apply plan_valid in H as (_ & nodes & edges & [= <-] & [= <-] & Hv). exact Hv. }
  split; [exact Hv|].
  apply (proj2 (NormalizeProviderPlanV1_spec {| plan_Schema := ProviderPlanSchemaV1;
    plan_Nodes := Some [example_python; example_base]; plan_Edges := Some [example_edge] |}) _ _ Hv); simpl; [|done].
  apply Permutation_swap.
Defined.
