(* ===== verification/ProviderSelection.v ===== *)
(** * Suppliers selected at run time

    [ValidateProviderSelectedEdgesV1]: the edges selected for a plan give every
    executable requirement exactly one supplier, initialized before, that
    declares the output; an explicit requirement keeps the edge of the plan. *)

From Stdlib Require Import Ascii.
From S2P Require Import Prelude GoText Contributions Canonical ProviderGraph ProviderGraphFacts ProviderPlan.
From S2P Require Import ProviderCycles ProviderPlanFacts ProviderPlanProps.

Open Scope Z_scope.

(** ** Specification *)

(** The edge [e] is a choice of a supplier for the requirement [r] of [consumer]. *)
Definition selects (nodes : list NodeSpec) (edges : list ProviderEdgeV1) (order : list NodeID)
    (consumer : NodeSpec) (r : ExecutableRequirement) (e : ProviderEdgeV1) : Prop :=
  ∃ supplier, supplier ∈ nodes ∧ consumer ∈ nodes ∧ r ∈ executables_of consumer ∧
    Supplier e = node_ID supplier ∧ Consumer e = node_ID consumer ∧ RequirementID e = er_ID r ∧
    Name (Output e) = er_Command r ∧ nodeDeclaresOutput supplier (Output e) = true ∧
    (er_Supplier r ≠ "" → e ∈ edges) ∧
    (position (node_ID supplier) order < position (node_ID consumer) order)%nat.

Record valid_selection (nodes : list NodeSpec) (edges : list ProviderEdgeV1) (order : list NodeID)
    (selected : list ProviderEdgeV1) : Prop := {
  vs_sorted : Sorted edge_lt selected;
  vs_selects e : e ∈ selected → ∃ consumer r, selects nodes edges order consumer r e;
  vs_complete consumer r : consumer ∈ nodes → r ∈ executables_of consumer →
    ∃ e, e ∈ selected ∧ selects nodes edges order consumer r e;
  vs_single : NoDup (map edge_key selected)
}.

(** ** Maps built by loops *)

Lemma lookup_index_by {A} (f : A → string) (l : list A) k x : NoDup (map f l) →
  fold_left (λ (m : gmap string A) x, <[f x := x]> m) l ∅ !! k = Some x ↔ x ∈ l ∧ f x = k.
Proof.
  intros Hnd. assert (∀ m, fold_left (λ (m : gmap string A) x, <[f x := x]> m) l m =
    fold_left (λ (m : gmap string A) p, <[p.1 := p.2]> m) (map (λ x, (f x, x)) l) m) as ->.
  { clear Hnd. induction l as [|y l IH]; intros m; [done|]. simpl. apply IH. }
  rewrite lookup_fold_insert.
  - rewrite list_elem_of_fmap. naive_solver.
  - unfold fmap, list_fmap. change (NoDup (map fst (map (λ x, (f x, x)) l))). by rewrite map_map.
Qed.

Lemma rank_nodes_other index order rank n : n ∉ order → rank_nodes index order rank !! n = rank !! n.
Proof.
  revert index rank. induction order as [|x order IH]; intros index rank; [done|]. simpl.
  intros [Hx Hn]%not_elem_of_cons. rewrite IH by done. by rewrite lookup_insert_ne.
Qed.
Lemma rank_nodes_lookup index order rank n : NoDup order → n ∈ order →
  rank_nodes index order rank !! n = Some (index + Z.of_nat (position n order)).
Proof.
  revert index rank. induction order as [|x order IH]; intros index rank; [by intros _ ?%elem_of_nil|]. simpl.
  intros [Hx Hnd]%NoDup_cons Hn. destruct (decide (n = x)) as [->|Hne].
  - rewrite rank_nodes_other by done. rewrite lookup_insert_eq. f_equal. lia.
  - apply elem_of_cons in Hn as [?|Hn]; [done|]. rewrite IH by done. f_equal. lia.
Qed.

(** ** The check of a selected edge *)

Section selection.
Context (nodes : list NodeSpec) (edges : list ProviderEdgeV1) (order : list NodeID).
Hypothesis plan : valid_plan nodes edges.
Hypothesis initialization : initialization_order nodes edges order.

Definition selection_edge (e : ProviderEdgeV1) : Prop := ∃ consumer r, selects nodes edges order consumer r e.

Definition nodes_index : gmap NodeID NodeSpec := fold_left (λ nodes node, <[node_ID node := node]> nodes) nodes ∅.
Definition explicit_index : gmap string ProviderEdgeV1 :=
  fold_left (λ explicit edge, <[edgeRequirementKey (Consumer edge) (RequirementID edge) := edge]> explicit) edges ∅.

Lemma plan_keyed : keyed nodes.
Proof using plan. apply valid_nodes_keyed; by destruct plan. Qed.

Lemma nodes_index_iff id n : nodes_index !! id = Some n ↔ n ∈ nodes ∧ node_ID n = id.
Proof using plan. apply lookup_index_by. apply plan_keyed. Qed.

Lemma edge_keys_NoDup : NoDup (map edge_key edges).
Proof using plan.
  pose proof plan as Hv. apply valid_plan_iff in Hv as (_ & _ & Hnd & _); [done|by destruct plan..].
Qed.

Lemma explicit_index_iff k e : explicit_index !! k = Some e ↔ e ∈ edges ∧ edge_key e = k.
Proof using plan. apply (lookup_index_by edge_key). apply edge_keys_NoDup. Qed.

Lemma order_NoDup : NoDup order.
Proof using plan initialization. destruct initialization as (Hp & _ & _). rewrite Hp. apply plan_keyed. Qed.
Lemma rank_lookup n : n ∈ nodes → rank_nodes 0 order ∅ !! node_ID n = Some (Z.of_nat (position (node_ID n) order)).
Proof using plan initialization.
  intros Hn. rewrite rank_nodes_lookup; [done|apply order_NoDup|]. destruct initialization as (Hp & _ & _). rewrite Hp.
  by apply list_elem_of_fmap_2.
Qed.
Lemma base_first n : position "base" order = 0%nat ∧ (n ≠ "base" → n ∈ order → (0 < position n order)%nat).
Proof using initialization.
  destruct initialization as (_ & Hh & _). destruct order as [|x rest]; [done|]. simpl in Hh. injection Hh as ->. simpl.
  split; [done|]. intros Hn _. rewrite decide_False by done. lia.
Qed.

Definition check_step : gset string → ProviderEdgeV1 → result string :=
  check_selected nodes_index (index_requirements (λ _, true) nodes) explicit_index (rank_nodes 0 order ∅).

Lemma check_step_sound seen e key :
  check_step seen e = Ok key → key = edge_key e ∧ selection_edge e ∧ key ∉ seen.
Proof using plan initialization.
  pose proof plan_keyed as Hkeyed. destruct (Hkeyed) as [Hdist Hplain]. rewrite Forall_forall in Hplain.
  unfold check_step, check_selected. fold (edge_key e).
  destruct (nodes_index !! Supplier e) as [s|] eqn:Hs; [|done]. destruct (nodes_index !! Consumer e) as [c|] eqn:Hc; [|done].
  apply nodes_index_iff in Hs as [Hs Hsid], Hc as [Hc Hcid].
  rewrite reject_if_bind. intros [Hne H]. apply orb_false_iff in Hne as [Hne Hbase].
  apply bool_decide_eq_false in Hne, Hbase.
  destruct (index_requirements _ nodes !! edge_key e) as [r|] eqn:Hr; [|done].
  apply index_requirements_lookup in Hr as (n & Hn & Hr & _ & Hkey); [|done].
  apply key_inj in Hkey as [Hnc Hrid]; [|rewrite <-Hcid; by apply Hplain|by apply Hplain].
  assert (n = c) as -> by (apply (node_by_id nodes); [by destruct plan|done..|congruence]).
  apply reject_if_bind in H as [Hseen H]. apply bool_decide_eq_false in Hseen.
  apply reject_if_bind in H as [Hout H]. apply orb_false_iff in Hout as [Hname Hcomp].
  apply negb_false_iff, bool_decide_eq_true in Hname.
  apply reject_if_bind in H as [Hdecl H]. apply negb_false_iff in Hdecl.
  apply reject_if_bind in H as [Hex H]. apply reject_if_bind in H as [Hrank [= <-]].
  rewrite <-Hsid, <-Hcid, !rank_lookup in Hrank by done. simpl in Hrank. apply Z.leb_gt in Hrank.
  split_and!; [done| |done]. exists c, r, s. split_and!; [done..| |lia].
  intros Hsup. destruct (vp_met _ _ plan c r Hc Hr Hsup) as (s' & Hm).
  assert (structural_edge s' c r ∈ edges) as Hin by (apply (vp_edges _ _ plan); eauto).
  assert (explicit_index !! edge_key e = Some (structural_edge s' c r)) as Hlook.
  { apply explicit_index_iff. split; [done|]. unfold edge_key. simpl. congruence. }
  rewrite Hlook in Hex. apply negb_false_iff, bool_decide_eq_true in Hex. by rewrite Hex.
Qed.

Lemma check_step_complete seen e : selection_edge e → edge_key e ∉ seen → check_step seen e = Ok (edge_key e).
Proof using plan initialization.
  pose proof plan_keyed as Hkeyed. destruct (Hkeyed) as [Hdist Hplain]. rewrite Forall_forall in Hplain.
  unfold check_step, check_selected. fold (edge_key e).
  intros (c & r & s & Hs & Hc & Hr & Hsid & Hcid & Hrid & Hname & Hdecl & Hin & Hpos) Hseen.
  rewrite (proj2 (nodes_index_iff (Supplier e) s)) by done. rewrite (proj2 (nodes_index_iff (Consumer e) c)) by done.
  rewrite Hsid, Hcid. assert (node_ID s ≠ node_ID c) as Hne by (intros Heq; rewrite Heq in Hpos; lia).
  assert (node_ID c ≠ "base") as Hbase.
  { intros Heq. destruct (base_first (node_ID c)) as [Hb _]. rewrite Heq, Hb in Hpos. lia. }
  rewrite !(bool_decide_false (node_ID _ = _)) by done. simpl.
  assert (index_requirements (λ _, true) nodes !! edge_key e = Some r) as ->.
  { apply index_requirements_lookup; [done|]. exists c. split_and!; [done..|]. unfold edge_key. congruence. }
  rewrite (bool_decide_false (edge_key e ∈ seen)), Hname, Hdecl, (bool_decide_true (er_Command r = er_Command r)) by done. simpl.
  assert (explicit_requirement r && negb (bool_decide (Component (Output e) = er_Supplier r)) = false) as ->.
  { unfold explicit_requirement. case_bool_decide as Hsup; [done|]. simpl. apply negb_false_iff, bool_decide_eq_true.
    apply Hin, (vp_edges _ _ plan) in Hsup as (s' & c' & r' & (_ & Hc' & Hr' & _) & Heq). rewrite Heq in Hcid, Hrid |- *. simpl in *.
    assert (c' = c) as -> by (apply (node_by_id nodes); [by destruct plan|done..]).
    assert (r' = r) as -> by (apply (requirement_by_id nodes) with c; [by destruct plan|done..]). done. }
  simpl. assert (match explicit_index !! edge_key e with Some expected => negb (bool_decide (e = expected)) | None => false end
    = false) as ->.
  { destruct (explicit_index !! edge_key e) as [e'|] eqn:He'; [|done]. apply explicit_index_iff in He' as [He' Hk].
    apply negb_false_iff, bool_decide_eq_true. apply (vp_edges _ _ plan) in He' as (s' & c' & r' & Hm & ->).
    pose proof Hm as (_ & Hc' & Hr' & Hsup & _).
    apply key_inj in Hk as [Hcc Hrr]; [|by apply Hplain|rewrite Hcid; by apply Hplain]. simpl in Hcc, Hrr.
    assert (c' = c) as -> by (apply (node_by_id nodes); [by destruct plan|done..|congruence]).
    assert (r' = r) as -> by (apply (requirement_by_id nodes) with c; [by destruct plan|done..|congruence]).
    specialize (Hin Hsup). apply (explicit_key_unique nodes); [by destruct plan..|by apply (vp_edges _ _ plan)|by exists s', c, r|].
    unfold edge_key. simpl. congruence. }
  simpl. rewrite !rank_lookup by done. simpl. destruct (Z.leb_spec (Z.of_nat (position (node_ID c) order))
    (Z.of_nat (position (node_ID s) order))); [lia|done].
Qed.

Lemma check_step_ok seen e key : check_step seen e = Ok key ↔ key = edge_key e ∧ selection_edge e ∧ key ∉ seen.
Proof using plan initialization.
  split; [apply check_step_sound|]. intros (-> & ? & ?). by apply check_step_complete.
Qed.

(** Sorted edges that select a supplier, one for each requirement. *)
Lemma valid_selection_iff selected :
  (Sorted edge_lt selected ∧ Forall selection_edge selected ∧ NoDup (map edge_key selected) ∧
    all_seen (index_requirements (λ _, true) nodes) (list_to_set (map edge_key selected) ∪ ∅) = true) ↔
  valid_selection nodes edges order selected.
Proof using plan initialization.
  unfold all_seen. rewrite bool_decide_eq_true, (right_id_L ∅ (∪)). pose proof plan_keyed as Hkeyed. split.
  - intros (Hs & Hsel & Hnd & Hall). rewrite Forall_forall in Hsel. split; [done|exact Hsel| |done].
    intros c r Hc Hr. assert (edgeRequirementKey (node_ID c) (er_ID r) ∈ map edge_key selected) as Hin.
    { apply (elem_of_list_to_set (C := gset string)), (Hall _ r), index_requirements_lookup; eauto. }
    apply list_elem_of_fmap in Hin as (e & Hk & He). exists e. split; [done|].
    destruct (Hsel e He) as (c' & r' & Hm). pose proof Hm as (_ & _ & Hc' & Hr' & _ & Hcid & Hrid & _).
    destruct Hkeyed as [_ Hplain]. rewrite Forall_forall in Hplain. unfold edge_key in Hk. rewrite Hcid, Hrid in Hk.
    apply key_inj in Hk as [Hcc Hrr]; [|by apply Hplain..].
    assert (c = c') as <- by (apply (node_by_id nodes); [by destruct plan|done..]).
    by assert (r = r') as <- by (apply (requirement_by_id nodes) with c; [by destruct plan|done..]).
  - intros [Hs Hsel Hall Hnd]. split_and!; [done|by apply Forall_forall|done|].
    intros k r (c & Hc & Hr & _ & ->)%index_requirements_lookup; [|done]. apply elem_of_list_to_set.
    destruct (Hall c r Hc Hr) as (e & He & (_ & _ & _ & _ & _ & Hcid & Hrid & _)).
    apply list_elem_of_fmap. exists e. split; [|done]. unfold edge_key. congruence.
Qed.

Lemma selection_acyclic selected : Forall selection_edge selected →
  endpoints_known (map node_ID nodes) selected ∧ acyclic selected.
Proof using Type.
  intros Hsel. rewrite Forall_forall in Hsel. split.
  - intros e He. destruct (Hsel e He) as (c & r & s & Hs & Hc & _ & -> & -> & _). split; by apply list_elem_of_fmap_2.
  - exists (λ n, position n order). intros e He.
    destruct (Hsel e He) as (c & r & s & _ & _ & _ & -> & -> & _ & _ & _ & _ & Hpos). done.
Qed.
End selection.

(** C32: [ValidateProviderSelectedEdgesV1] accepts, for a valid plan, exactly the
    selections that give every executable requirement one supplier: a node that
    declares the command and comes before the consumer in the initialization
    order, the plan's own edge where the requirement is explicit.  The final
    search for cycles rejects nothing. *)
Theorem ValidateProviderSelectedEdgesV1_spec plan selected :
  ValidateProviderSelectedEdgesV1 plan (Some selected) = Ok tt ↔
    ∃ order, StableProviderInitializationOrder plan = Ok order ∧
      valid_selection (elements (plan_Nodes plan)) (elements (plan_Edges plan)) order selected.
Proof.
  unfold ValidateProviderSelectedEdgesV1, StableProviderInitializationOrder.
  destruct (ValidateProviderPlanV1 plan) as [[]|msg] eqn:Hv; [|by split; [|intros (? & ? & _)]].
  apply plan_valid in Hv as (_ & nodes & edges & -> & -> & Hvp). rewrite !bind_Ok. simpl elements.
  destruct (valid_plan_graph nodes edges Hvp) as (Hnd & Hends & Hac).
  destruct (stable_order_exists (map node_ID nodes) edges Hnd Hends Hac) as (order & Ho). rewrite Ho, bind_Ok.
  assert (initialization_order nodes edges order) as Hi by (by apply valid_plan_order).
  change (check_selected _ _ _ _) with (check_step nodes edges order). split.
  - intros ([seen adjacency] & Hloop & H)%bind_ok. exists order. split; [done|].
    apply (edge_loop_ok _ (selection_edge nodes edges order)) in Hloop as (Hs & Hsel & Hk & _ & [= -> ->]);
      [|intros; by apply check_step_ok].
    apply reject_if_bind in H as [Hall _]. apply negb_false_iff in Hall. by apply valid_selection_iff.
  - intros (? & [= <-] & (Hs & Hsel & Hk & Hall)%valid_selection_iff); [|done..].
    rewrite (proj2 (edge_loop_ok _ (selection_edge nodes edges order) _ (λ seen e key, check_step_ok nodes edges order Hvp Hi seen e key)
      None selected ∅ ∅ (list_to_set (map edge_key selected) ∪ ∅, fold_left (λ adj e, add_consumer e adj) selected ∅)));
      [|split_and!; [exact Hs|done|done|set_solver|reflexivity]]. simpl. rewrite Hall. simpl. apply wrap_ok.
    destruct (selection_acyclic nodes edges order selected Hsel) as [Hknown Hacyclic].
    by apply (rejectProviderPlanCycles_spec nodes selected); [apply adjacency_consumers|..].
Qed.
