(* ===== verification/Platform.v ===== *)
(** * Target platforms

    [internal/blueprint/platform.go]: OCI platforms [os/architecture[/variant]],
    the set a blueprint declares, and the check of a selected platform.

    [Platform.Validate] compares the joined fields of a record with its canonical
    text; [platform_fields_unchecked] shows a record that it accepts although
    parsing its canonical text gives other fields. *)

From Stdlib Require Import Ascii.
From S2P Require Import Prelude GoText.

Open Scope Z_scope.

(** ** Definitions *)

Record Platform := MakePlatform {
  OS : string;
  Architecture : string;
  Variant : string;
  Canonical : string
}.
#[export] Instance Platform_eq_dec : EqDecision Platform.
Proof. solve_decision. Defined.

Definition part_start (c : ascii) : bool := is_lower c || is_digit c.
Definition part_char (c : ascii) : bool :=
  part_start c || bool_decide (c = "."%char) || bool_decide (c = "_"%char) || bool_decide (c = "-"%char).
Definition isCanonicalPlatformPart (value : string) : bool :=
  match value with
  | EmptyString => false
  | String c rest => part_start c && string_forallb part_char rest
  end.

(** The three concatenations of the source. *)
Definition platform_text (os architecture variant : string) : string :=
  let canonical := os +:+ "/" +:+ architecture in
  if bool_decide (variant = "") then canonical else canonical +:+ "/" +:+ variant.

Definition ParsePlatform (value : string) : result Platform :=
  _ ← reject_if (bool_decide (value = "") || negb (bool_decide (trim_space value = value)))
        "platform must be a canonical lowercase os/architecture[/variant] value";
  let parts := split_byte value "/"%char in
  _ ← reject_if ((length parts <? 2)%nat || (3 <? length parts)%nat) "platform must have the form os/architecture[/variant]";
  _ ← reject_if (negb (forallb isCanonicalPlatformPart parts)) "platform must contain lowercase slash-free OCI fields";
  match parts with
  | [os; architecture] => Ok (MakePlatform os architecture "" (platform_text os architecture ""))
  | [os; architecture; variant] => Ok (MakePlatform os architecture variant (platform_text os architecture variant))
  | _ => Err "unreachable"
  end.

Definition ValidatePlatform (platform : Platform) : result unit :=
  parsed ← ParsePlatform (platform_text (OS platform) (Architecture platform) (Variant platform));
  reject_if (negb (bool_decide (Canonical platform = Canonical parsed)))
    "platform canonical value does not match parsed fields".

(** The loop of [ParseCompatibility]. *)
Fixpoint parse_platforms (values : list string) (seen : gset string) : result (list Platform) :=
  match values with
  | [] => Ok []
  | value :: rest =>
    platform ← ParsePlatform value;
    _ ← reject_if (bool_decide (Canonical platform ∈ seen)) "blueprint.compatibility.platforms contains duplicate";
    others ← parse_platforms rest ({[Canonical platform]} ∪ seen);
    Ok (platform :: others)
  end.
Definition platform_le (left right : Platform) : Prop := String.le (Canonical left) (Canonical right).
#[export] Instance platform_le_dec left right : Decision (platform_le left right).
Proof. unfold platform_le. apply _. Defined.

(** A [Compatibility] is the list of its platforms. *)
Definition ParseCompatibility (values : list string) : result (list Platform) :=
  _ ← reject_if (bool_decide (values = [])) "blueprint.compatibility.platforms must not be empty";
  platforms ← parse_platforms values ∅;
  Ok (merge_sort platform_le platforms).

Definition covers (selected declared : Platform) : bool :=
  bool_decide (OS declared = OS selected) && bool_decide (Architecture declared = Architecture selected)
  && (bool_decide (Variant declared = "") || bool_decide (Variant declared = Variant selected)).

Definition check_declared (previous : option Platform) (declared : Platform) : result unit :=
  _ ← ValidatePlatform declared;
  reject_if (match previous with Some p => string_geb (Canonical p) (Canonical declared) | None => false end)
    "resolved blueprint compatibility platforms must be unique and sorted".

(** The declared set is the only part of the document the check reads. *)
Definition ValidateSelectedPlatform (declared : list Platform) (selected : Platform) : result unit :=
  _ ← ValidatePlatform selected;
  _ ← reject_if (bool_decide (declared = [])) "resolved blueprint declares no compatible platforms";
  _ ← check_each check_declared None declared;
  let matches := length (filter (λ d, covers selected d = true) declared) in
  _ ← reject_if (matches =? 0)%nat "selected platform is not declared by the resolved blueprint";
  reject_if (negb (matches =? 1)%nat) "selected platform matches multiple resolved blueprint declarations".

Example platform_example :
  ParsePlatform "linux/arm64/v8" = Ok (MakePlatform "linux" "arm64" "v8" "linux/arm64/v8") ∧
  is_ok (ParsePlatform "linux") = false ∧ is_ok (ParsePlatform "Linux/amd64") = false ∧
  is_ok (ParseCompatibility ["linux/arm64"; "linux/amd64"; "linux/arm64"]) = false ∧
  map Canonical <$> ParseCompatibility ["linux/arm64"; "linux/amd64"] = Ok ["linux/amd64"; "linux/arm64"].
Proof. vm_compute. done. Qed.

(** A record whose fields are not those of its canonical text is accepted. *)
Example platform_fields_unchecked :
  let odd := MakePlatform "linux/arm64" "v8" "" "linux/arm64/v8" in
  ValidatePlatform odd = Ok tt ∧ ParsePlatform (Canonical odd) ≠ Ok odd ∧
  is_ok (ValidateSelectedPlatform [MakePlatform "linux" "arm64" "v8" "linux/arm64/v8"] odd) = false.
Proof. vm_compute. done. Qed.
