(* ===== verification/PlatformFacts.v ===== *)
(** * Platforms and their texts

    Parsing is a bijection between canonical texts and well-formed records, and a
    declared set is parsed to its sorted records. *)

From Stdlib Require Import Ascii.
From S2P Require Import Prelude GoText Contributions Platform.

Open Scope Z_scope.

(** ** Plain text *)

(** Text of ASCII characters without spaces. *)
Definition plain (s : string) : Prop := Forall (λ c, code c < 128 ∧ is_space (code c) = false) (bytes s).

Lemma decode_ascii l : Forall (λ c, code c < 128) l → decode_runes l = map (λ c, Rune (code c) [c] true) l.
Proof.
  induction 1 as [|c l Hc _ IH]; [done|]. cbn [decode_runes map]. unfold utf8_lead.
  destruct (Z.ltb_spec (code c) 128); [|lia]. by rewrite IH.
Qed.

Lemma drop_spaces_none rs : Forall (λ r, is_space (rune_value r) = false) rs → drop_spaces rs = rs.
Proof. destruct 1 as [|r rs Hr _]; [done|]. simpl. by rewrite Hr. Qed.

Lemma trim_space_plain s : plain s → trim_space s = s.
Proof.
  intros Hs. unfold trim_space, runes. rewrite decode_ascii.
  - rewrite !drop_spaces_none.
    + rewrite rev_involutive. unfold encode_runes. rewrite map_map. simpl.
      assert (concat (map (λ c : ascii, [c]) (bytes s)) = bytes s) as Hc.
      { induction (bytes s) as [|c l IH]; [done|]. simpl. by rewrite IH. }
      change (String.list_ascii_of_string s) with (bytes s). rewrite Hc. apply String.string_of_list_ascii_of_string.
    + apply Forall_map. eapply Forall_impl; [exact Hs|]. by intros c [_ ?].
    + rewrite drop_spaces_none.
      * apply Forall_rev, Forall_map. eapply Forall_impl; [exact Hs|]. by intros c [_ ?].
      * apply Forall_map. eapply Forall_impl; [exact Hs|]. by intros c [_ ?].
  - eapply Forall_impl; [exact Hs|]. by intros c [? _].
Qed.

Lemma plain_app s t : plain (s +:+ t) ↔ plain s ∧ plain t.
Proof. unfold plain. by rewrite bytes_app, Forall_app. Qed.

(** ** Parts *)

Definition part (s : string) : Prop := isCanonicalPlatformPart s = true.

Lemma part_char_plain c : part_char c = true → c ≠ "/"%char ∧ code c < 128 ∧ is_space (code c) = false.
Proof.
  unfold part_char, part_start. intros H. assert (c ≠ "/"%char) as Hne by (intros ->; by vm_compute in H). split; [done|].
  rewrite !orb_true_iff, !bool_decide_eq_true in H. destruct H as [[[[H|H]| ->]| ->]| ->]; try (by vm_compute).
  - unfold is_lower, in_range in H. go_bool. unfold is_space, in_ranges, in_range. simpl.
    split; [lia|]. apply not_true_iff_false. intros Hs. repeat (apply orb_true_iff in Hs as [Hs|Hs]; [go_bool; lia|]). done.
  - unfold is_digit, in_range in H. go_bool. unfold is_space, in_ranges, in_range. simpl.
    split; [lia|]. apply not_true_iff_false. intros Hs. repeat (apply orb_true_iff in Hs as [Hs|Hs]; [go_bool; lia|]). done.
Qed.

Lemma part_text s : part s → contains_byte s "/"%char = false ∧ plain s ∧ s ≠ "".
Proof.
  intros H. assert (s ≠ "") as Hne by (intros ->; done).
  assert (Forall (λ c, part_char c = true) (bytes s)) as Hall.
  { destruct s as [|c s]; [done|]. unfold part in H. simpl in H. apply andb_true_iff in H as [Hc Hs].
    constructor; [unfold part_char; by rewrite Hc|]. rewrite string_forallb_bytes in Hs. by apply Forall_bool. }
  split_and!; [| |done].
  - apply contains_byte_false. intros Hin. rewrite Forall_forall in Hall. by apply Hall, part_char_plain in Hin as [? _].
  - eapply Forall_impl; [exact Hall|]. intros c Hc. by apply part_char_plain.
Qed.

(** ** Records and texts *)

Record well_formed (p : Platform) : Prop := {
  wf_os : part (OS p);
  wf_architecture : part (Architecture p);
  wf_variant : Variant p = "" ∨ part (Variant p);
  wf_canonical : Canonical p = platform_text (OS p) (Architecture p) (Variant p)
}.

Lemma split_text os architecture variant :
  contains_byte os "/"%char = false → contains_byte architecture "/"%char = false → contains_byte variant "/"%char = false →
  split_byte (platform_text os architecture variant) "/"%char =
    if bool_decide (variant = "") then [os; architecture] else [os; architecture; variant].
Proof.
  intros Ho Ha Hv. unfold platform_text. case_bool_decide.
  - change ("/" +:+ architecture) with (String "/" architecture). rewrite split_byte_app by done. by rewrite split_byte_none.
  - rewrite append_assoc. change (("/" +:+ architecture) +:+ "/" +:+ variant) with (String "/" (architecture +:+ String "/" variant)).
    rewrite !split_byte_app by done. by rewrite split_byte_none.
Qed.

Lemma plain_slash : plain "/".
Proof. constructor; [by vm_compute|constructor]. Qed.
Lemma text_plain os architecture variant :
  plain os → plain architecture → plain variant → plain (platform_text os architecture variant).
Proof.
  intros Ho Ha Hv. unfold platform_text. case_bool_decide; rewrite !plain_app; split_and!; done || apply plain_slash.
Qed.

Lemma ParsePlatform_ok value p : ParsePlatform value = Ok p ↔ well_formed p ∧ Canonical p = value.
Proof.
  unfold ParsePlatform. split.
  - intros H. apply reject_if_bind in H as [_ H]. apply reject_if_bind in H as [_ H]. apply reject_if_bind in H as [Hp H].
    apply negb_false_iff, Forall_bool in Hp.
    destruct (split_byte value "/"%char) as [|os [|architecture [|variant [|? ?]]]] eqn:Hs; try done; injection H as <-;
      apply (f_equal (λ parts, join parts "/")) in Hs; rewrite join_split in Hs; simpl in Hs; rewrite !Forall_cons in Hp.
    + destruct Hp as (Ho & Ha & _). split; [split; simpl; [done|done|by left|done]|]. by rewrite Hs.
    + destruct Hp as (Ho & Ha & Hv & _). split; [split; simpl; [done|done|by right|done]|]. simpl. unfold platform_text.
      assert (variant ≠ "") as Hne by (intros ->; done). rewrite bool_decide_false, Hs by done. by rewrite append_assoc.
  - intros [[Ho Ha Hv Hc] <-]. destruct (part_text _ Ho) as (Hos & Hop & Hone). destruct (part_text _ Ha) as (Has & Hap & _).
    assert (contains_byte (Variant p) "/"%char = false ∧ plain (Variant p)) as [Hvs Hvp].
    { destruct Hv as [->|Hv]; [split; [done|constructor]|]. by destruct (part_text _ Hv) as (? & ? & _). }
    assert (platform_text (OS p) (Architecture p) (Variant p) ≠ "") as Hne.
    { unfold platform_text. destruct (OS p); [done|]. by case_bool_decide. }
    assert (bool_decide (Canonical p = "") || negb (bool_decide (trim_space (Canonical p) = Canonical p)) = false) as ->.
    { apply orb_false_iff. rewrite bool_decide_false by congruence. split; [done|]. apply negb_false_iff, bool_decide_eq_true.
      rewrite Hc. apply trim_space_plain. by apply text_plain. }
    rewrite Hc, split_text by done. destruct p as [os architecture variant canonical]. simpl in *. subst canonical.
    unfold part in *. case_bool_decide as Hvar.
    + subst variant. simpl. by rewrite Ho, Ha.
    + destruct Hv as [?|Hv]; [done|]. simpl. by rewrite Ho, Ha, Hv.
Qed.

Lemma ValidatePlatform_ok p : ValidatePlatform p = Ok tt ↔
  Canonical p = platform_text (OS p) (Architecture p) (Variant p) ∧ ∃ q, well_formed q ∧ Canonical q = Canonical p.
Proof.
  unfold ValidatePlatform. rewrite bind_ok. setoid_rewrite ParsePlatform_ok. setoid_rewrite reject_if_ok.
  setoid_rewrite negb_false_iff. setoid_rewrite bool_decide_eq_true. split.
  - intros (q & [Hq Hc] & Heq). split; [congruence|]. by exists q.
  - intros [Hc (q & Hq & Heq)]. exists q. split_and!; [done|congruence|done].
Qed.

(** ** Declared sets *)

Definition platform_lt (left right : Platform) : Prop := string_lt (Canonical left) (Canonical right).
#[local] Instance platform_le_trans : Transitive platform_le.
Proof. intros a b c. unfold platform_le. by etrans. Qed.
#[local] Instance platform_le_total : Total platform_le.
Proof. intros a b. apply (total String.le). Qed.
#[local] Instance platform_lt_trans : Transitive platform_lt.
Proof. intros a b c. unfold platform_lt. by etrans. Qed.

Lemma parse_platforms_ok values seen platforms : parse_platforms values seen = Ok platforms ↔
  map Canonical platforms = values ∧ Forall well_formed platforms ∧ NoDup values ∧ ∀ v, v ∈ values → v ∉ seen.
Proof.
  revert seen platforms. induction values as [|v values IH]; intros seen platforms; simpl.
  { split.
    - intros [= <-]. split_and!; [done|constructor|constructor|by intros ? ?%elem_of_nil].
    - intros (H & _). by destruct platforms. }
  rewrite bind_ok. setoid_rewrite ParsePlatform_ok. setoid_rewrite reject_if_bind. setoid_rewrite bind_ok.
  setoid_rewrite IH. setoid_rewrite bool_decide_eq_false. rewrite NoDup_cons. split.
  - intros (p & [Hp <-] & Hseen & others & (<- & Hall & Hnd & Hs) & [= <-]). simpl. split_and!; [done|by constructor| |done|].
    + intros Hin. specialize (Hs _ Hin). set_solver.
    + intros w [->|Hw]%elem_of_cons; [done|]. specialize (Hs w Hw). set_solver.
  - intros (Hm & Hall & [Hv Hnd] & Hs). destruct platforms as [|p others]; [done|]. simpl in Hm. injection Hm as <- <-.
    apply Forall_cons in Hall as [Hp Hall]. exists p. split_and!; [done|done|apply Hs; left|]. exists others.
    split_and!; [done|done|done| |done]. intros w Hw [->%elem_of_singleton|Hin]%elem_of_union; [done|].
    by apply (Hs w); [right|].
Qed.

Lemma ParseCompatibility_ok values platforms : ParseCompatibility values = Ok platforms ↔
  values ≠ [] ∧ Forall well_formed platforms ∧ Sorted platform_lt platforms ∧ values ≡ₚ map Canonical platforms.
Proof.
  unfold ParseCompatibility. rewrite reject_if_bind, bool_decide_eq_false. apply and_iff_compat_l.
  rewrite bind_ok. setoid_rewrite parse_platforms_ok. split.
  - intros (ps & (Hm & Hall & Hnd & _) & [= <-]). assert (merge_sort platform_le ps ≡ₚ ps) as Hp by apply merge_sort_Permutation.
    split_and!; [by rewrite Hp| |by rewrite Hp, Hm]. subst values.
    assert (NoDup (map Canonical (merge_sort platform_le ps))) as Hnds by (by rewrite Hp).
    assert (Sorted platform_le (merge_sort platform_le ps)) as Hs by (apply Sorted_merge_sort; apply _).
    clear -Hnds Hs. induction Hs as [|a l Hs IH Ha]; constructor.
    + apply IH. by apply NoDup_cons in Hnds as [_ ?].
    + destruct Ha as [|b l Hab]; constructor. apply string_lt_le. split; [done|]. apply NoDup_cons in Hnds as [Hn _].
      intros Heq. apply Hn. rewrite Heq. left.
  - intros (Hall & Hs & Hp). apply Permutation_map_inv in Hp as (ps & -> & Hps). exists ps. split.
    + split_and!; [done|by rewrite <-Hps| |by intros ? _ ?%elem_of_empty].
      assert (NoDup (map Canonical platforms)) as Hnd by (by apply (strict_NoDup Canonical string_lt)).
      by rewrite <-Hps.
    + f_equal. apply (sort_strict _ platform_lt); [|by symmetry|done].
      intros x y [Hle Hne]%string_lt_le. split; [done|]. intros Hge. apply Hne. by apply (anti_symm String.le).
Qed.

Lemma check_declared_ok declared : check_each check_declared None declared = Ok tt ↔
  Forall (λ d, ValidatePlatform d = Ok tt) declared ∧ Sorted platform_lt declared.
Proof.
  rewrite (check_each_spec check_declared (λ d, ValidatePlatform d = Ok tt) platform_lt).
  - naive_solver.
  - intros previous x. unfold check_declared. rewrite bind_ok. setoid_rewrite reject_if_ok. split.
    + intros ([] & Hv & Hs). split; [done|]. intros y ->. by apply string_geb_lt.
    + intros [Hv Hs]. exists tt. split; [done|]. destruct previous as [y|]; [|done]. apply string_geb_lt. by apply Hs.
Qed.

Lemma filter_one {A} (p : A → bool) l : length (filter (λ x, p x = true) l) = 1%nat →
  ∃ before d after, l = before ++ d :: after ∧ p d = true ∧ Forall (λ x, p x = false) (before ++ after).
Proof.
  induction l as [|x l IH]; [done|]. rewrite filter_cons. case_decide as Hx; simpl.
  - intros [= H%nil_length_inv]. exists [], x, l. split_and!; [done|done|]. apply Forall_forall. intros y Hy. simpl in Hy.
    apply not_true_iff_false. intros Hp. assert (y ∈ filter (λ x, p x = true) l) as Hin by (by apply list_elem_of_filter).
    rewrite H in Hin. by apply elem_of_nil in Hin.
  - intros (before & d & after & -> & Hd & Hno)%IH. exists (x :: before), d, after. split_and!; [done|done|].
    constructor; [by apply not_true_iff_false|done].
Qed.

(** ** Properties *)

(** [ParsePlatform] is a bijection: it accepts exactly the canonical texts
    of well-formed records, and returns the one record whose text it was given. *)
Theorem ParsePlatform_spec value p : ParsePlatform value = Ok p ↔ well_formed p ∧ Canonical p = value.
Proof. apply ParsePlatform_ok. Qed.

(** A declared set of platforms is parsed to the strictly sorted records of
    its texts, whatever their order, and is refused when it is empty, repeats a
    text or holds one that is not canonical.  A selected platform passes exactly
    when one and only one declared platform covers it. *)
Theorem compatibility_spec values platforms selected :
  (ParseCompatibility values = Ok platforms ↔
    values ≠ [] ∧ Forall well_formed platforms ∧ Sorted platform_lt platforms ∧ values ≡ₚ map Canonical platforms) ∧
  (ValidateSelectedPlatform platforms selected = Ok tt ↔
    ValidatePlatform selected = Ok tt ∧ Forall (λ d, ValidatePlatform d = Ok tt) platforms ∧ Sorted platform_lt platforms ∧
    ∃ before d after, platforms = before ++ d :: after ∧ covers selected d = true ∧
      Forall (λ d, covers selected d = false) (before ++ after)).
Proof.
  split; [apply ParseCompatibility_ok|]. unfold ValidateSelectedPlatform. rewrite bind_ok. split.
  - intros ([] & Hsel & H). apply reject_if_bind in H as [Hne H]. apply bind_ok in H as ([] & Hd & H).
    apply check_declared_ok in Hd as [Hall Hs]. apply reject_if_bind in H as [_ H]. apply reject_if_ok, negb_false_iff in H.
    apply Nat.eqb_eq in H. split_and!; [done|done|done|]. by apply filter_one.
  - intros (Hsel & Hall & Hs & before & d & after & -> & Hd & Hno). exists tt. split; [done|].
    rewrite bool_decide_false by (by destruct before). simpl. rewrite (proj2 (check_declared_ok _)) by done. simpl.
    assert (length (filter (λ d, covers selected d = true) (before ++ d :: after)) = 1%nat) as ->; [|done].
    apply Forall_app in Hno as [Hb Ha]. rewrite filter_app, filter_cons_True, length_app by done. simpl.
    rewrite !filter_none; [done|eapply Forall_impl; [done|congruence]..].
Qed.
