(* ===== verification/ProviderPlanner.v ===== *)
(** * Building a provider plan

    [internal/providers/planner.go] and [internal/providers/base.go]: the base
    node of a plan, and the plan assembled from the nodes that the planners of
    the providers propose for the resolved components.

    A planner is a Go interface; it is an argument of the model, [None] when it
    is nil.  An [any] that is not nil is a [Ref] of the encoder's values; its
    dynamic type is read off the value it refers to. *)

From Stdlib Require Import Ascii.
From S2P Require Import Prelude GoText Contributions Platform Canonical ProviderGraph ProviderPlan.

Open Scope Z_scope.

(** ** The base node *)

Definition BaseProviderRequestSchemaV1 : string := "base-provider-request-v1".
Definition BaseExportSchemaV1 : string := "base-export-v1".

(** The exports by name; an export is its executable. *)
Record BaseProviderRequestV1 := { Image : string; Exports : gmap string string }.

Definition isNonemptyPlainString (value : string) : bool :=
  negb (bool_decide (value = "")) && valid_utf8 value
  && forallb (λ r, negb ((rune_value r <? 32) || (rune_value r =? 127))) (runes value).

Definition sorted_names (exports : gmap string string) : list string :=
  merge_sort String.le (map fst (map_to_list exports)).

Fixpoint encode_exports (exports : gmap string string) (names : list string) : result (list goValue) :=
  match names with
  | [] => Ok []
  | name :: rest =>
    _ ← ValidateProviderIdentifier name;
    let executable := default "" (exports !! name) in
    _ ← validateAbsoluteLinuxPath executable;
    others ← encode_exports exports rest;
    Ok (Ref (Map [("name", Ref (Str name)); ("executable", Ref (Str executable))]) :: others)
  end.

Definition CanonicalBaseProviderRequestV1 (request : BaseProviderRequestV1) : result CanonicalProviderRequest :=
  _ ← reject_if (negb (isNonemptyPlainString (Image request)) || negb (bool_decide (trim_space (Image request) = Image request)))
        "base image must be nonempty valid text without surrounding whitespace";
  exports ← encode_exports (Exports request) (sorted_names (Exports request));
  Ok {| req_Schema := BaseProviderRequestSchemaV1; req_Provider := ComponentTypeBase;
        req_Value := Some [("image", Ref (Str (Image request))); ("exports", Ref (Slice exports))] |}.

Fixpoint object_get (object : Object) (key : string) : option goValue :=
  match object with
  | [] => None
  | (name, value) :: rest => if bool_decide (name = key) then Some value else object_get rest key
  end.

Fixpoint decode_exports (values : list goValue) (exports : gmap string string) : result (gmap string string) :=
  match values with
  | [] => Ok exports
  | value :: rest =>
    match value with
    | Ref (Map object) =>
      _ ← reject_if (negb (length object =? 2)%nat) "base export has invalid shape";
      match object_get object "name", object_get object "executable" with
      | Some (Ref (Str name)), Some (Ref (Str executable)) =>
        _ ← reject_if (bool_decide (is_Some (exports !! name))) "base provider request contains duplicate export";
        decode_exports rest (<[name := executable]> exports)
      | _, _ => Err "base export has invalid fields"
      end
    | _ => Err "base export has invalid shape"
    end
  end.

Definition decodeCanonicalBaseProviderRequestV1 (request : CanonicalProviderRequest) : result BaseProviderRequestV1 :=
  let value := elements (req_Value request) in
  _ ← reject_if (negb (bool_decide (req_Schema request = BaseProviderRequestSchemaV1))
                 || negb (bool_decide (req_Provider request = ComponentTypeBase)) || negb (length value =? 2)%nat)
        "base provider request must use its schema and the exact value shape";
  match object_get value "image", object_get value "exports" with
  | Some (Ref (Str image)), Some (Ref (Slice exportValues)) =>
    exports ← decode_exports exportValues ∅;
    let decoded := {| Image := image; Exports := exports |} in
    normalized ← CanonicalBaseProviderRequestV1 decoded;
    actual ← CanonicalProviderRequestBytes request;
    expected ← CanonicalProviderRequestBytes normalized;
    _ ← reject_if (negb (bool_decide (actual = expected))) "base provider request is not canonically normalized";
    Ok decoded
  | _, _ => Err "base provider request image and exports have invalid types"
  end.
Definition ValidateCanonicalBaseProviderRequestV1 (request : CanonicalProviderRequest) : result unit :=
  _ ← decodeCanonicalBaseProviderRequestV1 request; Ok tt.

Definition base_output (decoded : BaseProviderRequestV1) (name : string) : OutputDeclaration := {|
  SupplierComponent := "base"; out_Name := name; out_Kind := OutputKindExecutable;
  CandidatePath := default "" (Exports decoded !! name);
  Provenance := {| env_Schema := BaseExportSchemaV1;
    env_Value := Some [("image", Ref (Str (Image decoded))); ("output", Ref (Str name))] |} |}.

Definition BaseNodeSpec (request : CanonicalProviderRequest) : result NodeSpec :=
  decoded ← decodeCanonicalBaseProviderRequestV1 request;
  let node := {|
    node_ID := "base"; node_Provider := ComponentTypeBase; node_Components := Some ["base"];
    node_Request := request;
    node_Outputs := Some (map (base_output decoded) (sorted_names (Exports decoded)));
    node_Requirements := {| Executables := Some []; Files := Some [];
      ProviderData := {| env_Schema := req_Schema request; env_Value := req_Value request |} |} |} in
  _ ← ValidateNodeSpec node;
  Ok node.

(** ** Plans *)

Record ResolvedComponentRequestV1 := {
  rc_Component : string;
  rc_Provider : ComponentType;
  rc_Request : CanonicalProviderRequest
}.
Record PlanInput := { pi_Components : option (list ResolvedComponentRequestV1); pi_Platform : Platform }.
Definition NodePlanner : Type := PlanInput → result (list NodeSpec).

(** The loop over the components: who provides them, and the base request. *)
Fixpoint expect_components (components : list ResolvedComponentRequestV1) (expected : gmap string ComponentType)
    (baseRequest : option CanonicalProviderRequest)
    : result (gmap string ComponentType * option CanonicalProviderRequest) :=
  match components with
  | [] => Ok (expected, baseRequest)
  | component :: rest =>
    _ ← ValidateContributionReference (rc_Component component);
    _ ← reject_if (bool_decide (is_Some (expected !! rc_Component component))) "resolved component is duplicated";
    _ ← reject_if (negb (bool_decide (req_Provider (rc_Request component) = rc_Provider component)))
          "resolved component request provider does not match";
    _ ← CanonicalProviderRequestBytes (rc_Request component);
    baseRequest ←
      (if bool_decide (rc_Component component = "base") then
         _ ← reject_if (negb (bool_decide (rc_Provider component = ComponentTypeBase)))
               "resolved base component must use the base provider";
         Ok (Some (rc_Request component))
       else
         _ ← reject_if (bool_decide (rc_Provider component = ComponentTypeBase)) "base provider cannot own the component";
         Ok baseRequest);
    expect_components rest (<[rc_Component component := rc_Provider component]> expected) baseRequest
  end.

Fixpoint run_planners (planners : list (option NodePlanner)) (input : PlanInput) (nodes : list NodeSpec)
    : result (list NodeSpec) :=
  match planners with
  | [] => Ok nodes
  | None :: _ => Err "provider node planner must not be nil"
  | Some plan :: rest => planned ← plan input; run_planners rest input (nodes ++ planned)
  end.

Section claims.
Context (expected : gmap string ComponentType).

Fixpoint claim_expected (node : NodeSpec) (components : list string) (claimed : gmap string NodeID)
    : result (gmap string NodeID) :=
  match components with
  | [] => Ok claimed
  | component :: rest =>
    match expected !! component with
    | None => Err "node claims a component outside the resolved request"
    | Some provider =>
      _ ← reject_if (negb (bool_decide (provider = node_Provider node))) "node provider does not match component provider";
      _ ← reject_if (bool_decide (is_Some (claimed !! component))) "component is claimed by two nodes";
      claim_expected node rest (<[component := node_ID node]> claimed)
    end
  end.

Fixpoint claim_nodes (nodes : list NodeSpec) (claimed : gmap string NodeID) : result (gmap string NodeID) :=
  match nodes with
  | [] => Ok claimed
  | node :: rest => claimed ← claim_expected node (components_of node) claimed; claim_nodes rest claimed
  end.
End claims.

Section supply.
Context (componentNodes : gmap string NodeID).

Fixpoint requirement_edges (consumer : NodeSpec) (requirements : list ExecutableRequirement)
    (edges : list ProviderEdgeV1) : result (list ProviderEdgeV1) :=
  match requirements with
  | [] => Ok edges
  | requirement :: rest =>
    if bool_decide (er_Supplier requirement = "") then requirement_edges consumer rest edges
    else match componentNodes !! er_Supplier requirement with
         | None => Err "node requirement names missing supplier component"
         | Some supplier =>
           requirement_edges consumer rest (edges ++
             [ProviderEdge supplier (node_ID consumer) (er_ID requirement)
                (Qualified (er_Supplier requirement) (er_Command requirement))])
         end
  end.

Fixpoint node_edges (nodes : list NodeSpec) (edges : list ProviderEdgeV1) : result (list ProviderEdgeV1) :=
  match nodes with
  | [] => Ok edges
  | consumer :: rest => edges ← requirement_edges consumer (executables_of consumer) edges; node_edges rest edges
  end.
End supply.

Definition BuildProviderPlanV1 (input : PlanInput) (planners : list (option NodePlanner)) : result ProviderPlanV1 :=
  _ ← ValidatePlatform (pi_Platform input);
  match pi_Components input with
  | None => Err "provider plan components must use an array"
  | Some components =>
    '(expected, baseRequest) ← expect_components components ∅ None;
    match baseRequest with
    | None => Err "provider plan requires the resolved base component"
    | Some baseRequest =>
      base ← BaseNodeSpec baseRequest;
      nodes ← run_planners planners input [base];
      claimed ← claim_nodes expected nodes ∅;
      _ ← reject_if (negb (bool_decide (dom expected ⊆ dom claimed)))
            "resolved component was not claimed by a provider node";
      edges ← node_edges claimed nodes [];
      let plan := NormalizeProviderPlanV1
        {| plan_Schema := ProviderPlanSchemaV1; plan_Nodes := Some nodes; plan_Edges := Some edges |} in
      _ ← ValidateProviderPlanV1 plan;
      Ok plan
    end
  end.

(** ** An example *)

Definition example_base_request : result CanonicalProviderRequest :=
  CanonicalBaseProviderRequestV1 {| Image := "python:3.13-slim"; Exports := {["python" := "/usr/local/bin/python"]} |}.
Definition example_component (name : string) (provider : ComponentType) (request : CanonicalProviderRequest)
    : ResolvedComponentRequestV1 :=
  {| rc_Component := name; rc_Provider := provider; rc_Request := request |}.
Definition example_build (planners : list (option NodePlanner)) : result ProviderPlanV1 :=
  request ← example_base_request;
  BuildProviderPlanV1
    {| pi_Components := Some [
         example_component "base" ComponentTypeBase request;
         example_component "application/web/python" ComponentTypePython (node_Request example_python)];
       pi_Platform := MakePlatform "linux" "amd64" "" "linux/amd64" |} planners.

Example build_example :
  (let python : NodePlanner := λ _, Ok [example_python] in
   plan_Edges <$> example_build [Some python] = Ok (Some [example_edge]) ∧
   is_ok (example_build [Some python; Some python]) = false ∧
   is_ok (example_build []) = false ∧ is_ok (example_build [None]) = false).
Proof. vm_compute. done. Qed.
