(* ===== verification/ProviderPlannerFacts.v ===== *)
(** * What the plan builder promises

    [BuildProviderPlanV1] succeeds exactly when the nodes of the base and the
    planners partition the resolved components and can be arranged to a valid
    plan; that arrangement, with the edges of the explicit requirements, is the
    result. *)

From Stdlib Require Import Ascii.
From S2P Require Import Prelude GoText Contributions Platform Canonical ProviderGraph ProviderGraphFacts ProviderPlan.
From S2P Require Import ProviderCycles ProviderPlanFacts ProviderPlanProps ProviderPlanner.

Open Scope Z_scope.

(** ** The resolved components *)

(** The base component is the one that the base provider provides. *)
Definition component_valid (c : ResolvedComponentRequestV1) : Prop :=
  ValidateContributionReference (rc_Component c) = Ok tt ∧ req_Provider (rc_Request c) = rc_Provider c ∧
  is_ok (CanonicalProviderRequestBytes (rc_Request c)) = true ∧ (rc_Component c = "base" ↔ rc_Provider c = ComponentTypeBase).

Definition provided (components : list ResolvedComponentRequestV1) : list (string * ComponentType) :=
  map (λ c, (rc_Component c, rc_Provider c)) components.
Definition base_request (components : list ResolvedComponentRequestV1) (before : option CanonicalProviderRequest)
    : option CanonicalProviderRequest :=
  fold_left (λ request c, if bool_decide (rc_Component c = "base") then Some (rc_Request c) else request) components before.

Lemma expect_components_ok components expected request out :
  expect_components components expected request = Ok out ↔
    Forall component_valid components ∧ NoDup (map rc_Component components) ∧
    (∀ c, c ∈ components → expected !! rc_Component c = None) ∧
    out = (fold_left (λ m p, <[p.1 := p.2]> m) (provided components) expected, base_request components request).
Proof.
  revert expected request. induction components as [|c components IH]; intros expected request; simpl.
  { split; [intros [= <-]; split_and!; by try constructor; try intros ? ?%elem_of_nil|by intros (_ & _ & _ & ->)]. }
  assert (∀ k : option CanonicalProviderRequest → result (gmap string ComponentType * option CanonicalProviderRequest),
    ((if bool_decide (rc_Component c = "base") then
        reject_if (negb (bool_decide (rc_Provider c = ComponentTypeBase))) "resolved base component must use the base provider"
          ≫= λ _, Ok (Some (rc_Request c))
      else reject_if (bool_decide (rc_Provider c = ComponentTypeBase)) "base provider cannot own the component"
          ≫= λ _, Ok request) ≫= k) = Ok out ↔
    (rc_Component c = "base" ↔ rc_Provider c = ComponentTypeBase) ∧
    k (if bool_decide (rc_Component c = "base") then Some (rc_Request c) else request) = Ok out) as Hbase.
  { intros k. case_bool_decide as Hb; case_bool_decide as Hp; simpl; naive_solver. }
  rewrite Forall_cons, NoDup_cons. split.
  - intros ([] & Href & H)%bind_ok. apply reject_if_bind in H as [Hnew H]. apply reject_if_bind in H as [Hprov H].
    apply bind_ok in H as (bytes & Hbytes & H). apply Hbase in H as [Hiff (Hall & Hnd & Hfree & ->)%IH].
    apply bool_decide_eq_false in Hnew. apply negb_false_iff, bool_decide_eq_true in Hprov. split_and!.
    + split_and!; [done|done|by rewrite Hbytes|exact Hiff].
    + done.
    + intros (c' & Hc' & Hin)%list_elem_of_fmap. specialize (Hfree c' Hin). by rewrite <-Hc', lookup_insert_eq in Hfree.
    + done.
    + intros c' [->|Hin]%elem_of_cons; [by apply eq_None_not_Some|]. specialize (Hfree c' Hin).
      by apply lookup_insert_None in Hfree as [? _].
    + done.
  - intros ([(Href & Hprov & [bytes Hbytes]%is_ok_true & Hiff) Hall] & [Hn Hnd] & Hfree & ->).
    rewrite Href, bind_Ok, Hprov, Hbytes, (Hfree c) by left. rewrite (bool_decide_false (is_Some None)) by (by intros [? ?]).
    rewrite (bool_decide_true (rc_Provider c = rc_Provider c)) by done. simpl. apply Hbase. split; [done|].
    apply IH. split_and!; [done|done| |done]. intros c' Hin. apply lookup_insert_None. split; [apply Hfree; by right|].
    intros Heq. apply Hn. rewrite Heq. by apply list_elem_of_fmap_2.
Qed.

(** ** Claims and edges *)

Definition node_claims (node : NodeSpec) : list (string * ComponentType) :=
  map (λ c, (c, node_Provider node)) (components_of node).
Definition all_claims (nodes : list NodeSpec) : list (string * ComponentType) := concat (map node_claims nodes).

Lemma all_claims_components nodes : map fst (all_claims nodes) = all_components nodes.
Proof.
  unfold all_claims, all_components. rewrite concat_map, map_map. f_equal. apply map_ext. intros n.
  unfold node_claims. by rewrite map_map, map_id.
Qed.

Definition claim (node : NodeSpec) (claimed : gmap string NodeID) (c : string) : gmap string NodeID :=
  <[c := node_ID node]> claimed.
Definition claimed_by (nodes : list NodeSpec) (claimed : gmap string NodeID) : gmap string NodeID :=
  fold_left (λ claimed n, fold_left (claim n) (components_of n) claimed) nodes claimed.

Lemma claim_expected_ok expected node components claimed out :
  claim_expected expected node components claimed = Ok out ↔
    (∀ c, c ∈ components → expected !! c = Some (node_Provider node)) ∧ NoDup components ∧
    (∀ c, c ∈ components → claimed !! c = None) ∧ out = fold_left (claim node) components claimed.
Proof.
  revert claimed. induction components as [|c components IH]; intros claimed; simpl.
  { split; [intros [= <-]; split_and!; try done; try constructor; by intros ? ?%elem_of_nil|by intros (_ & _ & _ & ->)]. }
  rewrite NoDup_cons. split.
  - destruct (expected !! c) as [p|] eqn:Hc; [|done]. intros [Hp H]%reject_if_bind.
    apply reject_if_bind in H as [Hnew (Hex & Hnd & Hfree & ->)%IH]. apply negb_false_iff, bool_decide_eq_true in Hp as ->.
    apply bool_decide_eq_false, eq_None_not_Some in Hnew. split_and!; [| |done| |done].
    + intros d [->|Hd]%elem_of_cons; auto.
    + intros Hin. specialize (Hfree c Hin). by rewrite lookup_insert_eq in Hfree.
    + intros d [->|Hd]%elem_of_cons; [done|]. specialize (Hfree d Hd). by apply lookup_insert_None in Hfree as [? _].
  - intros (Hex & [Hn Hnd] & Hfree & ->). rewrite (Hex c), (Hfree c) by left.
    rewrite (bool_decide_true (node_Provider node = node_Provider node)) by done.
    rewrite (bool_decide_false (is_Some None)) by (by intros [? ?]). simpl. apply IH. split_and!; [|done| |done].
    + intros d Hd. apply Hex. by right.
    + intros d Hd. apply lookup_insert_None. split; [apply Hfree; by right|]. by intros ->.
Qed.

Lemma fold_claim_lookup node components claimed c :
  fold_left (claim node) components claimed !! c =
    if bool_decide (c ∈ components) then Some (node_ID node) else claimed !! c.
Proof.
  revert claimed. induction components as [|d components IH]; intros claimed; [done|]. simpl. rewrite IH. unfold claim.
  destruct (decide (c ∈ components)) as [Hc|Hc]; [rewrite !bool_decide_true by (done || by right); done|].
  rewrite bool_decide_false by done. destruct (decide (c = d)) as [->|Hd].
  - rewrite bool_decide_true by left. apply lookup_insert_eq.
  - rewrite bool_decide_false by set_solver. by rewrite lookup_insert_ne.
Qed.

Lemma claimed_by_none nodes claimed c : c ∉ all_components nodes → claimed_by nodes claimed !! c = claimed !! c.
Proof.
  revert claimed. induction nodes as [|n nodes IH]; intros claimed; [done|]. unfold all_components. simpl.
  rewrite not_elem_of_app. intros [Hn Hc]. unfold claimed_by in *. simpl. rewrite IH by done.
  by rewrite fold_claim_lookup, bool_decide_false.
Qed.
Lemma claimed_by_some nodes claimed n c : NoDup (all_components nodes) → n ∈ nodes → c ∈ components_of n →
  claimed_by nodes claimed !! c = Some (node_ID n).
Proof.
  revert claimed. induction nodes as [|m nodes IH]; intros claimed; [by intros _ ?%elem_of_nil|].
  unfold all_components. simpl. intros (_ & Hd & Hnd)%NoDup_app [->|Hn]%elem_of_cons Hc; unfold claimed_by in *; simpl.
  - rewrite (claimed_by_none nodes) by (by apply Hd). by rewrite fold_claim_lookup, bool_decide_true.
  - by apply IH.
Qed.

Lemma claim_nodes_ok expected nodes claimed out :
  claim_nodes expected nodes claimed = Ok out ↔
    (∀ c p, (c, p) ∈ all_claims nodes → expected !! c = Some p) ∧ NoDup (all_components nodes) ∧
    (∀ c, c ∈ all_components nodes → claimed !! c = None) ∧ out = claimed_by nodes claimed.
Proof.
  revert claimed. induction nodes as [|n nodes IH]; intros claimed; simpl.
  { split; [intros [= <-]; split_and!; try done; try constructor; intros ? *; by intros ?%elem_of_nil|by intros (_ & _ & _ & ->)]. }
  unfold all_claims, all_components. simpl. rewrite NoDup_app. rewrite bind_ok. setoid_rewrite claim_expected_ok.
  setoid_rewrite IH. setoid_rewrite elem_of_app. split.
  - intros (m & (Hex & Hnd & Hfree & ->) & Hall & Hnds & Hfrees & ->). split_and!; [|done| |done| |done].
    + intros c p [Hin|Hin]; [|by apply Hall]. apply list_elem_of_fmap in Hin as (c' & [= -> ->] & Hin). by apply Hex.
    + intros c Hc Hin. specialize (Hfrees c Hin). rewrite fold_claim_lookup, bool_decide_true in Hfrees; done.
    + intros c [Hc|Hc]; [by apply Hfree|]. specialize (Hfrees c Hc). rewrite fold_claim_lookup in Hfrees.
      destruct (bool_decide (c ∈ components_of n)); [done|exact Hfrees].
  - intros (Hex & (Hnd & Hd & Hnds) & Hfree & ->). eexists. split_and!; [| |naive_solver|reflexivity| | |..]; try done.
    + intros c Hc. apply Hex. left. by apply (list_elem_of_fmap_2 (λ c, (c, node_Provider n))).
    + intros c p Hin. apply Hex. by right.
    + intros c Hc. rewrite fold_claim_lookup, bool_decide_false; [by apply Hfree; right|]. intros Hc'. by apply (Hd c).
Qed.

Definition built_edge (claimed : gmap string NodeID) (consumer : NodeSpec) (r : ExecutableRequirement) : option ProviderEdgeV1 :=
  if bool_decide (er_Supplier r = "") then None
  else (λ s, ProviderEdge s (node_ID consumer) (er_ID r) (Qualified (er_Supplier r) (er_Command r))) <$> claimed !! er_Supplier r.
Lemma built_edge_none claimed n r : er_Supplier r = "" → built_edge claimed n r = None.
Proof. intros Hs. unfold built_edge. by rewrite bool_decide_true. Qed.
Lemma built_edge_some claimed n r s : er_Supplier r ≠ "" → claimed !! er_Supplier r = Some s →
  built_edge claimed n r = Some (ProviderEdge s (node_ID n) (er_ID r) (Qualified (er_Supplier r) (er_Command r))).
Proof. intros Hs Hl. unfold built_edge. by rewrite bool_decide_false, Hl. Qed.
Definition built_edges (claimed : gmap string NodeID) (nodes : list NodeSpec) : list ProviderEdgeV1 :=
  concat (map (λ n, omap (built_edge claimed n) (executables_of n)) nodes).
Definition supplied (claimed : gmap string NodeID) (r : ExecutableRequirement) : Prop :=
  er_Supplier r ≠ "" → is_Some (claimed !! er_Supplier r).

Lemma requirement_edges_total claimed consumer rs edges : Forall (supplied claimed) rs →
  requirement_edges claimed consumer rs edges = Ok (edges ++ omap (built_edge claimed consumer) rs).
Proof.
  intros Hall. revert edges. induction Hall as [|r rs Hr _ IH]; intros edges; simpl; [by rewrite app_nil_r|].
  case_bool_decide as Hs; [by rewrite built_edge_none, IH by done|]. destruct (Hr Hs) as [s Hl].
  rewrite (built_edge_some _ _ _ s), Hl by done. by rewrite IH, <-app_assoc.
Qed.
Lemma node_edges_total claimed nodes edges : Forall (λ n, Forall (supplied claimed) (executables_of n)) nodes →
  node_edges claimed nodes edges = Ok (edges ++ built_edges claimed nodes).
Proof.
  intros Hall. revert edges. induction Hall as [|n nodes Hn _ IH]; intros edges; simpl; [by rewrite app_nil_r|].
  rewrite requirement_edges_total by done. simpl. rewrite IH. unfold built_edges. simpl. by rewrite <-app_assoc.
Qed.

Lemma built_edges_elem claimed nodes e : e ∈ built_edges claimed nodes ↔
  ∃ n r s, n ∈ nodes ∧ r ∈ executables_of n ∧ er_Supplier r ≠ "" ∧ claimed !! er_Supplier r = Some s ∧
    e = ProviderEdge s (node_ID n) (er_ID r) (Qualified (er_Supplier r) (er_Command r)).
Proof.
  unfold built_edges. rewrite list_elem_of_In, in_concat. setoid_rewrite in_map_iff. setoid_rewrite <-list_elem_of_In. split.
  - intros (? & (n & <- & Hn) & Hin). apply list_elem_of_omap in Hin as (r & Hr & He). unfold built_edge in He.
    case_bool_decide as Hs; [done|]. apply fmap_Some in He as (s & Hl & ->). by exists n, r, s.
  - intros (n & r & s & Hn & Hr & Hs & Hl & ->). eexists. split; [by exists n|]. apply list_elem_of_omap.
    exists r. split; [done|]. unfold built_edge. by rewrite bool_decide_false, Hl.
Qed.

Lemma built_edges_keys claimed nodes : Forall (λ n, Forall (supplied claimed) (executables_of n)) nodes →
  map edge_key (built_edges claimed nodes) = (concat (map (node_pairs explicit_requirement) nodes)).*1.
Proof.
  induction 1 as [|n nodes Hn _ IH]; [done|]. unfold built_edges in *. simpl. rewrite map_app, fmap_app, IH. f_equal.
  unfold node_pairs. clear IH. induction Hn as [|r rs Hr _ IH]; [done|]. simpl.
  destruct (decide (er_Supplier r = "")) as [Hs|Hs].
  - rewrite built_edge_none by done. rewrite filter_cons_False; [exact IH|]. unfold explicit_requirement.
    by rewrite bool_decide_true.
  - destruct (Hr Hs) as [s Hl]. rewrite (built_edge_some _ _ _ s) by done. rewrite filter_cons_True; [simpl; f_equal; exact IH|]. unfold explicit_requirement.
    by rewrite bool_decide_false.
Qed.

Lemma keyed_perm nodes nodes' : nodes ≡ₚ nodes' → keyed nodes → keyed nodes'.
Proof. intros Hp [Hn Ha]. split; by rewrite <-Hp. Qed.
Lemma components_perm nodes nodes' : nodes ≡ₚ nodes' → all_components nodes ≡ₚ all_components nodes'.
Proof. intros Hp. unfold all_components. by rewrite Hp. Qed.

(** The edges built from the claims are the edges of the arranged plan. *)
Lemma built_edges_valid nodes arranged edges : valid_plan arranged edges → arranged ≡ₚ nodes →
  node_edges (claimed_by nodes ∅) nodes [] = Ok (built_edges (claimed_by nodes ∅) nodes) ∧
  edges ≡ₚ built_edges (claimed_by nodes ∅) nodes.
Proof.
  intros Hv Hp. set (C := claimed_by nodes ∅).
  assert (NoDup (all_components nodes)) as Hnd by (rewrite <-(components_perm _ _ Hp); by destruct Hv).
  assert (∀ supplier consumer r, meets arranged supplier consumer r → C !! er_Supplier r = Some (node_ID supplier)) as HC.
  { intros s c r (Hs & _ & _ & _ & Hown & _). rewrite Hp in Hs. by apply claimed_by_some. }
  assert (Forall (λ n, Forall (supplied C) (executables_of n)) nodes) as Hsup.
  { apply Forall_forall. intros n Hn. apply Forall_forall. intros r Hr Hs. rewrite <-Hp in Hn.
    destruct (vp_met _ _ Hv n r Hn Hr Hs) as (s & Hm). rewrite (HC _ _ _ Hm). done. }
  split; [by rewrite node_edges_total|]. assert (keyed arranged) as Hk by (apply valid_nodes_keyed; by destruct Hv).
  apply NoDup_Permutation.
  - rewrite <-(map_id edges). apply (strict_NoDup id edge_lt). exact (vp_edges_sorted _ _ Hv).
  - apply (NoDup_fmap_1 edge_key). unfold fmap, list_fmap. change (NoDup (map edge_key (built_edges C nodes))).
    rewrite built_edges_keys by done. apply pairs_NoDup. by eapply keyed_perm.
  - intros e. rewrite (vp_edges _ _ Hv), built_edges_elem. split.
    + intros (s & c & r & Hm & ->). exists c, r, (node_ID s). pose proof Hm as (_ & Hc & Hr & Hs & _). rewrite Hp in Hc.
      split_and!; [done..|by eapply HC|done].
    + intros (c & r & s & Hc & Hr & Hs & Hl & ->). rewrite <-Hp in Hc. destruct (vp_met _ _ Hv c r Hc Hr Hs) as (n & Hm).
      exists n, c, r. split; [done|]. rewrite (HC _ _ _ Hm) in Hl. injection Hl as <-. done.
Qed.

(** ** The whole builder *)

Lemma base_request_iff components request : NoDup (map rc_Component components) →
  base_request components None = Some request ↔
  ∃ c, c ∈ components ∧ rc_Component c = "base" ∧ rc_Request c = request.
Proof.
  unfold base_request. intros Hnd.
  assert (∀ l before, "base" ∉ map rc_Component l →
    fold_left (λ request c, if bool_decide (rc_Component c = "base") then Some (rc_Request c) else request) l before = before) as Hno.
  { intros l. induction l as [|c l IH]; intros before; [done|]. simpl. intros [Hc Hl]%not_elem_of_cons.
    rewrite bool_decide_false by done. by apply IH. }
  induction components as [|c l IH]; [split; [done|by intros (? & ?%elem_of_nil & _)]|]. simpl in *.
  apply NoDup_cons in Hnd as [Hn Hnd]. destruct (decide (rc_Component c = "base")) as [Hc|Hc].
  - rewrite bool_decide_true by done. rewrite Hno by (by rewrite <-Hc). split.
    + intros [= <-]. exists c. split_and!; [left|done|done].
    + intros (c' & [->|Hin]%elem_of_cons & Hb & <-); [done|]. destruct Hn. rewrite Hc, <-Hb. by apply list_elem_of_fmap_2.
  - rewrite bool_decide_false by done. rewrite IH by done. setoid_rewrite elem_of_cons. naive_solver.
Qed.

Lemma expected_lookup components c p : NoDup (map rc_Component components) →
  (fold_left (λ (m : gmap string ComponentType) p, <[p.1 := p.2]> m) (provided components) ∅) !! c = Some p ↔
  (c, p) ∈ provided components.
Proof.
  intros Hnd. apply lookup_fold_insert. unfold fmap, list_fmap. change (NoDup (map fst (provided components))).
  unfold provided. by rewrite map_map.
Qed.

Lemma elem_of_claims nodes c p : (c, p) ∈ all_claims nodes ↔ ∃ n, n ∈ nodes ∧ c ∈ components_of n ∧ p = node_Provider n.
Proof.
  unfold all_claims. rewrite list_elem_of_In, in_concat. setoid_rewrite in_map_iff. setoid_rewrite <-list_elem_of_In. split.
  - intros (? & (n & <- & Hn) & Hin). apply list_elem_of_fmap in Hin as (c' & [= -> ->] & Hc). eauto.
  - intros (n & Hn & Hc & ->). exists (node_claims n). split; [eauto|]. by apply (list_elem_of_fmap_2 (λ c, (c, node_Provider n))).
Qed.

Lemma claims_NoDup nodes : NoDup (all_components nodes) → NoDup (all_claims nodes).
Proof. rewrite <-all_claims_components. apply NoDup_fmap_1. Qed.
Lemma provided_NoDup components : NoDup (map rc_Component components) → NoDup (provided components).
Proof. intros H. apply (NoDup_fmap_1 fst). unfold provided, fmap, list_fmap. change (NoDup (map fst (provided components))). unfold provided. by rewrite map_map. Qed.

(** The loop of claims and the check that nothing is left over say that the
    claims of the nodes are the resolved components. *)
Lemma claims_match components nodes : NoDup (map rc_Component components) →
  let expected := fold_left (λ (m : gmap string ComponentType) p, <[p.1 := p.2]> m) (provided components) ∅ in
  (∃ claimed, claim_nodes expected nodes ∅ = Ok claimed ∧ dom expected ⊆ dom claimed) ↔
    all_claims nodes ≡ₚ provided components.
Proof.
  intros Hnd expected. assert (∀ c p, expected !! c = Some p ↔ (c, p) ∈ provided components) as Hexp
    by (intros; by apply expected_lookup). split.
  - intros (claimed & (Hcl & Hdisj & _ & ->)%claim_nodes_ok & Hdom).
    apply NoDup_Permutation; [by apply claims_NoDup|by apply provided_NoDup|]. intros [c p]. rewrite <-Hexp. split; [apply Hcl|].
    intros Hp. assert (c ∈ all_components nodes) as Hc.
    { destruct (decide (c ∈ all_components nodes)) as [|Hno]; [done|]. exfalso.
      assert (c ∈ dom (claimed_by nodes ∅)) as Hin by (by apply Hdom, elem_of_dom). rewrite elem_of_dom in Hin.
      rewrite claimed_by_none in Hin by done. by destruct Hin. }
    rewrite <-all_claims_components in Hc. apply list_elem_of_fmap in Hc as ([c' p'] & -> & Hin).
    simpl in *. specialize (Hcl c' p' Hin). congruence.
  - intros Hp. exists (claimed_by nodes ∅).
    assert (NoDup (all_components nodes)) as Hdisj.
    { rewrite <-all_claims_components, Hp. unfold provided. by rewrite map_map. }
    split.
    + apply claim_nodes_ok. split_and!; [|done|done|done]. intros c p. by rewrite Hexp, Hp.
    + intros c. rewrite !elem_of_dom. intros [p Hc]. apply Hexp in Hc. rewrite <-Hp in Hc.
      apply elem_of_claims in Hc as (n & Hn & Hc & _). by rewrite (claimed_by_some nodes ∅ n).
Qed.

(** The builder's result, declaratively. *)
Record planned (input : PlanInput) (planners : list (option NodePlanner)) (plan : ProviderPlanV1)
    (components : list ResolvedComponentRequestV1) (base : NodeSpec) (nodes arranged : list NodeSpec)
    (edges : list ProviderEdgeV1) : Prop := {
  pl_components : pi_Components input = Some components;
  pl_valid : Forall component_valid components;
  pl_distinct : NoDup (map rc_Component components);
  pl_base : ∃ c, c ∈ components ∧ rc_Component c = "base" ∧ BaseNodeSpec (rc_Request c) = Ok base;
  pl_nodes : run_planners planners input [base] = Ok nodes;
  pl_claims : all_claims nodes ≡ₚ provided components;
  pl_plan : plan = Build_ProviderPlanV1 ProviderPlanSchemaV1 (Some arranged) (Some edges);
  pl_arranged : arranged ≡ₚ nodes;
  pl_valid_plan : valid_plan arranged edges
}.

(** C38: [BuildProviderPlanV1] succeeds exactly when the resolved components are
    distinct and valid with one base among them, the nodes of the base and of
    the planners claim each component once, for its provider, and some
    arrangement of those nodes is a valid plan; the result is that plan, whose
    edges the explicit requirements of the nodes determine. *)
Theorem BuildProviderPlanV1_spec input planners plan :
  BuildProviderPlanV1 input planners = Ok plan ↔
    ValidatePlatform (pi_Platform input) = Ok tt ∧
    ∃ components base nodes arranged edges, planned input planners plan components base nodes arranged edges.
Proof.
  unfold BuildProviderPlanV1. rewrite bind_ok. split.
  - intros ([] & Hpf & H). split; [done|]. destruct (pi_Components input) as [components|] eqn:Hc; [|done].
    apply bind_ok in H as ([expected request] & He & H). apply expect_components_ok in He as (Hall & Hnd & _ & [= -> Hreq]).
    destruct request as [request|]; [|done]. symmetry in Hreq. apply base_request_iff in Hreq as (c & Hin & Hb & <-); [|done].
    apply bind_ok in H as (base & Hbase & H). apply bind_ok in H as (nodes & Hn & H).
    apply bind_ok in H as (claimed & Hcl & H). apply reject_if_bind in H as [Hdom H].
    apply negb_false_iff, bool_decide_eq_true in Hdom. apply bind_ok in H as (edges & Hedges & H).
    apply bind_ok in H as ([] & Hv & [= <-]). apply plan_valid in Hv as (_ & arranged & es & [= <-] & [= <-] & Hvp).
    exists components, base, nodes, (merge_sort node_le nodes), (merge_sort edge_le edges).
    split; [done..|by exists c|done| |done| |done].
    + apply claims_match; [done|]. by exists claimed.
    + apply merge_sort_Permutation.
  - intros [Hpf (components & base & nodes & arranged & edges & [Hc Hall Hnd (c & Hin & Hb & Hbase) Hn Hcl -> Hp Hv])].
    exists tt. split; [done|]. rewrite Hc.
    rewrite (proj2 (expect_components_ok components ∅ None _)) by (split_and!; done). simpl.
    rewrite (proj2 (base_request_iff components (rc_Request c) Hnd)) by eauto.
    rewrite Hbase, bind_Ok, Hn, bind_Ok.
    destruct (proj2 (claims_match components nodes Hnd) Hcl) as (claimed & Hclaim & Hdom). rewrite Hclaim. simpl.
    rewrite bool_decide_true by done. simpl. apply claim_nodes_ok in Hclaim as (_ & _ & _ & ->).
    destruct (built_edges_valid nodes arranged edges Hv Hp) as [-> Hes]. rewrite bind_Ok.
    rewrite (normalize_valid _ arranged edges Hv) by done. simpl. apply bind_ok. exists tt. split; [|done].
    apply plan_valid. split; [done|]. by exists arranged, edges.
Qed.

(** ** The base request *)

Definition copy_exports (exports : gmap string string) (names : list string) (m : gmap string string) : gmap string string :=
  fold_left (λ m name, <[name := default "" (exports !! name)]> m) names m.

Lemma copy_exports_lookup exports names m k :
  copy_exports exports names m !! k = if bool_decide (k ∈ names) then Some (default "" (exports !! k)) else m !! k.
Proof.
  revert m. induction names as [|n names IH]; intros m; [done|]. unfold copy_exports in *. simpl. rewrite IH.
  destruct (decide (k ∈ names)) as [Hk|Hk].
  - rewrite (bool_decide_true (k ∈ names)), bool_decide_true by (done || by right). done.
  - rewrite (bool_decide_false (k ∈ names)) by done. destruct (decide (k = n)) as [->|Hn].
    + rewrite bool_decide_true by left. apply lookup_insert_eq.
    + rewrite bool_decide_false by set_solver. by rewrite lookup_insert_ne.
Qed.

Lemma decode_encode_exports exports names values m :
  encode_exports exports names = Ok values → NoDup names → (∀ n, n ∈ names → m !! n = None) →
  decode_exports values m = Ok (copy_exports exports names m).
Proof.
  revert values m. induction names as [|n names IH]; intros values m; simpl; [by intros [= <-]|].
  intros ([] & _ & H)%bind_ok [Hn Hnd]%NoDup_cons Hm. apply bind_ok in H as ([] & _ & H).
  apply bind_ok in H as (others & Hothers & [= <-]). simpl. rewrite (Hm n) by left.
  rewrite (bool_decide_false (is_Some None)) by (by intros [? ?]). simpl. apply IH; [done..|].
  intros k Hk. apply lookup_insert_None. split; [apply Hm; by right|]. by intros ->.
Qed.

Lemma sorted_names_spec exports : NoDup (sorted_names exports) ∧ ∀ n, n ∈ sorted_names exports ↔ is_Some (exports !! n).
Proof.
  assert (sorted_names exports ≡ₚ (map_to_list exports).*1) as Hp by apply merge_sort_Permutation. split.
  - rewrite Hp. apply NoDup_fst_map_to_list.
  - intros n. rewrite Hp, list_elem_of_fmap. split.
    + intros ([k x] & -> & Hin%elem_of_map_to_list). by exists x.
    + intros [x Hx]. exists (n, x). split; [done|]. by apply elem_of_map_to_list.
Qed.

(** A base request survives its encoding: what
    [CanonicalBaseProviderRequestV1] gives for a request decodes to the same
    request, as soon as it is canonical JSON at all. *)
Theorem base_request_roundtrip request encoded :
  CanonicalBaseProviderRequestV1 request = Ok encoded → is_ok (CanonicalProviderRequestBytes encoded) = true →
  decodeCanonicalBaseProviderRequestV1 encoded = Ok request.
Proof.
  intros Henc [bytes Hbytes]%is_ok_true. pose proof Henc as H. unfold CanonicalBaseProviderRequestV1 in H.
  apply bind_ok in H as ([] & _ & H). apply bind_ok in H as (values & Hvalues & Heq).
  unfold decodeCanonicalBaseProviderRequestV1. rewrite Hbytes. injection Heq as <-. simpl.
  destruct (sorted_names_spec (Exports request)) as [Hnd Hin].
  rewrite (decode_encode_exports _ _ _ ∅ Hvalues) by done. simpl.
  assert (copy_exports (Exports request) (sorted_names (Exports request)) ∅ = Exports request) as ->.
  { apply map_eq. intros k. rewrite copy_exports_lookup, lookup_empty. case_bool_decide as Hk.
    - apply Hin in Hk as [x Hx]. by rewrite Hx.
    - rewrite Hin in Hk. symmetry. by apply eq_None_not_Some. }
  assert (Build_BaseProviderRequestV1 (Image request) (Exports request) = request) as -> by (by destruct request).
  rewrite Henc. simpl. rewrite Hbytes. simpl. by rewrite bool_decide_true.
Qed.

Lemma base_request_roundtrip_witness : ∃ encoded,
  example_base_request = Ok encoded ∧
  decodeCanonicalBaseProviderRequestV1 encoded =
    Ok {| Image := "python:3.13-slim"; Exports := {["python" := "/usr/local/bin/python"]} |}.
Proof.
  destruct example_base_request as [encoded|] eqn:He; [|by vm_compute in He]. exists encoded. split; [done|].
  apply base_request_roundtrip; [exact He|]. vm_compute in He. injection He as <-. vm_compute. reflexivity.
Defined.
