(* ===== verification/ToolRecords.v ===== *)
(** * Portable-tool records

    [internal/portabletool/records.go]: the records of a tool catalog.
    [internal/toolcatalog/records_decode.go] and [records_compare.go]: the texts
    they are made of (identifiers, tokens, decimals, paths, version segments and
    record IDs), and the comparison of canonical string lists.

    The fields of a record that several records share carry a prefix.  A Go slice
    is a list where no modelled code tells nil from empty, and an option where the
    code does; a map from dimensions to values is a [gmap]. *)

From Stdlib Require Import Ascii.
From S2P Require Import Prelude GoText Identifiers.

Open Scope Z_scope.

(** ** Texts *)

Definition maxDefinitionReferences : nat := 1024.

Definition containsControlV1 (value : string) : bool :=
  existsb (λ r, is_control (rune_value r)) (runes value).
Definition validRecordTokenV1 (value : string) : bool :=
  negb (bool_decide (value = "")) && bool_decide (trim_space value = value) && negb (containsControlV1 value).

(** The characters are tested as bytes: a byte that is not ASCII and a rune that
    is not ASCII are both refused. *)
Definition identifier_char (c : ascii) : bool := is_lower c || is_digit c || bool_decide (c = "-"%char).
Definition validRecordIdentifierV1 (value : string) : bool :=
  match value with
  | EmptyString => false
  | String c rest => is_lower c && string_forallb identifier_char rest
  end.
Definition segment_char (c : ascii) : bool :=
  is_lower c || is_digit c || bool_decide (c = "."%char) || bool_decide (c = "+"%char) || bool_decide (c = "-"%char).
Definition validRecordSegmentV1 (value : string) : bool :=
  validRecordTokenV1 value && negb (bool_decide (value = ".")) && negb (bool_decide (value = ".."))
  && string_forallb segment_char value.

Definition canonicalDecimalPattern : regex :=
  Alt (Text "0") (Seq (Class (in_range 49 57 ∘ code)) (Star (Class is_digit))).
Definition validateCanonicalDecimalV1 (value : string) (positive : bool) : result unit :=
  _ ← reject_if (negb (full_match canonicalDecimalPattern value)) "must be a canonical decimal string";
  match parse_uint value 63 with
  | Some parsed => reject_if (positive && (parsed =? 0)) "must be a bounded positive decimal string"
  | None => Err "must be a bounded positive decimal string"
  end.

(** -1, 0 or 1. *)
Definition string_compare (left right : string) : Z :=
  match String.compare left right with Lt => -1 | Eq => 0 | Gt => 1 end.
Definition compareCanonicalDecimalV1 (left right : string) : Z :=
  if negb (len left =? len right) then (if len left <? len right then -1 else 1) else string_compare left right.

Definition backslash : ascii := "092"%char.
Definition invalid_path_segment (segment : string) : bool :=
  bool_decide (segment = "") || bool_decide (segment = ".") || bool_decide (segment = "..").
Definition validateRecordPathV1 (value : string) (allowDot : bool) : result unit :=
  if bool_decide (value = ".") && allowDot then Ok tt else
  _ ← reject_if (bool_decide (value = "") || containsControlV1 value || path_is_abs value
                 || negb (bool_decide (path_clean value = value)) || contains_byte value backslash)
        "path must be a canonical relative slash path";
  reject_if (existsb invalid_path_segment (split_byte value "/"%char)) "path contains an invalid segment".
Definition validateAbsoluteRecordPathV1 (value : string) : result unit :=
  reject_if (bool_decide (value = "") || containsControlV1 value || negb (path_is_abs value)
             || negb (bool_decide (path_clean value = value)) || bool_decide (value = "/") || contains_byte value backslash)
    "path must be a canonical absolute non-root slash path".

Definition check_sorted_string (allowEmpty : bool) (previous : option string) (value : string) : result unit :=
  reject_if ((negb allowEmpty && bool_decide (value = "")) || negb (bool_decide (trim_space value = value))
             || containsControlV1 value || match previous with Some p => string_geb p value | None => false end)
    "must contain unique sorted canonical values".
Definition validateSortedUniqueStringsV1 (values : option (list string)) (allowEmpty : bool) : result unit :=
  match values with
  | None => Err "must use an array"
  | Some values =>
    _ ← reject_if (maxDefinitionReferences <? length values)%nat "must use at most 1024 entries";
    check_each (check_sorted_string allowEmpty) None values
  end.
Definition requireNonemptySortedStringsV1 (values : option (list string)) : result unit :=
  _ ← validateSortedUniqueStringsV1 values false;
  reject_if (bool_decide (default [] values = [])) "must not be empty".

(** ** Version segments *)

Definition upper_hex_digit (d : Z) : ascii := ascii_of_N (Z.to_N (if d <? 10 then 48 + d else 55 + d)).
Definition uppercaseHexValueV1 (c : ascii) : option Z :=
  if is_digit c then Some (code c - 48)
  else if in_range 65 70 (code c) then Some (code c - 65 + 10) else None.

Definition literal_byte (c : ascii) : bool :=
  is_lower c || is_upper c || is_digit c || existsb (λ d, bool_decide (c = d)) ["."; "+"; "-"; "_"]%char.
Definition escaped_byte (c : ascii) : list ascii :=
  ["%"%char; upper_hex_digit (Z.shiftr (code c) 4); upper_hex_digit (Z.land (code c) 15)].
Definition encode_byte (encodeDots : bool) (c : ascii) : list ascii :=
  if literal_byte c && negb (encodeDots && bool_decide (c = "."%char)) then [c] else escaped_byte c.
Definition encodeToolVersionSegmentV1 (value : string) : result string :=
  _ ← reject_if (negb (validRecordTokenV1 value) || negb (valid_utf8 value)) "tool version must be canonical UTF-8 text";
  let encodeDots := bool_decide (value = ".") || bool_decide (value = "..") in
  Ok (String.string_of_list_ascii (concat (map (encode_byte encodeDots) (bytes value)))).

Fixpoint decode_escapes (value : list ascii) : result (list ascii) :=
  match value with
  | [] => Ok []
  | c :: rest =>
    if negb (bool_decide (c = "%"%char)) then decoded ← decode_escapes rest; Ok (c :: decoded)
    else match rest with
         | h :: l :: rest =>
           match uppercaseHexValueV1 h, uppercaseHexValueV1 l with
           | Some high, Some low =>
             decoded ← decode_escapes rest; Ok (ascii_of_N (Z.to_N (Z.lor (Z.shiftl high 4) low)) :: decoded)
           | _, _ => Err "encoded tool version escapes must use uppercase hexadecimal"
           end
         | _ => Err "encoded tool version contains an incomplete escape"
         end
  end.
Definition decodeToolVersionSegmentV1 (value : string) : result string :=
  _ ← reject_if (bool_decide (value = "")) "encoded tool version must not be empty";
  decoded ← decode_escapes (bytes value);
  let version := String.string_of_list_ascii decoded in
  match encodeToolVersionSegmentV1 version with
  | Ok canonical => _ ← reject_if (negb (bool_decide (canonical = value))) "encoded tool version is not canonical"; Ok version
  | Err _ => Err "encoded tool version is not canonical"
  end.

(** ** Record IDs *)

Definition id_char (c : ascii) : bool :=
  is_lower c || is_upper c || is_digit c || existsb (λ d, bool_decide (c = d)) ["."; "+"; "-"; "_"; ":"; "/"]%char.
Fixpoint check_id_chars (value : list ascii) : result unit :=
  match value with
  | [] => Ok tt
  | c :: rest =>
    if id_char c then check_id_chars rest
    else if bool_decide (c = "%"%char) then
      match rest with
      | h :: l :: rest =>
        _ ← reject_if (bool_decide (uppercaseHexValueV1 h = None)) "record ID percent escapes must use uppercase hexadecimal";
        _ ← reject_if (bool_decide (uppercaseHexValueV1 l = None)) "record ID percent escapes must use uppercase hexadecimal";
        check_id_chars rest
      | _ => Err "record ID contains an incomplete percent escape"
      end
    else Err "record ID contains unsupported character"
  end.
Fixpoint check_id_segments (index : nat) (segments : list string) : result unit :=
  match segments with
  | [] => Ok tt
  | segment :: rest =>
    _ ← reject_if (invalid_path_segment segment) "record ID contains an invalid path segment";
    _ ← reject_if (negb (index =? 2)%nat && contains_byte segment "%"%char)
          "record ID contains an escape outside its version segment";
    check_id_segments (S index) rest
  end.
Definition validateRecordIDV1 (value : string) : result unit :=
  _ ← reject_if (bool_decide (value = "") || negb (bool_decide (trim_space value = value)) || negb (has_prefix value "tool:"))
        "record ID must be a canonical tool-qualified ID";
  _ ← check_id_chars (bytes value);
  let segments := split_byte value "/"%char in
  let toolName := default "" (cut_prefix (default "" (head segments)) "tool:") in
  _ ← reject_if (negb (validRecordIdentifierV1 toolName)) "record ID has an invalid tool name";
  _ ← check_id_segments 0 segments;
  if (length segments =? 1)%nat then Ok tt else
  _ ← reject_if ((length segments <? 4)%nat || negb (bool_decide (segments !! 1%nat = Some "releases")))
        "record ID must use a tool release namespace";
  _ ← wrap (decodeToolVersionSegmentV1 (default "" (segments !! 2%nat))) "record ID version segment";
  Ok tt.

Record RecordReferenceV1 := MakeReference { ref_ID : string; ref_Digest : string }.
#[export] Instance RecordReferenceV1_eq_dec : EqDecision RecordReferenceV1.
Proof. solve_decision. Defined.

Definition validateRecordReferenceV1 (reference : RecordReferenceV1) : result unit :=
  _ ← validateRecordIDV1 (ref_ID reference);
  wrap (ValidateDigest (ref_Digest reference)) "reference digest".
Definition check_reference (previous : option RecordReferenceV1) (reference : RecordReferenceV1) : result unit :=
  _ ← validateRecordReferenceV1 reference;
  reject_if (match previous with Some p => string_geb (ref_ID p) (ref_ID reference) | None => false end)
    "must be unique and sorted by ID".
Definition validateReferenceListV1 (references : option (list RecordReferenceV1)) : result unit :=
  match references with
  | None => Err "must use an array with at most 1024 entries"
  | Some references =>
    _ ← reject_if (maxDefinitionReferences <? length references)%nat "must use an array with at most 1024 entries";
    check_each check_reference None references
  end.

(** ** Canonical string lists *)

Fixpoint recordStringSliceSubsetV1 (subset superset : list string) {struct superset} : bool :=
  match subset, superset with
  | [], _ => true
  | _ :: _, [] => false
  | l :: lefts, r :: rights =>
    if bool_decide (l = r) then recordStringSliceSubsetV1 lefts rights
    else if bool_decide (string_lt r l) then recordStringSliceSubsetV1 subset rights
    else false
  end.
Fixpoint compareRecordStringSlicesV1 (left right : list string) : Z :=
  match left, right with
  | [], [] => 0
  | [], _ :: _ => -1
  | _ :: _, [] => 1
  | l :: lefts, r :: rights =>
    if bool_decide (string_lt l r) then -1
    else if bool_decide (string_lt r l) then 1
    else compareRecordStringSlicesV1 lefts rights
  end.
Definition containsRecordValueV1 (values : list string) (value : string) : bool :=
  existsb (λ candidate, bool_decide (candidate = value)) values.

(** ** Records *)

Record ToolExportV1 := MakeExport { export_Name : string; export_Path : string }.
Record RecordProbeV1 := { probe_Path : string; probe_Args : list string }.
Record RecordEnvironmentVariableV1 := MakeVariable { variable_Name : string; variable_Value : string }.
Record RecordRuntimeV1 := { InstallRoot : string; Environment : list RecordEnvironmentVariableV1 }.
Record BundledComponentV1 := { bundled_Name : string; bundled_Version : string; bundled_Path : string }.
Record ArtifactSourceMappingV1 := {
  ArtifactSHA256 : string; mapping_Artifact : RecordReferenceV1; mapping_Source : RecordReferenceV1 }.

Record ToolRecordV1 := {
  tool_Schema : string; tool_ID : string; tool_Name : string; VersionScheme : string; DefaultVersion : string;
  Summary : string; Upstream : string; tool_Source : string; License : string; Documentation : string;
  Releases : list RecordReferenceV1
}.

Record ReleaseManifestV1 := {
  manifest_Schema : string; manifest_ID : string; Tool : string; Version : string; Aliases : list string;
  Revision : string; manifest_Contract : RecordReferenceV1; Targets : list RecordReferenceV1;
  ArtifactSources : list ArtifactSourceMappingV1; manifest_Provenance : list string;
  manifest_ValidationProfiles : list RecordReferenceV1
}.

Record BindingSetSchemaV1 := { Options : list string }.
Record SelectionDimensionV1 := { dimension_Name : string; dimension_Options : list string }.
Definition SelectionCombinationV1 : Type := gmap string (list string).
Record SelectionSchemaV1 := { Dimensions : list SelectionDimensionV1; Combinations : list SelectionCombinationV1 }.

Record ReleaseContractV1 := {
  contract_Schema : string; contract_ID : string; Contexts : list string; SupportedReploy : string;
  Binding : BindingSetSchemaV1; Selections : SelectionSchemaV1; Runtime : option RecordRuntimeV1;
  contract_Exports : list ToolExportV1; ResolverPrimitives : list string; CompatibilityConstraints : list string
}.

Record TargetIdentityV1 := {
  identity_Platform : string; OSReleaseID : string; VersionID : string; OCIArchitecture : string;
  NativeArchitecture : string; identity_PackageManager : string
}.
#[export] Instance TargetIdentityV1_eq_dec : EqDecision TargetIdentityV1.
Proof. solve_decision. Defined.
Record TargetSupportCaseV1 := {
  case_Context : string; case_Bindings : list string; case_Selections : gmap string (list string) }.
Record TargetBindingV1 := {
  binding_Name : string; binding_Contract : RecordReferenceV1; binding_Artifacts : list RecordReferenceV1;
  binding_Payloads : list RecordReferenceV1; binding_PackageSets : list RecordReferenceV1;
  binding_Exports : list ToolExportV1; binding_ValidationProfiles : list RecordReferenceV1
}.
Record TargetSelectionV1 := {
  Dimension : string; selection_Value : string; selection_Payloads : list RecordReferenceV1;
  selection_PackageSets : list RecordReferenceV1; selection_Exports : list ToolExportV1;
  selection_ValidationProfiles : list RecordReferenceV1
}.
Record TargetRecordV1 := {
  target_Schema : string; target_ID : string; target_Target : TargetIdentityV1; SupportCases : list TargetSupportCaseV1;
  target_PackageSets : list RecordReferenceV1; target_Bindings : list TargetBindingV1;
  target_Payloads : list RecordReferenceV1; target_Selections : list TargetSelectionV1;
  target_Exports : list ToolExportV1; IntegrationFixtures : list RecordReferenceV1;
  target_ValidationProfiles : list RecordReferenceV1
}.

Record BindingContractV1 := {
  bc_Schema : string; bc_ID : string; bc_Name : string; bc_Package : string; bc_Requirements : list string;
  SupportedPython : list string; SupportedTags : list string; bc_BundledComponents : list BundledComponentV1;
  CLI : ToolExportV1
}.
Record BindingArtifactRecordV1 := {
  ba_Schema : string; ba_ID : string; ba_Binding : string; ba_Contract : RecordReferenceV1; ba_Name : string;
  EcosystemVersion : string; ba_Platform : string; Filename : string; ba_Size : string; ba_SHA256 : string;
  ba_Resolver : string; Tags : list string; RequiresPython : string; ba_BundledComponents : list BundledComponentV1
}.
Record PayloadRecordV1 := {
  payload_Schema : string; payload_ID : string; payload_Name : string; payload_Revision : string;
  UpstreamVersion : string; payload_Platform : string; LogicalPath : string; payload_Kind : string;
  payload_Size : string; payload_SHA256 : string; payload_Resolver : string; Entries : string; UnpackedSize : string;
  InstallDirectory : string; ArchiveRoot : string; SymbolicLinkPolicy : string; payload_Executables : list string
}.
Record ArtifactSourceRecordV1 := {
  source_Schema : string; source_ID : string; source_SHA256 : string; Mirrors : list string;
  source_Provenance : list string; Diagnostics : list string
}.
Record NativePackageSetV1 := {
  ps_Schema : string; ps_ID : string; Manager : string; ps_Requirements : list string; Repositories : list string;
  ValidationMetadata : list string
}.
Record IntegrationFixtureRecordV1 := {
  fixture_Schema : string; fixture_ID : string; fixture_Name : string; fixture_Target : TargetIdentityV1;
  BaseImage : string; BaseImageDigest : string; fixture_Context : string; fixture_Bindings : list string;
  fixture_Selections : gmap string (list string); fixture_ValidationProfiles : list RecordReferenceV1
}.
Record ValidationProfileRecordV1 := {
  profile_Schema : string; profile_ID : string; profile_Tool : string; profile_Version : string;
  Probes : list RecordProbeV1
}.

(** [RecordV1], the closed interface of the records a catalog holds. *)
Inductive RecordV1 :=
| ToolRecord (record : ToolRecordV1)
| ReleaseManifest (record : ReleaseManifestV1)
| ReleaseContract (record : ReleaseContractV1)
| TargetRecord (record : TargetRecordV1)
| BindingContract (record : BindingContractV1)
| BindingArtifactRecord (record : BindingArtifactRecordV1)
| PayloadRecord (record : PayloadRecordV1)
| ArtifactSourceRecord (record : ArtifactSourceRecordV1)
| NativePackageSet (record : NativePackageSetV1)
| IntegrationFixtureRecord (record : IntegrationFixtureRecordV1)
| ValidationProfileRecord (record : ValidationProfileRecordV1).

Example record_texts :
  encodeToolVersionSegmentV1 "1.2~rc/3" = Ok "1.2%7Erc%2F3" ∧ encodeToolVersionSegmentV1 ".." = Ok "%2E%2E" ∧
  decodeToolVersionSegmentV1 "1.2%7Erc%2F3" = Ok "1.2~rc/3" ∧ is_ok (decodeToolVersionSegmentV1 "1%2E2") = false ∧
  is_ok (decodeToolVersionSegmentV1 "1%7e") = false ∧
  validateRecordIDV1 "tool:node/releases/22.1%7Erc/targets/debian" = Ok tt ∧
  is_ok (validateRecordIDV1 "tool:node/releases/22.1") = false ∧
  compareCanonicalDecimalV1 "9" "10" = -1 ∧ validateCanonicalDecimalV1 "0" true ≠ Ok tt ∧
  recordStringSliceSubsetV1 ["b"] ["a"; "b"] = true ∧ compareRecordStringSlicesV1 ["a"] ["a"; "b"] = -1 ∧
  validateRecordPathV1 "bin/tool" false = Ok tt ∧ is_ok (validateRecordPathV1 "../x" false) = false.
Proof. vm_compute. split_and!; done. Qed.
