(* ===== verification/ToolRecordsFacts.v ===== *)
(** * Texts of portable-tool records

    A version segment is the escaped version, without loss; a valid decimal is the
    printed form of a number below 2^63, and decimals are compared as numbers;
    the comparison of canonical lists decides inclusion. *)

From Stdlib Require Import Ascii.
From S2P Require Import Prelude GoText Identifiers Contributions ToolRecords.

Open Scope Z_scope.

(** ** Version segments *)

Lemma literal_not_percent c : literal_byte c = true → c ≠ "%"%char.
Proof. by intros H ->. Qed.

Lemma escape_value c :
  uppercaseHexValueV1 (upper_hex_digit (Z.shiftr (code c) 4)) = Some (Z.shiftr (code c) 4) ∧
  uppercaseHexValueV1 (upper_hex_digit (Z.land (code c) 15)) = Some (Z.land (code c) 15) ∧
  ascii_of_N (Z.to_N (Z.lor (Z.shiftl (Z.shiftr (code c) 4) 4) (Z.land (code c) 15))) = c.
Proof. by destruct c as [[] [] [] [] [] [] [] []]. Qed.

Lemma decode_encode_byte dots c l decoded :
  decode_escapes l = Ok decoded → decode_escapes (encode_byte dots c ++ l) = Ok (c :: decoded).
Proof.
  intros Hl. unfold encode_byte. destruct (literal_byte c && _) eqn:Hc.
  - apply andb_true_iff in Hc as [Hc%literal_not_percent _]. simpl.
    rewrite bool_decide_false by done. simpl. by rewrite Hl.
  - destruct (escape_value c) as (Hh & Hlo & Hv). cbn -[uppercaseHexValueV1 upper_hex_digit code Z.shiftr Z.land ascii_of_N].
    by rewrite Hh, Hlo, Hl, Hv.
Qed.

Lemma decode_encode_bytes dots l : decode_escapes (concat (map (encode_byte dots) l)) = Ok l.
Proof. induction l as [|c l IH]; [done|]. by apply decode_encode_byte. Qed.

Lemma string_of_bytes s : String.string_of_list_ascii (bytes s) = s.
Proof. apply String.string_of_list_ascii_of_string. Qed.

Lemma encode_nonempty value encoded : encodeToolVersionSegmentV1 value = Ok encoded → encoded ≠ "".
Proof.
  unfold encodeToolVersionSegmentV1. intros [Hv [= <-]]%reject_if_bind. destruct value as [|c rest]; [done|].
  simpl. unfold encode_byte. by destruct (_ && _).
Qed.

(** ** Decimals *)

Lemma canonical_pattern s : full_match canonicalDecimalPattern s = true ↔ canonical_digits s ∧ string_forallb is_digit s = true.
Proof.
  rewrite full_match_spec, string_forallb_bytes. unfold canonical_digits. split.
  - inversion 1 as [| | |? ? ? Hz|? ? ? Hs| |]; subst.
    + inversion Hz as [| |? ? s1 s2 H1 H2 Heq Happ| | | |]; subst. inversion H1; subst. inversion H2; subst.
      go_bool. subst. destruct s as [|c [|]]; simplify_eq/=. split; [|done]. by exists "0"%char, "".
    + inversion Hs as [| |? ? s1 s2 H1 H2 Heq Happ| | | |]; subst. inversion H1 as [|? ? Hc| | | | |]; subst.
      apply star_class in H2. destruct s as [|x rest]; simplify_eq/=. unfold compose, in_range in Hc. go_bool.
      assert (is_digit x = true) as Hd by (unfold is_digit, in_range; go_bool; lia). split.
      * exists x, rest. split_and!; [done|done|]. intros ->. change (code "0") with 48 in *. lia.
      * split; [done|]. by apply Forall_bool.
  - intros [(c & rest & -> & Hc & H0) Hall]. destruct (decide (c = "0"%char)) as [->|Hne].
    + rewrite (H0 eq_refl) in *. apply denotes_left. apply (denotes_seq _ _ ["0"%char] []); by constructor.
    + apply denotes_right. apply (denotes_seq _ _ [c] (bytes rest)).
      * constructor. assert (code c ≠ 48).
        { intros Hz. apply Hne, digit_value_inj. unfold digit_value. by rewrite Hz. }
        unfold compose, in_range, is_digit, in_range in *. go_bool. lia.
      * apply star_class, Forall_bool. simpl in Hall. by apply andb_true_iff in Hall as [_ Hall].
Qed.

Lemma parse_digits_all acc s : string_forallb is_digit s = true → is_Some (parse_digits acc s).
Proof. revert acc. induction s as [|c s IH]; intros acc; simpl; [by eexists|]. destruct (is_digit c); [|done]. apply IH. Qed.

Lemma parse_digits_digits acc s n : parse_digits acc s = Some n → string_forallb is_digit s = true.
Proof. revert acc. induction s as [|c s IH]; intros acc; simpl; [done|]. destruct (is_digit c); [|done]. apply IH. Qed.

Lemma format_canonical n : 0 ≤ n → canonical_digits (format_uint n).
Proof.
  intros Hn. destruct (format_uint_shape n Hn) as (c & rest & -> & Hc & _ & H0). exists c, rest. split_and!; [done|done|].
  intros ->. by destruct (H0 eq_refl).
Qed.

Lemma digit_compare c d : is_digit c = true → is_digit d = true →
  Ascii.compare c d = (digit_value c ?= digit_value d).
Proof.
  intros _ _. unfold Ascii.compare, digit_value, code. rewrite <-N2Z.inj_compare.
  destruct (Z.compare_spec (Z.of_N (N_of_ascii c)) (Z.of_N (N_of_ascii d))), (Z.compare_spec (Z.of_N (N_of_ascii c) - 48) (Z.of_N (N_of_ascii d) - 48)); done || lia.
Qed.

(** Digits of equal length are ordered as the numbers they denote. *)
Lemma parse_digits_compare a s t n m :
  String.length s = String.length t → parse_digits a s = Some n → parse_digits a t = Some m →
  String.compare s t = (n ?= m).
Proof.
  revert a t. induction s as [|c s IH]; intros a [|d t]; simpl; try done.
  { intros _ [= ->] [= ->]. by rewrite Z.compare_refl. }
  intros [= Hl]. destruct (is_digit c) eqn:Hc; [|done]. destruct (is_digit d) eqn:Hd; [|done]. intros Hn Hm.
  rewrite digit_compare by done. destruct (Z.compare_spec (digit_value c) (digit_value d)) as [He|Hlt|Hgt].
  - rewrite He in Hn. by apply (IH _ _ Hl Hn).
  - apply parse_digits_value in Hn, Hm. unfold len in *. rewrite Hl in Hn.
    assert (0 < 10 ^ Z.of_nat (String.length t)) by (apply Z.pow_pos_nonneg; lia). symmetry. apply Z.compare_lt_iff. nia.
  - apply parse_digits_value in Hn, Hm. unfold len in *. rewrite Hl in Hn.
    assert (0 < 10 ^ Z.of_nat (String.length t)) by (apply Z.pow_pos_nonneg; lia). symmetry. apply Z.compare_gt_iff. nia.
Qed.

Definition sign (c : comparison) : Z := match c with Lt => -1 | Eq => 0 | Gt => 1 end.

Lemma shorter_smaller s t n m : canonical_digits s → canonical_digits t →
  parse_digits 0 s = Some n → parse_digits 0 t = Some m → len s < len t → n < m.
Proof.
  intros Hs Ht Hn Hm Hl. destruct (canonical_length _ _ Ht Hm) as [_ [[Hlow _]|[_ ->]]].
  - apply parse_digits_value in Hn. assert (10 ^ len s ≤ 10 ^ (len t - 1)) by (apply Z.pow_le_mono_r; lia). lia.
  - destruct Hs as (? & ? & -> & _). unfold len in Hl. simpl in Hl. lia.
Qed.

Lemma compare_decimals s t n m : canonical_digits s → canonical_digits t →
  parse_digits 0 s = Some n → parse_digits 0 t = Some m → compareCanonicalDecimalV1 s t = sign (n ?= m).
Proof.
  intros Hs Ht Hn Hm. unfold compareCanonicalDecimalV1. destruct (len s =? len t) eqn:Hl; go_bool; simpl.
  - unfold string_compare. rewrite (parse_digits_compare 0 _ _ n m); [done|unfold len in Hl; lia|done|done].
  - destruct (len s <? len t) eqn:Hlt; go_bool.
    + rewrite (proj2 (Z.compare_lt_iff n m)); [done|]. by apply (shorter_smaller s t).
    + rewrite (proj2 (Z.compare_gt_iff n m)); [done|]. apply (shorter_smaller t s); done || lia.
Qed.

Lemma validate_decimal value positive :
  validateCanonicalDecimalV1 value positive = Ok tt ↔
  ∃ n, 0 ≤ n < 2 ^ 63 ∧ value = format_uint n ∧ (positive = true → n ≠ 0).
Proof.
  unfold validateCanonicalDecimalV1. split.
  - intros [Hp H]%reject_if_bind. apply negb_false_iff, canonical_pattern in Hp as [Hc Hd].
    destruct (parse_uint value 63) as [n|] eqn:Hn; [|done]. apply reject_if_ok in H. exists n.
    pose proof (parse_uint_range _ _ _ Hn) as Hr. split_and!; [lia|lia| |].
    + destruct Hc as (c & rest & -> & Hc). unfold parse_uint in Hn.
      destruct (parse_digits 0 _) as [m|] eqn:Hm; [|done]. destruct (m <? 2 ^ 63); [|done]. injection Hn as <-.
      symmetry. apply format_parse_digits; [|done]. by exists c, rest.
    + intros -> ->. done.
  - intros (n & Hn & -> & Hz). pose proof (parse_format_uint n (proj1 Hn)) as Hp.
    rewrite (proj2 (canonical_pattern _)) by (split; [apply format_canonical; lia|by apply (parse_digits_digits 0 _ n)]). simpl.
    pose proof (format_canonical n (proj1 Hn)) as (c & rest & Heq & _). unfold parse_uint. rewrite Heq in *. rewrite Hp.
    rewrite (proj2 (Z.ltb_lt _ _)) by lia. apply reject_if_ok. destruct positive; [|done]. simpl. apply Z.eqb_neq. by apply Hz.
Qed.

(** ** Canonical lists *)

Lemma subset_nil superset : recordStringSliceSubsetV1 [] superset = true.
Proof. by destruct superset. Qed.

Lemma subset_spec subset superset : Sorted string_lt subset → Sorted string_lt superset →
  recordStringSliceSubsetV1 subset superset = true ↔ subset ⊆ superset.
Proof.
  intros Hsub Hsup. apply Sorted_StronglySorted in Hsub; [|intros ? ? ?; apply transitivity].
  apply Sorted_StronglySorted in Hsup; [|intros ? ? ?; apply transitivity].
  revert subset Hsub. induction superset as [|r rights IH]; intros subset Hsub.
  { destruct subset; split; [intros _ x Hx; by apply elem_of_nil in Hx|done|done|].
    intros H. by specialize (H s (list_elem_of_here _ _)) as ?%elem_of_nil. }
  inversion Hsup as [|? ? Hrs Hr]; subst. specialize (IH Hrs). destruct subset as [|l lefts].
  { split; [intros _ x Hx; by apply elem_of_nil in Hx|done]. }
  inversion Hsub as [|? ? Hls Hl]; subst. simpl. rewrite Forall_forall in Hr, Hl. case_bool_decide as He; [subst l|case_bool_decide as Hlt].
  - rewrite IH by done. split.
    + intros H x [->|Hx]%elem_of_cons; [by left|right; by apply H].
    + intros H x Hx. destruct (proj1 (elem_of_cons _ _ _) (H x (list_elem_of_further _ _ _ Hx))) as [->|]; [|done].
      destruct (irreflexivity string_lt r (Hl _ Hx)).
  - rewrite IH by done. split.
    + intros H x Hx. right. by apply H.
    + intros H x Hx. destruct (proj1 (elem_of_cons _ _ _) (H x Hx)) as [->|]; [|done].
      apply elem_of_cons in Hx as [->|Hx]; [done|]. destruct (irreflexivity string_lt l). etrans; [by apply Hl|done].
  - split; [done|]. intros H. destruct (proj1 (elem_of_cons _ _ _) (H l (list_elem_of_here _ _))) as [|Hin]; [done|].
    destruct Hlt. by apply Hr.
Qed.

(** ** Properties *)

(** Escaping a version and unescaping a segment are inverse: a text decodes to
    a version exactly when it is what that version encodes to.  So a segment
    names one version, and a version has one segment. *)
Theorem version_segment_roundtrip version segment :
  encodeToolVersionSegmentV1 version = Ok segment ↔ decodeToolVersionSegmentV1 segment = Ok version.
Proof.
  unfold decodeToolVersionSegmentV1. split.
  - intros He. rewrite bool_decide_false by by eapply encode_nonempty. simpl.
    pose proof He as H. unfold encodeToolVersionSegmentV1 in H. apply reject_if_bind in H as [_ [= Hs]].
    rewrite <-Hs at 1. rewrite bytes_of_list, decode_encode_bytes. simpl. rewrite string_of_bytes, He.
    by rewrite bool_decide_true.
  - intros [_ H]%reject_if_bind. apply bind_ok in H as (decoded & _ & H).
    destruct (encodeToolVersionSegmentV1 _) as [canonical|] eqn:He; [|done].
    apply reject_if_bind in H as [Hc [= <-]]. apply negb_false_iff, bool_decide_eq_true in Hc as ->. done.
Qed.

(** A canonical decimal is the printed form of a number below 2^63, positive
    where that is asked; comparing two by length and then by bytes is comparing
    their numbers, so no conversion can overflow. *)
Theorem canonical_decimal_spec value positive n m : 0 ≤ n → 0 ≤ m →
  (validateCanonicalDecimalV1 value positive = Ok tt ↔
     ∃ k, 0 ≤ k < 2 ^ 63 ∧ value = format_uint k ∧ (positive = true → k ≠ 0)) ∧
  compareCanonicalDecimalV1 (format_uint n) (format_uint m) = sign (n ?= m).
Proof.
  intros Hn Hm. split; [apply validate_decimal|].
  by apply compare_decimals; try apply format_canonical; try apply parse_format_uint.
Qed.

Lemma canonical_decimal_spec_witness :
  validateCanonicalDecimalV1 "18" true = Ok tt ∧ compareCanonicalDecimalV1 (format_uint 9) (format_uint 18) = sign (9 ?= 18).
Proof.
  destruct (canonical_decimal_spec "18" true 9 18 ltac:(lia) ltac:(lia)) as [Hv Hc]. split; [|done].
  apply Hv. exists 18. split_and!; [lia|lia|by vm_compute|done].
Defined.
