(* ===== verification/ToolCatalog.v ===== *)
(** * The graph of a tool catalog

    [internal/toolcatalog/catalog.go] and [catalog_validation.go]: how records
    enter a catalog, the references between them, and the checks of the whole
    graph: the length of reference chains, the schema and the name space of what
    a reference names, reachability from the tool records, and the sources of
    artifacts.

    A recursion of the code fails when its depth exceeds 64, so [budget], the
    number of levels that are left, is 65 at the start and its end is that error.
    The map [visiting] is empty again whenever a call returns: it is the set of
    keys on the path.  Records are visited in the order of their keys. *)

From Stdlib Require Import Ascii.
From S2P Require Import Prelude GoText ToolRecords.

Open Scope nat_scope.

(** ** Schemas *)

Definition ToolRecordSchemaV1 : string := "portable-tool-v1".
Definition ReleaseManifestSchemaV1 : string := "portable-tool-release-manifest-v1".
Definition ReleaseContractSchemaV1 : string := "portable-tool-release-contract-v1".
Definition TargetRecordSchemaV1 : string := "portable-tool-target-v1".
Definition BindingContractSchemaV1 : string := "portable-tool-python-binding-v1".
Definition BindingArtifactSchemaV1 : string := "portable-tool-python-wheel-artifact-v1".
Definition PayloadRecordSchemaV1 : string := "portable-tool-payload-v1".
Definition ArtifactSourceRecordSchemaV1 : string := "portable-tool-artifact-source-v1".
Definition NativePackageSetSchemaV1 : string := "portable-tool-package-set-v1".
Definition IntegrationFixtureSchemaV1 : string := "portable-tool-integration-fixture-v1".
Definition ValidationProfileSchemaV1 : string := "portable-tool-validation-profile-v1".

(** The dynamic type of a record value. *)
Inductive record_kind :=
| KTool | KManifest | KContract | KTarget | KBindingContract | KBindingArtifact | KPayload | KArtifactSource
| KPackageSet | KFixture | KProfile.
#[export] Instance record_kind_eq_dec : EqDecision record_kind.
Proof. solve_decision. Defined.

Definition kind_of (value : RecordV1) : record_kind :=
  match value with
  | ToolRecord _ => KTool
  | ReleaseManifest _ => KManifest
  | ReleaseContract _ => KContract
  | TargetRecord _ => KTarget
  | BindingContract _ => KBindingContract
  | BindingArtifactRecord _ => KBindingArtifact
  | PayloadRecord _ => KPayload
  | ArtifactSourceRecord _ => KArtifactSource
  | NativePackageSet _ => KPackageSet
  | IntegrationFixtureRecord _ => KFixture
  | ValidationProfileRecord _ => KProfile
  end.

(** The type of value that the decoder allocates for a schema. *)
Definition newPortableToolRecordValueV1 (schema : string) : option record_kind :=
  if bool_decide (schema = ToolRecordSchemaV1) then Some KTool
  else if bool_decide (schema = ReleaseManifestSchemaV1) then Some KManifest
  else if bool_decide (schema = ReleaseContractSchemaV1) then Some KContract
  else if bool_decide (schema = TargetRecordSchemaV1) then Some KTarget
  else if bool_decide (schema = BindingContractSchemaV1) then Some KBindingContract
  else if bool_decide (schema = BindingArtifactSchemaV1) then Some KBindingArtifact
  else if bool_decide (schema = PayloadRecordSchemaV1) then Some KPayload
  else if bool_decide (schema = ArtifactSourceRecordSchemaV1) then Some KArtifactSource
  else if bool_decide (schema = NativePackageSetSchemaV1) then Some KPackageSet
  else if bool_decide (schema = IntegrationFixtureSchemaV1) then Some KFixture
  else if bool_decide (schema = ValidationProfileSchemaV1) then Some KProfile
  else None.

(** ** Catalogs *)

Record loadedRecordV1 := {
  record_ID : string; record_Schema : string; record_Digest : string; record_Path : string; record_Value : RecordV1 }.

(** The ID and the digest of a record. *)
Definition recordKeyV1 : Type := string * string.
Record CatalogV1 := MakeCatalog { records : gmap recordKeyV1 loadedRecordV1; tools : gmap string recordKeyV1 }.
Definition empty_catalog : CatalogV1 := MakeCatalog ∅ ∅.

Definition reference_key (reference : RecordReferenceV1) : recordKeyV1 := (ref_ID reference, ref_Digest reference).
Definition exactRecordV1 (catalog : CatalogV1) (reference : RecordReferenceV1) : result loadedRecordV1 :=
  match records catalog !! reference_key reference with
  | Some record =>
    _ ← reject_if (negb (bool_decide (record_ID record = ref_ID reference))
                   || negb (bool_decide (record_Digest record = ref_Digest reference)))
          "reference does not resolve to its exact record";
    Ok record
  | None => Err "reference does not resolve to its exact record"
  end.

Definition Names (catalog : CatalogV1) : list string := merge_sort String.le (map fst (map_to_list (tools catalog))).

Definition recordToolNameV1 (id : string) : result string :=
  match cut_prefix (default "" (head (split_byte id "/"%char))) "tool:" with
  | Some name => _ ← reject_if (negb (validRecordIdentifierV1 name)) "record ID does not declare a qualified tool name"; Ok name
  | None => Err "record ID does not declare a qualified tool name"
  end.

Definition releaseNamespaceV1 (id : string) : result string :=
  let segments := split_byte id "/"%char in
  _ ← reject_if ((length segments <? 3) || negb (bool_decide (segments !! 1 = Some "releases")))
        "record ID does not belong to a release namespace";
  Ok (join (take 3 segments) "/").

Definition trim_prefix (value prefix : string) : string := default value (cut_prefix value prefix).

(** The part of a file name below [root]. *)
Definition relative_path (filename root : string) : result string :=
  let trimmed := trim_suffix root "/" in
  if bool_decide (trimmed = "") || bool_decide (trimmed = ".") then Ok filename
  else
    let relative := trim_prefix filename (trimmed +:+ "/") in
    _ ← reject_if (bool_decide (relative = filename)) "catalog entry must live below the root";
    Ok relative.

Definition placeRecordV1 (catalog : CatalogV1) (record : loadedRecordV1) (filename root : string) : result CatalogV1 :=
  relative ← relative_path filename root;
  toolName ← wrap (recordToolNameV1 (record_ID record)) "catalog entry";
  _ ← reject_if (negb (has_prefix relative (toolName +:+ "/"))) "catalog entry must live below its tool";
  let key := (record_ID record, record_Digest record) in
  _ ← reject_if (bool_decide (is_Some (records catalog !! key))) "catalog contains duplicate definition";
  tools ← (if bool_decide (record_Schema record = ToolRecordSchemaV1) then
             _ ← reject_if (negb (bool_decide (relative = toolName +:+ "/tool.json"))) "tool record must use its path";
             _ ← reject_if (bool_decide (is_Some (tools catalog !! toolName))) "catalog contains duplicate tool";
             Ok (<[toolName := key]> (tools catalog))
           else Ok (tools catalog));
  Ok (MakeCatalog (<[key := record]> (records catalog)) tools).

(** ** References *)

Record catalogReferenceV1 := Edge { edge_Reference : RecordReferenceV1; edge_Schemas : list string }.
Definition edges_to (schema : string) (references : list RecordReferenceV1) : list catalogReferenceV1 :=
  map (λ reference, Edge reference [schema]) references.

Definition source_edges (mapping : ArtifactSourceMappingV1) : list catalogReferenceV1 :=
  [Edge (mapping_Artifact mapping) [BindingArtifactSchemaV1; PayloadRecordSchemaV1];
   Edge (mapping_Source mapping) [ArtifactSourceRecordSchemaV1]].
Definition binding_edges (binding : TargetBindingV1) : list catalogReferenceV1 :=
  Edge (binding_Contract binding) [BindingContractSchemaV1] ::
  edges_to BindingArtifactSchemaV1 (binding_Artifacts binding) ++
  edges_to PayloadRecordSchemaV1 (binding_Payloads binding) ++
  edges_to NativePackageSetSchemaV1 (binding_PackageSets binding) ++
  edges_to ValidationProfileSchemaV1 (binding_ValidationProfiles binding).
Definition selection_edges (selection : TargetSelectionV1) : list catalogReferenceV1 :=
  edges_to PayloadRecordSchemaV1 (selection_Payloads selection) ++
  edges_to NativePackageSetSchemaV1 (selection_PackageSets selection) ++
  edges_to ValidationProfileSchemaV1 (selection_ValidationProfiles selection).

Definition catalogReferencesV1 (value : RecordV1) : list catalogReferenceV1 :=
  match value with
  | ToolRecord tool => edges_to ReleaseManifestSchemaV1 (Releases tool)
  | ReleaseManifest manifest =>
    Edge (manifest_Contract manifest) [ReleaseContractSchemaV1] ::
    edges_to TargetRecordSchemaV1 (Targets manifest) ++
    concat (map source_edges (ArtifactSources manifest)) ++
    edges_to ValidationProfileSchemaV1 (manifest_ValidationProfiles manifest)
  | TargetRecord target =>
    edges_to IntegrationFixtureSchemaV1 (IntegrationFixtures target) ++
    edges_to NativePackageSetSchemaV1 (target_PackageSets target) ++
    concat (map binding_edges (target_Bindings target)) ++
    edges_to PayloadRecordSchemaV1 (target_Payloads target) ++
    concat (map selection_edges (target_Selections target)) ++
    edges_to ValidationProfileSchemaV1 (target_ValidationProfiles target)
  | BindingArtifactRecord artifact => [Edge (ba_Contract artifact) [BindingContractSchemaV1]]
  | IntegrationFixtureRecord fixture => edges_to ValidationProfileSchemaV1 (fixture_ValidationProfiles fixture)
  | _ => []
  end.

Definition record_le (left right : recordKeyV1) : Prop := string_lt left.1 right.1 ∨ left.1 = right.1 ∧ String.le left.2 right.2.
#[export] Instance record_le_dec left right : Decision (record_le left right).
Proof. unfold record_le. apply _. Defined.
Definition sortedRecordKeysV1 (catalog : CatalogV1) : list recordKeyV1 :=
  merge_sort record_le (map fst (map_to_list (records catalog))).

(** ** The length of chains *)

Definition maxCatalogGraphDepthV1 : nat := 64.
Definition chain_too_deep : string := "catalog reference chain exceeds depth 64".

(** Records under their ID. *)
Abbreviation resolved_view := (gmap string loadedRecordV1).

Section graph.
Context (catalog : CatalogV1).

(** A key without a record has no references. *)
Definition references_of (key : recordKeyV1) : list recordKeyV1 :=
  match records catalog !! key with
  | Some record => map (λ edge, reference_key (edge_Reference edge)) (catalogReferencesV1 (record_Value record))
  | None => []
  end.

(** The longest chain below a list of keys; [step] gives the longest chain from one. *)
Fixpoint walk_edges (step : recordKeyV1 → gmap recordKeyV1 nat → result (nat * gmap recordKeyV1 nat))
    (edges : list recordKeyV1) (deepest : nat) (suffix : gmap recordKeyV1 nat) : result (nat * gmap recordKeyV1 nat) :=
  match edges with
  | [] => Ok (deepest, suffix)
  | edge :: rest =>
    answer ← step edge suffix;
    walk_edges step rest (if deepest <? answer.1 + 1 then answer.1 + 1 else deepest) answer.2
  end.
Fixpoint walk (budget : nat) (visiting : gset recordKeyV1) (key : recordKeyV1) (suffix : gmap recordKeyV1 nat)
    : result (nat * gmap recordKeyV1 nat) :=
  match budget with
  | O => Err chain_too_deep
  | S budget =>
    match suffix !! key with
    | Some known => if budget <? known then Err chain_too_deep else Ok (known, suffix)
    | None =>
      if bool_decide (key ∈ visiting) then Err "catalog references form a cycle"
      else match records catalog !! key with
           | None => Ok (0, suffix)
           | Some _ =>
             answer ← walk_edges (walk budget ({[key]} ∪ visiting)) (references_of key) 0 suffix;
             Ok (answer.1, <[key := answer.1]> answer.2)
           end
    end
  end.
Fixpoint walk_all (keys : list recordKeyV1) (suffix : gmap recordKeyV1 nat) : result unit :=
  match keys with
  | [] => Ok tt
  | key :: rest => answer ← walk (S maxCatalogGraphDepthV1) ∅ key suffix; walk_all rest answer.2
  end.
Definition verifyReferenceDepthV1 : result unit := walk_all (sortedRecordKeysV1 catalog) ∅.

(** ** What a reference names *)

Definition check_edge_target (record : loadedRecordV1) (ownerTool : string) (ownerRelease : result string)
    (edge : catalogReferenceV1) : result unit :=
  match records catalog !! reference_key (edge_Reference edge) with
  | None => Err "record references missing record"
  | Some target =>
    _ ← reject_if (negb (containsRecordValueV1 (edge_Schemas edge) (record_Schema target)))
          "reference resolves to a schema which the reference does not permit";
    _ ← reject_if (negb (bool_decide (recordToolNameV1 (record_ID target) = Ok ownerTool))) "reference crosses tool namespaces";
    if bool_decide (record_Schema record = ToolRecordSchemaV1) then Ok tt
    else match releaseNamespaceV1 (record_ID target), ownerRelease with
         | Ok release, Ok owner => reject_if (negb (bool_decide (release = owner))) "reference escapes release namespace"
         | _, _ => Err "reference escapes release namespace"
         end
  end.
Fixpoint check_edges (record : loadedRecordV1) (ownerTool : string) (ownerRelease : result string)
    (edges : list catalogReferenceV1) : result unit :=
  match edges with
  | [] => Ok tt
  | edge :: rest => _ ← check_edge_target record ownerTool ownerRelease edge; check_edges record ownerTool ownerRelease rest
  end.
Definition validateRecordReferencesV1 (record : loadedRecordV1) : result unit :=
  ownerTool ← recordToolNameV1 (record_ID record);
  let ownerRelease := releaseNamespaceV1 (record_ID record) in
  _ ← (if bool_decide (record_Schema record = ToolRecordSchemaV1) then Ok tt else _ ← ownerRelease; Ok tt);
  check_edges record ownerTool ownerRelease (catalogReferencesV1 (record_Value record)).

(** ** Reachability *)

(** The settled and the reachable keys. *)
Definition visit_state : Type := gset recordKeyV1 * gset recordKeyV1.
Fixpoint visit_edges (step : recordKeyV1 → visit_state → result visit_state) (edges : list recordKeyV1) (state : visit_state)
    : result visit_state :=
  match edges with
  | [] => Ok state
  | edge :: rest => state ← step edge state; visit_edges step rest state
  end.
Fixpoint visit (budget : nat) (visiting : gset recordKeyV1) (key : recordKeyV1) (state : visit_state) : result visit_state :=
  match budget with
  | O => Err chain_too_deep
  | S budget =>
    _ ← reject_if (bool_decide (key ∈ visiting)) "catalog records form a cycle";
    let reachable := {[key]} ∪ state.2 in
    if bool_decide (key ∈ state.1) then Ok (state.1, reachable)
    else
      state ← visit_edges (visit budget ({[key]} ∪ visiting)) (references_of key) (state.1, reachable);
      Ok ({[key]} ∪ state.1, state.2)
  end.
Definition tool_key (name : string) : recordKeyV1 := match tools catalog !! name with Some key => key | None => ("", "") end.
Definition validateReachabilityV1 : result unit :=
  state ← visit_edges (visit (S maxCatalogGraphDepthV1) ∅) (map tool_key (Names catalog)) (∅, ∅);
  reject_if (negb (forallb (λ key, bool_decide (key ∈ state.2)) (sortedRecordKeysV1 catalog)))
    "catalog record is unreachable from any tool record".

(** ** Sources of artifacts *)

Definition artifactContentV1 (value : RecordV1) : option (string * string) :=
  match value with
  | BindingArtifactRecord artifact => Some (ba_SHA256 artifact, ba_Size artifact)
  | PayloadRecord payload => Some (payload_SHA256 payload, payload_Size payload)
  | _ => None
  end.
Definition mapped_digests (value : RecordV1) : list string :=
  match value with ReleaseManifest manifest => map ArtifactSHA256 (ArtifactSources manifest) | _ => [] end.
(** The sizes of the digests and the digests that have a source. *)
Fixpoint collect_artifacts (values : list RecordV1) (sizes : gmap string string) (mapped : gset string)
    : result (gset string) :=
  match values with
  | [] => Ok mapped
  | value :: rest =>
    sizes ← match artifactContentV1 value with
            | Some (digest, size) =>
              _ ← reject_if (match sizes !! digest with Some previous => negb (bool_decide (previous = size)) | None => false end)
                    "catalog artifacts share content digest but declare different sizes";
              Ok (<[digest := size]> sizes)
            | None => Ok sizes
            end;
    collect_artifacts rest sizes (mapped ∪ list_to_set (mapped_digests value))
  end.
Definition sorted_values : list RecordV1 := omap (λ key, record_Value <$> records catalog !! key) (sortedRecordKeysV1 catalog).
Definition validateAcquisitionMappingsV1 : result unit :=
  mapped ← collect_artifacts sorted_values ∅ ∅;
  reject_if (negb (forallb (λ value, match artifactContentV1 value with
                                     | Some (digest, _) => bool_decide (digest ∈ mapped)
                                     | None => true
                                     end) sorted_values))
    "catalog artifact has no acquisition source mapping".

Fixpoint check_records (records : list loadedRecordV1) : result unit :=
  match records with
  | [] => Ok tt
  | record :: rest => _ ← validateRecordReferencesV1 record; check_records rest
  end.
Definition validateCatalogGraphV1 : result unit :=
  _ ← check_records (omap (λ key, records catalog !! key) (sortedRecordKeysV1 catalog));
  _ ← validateReachabilityV1;
  validateAcquisitionMappingsV1.

(** ** The records one release selects *)

Fixpoint resolve_edges (step : recordKeyV1 → resolved_view → result resolved_view) (edges : list recordKeyV1) (view : resolved_view)
    : result resolved_view :=
  match edges with
  | [] => Ok view
  | edge :: rest => view ← step edge view; resolve_edges step rest view
  end.
Fixpoint resolve (budget : nat) (key : recordKeyV1) (view : resolved_view) : result resolved_view :=
  match budget with
  | O => Err "resolved graph exceeds depth 64"
  | S budget =>
    match records catalog !! key with
    | None => Ok view
    | Some record =>
      match view !! key.1 with
      | Some previous => _ ← reject_if (negb (bool_decide (record_Digest previous = key.2))) "resolved graph selects two digests"; Ok view
      | None => resolve_edges (resolve budget) (references_of key) (<[key.1 := record]> view)
      end
    end
  end.
Definition resolvedViewV1 (root : recordKeyV1) : result resolved_view := resolve (S maxCatalogGraphDepthV1) root ∅.

(** The tool record and the manifests it names. *)
Fixpoint index_view (references : list RecordReferenceV1) (view : resolved_view) : result resolved_view :=
  match references with
  | [] => Ok view
  | reference :: rest =>
    match records catalog !! reference_key reference with
    | None => Err "release is not in the catalog"
    | Some record =>
      _ ← reject_if (match view !! ref_ID reference with
                     | Some previous => negb (bool_decide (record_Digest previous = ref_Digest reference))
                     | None => false
                     end) "release index names one release at two digests";
      index_view rest (<[ref_ID reference := record]> view)
    end
  end.
Definition releaseIndexViewV1 (record : loadedRecordV1) (toolKey : recordKeyV1) (tool : ToolRecordV1) : result resolved_view :=
  index_view (Releases tool) {[toolKey.1 := record]}.
End graph.

Definition resolvedRecordV1 (view : resolved_view) (reference : RecordReferenceV1) : result loadedRecordV1 :=
  match view !! ref_ID reference with
  | Some record =>
    _ ← reject_if (negb (bool_decide (record_ID record = ref_ID reference))
                   || negb (bool_decide (record_Digest record = ref_Digest reference)))
          "reference does not resolve to its exact record";
    Ok record
  | None => Err "reference does not resolve to its exact record"
  end.
