(* ===== verification/ToolCatalogFacts.v ===== *)
(** * What an accepted catalog guarantees

    The search for long chains is exact, the accepted references are typed and
    stay in their name space, every record belongs to a tool, and the view of a
    release holds exactly the records it reaches. *)

From S2P Require Import Prelude GoText ToolRecords ToolCatalog.

Open Scope nat_scope.

Section graph.
Context (catalog : CatalogV1).
#[local] Abbreviation references_of := (references_of catalog).

(** ** Chains *)

(** A chain of [n] references. *)
Inductive leads : nat → recordKeyV1 → recordKeyV1 → Prop :=
| leads_here key : leads 0 key key
| leads_on n key edge last : edge ∈ references_of key → leads n edge last → leads (S n) key last.
Definition chain (n : nat) (key : recordKeyV1) : Prop := ∃ last, leads n key last.
Definition longest (key : recordKeyV1) (n : nat) : Prop := chain n key ∧ ∀ m, chain m key → m ≤ n.
Definition reaches (key last : recordKeyV1) : Prop := ∃ n, leads n key last.

Lemma chain_zero key : chain 0 key.
Proof using Type. by exists key; constructor. Qed.
Lemma chain_succ n key : chain (S n) key ↔ ∃ edge, edge ∈ references_of key ∧ chain n edge.
Proof using Type.
  split.
  - intros [last H]. inversion H as [|? ? edge ? Hin Hl]; subst. exists edge. split; [done|by exists last].
  - intros (edge & Hin & last & Hl). exists last. by econstructor.
Qed.
Lemma leads_trans n m key middle last : leads n key middle → leads m middle last → leads (n + m) key last.
Proof using Type. induction 1; simpl; [done|]. intros. econstructor; eauto. Qed.
Lemma leads_cut n m key last : leads n key last → m ≤ n → ∃ middle, leads m key middle ∧ leads (n - m) middle last.
Proof using Type.
  intros H. revert m. induction H as [key|n key edge last Hin Hl IH]; intros [|m] Hm.
  - exists key. split; constructor.
  - lia.
  - exists key. split; [constructor|]. by apply (leads_on n key edge).
  - destruct (IH m) as (middle & H1 & H2); [lia|]. exists middle. split; [by econstructor|done].
Qed.
(** A cycle has chains of every length. *)
Lemma cycle_chain n key : leads (S n) key key → ∀ m, chain m key.
Proof using Type.
  intros H m. assert (∃ k, m ≤ k ∧ leads k key key) as (k & Hk & Hl).
  { induction m as [|m (k & Hk & Hl)]; [exists 0; split; [done|constructor]|].
    exists (S n + k). split; [lia|by eapply leads_trans]. }
  destruct (leads_cut _ m _ _ Hl Hk) as (middle & Hm & _). by exists middle.
Qed.
Lemma no_record_no_chain key n : records catalog !! key = None → chain n key → n = 0.
Proof using Type.
  intros Hn. destruct n as [|n]; [done|]. rewrite chain_succ. unfold ToolCatalog.references_of. rewrite Hn.
  by intros (edge & Hin%elem_of_nil & _).
Qed.

(** ** The search for long chains *)

Definition measured (suffix : gmap recordKeyV1 nat) : Prop := ∀ key n, suffix !! key = Some n → longest key n.
Definition behind (visiting : gset recordKeyV1) (key : recordKeyV1) : Prop :=
  ∀ v, v ∈ visiting → ∃ n, leads (S n) v key.

(** A search with [budget] levels left measures the longest chain, or fails on a
    chain of that length. *)
Definition walk_answer (budget : nat) (key : recordKeyV1) (answer : result (nat * gmap recordKeyV1 nat)) : Prop :=
  match answer with
  | Ok (n, suffix) => longest key n ∧ n < budget ∧ measured suffix
  | Err _ => ∃ n, budget ≤ n ∧ chain n key
  end.
Definition walked_edges (budget : nat) (edges : list recordKeyV1) (deepest : nat) (answer : result (nat * gmap recordKeyV1 nat)) : Prop :=
  match answer with
  | Ok (n, suffix) =>
      measured suffix ∧ n < S budget ∧ deepest ≤ n ∧ (∀ edge m, edge ∈ edges → chain m edge → S m ≤ n) ∧
      (n = deepest ∨ ∃ edge m, edge ∈ edges ∧ chain m edge ∧ n = S m)
  | Err _ => ∃ edge n, edge ∈ edges ∧ budget ≤ n ∧ chain n edge
  end.

Lemma walk_edges_spec (budget : nat) (step : recordKeyV1 → gmap recordKeyV1 nat → result (nat * gmap recordKeyV1 nat)) edges deepest suffix :
  (∀ edge suffix, edge ∈ edges → measured suffix → walk_answer budget edge (step edge suffix)) →
  deepest < S budget → measured suffix → walked_edges budget edges deepest (walk_edges step edges deepest suffix).
Proof using Type.
  revert deepest suffix. induction edges as [|edge edges IH]; intros deepest suffix Hstep Hd Hs; simpl.
  { split_and!; [done|done|done|by intros ? ? ?%elem_of_nil|by left]. }
  pose proof (Hstep edge suffix (list_elem_of_here _ _) Hs) as Hw.
  destruct (step edge suffix) as [[n suffix1]|e]; simpl in *.
  2: { destruct Hw as (n & Hn & Hc). exists edge, n. split_and!; [left|done|done]. }
  destruct Hw as ([Hc Hmax] & Hn & Hs1). set (d := if deepest <? n + 1 then n + 1 else deepest).
  assert (deepest ≤ d ∧ n + 1 ≤ d ∧ d < S budget ∧ (d = deepest ∨ d = S n)) as (Hd1 & Hd2 & Hd3 & Hd4).
  { unfold d. destruct (Nat.ltb_spec deepest (n + 1)); lia. }
  specialize (IH d suffix1 (λ e s He, Hstep e s (list_elem_of_further _ _ _ He)) Hd3 Hs1).
  destruct (walk_edges step edges d suffix1) as [[n2 suffix2]|e]; simpl in *.
  - destruct IH as (Hs2 & Hn2 & Hle & Hall & Hex). split_and!; [done|done|lia| |].
    + intros e m [->|He]%elem_of_cons Hm; [|by apply (Hall e)]. apply Hmax in Hm. lia.
    + destruct Hex as [->|(e & m & He & Hm & ->)].
      * destruct Hd4 as [->| ->]; [by left|]. right. exists edge, n. split_and!; [left|done|done].
      * right. exists e, m. split_and!; [by right|done|done].
  - destruct IH as (e' & m & He & Hm & Hcm). exists e', m. split_and!; [by right|done|done].
Qed.

Lemma walk_spec budget visiting key suffix : behind visiting key → measured suffix →
  walk_answer budget key (walk catalog budget visiting key suffix).
Proof using Type.
  revert visiting key suffix. induction budget as [|budget IH]; intros visiting key suffix Hv Hs; simpl.
  { exists 0. split; [done|apply chain_zero]. }
  destruct (suffix !! key) as [known|] eqn:Hknown.
  { pose proof (Hs _ _ Hknown) as Hl. destruct (Nat.ltb_spec budget known); simpl; [|split_and!; [done|lia|done]].
    exists known. split; [lia|apply Hl]. }
  case_bool_decide as Hin.
  { destruct (Hv key Hin) as [n Hn]. exists (S budget). split; [done|by apply (cycle_chain n)]. }
  destruct (records catalog !! key) as [record|] eqn:Hrecord; simpl.
  2: { split_and!; [|lia|done]. split; [apply chain_zero|]. intros m Hm. by rewrite (no_record_no_chain key m). }
  assert (walked_edges budget (references_of key) 0
    (walk_edges (walk catalog budget ({[key]} ∪ visiting)) (references_of key) 0 suffix)) as Hw.
  { apply walk_edges_spec; [|lia|done]. intros edge suffix' Hedge Hs'. apply IH; [|done].
    intros v [->%elem_of_singleton|Hvis]%elem_of_union.
    - exists 0. econstructor; [done|constructor].
    - destruct (Hv v Hvis) as [n Hn]. exists (S n). replace (S (S n)) with (S n + 1) by lia.
      eapply leads_trans; [done|]. econstructor; [done|constructor]. }
  destruct (walk_edges _ _ _ _) as [[n suffix1]|e]; simpl in *.
  - destruct Hw as (Hs1 & Hn & _ & Hall & Hex).
    assert (longest key n) as Hlong.
    { split.
      - destruct Hex as [->|(edge & m & He & Hm & ->)]; [apply chain_zero|]. apply chain_succ. by exists edge.
      - intros [|m]; [lia|]. rewrite chain_succ. intros (edge & He & Hm). by apply (Hall edge). }
    split_and!; [done|done|]. intros k m. destruct (decide (k = key)) as [->|Hk].
    + rewrite lookup_insert_eq. by intros [= <-].
    + rewrite lookup_insert_ne by done. apply Hs1.
  - destruct Hw as (edge & n & He & Hn & Hc). exists (S n). split; [lia|]. apply chain_succ. by exists edge.
Qed.

Definition shallow : Prop := ∀ key n, is_Some (records catalog !! key) → chain n key → n ≤ maxCatalogGraphDepthV1.

Lemma walk_all_spec keys suffix : measured suffix →
  walk_all catalog keys suffix = Ok tt ↔ ∀ key n, key ∈ keys → chain n key → n ≤ maxCatalogGraphDepthV1.
Proof using Type.
  revert suffix. induction keys as [|key keys IH]; intros suffix Hs; cbn [walk_all].
  { split; [|done]. by intros _ key n ?%elem_of_nil. }
  pose proof (walk_spec (S maxCatalogGraphDepthV1) ∅ key suffix ltac:(by intros v Hv%elem_of_empty) Hs) as Hw.
  destruct (walk catalog _ _ _ _) as [[n suffix1]|e]; cbn [walk_answer mbind result_bind snd] in *.
  - destruct Hw as ([_ Hmax] & Hn & Hs1). rewrite (IH suffix1 Hs1). split.
    + intros H k m [->|Hk]%elem_of_cons; [|by apply H]. intros Hm%Hmax. lia.
    + intros H k m Hk. apply H. by right.
  - split; [done|]. intros H. destruct Hw as (n & Hn & Hc). exfalso. specialize (H key n ltac:(left) Hc). lia.
Qed.

Lemma elem_of_sorted_keys key : key ∈ sortedRecordKeysV1 catalog ↔ is_Some (records catalog !! key).
Proof using Type.
  unfold sortedRecordKeysV1. rewrite merge_sort_Permutation, list_elem_of_fmap. split.
  - intros ([k r] & -> & Hin%elem_of_map_to_list). by exists r.
  - intros [r Hr]. exists (key, r). split; [done|by apply elem_of_map_to_list].
Qed.

Lemma reference_depth : verifyReferenceDepthV1 catalog = Ok tt ↔ shallow.
Proof using Type.
  unfold verifyReferenceDepthV1. rewrite walk_all_spec; [|by intros key n ?%lookup_empty_Some].
  unfold shallow. setoid_rewrite elem_of_sorted_keys. done.
Qed.

Lemma shallow_chain : shallow → ∀ key n, chain n key → n ≤ maxCatalogGraphDepthV1.
Proof using Type.
  intros Hs key n Hc. destruct (records catalog !! key) eqn:Hk; [by eapply Hs|]. rewrite (no_record_no_chain key n); [lia|done..].
Qed.
Lemma bounded_edge budget key edge : (∀ n, chain n key → n < S budget) → edge ∈ references_of key → ∀ n, chain n edge → n < budget.
Proof using Type.
  intros Hb He n Hn. assert (chain (S n) key) as Hc%Hb by (apply chain_succ; by exists edge). lia.
Qed.
Lemma behind_fresh budget visiting key : (∀ n, chain n key → n < budget) → behind visiting key → key ∉ visiting.
Proof using Type.
  intros Hb Hv Hin. destruct (Hv key Hin) as [n Hn]. pose proof (Hb budget (cycle_chain _ _ Hn budget)). lia.
Qed.
Lemma behind_edge visiting key edge : behind visiting key → edge ∈ references_of key → behind ({[key]} ∪ visiting) edge.
Proof using Type.
  intros Hv He v [->%elem_of_singleton|Hin]%elem_of_union.
  - exists 0. econstructor; [done|constructor].
  - destruct (Hv v Hin) as [n Hn]. exists (S n). replace (S (S n)) with (S n + 1) by lia.
    eapply leads_trans; [done|]. econstructor; [done|constructor].
Qed.
Lemma reaches_refl key : reaches key key.
Proof using Type. exists 0. constructor. Qed.
Lemma reaches_on key edge last : edge ∈ references_of key → reaches edge last → reaches key last.
Proof using Type. intros He [n Hn]. exists (S n). by econstructor. Qed.
Lemma reaches_cases key last : reaches key last ↔ key = last ∨ ∃ edge, edge ∈ references_of key ∧ reaches edge last.
Proof using Type.
  split.
  - intros [n H]. inversion H as [|m ? edge ? He Hl]; subst; [by left|]. right. exists edge. split; [done|by exists m].
  - intros [->|(edge & He & Hl)]; [apply reaches_refl|by eapply reaches_on].
Qed.

(** ** Reachable records *)

Definition closed (keys : gset recordKeyV1) : Prop := ∀ key edge, key ∈ keys → edge ∈ references_of key → edge ∈ keys.
Lemma closed_reaches keys key last : closed keys → key ∈ keys → reaches key last → last ∈ keys.
Proof using Type. intros Hc Hk [n Hn]. revert Hk. induction Hn; [done|]. eauto. Qed.

Definition visited (goal : recordKeyV1 → Prop) (before : visit_state) (answer : result visit_state) : Prop :=
  ∃ after, answer = Ok after ∧ closed after.1 ∧ after.1 ⊆ after.2 ∧
    (∀ k, k ∈ after.1 ↔ k ∈ before.1 ∨ goal k) ∧ (∀ k, k ∈ after.2 ↔ k ∈ before.2 ∨ goal k).

Lemma visit_edges_spec (step : recordKeyV1 → visit_state → result visit_state) edges state :
  (∀ edge state, edge ∈ edges → closed state.1 → state.1 ⊆ state.2 → visited (reaches edge) state (step edge state)) →
  closed state.1 → state.1 ⊆ state.2 → visited (λ k, ∃ edge, edge ∈ edges ∧ reaches edge k) state (visit_edges step edges state).
Proof using Type.
  revert state. induction edges as [|edge edges IH]; intros state Hstep Hc Hs; simpl.
  { exists state. split_and!; try done; setoid_rewrite elem_of_nil; naive_solver. }
  destruct (Hstep edge state (list_elem_of_here _ _) Hc Hs) as (state1 & -> & Hc1 & Hs1 & H1 & R1). simpl.
  destruct (IH state1 (λ e s He, Hstep e s (list_elem_of_further _ _ _ He)) Hc1 Hs1) as (state2 & -> & Hc2 & Hs2 & H2 & R2).
  exists state2. split_and!; [done..| |]; intros k; [rewrite H2, H1|rewrite R2, R1]; setoid_rewrite elem_of_cons; naive_solver.
Qed.

Lemma visit_spec_catalog budget visiting key state : (∀ n, chain n key → n < budget) → behind visiting key →
  closed state.1 → state.1 ⊆ state.2 → visited (reaches key) state (visit catalog budget visiting key state).
Proof using Type.
  revert visiting key state. induction budget as [|budget IH]; intros visiting key state Hb Hv Hc Hs.
  { pose proof (Hb 0 (chain_zero key)). lia. }
  simpl. rewrite (bool_decide_false (key ∈ visiting)) by (by apply (behind_fresh (S budget))). simpl. case_bool_decide as Hin.
  - eexists. split_and!; [done|done| | |]; simpl.
    + set_solver.
    + intros k. split; [by left|]. intros [Hk|Hk]; [done|]. by eapply closed_reaches.
    + intros k. rewrite elem_of_union, elem_of_singleton. split.
      * intros [->|Hk]; [right; apply reaches_refl|by left].
      * intros [Hk|Hk]; [by right|]. right. apply Hs. by eapply closed_reaches.
  - destruct (visit_edges_spec (visit catalog budget ({[key]} ∪ visiting)) (references_of key) (state.1, {[key]} ∪ state.2))
      as (after & -> & Hc1 & Hs1 & H1 & R1); [|done|set_solver|].
    { intros edge s He Hcs Hss. apply IH; [by eapply bounded_edge|by apply behind_edge|done..]. }
    simpl in *. eexists. split_and!; [done| | | |]; simpl.
    + intros k e [->%elem_of_singleton|Hk]%elem_of_union He; apply elem_of_union_r; [|by eapply Hc1].
      apply H1. right. exists e. split; [done|apply reaches_refl].
    + intros k [->%elem_of_singleton|Hk]%elem_of_union; [|by apply Hs1]. apply R1. left. set_solver.
    + intros k. rewrite elem_of_union, elem_of_singleton, H1, (reaches_cases key k). naive_solver.
    + intros k. rewrite R1, elem_of_union, elem_of_singleton, (reaches_cases key k). naive_solver.
Qed.

Definition tool_reaches (key : recordKeyV1) : Prop :=
  ∃ name toolKey, tools catalog !! name = Some toolKey ∧ reaches toolKey key.

Lemma elem_of_tool_keys key : key ∈ map (tool_key catalog) (Names catalog) ↔ ∃ name, tools catalog !! name = Some key.
Proof using Type.
  unfold Names. rewrite merge_sort_Permutation, map_map, list_elem_of_fmap. unfold tool_key. split.
  - intros ([name k] & -> & Hin%elem_of_map_to_list). exists name. cbn. by rewrite Hin.
  - intros (name & Hn). exists (name, key). simpl. rewrite Hn. split; [done|by apply elem_of_map_to_list].
Qed.

Lemma reachability : shallow →
  validateReachabilityV1 catalog = Ok tt ↔ ∀ key, is_Some (records catalog !! key) → tool_reaches key.
Proof using Type.
  intros Hs. unfold validateReachabilityV1.
  destruct (visit_edges_spec (visit catalog (S maxCatalogGraphDepthV1) ∅) (map (tool_key catalog) (Names catalog)) (∅, ∅))
    as (after & -> & _ & _ & _ & R); [|by intros ? ? ?%elem_of_empty|done|].
  { intros edge state _ Hc Hsub. apply visit_spec_catalog; [|by intros v ?%elem_of_empty|done..].
    intros n Hn%shallow_chain; [lia|done]. }
  cbn [mbind result_bind]. rewrite reject_if_ok, negb_false_iff, Forall_bool, Forall_forall.
  setoid_rewrite elem_of_sorted_keys. setoid_rewrite bool_decide_eq_true. simpl in R.
  assert (∀ k, k ∈ after.2 ↔ tool_reaches k) as HR; [|by setoid_rewrite HR].
  intros k. rewrite R. unfold tool_reaches. setoid_rewrite elem_of_tool_keys. split.
  - intros [?%elem_of_empty|(edge & (name & Hn) & Hr)]; [done|]. by exists name, edge.
  - intros (name & toolKey & Hn & Hr). right. exists toolKey. split; [by exists name|done].
Qed.

(** ** What references name *)

(** The record that a reference names has a schema that the reference permits,
    and stays in the name space of its owner. *)
Definition names_target (record : loadedRecordV1) (tool : string) (edge : catalogReferenceV1) (target : loadedRecordV1) : Prop :=
  records catalog !! reference_key (edge_Reference edge) = Some target ∧
  record_Schema target ∈ edge_Schemas edge ∧
  recordToolNameV1 (record_ID target) = Ok tool ∧
  (record_Schema record = ToolRecordSchemaV1 ∨
   ∃ release, releaseNamespaceV1 (record_ID target) = Ok release ∧ releaseNamespaceV1 (record_ID record) = Ok release).
Definition well_referenced (record : loadedRecordV1) : Prop :=
  ∃ tool, recordToolNameV1 (record_ID record) = Ok tool ∧
    (record_Schema record = ToolRecordSchemaV1 ∨ is_ok (releaseNamespaceV1 (record_ID record)) = true) ∧
    ∀ edge, edge ∈ catalogReferencesV1 (record_Value record) → ∃ target, names_target record tool edge target.

Lemma contains_record_value values value : containsRecordValueV1 values value = true ↔ value ∈ values.
Proof using Type.
  unfold containsRecordValueV1. rewrite existsb_exists. setoid_rewrite bool_decide_eq_true. setoid_rewrite <-list_elem_of_In. naive_solver.
Qed.

Lemma check_edge_target_ok record tool edge :
  check_edge_target catalog record tool (releaseNamespaceV1 (record_ID record)) edge = Ok tt ↔
  ∃ target, names_target record tool edge target.
Proof using Type.
  unfold check_edge_target, names_target. destruct (records catalog !! _) as [target|]; [|split; [done|naive_solver]].
  rewrite !reject_if_bind, !negb_false_iff, contains_record_value, bool_decide_eq_true. case_bool_decide as Hs; [naive_solver|].
  destruct (releaseNamespaceV1 (record_ID target)) as [release|] eqn:Ht, (releaseNamespaceV1 (record_ID record)) as [owner|].
  all: rewrite ?reject_if_ok, ?negb_false_iff, ?bool_decide_eq_true.
  1: { split; [intros (? & ? & ->); exists target; split_and!; [done|done|done|right; by exists owner]|].
       intros (t & [= <-] & ? & ? & [?|(r & Hr & [= ->])]); [done|]. rewrite Ht in Hr. by injection Hr. }
  all: split; [by intros (? & ? & [=])|]; intros (t & [= <-] & ? & ? & [?|(r & Hr & Hr')]); congruence.
Qed.
Lemma check_edges_ok record tool edges :
  check_edges catalog record tool (releaseNamespaceV1 (record_ID record)) edges = Ok tt ↔
  ∀ edge, edge ∈ edges → ∃ target, names_target record tool edge target.
Proof using Type.
  induction edges as [|edge edges IH]; simpl; [split; [by intros _ ? ?%elem_of_nil|done]|].
  rewrite bind_ok. setoid_rewrite elem_of_cons. split.
  - intros ([] & H%check_edge_target_ok & Hr) e [->|He]; [done|by apply IH].
  - intros H. exists tt. split; [apply check_edge_target_ok; naive_solver|apply IH; naive_solver].
Qed.
Lemma record_references record : validateRecordReferencesV1 catalog record = Ok tt ↔ well_referenced record.
Proof using Type.
  unfold validateRecordReferencesV1, well_referenced. rewrite bind_ok. split.
  - intros (tool & Ht & H). exists tool. split; [done|]. apply bind_ok in H as ([] & Hr & H).
    rewrite check_edges_ok in H. split; [|done]. case_bool_decide; [by left|right]. by apply bind_ok in Hr as (r & -> & _).
  - intros (tool & Ht & Hr & H). exists tool. split; [done|]. apply bind_ok. exists tt. split; [|by apply check_edges_ok].
    case_bool_decide; [done|]. destruct Hr as [|Hr]; [done|]. by apply is_ok_true in Hr as [release ->].
Qed.
Lemma check_records_ok l : check_records catalog l = Ok tt ↔ ∀ record, record ∈ l → well_referenced record.
Proof using Type.
  induction l as [|record l IH]; simpl; [split; [by intros _ ? ?%elem_of_nil|done]|].
  rewrite bind_ok. setoid_rewrite elem_of_cons. split.
  - intros ([] & H%record_references & Hr) r [->|He]; [done|by apply IH].
  - intros H. exists tt. split; [apply record_references; naive_solver|apply IH; naive_solver].
Qed.

(** ** Sources of artifacts *)

Definition same_sizes (values : list RecordV1) : Prop := ∀ v1 v2 digest size1 size2, v1 ∈ values → v2 ∈ values →
  artifactContentV1 v1 = Some (digest, size1) → artifactContentV1 v2 = Some (digest, size2) → size1 = size2.
Definition agrees (sizes : gmap string string) (values : list RecordV1) : Prop := ∀ v digest size previous, v ∈ values →
  artifactContentV1 v = Some (digest, size) → sizes !! digest = Some previous → previous = size.

Lemma collect_artifacts_spec values sizes mapped mapped' : collect_artifacts values sizes mapped = Ok mapped' ↔
  agrees sizes values ∧ same_sizes values ∧ mapped' = mapped ∪ list_to_set (concat (map mapped_digests values)).
Proof using Type.
  revert sizes mapped. induction values as [|v values IH]; intros sizes mapped; simpl.
  { rewrite union_empty_r_L. split; [intros [= ->]|by intros (_ & _ & ->)]. 
    split_and!; [by intros ? ? ? ? ?%elem_of_nil|by intros ? ? ? ? ? ?%elem_of_nil|done]. }
  rewrite list_to_set_app_L, (assoc_L (∪)). unfold agrees, same_sizes. setoid_rewrite elem_of_cons.
  destruct (artifactContentV1 v) as [[digest size]|] eqn:Hv.
  - rewrite bind_ok. split.
    + intros (sizes' & [Hp [= <-]]%reject_if_bind & H). apply IH in H as (Ha & Hs & ->). split_and!; [| |done].
      * intros w d s p [->|Hw] Hc Hp'.
        -- rewrite Hv in Hc. simplify_eq. rewrite Hp' in Hp. by go_bool.
        -- destruct (decide (d = digest)) as [->|Hd]; [|apply (Ha w d s p Hw Hc); by rewrite lookup_insert_ne].
           assert (p = size) as ->; [|apply (Ha w digest s size Hw Hc); apply lookup_insert_eq].
           rewrite Hp' in Hp. by go_bool.
      * intros w1 w2 d s1 s2 [->|H1] [->|H2] Hc1 Hc2.
        -- congruence.
        -- apply (Ha w2 d s2 s1 H2 Hc2). rewrite Hv in Hc1. injection Hc1 as <- <-. apply lookup_insert_eq.
        -- symmetry. apply (Ha w1 d s1 s2 H1 Hc1). rewrite Hv in Hc2. injection Hc2 as <- <-. apply lookup_insert_eq.
        -- by apply (Hs w1 w2 d).
    + intros (Ha & Hs & ->). exists (<[digest:=size]> sizes). split.
      * apply reject_if_bind. split; [|done]. destruct (sizes !! digest) as [p|] eqn:Hp; [|done]. go_bool. by apply (Ha v digest size p); [left|..].
      * apply IH. split_and!; [|intros w1 w2 d s1 s2 H1 H2; apply (Hs w1 w2 d); by right|done]. intros w d s p Hw Hc. destruct (decide (d = digest)) as [->|Hd].
        -- rewrite lookup_insert_eq. intros [= <-]. apply (Hs v w digest); [by left|by right|done..].
        -- rewrite lookup_insert_ne by done. apply (Ha w); [by right|done].
  - cbn [mbind result_bind]. rewrite IH. unfold agrees, same_sizes. split.
    + intros (Ha & Hs & ->). split_and!; [| |done].
      * intros w d s p [->|Hw]; [congruence|by apply Ha].
      * intros w1 w2 d s1 s2 [->|H1] [->|H2]; [congruence..|by apply Hs].
    + intros (Ha & Hs & ->). split_and!; [| |done]; naive_solver.
Qed.

Definition holds (value : RecordV1) : Prop := ∃ key record, records catalog !! key = Some record ∧ record_Value record = value.
Lemma elem_of_sorted_values value : value ∈ sorted_values catalog ↔ holds value.
Proof using Type.
  unfold sorted_values. rewrite list_elem_of_omap. setoid_rewrite elem_of_sorted_keys. unfold holds. split.
  - intros (key & [record Hr] & Hv). exists key, record. rewrite Hr in Hv. by injection Hv.
  - intros (key & record & Hr & Hv). exists key. rewrite Hr. simpl. by rewrite Hv.
Qed.

(** Every artifact has a source, and equal contents have equal sizes. *)
Definition acquirable : Prop :=
  (∀ v1 v2 digest size1 size2, holds v1 → holds v2 →
     artifactContentV1 v1 = Some (digest, size1) → artifactContentV1 v2 = Some (digest, size2) → size1 = size2) ∧
  ∀ value digest size, holds value → artifactContentV1 value = Some (digest, size) →
    ∃ manifest mapping, holds (ReleaseManifest manifest) ∧ mapping ∈ ArtifactSources manifest ∧ ArtifactSHA256 mapping = digest.

Lemma acquisition_mappings : validateAcquisitionMappingsV1 catalog = Ok tt ↔ acquirable.
Proof using Type.
  unfold validateAcquisitionMappingsV1, acquirable. rewrite bind_ok.
  assert (∀ digest, digest ∈ concat (map mapped_digests (sorted_values catalog)) ↔
    ∃ manifest mapping, holds (ReleaseManifest manifest) ∧ mapping ∈ ArtifactSources manifest ∧ ArtifactSHA256 mapping = digest) as Hm.
  { intros digest. rewrite list_elem_of_In, in_concat. setoid_rewrite <-list_elem_of_In. setoid_rewrite list_elem_of_fmap.
    setoid_rewrite elem_of_sorted_values. split.
    - intros (l & (v & -> & Hv) & Hd). destruct v; simpl in Hd; try by apply elem_of_nil in Hd.
      apply list_elem_of_fmap in Hd as (mapping & -> & Hin). by eexists _, mapping.
    - intros (manifest & mapping & Hh & Hin & <-). exists (map ArtifactSHA256 (ArtifactSources manifest)).
      split; [by exists (ReleaseManifest manifest)|]. by apply (list_elem_of_fmap_2 ArtifactSHA256). }
  split.
  - intros (mapped & (_ & Hs & ->)%collect_artifacts_spec & H). rewrite reject_if_ok, negb_false_iff, Forall_bool, Forall_forall in H.
    split.
    + intros v1 v2 d s1 s2 H1%elem_of_sorted_values H2%elem_of_sorted_values. by apply Hs.
    + intros v d s Hv%elem_of_sorted_values Hc. specialize (H v Hv). simpl in H. rewrite Hc in H. apply bool_decide_eq_true in H.
      apply Hm. set_solver.
  - intros [Hs Ha]. eexists. split.
    + apply collect_artifacts_spec. split_and!; [by intros v d s p _ _ ?%lookup_empty_Some| |done].
      intros v1 v2 d s1 s2 H1%elem_of_sorted_values H2%elem_of_sorted_values. by apply Hs.
    + rewrite reject_if_ok, negb_false_iff, Forall_bool, Forall_forall. intros v Hv%elem_of_sorted_values.
      destruct (artifactContentV1 v) as [[d s]|] eqn:Hc; [|done]. apply bool_decide_eq_true.
      apply elem_of_union_r, elem_of_list_to_set, Hm. by eapply Ha.
Qed.

Lemma catalog_graph : shallow →
  validateCatalogGraphV1 catalog = Ok tt ↔
  (∀ key record, records catalog !! key = Some record → well_referenced record) ∧
  (∀ key, is_Some (records catalog !! key) → tool_reaches key) ∧ acquirable.
Proof using Type.
  intros Hs. unfold validateCatalogGraphV1.
  rewrite <-acquisition_mappings, <-(reachability Hs).
  assert (check_records catalog (omap (λ key, records catalog !! key) (sortedRecordKeysV1 catalog)) = Ok tt ↔
    (∀ key record, records catalog !! key = Some record → well_referenced record)) as Hr.
  { rewrite check_records_ok. setoid_rewrite list_elem_of_omap. setoid_rewrite elem_of_sorted_keys. naive_solver. }
  rewrite <-Hr, bind_ok. split.
  - by intros ([] & ? & ([] & ? & ?)%bind_ok).
  - intros (? & H & ?). exists tt. split; [done|]. by rewrite H.
Qed.

(** ** The view of a release *)

(** A record is found under its own ID and digest. *)
Definition well_keyed : Prop := ∀ key record, records catalog !! key = Some record → key = (record_ID record, record_Digest record).
Definition known (key : recordKeyV1) : Prop := is_Some (records catalog !! key).
Definition present (view : resolved_view) (key : recordKeyV1) : Prop := ∃ record, view !! key.1 = Some record ∧ record_Digest record = key.2.
(** The references of a record of the view are in the view, except those of the
    records that are being visited. *)
Definition closed_view (visiting : gset recordKeyV1) (view : resolved_view) : Prop := ∀ key edge,
  known key → present view key → key ∉ visiting → edge ∈ references_of key → known edge → present view edge.
Definition from_graph (goal : recordKeyV1 → Prop) (before after : resolved_view) : Prop := ∀ id record, after !! id = Some record →
  before !! id = Some record ∨ ∃ key, goal key ∧ key.1 = id ∧ records catalog !! key = Some record.
Definition clash (goal : recordKeyV1 → Prop) (view : resolved_view) : Prop := ∃ key, goal key ∧ known key ∧
  ((∃ record, view !! key.1 = Some record ∧ record_Digest record ≠ key.2) ∨
   ∃ other, goal other ∧ known other ∧ other.1 = key.1 ∧ other.2 ≠ key.2).
Definition resolved (visiting : gset recordKeyV1) (goal : recordKeyV1 → Prop) (before : resolved_view) (answer : result resolved_view) : Prop :=
  match answer with
  | Ok after => before ⊆ after ∧ closed_view visiting after ∧ from_graph goal before after ∧ ∀ key, goal key → known key → present after key
  | Err _ => clash goal before
  end.

Hypothesis keyed : well_keyed.

Lemma present_mono view view' key : view ⊆ view' → present view key → present view' key.
Proof using Type. intros Hs (record & Hr & Hd). exists record. split; [by eapply lookup_weaken|done]. Qed.

Lemma clash_mono (goal goal' : recordKeyV1 → Prop) view view' : (∀ k, goal k → goal' k) → from_graph goal' view' view →
  clash goal view → clash goal' view'.
Proof using keyed.
  intros Hg Hf (key & Hk & Hn & H). exists key. split_and!; [by apply Hg|done|]. destruct H as [(record & Hr & Hd)|(other & ? & ? & ? & ?)].
  - destruct (Hf _ _ Hr) as [Hv|(other & Ho & Hi & Hro)]; [left; by exists record|]. right. exists other. split_and!; [done|by exists record|done|].
    apply keyed in Hro. subst. done.
  - right. exists other. split_and!; [by apply Hg|done..].
Qed.

Lemma resolve_edges_spec (step : recordKeyV1 → resolved_view → result resolved_view) visiting edges view :
  (∀ edge view, edge ∈ edges → closed_view visiting view → resolved visiting (reaches edge) view (step edge view)) →
  closed_view visiting view →
  resolved visiting (λ k, ∃ edge, edge ∈ edges ∧ reaches edge k) view (resolve_edges step edges view).
Proof using keyed.
  revert view. induction edges as [|edge edges IH]; intros view Hstep Hc; simpl.
  { split_and!; [done|done|by left|by intros ? (? & ?%elem_of_nil & _)]. }
  pose proof (Hstep edge view (list_elem_of_here _ _) Hc) as H1. destruct (step edge view) as [view1|e]; simpl in *.
  2: { eapply clash_mono; [|by left|done]. intros k Hk. exists edge. split; [left|done]. }
  destruct H1 as (Hs1 & Hc1 & Hf1 & Hp1).
  pose proof (IH view1 (λ e v He, Hstep e v (list_elem_of_further _ _ _ He)) Hc1) as H2.
  destruct (resolve_edges step edges view1) as [view2|e]; simpl in *.
  - destruct H2 as (Hs2 & Hc2 & Hf2 & Hp2). split_and!; [by etrans|done| |].
    + intros id record H%Hf2. destruct H as [H%Hf1|(k & (e & He & Hk) & H)]; [destruct H as [H|(k & Hk & H)]; [by left|]|].
      * right. exists k. split; [|done]. exists edge. split; [left|done].
      * right. exists k. split; [|done]. exists e. split; [by right|done].
    + intros k (e & [->|He]%elem_of_cons & Hk) Hkn; [|apply Hp2; [by exists e|done]]. eapply present_mono; [done|]. by apply Hp1.
  - eapply clash_mono; [| |done].
    + intros k (e' & He & Hk). exists e'. split; [by right|done].
    + intros id record H%Hf1. destruct H as [H|(k & Hk & H)]; [by left|]. right. exists k. split; [|done]. exists edge. split; [left|done].
Qed.

Lemma known_source n key last : leads n key last → known last → known key.
Proof using Type.
  intros H Hl. destruct H as [|n key edge last He _]; [done|]. unfold ToolCatalog.references_of in He.
  unfold known. destruct (records catalog !! key); [done|]. by apply elem_of_nil in He.
Qed.
Lemma present_reached budget visiting view key last n : (∀ n, chain n key → n < budget) → behind visiting key →
  closed_view visiting view → present view key → leads n key last → known last → present view last.
Proof using Type.
  clear keyed. intros Hb Hv Hc Hp H Hl. revert Hb Hv Hp. induction H as [|n key edge last He Hn IH]; intros Hb Hv Hp; [done|].
  apply IH; [done| | |].
  - intros m Hm. assert (chain (S m) key) as Hcm%Hb by (apply chain_succ; by exists edge). lia.
  - intros v Hvis. apply (behind_edge visiting key edge Hv He). set_solver.
  - apply (Hc key); [|done|by eapply behind_fresh|done|by eapply known_source]. by eapply known_source; [econstructor|].
Qed.

Lemma closed_insert visiting view key record : closed_view visiting view → view !! key.1 = None → record_Digest record = key.2 →
  closed_view ({[key]} ∪ visiting) (<[key.1 := record]> view).
Proof using Type.
  intros Hc Hn Hd k edge Hk (r & Hr & Hdk) Hnv He Hke. apply not_elem_of_union in Hnv as [Hne%not_elem_of_singleton Hnv].
  destruct (decide (k.1 = key.1)) as [Hi|Hi].
  - rewrite Hi, lookup_insert_eq in Hr. injection Hr as ->. destruct Hne. destruct k, key. simpl in *. congruence.
  - rewrite lookup_insert_ne in Hr by done. apply (present_mono view); [by apply insert_subseteq|].
    apply (Hc k); [done|by exists r|done..].
Qed.

Lemma resolve_spec budget visiting key view : (∀ n, chain n key → n < budget) → behind visiting key →
  closed_view visiting view → resolved visiting (reaches key) view (resolve catalog budget key view).
Proof using keyed.
  revert visiting key view. induction budget as [|budget IH]; intros visiting key view Hb Hv Hc.
  { pose proof (Hb 0 (chain_zero key)). lia. }
  simpl. destruct (records catalog !! key) as [record|] eqn:Hrec.
  2: { simpl. split_and!; [done|done|by left|]. intros k [n Hn] Hk. pose proof (known_source _ _ _ Hn Hk) as [? ?]. congruence. }
  destruct (view !! key.1) as [previous|] eqn:Hprev.
  { case_bool_decide as Hd; simpl; [|exists key; split_and!; [apply reaches_refl|by exists record|left; by exists previous]].
    split_and!; [done|done|by left|]. intros k [n Hn]. apply (present_reached _ visiting _ key _ n Hb Hv Hc); [by exists previous|done]. }
  assert (record_Digest record = key.2) as Hdig by (apply keyed in Hrec; by subst).
  pose proof (resolve_edges_spec (resolve catalog budget) ({[key]} ∪ visiting) (references_of key) (<[key.1:=record]> view)) as H.
  destruct (resolve_edges _ _ _) as [after|e]; simpl in *.
  - destruct H as (Hs & Hca & Hf & Hp).
    { intros edge v He Hcv. apply IH; [by eapply bounded_edge|by apply behind_edge|done]. }
    { by apply closed_insert. }
    assert (present after key) as Hpk.
    { exists record. split; [|done]. eapply lookup_weaken; [|exact Hs]. apply lookup_insert_eq. }
    assert (∀ k, reaches key k → known k → present after k) as Hall.
    { intros k Hk%reaches_cases Hkn. destruct Hk as [<-|Hk]; [done|by apply Hp]. }
    split_and!; [|  | |done].
    + etrans; [|exact Hs]. by apply insert_subseteq.
    + intros k edge Hk Hpr Hnv He Hke. destruct (decide (k = key)) as [->|Hkey].
      * apply Hall; [|done]. eapply reaches_on; [done|apply reaches_refl].
      * apply (Hca k); [done|done|set_solver|done..].
    + intros id r H%Hf. destruct H as [H|(k & (edge & He & Hk) & H)].
      * destruct (decide (id = key.1)) as [->|Hid]; [|rewrite lookup_insert_ne in H by done; by left].
        rewrite lookup_insert_eq in H. injection H as <-. right. exists key. split; [apply reaches_refl|done].
      * right. exists k. split; [by eapply reaches_on|done].
  - eapply clash_mono; [| |apply H].
    + intros k (edge & He & Hk). by eapply reaches_on.
    + intros id r Hr. destruct (decide (id = key.1)) as [->|Hid]; [|rewrite lookup_insert_ne in Hr by done; by left].
      rewrite lookup_insert_eq in Hr. injection Hr as <-. right. exists key. split; [apply reaches_refl|done].
    + intros edge v He Hcv. apply IH; [by eapply bounded_edge|by apply behind_edge|done].
    + by apply closed_insert.
Qed.

(** The view is the graph below the root, keyed by ID; there is none when the
    graph holds two records of one ID. *)
Definition one_digest (root : recordKeyV1) : Prop := ∀ k1 k2, reaches root k1 → reaches root k2 → known k1 → known k2 → k1.1 = k2.1 → k1 = k2.

Lemma view_lookup root view : shallow → resolvedViewV1 catalog root = Ok view →
  ∀ id record, view !! id = Some record ↔ ∃ key, reaches root key ∧ key.1 = id ∧ records catalog !! key = Some record.
Proof using keyed.
  intros Hs Hr. pose proof (resolve_spec (S maxCatalogGraphDepthV1) ∅ root ∅) as H.
  fold (resolvedViewV1 catalog root) in H. rewrite Hr in H.
  destruct H as (_ & _ & Hf & Hp); [intros n Hn%shallow_chain; [lia|done]|by intros v ?%elem_of_empty|by intros ? ? ? (? & ?%lookup_empty_Some & _)|].
  intros id record. split.
  - intros H%Hf. destruct H as [H%lookup_empty_Some|H]; done.
  - intros (key & Hk & <- & Hrec). destruct (Hp key Hk) as (r & Hv & Hd); [by exists record|].
    rewrite Hv. destruct (Hf _ _ Hv) as [?%lookup_empty_Some|(k & _ & Hi & Hrk)]; [done|].
    assert (k = key) as ->; [|congruence]. pose proof (keyed _ _ Hrk) as E. rewrite E in Hi |- *. simpl in *. destruct key. simpl in *. congruence.
Qed.
Lemma view_one_digest root : shallow → (∃ view, resolvedViewV1 catalog root = Ok view) ↔ one_digest root.
Proof using keyed.
  intros Hs. pose proof (resolve_spec (S maxCatalogGraphDepthV1) ∅ root ∅) as H. fold (resolvedViewV1 catalog root) in H. split.
  - intros [view Hv]. pose proof (view_lookup root view Hs Hv) as Hl. intros k1 k2 H1 H2 [r1 K1] [r2 K2] Hi.
    assert (view !! k1.1 = Some r1) as E1 by (apply Hl; by exists k1).
    assert (view !! k1.1 = Some r2) as E2 by (apply Hl; by exists k2). rewrite E1 in E2. injection E2 as <-.
    apply keyed in K1, K2. congruence.
  - intros Hone. destruct (resolvedViewV1 catalog root) as [view|e]; [by exists view|]. exfalso.
    destruct H as (key & Hk & Hkn & [(? & ?%lookup_empty_Some & _)|(other & Ho & Hon & Hi & Hd)]); [|by intros v ?%elem_of_empty| |done|].
    + intros n Hn%shallow_chain; [lia|done].
    + by intros ? ? ? (? & ?%lookup_empty_Some & _).
    + apply Hd. by rewrite (Hone other key).
Qed.
End graph.
