(* ===== verification/ToolCatalogProps.v ===== *)
(** * Properties of accepted catalogs

    The catalogs that loading builds, and what their validation guarantees: the
    bound on chains, typed references, the declarative form of the graph checks,
    and the exact view of a release. *)

From S2P Require Import Prelude GoText ToolRecords ToolCatalog ToolCatalogFacts.

Open Scope nat_scope.

(** ** Catalogs that loading builds *)

(** The decoder allocates the value by the schema of the header. *)
Definition decoded (record : loadedRecordV1) : Prop :=
  newPortableToolRecordValueV1 (record_Schema record) = Some (kind_of (record_Value record)).
Inductive built (root : string) : CatalogV1 → Prop :=
| built_empty : built root empty_catalog
| built_place catalog record filename catalog' :
    built root catalog → decoded record → placeRecordV1 catalog record filename root = Ok catalog' → built root catalog'.

Record catalog_kept (catalog : CatalogV1) : Prop := {
  kept_keyed : well_keyed catalog;
  kept_decoded key record : records catalog !! key = Some record → decoded record;
  kept_tools name key : tools catalog !! name = Some key →
    ∃ record, records catalog !! key = Some record ∧ record_Schema record = ToolRecordSchemaV1 ∧ recordToolNameV1 (record_ID record) = Ok name
}.

Lemma place_spec catalog record filename root catalog' : placeRecordV1 catalog record filename root = Ok catalog' →
  ∃ name, recordToolNameV1 (record_ID record) = Ok name ∧ records catalog !! (record_ID record, record_Digest record) = None ∧
    records catalog' = <[(record_ID record, record_Digest record) := record]> (records catalog) ∧
    (record_Schema record = ToolRecordSchemaV1 ∧ tools catalog' = <[name := (record_ID record, record_Digest record)]> (tools catalog) ∨
     record_Schema record ≠ ToolRecordSchemaV1 ∧ tools catalog' = tools catalog).
Proof.
  unfold placeRecordV1.
  intros (relative & _ & (name & Hn%wrap_ok & [_ [Hd (ts & Ht & [= <-])%bind_ok]%reject_if_bind]%reject_if_bind)%bind_ok)%bind_ok.
  exists name. split_and!; [done| |done|].
  - go_bool. by apply eq_None_not_Some.
  - simpl. case_bool_decide as Hs; [left|right; by injection Ht as <-]. by apply reject_if_bind in Ht as [_ [_ [= <-]]%reject_if_bind].
Qed.

Lemma built_kept root catalog : built root catalog → catalog_kept catalog.
Proof.
  induction 1 as [|catalog record filename catalog' _ [Hk Hd Ht] Hrec Hp].
  { split; intros ? ? H; simpl in H; by rewrite lookup_empty in H. }
  destruct (place_spec _ _ _ _ _ Hp) as (name & Hn & Hnone & Hr & Htools).
  split.
  - intros key r. rewrite Hr, lookup_insert_Some. intros [[<- <-]|[_ H]]; [done|by apply Hk].
  - intros key r. rewrite Hr, lookup_insert_Some. intros [[<- <-]|[_ H]]; [done|by eapply Hd].
  - assert (∀ n key, tools catalog !! n = Some key → ∃ r, records catalog' !! key = Some r ∧ record_Schema r = ToolRecordSchemaV1 ∧ recordToolNameV1 (record_ID r) = Ok n) as Hold.
    { intros n key (r & Hrk & ? & ?)%Ht. exists r. split; [|done]. rewrite Hr, lookup_insert_ne; [done|]. intros <-. by pose proof (eq_trans (eq_sym Hnone) Hrk). }
    intros n key. destruct Htools as [[Hs ->]|[_ ->]]; [|by apply Hold]. rewrite lookup_insert_Some. intros [[<- <-]|[_ H]]; [|by apply Hold].
    exists record. rewrite Hr, lookup_insert_eq. done.
Qed.

(** ** A small catalog *)

Definition small_tool : ToolRecordV1 := {|
  tool_Schema := ToolRecordSchemaV1; tool_ID := "tool:go"; tool_Name := "go"; VersionScheme := "semver"; DefaultVersion := "";
  Summary := ""; Upstream := ""; tool_Source := ""; License := ""; Documentation := "";
  Releases := [MakeReference "tool:go/releases/1/manifest" "sha256:1"] |}.
Definition small_manifest : ReleaseManifestV1 := {|
  manifest_Schema := ReleaseManifestSchemaV1; manifest_ID := "tool:go/releases/1/manifest"; Tool := "go"; Version := "1"; Aliases := [];
  Revision := "1"; manifest_Contract := MakeReference "tool:go/releases/1/contract" "sha256:2"; Targets := [];
  ArtifactSources := []; manifest_Provenance := []; manifest_ValidationProfiles := [] |}.
Definition small_contract : ReleaseContractV1 := {|
  contract_Schema := ReleaseContractSchemaV1; contract_ID := "tool:go/releases/1/contract"; Contexts := ["runtime"]; SupportedReploy := "";
  Binding := {| Options := [] |}; Selections := {| Dimensions := []; Combinations := [] |}; Runtime := None; contract_Exports := [];
  ResolverPrimitives := []; CompatibilityConstraints := [] |}.
Definition small_entry (id schema digest : string) (value : RecordV1) : loadedRecordV1 :=
  {| record_ID := id; record_Schema := schema; record_Digest := digest; record_Path := ""; record_Value := value |}.
Definition small_entries : list (loadedRecordV1 * string) :=
  [(small_entry "tool:go" ToolRecordSchemaV1 "sha256:0" (ToolRecord small_tool), "tools/go/tool.json");
   (small_entry "tool:go/releases/1/manifest" ReleaseManifestSchemaV1 "sha256:1" (ReleaseManifest small_manifest), "tools/go/releases/1/manifest.json");
   (small_entry "tool:go/releases/1/contract" ReleaseContractSchemaV1 "sha256:2" (ReleaseContract small_contract), "tools/go/releases/1/contract.json")].
Definition place_all (root : string) (catalog : CatalogV1) (entries : list (loadedRecordV1 * string)) : result CatalogV1 :=
  foldl (λ built '(record, filename), catalog ← built; placeRecordV1 catalog record filename root) (Ok catalog) entries.
Definition small_catalog : CatalogV1 := match place_all "tools" empty_catalog small_entries with Ok catalog => catalog | Err _ => empty_catalog end.

Lemma place_all_err root message entries :
  foldl (λ built '(record, filename), catalog ← built; placeRecordV1 catalog record filename root) (Err message) entries = Err message.
Proof. induction entries as [|[] entries IH]; [done|apply IH]. Qed.
Lemma place_all_built root catalog entries catalog' : built root catalog → Forall (decoded ∘ fst) entries →
  place_all root catalog entries = Ok catalog' → built root catalog'.
Proof.
  revert catalog. induction entries as [|[record filename] entries IH]; intros catalog Hb Hd; [by intros [= <-]|].
  apply Forall_cons in Hd as [Hr Hd]. unfold place_all. simpl.
  destruct (placeRecordV1 catalog record filename root) as [c|e] eqn:Hp; simpl; [|by rewrite place_all_err].
  apply IH; [by eapply built_place|done].
Qed.
Lemma small_built : built "tools" small_catalog.
Proof.
  apply (place_all_built "tools" empty_catalog small_entries); [constructor|by repeat constructor|by vm_compute].
Qed.

(** ** Types *)

Definition kinds_of (schemas : list string) : list record_kind := omap newPortableToolRecordValueV1 schemas.

(** C19: In a catalog that loading built and the graph check accepts, every
    reference of every record resolves to its exact record, and that record's
    value has a type that the reference permits: a type assertion on what a
    reference names cannot fail. *)
Theorem references_typed root catalog key record edge :
  built root catalog → validateCatalogGraphV1 catalog = Ok tt →
  records catalog !! key = Some record → edge ∈ catalogReferencesV1 (record_Value record) →
  ∃ target, exactRecordV1 catalog (edge_Reference edge) = Ok target ∧ kind_of (record_Value target) ∈ kinds_of (edge_Schemas edge).
Proof.
  intros [Hk Hd _]%built_kept ([] & Hc & _)%bind_ok Hr He. rewrite check_records_ok in Hc.
  destruct (Hc record) as (tool & _ & _ & H).
  { apply list_elem_of_omap. exists key. split; [|done]. apply elem_of_sorted_keys. by exists record. }
  destruct (H edge He) as (target & Ht & Hs & _). exists target. split.
  - unfold exactRecordV1. rewrite Ht. apply Hk in Ht. injection Ht as -> ->. by rewrite !bool_decide_true.
  - apply list_elem_of_omap. exists (record_Schema target). split; [done|by eapply Hd].
Qed.

Lemma references_typed_witness :
  ∃ target, exactRecordV1 small_catalog (manifest_Contract small_manifest) = Ok target ∧
    kind_of (record_Value target) ∈ kinds_of [ReleaseContractSchemaV1].
Proof.
  apply (references_typed "tools" small_catalog ("tool:go/releases/1/manifest", "sha256:1")
    (small_entry "tool:go/releases/1/manifest" ReleaseManifestSchemaV1 "sha256:1" (ReleaseManifest small_manifest))
    (Edge (manifest_Contract small_manifest) [ReleaseContractSchemaV1])); [apply small_built|by vm_compute|by vm_compute|left].
Defined.

(** ** The graph *)

(** C26: The search for long chains accepts exactly the catalogs in which no
    chain of references from a record is longer than 64; a cycle is such a
    chain. *)
Theorem verifyReferenceDepthV1_spec catalog :
  verifyReferenceDepthV1 catalog = Ok tt ↔
  ∀ key n last, is_Some (records catalog !! key) → leads catalog n key last → n ≤ maxCatalogGraphDepthV1.
Proof.
  rewrite reference_depth. unfold shallow, chain. split; intros H key n; [intros last Hk Hl|intros Hk [last Hl]]; eapply H; eauto.
Qed.

(** C20: The graph check of a catalog whose chains are bounded accepts exactly
    when every reference is permitted and stays in its tool and release, every
    record is reachable from a tool record, equal contents have equal sizes and
    every artifact has a source. *)
Theorem validateCatalogGraphV1_spec catalog : verifyReferenceDepthV1 catalog = Ok tt →
  validateCatalogGraphV1 catalog = Ok tt ↔
  (∀ key record, records catalog !! key = Some record → well_referenced catalog record) ∧
  (∀ key, is_Some (records catalog !! key) → tool_reaches catalog key) ∧ acquirable catalog.
Proof. intros H%reference_depth. by apply catalog_graph. Qed.

Lemma validateCatalogGraphV1_spec_witness : validateCatalogGraphV1 small_catalog = Ok tt ∧ acquirable small_catalog.
Proof.
  assert (validateCatalogGraphV1 small_catalog = Ok tt) as H by (by vm_compute). split; [exact H|].
  apply (validateCatalogGraphV1_spec small_catalog); [by vm_compute|exact H].
Defined.

(** C21: In a catalog that loading built and whose chains of references are bounded,
    the view of a release exists exactly when what it reaches holds no record at two digests, and then it holds exactly the records the release reaches,
    each under its ID. *)
Theorem resolvedViewV1_spec root catalog key : built root catalog → verifyReferenceDepthV1 catalog = Ok tt →
  ((∃ view, resolvedViewV1 catalog key = Ok view) ↔ one_digest catalog key) ∧
  ∀ view, resolvedViewV1 catalog key = Ok view → ∀ id record,
    view !! id = Some record ↔ ∃ k, reaches catalog key k ∧ k.1 = id ∧ records catalog !! k = Some record.
Proof.
  intros [Hk _ _]%built_kept Hs%reference_depth. split; [by apply view_one_digest|]. intros view Hv. by apply view_lookup.
Qed.
Lemma resolvedViewV1_spec_witness :
  (∃ view, resolvedViewV1 small_catalog ("tool:go/releases/1/manifest", "sha256:1") = Ok view) ∧
  one_digest small_catalog ("tool:go/releases/1/manifest", "sha256:1").
Proof.
  assert (is_ok (resolvedViewV1 small_catalog ("tool:go/releases/1/manifest", "sha256:1")) = true) as H by (by vm_compute).
  apply is_ok_true in H. split; [exact H|].
  apply (resolvedViewV1_spec "tools" small_catalog ("tool:go/releases/1/manifest", "sha256:1") small_built); [by vm_compute|exact H].
Defined.
