(* ===== verification/ToolVersions.v ===== *)
(** * Versions of tools and the releases a request authorizes

    [internal/toolcatalog/candidates.go], the part about versions: the schemes of
    a tool, the constraints of a request, and the enumeration of the releases
    that meet them, newest first.

    The parsers of SemVer and PEP 440 are third-party modules: a [VersionLibrary]
    holds their parsed values and operations, and [VersionSchemes] the two
    modules.  The kind ["integer"] is the repository's own.  [sort.SliceStable] is
    [merge_sort], which is stable too. *)

From Stdlib Require Import Ascii.
From S2P Require Import Prelude GoText ToolRecords ToolCatalog.

Open Scope Z_scope.

(** A module of versions and constraints; a parser answers [None] for an error. *)
Class VersionLibrary := {
  version : Type;
  constraints : Type;
  Parse : string → option version;
  Compare : version → version → Z;
  IsPreRelease : version → bool;
  VersionString : version → string;
  NewConstraints : string → option constraints;
  CheckVersion : constraints → version → bool;
  ConstraintsString : constraints → string
}.
(** PEP 440 has a text of the version without its suffixes. *)
Class VersionSchemes := {
  semver : VersionLibrary;
  pep440 : VersionLibrary;
  BaseVersion : @version pep440 → string
}.

Section schemes.
Context {schemes : VersionSchemes}.

(** ** Comparing versions *)

Definition compare_parsed (library : VersionLibrary) (left right : string) : Z :=
  match Parse left, Parse right with
  | Some l, Some r => Compare l r
  | _, _ => string_compare left right
  end.
Definition compareToolVersionsV1 (scheme left right : string) : Z :=
  if bool_decide (scheme = "semver") then compare_parsed semver left right
  else if bool_decide (scheme = "pep440") then compare_parsed pep440 left right
  else if bool_decide (scheme = "integer") then
    match parse_uint left 63, parse_uint right 63 with
    | Some l, Some r => if l <? r then -1 else if r <? l then 1 else 0
    | _, _ => string_compare left right
    end
  else 0.

Definition isPrereleaseVersionV1 (scheme upstream : string) : result bool :=
  if bool_decide (scheme = "semver") then
    match @Parse semver upstream with Some v => Ok (IsPreRelease v) | None => Err "release version is not valid SemVer" end
  else if bool_decide (scheme = "pep440") then
    match @Parse pep440 upstream with Some v => Ok (IsPreRelease v) | None => Err "release version is not valid PEP 440" end
  else Ok false.

(** ** Integer constraints *)

Record integerConstraintTermV1 := Term { operator : string; bound : Z }.
Definition integer_operators : list string := [">="; "<="; "!="; "=="; ">"; "<"].
Definition parse_term (text : string) : option integerConstraintTermV1 :=
  let term := trim_space text in
  let op := default "" (find_first (has_prefix term) integer_operators) in
  Term op <$> parse_uint (trim_space (trim_prefix term op)) 63.
Definition invalid_integer : string := "version constraint is invalid under the integer scheme".
Fixpoint parse_terms (texts : list string) : result (list integerConstraintTermV1) :=
  match texts with
  | [] => Ok []
  | text :: rest =>
    match parse_term text with
    | Some term => terms ← parse_terms rest; Ok (term :: terms)
    | None => Err invalid_integer
    end
  end.
Definition parseIntegerConstraintV1 (constraint : string) : result (list integerConstraintTermV1) :=
  parse_terms (split_byte constraint ","%char).
Definition term_satisfied (value : Z) (term : integerConstraintTermV1) : bool :=
  let op := operator term in
  if bool_decide (op = ">=") then bound term <=? value
  else if bool_decide (op = "<=") then value <=? bound term
  else if bool_decide (op = ">") then bound term <? value
  else if bool_decide (op = "<") then value <? bound term
  else if bool_decide (op = "!=") then negb (value =? bound term)
  else value =? bound term.
Definition integerConstraintSatisfiedV1 (upstream constraint : string) : result bool :=
  terms ← parseIntegerConstraintV1 constraint;
  match parse_uint upstream 63 with
  | None => Ok false
  | Some value => Ok (forallb (term_satisfied value) terms)
  end.

(** ** Requested versions *)

Record requestedVersionV1 := { Constrained : bool; Expression : string; Token : string; Exact : bool; Equality : bool }.
Definition unconstrained : requestedVersionV1 :=
  {| Constrained := false; Expression := ""; Token := ""; Exact := false; Equality := false |}.

Definition matchesRequestedVersionV1 (upstream : string) (aliases : list string) (requested : string) : bool :=
  bool_decide (upstream = requested) || containsRecordValueV1 aliases requested.

Record releaseEntryV1 := Entry { entry_key : recordKeyV1; entry_manifest : ReleaseManifestV1; entry_revision : Z }.
Definition answers_to (release : releaseEntryV1) (token : string) : bool :=
  matchesRequestedVersionV1 (Version (entry_manifest release)) (Aliases (entry_manifest release)) token.

Definition classifyRequestedVersionV1 (releases : list releaseEntryV1) (constraint : string) : requestedVersionV1 :=
  if bool_decide (constraint = "") then unconstrained
  else
    let equality := has_prefix constraint "==" in
    let token := if equality then trim_space (trim_prefix constraint "==") else constraint in
    {| Constrained := true; Expression := constraint; Token := token;
       Exact := existsb (λ release, answers_to release token) releases; Equality := equality |}.

Definition opaque_comparison (token : string) : bool :=
  has_prefix token ">" || has_prefix token "<" || has_prefix token "!=" || has_prefix token "~=".
Definition no_ordering : string := "version scheme has no ordering, so the constraint cannot be evaluated".
Definition invalid_constraint : string := "version constraint is invalid under its scheme".

Definition validateRequestedVersionConstraintV1 (scheme : string) (requested : requestedVersionV1) : result unit :=
  if negb (Constrained requested) || Exact requested || bool_decide (scheme = "opaque") && Equality requested then Ok tt
  else
    let refuse (valid : bool) (message : string) := reject_if (negb valid && negb (Equality requested)) message in
    if bool_decide (scheme = "semver") then
      refuse (bool_decide (is_Some (@NewConstraints semver (Expression requested)))) invalid_constraint
    else if bool_decide (scheme = "integer") then
      refuse (is_ok (parseIntegerConstraintV1 (Expression requested))) invalid_integer
    else if bool_decide (scheme = "pep440") then
      refuse (bool_decide (is_Some (@NewConstraints pep440 (Expression requested)))) invalid_constraint
    else if bool_decide (scheme = "opaque") then reject_if (opaque_comparison (Token requested)) no_ordering
    else Ok tt.

(** The answer of a module; an equality that it cannot read matches nothing. *)
Definition check_parsed (library : VersionLibrary) (upstream : string) (requested : requestedVersionV1) : result bool :=
  match NewConstraints (Expression requested) with
  | None => if Equality requested then Ok false else Err invalid_constraint
  | Some c => match Parse upstream with Some v => Ok (CheckVersion c v) | None => Ok false end
  end.
Definition releaseSatisfiesConstraintV1 (scheme upstream : string) (aliases : list string) (requested : requestedVersionV1)
    : result bool :=
  if negb (Constrained requested) then prerelease ← isPrereleaseVersionV1 scheme upstream; Ok (negb prerelease)
  else if Exact requested then Ok (matchesRequestedVersionV1 upstream aliases (Token requested))
  else if Equality requested && bool_decide (scheme = "opaque") then Ok false
  else if bool_decide (scheme = "semver") then check_parsed semver upstream requested
  else if bool_decide (scheme = "integer") then
    match integerConstraintSatisfiedV1 upstream (Expression requested) with
    | Ok satisfied => Ok satisfied
    | Err message => if Equality requested then Ok false else Err message
    end
  else if bool_decide (scheme = "pep440") then check_parsed pep440 upstream requested
  else if bool_decide (scheme = "opaque") then
    _ ← reject_if (opaque_comparison (Token requested)) no_ordering;
    Ok (matchesRequestedVersionV1 upstream aliases (Token requested))
  else Err no_ordering.

(** ** The demand of a request *)

Definition normalizedVersionDemandV1 (tool : ToolRecordV1) (constraints : list string) (revision : string)
    : result (list string * string) :=
  if negb (bool_decide (VersionScheme tool = "opaque")) || negb (bool_decide (constraints = [])) then Ok (constraints, revision)
  else
    _ ← reject_if (bool_decide (DefaultVersion tool = "")) "opaque tool declares no default version";
    Ok ([DefaultVersion tool], revision).

Fixpoint compact_after (last : string) (values : list string) : list string :=
  match values with
  | [] => []
  | value :: rest => if bool_decide (value = last) then compact_after last rest else value :: compact_after value rest
  end.
Definition compactStringsV1 (values : list string) : list string :=
  match values with [] => [] | value :: rest => value :: compact_after value rest end.

(** The text before and after the last [separator]. *)
Definition cut_last (value : string) (separator : ascii) : option (string * string) :=
  match cut_byte (reverse value) separator with
  | Some (after, before) => Some (reverse before, reverse after)
  | None => None
  end.

(** A constraint with a compact revision, split; [None] when it has none. *)
Definition split_revision (releases : list releaseEntryV1) (constraint : string) : option (string * string) :=
  match cut_last constraint "~"%char with
  | Some (base, compactRevision) =>
    if bool_decide (base = "") || negb (is_ok (validateCanonicalDecimalV1 compactRevision true))
       || negb (Exact (classifyRequestedVersionV1 releases base)) then None
    else Some (base, compactRevision)
  | None => None
  end.
Fixpoint split_revisions (releases : list releaseEntryV1) (constraints : list string) (revision : string)
    : result (list string * string) :=
  match constraints with
  | [] => Ok ([], revision)
  | constraint :: rest =>
    match split_revision releases constraint with
    | None => answer ← split_revisions releases rest revision; Ok (constraint :: answer.1, answer.2)
    | Some (base, compactRevision) =>
      _ ← reject_if (negb (bool_decide (revision = "")) && negb (bool_decide (revision = compactRevision)))
            "compact definition revision conflicts with structured revision";
      answer ← split_revisions releases rest compactRevision;
      Ok (base :: answer.1, answer.2)
    end
  end.
Definition normalizeCompactRevisionDemandV1 (releases : list releaseEntryV1) (constraints : list string) (revision : string)
    : result (list string * string) :=
  answer ← split_revisions releases constraints revision;
  Ok (compactStringsV1 (merge_sort String.le answer.1), answer.2).

(** ** Enumerating releases *)

Fixpoint release_entries (catalog : CatalogV1) (references : list RecordReferenceV1) : result (list releaseEntryV1) :=
  match references with
  | [] => Ok []
  | reference :: rest =>
    match records catalog !! reference_key reference with
    | None => Err "release is not in the catalog"
    | Some record =>
      match record_Value record with
      | ReleaseManifest manifest =>
        match parse_uint (Revision manifest) 63 with
        | Some revision =>
          entries ← release_entries catalog rest;
          Ok (Entry (reference_key reference) manifest revision :: entries)
        | None => Err "release declares a non-numeric revision"
        end
      | _ => Err "release is not a manifest"
      end
    end
  end.
Definition toolReleasesV1 (catalog : CatalogV1) (tool : ToolRecordV1) : result (list releaseEntryV1) :=
  release_entries catalog (Releases tool).

Fixpoint classify_all (scheme : string) (releases : list releaseEntryV1) (constraints : list string)
    : result (list requestedVersionV1) :=
  match constraints with
  | [] => Ok []
  | constraint :: rest =>
    let classified := classifyRequestedVersionV1 releases constraint in
    _ ← validateRequestedVersionConstraintV1 scheme classified;
    requested ← classify_all scheme releases rest;
    Ok (classified :: requested)
  end.

Definition release_satisfies (scheme : string) (release : releaseEntryV1) (requested : requestedVersionV1) : result bool :=
  releaseSatisfiesConstraintV1 scheme (Version (entry_manifest release)) (Aliases (entry_manifest release)) requested.
Fixpoint satisfies_all (scheme : string) (release : releaseEntryV1) (requested : list requestedVersionV1) : result bool :=
  match requested with
  | [] => Ok true
  | constraint :: rest =>
    satisfies ← release_satisfies scheme release constraint;
    if (satisfies : bool) then satisfies_all scheme release rest else Ok false
  end.
Definition satisfies_demand (scheme : string) (requested : list requestedVersionV1) (release : releaseEntryV1) : result bool :=
  if bool_decide (length requested = 0%nat) then release_satisfies scheme release unconstrained
  else satisfies_all scheme release requested.
Fixpoint intersect_releases (scheme : string) (requested : list requestedVersionV1) (releases : list releaseEntryV1)
    : result (list releaseEntryV1) :=
  match releases with
  | [] => Ok []
  | release :: rest =>
    satisfies ← satisfies_demand scheme requested release;
    others ← intersect_releases scheme requested rest;
    Ok (if satisfies : bool then release :: others else others)
  end.

Definition release_less (scheme : string) (l r : releaseEntryV1) : bool :=
  let precedence :=
    if bool_decide (Version (entry_manifest l) = Version (entry_manifest r)) then 0
    else compareToolVersionsV1 scheme (Version (entry_manifest l)) (Version (entry_manifest r)) in
  if negb (precedence =? 0) then 0 <? precedence else entry_revision r <? entry_revision l.
Definition release_le (scheme : string) (l r : releaseEntryV1) : Prop := release_less scheme r l = false.
#[export] Instance release_le_dec scheme l r : Decision (release_le scheme l r).
Proof. unfold release_le. apply _. Defined.

Definition pinned (revision : string) (release : releaseEntryV1) : bool :=
  bool_decide (revision = "") || bool_decide (Revision (entry_manifest release) = revision).

Definition enumerateReleaseCandidatesV1 (catalog : CatalogV1) (tool : ToolRecordV1) (constraints : list string) (revision : string)
    : result (list recordKeyV1) :=
  releases ← toolReleasesV1 catalog tool;
  demand ← (if bool_decide (VersionScheme tool = "opaque") then Ok (constraints, revision)
            else normalizeCompactRevisionDemandV1 releases constraints revision);
  let '(constraints, revision) := demand in
  requested ← classify_all (VersionScheme tool) releases constraints;
  _ ← reject_if (negb (bool_decide (revision = "")) && negb (existsb Exact requested))
        "definition revision requires an exact upstream version in the constraint group";
  intersection ← intersect_releases (VersionScheme tool) requested releases;
  _ ← reject_if (bool_decide (length intersection = 0%nat)) "version constraint group has an empty intersection under its scheme";
  Ok (map entry_key (merge_sort (release_le (VersionScheme tool)) (List.filter (pinned revision) intersection))).
End schemes.

(** ** A library of dotted numbers, for examples *)

Fixpoint parse_numbers (parts : list string) : option (list Z) :=
  match parts with
  | [] => Some []
  | part :: rest => n ← parse_uint part 63; ns ← parse_numbers rest; Some (n :: ns)
  end.
Fixpoint compare_numbers (left right : list Z) : Z :=
  match left, right with
  | [], [] => 0
  | [], _ => -1
  | _, [] => 1
  | l :: ls, r :: rs => if l <? r then -1 else if r <? l then 1 else compare_numbers ls rs
  end.
Definition dotted : VersionLibrary :=
  {| Parse text := parse_numbers (split_byte text "."%char);
     Compare := compare_numbers;
     IsPreRelease _ := false;
     VersionString numbers := join (map format_uint numbers) ".";
     NewConstraints text := n ← cut_prefix text ">="; parse_numbers (split_byte n "."%char);
     CheckVersion lower numbers := 0 <=? compare_numbers numbers lower;
     ConstraintsString lower := ">=" +:+ join (map format_uint lower) "." |}.
Definition dotted_schemes : VersionSchemes :=
  {| semver := dotted; pep440 := dotted; BaseVersion numbers := join (map format_uint numbers) "." |}.

Example version_example :
  integerConstraintSatisfiedV1 "21" ">= 17, < 22" = Ok true ∧ integerConstraintSatisfiedV1 "21" "!=21" = Ok false ∧
  is_ok (integerConstraintSatisfiedV1 "21" ">20,x") = false ∧
  compareToolVersionsV1 (schemes := dotted_schemes) "semver" "1.10.0" "1.9.2" = 1 ∧
  compareToolVersionsV1 (schemes := dotted_schemes) "opaque" "b" "a" = 0 ∧
  cut_last "3.11~2~5" "~"%char = Some ("3.11~2", "5") ∧ compactStringsV1 ["a"; "a"; "b"] = ["a"; "b"].
Proof. vm_compute. split_and!; done. Qed.
