(* ===== verification/PythonRoots.v ===== *)
(** * Python package roots

    [internal/portabletool/python.go]: the distribution that a requirement names,
    and whether the requirements of one distribution can be met together.

    The release numbers, their order and the bounds of an interval are the same
    code as in [internal/providers/python/version.go], so they are the
    definitions of PythonVersion.v.  PEP 440 is a third-party module, the
    library [pep440] of ToolVersions.v; [fold_rune] is the table of Unicode's
    simple case folding, which [strings.EqualFold] looks up. *)

From Stdlib Require Import Ascii.
From S2P Require Import Prelude GoText ToolRecords ToolCatalog ToolVersions PythonClaim PythonVersion.

Open Scope Z_scope.

(** ** Names of distributions *)

Definition portableToolPythonASCIIAlphaNumericV1 (c : ascii) : bool := is_upper c || is_lower c || is_digit c.
Definition name_char (c : ascii) : bool :=
  portableToolPythonASCIIAlphaNumericV1 c || existsb (λ d, bool_decide (c = d)) ["."; "_"; "-"]%char.

Fixpoint take_while (p : ascii → bool) (l : list ascii) : list ascii :=
  match l with c :: rest => if p c then c :: take_while p rest else [] | [] => [] end.
(** The match of [portableToolPythonRequirementNamePatternV1], or nothing. *)
Definition requirement_name (requirement : string) : string :=
  match bytes requirement with
  | c :: rest =>
    if portableToolPythonASCIIAlphaNumericV1 c then String.string_of_list_ascii (c :: take_while name_char rest) else ""
  | [] => ""
  end.

(** Every character is tested as a byte: a rune that is not ASCII is refused. *)
Definition portableToolPythonValidRequirementIdentifierV1 (value : string) : bool :=
  match bytes value with
  | [] => false
  | first :: rest =>
    portableToolPythonASCIIAlphaNumericV1 first && portableToolPythonASCIIAlphaNumericV1 (List.last rest first)
    && forallb name_char (first :: rest)
  end.

Definition is_separator (c : ascii) : bool := existsb (λ d, bool_decide (c = d)) ["-"; "_"; "."]%char.
(** [[-_.]+] replaced by a dash; [inside] tells that a run has begun. *)
Fixpoint collapse_separators (inside : bool) (value : list ascii) : list ascii :=
  match value with
  | [] => []
  | c :: rest =>
    if is_separator c then (if inside then [] else ["-"%char]) ++ collapse_separators true rest
    else c :: collapse_separators false rest
  end.
Definition portableToolPythonNormalizeDistributionNameV1 (name : string) : string :=
  String.string_of_list_ascii (collapse_separators false (bytes (to_lower (trim_space name)))).
Definition NormalizePythonDistributionNameV1 (name : string) : string := portableToolPythonNormalizeDistributionNameV1 name.

Definition portableToolPythonSplitVersionSpecifierV1 (value : string) : option (string * string) := splitVersionSpecifier value.
Definition portableToolPythonParseReleaseVersionV1 (value : string) : option (list Z) := parseReleaseVersion value.
Definition portableToolPythonCompareReleaseVersionsV1 (left right : list Z) : Z := compareReleaseVersions left right.
Definition portableToolPythonNextPrefixV1 (prefix : list Z) : option (list Z) := nextReleasePrefixV1 prefix.

Definition portableToolPythonMaxPackageRootSpecifiersV1 : nat := 1024.
Fixpoint contains_text (value text : string) : bool :=
  has_prefix value text || match value with EmptyString => false | String _ rest => contains_text rest text end.
Definition specifier_count (remainder : string) : nat := length (split_byte remainder ","%char).

(** ** Whether requirements can be met together *)

Inductive compatibility := Compatible (yes : bool) | Unproven | Incomparable (message : string).

Definition portableToolPythonRequirementIntervalV1 : Type := pythonReleaseIntervalV1.
Definition portableToolPythonConstrainLowerV1 (i : pythonReleaseIntervalV1) (release : list Z) (incl : bool) :=
  pythonIntervalConstrainLowerV1 i release incl.
Definition portableToolPythonConstrainUpperV1 (i : pythonReleaseIntervalV1) (release : list Z) (incl : bool) :=
  pythonIntervalConstrainUpperV1 i release incl.
Definition portableToolPythonConstrainPrefixV1 (i : pythonReleaseIntervalV1) (prefix : list Z) : option pythonReleaseIntervalV1 :=
  upper ← portableToolPythonNextPrefixV1 prefix;
  Some (portableToolPythonConstrainUpperV1 (portableToolPythonConstrainLowerV1 i prefix true) upper false).
Definition portableToolPythonIntervalEmptyV1 (i : pythonReleaseIntervalV1) : bool := pythonIntervalEmptyV1 i.
Definition portableToolPythonIntervalSingletonV1 (i : pythonReleaseIntervalV1) : bool :=
  set (interval_upper i) && inclusive (interval_lower i) && inclusive (interval_upper i)
  && (compareReleaseVersions (PythonVersion.version (interval_lower i)) (PythonVersion.version (interval_upper i)) =? 0).
Definition portableToolPythonVersionInIntervalV1 (release : list Z) (i : pythonReleaseIntervalV1) : bool :=
  let lower := compareReleaseVersions release (PythonVersion.version (interval_lower i)) in
  let upper := compareReleaseVersions release (PythonVersion.version (interval_upper i)) in
  ((0 <? lower) || (lower =? 0) && inclusive (interval_lower i)) && ((upper <? 0) || (upper =? 0) && inclusive (interval_upper i)).

(** The order of the excluded intervals: by lower end, then longest first. *)
Definition excluded_le (l r : pythonReleaseIntervalV1) : Prop :=
  let lower := compareReleaseVersions (PythonVersion.version (interval_lower r)) (PythonVersion.version (interval_lower l)) in
  let upper := compareReleaseVersions (PythonVersion.version (interval_upper r)) (PythonVersion.version (interval_upper l)) in
  (if negb (lower =? 0) then lower <? 0 else 0 <? upper) = false.
#[export] Instance excluded_le_dec l r : Decision (excluded_le l r).
Proof. unfold excluded_le. apply _. Defined.

(** [coveredUntil] is nil before the first interval that matters. *)
Fixpoint covered_loop (allowed : pythonReleaseIntervalV1) (coveredUntil : option (list Z)) (ordered : list pythonReleaseIntervalV1) : bool :=
  match ordered with
  | [] => false
  | current :: rest =>
    let lower := PythonVersion.version (interval_lower current) in
    let upper := PythonVersion.version (interval_upper current) in
    if compareReleaseVersions upper (PythonVersion.version (interval_lower allowed)) <=? 0 then covered_loop allowed coveredUntil rest
    else
      let start := default (PythonVersion.version (interval_lower allowed)) coveredUntil in
      if 0 <? compareReleaseVersions lower start then false
      else
        let until := match coveredUntil with
                     | None => upper
                     | Some until => if 0 <? compareReleaseVersions upper until then upper else until
                     end in
        let comparison := compareReleaseVersions until (PythonVersion.version (interval_upper allowed)) in
        if (0 <? comparison) || (comparison =? 0) && negb (inclusive (interval_upper allowed)) then true
        else covered_loop allowed (Some until) rest
  end.
Definition portableToolPythonIntervalCoveredV1 (allowed : pythonReleaseIntervalV1) (excluded : list pythonReleaseIntervalV1) : bool :=
  if negb (set (interval_upper allowed)) || bool_decide (length excluded = 0%nat) then false
  else covered_loop allowed None (merge_sort excluded_le excluded).

Definition portableToolPythonReleaseVersionTextV1 (release : list Z) : string := join (map format_uint release) ".".

(** The trailing digits of a text and what precedes them. *)
Definition split_serial (value : string) : string * string :=
  let digits := rev (take_while is_digit (rev (bytes value))) in
  (String.string_of_list_ascii (take (length (bytes value) - length digits) (bytes value)), String.string_of_list_ascii digits).
(** [portableToolPythonVersionPhasePatternV1]: the text up to the serial number,
    and the number; the phases contain no digit, so the number is the longest. *)
Definition version_phase (canonical : string) : option (string * string) :=
  let '(phase, serial) := split_serial canonical in
  if negb (bool_decide (serial = "")) && existsb (has_suffix phase) ["a"; "b"; "rc"; ".post"; ".dev"] then Some (phase, serial) else None.

Section library.
Context {schemes : VersionSchemes} (fold_rune : Z → Z).
#[local] Abbreviation proof_version := (@ToolVersions.version pep440).
#[local] Abbreviation specifiers := (@ToolVersions.constraints pep440).

Definition EqualFold (left right : string) : bool :=
  bool_decide (map (fold_rune ∘ rune_value) (runes left) = map (fold_rune ∘ rune_value) (runes right)).

Definition invalid_root : string := "invalid Python package root requirement".
Definition canonical_specifiers (remainder : string) : bool :=
  match @NewConstraints pep440 remainder with Some c => bool_decide (ConstraintsString c = remainder) | None => false end.
Definition PythonPackageRootDistributionNameV1 (requirement : string) : result string :=
  let requirement := trim_space requirement in
  _ ← reject_if (bool_decide (requirement = "") || negb (valid_utf8 requirement)) "Python package requirement must be nonempty valid UTF-8";
  _ ← reject_if (has_prefix requirement "-") "Python package requirement must not be a package-manager option";
  _ ← reject_if (existsb (is_control ∘ rune_value) (runes requirement)) "Python package requirement must not contain control characters";
  _ ← reject_if (existsb (is_space ∘ rune_value) (runes requirement)) "Python package root requirement must not contain whitespace";
  let name := requirement_name requirement in
  _ ← reject_if (negb (portableToolPythonValidRequirementIdentifierV1 name)) invalid_root;
  let remainder := trim_prefix requirement name in
  _ ← reject_if (has_prefix remainder "[") "Python package root requirement must not request extras";
  _ ← (if bool_decide (remainder = "") then Ok tt
       else
         _ ← reject_if (portableToolPythonMaxPackageRootSpecifiersV1 <? specifier_count remainder)%nat "too many version specifiers";
         _ ← reject_if (contains_text remainder "||") invalid_root;
         _ ← reject_if (negb (canonical_specifiers remainder)) invalid_root;
         reject_if (negb (forallb (λ raw, bool_decide (is_Some (portableToolPythonSplitVersionSpecifierV1 raw)))
                            (split_byte remainder ","%char))) invalid_root);
  Ok (portableToolPythonNormalizeDistributionNameV1 name).

Fixpoint check_distributions (requirements : list string) (seen : gset string) : result unit :=
  match requirements with
  | [] => Ok tt
  | requirement :: rest =>
    distribution ← PythonPackageRootDistributionNameV1 requirement;
    _ ← reject_if (bool_decide (distribution ∈ seen)) "Python package root requirements name the same distribution";
    check_distributions rest ({[distribution]} ∪ seen)
  end.
Definition ValidatePythonPackageRootRequirementsV1 (requirements : list string) : result unit :=
  _ ← reject_if (1024 <? length requirements)%nat "Python package root requirements must use at most 1024 entries";
  check_distributions requirements ∅.

(** The first loop: the requirements without repetitions. *)
Fixpoint unique_roots (requirements : list string) (distribution : string) (total : nat) (seen : gset string)
    : compatibility + list string :=
  match requirements with
  | [] => inr []
  | requirement :: rest =>
    if bool_decide (requirement ∈ seen) then unique_roots rest distribution total seen
    else
      let trimmed := trim_space requirement in
      let remainder := trim_prefix trimmed (requirement_name trimmed) in
      let count := if bool_decide (remainder = "") then 0%nat else specifier_count remainder in
      if (portableToolPythonMaxPackageRootSpecifiersV1 - total <? count)%nat then inl Unproven
      else match PythonPackageRootDistributionNameV1 requirement with
           | Err message => inl (Incomparable message)
           | Ok current =>
             if negb (bool_decide (distribution = "")) && negb (bool_decide (current = distribution))
             then inl (Incomparable "Python package root requirements name different distributions")
             else match unique_roots rest (if bool_decide (distribution = "") then current else distribution)
                          (total + count) ({[requirement]} ∪ seen) with
                  | inr others => inr (requirement :: others)
                  | failure => failure
                  end
           end
  end.

(** ** The second loop: what the specifiers require *)

Record rootConstraintsV1 := RootConstraints {
  rc_interval : pythonReleaseIntervalV1;
  rc_excludedExact : list (list Z);
  rc_excludedPrefixes : list pythonReleaseIntervalV1;
  parsedRequirements : list specifiers;
  parsedNonArbitrarySpecifiers : list specifiers;
  proofCandidates : list proof_version;
  arbitraryCandidate : option string;
  arbitraryCandidateConflict : bool;
  hasNonArbitrarySpecifier : bool;
  exactCandidate : string;
  exactCandidatePriority : Z;
  unrepresentedConstraint : bool
}.
Definition set_interval s x := RootConstraints x (rc_excludedExact s) (rc_excludedPrefixes s) (parsedRequirements s)
  (parsedNonArbitrarySpecifiers s) (proofCandidates s) (arbitraryCandidate s) (arbitraryCandidateConflict s)
  (hasNonArbitrarySpecifier s) (exactCandidate s) (exactCandidatePriority s) (unrepresentedConstraint s).
Definition add_excluded_exact s x := RootConstraints (rc_interval s) (rc_excludedExact s ++ [x]) (rc_excludedPrefixes s)
  (parsedRequirements s) (parsedNonArbitrarySpecifiers s) (proofCandidates s) (arbitraryCandidate s) (arbitraryCandidateConflict s)
  (hasNonArbitrarySpecifier s) (exactCandidate s) (exactCandidatePriority s) (unrepresentedConstraint s).
Definition add_excluded_prefix s x := RootConstraints (rc_interval s) (rc_excludedExact s) (rc_excludedPrefixes s ++ [x])
  (parsedRequirements s) (parsedNonArbitrarySpecifiers s) (proofCandidates s) (arbitraryCandidate s) (arbitraryCandidateConflict s)
  (hasNonArbitrarySpecifier s) (exactCandidate s) (exactCandidatePriority s) (unrepresentedConstraint s).
Definition add_requirement s x := RootConstraints (rc_interval s) (rc_excludedExact s) (rc_excludedPrefixes s)
  (parsedRequirements s ++ [x]) (parsedNonArbitrarySpecifiers s) (proofCandidates s) (arbitraryCandidate s) (arbitraryCandidateConflict s)
  (hasNonArbitrarySpecifier s) (exactCandidate s) (exactCandidatePriority s) (unrepresentedConstraint s).
Definition add_specifier s x := RootConstraints (rc_interval s) (rc_excludedExact s) (rc_excludedPrefixes s)
  (parsedRequirements s) (parsedNonArbitrarySpecifiers s ++ [x]) (proofCandidates s) (arbitraryCandidate s) (arbitraryCandidateConflict s)
  true (exactCandidate s) (exactCandidatePriority s) (unrepresentedConstraint s).
Definition add_candidates s xs := RootConstraints (rc_interval s) (rc_excludedExact s) (rc_excludedPrefixes s)
  (parsedRequirements s) (parsedNonArbitrarySpecifiers s) (proofCandidates s ++ xs) (arbitraryCandidate s) (arbitraryCandidateConflict s)
  (hasNonArbitrarySpecifier s) (exactCandidate s) (exactCandidatePriority s) (unrepresentedConstraint s).
Definition set_arbitrary s x conflict := RootConstraints (rc_interval s) (rc_excludedExact s) (rc_excludedPrefixes s)
  (parsedRequirements s) (parsedNonArbitrarySpecifiers s) (proofCandidates s) (Some x) conflict
  (hasNonArbitrarySpecifier s) (exactCandidate s) (exactCandidatePriority s) (unrepresentedConstraint s).
Definition set_exact s x priority := RootConstraints (rc_interval s) (rc_excludedExact s) (rc_excludedPrefixes s)
  (parsedRequirements s) (parsedNonArbitrarySpecifiers s) (proofCandidates s) (arbitraryCandidate s) (arbitraryCandidateConflict s)
  (hasNonArbitrarySpecifier s) x priority (unrepresentedConstraint s).
Definition set_unrepresented s := RootConstraints (rc_interval s) (rc_excludedExact s) (rc_excludedPrefixes s)
  (parsedRequirements s) (parsedNonArbitrarySpecifiers s) (proofCandidates s) (arbitraryCandidate s) (arbitraryCandidateConflict s)
  (hasNonArbitrarySpecifier s) (exactCandidate s) (exactCandidatePriority s) true.

Definition zero_interval : pythonReleaseIntervalV1 := Interval (Bound [0] true true) unset_bound.
(** [pep440.MustParse] of ["0"] panics when it fails; PEP 440 reads it. *)
Definition initial_constraints : rootConstraintsV1 :=
  RootConstraints zero_interval [] [] [] [] (option_list (@Parse pep440 "0")) None false false "" (-1) false.

Definition portableToolPythonParseProofCandidatesV1 (values : list string) : list proof_version := omap (@Parse pep440) values.
Definition portableToolPythonProofSuccessorsV1 (candidate : proof_version) : list proof_version :=
  let nextRelease := portableToolPythonParseProofCandidatesV1 [BaseVersion candidate +:+ ".1.dev0"; BaseVersion candidate +:+ ".1"] in
  match version_phase (VersionString candidate) with
  | None => nextRelease
  | Some (phase, serial) =>
    match parse_uint serial 64 with
    | None => nextRelease
    | Some serial =>
      if serial =? 2 ^ 64 - 1 then nextRelease
      else
        let successor := phase +:+ format_uint (serial + 1) in
        if has_suffix phase ".dev" then portableToolPythonParseProofCandidatesV1 [successor] ++ nextRelease
        else portableToolPythonParseProofCandidatesV1 [successor +:+ ".dev0"; successor] ++ nextRelease
    end
  end.

(** What a representable specifier adds to the interval and the exclusions. *)
Definition constrain (s : rootConstraintsV1) (op : string) (wildcard : bool) (expected : list Z) : rootConstraintsV1 :=
  let prefix i p := portableToolPythonConstrainPrefixV1 i p in
  if bool_decide (op = "==") then
    if wildcard then match prefix (rc_interval s) expected with Some i => set_interval s i | None => set_unrepresented s end
    else set_interval s (portableToolPythonConstrainUpperV1 (portableToolPythonConstrainLowerV1 (rc_interval s) expected true) expected true)
  else if bool_decide (op = "!=") then
    if wildcard then
      match portableToolPythonNextPrefixV1 expected with
      | Some upper => add_excluded_prefix s (Interval (Bound expected true true) (Bound upper false true))
      | None => set_unrepresented s
      end
    else add_excluded_exact s expected
  else if bool_decide (op = ">=") then set_interval s (portableToolPythonConstrainLowerV1 (rc_interval s) expected true)
  else if bool_decide (op = ">") then set_interval s (portableToolPythonConstrainLowerV1 (rc_interval s) expected false)
  else if bool_decide (op = "<=") then set_interval s (portableToolPythonConstrainUpperV1 (rc_interval s) expected true)
  else if bool_decide (op = "<") then set_interval s (portableToolPythonConstrainUpperV1 (rc_interval s) expected false)
  else if bool_decide (op = "~=") then
    if (length expected <? 2)%nat then set_unrepresented s
    else
      let raised := portableToolPythonConstrainLowerV1 (rc_interval s) expected true in
      match prefix raised (removelast expected) with
      | Some i => set_interval s i
      | None => set_unrepresented (set_interval s raised)
      end
  else s.

(** A specifier without a local version, [===] apart. *)
Definition constrain_public (s : rootConstraintsV1) (op expectedText : string) : rootConstraintsV1 :=
  let wildcard := has_suffix expectedText ".*" in
  let text := if wildcard then trim_suffix expectedText ".*" else expectedText in
  let s := match (if wildcard then None else @Parse pep440 expectedText) with
           | Some candidate => add_candidates s (candidate :: portableToolPythonProofSuccessorsV1 candidate)
           | None => s
           end in
  match portableToolPythonParseReleaseVersionV1 text with
  | None => set_unrepresented s
  | Some expected =>
    let s := match (if wildcard then portableToolPythonNextPrefixV1 expected else None) with
             | Some successor =>
               let text := portableToolPythonReleaseVersionTextV1 successor in
               add_candidates s (portableToolPythonParseProofCandidatesV1 [text +:+ ".dev0"; text])
             | None => s
             end in
    constrain s op wildcard expected
  end.

Definition note_exact (s : rootConstraintsV1) (op expectedText : string) : rootConstraintsV1 :=
  if bool_decide (op = "==") && negb (has_suffix expectedText ".*") then
    let priority := if contains_byte expectedText "+"%char then 1 else 0 in
    if exactCandidatePriority s <? priority then set_exact s expectedText priority else s
  else s.

Definition add_raw (s : rootConstraintsV1) (raw : string) : result rootConstraintsV1 :=
  if bool_decide (raw = "") then Ok s
  else match portableToolPythonSplitVersionSpecifierV1 raw with
       | None => Err invalid_root
       | Some (op, expectedText) =>
         if bool_decide (op = "===") then
           Ok (match arbitraryCandidate s with
               | None => set_arbitrary s expectedText (arbitraryCandidateConflict s)
               | Some candidate => set_arbitrary s candidate (arbitraryCandidateConflict s || negb (EqualFold candidate expectedText))
               end)
         else match @NewConstraints pep440 raw with
              | None => Err invalid_root
              | Some parsed =>
                let s := note_exact (add_specifier s parsed) op expectedText in
                Ok (if contains_byte expectedText "+"%char then s else constrain_public s op expectedText)
              end
       end.
Fixpoint add_raws (s : rootConstraintsV1) (raws : list string) : result rootConstraintsV1 :=
  match raws with [] => Ok s | raw :: rest => s ← add_raw s raw; add_raws s rest end.
Fixpoint add_roots (s : rootConstraintsV1) (requirements : list string) : result rootConstraintsV1 :=
  match requirements with
  | [] => Ok s
  | requirement :: rest =>
    let remainder := trim_prefix requirement (requirement_name requirement) in
    s ← (if bool_decide (remainder = "") then Ok s
         else match @NewConstraints pep440 remainder with Some parsed => Ok (add_requirement s parsed) | None => Err invalid_root end);
    s ← add_raws s (split_byte remainder ","%char);
    add_roots s rest
  end.

(** ** The decision *)

Definition meets_all (constraints : list specifiers) (candidate : proof_version) : bool :=
  forallb (λ c, CheckVersion c candidate) constraints.
(** The last part: nothing but releases, intervals and exclusions. *)
Definition decide_interval (i : pythonReleaseIntervalV1) (excludedExact : list (list Z)) (excludedPrefixes : list pythonReleaseIntervalV1) : bool :=
  if portableToolPythonIntervalSingletonV1 i then
    let only := PythonVersion.version (interval_lower i) in
    negb (existsb (λ excluded, compareReleaseVersions only excluded =? 0) excludedExact)
    && negb (existsb (portableToolPythonVersionInIntervalV1 only) excludedPrefixes)
  else negb (portableToolPythonIntervalCoveredV1 i excludedPrefixes).
Definition decide_roots (s : rootConstraintsV1) : compatibility :=
  match arbitraryCandidate s with
  | Some arbitrary =>
    if arbitraryCandidateConflict s then Compatible false
    else if negb (hasNonArbitrarySpecifier s) then Compatible true
    else match @Parse pep440 arbitrary with
         | None => Compatible false
         | Some candidate => Compatible (meets_all (parsedNonArbitrarySpecifiers s) candidate)
         end
  | None =>
    if 0 <=? exactCandidatePriority s then
      match @Parse pep440 (exactCandidate s) with
      | None => Incomparable "invalid exact Python package version"
      | Some candidate => Compatible (meets_all (parsedRequirements s) candidate)
      end
    else if portableToolPythonIntervalEmptyV1 (rc_interval s) then Compatible false
    else if unrepresentedConstraint s then
      if existsb (meets_all (parsedRequirements s)) (proofCandidates s) then Compatible true else Unproven
    else Compatible (decide_interval (rc_interval s) (rc_excludedExact s) (rc_excludedPrefixes s))
  end.
Definition PythonPackageRootRequirementsCompatibleV1 (requirements : list string) : compatibility :=
  match unique_roots requirements "" 0 ∅ with
  | inl failure => failure
  | inr [] => Compatible true
  | inr unique =>
    match add_roots initial_constraints unique with
    | Err message => Incomparable message
    | Ok s => decide_roots s
    end
  end.
End library.
