(* ===== verification/PythonRootsFacts.v ===== *)
(** * When package roots can be met together

    The interval and the exclusions that the specifiers leave stand for the
    releases that all of them admit, and the decision finds one when there is
    one: releases are dense, and the excluded prefixes are half-open intervals
    that the code sweeps in the order of their lower ends. *)

From Stdlib Require Import Ascii.
From S2P Require Import Prelude GoText ToolRecords ToolCatalog ToolVersions PythonClaim PythonVersion PythonReleaseOrder PythonVersionFacts PythonSeriesFacts PythonRoots.

Open Scope Z_scope.

(** ** Density *)

Lemma comp_app_l a b i : (i < length a)%nat → comp (a ++ b) i = comp a i.
Proof. intros Hi. unfold comp. by rewrite lookup_app_l. Qed.
Lemma comp_pad a k i : comp (a ++ replicate k 0) i = comp a i.
Proof.
  destruct (decide (i < length a)%nat) as [Hi|Hi]; [by apply comp_app_l|]. rewrite (comp_beyond a) by lia.
  unfold comp. rewrite lookup_app_r by lia. destruct (replicate k 0 !! _) as [x|] eqn:Hx; [|done].
  by apply lookup_replicate_1 in Hx as [-> _].
Qed.
Lemma comp_next a k i : (i < length a + k)%nat → comp (a ++ replicate k 0 ++ [1]) i = comp a i.
Proof.
  intros Hi. rewrite app_assoc, comp_app_l; [apply comp_pad|]. rewrite length_app, length_replicate. lia.
Qed.
Lemma comp_last a k : comp (a ++ replicate k 0 ++ [1]) (length a + k) = 1.
Proof. unfold comp. rewrite app_assoc, list_lookup_middle by (rewrite length_app, length_replicate; lia). done. Qed.
Lemma release_next a k : release_lt a (a ++ replicate k 0 ++ [1]).
Proof.
  exists (length a + k)%nat. split; [intros j Hj; by rewrite comp_next by lia|]. rewrite comp_last, comp_beyond; lia.
Qed.
Lemma natural_next a k : natural a → natural (a ++ replicate k 0 ++ [1]).
Proof.
  intros Ha i. destruct (decide (i < length a + k)%nat) as [Hi|Hi]; [rewrite comp_next by done; apply Ha|].
  unfold comp. rewrite app_assoc, lookup_app_r by (rewrite length_app, length_replicate; lia).
  destruct (i - _)%nat as [|[]]; simpl; lia.
Qed.
Lemma release_dense a b : natural a → release_lt a b → ∃ c, natural c ∧ release_lt a c ∧ release_lt c b.
Proof.
  intros Ha (i & Hlo & Hi). exists (a ++ replicate (S i) 0 ++ [1]). split_and!; [by apply natural_next|apply release_next|].
  exists i. split; [intros j ?|]; rewrite comp_next by lia; [by apply Hlo|done].
Qed.

(** ** Intervals *)

Definition low (i : pythonReleaseIntervalV1) : list Z := version (interval_lower i).
Definition high (i : pythonReleaseIntervalV1) : list Z := version (interval_upper i).
(** The interval of a prefix: from the prefix to its successor. *)
Definition half_open (i : pythonReleaseIntervalV1) : Prop :=
  interval_lower i = Bound (low i) true true ∧ interval_upper i = Bound (high i) false true ∧ release_lt (low i) (high i) ∧ natural (high i).
Definition started (i : pythonReleaseIntervalV1) : Prop := set (interval_lower i) = true ∧ natural (low i).

Lemma in_half_open i a : half_open i → in_interval i a = true ↔ ¬ release_lt a (low i) ∧ release_lt a (high i).
Proof.
  intros (Hl & Hh & _). unfold in_interval, above, below. rewrite Hl, Hh. simpl.
  rewrite andb_true_iff, !negb_true_iff. all_comparisons; simpl; split; intros; try (destruct_and!; done); split_and!; try done; try release_order;
    exfalso; destruct_and?; release_order.
Qed.
Lemma in_interval_lookup i a : half_open i → portableToolPythonVersionInIntervalV1 a i = in_interval i a.
Proof.
  intros (Hl & Hh & _). unfold portableToolPythonVersionInIntervalV1, in_interval, above, below. rewrite Hl, Hh. simpl.
  all_comparisons; done.
Qed.

(** A nonempty interval has releases as near to its lower end as one likes. *)
Lemma nonempty_near i b : started i → pythonIntervalEmptyV1 i = false → release_lt (low i) b →
  ∃ a, natural a ∧ in_interval i a = true ∧ release_lt a b.
Proof.
  intros [Hs Hn] He Hb. destruct i as [[l li ls] [u ui us]]. unfold low in *. simpl in *. subst ls.
  unfold pythonIntervalEmptyV1, in_interval, above, below in *. simpl in *. destruct us; simpl in *.
  2: { destruct (release_dense l b Hn Hb) as (c & Hc & Hlc & Hcb). exists c. split_and!; [done| |done]. compare_releases c l; simpl; try done; exfalso; release_order. }
  compare_releases l u; simpl in *; [| |done].
  - destruct (ReleaseOrder.lt_total b u) as [Hbu|Hbu].
    + destruct (release_dense l b Hn Hb) as (c & Hc & Hlc & Hcb). exists c. split_and!; [done| |done].
      all_comparisons; simpl; try done; exfalso; unfold ReleaseOrder.lt, ReleaseOrder.eq in *; release_order.
    + destruct (release_dense l u Hn Hcmp) as (c & Hc & Hlc & Hcu). exists c. split_and!; [done| |].
      * all_comparisons; simpl; try done; exfalso; release_order.
      * unfold ReleaseOrder.lt, ReleaseOrder.eq in *. destruct Hbu; release_order.
  - apply orb_false_iff in He as [Hli Hui]. apply negb_false_iff in Hli, Hui. subst. exists l. split_and!; [done| |done].
    all_comparisons; simpl; try done; exfalso; release_order.
Qed.

(** ** The sweep over the excluded prefixes *)

Lemma excluded_le_low l r : excluded_le l r → ¬ release_lt (low r) (low l).
Proof. unfold excluded_le, low. compare_releases (version (interval_lower r)) (version (interval_lower l)); simpl; [done|..]; intros; release_order. Qed.
#[export] Instance excluded_le_total : Total excluded_le.
Proof.
  intros l r. unfold excluded_le.
  all_comparisons; simpl; first [by left|by right|exfalso; release_order].
Qed.
#[export] Instance excluded_le_trans : Transitive excluded_le.
Proof.
  intros x y z. unfold excluded_le.
  compare_releases (version (interval_lower y)) (version (interval_lower x)); simpl; try done;
  compare_releases (version (interval_lower z)) (version (interval_lower y)); simpl; try done;
  all_comparisons; simpl; first [done|intros; exfalso; release_order].
Qed.

Section sweep.
Context (allowed : pythonReleaseIntervalV1).
Hypothesis Hstarted : started allowed.
Hypothesis Hset : set (interval_upper allowed) = true.

Lemma allowed_above a : in_interval allowed a = true → ¬ release_lt a (low allowed).
Proof using Hstarted.
  destruct Hstarted as [Hs _]. unfold in_interval, above, low. rewrite Hs. simpl. intros [H _]%andb_true_iff Hlt.
  all_comparisons; simpl in *; try done; release_order.
Qed.
Lemma allowed_here a : release_lt (low allowed) a → ¬ release_lt (high allowed) a →
  (release_eq a (high allowed) → inclusive (interval_upper allowed) = true) → in_interval allowed a = true.
Proof using Hset.
  unfold in_interval, above, below, low, high. rewrite Hset. simpl. intros Hl Hh Hi.
  rewrite andb_true_iff, !negb_true_iff. split; all_comparisons; simpl; try done; try (by exfalso; release_order).
  - by rewrite andb_false_r.
  - by rewrite Hi.
Qed.
Lemma allowed_below a reach : in_interval allowed a = true → release_lt (high allowed) reach ∨
  release_eq reach (high allowed) ∧ inclusive (interval_upper allowed) = false → release_lt a reach.
Proof using Hset.
  unfold in_interval, below, high. rewrite Hset. simpl. intros [_ H]%andb_true_iff Hu.
  all_comparisons; simpl in *; try done; destruct Hu as [?|[? Hi]]; try release_order. by rewrite Hi in H.
Qed.

(** Every release from [start] on is excluded, or one is not. *)
Definition swept (start : list Z) (excluded : list pythonReleaseIntervalV1) (answer : bool) : Prop :=
  if answer then ∀ a, natural a → in_interval allowed a = true → ¬ release_lt a start → ∃ e, e ∈ excluded ∧ in_interval e a = true
  else ∃ a, natural a ∧ in_interval allowed a = true ∧ ¬ release_lt a start ∧ ∀ e, e ∈ excluded → in_interval e a = false.

Lemma swept_permutation start l l' answer : l ≡ₚ l' → swept start l answer → swept start l' answer.
Proof using Type. intros Hl. unfold swept. destruct answer; by setoid_rewrite Hl. Qed.

Lemma covered_loop_spec reach ordered : Forall half_open ordered → StronglySorted excluded_le ordered →
  let start := default (low allowed) reach in
  ¬ release_lt start (low allowed) → natural start →
  (∀ b, release_lt start b → ∃ a, natural a ∧ in_interval allowed a = true ∧ ¬ release_lt a start ∧ release_lt a b) →
  swept start ordered (covered_loop allowed reach ordered).
Proof using Hstarted Hset.
  intros Hf Hs. revert reach. induction ordered as [|current rest IH]; intros reach start Hstart Hnat Hnear; simpl.
  { destruct (Hnear _ (release_next start 0)) as (a & Hn & Ha & Hge & _). exists a. split_and!; [done..|]. by intros e ?%elem_of_nil. }
  apply Forall_cons in Hf as [Hc Hf]. apply StronglySorted_cons in Hs as [Hall Hs].
  fold (low allowed) (high allowed) (low current) (high current). fold start. specialize (IH Hf Hs).
  assert (∀ e a, e ∈ current :: rest → (release_lt a (low current) ∨ e = current ∧ ¬ release_lt a (high current)) → in_interval e a = false) as Hout.
  { intros e a He Hlt. apply not_true_iff_false. intros Hea.
    assert (¬ release_lt (low e) (low current) ∧ half_open e) as [Hlow Hh].
    { apply elem_of_cons in He as [->|He]; [split; [release_order|done]|]. rewrite Forall_forall in Hall, Hf. split; [by apply excluded_le_low, Hall|by apply Hf]. }
    apply (in_half_open _ _ Hh) in Hea as [? ?]. destruct Hlt as [?|[-> ?]]; release_order. }
  destruct (Z.leb_spec (compareReleaseVersions (high current) (low allowed)) 0) as [Hle|Hgt].
  { assert (¬ release_lt (low allowed) (high current)) as Hskip by (all_comparisons; first [lia|release_order]).
    specialize (IH reach Hstart Hnat Hnear). fold start in IH. unfold swept in *. destruct (covered_loop _ _ _).
    - intros a Hn Ha Hge. destruct (IH a Hn Ha Hge) as (e & He & Hea). exists e. split; [by right|done].
    - destruct IH as (a & Hn & Ha & Hge & H). exists a. split_and!; [done..|]. intros e [->|He]%elem_of_cons; [|by apply H].
      apply Hout; [left|]. right. split; [done|]. pose proof (allowed_above a Ha). release_order. }
  assert (release_lt (low allowed) (high current)) as Hpast by (all_comparisons; first [lia|release_order]).
  destruct (Z.ltb_spec 0 (compareReleaseVersions (low current) start)) as [Hgap|Hno].
  { assert (release_lt start (low current)) as Hlt by (all_comparisons; first [lia|release_order]).
    destruct (Hnear _ Hlt) as (a & Hn & Ha & Hge & Hb). exists a. split_and!; [done..|]. intros e He. apply Hout; [done|by left]. }
  assert (¬ release_lt start (low current)) as Hreach by (all_comparisons; first [lia|release_order]). clear Hno Hgt.
  set (next := match reach with None => high current | Some u => if 0 <? compareReleaseVersions (high current) u then high current else u end).
  assert (¬ release_lt next (high current) ∧ (release_eq next (high current) ∨ next = start) ∧ ¬ release_lt next start ∧ natural next) as
    (Hn1 & Hn2 & Hn3 & Hn4).
  { destruct Hc as (_ & _ & _ & Hnath). destruct reach as [u|]; unfold next, start in *; simpl in *.
    - destruct (Z.ltb_spec 0 (compareReleaseVersions (high current) u)) as [Hu|Hu].
      + split_and!; [release_order|by left|all_comparisons; first [lia|release_order]|done].
      + split_and!; [all_comparisons; first [lia|release_order]|by right|release_order|done].
    - split_and!; [release_order|by left|release_order|done]. }
  assert (∀ a, ¬ release_lt a start → release_lt a next → in_interval current a = true) as Hin.
  { intros a Hge Hlt. apply (in_half_open _ _ Hc). destruct Hn2 as [Heq| ->]; [|done]. split; release_order. }
  destruct (_ || _) eqn:Hdone.
  - intros a Hn Ha Hge. exists current. split; [left|]. apply Hin; [done|]. apply (allowed_below a next Ha).
    fold (high allowed) in Hdone. compare_releases next (high allowed); simpl in Hdone; [done|right|by left].
    split; [done|]. by apply negb_true_iff in Hdone.
  - assert (swept next rest (covered_loop allowed (Some next) rest)) as Hnext.
    { apply (IH (Some next)); simpl; [release_order|done|]. intros b Hb. exists next. split_and!; [done| |release_order|done].
      fold (high allowed) in Hdone. apply allowed_here; [release_order| |].
      * compare_releases next (high allowed); simpl in Hdone; [release_order..|done].
      * intros Heq. compare_releases next (high allowed); simpl in Hdone; [exfalso; release_order| |done]. by apply negb_false_iff in Hdone. }
    unfold swept in *. destruct (covered_loop _ _ _).
    + intros a Hn Ha Hge. destruct (compare_cases a next) as [[_ Hlt]|Hge']; [exists current; split; [left|by apply Hin]|].
      destruct (Hnext a Hn Ha) as (e & He & Hea); [destruct Hge' as [[_ ?]|[_ ?]]; release_order|]. exists e. split; [by right|done].
    + destruct Hnext as (a & Hn & Ha & Hge & H). exists a. split_and!; [done|done|release_order|].
      intros e [->|He]%elem_of_cons; [|by apply H]. apply Hout; [left|]. right. split; [done|release_order].
Qed.

Lemma interval_covered excluded : pythonIntervalEmptyV1 allowed = false → Forall half_open excluded →
  swept (low allowed) excluded (portableToolPythonIntervalCoveredV1 allowed excluded).
Proof using Hstarted Hset.
  intros He Hf. unfold portableToolPythonIntervalCoveredV1. rewrite Hset. cbn [negb orb].
  assert (∀ b, release_lt (low allowed) b → ∃ a, natural a ∧ in_interval allowed a = true ∧ ¬ release_lt a (low allowed) ∧ release_lt a b) as Hnear.
  { intros b Hb. destruct (nonempty_near allowed b Hstarted He Hb) as (a & Hn & Ha & Hab). exists a. split_and!; [done..|by apply allowed_above|done]. }
  case_bool_decide as Hlen.
  - apply nil_length_inv in Hlen as ->. destruct (Hnear _ (release_next (low allowed) 0)) as (a & Hn & Ha & Hge & _).
    exists a. split_and!; [done..|]. by intros e ?%elem_of_nil.
  - apply (swept_permutation _ (merge_sort excluded_le excluded)); [apply merge_sort_Permutation|].
    apply (covered_loop_spec None); [by rewrite merge_sort_Permutation|apply (StronglySorted_merge_sort excluded_le)|cbn; release_order|apply Hstarted|done].
Qed.
End sweep.

(** ** What specifiers require of a release *)

(** A specifier on its own. *)
Definition admits (op : string) (wildcard : bool) (expected a : list Z) : bool :=
  let c := compareReleaseVersions a expected in
  if bool_decide (op = "==") then (if wildcard then releaseHasPrefix a expected else c =? 0)
  else if bool_decide (op = "!=") then (if wildcard then negb (releaseHasPrefix a expected) else negb (c =? 0))
  else if bool_decide (op = ">=") then 0 <=? c
  else if bool_decide (op = ">") then 0 <? c
  else if bool_decide (op = "<=") then c <=? 0
  else if bool_decide (op = "<") then c <? 0
  else if bool_decide (op = "~=") then (0 <=? c) && releaseHasPrefix a (removelast expected)
  else true.

Definition exact_exclusion (op : string) (wildcard : bool) : bool := bool_decide (op = "!=") && negb wildcard.

Lemma in_lower i v incl a : in_interval (portableToolPythonConstrainLowerV1 i v incl) a = in_interval i a && above (Bound v incl true) a.
Proof. unfold in_interval. simpl. rewrite above_raise. by destruct (above _ _), (above _ _), (below _ _). Qed.
Lemma in_upper i v incl a : in_interval (portableToolPythonConstrainUpperV1 i v incl) a = in_interval i a && below (Bound v incl true) a.
Proof. unfold in_interval. simpl. rewrite below_drop. by rewrite andb_assoc. Qed.
Lemma in_prefix i p i' a : natural a → portableToolPythonConstrainPrefixV1 i p = Some i' →
  in_interval i' a = in_interval i a && releaseHasPrefix a p.
Proof.
  unfold portableToolPythonConstrainPrefixV1, portableToolPythonNextPrefixV1. intros Ha.
  destruct (nextReleasePrefixV1 p) as [n|] eqn:Hn; simpl; [|done]. intros [= <-].
  by rewrite in_upper, in_lower, <-andb_assoc, (prefix_bounds a p n).
Qed.
Lemma started_lower i v incl : started i → natural v → started (portableToolPythonConstrainLowerV1 i v incl).
Proof.
  intros [Hs Hn] Hv. split; [by apply raise_lower_set|]. unfold low. simpl. unfold raise_lower.
  by repeat match goal with |- context [if ?b then _ else _] => destruct b end.
Qed.
Lemma started_prefix i p i' : started i → natural p → portableToolPythonConstrainPrefixV1 i p = Some i' → started i'.
Proof.
  unfold portableToolPythonConstrainPrefixV1, portableToolPythonNextPrefixV1. intros Hi Hp.
  destruct (nextReleasePrefixV1 p); simpl; [|done]. intros [= <-]. by apply (started_lower i p true).
Qed.
Lemma half_open_prefix p n : int_release p → nextReleasePrefixV1 p = Some n → half_open (Interval (Bound p true true) (Bound n false true)).
Proof.
  intros Hp Hn. split_and!; [done..| |].
  - unfold low, high. simpl. destruct (next_prefix_spec p n Hn) as (k & _ & _ & _ & Hk & Hlo). exists k. split; [|lia].
    intros j Hj. by rewrite Hlo.
  - by eapply int_release_natural, next_prefix_int.
Qed.

Section library.
Context {schemes : VersionSchemes}.

(** The interval and the excluded prefixes; the excluded releases. *)
Definition within (s : rootConstraintsV1) (a : list Z) : bool :=
  in_interval (rc_interval s) a && forallb (λ e, negb (in_interval e a)) (rc_excludedPrefixes s).
Definition spared (s : rootConstraintsV1) (a : list Z) : bool :=
  forallb (λ e, negb (compareReleaseVersions a e =? 0)) (rc_excludedExact s).
Definition sound (s : rootConstraintsV1) : Prop := started (rc_interval s) ∧ Forall half_open (rc_excludedPrefixes s).

(** A specifier adds exactly its condition, or it cannot be represented and no
    release that it admits is lost. *)
Lemma constrain_cases s op wildcard expected a : natural a →
  within (constrain s op wildcard expected) a = within s a && (exact_exclusion op wildcard || admits op wildcard expected a) ∧
  spared (constrain s op wildcard expected) a = spared s a && (negb (exact_exclusion op wildcard) || admits op wildcard expected a) ∨
  unrepresentedConstraint (constrain s op wildcard expected) = true ∧
  spared (constrain s op wildcard expected) a = spared s a ∧
  (admits op wildcard expected a = true → within (constrain s op wildcard expected) a = within s a).
Proof using Type.
  intros Ha. unfold constrain, admits, exact_exclusion, within, spared.
  assert (∀ b p q, b && p && q = b && q && p) as Hswap by (by intros [] [] []).
  repeat case_bool_decide; subst; try done; cbn [andb orb negb]; rewrite ?andb_true_r; try (by left; split).
  - destruct wildcard; cbn [orb].
    + destruct (portableToolPythonConstrainPrefixV1 _ _) as [i|] eqn:Hi; simpl; [left|by right]. split; [|done].
      rewrite (in_prefix _ _ _ a Ha Hi). apply Hswap.
    + left. simpl. split; [|done]. rewrite in_upper, in_lower, <-(andb_assoc (in_interval (rc_interval s) a)), exact_bounds. apply Hswap.
  - destruct wildcard; cbn [orb andb negb].
    + unfold portableToolPythonNextPrefixV1. destruct (nextReleasePrefixV1 expected) as [n|] eqn:Hn; simpl; [left|by right].
      rewrite forallb_app, andb_assoc. simpl. rewrite andb_true_r. split; [|by rewrite ?andb_true_r].
      by rewrite <-(prefix_bounds a expected n Ha Hn).
    + left. simpl. rewrite forallb_app. simpl. by rewrite !andb_true_r.
  - left. simpl. split; [|done]. rewrite in_lower, above_closed. apply Hswap.
  - left. simpl. split; [|done]. rewrite in_lower. rewrite Hswap. f_equal. unfold above. simpl. by all_comparisons.
  - left. simpl. split; [|done]. rewrite in_upper. rewrite Hswap. f_equal. unfold below. simpl. by all_comparisons.
  - left. simpl. split; [|done]. rewrite in_upper, below_closed. apply Hswap.
  - destruct (Nat.ltb_spec (length expected) 2); simpl; [by right|].
    destruct (portableToolPythonConstrainPrefixV1 _ _) as [i|] eqn:Hi; simpl.
    + left. split; [|done]. rewrite (in_prefix _ _ _ a Ha Hi), in_lower, above_closed, <-(andb_assoc (in_interval (rc_interval s) a)). apply Hswap.
    + right. split_and!; [done..|]. intros [Hc _]%andb_true_iff. by rewrite in_lower, above_closed, Hc, andb_true_r.
Qed.

Lemma constrain_sound s op wildcard expected : int_release expected → sound s → sound (constrain s op wildcard expected).
Proof using Type.
  intros He [Hi Hf]. pose proof (int_release_natural _ He) as Hn. unfold constrain, sound.
  repeat case_bool_decide; subst; simpl; try (by split); try (split; [by apply started_lower|done]).
  - destruct wildcard; simpl.
    + destruct (portableToolPythonConstrainPrefixV1 _ _) as [i|] eqn:Hp; simpl; [|done]. split; [by eapply started_prefix|done].
    + split; [by apply (started_lower _ expected true)|done].
  - destruct wildcard; simpl; [|done]. unfold portableToolPythonNextPrefixV1.
    destruct (nextReleasePrefixV1 expected) as [n|] eqn:Hx; simpl; [|done]. split; [done|].
    apply Forall_app. split; [done|]. apply Forall_singleton. by apply half_open_prefix.
  - destruct (_ <? _)%nat; simpl; [done|].
    assert (started (portableToolPythonConstrainLowerV1 (rc_interval s) expected true)) as Hl by (by apply started_lower).
    destruct (portableToolPythonConstrainPrefixV1 _ _) as [i|] eqn:Hp; simpl; [|done]. split; [|done].
    eapply (started_prefix _ _ _ Hl); [|done]. apply int_release_natural. unfold int_release in *. destruct expected as [|x l _] using rev_ind; [done|].
    rewrite removelast_last. by apply Forall_app in He as [? _].
Qed.

Lemma constrain_fields s op wildcard expected :
  (unrepresentedConstraint s = true → unrepresentedConstraint (constrain s op wildcard expected) = true) ∧
  arbitraryCandidate (constrain s op wildcard expected) = arbitraryCandidate s ∧
  exactCandidatePriority (constrain s op wildcard expected) = exactCandidatePriority s ∧
  parsedRequirements (constrain s op wildcard expected) = parsedRequirements s.
Proof using Type.
  unfold constrain. repeat case_bool_decide; subst; try done; try (destruct wildcard); try destruct (_ <? _)%nat; repeat case_match; done.
Qed.

(** ** The texts of specifiers *)

Definition read_specifier (raw : string) : option (string * bool * list Z) :=
  match portableToolPythonSplitVersionSpecifierV1 raw with
  | Some (op, text) =>
    if bool_decide (op = "===") || contains_byte text "+"%char then None
    else
      let wildcard := has_suffix text ".*" in
      (λ expected, (op, wildcard, expected)) <$>
        portableToolPythonParseReleaseVersionV1 (if wildcard then trim_suffix text ".*" else text)
  | None => None
  end.
(** What a text requires of a release; a text that says nothing of releases admits all. *)
Definition text_admits (raw : string) (a : list Z) : bool :=
  match read_specifier raw with Some (op, wildcard, expected) => admits op wildcard expected a | None => true end.
Definition text_exclusion (raw : string) : bool :=
  match read_specifier raw with Some (op, wildcard, _) => exact_exclusion op wildcard | None => false end.
(** Neither [===] nor an exact [==], which PEP 440 itself decides. *)
Definition ordinary (raw : string) : bool :=
  match portableToolPythonSplitVersionSpecifierV1 raw with
  | Some (op, text) => negb (bool_decide (op = "===")) && negb (bool_decide (op = "==") && negb (has_suffix text ".*"))
  | None => true
  end.

(** How the state after some texts relates to the state before. *)
Record read_more (raws : list string) (s s' : rootConstraintsV1) : Prop := {
  rm_sound : sound s → sound s';
  rm_flag : unrepresentedConstraint s = true → unrepresentedConstraint s' = true;
  rm_keeps a : natural a → forallb (λ raw, text_admits raw a) raws = true →
    within s a = true → spared s a = true → within s' a = true ∧ spared s' a = true;
  rm_exact a : natural a → unrepresentedConstraint s' = false → within s' a = true →
    within s a = true ∧ forallb (λ raw, text_exclusion raw || text_admits raw a) raws = true;
  rm_ordinary : forallb ordinary raws = true → arbitraryCandidate s = None → exactCandidatePriority s = -1 →
    arbitraryCandidate s' = None ∧ exactCandidatePriority s' = -1;
  rm_parsed c : c ∈ parsedRequirements s → c ∈ parsedRequirements s'
}.

Lemma read_nothing s : read_more [] s s.
Proof using Type. by split. Qed.
(** The state of the interval is the same, and no parsed constraint is lost. *)
Definition alike (s s' : rootConstraintsV1) : Prop :=
  rc_interval s' = rc_interval s ∧ rc_excludedExact s' = rc_excludedExact s ∧ rc_excludedPrefixes s' = rc_excludedPrefixes s ∧
  unrepresentedConstraint s' = unrepresentedConstraint s ∧ ∀ c, c ∈ parsedRequirements s → c ∈ parsedRequirements s'.
Definition equalities (s : rootConstraintsV1) : option string * Z := (arbitraryCandidate s, exactCandidatePriority s).

Lemma read_trans l1 l2 s1 s2 s3 : read_more l1 s1 s2 → read_more l2 s2 s3 → read_more (l1 ++ l2) s1 s3.
Proof using Type.
  intros H1 H2. split.
  - intros H. by apply (rm_sound _ _ _ H2), (rm_sound _ _ _ H1).
  - intros H. by apply (rm_flag _ _ _ H2), (rm_flag _ _ _ H1).
  - intros a Ha. rewrite forallb_app. intros [A1 A2]%andb_true_iff W S.
    destruct (rm_keeps _ _ _ H1 a Ha A1 W S) as [W2 S2]. by apply (rm_keeps _ _ _ H2).
  - intros a Ha Hu W. rewrite forallb_app. destruct (rm_exact _ _ _ H2 a Ha Hu W) as [W2 ->].
    destruct (unrepresentedConstraint s2) eqn:Hu2; [rewrite (rm_flag _ _ _ H2 Hu2) in Hu; done|].
    destruct (rm_exact _ _ _ H1 a Ha Hu2 W2) as [? ->]. done.
  - rewrite forallb_app. intros [A1 A2]%andb_true_iff Ha Hx.
    destruct (rm_ordinary _ _ _ H1 A1 Ha Hx) as [Ha2 Hx2]. by apply (rm_ordinary _ _ _ H2).
  - intros c H. by apply (rm_parsed _ _ _ H2), (rm_parsed _ _ _ H1).
Qed.

Lemma read_constrain raw s op wildcard expected : read_specifier raw = Some (op, wildcard, expected) → int_release expected →
  read_more [raw] s (constrain s op wildcard expected).
Proof using Type.
  intros Hr He. destruct (constrain_fields s op wildcard expected) as (Hf & Ha & Hx & Hp). split.
  - by apply constrain_sound.
  - done.
  - intros a Hn. simpl. rewrite andb_true_r. unfold text_admits. rewrite Hr. intros Had W S.
    destruct (constrain_cases s op wildcard expected a Hn) as [[-> ->]|(_ & -> & H)]; [by rewrite Had, W, S, !orb_true_r|].
    by rewrite (H Had).
  - intros a Hn Hu. simpl. rewrite andb_true_r. unfold text_exclusion, text_admits. rewrite Hr.
    destruct (constrain_cases s op wildcard expected a Hn) as [[-> _]|[? _]]; [by intros ?%andb_true_iff|congruence].
  - by rewrite Ha, Hx.
  - by rewrite Hp.
Qed.
(** A change that the meaning does not depend on, before a text is read. *)
Lemma read_prepare raw s s1 s' : alike s s1 → (ordinary raw = true → equalities s1 = equalities s) → read_more [raw] s1 s' → read_more [raw] s s'.
Proof using Type.
  intros (Hi & He & Hp & Hu & Hc) Hq H. destruct H as [H1 H2 H3 H4 H5 H6]. unfold sound, within, spared in *.
  rewrite Hi, He, Hp, Hu in *. split; try done; [|auto]. intros Ho. unfold equalities in Hq. simpl in *. rewrite andb_true_r in *.
  injection (Hq Ho) as E1 E2. rewrite <-E1, <-E2. by apply H5.
Qed.
(** A text that says nothing of releases. *)
Lemma read_silent raw s s' : read_specifier raw = None → alike s s' → (ordinary raw = true → equalities s' = equalities s) → read_more [raw] s s'.
Proof using Type.
  intros Hr Ha Hq. apply (read_prepare raw s s' s' Ha Hq). unfold text_admits. split; try done; simpl; unfold text_admits, text_exclusion; rewrite ?Hr; try done.
Qed.
Lemma read_unrepresented raw s : read_more [raw] s (set_unrepresented s).
Proof using Type. by split. Qed.
Lemma alike_candidates {A} (o : option A) f s : let s' := match o with Some c => add_candidates s (f c) | None => s end in
  alike s s' ∧ equalities s' = equalities s.
Proof using Type. by destruct o. Qed.

Lemma constrain_public_read raw s op text : splitVersionSpecifier raw = Some (op, text) → op ≠ "===" → contains_byte text "+"%char = false →
  read_more [raw] s (constrain_public s op text).
Proof using Type.
  intros Hs Hop Hl. unfold constrain_public.
  destruct (alike_candidates (if has_suffix text ".*" then None else @Parse pep440 text) (λ c, c :: portableToolPythonProofSuccessorsV1 c) s) as [A0 E0].
  cbn beta zeta in *. eapply read_prepare; [exact A0|done|]. clear A0 E0. generalize (match (if has_suffix text ".*" then None else @Parse pep440 text) with
    | Some c => add_candidates s (c :: portableToolPythonProofSuccessorsV1 c) | None => s end). intros s0.
  destruct (portableToolPythonParseReleaseVersionV1 _) as [expected|] eqn:Hp; [|apply read_unrepresented].
  destruct (alike_candidates (if has_suffix text ".*" then portableToolPythonNextPrefixV1 expected else None) (λ successor,
    portableToolPythonParseProofCandidatesV1 [portableToolPythonReleaseVersionTextV1 successor +:+ ".dev0";
      portableToolPythonReleaseVersionTextV1 successor]) s0) as [A1 E1].
  cbn beta zeta in *. eapply read_prepare; [exact A1|done|]. apply read_constrain.
  - unfold read_specifier, portableToolPythonSplitVersionSpecifierV1. rewrite Hs, (bool_decide_false _ Hop), Hl. simpl. by rewrite Hp.
  - by apply parse_release_int in Hp as [? _].
Qed.
Lemma read_specifier_silent raw op text : splitVersionSpecifier raw = Some (op, text) → op = "===" ∨ contains_byte text "+"%char = true →
  read_specifier raw = None.
Proof using Type.
  intros Hs H. unfold read_specifier, portableToolPythonSplitVersionSpecifierV1. rewrite Hs.
  destruct H as [->| ->]; [done|]. by rewrite orb_true_r.
Qed.
Lemma note_exact_alike s op text : alike s (note_exact s op text) ∧
  (bool_decide (op = "==") && negb (has_suffix text ".*") = false → note_exact s op text = s).
Proof using Type. unfold note_exact. destruct (_ && _); [|done]. by destruct (exactCandidatePriority s <? _). Qed.

Context (fold_rune : Z → Z).
Lemma add_raw_read s raw s' : add_raw fold_rune s raw = Ok s' → read_more [raw] s s'.
Proof using Type.
  unfold add_raw, portableToolPythonSplitVersionSpecifierV1. case_bool_decide as H0.
  { intros [= <-]. subst raw. by apply read_silent. }
  destruct (splitVersionSpecifier raw) as [[op text]|] eqn:Hs; [|done].
  assert (ordinary raw = negb (bool_decide (op = "===")) && negb (bool_decide (op = "==") && negb (has_suffix text ".*"))) as Ho.
  { unfold ordinary, portableToolPythonSplitVersionSpecifierV1. by rewrite Hs. }
  case_bool_decide as Hop.
  { intros [= <-]. apply read_silent; [by eapply read_specifier_silent; [done|left]|by destruct (arbitraryCandidate s)|by rewrite Ho]. }
  destruct (@NewConstraints pep440 raw) as [parsed|]; [|done]. intros [= <-].
  destruct (note_exact_alike (add_specifier s parsed) op text) as [A E].
  apply (read_prepare raw s (note_exact (add_specifier s parsed) op text)); [done| |].
  - rewrite Ho. simpl. intros H%negb_true_iff. by rewrite (E H).
  - destruct (contains_byte text "+"%char) eqn:Hl; [|by apply constrain_public_read].
    apply read_silent; [by eapply read_specifier_silent; [done|right]|done|done].
Qed.
Lemma add_raws_read raws s s' : add_raws fold_rune s raws = Ok s' → read_more raws s s'.
Proof using Type.
  revert s. induction raws as [|raw raws IH]; intros s; simpl; [intros [= <-]; apply read_nothing|].
  intros (s1 & H1%add_raw_read & H2)%bind_ok. apply (read_trans [raw] raws _ _ _ H1), IH, H2.
Qed.

Definition root_remainder (requirement : string) : string := trim_prefix requirement (requirement_name requirement).
Definition root_specifiers (requirement : string) : list string := split_byte (root_remainder requirement) ","%char.
Lemma add_roots_read requirements s s' : add_roots fold_rune s requirements = Ok s' →
  read_more (concat (map root_specifiers requirements)) s s' ∧
  ∀ r c, r ∈ requirements → root_remainder r ≠ "" → @NewConstraints pep440 (root_remainder r) = Some c → c ∈ parsedRequirements s'.
Proof using Type.
  revert s. induction requirements as [|r requirements IH]; intros s; simpl.
  { intros [= <-]. split; [apply read_nothing|]. by intros ? ? ?%elem_of_nil. }
  fold (root_remainder r). intros (s1 & H1 & (s2 & H2%add_raws_read & H3)%bind_ok)%bind_ok. apply IH in H3 as [H3 Hin].
  assert (read_more [] s s1 ∧ (root_remainder r ≠ "" → ∀ c, @NewConstraints pep440 (root_remainder r) = Some c → c ∈ parsedRequirements s1)) as [R1 C1].
  { case_bool_decide; [injection H1 as <-; split; [apply read_nothing|done]|]. destruct (NewConstraints _) as [parsed|] eqn:Hc; [|done]. injection H1 as <-.
    split; [split; try done; intros c Hin1; by apply elem_of_app; left|]. intros _ c [= <-]. simpl. apply elem_of_app. right. left. }
  split.
  - change (read_more ([] ++ (root_specifiers r ++ concat (map root_specifiers requirements))) s s').
    eapply (read_trans [] _ _ _ _ R1), read_trans; [exact H2|done].
  - intros r' c [->|Hr]%elem_of_cons Hne Hc; [|by eapply Hin]. by apply (rm_parsed _ _ _ H3), (rm_parsed _ _ _ H2), C1.
Qed.

Lemma unique_roots_elem requirements distribution total seen unique :
  unique_roots requirements distribution total seen = inr unique → ∀ r, r ∈ unique ↔ r ∈ requirements ∧ r ∉ seen.
Proof using Type.
  revert distribution total seen unique. induction requirements as [|requirement rest IH]; intros distribution total seen unique; simpl.
  { intros [= <-] r. rewrite elem_of_nil. naive_solver. }
  case_bool_decide as Hseen.
  { intros H r. rewrite (IH _ _ _ _ H r), elem_of_cons. naive_solver. }
  destruct (_ <? _)%nat; [done|]. destruct (PythonPackageRootDistributionNameV1 requirement) as [current|]; [|done]. destruct (_ && _); [done|].
  destruct (unique_roots _ _ _ _) as [|others] eqn:Ho; [done|]. intros [= <-] r.
  rewrite !elem_of_cons, (IH _ _ _ _ Ho r). set_unfold. destruct (decide (r = requirement)) as [->|]; naive_solver.
Qed.

(** ** The decision *)

Lemma beyond_all (highs : list (list Z)) start : natural start → Forall natural highs →
  ∃ a, natural a ∧ release_lt start a ∧ ∀ h, h ∈ highs → ¬ release_lt a h.
Proof using Type.
  intros Hs. induction 1 as [|h highs Hh Hf (a & Ha & Hsa & IH)].
  { exists (start ++ replicate 0 0 ++ [1]). split_and!; [by apply natural_next|apply release_next|by intros ? ?%elem_of_nil]. }
  destruct (ReleaseOrder.lt_total a h) as [H|H]; unfold ReleaseOrder.lt, ReleaseOrder.eq in H.
  - exists h. split_and!; [done|release_order|]. intros h' [->|Hin]%elem_of_cons; [release_order|]. apply IH in Hin. release_order.
  - exists a. split_and!; [done..|]. intros h' [->|Hin]%elem_of_cons; [|by apply IH]. destruct H; release_order.
Qed.

Lemma decide_interval_spec s : sound s → pythonIntervalEmptyV1 (rc_interval s) = false →
  if decide_interval (rc_interval s) (rc_excludedExact s) (rc_excludedPrefixes s)
  then ∃ a, natural a ∧ within s a = true
  else ∀ a, natural a → within s a = true → spared s a = true → False.
Proof using Type.
  intros [Hst Hpre] He. unfold decide_interval, within, spared. destruct (portableToolPythonIntervalSingletonV1 (rc_interval s)) eqn:Hone.
  - revert Hone. unfold portableToolPythonIntervalSingletonV1. rewrite !andb_true_iff. intros [[[Hset Hi] Hj] Heq%Z.eqb_eq%compare_zero].
    fold (low (rc_interval s)) (high (rc_interval s)) in *.
    assert (∀ a, in_interval (rc_interval s) a = true ↔ release_eq a (low (rc_interval s))) as Honly.
    { intros a. destruct Hst as [Hs _]. unfold in_interval, low, high, above, below in *. rewrite Hs, Hset, Hi, Hj. simpl.
      all_comparisons; simpl; split; try done; intros; exfalso; release_order. }
    assert (∀ e, e ∈ rc_excludedPrefixes s → portableToolPythonVersionInIntervalV1 (low (rc_interval s)) e = in_interval e (low (rc_interval s))) as Hin.
    { intros e Hin. apply in_interval_lookup. by eapply Forall_forall. }
    destruct (existsb (λ excluded, compareReleaseVersions _ excluded =? 0) _) eqn:Hex; simpl.
    + intros a Ha [Hai%Honly _]%andb_true_iff Hsp. apply existsb_exists in Hex as (e & Hine & H0%Z.eqb_eq%compare_zero).
      rewrite forallb_forall in Hsp. specialize (Hsp e Hine). apply negb_true_iff, Z.eqb_neq in Hsp. apply Hsp, compare_zero. by rewrite Hai.
    + destruct (existsb (portableToolPythonVersionInIntervalV1 _) _) eqn:Hpx; simpl.
      * intros a Ha [Hai%Honly Hno]%andb_true_iff _. apply existsb_exists in Hpx as (e & Hine & H).
        rewrite forallb_forall in Hno. specialize (Hno e Hine). apply negb_true_iff in Hno.
        apply list_elem_of_In in Hine. rewrite Hin in H by done. assert (half_open e) as Hh by (by eapply Forall_forall).
        apply not_true_iff_false in Hno. apply Hno. rewrite in_half_open in H |- * by done. by rewrite Hai.
      * exists (low (rc_interval s)). split; [apply Hst|]. rewrite andb_true_iff. split; [by apply Honly|].
        apply forallb_forall. intros e Hine. apply negb_true_iff. rewrite <-Hin by (by apply list_elem_of_In).
        apply not_true_iff_false. intros H. apply not_true_iff_false in Hpx. apply Hpx, existsb_exists. by exists e.
  - clear Hone. destruct (set (interval_upper (rc_interval s))) eqn:Hset.
    + pose proof (interval_covered (rc_interval s) Hst Hset (rc_excludedPrefixes s) He Hpre) as H. unfold swept in H.
      destruct (portableToolPythonIntervalCoveredV1 _ _); simpl.
      * intros a Ha [Hai Hno]%andb_true_iff _. destruct (H a Ha Hai) as (e & Hine & Hea); [by apply allowed_above|].
        rewrite forallb_forall in Hno. specialize (Hno e). rewrite Hea in Hno. by apply list_elem_of_In, Hno in Hine.
      * destruct H as (a & Ha & Hai & _ & H). exists a. rewrite Hai. split; [done|]. simpl. apply forallb_forall. intros e Hine.
        rewrite H; [done|by apply list_elem_of_In].
    + unfold portableToolPythonIntervalCoveredV1. rewrite Hset. simpl.
      destruct (beyond_all (map high (rc_excludedPrefixes s)) (low (rc_interval s))) as (a & Ha & Hlow & Hall); [apply Hst| |].
      { apply Forall_forall. intros h (e & -> & Hine)%list_elem_of_fmap. rewrite Forall_forall in Hpre. by apply Hpre in Hine as (_ & _ & _ & ?). }
      exists a. split; [done|]. rewrite andb_true_iff. split.
      * destruct Hst as [Hs _]. unfold in_interval, above, below, low in *. rewrite Hs, Hset. simpl. compare_releases a (version (interval_lower (rc_interval s))); simpl; try done; exfalso; release_order.
      * apply forallb_forall. intros e Hine%list_elem_of_In. apply negb_true_iff, not_true_iff_false. rewrite Forall_forall in Hpre.
        rewrite in_half_open by (by apply Hpre). intros [_ Hlt]. apply (Hall (high e)); [|done]. by apply (list_elem_of_fmap_2 high).
Qed.

Lemma zero_interval_all a : natural a → in_interval zero_interval a = true.
Proof using Type.
  intros Ha. unfold in_interval. simpl. rewrite above_closed, andb_true_r. apply Z.leb_le.
  destruct (compare_cases a [0]) as [[-> (i & _ & H)]|[[-> _]|[-> _]]]; [|done..]. specialize (Ha i). unfold comp in *. destruct i; simpl in *; lia.
Qed.
Lemma initial_sound : sound initial_constraints.
Proof using Type. split; [|done]. split; [done|]. intros [|i]; unfold comp; simpl; lia. Qed.

Lemma decide_roots_spec raws s answer : read_more raws initial_constraints s → forallb ordinary raws = true →
  decide_roots s = Compatible answer →
  if answer
  then (∃ a, natural a ∧ forallb (λ raw, text_exclusion raw || text_admits raw a) raws = true) ∨
       ∃ candidate, ∀ c, c ∈ parsedRequirements s → @CheckVersion pep440 c candidate = true
  else ∀ a, natural a → forallb (λ raw, text_admits raw a) raws = true → False.
Proof using Type.
  intros H Ho. destruct (rm_ordinary _ _ _ H Ho eq_refl eq_refl) as [Ha Hx]. pose proof (rm_sound _ _ _ H initial_sound) as Hs.
  assert (∀ a, natural a → forallb (λ raw, text_admits raw a) raws = true → within s a = true ∧ spared s a = true) as Hkeeps.
  { intros a Hn Had. apply (rm_keeps _ _ _ H a Hn Had); [|done]. unfold within. simpl. by rewrite zero_interval_all. }
  unfold decide_roots. rewrite Ha, Hx. cbn [Z.leb Z.compare]. unfold portableToolPythonIntervalEmptyV1.
  destruct (pythonIntervalEmptyV1 (rc_interval s)) eqn:He.
  { intros [= <-] a Hn Had%Hkeeps; [|done]. destruct Had as [[Hw _]%andb_true_iff _]. destruct Hs as [[Hset _] _].
    unfold in_interval in Hw. by rewrite (interval_empty_spec _ a Hset He) in Hw. }
  destruct (unrepresentedConstraint s) eqn:Hu.
  { destruct (existsb _ _) eqn:Hex; [|done]. intros [= <-]. right. apply existsb_exists in Hex as (candidate & _ & Hc).
    exists candidate. unfold meets_all in Hc. rewrite forallb_forall in Hc. intros c Hin. by apply Hc, list_elem_of_In. }
  intros [= <-]. pose proof (decide_interval_spec s Hs He) as Hd. destruct (decide_interval _ _ _).
  - left. destruct Hd as (a & Hn & Hw). exists a. split; [done|]. by apply (rm_exact _ _ _ H).
  - intros a Hn Had%Hkeeps; [|done]. destruct Had. by apply (Hd a).
Qed.
Lemma unique_roots_failure requirements distribution total seen answer :
  unique_roots requirements distribution total seen ≠ inl (Compatible answer).
Proof using Type.
  revert distribution total seen. induction requirements as [|requirement rest IH]; intros distribution total seen; simpl; [done|].
  case_bool_decide; [apply IH|]. destruct (_ <? _)%nat; [done|].
  destruct (PythonPackageRootDistributionNameV1 requirement); [|done]. destruct (_ && _); [done|].
  destruct (unique_roots _ _ _ _) eqn:Hr; [|done]. intros [= ->]. by eapply IH.
Qed.
Lemma all_specifiers (P : string → bool) requirements :
  forallb P (concat (map root_specifiers requirements)) = true ↔ ∀ r raw, r ∈ requirements → raw ∈ root_specifiers r → P raw = true.
Proof using Type.
  rewrite forallb_forall. setoid_rewrite in_concat. setoid_rewrite in_map_iff. setoid_rewrite <-list_elem_of_In.
  split; [intros H r raw Hr Hraw; apply H; eauto|]. intros H raw (l & (r & <- & Hr) & Hraw). eauto.
Qed.
End library.

(** A module that reads every text and lets every version through. *)
Definition lenient : VersionLibrary :=
  {| ToolVersions.version := string; constraints := string; Parse := Some; Compare := string_compare; IsPreRelease _ := false; VersionString v := v;
     NewConstraints := Some; CheckVersion _ _ := true; ConstraintsString c := c |}.
Definition lenient_schemes : VersionSchemes := {| semver := lenient; pep440 := lenient; BaseVersion v := v |}.

(** C22: When the requirements of a distribution name no exact version and no
    arbitrary one, the answer "incompatible" means that no release meets all
    their specifiers, and the answer "compatible" means that some release meets
    all of them but those that exclude a single release, or that a version
    meets all of them under PEP 440 when a specifier is not an interval of
    releases. *)
Theorem package_roots_decision {schemes : VersionSchemes} fold_rune requirements answer :
  PythonPackageRootRequirementsCompatibleV1 fold_rune requirements = Compatible answer →
  (∀ r raw, r ∈ requirements → raw ∈ root_specifiers r → ordinary raw = true) →
  if answer
  then (∃ a, natural a ∧ ∀ r raw, r ∈ requirements → raw ∈ root_specifiers r → text_exclusion raw = true ∨ text_admits raw a = true) ∨
       (∃ candidate, ∀ r c, r ∈ requirements → root_remainder r ≠ "" → @NewConstraints pep440 (root_remainder r) = Some c →
          @CheckVersion pep440 c candidate = true)
  else ∀ a, natural a → ∃ r raw, r ∈ requirements ∧ raw ∈ root_specifiers r ∧ text_admits raw a = false.
Proof.
  intros H Ho. unfold PythonPackageRootRequirementsCompatibleV1 in H.
  destruct (unique_roots requirements "" 0 ∅) as [failure|unique] eqn:Hu; [subst failure; by apply unique_roots_failure in Hu|].
  pose proof (unique_roots_elem _ _ _ _ _ Hu) as Hin. assert (∀ r, r ∈ unique ↔ r ∈ requirements) as Hin' by (intros r; rewrite Hin; set_solver).
  destruct (add_roots fold_rune initial_constraints unique) as [s|] eqn:Hs.
  2: { destruct unique; [|done]. by simpl in Hs. }
  assert (decide_roots s = Compatible answer ∨ unique = [] ∧ answer = true) as Hd by (destruct unique; [right; by injection H|by left]).
  clear H Hin Hu. apply add_roots_read in Hs as [Hr Hc].
  destruct Hd as [Hd|[-> ->]]; [apply (decide_roots_spec _ _ _ Hr) in Hd|].
  - destruct answer.
    + destruct Hd as [(a & Hn & Ha)|(candidate & Hcand)]; [left|right].
      * exists a. split; [done|]. intros r raw Hreq Hraw. apply orb_true_iff. eapply (proj1 (all_specifiers _ _) Ha); [|done]. by apply Hin'.
      * exists candidate. intros r c Hreq Hne Hnc. apply Hcand. eapply Hc; [|done..]. by apply Hin'.
    + intros a Hn. destruct (decide (Exists (λ raw, text_admits raw a = false) (concat (map root_specifiers unique)))) as [Hex|Hex].
      * apply Exists_exists in Hex as (raw & Hraw & Hf). apply list_elem_of_In, in_concat in Hraw as (l & (r & <- & Hreq)%in_map_iff & Hraw).
        exists r, raw. rewrite <-Hin', !list_elem_of_In. done.
      * exfalso. apply (Hd a Hn), forallb_forall. intros raw Hraw. apply not_false_iff_true. intros Hf. apply Hex, Exists_exists. exists raw.
        by rewrite list_elem_of_In.
  - apply all_specifiers. intros r raw Hreq. apply Ho. by apply Hin'.
  - left. exists [0]. split; [by apply natural_Forall, Forall_singleton|]. intros r raw Hreq. apply Hin' in Hreq. by apply elem_of_nil in Hreq.
Qed.
Lemma package_roots_decision_witness :
  natural [1; 5] ∧ ∃ r raw, r ∈ ["numpy>=1.2"; "NumPy<2,!=1.*"] ∧ raw ∈ root_specifiers r ∧ text_admits raw [1; 5] = false.
Proof.
  assert (natural [1; 5]) as Hn by (apply natural_Forall; repeat constructor; lia). split; [exact Hn|].
  apply (package_roots_decision (schemes := lenient_schemes) (λ c, c) ["numpy>=1.2"; "NumPy<2,!=1.*"] false); [by vm_compute| |exact Hn].
  intros r raw Hr Hraw.
  assert (Forall (λ r, Forall (λ raw, ordinary raw = true) (root_specifiers r)) ["numpy>=1.2"; "NumPy<2,!=1.*"]) as Hall by (repeat constructor).
  rewrite Forall_forall in Hall. specialize (Hall r Hr). rewrite Forall_forall in Hall. by apply Hall.
Defined.
