(* ===== verification/AptRequest.v ===== *)
(** * APT package requests

    [internal/blueprint/apt_request.go]: the strict subset [name] or
    [name=version] of APT's package operands, its canonical text, and executable
    requirements.  The loops of the source over runes admit ASCII only, so they
    are loops over bytes.  The exports of a request are a map; the order of its
    iteration decides only which of several errors is reported. *)

From Stdlib Require Import Ascii.
From S2P Require Import Prelude GoText Contributions.

Open Scope Z_scope.

(** ** Definitions *)

Definition containsControl (value : string) : bool := existsb (λ r, is_control (rune_value r)) (runes value).
Definition allASCIIDigits (value : string) : bool := string_forallb is_digit value.
Definition isASCIIAlphanumeric (c : ascii) : bool := is_lower c || is_upper c || is_digit c.
Definition one_of (chars : list ascii) (c : ascii) : bool := existsb (λ d, bool_decide (c = d)) chars.

(** An export is its executable. *)
Record APTPackageRequest := MakeAPT { apt_Name : string; apt_Version : string; apt_Exports : gmap string string }.
Record CommandRequirement := MakeCommand { Command : string; cr_Version : string; Supplier : string }.

Definition is_package_start (c : ascii) : bool := is_lower c || is_digit c.
Definition is_package_char (c : ascii) : bool := is_package_start c || one_of ["+"; "-"; "."]%char c.
Definition validDebianPackageName (value : string) : bool :=
  match value with
  | String c (String d rest) => is_package_start c && string_forallb is_package_char (String d rest)
  | _ => false
  end.

(** Text before and after the last occurrence of a byte ([strings.LastIndexByte]). *)
Fixpoint cut_last_byte (s : string) (sep : ascii) : option (string * string) :=
  match s with
  | EmptyString => None
  | String c rest =>
    match cut_last_byte rest sep with
    | Some (before, after) => Some (String c before, after)
    | None => if bool_decide (c = sep) then Some (EmptyString, rest) else None
    end
  end.

Definition upstream_char (c : ascii) : bool := isASCIIAlphanumeric c || one_of ["."; "+"; "~"; "-"; ":"]%char c.
Definition revision_char (c : ascii) : bool := isASCIIAlphanumeric c || one_of ["."; "+"; "~"]%char c.

Definition validateDebianVersion (value : string) : result unit :=
  _ ← reject_if (bool_decide (value = "") || negb (valid_utf8 value) || negb (bool_decide (trim_space value = value))
                 || containsControl value) "must be a nonempty exact Debian version";
  upstreamAndRevision ←
    match cut_byte value ":"%char with
    | Some (epoch, remainder) =>
      _ ← reject_if (bool_decide (epoch = "") || negb (allASCIIDigits epoch)) "has an invalid epoch";
      Ok remainder
    | None => Ok value
    end;
  '(upstream, revision) ←
    match cut_last_byte upstreamAndRevision "-"%char with
    | Some (upstream, revision) =>
      _ ← reject_if (bool_decide (revision = "")) "has an empty Debian revision";
      Ok (upstream, revision)
    | None => Ok (upstreamAndRevision, "")
    end;
  _ ← reject_if (match upstream with EmptyString => true | String c _ => negb (is_digit c) end)
        "upstream version must begin with a digit";
  _ ← reject_if (negb (string_forallb upstream_char upstream)) "upstream version contains invalid character";
  reject_if (negb (string_forallb revision_char revision)) "Debian revision contains invalid character".

Fixpoint count_byte (s : string) (b : ascii) : nat :=
  match s with EmptyString => 0 | String c s => (if bool_decide (c = b) then 1 else 0) + count_byte s b end.

Definition ParseAPTPackageRequest (value : string) : result APTPackageRequest :=
  _ ← reject_if (bool_decide (value = "") || negb (valid_utf8 value) || negb (bool_decide (trim_space value = value))
                 || containsControl value)
        "APT package request must not be empty or contain surrounding whitespace or control characters";
  _ ← reject_if (1 <? count_byte value "="%char)%nat "APT package request must contain at most one '='";
  let '(name, version, pinned) := match cut_byte value "="%char with
                                  | Some (name, version) => (name, version, true)
                                  | None => (value, "", false)
                                  end in
  _ ← reject_if (negb (validDebianPackageName name)) "APT package name is not an exact Debian binary package name";
  _ ← (if pinned : bool then wrap (validateDebianVersion version) "APT package version" else Ok tt);
  Ok (MakeAPT name version ∅).

Definition validateExecutablePath (value : string) : result unit :=
  _ ← reject_if (bool_decide (value = "") || negb (valid_utf8 value) || negb (bool_decide (trim_space value = value))
                 || containsControl value || contains_byte value "092"%char) "must be a normalized absolute Linux path";
  reject_if (negb (path_is_abs value) || negb (bool_decide (path_clean value = value)) || bool_decide (value = "/"))
    "must be a normalized absolute Linux path".

Fixpoint check_exports (exports : list (string * string)) : result unit :=
  match exports with
  | [] => Ok tt
  | (name, executable) :: rest =>
    _ ← validateProviderIdentifier name;
    _ ← validateExecutablePath executable;
    check_exports rest
  end.

Definition apt_text (request : APTPackageRequest) : string :=
  if bool_decide (apt_Version request = "") then apt_Name request
  else apt_Name request +:+ "=" +:+ apt_Version request.
Definition ValidateAPTPackageRequest (request : APTPackageRequest) : result unit :=
  parsed ← ParseAPTPackageRequest (apt_text request);
  _ ← reject_if (negb (bool_decide (apt_Name parsed = apt_Name request))
                 || negb (bool_decide (apt_Version parsed = apt_Version request)))
        "APT package request fields do not match their canonical value";
  check_exports (map_to_list (apt_Exports request)).
Definition APTCanonical (request : APTPackageRequest) : result string :=
  _ ← ValidateAPTPackageRequest request;
  Ok (apt_text request).

Definition ValidateCommandRequirement (requirement : CommandRequirement) : result unit :=
  _ ← validateProviderIdentifier (Command requirement);
  _ ← reject_if (negb (bool_decide (cr_Version requirement = trim_space (cr_Version requirement))))
        "version must not contain surrounding whitespace";
  if bool_decide (Supplier requirement = "") then Ok tt else ValidateContributionReference (Supplier requirement).

Example apt_example :
  ParseAPTPackageRequest "libssl-dev=1:3.0.2-0ubuntu1" = Ok (MakeAPT "libssl-dev" "1:3.0.2-0ubuntu1" ∅) ∧
  APTCanonical (MakeAPT "curl" "" ∅) = Ok "curl" ∧ is_ok (APTCanonical (MakeAPT "curl=1" "2" ∅)) = false ∧
  is_ok (ParseAPTPackageRequest "curl=") = false ∧ is_ok (ParseAPTPackageRequest "curl=1=2") = false ∧
  is_ok (ParseAPTPackageRequest "-curl") = false ∧ is_ok (ParseAPTPackageRequest "curl/bookworm") = false ∧
  validateExecutablePath "/usr/bin/curl" = Ok tt ∧ is_ok (validateExecutablePath "/usr/../bin") = false.
Proof. vm_compute. split_and!; done. Qed.

(** ** Texts and requests *)

Lemma cut_byte_parts s sep before after : cut_byte s sep = Some (before, after) →
  s = before +:+ String sep after ∧ contains_byte before sep = false.
Proof.
  revert before. induction s as [|c s IH]; intros before; simpl; [done|]. case_bool_decide as Hc.
  - subst. by intros [= <- <-].
  - destruct (cut_byte s sep) as [[b a]|]; [|done]. intros [= <- <-]. destruct (IH b eq_refl) as [-> Hb].
    split; [done|]. simpl. by rewrite bool_decide_false.
Qed.

Lemma version_nonempty version : validateDebianVersion version = Ok tt → version ≠ "".
Proof. by intros H ->. Qed.

(** A parsed request is the one whose text was given. *)
Lemma parse_text value request : ParseAPTPackageRequest value = Ok request →
  apt_text request = value ∧ apt_Exports request = ∅.
Proof.
  unfold ParseAPTPackageRequest. intros [_ [_ H]%reject_if_bind]%reject_if_bind.
  destruct (cut_byte value _) as [[name version]|] eqn:Hcut.
  - apply reject_if_bind in H as [_ H]. apply bind_ok in H as ([] & Hv%wrap_ok & [= <-]). split; [|done].
    apply cut_byte_parts in Hcut as [-> _]. unfold apt_text. simpl.
    rewrite bool_decide_false by by apply version_nonempty. done.
  - apply reject_if_bind in H as [_ [= <-]]. done.
Qed.

Lemma check_exports_ok exports : check_exports exports = Ok tt ↔
  Forall (λ e, validateProviderIdentifier e.1 = Ok tt ∧ validateExecutablePath e.2 = Ok tt) exports.
Proof.
  induction exports as [|[name executable] rest IH]; simpl; [by split|]. rewrite Forall_cons, <-IH, bind_ok. simpl. split.
  - intros ([] & Hn & H). by apply bind_ok in H as ([] & He & H).
  - intros [[Hn He] H]. exists tt. split; [done|]. by rewrite He.
Qed.

(** ** Properties *)

(** [ParseAPTPackageRequest] and [Canonical] are inverse: a request has the
    canonical text [value] exactly when [value] parses to its name and version
    and its exports are valid.  In particular a text parses to at most one
    request and is reproduced from it. *)
Theorem apt_request_roundtrip request value :
  APTCanonical request = Ok value ↔
  ParseAPTPackageRequest value = Ok (MakeAPT (apt_Name request) (apt_Version request) ∅) ∧
  map_Forall (λ name executable,
    validateProviderIdentifier name = Ok tt ∧ validateExecutablePath executable = Ok tt) (apt_Exports request).
Proof.
  unfold APTCanonical, ValidateAPTPackageRequest. rewrite bind_ok, map_Forall_to_list. split.
  - intros ([] & H & [= <-]). apply bind_ok in H as (parsed & Hp & H). apply reject_if_bind in H as [Hf H].
    apply orb_false_iff in Hf as [Hn%negb_false_iff Hv%negb_false_iff]. apply bool_decide_eq_true in Hn, Hv.
    split.
    + rewrite Hp. destruct (parse_text _ _ Hp) as [_ He]. destruct parsed as [n v e]. simpl in *. by subst.
    + apply check_exports_ok in H. eapply Forall_impl; [exact H|]. by intros [].
  - intros [Hp He]. destruct (parse_text _ _ Hp) as [Ht _].
    assert (apt_text request = value) as Hv by (by rewrite <-Ht).
    exists tt. rewrite Hv, Hp. simpl. rewrite !bool_decide_true by done. simpl. split; [|done].
    apply check_exports_ok. eapply Forall_impl; [exact He|]. by intros [].
Qed.
