(* ===== verification/ToolSupport.v ===== *)
(** * The support cases of a target

    [internal/toolcatalog/records_compose.go]: what one support case of a target
    selects, the checks that its parts fit together, and the coverage of the
    support cases by fixtures.

    The records of a release are found in its view (ToolCatalog.v).  A record
    that validation accepts has no nil slice or map where the canonical text of a
    support case would show it, so a slice is a list and a map a [gmap]. *)

From Stdlib Require Import Ascii.
From S2P Require Import Prelude GoText PythonClaim PythonVersion Canonical AptRequest ToolRecords ToolCatalog ToolVersions PythonRoots.

Open Scope Z_scope.

(** ** Loops *)

(** A loop that stops at the first error, and one that carries a value. *)
Fixpoint for_each {A} (f : A → result unit) (items : list A) : result unit :=
  match items with [] => Ok tt | item :: rest => _ ← f item; for_each f rest end.
Fixpoint carry {A S} (step : S → A → result S) (state : S) (items : list A) : result S :=
  match items with [] => Ok state | item :: rest => state ← step state item; carry step state rest end.
(** Whether some item satisfies a test that can fail; no item is tested after the first that does. *)
Fixpoint any_of {A} (test : A → result bool) (items : list A) : result bool :=
  match items with
  | [] => Ok false
  | item :: rest => found ← test item; if (found : bool) then Ok true else any_of test rest
  end.

(** ** Canonical texts *)

Definition string_slice (values : list string) : goValue := Slice (map Str values).
Definition selections_value (selections : gmap string (list string)) : goValue :=
  Map (map (λ entry, (entry.1, string_slice entry.2)) (map_to_list selections)).
Definition supportTupleV1 : Type := TargetSupportCaseV1.
Definition MakeTuple (context : string) (bindings : list string) (selections : gmap string (list string)) : supportTupleV1 :=
  {| case_Context := context; case_Bindings := bindings; case_Selections := selections |}.
Definition tuple_value (tuple : supportTupleV1) : goValue :=
  Struct [(FieldInfo "Context" true "context", Str (case_Context tuple));
          (FieldInfo "Bindings" true "bindings", string_slice (case_Bindings tuple));
          (FieldInfo "Selections" true "selections", selections_value (case_Selections tuple))].
Definition supportTupleKeyV1 (tuple : supportTupleV1) : result (list ascii) :=
  wrap (Marshal (tuple_value tuple)) "support tuple canonical form".
Definition normalizedFixtureTupleV1 (fixture : IntegrationFixtureRecordV1) : supportTupleV1 :=
  MakeTuple (fixture_Context fixture) (fixture_Bindings fixture) (fixture_Selections fixture).

(** ** What a target advertises *)

Definition targetBindingEntryV1 (target : TargetRecordV1) (name : string) : option TargetBindingV1 :=
  find_first (λ binding, bool_decide (binding_Name binding = name)) (target_Bindings target).
Definition is_selection (dimension value : string) (selection : TargetSelectionV1) : bool :=
  bool_decide (Dimension selection = dimension) && bool_decide (selection_Value selection = value).
Definition targetAdvertisesBindingV1 (target : TargetRecordV1) (name : string) : bool :=
  existsb (λ binding, bool_decide (binding_Name binding = name)) (target_Bindings target).
Definition targetAdvertisesSelectionV1 (target : TargetRecordV1) (dimension value : string) : bool :=
  existsb (is_selection dimension value) (target_Selections target).
Definition selectionDeclaredV1 (schema : SelectionSchemaV1) (dimension value : string) : bool :=
  match find_first (λ declared, bool_decide (dimension_Name declared = dimension)) (Dimensions schema) with
  | Some declared => containsRecordValueV1 (dimension_Options declared) value
  | None => false
  end.
Definition targetSupportsSelectionCombinationV1 (target : TargetRecordV1) (schema : SelectionSchemaV1)
    (combination : SelectionCombinationV1) : bool :=
  forallb (λ entry, forallb (λ value, selectionDeclaredV1 schema entry.1 value && targetAdvertisesSelectionV1 target entry.1 value) entry.2)
    (map_to_list combination).
Definition selectionMapMatchesCombinationV1 (schema : SelectionSchemaV1) (selections : gmap string (list string)) : result bool :=
  if bool_decide (length (Dimensions schema) = 0%nat) then Ok (bool_decide (selections = ∅))
  else
    selectionKey ← Marshal (selections_value selections);
    any_of (λ combination, combinationKey ← Marshal (selections_value combination); Ok (bool_decide (selectionKey = combinationKey)))
      (Combinations schema).
Definition bindingUsedInSupportCaseV1 (target : TargetRecordV1) (name : string) : bool :=
  existsb (λ supportCase, containsRecordValueV1 (case_Bindings supportCase) name) (SupportCases target).
Definition selectionUsedInSupportCaseV1 (target : TargetRecordV1) (dimension value : string) : bool :=
  existsb (λ supportCase, containsRecordValueV1 (default [] (case_Selections supportCase !! dimension)) value) (SupportCases target).

(** ** Support cases *)

Definition maxDefinitionValidationCases : nat := 1024.
(** A set of names is empty exactly when the target has no bindings. *)
Definition bindings_fit (target : TargetRecordV1) (names : list string) : bool :=
  Bool.eqb (bool_decide (length (target_Bindings target) = 0%nat)) (bool_decide (length names = 0%nat)).

Section contract.
Context (contract : ReleaseContractV1) (target : TargetRecordV1).

Definition available (binding : string) : bool :=
  containsRecordValueV1 (Options (Binding contract)) binding && targetAdvertisesBindingV1 target binding.
Definition check_support_case (supportCase : TargetSupportCaseV1) : result supportTupleV1 :=
  _ ← reject_if (negb (containsRecordValueV1 (Contexts contract) (case_Context supportCase))) "context is not declared by the release contract";
  _ ← reject_if (negb (bindings_fit target (case_Bindings supportCase))) "binding set is incompatible with target bindings";
  _ ← reject_if (negb (forallb available (case_Bindings supportCase))) "target support case binding is unavailable";
  selectionSupported ← selectionMapMatchesCombinationV1 (Selections contract) (case_Selections supportCase);
  _ ← reject_if (negb selectionSupported
                 || negb (targetSupportsSelectionCombinationV1 target (Selections contract) (case_Selections supportCase)))
        "target support case selections do not match one available release-contract combination";
  Ok supportCase.
Definition targetSupportTuplesV1 : result (list supportTupleV1) :=
  _ ← reject_if (bool_decide (length (SupportCases target) = 0%nat)) "target support cases must not be empty";
  _ ← reject_if (maxDefinitionValidationCases <? length (SupportCases target))%nat "target support-case coverage exceeds the limit";
  mapM check_support_case (SupportCases target).

Definition check_target_binding (binding : TargetBindingV1) : result unit :=
  _ ← reject_if (negb (containsRecordValueV1 (Options (Binding contract)) (binding_Name binding)))
        "target binding mapping is not declared by the release contract";
  reject_if (negb (bindingUsedInSupportCaseV1 target (binding_Name binding))) "target binding mapping participates in no support case".
Definition check_target_selection (selection : TargetSelectionV1) : result unit :=
  _ ← reject_if (negb (selectionDeclaredV1 (Selections contract) (Dimension selection) (selection_Value selection)))
        "target selection mapping is not declared by the release contract";
  reject_if (negb (selectionUsedInSupportCaseV1 target (Dimension selection) (selection_Value selection)))
    "target selection mapping participates in no support case".
Definition validateTargetAgainstContractV1 : result unit :=
  _ ← for_each check_target_binding (target_Bindings target);
  _ ← for_each check_target_selection (target_Selections target);
  _ ← targetSupportTuplesV1;
  Ok tt.
End contract.

(** ** What a support case selects *)

Definition exact_union_step (byID : gmap string RecordReferenceV1) (reference : RecordReferenceV1) : result (gmap string RecordReferenceV1) :=
  _ ← reject_if (match byID !! ref_ID reference with Some previous => negb (bool_decide (previous = reference)) | None => false end)
        "reference has conflicting exact identities";
  Ok (<[ref_ID reference := reference]> byID).
Definition exactReferenceUnionV1 (groups : list (list RecordReferenceV1)) : result (list RecordReferenceV1) :=
  byID ← carry exact_union_step ∅ (concat groups);
  Ok (omap (λ id, byID !! id) (merge_sort String.le (map fst (map_to_list byID)))).

(** The mappings that a support case selects, in the order of the loops. *)
Definition selected_bindings (target : TargetRecordV1) (tuple : supportTupleV1) : list TargetBindingV1 :=
  omap (targetBindingEntryV1 target) (case_Bindings tuple).
Definition selected_values (tuple : supportTupleV1) : list (string * string) :=
  concat (map (λ dimension, map (pair dimension) (default [] (case_Selections tuple !! dimension)))
              (merge_sort String.le (map fst (map_to_list (case_Selections tuple))))).
Definition selected_selections (target : TargetRecordV1) (tuple : supportTupleV1) : list TargetSelectionV1 :=
  omap (λ entry, find_first (is_selection entry.1 entry.2) (target_Selections target)) (selected_values tuple).

Definition profile_groups (target : TargetRecordV1) (tuple : supportTupleV1) : list (list RecordReferenceV1) :=
  [target_ValidationProfiles target] ++ map binding_ValidationProfiles (selected_bindings target tuple)
  ++ map selection_ValidationProfiles (selected_selections target tuple).
Definition selectedProfileReferencesV1 (target : TargetRecordV1) (tuple : supportTupleV1) : result (list RecordReferenceV1) :=
  exactReferenceUnionV1 (profile_groups target tuple).
Definition equalReferenceListsV1 (left right : list RecordReferenceV1) : bool := bool_decide (left = right).

Record contributions := Contributed {
  packages : list RecordReferenceV1; payloads : list RecordReferenceV1; artifacts : list RecordReferenceV1;
  profiles : list RecordReferenceV1; exports : list ToolExportV1
}.
Definition selectedContributionReferencesV1 (target : TargetRecordV1) (tuple : supportTupleV1) : result contributions :=
  let bindings := selected_bindings target tuple in
  let selections := selected_selections target tuple in
  packages ← exactReferenceUnionV1 ([target_PackageSets target] ++ map binding_PackageSets bindings ++ map selection_PackageSets selections);
  payloads ← exactReferenceUnionV1 ([target_Payloads target] ++ map binding_Payloads bindings ++ map selection_Payloads selections);
  artifacts ← exactReferenceUnionV1 (map binding_Artifacts bindings);
  profiles ← exactReferenceUnionV1 (profile_groups target tuple);
  Ok (Contributed packages payloads artifacts profiles
        (target_Exports target ++ concat (map binding_Exports bindings) ++ concat (map selection_Exports selections))).

(** ** Fixtures *)

Definition validateFixtureAgainstTargetV1 (contract : ReleaseContractV1) (target : TargetRecordV1)
    (fixture : IntegrationFixtureRecordV1) : result unit :=
  _ ← reject_if (negb (bool_decide (fixture_Target fixture = target_Target target))) "fixture target does not match the target record";
  _ ← reject_if (negb (containsRecordValueV1 (Contexts contract) (fixture_Context fixture))) "context is not declared by the release contract";
  _ ← reject_if (negb (bindings_fit target (fixture_Bindings fixture))) "fixture binding set is not supported by the target";
  _ ← reject_if (negb (forallb (available contract target) (fixture_Bindings fixture))) "binding is unavailable on the target";
  let fixtureTuple := normalizedFixtureTupleV1 fixture in
  fixtureKey ← supportTupleKeyV1 fixtureTuple;
  supportedTuples ← targetSupportTuplesV1 contract target;
  keys ← mapM supportTupleKeyV1 supportedTuples;
  _ ← reject_if (negb (existsb (λ key, bool_decide (key = fixtureKey)) keys))
        "fixture selections do not match one advertised target combination";
  expectedProfiles ← selectedProfileReferencesV1 target fixtureTuple;
  fixtureProfiles ← exactReferenceUnionV1 [fixture_ValidationProfiles fixture];
  reject_if (negb (equalReferenceListsV1 expectedProfiles fixtureProfiles))
    "fixture validation profiles do not match the selected target contributions".

(** ** Contributions that fit together *)

Definition recordPathOverlapsV1 (left right : string) : bool :=
  bool_decide (left = right) || has_prefix right (left +:+ "/") || has_prefix left (right +:+ "/").

Section view.
Context (view : resolved_view).

(** A record of one type; [field] gives the value of that type. *)
Definition resolved_as {A} (field : RecordV1 → option A) (message : string) (reference : RecordReferenceV1) : result A :=
  record ← resolvedRecordV1 view reference;
  match field (record_Value record) with Some value => Ok value | None => Err message end.
Definition as_package_set (value : RecordV1) : option NativePackageSetV1 := match value with NativePackageSet set => Some set | _ => None end.
Definition as_payload (value : RecordV1) : option PayloadRecordV1 := match value with PayloadRecord payload => Some payload | _ => None end.
Definition as_artifact (value : RecordV1) : option BindingArtifactRecordV1 :=
  match value with BindingArtifactRecord artifact => Some artifact | _ => None end.
Definition as_profile (value : RecordV1) : option ValidationProfileRecordV1 :=
  match value with ValidationProfileRecord profile => Some profile | _ => None end.
Definition as_binding_contract (value : RecordV1) : option BindingContractV1 :=
  match value with BindingContract contract => Some contract | _ => None end.

Definition resolve_package_set (target : TargetRecordV1) (reference : RecordReferenceV1) : result NativePackageSetV1 :=
  packageSet ← resolved_as as_package_set "package set resolves to an incompatible record" reference;
  _ ← reject_if (negb (bool_decide (Manager packageSet = identity_PackageManager (target_Target target))))
        "package set resolves to an incompatible record";
  Ok packageSet.
Definition validatePackageSetReferencesV1 (references : list RecordReferenceV1) (target : TargetRecordV1) : result unit :=
  for_each (λ reference, _ ← resolve_package_set target reference; Ok tt) references.

Definition add_requirement (byName : gmap string string) (requirement : string) : result (gmap string string) :=
  parsed ← ParseAPTPackageRequest requirement;
  _ ← reject_if (match byName !! apt_Name parsed with Some previous => negb (bool_decide (previous = requirement)) | None => false end)
        "selected package sets conflict on package";
  Ok (<[apt_Name parsed := requirement]> byName).
Definition add_package_set (target : TargetRecordV1) (byName : gmap string string) (reference : RecordReferenceV1) : result (gmap string string) :=
  packageSet ← resolve_package_set target reference;
  carry add_requirement byName (ps_Requirements packageSet).
Definition add_export (exportPaths : gmap string string) (exported : ToolExportV1) : result (gmap string string) :=
  _ ← reject_if (match exportPaths !! export_Name exported with
                 | Some previous => negb (bool_decide (previous = export_Path exported))
                 | None => false
                 end) "selected contributions conflict on export";
  Ok (<[export_Name exported := export_Path exported]> exportPaths).
Definition binding_cli (binding : TargetBindingV1) : result ToolExportV1 :=
  bindingContract ← resolved_as as_binding_contract "target binding contract resolves to an incompatible record" (binding_Contract binding);
  _ ← reject_if (negb (bool_decide (bc_Name bindingContract = binding_Name binding)))
        "target binding contract resolves to an incompatible record";
  Ok (CLI bindingContract).

(** The logical paths, and the IDs and directories of the payloads so far. *)
Definition payload_state : Type := gmap string string * list (string * string).
Definition add_payload (platform : string) (state : payload_state) (reference : RecordReferenceV1) : result payload_state :=
  payload ← resolved_as as_payload "payload resolves to a non-payload record" reference;
  _ ← reject_if (negb (bool_decide (payload_Platform payload = platform))) "payload is built for another platform";
  _ ← reject_if (match state.1 !! LogicalPath payload with
                 | Some previous => negb (bool_decide (previous = payload_ID payload))
                 | None => false
                 end) "co-selectable payloads share a logical path";
  _ ← reject_if (existsb (λ other, negb (bool_decide (other.1 = payload_ID payload))
                                   && recordPathOverlapsV1 other.2 (InstallDirectory payload)) state.2)
        "co-selectable payloads overlap install destinations";
  Ok (<[LogicalPath payload := payload_ID payload]> state.1, state.2 ++ [(payload_ID payload, InstallDirectory payload)]).
Definition validateTuplePayloadsV1 (references : list RecordReferenceV1) (platform : string) : result unit :=
  _ ← carry (add_payload platform) (∅, []) references;
  Ok tt.

Definition validateTupleContributionsV1 (contract : ReleaseContractV1) (target : TargetRecordV1) (tuple : supportTupleV1) : result unit :=
  selected ← selectedContributionReferencesV1 target tuple;
  _ ← reject_if (bool_decide (case_Context tuple = "runtime") && bool_decide (Runtime contract = None) &&
                 (bool_decide (length (packages selected) = 0%nat) || negb (bool_decide (length (payloads selected) = 0%nat))
                  || negb (bool_decide (length (artifacts selected) = 0%nat)) || negb (bool_decide (length (case_Bindings tuple) = 0%nat))))
        "runtime without an install-root contract requires native-only package contributions";
  _ ← carry (add_package_set target) ∅ (packages selected);
  clis ← mapM binding_cli (selected_bindings target tuple);
  _ ← carry add_export ∅ (contract_Exports contract ++ exports selected ++ clis);
  _ ← validateTuplePayloadsV1 (payloads selected) (identity_Platform (target_Target target));
  _ ← for_each (λ reference, _ ← resolved_as as_artifact "binding artifact resolves to a non-artifact record" reference; Ok tt) (artifacts selected);
  for_each (λ reference, _ ← resolved_as as_profile "validation profile resolves to a non-profile record" reference; Ok tt) (profiles selected).

(** The keys of the expected support cases; then those of the fixtures. *)
Definition expect_tuple (contract : ReleaseContractV1) (target : TargetRecordV1) (expected : gset (list ascii)) (tuple : supportTupleV1)
    : result (gset (list ascii)) :=
  key ← supportTupleKeyV1 tuple;
  _ ← validateTupleContributionsV1 contract target tuple;
  Ok ({[key]} ∪ expected).
Definition cover_tuple (contract : ReleaseContractV1) (target : TargetRecordV1) (expected actual : gset (list ascii))
    (fixture : IntegrationFixtureRecordV1) : result (gset (list ascii)) :=
  _ ← validateFixtureAgainstTargetV1 contract target fixture;
  key ← supportTupleKeyV1 (normalizedFixtureTupleV1 fixture);
  _ ← reject_if (bool_decide (key ∈ actual)) "integration fixtures cover the same support tuple";
  _ ← reject_if (negb (bool_decide (key ∈ expected))) "integration fixture covers an unsupported tuple";
  Ok ({[key]} ∪ actual).
Definition validateTargetFixtureCoverageV1 (contract : ReleaseContractV1) (target : TargetRecordV1)
    (fixtures : list IntegrationFixtureRecordV1) : result unit :=
  tuples ← targetSupportTuplesV1 contract target;
  expected ← carry (expect_tuple contract target) ∅ tuples;
  actual ← carry (cover_tuple contract target expected) ∅ fixtures;
  reject_if (negb (bool_decide (expected ⊆ actual))) "integration fixtures do not cover a support tuple".

(** ** Bindings *)

Fixpoint drop_until (p : ascii → bool) (value : list ascii) : list ascii :=
  match value with c :: rest => if p c then value else drop_until p rest | [] => [] end.
(** The specifiers of a requirement: from the first comparison sign on. *)
Definition requirement_specifiers (requirement : string) : string :=
  String.string_of_list_ascii (drop_until (λ c, existsb (λ d, bool_decide (c = d)) ["<"; ">"; "="; "!"; "~"]%char) (bytes requirement)).

Definition ValidateBindingBundledComponentAgreementV1 (contract artifact : list BundledComponentV1) : result unit :=
  let bundled := foldl (λ table component, <[bundled_Name component := component]> table) (∅ : gmap string BundledComponentV1) artifact in
  for_each (λ declared,
    match bundled !! bundled_Name declared with
    | None => Err "contract declares bundled component which the artifact does not bundle"
    | Some present =>
      reject_if (negb (bool_decide (bundled_Version present = bundled_Version declared))
                 || negb (bool_decide (bundled_Path present = bundled_Path declared))) "bundled component does not match the contract"
    end) contract.
End view.

Section schemes.
Context {schemes : VersionSchemes} (view : resolved_view).

(** The first requirement of the distribution decides. *)
Fixpoint check_requirements (distribution : string) (wheelVersion : @ToolVersions.version pep440) (requirements : list string) : result unit :=
  match requirements with
  | [] => Err "contract package has no binding requirement"
  | requirement :: rest =>
    requirementDistribution ← PythonPackageRootDistributionNameV1 requirement;
    if negb (bool_decide (requirementDistribution = distribution)) then check_requirements distribution wheelVersion rest
    else
      let remainder := requirement_specifiers requirement in
      if bool_decide (remainder = "") then Ok tt
      else match @NewConstraints pep440 remainder with
           | Some specifiers => reject_if (negb (CheckVersion specifiers wheelVersion)) "artifact version does not satisfy contract requirement"
           | None => Err "artifact version does not satisfy contract requirement"
           end
  end.
Definition validateBindingArtifactAgainstContractV1 (contract : BindingContractV1) (artifact : BindingArtifactRecordV1) : result unit :=
  let distribution := NormalizePythonDistributionNameV1 (ba_Name artifact) in
  _ ← reject_if (negb (bool_decide (distribution = NormalizePythonDistributionNameV1 (bc_Package contract))))
        "artifact distribution does not match contract package";
  match @Parse pep440 (EcosystemVersion artifact) with
  | None => Err "artifact ecosystem version is invalid"
  | Some wheelVersion =>
    _ ← check_requirements distribution wheelVersion (bc_Requirements contract);
    _ ← reject_if (negb (existsb (containsRecordValueV1 (SupportedTags contract)) (Tags artifact)))
          "artifact tags are incompatible with the binding contract";
    _ ← reject_if (negb (bool_decide (is_Some (@NewConstraints pep440 (RequiresPython artifact))))) "requires_python is invalid";
    _ ← ValidateBindingBundledComponentAgreementV1 (bc_BundledComponents contract) (ba_BundledComponents artifact);
    claims ← wrap (NormalizeSupportedPythonClaimsV1 (SupportedPython contract)) "contract supported Python claims are invalid";
    reject_if (negb (existsb (λ claim, bool_decide (PythonRequiresPythonIntersectsClaimV1 (RequiresPython artifact) claim = Ok true)) claims))
      "requires_python excludes every contract interpreter"
  end.

Definition validateBindingInterpreterCoverageV1 (contract : BindingContractV1) (artifacts : list BindingArtifactRecordV1) : result unit :=
  claims ← wrap (NormalizeSupportedPythonClaimsV1 (SupportedPython contract)) "contract supported Python claims are invalid";
  for_each (λ claim,
    matches ← mapM (λ artifact, wrap (PythonRequiresPythonCoversClaimV1 (RequiresPython artifact) claim) "artifact requires_python is invalid") artifacts;
    reject_if (negb (existsb id matches)) "binding has no artifact covering interpreter") claims.

Definition check_artifact (target : TargetRecordV1) (binding : TargetBindingV1) (contract : BindingContractV1) (reference : RecordReferenceV1)
    : result BindingArtifactRecordV1 :=
  artifact ← resolved_as view as_artifact "target binding artifact resolves to an incompatible record" reference;
  _ ← reject_if (negb (bool_decide (ba_Binding artifact = binding_Name binding))
                 || negb (bool_decide (ba_Contract artifact = binding_Contract binding)))
        "target binding artifact resolves to an incompatible record";
  _ ← reject_if (negb (bool_decide (ba_Platform artifact = identity_Platform (target_Target target)))) "artifact is built for another platform";
  _ ← validateBindingArtifactAgainstContractV1 contract artifact;
  Ok artifact.
Definition check_binding (target : TargetRecordV1) (binding : TargetBindingV1) : result unit :=
  contract ← resolved_as view as_binding_contract "target binding contract resolves to an incompatible record" (binding_Contract binding);
  _ ← reject_if (negb (bool_decide (bc_Name contract = binding_Name binding))) "target binding contract resolves to an incompatible record";
  artifacts ← mapM (check_artifact target binding contract) (binding_Artifacts binding);
  validateBindingInterpreterCoverageV1 contract artifacts.
Definition validateTargetBindingsAgainstContractsV1 (target : TargetRecordV1) : result unit :=
  for_each (check_binding target) (target_Bindings target).
End schemes.
