(* ===== verification/ToolSupportFacts.v ===== *)
(** * Support cases, as sets and keys

    The canonical text of a support case identifies it, and the union of
    reference lists is the strictly sorted list of their members. *)

From Stdlib Require Import Ascii.
From S2P Require Import Prelude GoText Canonical CanonicalFacts CanonicalReading ToolRecords ToolCatalog ToolSupport.

Open Scope nat_scope.

(** ** Loops *)

Lemma for_each_ok {A} (f : A → result unit) l : for_each f l = Ok tt ↔ ∀ x, x ∈ l → f x = Ok tt.
Proof.
  induction l as [|x l IH]; simpl; [split; [by intros _ ? ?%elem_of_nil|done]|]. rewrite bind_ok. setoid_rewrite elem_of_cons. split.
  - intros ([] & Hx & Hl) y [->|Hy]; [done|by apply IH].
  - intros H. exists tt. split; [apply H; by left|apply IH; intros y Hy; apply H; by right].
Qed.
Lemma carry_app {A S} (step : S → A → result S) state l1 l2 :
  carry step state (l1 ++ l2) = (state ← carry step state l1; carry step state l2).
Proof. revert state. induction l1 as [|x l1 IH]; intros state; simpl; [done|]. by destruct (step state x); simpl. Qed.
(** An invariant of the state along a loop that succeeds. *)
Lemma carry_invariant {A S} (step : S → A → result S) (P : list A → S → Prop) l s s' :
  (∀ done_ x s s', P done_ s → step s x = Ok s' → P (done_ ++ [x]) s') →
  P [] s → carry step s l = Ok s' → P l s'.
Proof.
  intros Hstep. enough (∀ done_ s, P done_ s → carry step s l = Ok s' → P (done_ ++ l) s') as H by apply (H []).
  induction l as [|x l IH]; intros done_ s0 Hs; simpl; [intros [= <-]; by rewrite app_nil_r|].
  intros (s1 & H1 & H2)%bind_ok. replace (done_ ++ x :: l) with ((done_ ++ [x]) ++ l) by (by rewrite <-app_assoc). eapply IH; eauto.
Qed.
Lemma carry_each {A S} (step : S → A → result S) l s s' x : carry step s l = Ok s' → x ∈ l → ∃ s1 s2, step s1 x = Ok s2.
Proof.
  revert s. induction l as [|y l IH]; intros s; simpl; [by intros _ ?%elem_of_nil|]. intros (s1 & H1 & H2)%bind_ok [->|Hx]%elem_of_cons; [by exists s, s1|].
  by eapply IH.
Qed.
Lemma carry_total {A S} (step : S → A → result S) (P : list A → S → Prop) l s :
  (∀ done_ x s, done_ ++ [x] `prefix_of` l → P done_ s → ∃ s', step s x = Ok s' ∧ P (done_ ++ [x]) s') →
  P [] s → ∃ s', carry step s l = Ok s'.
Proof.
  enough (∀ rest done_ s, l = done_ ++ rest → (∀ done_ x s, done_ ++ [x] `prefix_of` l → P done_ s → ∃ s', step s x = Ok s' ∧ P (done_ ++ [x]) s') →
    P done_ s → ∃ s', carry step s rest = Ok s') as H by (intros; by apply (H l [])).
  induction rest as [|x rest IH]; intros done_ s0 Hl Hstep Hs; simpl; [by eexists|].
  destruct (Hstep done_ x s0) as (s1 & -> & H1); [|done|]; simpl.
  { exists rest. by rewrite Hl, <-app_assoc. }
  apply (IH (done_ ++ [x])); [by rewrite Hl, <-app_assoc|done|done].
Qed.

(** ** The key of a support case *)

Lemma marshal_json v a : wf_value v = true → Marshal v = Ok a → ∃ j, json_of v = Some j ∧ a = render j.
Proof.
  intros Hw%write_value H. unfold writes in Hw. unfold Marshal in H. rewrite H in Hw. simpl in Hw.
  destruct (json_of v) as [j|]; [|done]. exists j. by injection Hw as ->.
Qed.

Definition json_strings (values : list string) : json := JArray (map JString values).
Lemma json_string_slice values j : json_of (string_slice values) = Some j → j = json_strings values.
Proof.
  unfold string_slice, json_strings. simpl. rewrite map_map. intros (js & Hjs & ->)%fmap_Some. f_equal. revert js Hjs.
  induction values as [|v values IH]; intros js; simpl; [by intros [= <-]|].
  intros (x & Hx & (xs & Hxs & [= <-])%bind_Some)%bind_Some. unfold id in Hx. simpl in Hx. destruct (valid_utf8 v); [|done]. injection Hx as <-.
  f_equal. by apply IH.
Qed.
Definition json_selections (selections : gmap string (list string)) : json := JObject (json_strings <$> selections).
Lemma collect_entries (entries : list (string * list string)) js :
  collect_option (map (λ m : string * option json, pair m.1 <$> m.2) (map (λ e, (e.1, json_of (string_slice e.2))) entries)) = Some js →
  js = map (λ e, (e.1, json_strings e.2)) entries.
Proof.
  revert js. induction entries as [|[k v] entries IH]; intros js; simpl; [by intros [= <-]|].
  intros (x & Hx & (xs & Hxs & [= <-])%bind_Some)%bind_Some. unfold id in Hx. apply fmap_Some in Hx as (y & Hy & ->).
  apply json_string_slice in Hy as ->. f_equal. by apply IH.
Qed.
Lemma json_selections_value selections j : json_of (selections_value selections) = Some j → j = json_selections selections.
Proof.
  unfold selections_value, json_selections, object_of. simpl. unfold object_of. rewrite map_map. simpl. case_match; [|done].
  intros (js & Hjs%collect_entries & [= <-])%bind_Some. rewrite Hjs. f_equal.
  assert (map (λ e : string * list string, (e.1, json_strings e.2)) (map_to_list selections) = prod_map id json_strings <$> map_to_list selections) as ->
    by (apply map_ext; by intros []).
  by rewrite list_to_map_fmap, list_to_map_to_list.
Qed.

Lemma json_strings_inj l l' : json_strings l = json_strings l' → l = l'.
Proof.
  unfold json_strings. intros [= H]. revert l' H. induction l as [|x l IH]; intros [|y l']; simpl; try done. intros [= -> H]. f_equal. by apply IH.
Qed.
Lemma json_selections_inj m m' : json_selections m = json_selections m' → m = m'.
Proof.
  unfold json_selections. intros [= H]. apply map_eq. intros k. apply (f_equal (lookup k)) in H. rewrite !lookup_fmap in H.
  destruct (m !! k), (m' !! k); simpl in *; try done. injection H as H. f_equal. by apply json_strings_inj; unfold json_strings; f_equal.
Qed.

Definition json_tuple (tuple : supportTupleV1) : json :=
  JObject (list_to_map [("context", JString (case_Context tuple)); ("bindings", json_strings (case_Bindings tuple));
                        ("selections", json_selections (case_Selections tuple))]).
Lemma tuple_members {A} (e1 e2 e3 : bool) (v1 v2 v3 : A) :
  collect_fields [(FieldInfo "Context" true "context", (e1, v1)); (FieldInfo "Bindings" true "bindings", (e2, v2));
                  (FieldInfo "Selections" true "selections", (e3, v3))] ∅
  = Ok [("context", v1); ("bindings", v2); ("selections", v3)].
Proof. by vm_compute. Qed.
Lemma collect_three {A} (o1 o2 o3 : option A) l : collect_option [o1; o2; o3] = Some l →
  ∃ x1 x2 x3, o1 = Some x1 ∧ o2 = Some x2 ∧ o3 = Some x3 ∧ l = [x1; x2; x3].
Proof. destruct o1, o2, o3; try done. intros [= <-]. by eexists _, _, _. Qed.
Lemma json_tuple_value tuple j : json_of (tuple_value tuple) = Some j → j = json_tuple tuple.
Proof.
  unfold tuple_value, json_tuple. cbn [json_of map fst snd]. rewrite tuple_members. unfold object_of. case_match; [|done].
  intros (js & (x1 & x2 & x3 & H1 & H2 & H3 & ->)%collect_three & [= <-])%bind_Some. cbn [fst snd] in *.
  apply fmap_Some in H1 as (j1 & H1 & ->), H2 as (j2 & H2%json_string_slice & ->), H3 as (j3 & H3%json_selections_value & ->).
  destruct (valid_utf8 (case_Context tuple)); [|done]. injection H1 as <-. by subst.
Qed.
Definition member (name : string) (j : json) : option json := match j with JObject members => members !! name | _ => None end.
Lemma json_tuple_member tuple :
  member "context" (json_tuple tuple) = Some (JString (case_Context tuple)) ∧
  member "bindings" (json_tuple tuple) = Some (json_strings (case_Bindings tuple)) ∧
  member "selections" (json_tuple tuple) = Some (json_selections (case_Selections tuple)).
Proof.
  unfold json_tuple, member. cbn [list_to_map fst snd foldr uncurry].
  generalize (JString (case_Context tuple)), (json_strings (case_Bindings tuple)), (json_selections (case_Selections tuple)). intros a b c.
  split_and!; by rewrite ?lookup_insert_eq, ?(lookup_insert_ne _ "context"), ?lookup_insert_eq, ?(lookup_insert_ne _ "bindings"), ?lookup_insert_eq.
Qed.
Lemma json_tuple_inj t t' : json_tuple t = json_tuple t' → t = t'.
Proof.
  intros H. destruct (json_tuple_member t) as (H1 & H2 & H3), (json_tuple_member t') as (H1' & H2' & H3').
  rewrite H in H1, H2, H3. rewrite H1 in H1'. rewrite H2 in H2'. rewrite H3 in H3'. clear H H1 H2 H3.
  assert (∀ s s', Some (JString s) = Some (JString s') → s = s') as Hs by (by intros ? ? [= ->]). apply Hs in H1'.
  apply (inj Some), json_strings_inj in H2'. apply (inj Some), json_selections_inj in H3'. destruct t, t'. simpl in *. by subst.
Qed.

Lemma tuple_value_wf tuple : wf_value (tuple_value tuple) = true.
Proof.
  assert (∀ l, forallb wf_value (map Str l) = true) as Hs by (induction l; [done|]; simpl; done).
  unfold tuple_value. simpl. rewrite Hs. simpl. rewrite andb_true_r. apply andb_true_iff. split.
  - apply bool_decide_eq_true. rewrite <-list_fmap_compose. apply NoDup_fst_map_to_list.
  - apply forallb_forall. intros e (e' & <- & _)%in_map_iff. simpl. apply Hs.
Qed.
Lemma tuple_key_inj t t' k : supportTupleKeyV1 t = Ok k → supportTupleKeyV1 t' = Ok k → t = t'.
Proof.
  unfold supportTupleKeyV1. rewrite !wrap_ok.
  intros (j & Hj%json_tuple_value & ->)%marshal_json (j' & Hj'%json_tuple_value & E)%marshal_json; [|apply tuple_value_wf..].
  apply render_inj in E. apply json_tuple_inj. congruence.
Qed.

(** ** The union of reference lists *)

Definition by_id (l r : RecordReferenceV1) : Prop := string_lt (ref_ID l) (ref_ID r).
#[export] Instance by_id_trans : Transitive by_id.
Proof. intros x y z. unfold by_id. apply transitivity. Qed.
Definition sorted_references (l : list RecordReferenceV1) : Prop := StronglySorted by_id l.
Definition one_identity (l : list RecordReferenceV1) : Prop := ∀ r r', r ∈ l → r' ∈ l → ref_ID r = ref_ID r' → r = r'.

Lemma sorted_references_nodup l : sorted_references l → NoDup l.
Proof.
  induction 1 as [|r l Hs IH Hf]; constructor; [|done]. intros Hin. rewrite Forall_forall in Hf.
  apply Hf in Hin. by apply (irreflexivity string_lt) in Hin.
Qed.
Lemma sorted_references_unique l l' : sorted_references l → sorted_references l' → (∀ r, r ∈ l ↔ r ∈ l') → l = l'.
Proof.
  intros Hs Hs' Hin. eapply StronglySorted_unique_strong; [|exact Hs|exact Hs'|].
  - intros x y _ _ H1 H2. exfalso. apply (irreflexivity string_lt (ref_ID x)). by etrans.
  - apply NoDup_Permutation; [by apply sorted_references_nodup..|done].
Qed.

Definition tabulates (l : list RecordReferenceV1) (m : gmap string RecordReferenceV1) : Prop :=
  one_identity l ∧ ∀ id r, m !! id = Some r ↔ r ∈ l ∧ ref_ID r = id.
Lemma union_step done_ r m m' : tabulates done_ m → exact_union_step m r = Ok m' → tabulates (done_ ++ [r]) m'.
Proof.
  intros [Ho Hm]. unfold exact_union_step. intros [Hc [= <-]]%reject_if_bind.
  assert (∀ q, q ∈ done_ → ref_ID q = ref_ID r → q = r) as Hr.
  { intros q Hq Hi. assert (m !! ref_ID r = Some q) as E by (by apply Hm). rewrite E in Hc. by go_bool. }
  split.
  - intros q q' [Hq| ->%list_elem_of_singleton]%elem_of_app [Hq'| ->%list_elem_of_singleton]%elem_of_app Hi; [by apply Ho|by apply Hr|by rewrite (Hr q')|done].
  - intros id q. rewrite elem_of_app, list_elem_of_singleton. destruct (decide (id = ref_ID r)) as [->|Hid].
    + rewrite lookup_insert_eq. split; [intros [= <-]; tauto|]. intros [[Hq| ->] Hi]; [|done]. by rewrite (Hr q).
    + rewrite lookup_insert_ne by done. rewrite Hm. naive_solver.
Qed.
Lemma union_total l : one_identity l → ∃ m, carry exact_union_step ∅ l = Ok m.
Proof.
  intros Ho. apply (carry_total _ tabulates); [|split; [by intros ? ? ?%elem_of_nil|]].
  - intros done_ r m [rest ->] [Hd Hm]. unfold exact_union_step.
    destruct (m !! ref_ID r) as [q|] eqn:Hq; simpl.
    + apply Hm in Hq as [Hin Hi]. rewrite (Ho q r) by (done || set_solver). rewrite bool_decide_true by done. simpl. eexists. split; [done|].
      apply (union_step _ _ m); [done|]. unfold exact_union_step. apply reject_if_bind. split; [|done].
      case_match eqn:E; [|done]. apply Hm in E as [Hin' Hi']. rewrite (Ho r0 r); [by rewrite bool_decide_true|set_solver|set_solver|done].
    + eexists. split; [done|]. apply (union_step _ _ m); [done|]. unfold exact_union_step. by rewrite Hq.
  - intros id r. rewrite lookup_empty, elem_of_nil. naive_solver.
Qed.

Lemma sorted_keys_strict {V} (m : gmap string V) : StronglySorted string_lt (merge_sort String.le (map fst (map_to_list m))).
Proof.
  assert (NoDup (merge_sort String.le (map fst (map_to_list m)))) as Hn by (rewrite merge_sort_Permutation; apply NoDup_fst_map_to_list).
  pose proof (StronglySorted_merge_sort String.le (map fst (map_to_list m))) as Hs. revert Hn.
  induction Hs as [|x l _ IH Hf]; intros Hn; constructor; apply NoDup_cons in Hn as [Hx Hn]; [by apply IH|].
  rewrite Forall_forall in *. intros y Hy. apply string_lt_le. split; [by apply Hf|]. by intros ->.
Qed.
Lemma omap_sorted_references (m : gmap string RecordReferenceV1) keys : (∀ id r, m !! id = Some r → ref_ID r = id) →
  StronglySorted string_lt keys → sorted_references (omap (λ id, m !! id) keys).
Proof.
  intros Hm. induction 1 as [|k keys _ IH Hf]; simpl; [constructor|]. destruct (m !! k) as [r|] eqn:Hr; [|done]. constructor; [done|].
  rewrite Forall_forall. intros q (k' & Hk' & Hq)%list_elem_of_omap. unfold by_id. apply Hm in Hr, Hq. subst.
  rewrite Forall_forall in Hf. by apply Hf.
Qed.

Lemma exact_union groups l : exactReferenceUnionV1 groups = Ok l →
  one_identity (concat groups) ∧ sorted_references l ∧ ∀ r, r ∈ l ↔ r ∈ concat groups.
Proof.
  unfold exactReferenceUnionV1. intros (m & Hm & [= <-])%bind_ok.
  assert (tabulates (concat groups) m) as [Ho Ht].
  { eapply (carry_invariant _ tabulates); [intros ? ? ? ?; apply union_step| |done].
    split; [by intros ? ? ?%elem_of_nil|]. intros id r. rewrite lookup_empty, elem_of_nil. naive_solver. }
  split_and!; [done|apply omap_sorted_references; [by intros id r [_ ?]%Ht|apply sorted_keys_strict]|].
  intros r. rewrite list_elem_of_omap. split; [by intros (id & _ & [? _]%Ht)|]. intros Hr. exists (ref_ID r). split; [|by apply Ht].
  rewrite merge_sort_Permutation, list_elem_of_fmap. exists (ref_ID r, r). split; [done|]. apply elem_of_map_to_list. by apply Ht.
Qed.
Lemma exact_union_total groups : one_identity (concat groups) → ∃ l, exactReferenceUnionV1 groups = Ok l.
Proof. intros [m Hm]%union_total. unfold exactReferenceUnionV1. rewrite Hm. by eexists. Qed.
(** The union of a sorted list is the list. *)
Lemma exact_union_sorted l l' : sorted_references l → exactReferenceUnionV1 [l] = Ok l' → l' = l.
Proof.
  intros Hs (_ & Hs' & Hin)%exact_union. apply sorted_references_unique; [done..|]. intros r. rewrite Hin. simpl. by rewrite app_nil_r.
Qed.
