(* ===== verification/RecordValidate.v ===== *)
(** * The records of a release, on their own

    [internal/portabletool/record_validate.go]: what every manifest, binding
    contract, binding artifact, payload, artifact source, package set and
    validation profile satisfies, and the names and platforms of wheels.

    The code checks a record after a round trip through its canonical object,
    which gives the record back; the validators here take the record.  A nil
    slice, which the validators refuse, has no counterpart in a list.  Parsing
    a URL is [net/url]'s part of [CanonicalSourceURLV1], an argument. *)

From Stdlib Require Import Ascii.
From S2P Require Import Prelude GoText Identifiers PythonClaim PythonVersion Canonical AptRequest ToolRecords ToolCatalog ToolVersions PythonRoots ToolSupport.

Open Scope Z_scope.

(** ** Texts *)

Definition portableToolCatalogMaxReferencesV1 : nat := 1024.
Definition validatePortableRecordIdentifier (value : string) : bool := validRecordIdentifierV1 value.
Definition validPortableRecordSegment (value : string) : bool := validRecordIdentifierV1 value.
Definition containsPortableControl (value : string) : bool := containsControlV1 value.
Definition encodePortableToolVersionSegment (value : string) : result string := encodeToolVersionSegmentV1 value.
Definition validatePortableToolVersionSegment (value : string) : bool := is_ok (decodeToolVersionSegmentV1 value).

Definition segments_of (id : string) : list string := split_byte id "/"%char.
Definition segment (segments : list string) (index : nat) : string := default "" (segments !! index).
Definition prefix_of (segments : list string) (count : nat) : string := join (take count segments) "/".
Definition replace_slashes (value : string) : string :=
  String.string_of_list_ascii (map (λ c, if bool_decide (c = "/"%char) then "-"%char else c) (bytes value)).
(** [path.Dir]. *)
Definition path_dir (value : string) : string :=
  match cut_last value "/"%char with Some (directory, _) => path_clean (directory +:+ "/") | None => "." end.

Definition validatePortableRecordID (value : string) : result unit :=
  _ ← reject_if (bool_decide (value = "") || negb (bool_decide (trim_space value = value)) || negb (has_prefix value "tool:"))
        "record ID must be a canonical tool-qualified ID";
  _ ← check_id_chars (bytes value);
  let segments := segments_of value in
  _ ← reject_if (negb (validPortableRecordSegment (trim_prefix (segment segments 0) "tool:"))) "record ID has an invalid tool name";
  _ ← check_id_segments 0 segments;
  _ ← reject_if ((length segments <? 4)%nat || negb (bool_decide (segment segments 1 = "releases")))
        "record ID must use a tool release namespace";
  reject_if (negb (validatePortableToolVersionSegment (segment segments 2))) "record ID version segment".
Definition validatePortableToolRecordReferenceV1 (reference : RecordReferenceV1) : result unit :=
  _ ← validatePortableRecordID (ref_ID reference);
  wrap (ValidateDigest (ref_Digest reference)) "portable tool record digest".
Definition check_portable_reference (previous : option RecordReferenceV1) (reference : RecordReferenceV1) : result unit :=
  _ ← validatePortableToolRecordReferenceV1 reference;
  reject_if (match previous with Some p => string_geb (ref_ID p) (ref_ID reference) | None => false end) "must be unique and sorted by ID".
Definition validatePortableToolCatalogReferenceListV1 (references : list RecordReferenceV1) : result unit :=
  _ ← reject_if (portableToolCatalogMaxReferencesV1 <? length references)%nat "must use an array with at most 1024 entries";
  check_each check_portable_reference None references.

Definition validatePortableToolCatalogDecimalV1 (value : string) (positive : bool) : result unit :=
  _ ← reject_if (bool_decide (value = "") || (1 <? len value) && has_prefix value "0") "must be a canonical decimal string";
  _ ← reject_if (negb (forallb is_digit (bytes value))) "must be a canonical decimal string";
  match parse_uint value 63 with
  | Some parsed => reject_if (positive && (parsed =? 0)) "must be a bounded positive decimal string"
  | None => Err "must be a bounded positive decimal string"
  end.
Definition check_portable_string (previous : option string) (value : string) : result unit :=
  reject_if (bool_decide (value = "") || negb (bool_decide (trim_space value = value)) || containsPortableControl value
             || match previous with Some p => string_geb p value | None => false end)
    "must contain unique sorted canonical values".
Definition validatePortableToolCatalogSortedStringsV1 (values : list string) (nonempty : bool) : result unit :=
  _ ← reject_if (portableToolCatalogMaxReferencesV1 <? length values)%nat "must use at most 1024 entries";
  _ ← reject_if (nonempty && bool_decide (length values = 0%nat)) "must not be empty";
  check_each check_portable_string None values.

Definition validatePortableToolCatalogPathV1 (value : string) (allowDot : bool) : result unit :=
  if bool_decide (value = ".") && allowDot then Ok tt else
  _ ← reject_if (bool_decide (value = "") || containsPortableControl value || path_is_abs value
                 || negb (bool_decide (path_clean value = value)) || contains_byte value backslash)
        "path must be a canonical relative slash path";
  reject_if (existsb invalid_path_segment (split_byte value "/"%char)) "path contains an invalid segment".
Definition validatePortableToolCatalogAbsolutePathV1 (value : string) : result unit :=
  reject_if (bool_decide (value = "") || containsPortableControl value || negb (path_is_abs value)
             || negb (bool_decide (path_clean value = value)) || bool_decide (value = "/") || contains_byte value backslash)
    "path must be a canonical absolute non-root slash path".

Definition name_tail (extra : list ascii) (c : ascii) : bool := is_lower c || is_digit c || existsb (λ d, bool_decide (c = d)) extra.
Definition portableToolCatalogPackageNameV1 (value : string) : bool :=
  match bytes value with c :: rest => is_lower c && forallb (name_tail ["."; "-"; "_"]%char) rest | [] => false end.
Definition portableToolCatalogRecordSegmentV1 (value : string) : bool :=
  negb (bool_decide (value = "") || bool_decide (value = ".") || bool_decide (value = "..")
        || negb (bool_decide (trim_space value = value)) || containsPortableControl value)
  && forallb (name_tail ["."; "+"; "-"]%char) (bytes value).
Definition portableToolCatalogPlatformV1 (value : string) : bool := bool_decide (value = "linux/amd64") || bool_decide (value = "linux/arm64").
Definition portableToolCatalogPlatformLeafV1 (value : string) : bool := bool_decide (value = "linux-amd64") || bool_decide (value = "linux-arm64").
Definition portableToolCatalogPayloadKindV1 (value : string) : bool :=
  bool_decide (value = "jdk-archive") || bool_decide (value = "playwright-browser-archive") || bool_decide (value = "raw-executable").
Definition portableToolCatalogPayloadLeafV1 (value : string) : bool :=
  match cut_last value "-"%char with
  | Some (before, architecture) =>
    match cut_last before "-"%char with
    | Some (name, os) => validatePortableRecordIdentifier name && portableToolCatalogPlatformLeafV1 (os +:+ "-" +:+ architecture)
    | None => false
    end
  | None => false
  end.

(** ** Wheels *)

Definition portableToolCatalogWheelTagComponentV1 (value : string) : bool :=
  negb (bool_decide (value = "")) && forallb (name_tail ["_"%char]) (bytes value).
Definition ValidateWheelTagV1 (tag : string) : result unit :=
  let components := split_byte tag "-"%char in
  _ ← reject_if (negb (length components =? 3)%nat) "wheel tag must contain exactly three hyphen-separated components";
  reject_if (negb (forallb portableToolCatalogWheelTagComponentV1 components)) "wheel tag component is not canonical".
Definition replace_dashes (value : string) : string :=
  String.string_of_list_ascii (map (λ c, if bool_decide (c = "-"%char) then "_"%char else c) (bytes value)).
Definition portableToolCatalogWheelDistributionV1 (value : string) : bool :=
  match bytes value with
  | [] => false
  | c :: _ => negb (bool_decide (c = "_"%char)) && forallb (name_tail ["_"%char]) (bytes value)
              && bool_decide (replace_dashes (portableToolPythonNormalizeDistributionNameV1 value) = value)
  end.
Definition portableToolCatalogWheelBuildTagV1 (value : string) : bool :=
  match bytes value with c :: rest => is_digit c && forallb (λ d, is_upper d || is_lower d || is_digit d) rest | [] => false end.

Record WheelPlatformProjectionV1 := WheelPlatform { Kind : string; Architecture : string; MinimumGlibcMajor : string; MinimumGlibcMinor : string }.
Definition WheelPlatformAnyV1 : string := "any".
Definition WheelPlatformLinuxV1 : string := "linux".
Definition WheelPlatformManylinuxV1 : string := "manylinux".
Definition manylinux (architecture major minor : string) : WheelPlatformProjectionV1 :=
  WheelPlatform WheelPlatformManylinuxV1 architecture major minor.
Definition wheel_policy (architecture policy : string) : result WheelPlatformProjectionV1 :=
  let only_x86 (projection : WheelPlatformProjectionV1) :=
    _ ← reject_if (negb (bool_decide (architecture = "x86_64"))) "wheel platform is unsupported on the architecture"; Ok projection in
  if bool_decide (policy = "linux") then Ok (WheelPlatform WheelPlatformLinuxV1 architecture "" "")
  else if bool_decide (policy = "manylinux1") then only_x86 (manylinux architecture "2" "5")
  else if bool_decide (policy = "manylinux2010") then only_x86 (manylinux architecture "2" "12")
  else if bool_decide (policy = "manylinux2014") then Ok (manylinux architecture "2" "17")
  else match cut_prefix policy "manylinux_" with
       | None => Err "wheel platform uses an unsupported policy"
       | Some version =>
         match split_byte version "_"%char with
         | [major; minor] =>
           _ ← reject_if (negb (is_ok (validatePortableToolCatalogDecimalV1 major false)) || negb (is_ok (validatePortableToolCatalogDecimalV1 minor false)))
                 "wheel platform has an invalid manylinux version";
           _ ← reject_if (negb (bool_decide (major = "2"))) "wheel platform uses unsupported manylinux major";
           let minimum := if bool_decide (architecture = "aarch64") then 17 else 5 in
           _ ← reject_if (default 0 (parse_uint minor 63) <? minimum) "wheel platform is below the architecture floor";
           Ok (manylinux architecture major minor)
         | _ => Err "wheel platform has an invalid manylinux version"
         end
       end.
Definition ProjectWheelPlatformV1 (tag : string) : result WheelPlatformProjectionV1 :=
  if bool_decide (tag = "any") then Ok (WheelPlatform WheelPlatformAnyV1 "" "" "")
  else if has_suffix tag "_x86_64" then wheel_policy "x86_64" (trim_suffix tag "_x86_64")
  else if has_suffix tag "_aarch64" then wheel_policy "aarch64" (trim_suffix tag "_aarch64")
  else Err "wheel platform has an unsupported architecture".
Definition ProjectWheelPlatformForTargetV1 (tag target : string) : result WheelPlatformProjectionV1 :=
  projection ← ProjectWheelPlatformV1 tag;
  architecture ← (if bool_decide (target = "linux/amd64") then Ok "x86_64"
                  else if bool_decide (target = "linux/arm64") then Ok "aarch64" else Err "wheel target is unsupported");
  if bool_decide (Kind projection = WheelPlatformAnyV1) then Ok projection
  else
    _ ← reject_if (negb (bool_decide (Architecture projection = architecture))) "wheel platform does not match target";
    Ok projection.
Definition check_wheel_tag (platform tag : string) : result unit :=
  _ ← wrap (ValidateWheelTagV1 tag) "binding artifact wheel tag is invalid";
  _ ← wrap (ProjectWheelPlatformForTargetV1 (segment (split_byte tag "-"%char) 2) platform) "wheel tag is incompatible with platform";
  Ok tt.
Definition ValidateBindingWheelTagsForPlatformV1 (tags : list string) (platform : string) : result unit :=
  _ ← reject_if (negb (portableToolCatalogPlatformV1 platform)) "binding artifact platform is unsupported";
  for_each (check_wheel_tag platform) tags.

Section schemes.
Context {schemes : VersionSchemes}.

Record WheelFilenameProjectionV1 := WheelFilename { wheel_Distribution : string; wheel_EcosystemVersion : string; wheel_Tags : list string }.
(** The product of the groups is bounded before it is built. *)
Fixpoint check_groups (count : nat) (groups : list (list string)) : result unit :=
  match groups with
  | [] => Ok tt
  | group :: rest =>
    _ ← reject_if (bool_decide (length group = 0%nat) || (portableToolCatalogMaxReferencesV1 / count <? length group)%nat)
          "wheel filename expands to more than 1024 compatibility tags";
    _ ← reject_if (negb (forallb portableToolCatalogWheelTagComponentV1 group)) "wheel filename contains an invalid compatibility tag";
    check_groups (count * length group) rest
  end.
Definition expand_tags (pythonTags abiTags platformTags : list string) : list string :=
  pythonTag ← pythonTags; abiTag ← abiTags; platformTag ← platformTags; [pythonTag +:+ "-" +:+ abiTag +:+ "-" +:+ platformTag].
Definition check_unique (previous : option string) (tag : string) : result unit :=
  reject_if (bool_decide (previous = Some tag)) "wheel filename compatibility tags must be unique".
Definition project_parts (distribution version : string) (build : option string) (python abi platform : string) : result WheelFilenameProjectionV1 :=
  _ ← reject_if (negb (portableToolCatalogWheelDistributionV1 distribution)) "wheel filename contains an invalid distribution or version";
  _ ← reject_if (match @Parse pep440 version with Some parsed => negb (bool_decide (VersionString parsed = version)) | None => true end)
        "wheel filename contains an invalid distribution or version";
  _ ← reject_if (match build with Some tag => negb (portableToolCatalogWheelBuildTagV1 tag) | None => false end)
        "wheel filename contains an invalid build tag";
  let pythonTags := split_byte python "."%char in
  let abiTags := split_byte abi "."%char in
  let platformTags := split_byte platform "."%char in
  _ ← check_groups 1 [pythonTags; abiTags; platformTags];
  let tags := expand_tags pythonTags abiTags platformTags in
  _ ← for_each (λ tag, wrap (ValidateWheelTagV1 tag) "wheel filename contains an invalid compatibility tag") tags;
  let sorted := merge_sort String.le tags in
  _ ← check_each check_unique None sorted;
  Ok (WheelFilename (portableToolPythonNormalizeDistributionNameV1 distribution) version sorted).
Definition ProjectWheelFilenameV1 (filename : string) : result WheelFilenameProjectionV1 :=
  _ ← reject_if (negb (has_suffix filename ".whl")) "wheel filename must end in .whl";
  match split_byte (trim_suffix filename ".whl") "-"%char with
  | [distribution; version; python; abi; platform] => project_parts distribution version None python abi platform
  | [distribution; version; build; python; abi; platform] => project_parts distribution version (Some build) python abi platform
  | _ => Err "wheel filename must contain distribution, version, Python, ABI, and platform tags"
  end.

Definition ValidatePythonRequiresPythonV1 (value : string) : result unit :=
  let refuse (condition : bool) := reject_if condition "requires_python must be a canonical PEP 440 specifier set" in
  _ ← refuse (contains_byte value "|"%char);
  _ ← refuse (negb (forallb (λ raw, bool_decide (is_Some (portableToolPythonSplitVersionSpecifierV1 raw))) (split_byte value ","%char)));
  refuse (bool_decide (value = "") || negb (canonical_specifiers value)).

Definition portableToolCatalogStringsEqualV1 (left right : list string) : bool := bool_decide (left = right).
Definition validatePortableToolCatalogBindingCompatibilityV1 (record : BindingArtifactRecordV1) : result WheelFilenameProjectionV1 :=
  _ ← validatePortableToolCatalogSortedStringsV1 (Tags record) true;
  filename ← wrap (ProjectWheelFilenameV1 (Filename record)) "binding artifact filename";
  _ ← reject_if (negb (portableToolCatalogStringsEqualV1 (wheel_Tags filename) (Tags record)))
        "binding artifact tags must exactly match the expanded wheel filename tags";
  _ ← ValidateBindingWheelTagsForPlatformV1 (Tags record) (ba_Platform record);
  _ ← ValidatePythonRequiresPythonV1 (RequiresPython record);
  Ok filename.

(** ** Binding contracts and artifacts *)

Definition ValidateBindingCLIExportV1 (export : ToolExportV1) : result unit :=
  reject_if (negb (validatePortableRecordIdentifier (export_Name export)) || negb (is_ok (validatePortableToolCatalogAbsolutePathV1 (export_Path export))))
    "binding CLI must use a canonical name and absolute path".

Fixpoint check_claims (previous : option (list Z)) (values : list string) : result unit :=
  match values with
  | [] => Ok tt
  | value :: rest =>
    _ ← wrap (ValidatePythonInterpreterVersionV1 value) "supported Python version";
    match portableToolPythonParseReleaseVersionV1 value with
    | None => Err "supported Python version is not canonical"
    | Some current =>
      _ ← reject_if (match previous with
                     | Some p => (0 <=? portableToolPythonCompareReleaseVersionsV1 p current)
                                 || bool_decide (length p = 2%nat) && bool_decide (take 2 p = take 2 current)
                     | None => false
                     end) "supported Python must contain numerically sorted normalized claims";
      check_claims (Some current) rest
    end
  end.
Definition validatePortableToolSupportedPythonClaimsV1 (values : list string) : result unit :=
  _ ← reject_if (bool_decide (length values = 0%nat)) "supported Python must not be empty";
  _ ← reject_if (portableToolCatalogMaxReferencesV1 <? length values)%nat "supported Python must use at most 1024 entries";
  check_claims None values.

Definition check_bundled_component (previous : option BundledComponentV1) (component : BundledComponentV1) : result unit :=
  reject_if (negb (validatePortableRecordIdentifier (bundled_Name component)) || negb (portableToolCatalogRecordSegmentV1 (bundled_Version component))
             || negb (is_ok (validatePortableToolCatalogPathV1 (bundled_Path component) false))
             || match previous with Some p => string_geb (bundled_Name p) (bundled_Name component) | None => false end)
    "bundled components must be complete, unique, and sorted".
Definition check_components (components : list BundledComponentV1) : result unit :=
  _ ← reject_if (portableToolCatalogMaxReferencesV1 <? length components)%nat "bundled components must use a bounded array";
  check_each check_bundled_component None components.

Definition check_schema (actual schema : string) : result unit := reject_if (negb (bool_decide (actual = schema))) "catalog record schema".

Definition validatePortableToolCatalogBindingContractV1 (record : BindingContractV1) : result unit :=
  _ ← check_schema (bc_Schema record) BindingContractSchemaV1;
  _ ← reject_if (negb (validatePortableRecordIdentifier (bc_Name record)) || negb (portableToolCatalogPackageNameV1 (bc_Package record)))
        "binding contract is incomplete";
  let segments := segments_of (bc_ID record) in
  _ ← reject_if (negb (length segments =? 6)%nat || negb (bool_decide (segment segments 1 = "releases"))
                 || negb (bool_decide (segment segments 3 = "bindings")) || negb (bool_decide (segment segments 4 = bc_Name record))
                 || negb (bool_decide (segment segments 5 = "contract")) || negb (validatePortableToolVersionSegment (segment segments 2)))
        "binding contract ID must use its release binding namespace";
  _ ← ValidateBindingCLIExportV1 (CLI record);
  _ ← validatePortableToolCatalogSortedStringsV1 (bc_Requirements record) true;
  _ ← wrap (ValidatePythonPackageRootRequirementsV1 (bc_Requirements record)) "binding requirements";
  _ ← validatePortableToolSupportedPythonClaimsV1 (SupportedPython record);
  _ ← check_components (bc_BundledComponents record);
  _ ← validatePortableToolCatalogSortedStringsV1 (SupportedTags record) true;
  for_each (λ tag, wrap (ValidateWheelTagV1 tag) "binding supported tag") (SupportedTags record).

Definition validatePortableToolCatalogBindingArtifactV1 (record : BindingArtifactRecordV1) : result unit :=
  _ ← check_schema (ba_Schema record) BindingArtifactSchemaV1;
  _ ← reject_if (negb (validatePortableRecordIdentifier (ba_Binding record)) || negb (portableToolCatalogPlatformV1 (ba_Platform record))
                 || negb (is_ok (validatePortableToolCatalogPathV1 (Filename record) false)) || negb (bool_decide (path_dir (Filename record) = ".")))
        "binding artifact identity is incomplete";
  let segments := segments_of (ba_ID record) in
  _ ← reject_if (negb (length segments =? 7)%nat || negb (bool_decide (segment segments 1 = "releases"))
                 || negb (bool_decide (segment segments 3 = "bindings")) || negb (bool_decide (segment segments 4 = ba_Binding record))
                 || negb (bool_decide (segment segments 5 = "artifacts")) || negb (bool_decide (segment segments 6 = replace_slashes (ba_Platform record)))
                 || negb (validatePortableToolVersionSegment (segment segments 2)))
        "binding artifact ID must match binding and platform in a release namespace";
  _ ← reject_if (negb (bool_decide (ba_Resolver record = "https-sha256"))) "binding artifact resolver is unsupported";
  _ ← reject_if (negb (validatePortableRecordIdentifier (ba_Name record)) || negb (portableToolCatalogRecordSegmentV1 (EcosystemVersion record)))
        "binding artifact component name and ecosystem version must be canonical";
  _ ← wrap (validatePortableToolRecordReferenceV1 (ba_Contract record)) "binding artifact contract";
  _ ← reject_if (negb (bool_decide (ref_ID (ba_Contract record) = prefix_of segments 5 +:+ "/contract"))) "binding artifact contract reference";
  filename ← validatePortableToolCatalogBindingCompatibilityV1 record;
  _ ← reject_if (negb (bool_decide (wheel_Distribution filename = portableToolPythonNormalizeDistributionNameV1 (ba_Name record)))
                 || negb (bool_decide (wheel_EcosystemVersion filename = EcosystemVersion record)))
        "binding artifact name and ecosystem version must match the wheel filename";
  _ ← validatePortableToolCatalogDecimalV1 (ba_Size record) true;
  _ ← wrap (ValidateDigest (ba_SHA256 record)) "binding artifact digest";
  check_components (ba_BundledComponents record).

(** ** Payloads and package sets *)

Definition PayloadSymbolicLinkPolicyRejectV1 : string := "reject".
Definition PayloadSymbolicLinkPolicyMaterializeRegularTargetV1 : string := "materialize-regular-target".
Definition check_executable (archiveRoot executable : string) : result unit :=
  _ ← wrap (validatePortableToolCatalogPathV1 executable false) "payload executable";
  reject_if (negb (bool_decide (archiveRoot = ".")) && negb (bool_decide (executable = archiveRoot))
             && negb (has_prefix executable (archiveRoot +:+ "/"))) "payload executable is outside archive root".
Definition check_link_policy (policy logicalPath : string) : result unit :=
  if bool_decide (policy = PayloadSymbolicLinkPolicyRejectV1) then Ok tt
  else if bool_decide (policy = PayloadSymbolicLinkPolicyMaterializeRegularTargetV1) then
    reject_if (negb (has_suffix logicalPath ".tar.gz") && negb (has_suffix logicalPath ".tgz")) "payload symbolic-link policy requires a tar.gz payload"
  else Err "payload symbolic-link policy is unsupported".
Definition validatePortableToolCatalogPayloadV1 (record : PayloadRecordV1) : result unit :=
  _ ← check_schema (payload_Schema record) PayloadRecordSchemaV1;
  _ ← reject_if (negb (validatePortableRecordIdentifier (payload_Name record)) || negb (portableToolCatalogRecordSegmentV1 (payload_Revision record))
                 || negb (portableToolCatalogRecordSegmentV1 (UpstreamVersion record)) || negb (portableToolCatalogPlatformV1 (payload_Platform record))
                 || negb (portableToolCatalogPayloadKindV1 (payload_Kind record))) "payload identity is incomplete";
  let segments := segments_of (payload_ID record) in
  let expectedLeaf := payload_Name record +:+ "-" +:+ replace_slashes (payload_Platform record) in
  let inNamespace := bool_decide (segment segments 1 = "releases") && bool_decide (segment segments 3 = "payloads") in
  let validID := (length segments =? 5)%nat && inNamespace && bool_decide (segment segments 4 = expectedLeaf) in
  let validScopedID := (length segments =? 6)%nat && inNamespace && validPortableRecordSegment (segment segments 4)
                       && bool_decide (segment segments 5 = expectedLeaf) in
  _ ← reject_if (negb validID && negb validScopedID) "payload ID must use its canonical release payload namespace";
  _ ← reject_if (negb (validatePortableToolVersionSegment (segment segments 2))) "payload ID must use its canonical release payload namespace";
  _ ← reject_if (negb (bool_decide (payload_Resolver record = "https-sha256"))) "payload resolver is unsupported";
  _ ← wrap (validatePortableToolCatalogPathV1 (LogicalPath record) false) "payload logical path";
  _ ← for_each (λ decimal, validatePortableToolCatalogDecimalV1 decimal true) [payload_Size record; Entries record; UnpackedSize record];
  _ ← wrap (ValidateDigest (payload_SHA256 record)) "payload digest";
  _ ← wrap (validatePortableToolCatalogPathV1 (InstallDirectory record) false) "payload install directory";
  _ ← wrap (validatePortableToolCatalogPathV1 (ArchiveRoot record) true) "payload archive root";
  _ ← check_link_policy (SymbolicLinkPolicy record) (LogicalPath record);
  _ ← validatePortableToolCatalogSortedStringsV1 (payload_Executables record) true;
  _ ← for_each (check_executable (ArchiveRoot record)) (payload_Executables record);
  _ ← reject_if (negb (bool_decide (path_dir (InstallDirectory record) = "."))) "payload paths are inconsistent";
  reject_if (bool_decide (payload_Kind record = "raw-executable")
             && (negb (bool_decide (Entries record = "1")) || negb (bool_decide (UnpackedSize record = payload_Size record))
                 || negb (bool_decide (ArchiveRoot record = ".")) || negb (length (payload_Executables record) =? 1)%nat))
    "raw executable payload inventory is inconsistent".

Definition add_package (names : gset string) (requirement : string) : result (gset string) :=
  parsed ← wrap (ParseAPTPackageRequest requirement) "native package requirement";
  _ ← reject_if (bool_decide (apt_Name parsed ∈ names)) "native package requirements name the same package";
  Ok ({[apt_Name parsed]} ∪ names).
Definition validatePortableToolCatalogPackageSetV1 (record : NativePackageSetV1) : result unit :=
  _ ← check_schema (ps_Schema record) NativePackageSetSchemaV1;
  let segments := segments_of (ps_ID record) in
  _ ← reject_if (negb (bool_decide (Manager record = "apt"))) "native package-set identity is incomplete";
  _ ← reject_if (negb (length segments =? 5)%nat || negb (bool_decide (segment segments 1 = "releases"))
                 || negb (bool_decide (segment segments 3 = "package-sets")) || negb (validPortableRecordSegment (segment segments 4))
                 || negb (validatePortableToolVersionSegment (segment segments 2)))
        "native package-set ID must use a release package-set namespace";
  _ ← validatePortableToolCatalogSortedStringsV1 (ps_Requirements record) true;
  _ ← validatePortableToolCatalogSortedStringsV1 (Repositories record) false;
  _ ← validatePortableToolCatalogSortedStringsV1 (ValidationMetadata record) false;
  _ ← carry add_package ∅ (ps_Requirements record);
  Ok tt.

(** ** Validation profiles *)

Definition validatePortableToolCatalogProbeV1 (probe : RecordProbeV1) : result unit :=
  _ ← reject_if (bool_decide (probe_Path probe = "") || containsPortableControl (probe_Path probe) || negb (path_is_abs (probe_Path probe))
                 || negb (bool_decide (path_clean (probe_Path probe) = probe_Path probe)) || bool_decide (probe_Path probe = "/")
                 || contains_byte (probe_Path probe) backslash || (portableToolCatalogMaxReferencesV1 <? length (probe_Args probe))%nat)
        "probe must use an absolute path and bounded argument array";
  reject_if (existsb containsPortableControl (probe_Args probe)) "probe arguments must not contain control characters".
Definition probe_value (probe : RecordProbeV1) : goValue :=
  Struct [(FieldInfo "Path" true "path", Str (probe_Path probe)); (FieldInfo "Args" true "args", string_slice (probe_Args probe))].
(** [bytes.Compare(previous, key) >= 0]. *)
Definition bytes_geb (previous key : list ascii) : bool := string_geb (String.string_of_list_ascii previous) (String.string_of_list_ascii key).
Fixpoint check_probes (previous : option (list ascii)) (probes : list RecordProbeV1) : result unit :=
  match probes with
  | [] => Ok tt
  | probe :: rest =>
    _ ← wrap (validatePortableToolCatalogProbeV1 probe) "validation profile probes";
    key ← wrap (Marshal (probe_value probe)) "validation profile probes canonical form";
    _ ← reject_if (match previous with Some p => bytes_geb p key | None => false end) "validation profile probes must be unique and sorted";
    check_probes (Some key) rest
  end.
Definition validatePortableToolCatalogValidationProfileV1 (record : ValidationProfileRecordV1) : result unit :=
  _ ← check_schema (profile_Schema record) ValidationProfileSchemaV1;
  _ ← reject_if (negb (validatePortableRecordIdentifier (profile_Tool record))) "validation profile identity is inconsistent";
  versionSegment ← wrap (encodePortableToolVersionSegment (profile_Version record)) "validation profile version";
  let prefix := "tool:" +:+ profile_Tool record +:+ "/releases/" +:+ versionSegment +:+ "/validation/profiles/" in
  _ ← reject_if (negb (has_prefix (profile_ID record) prefix) || negb (validPortableRecordSegment (trim_prefix (profile_ID record) prefix)))
        "validation profile ID must use a canonical name beneath its release";
  _ ← reject_if (bool_decide (length (Probes record) = 0%nat) || (portableToolCatalogMaxReferencesV1 <? length (Probes record))%nat)
        "validation profile probes must use a nonempty bounded array";
  check_probes None (Probes record).

(** ** References of a manifest *)

Definition check_profile_reference (releasePrefix : string) (reference : RecordReferenceV1) : result unit :=
  let segments := segments_of (ref_ID reference) in
  reject_if (negb (length segments =? 6)%nat || negb (bool_decide (prefix_of segments 3 = releasePrefix))
             || negb (bool_decide (segment segments 3 = "validation")) || negb (bool_decide (segment segments 4 = "profiles"))
             || negb (validatePortableRecordIdentifier (segment segments 5))) "must name a validation profile of the release".
Definition validatePortableToolCatalogProfileReferenceListV1 (references : list RecordReferenceV1) (releasePrefix : string) (allowEmpty : bool)
    : result unit :=
  _ ← validatePortableToolCatalogReferenceListV1 references;
  _ ← reject_if (negb allowEmpty && bool_decide (length references = 0%nat)) "must not be empty";
  for_each (check_profile_reference releasePrefix) references.
Definition validatePortableToolCatalogTargetReferenceV1 (reference : RecordReferenceV1) (releasePrefix : string) : result unit :=
  let segments := segments_of (ref_ID reference) in
  let valid := (length segments =? 7)%nat && bool_decide (prefix_of segments 3 = releasePrefix) && bool_decide (segment segments 3 = "targets")
    && validatePortableRecordIdentifier (segment segments 4) && portableToolCatalogRecordSegmentV1 (segment segments 5)
    && (bool_decide (segment segments 6 = "amd64") || bool_decide (segment segments 6 = "arm64")) in
  reject_if (negb valid) "release target must name a target record".
Definition validatePortableToolCatalogArtifactTargetReferenceV1 (reference : RecordReferenceV1) (releasePrefix : string) : result unit :=
  let segments := segments_of (ref_ID reference) in
  let payload := bool_decide (segment segments 3 = "payloads") in
  let valid := (5 <=? length segments)%nat && bool_decide (prefix_of segments 3 = releasePrefix)
    && ((length segments =? 5)%nat && payload && portableToolCatalogPayloadLeafV1 (segment segments 4)
        || (length segments =? 6)%nat && payload && validatePortableRecordIdentifier (segment segments 4)
           && portableToolCatalogPayloadLeafV1 (segment segments 5)
        || (length segments =? 7)%nat && bool_decide (segment segments 3 = "bindings") && validatePortableRecordIdentifier (segment segments 4)
           && bool_decide (segment segments 5 = "artifacts") && portableToolCatalogPlatformLeafV1 (segment segments 6)) in
  reject_if (negb valid) "artifact source mapping artifact must reference a payload or binding artifact record".
Definition validatePortableToolCatalogSourceReferenceV1 (reference : RecordReferenceV1) (releasePrefix revision : string) : result unit :=
  let segments := segments_of (ref_ID reference) in
  reject_if (negb (length segments =? 7)%nat || negb (bool_decide (prefix_of segments 3 = releasePrefix))
             || negb (bool_decide (segment segments 3 = "revisions")) || negb (bool_decide (segment segments 4 = revision))
             || negb (bool_decide (segment segments 5 = "sources")) || negb (validatePortableRecordIdentifier (segment segments 6)))
    "artifact source mapping source must name an artifact source record".

Section urls.
Context (CanonicalSourceURLV1 : string → result string).

Definition check_url (previous : option string) (value : string) : result unit :=
  _ ← reject_if (bool_decide (value = "") || negb (bool_decide (trim_space value = value)) || containsPortableControl value) "must contain canonical values";
  canonicalURL ← CanonicalSourceURLV1 value;
  _ ← reject_if (negb (bool_decide (canonicalURL = value))) "must use canonical spelling";
  reject_if (match previous with Some p => string_geb p value | None => false end) "must be unique and sorted".
Definition validatePortableToolCatalogCanonicalURLsV1 (values : list string) : result unit :=
  _ ← reject_if (portableToolCatalogMaxReferencesV1 <? length values)%nat "must use a bounded array";
  check_each check_url None values.

Definition CoreMaxArtifactMirrors : nat := 8.
Definition add_mirror (seen : gset string) (mirror : string) : result (gset string) :=
  canonicalURL ← wrap (CanonicalSourceURLV1 mirror) "artifact source mirror";
  _ ← reject_if (negb (bool_decide (canonicalURL = mirror))) "artifact source mirror must use canonical spelling";
  _ ← reject_if (bool_decide (mirror ∈ seen)) "artifact source mirrors must be unique";
  Ok ({[mirror]} ∪ seen).
Definition validatePortableToolCatalogArtifactSourceV1 (record : ArtifactSourceRecordV1) : result unit :=
  _ ← check_schema (source_Schema record) ArtifactSourceRecordSchemaV1;
  let segments := segments_of (source_ID record) in
  _ ← reject_if (negb (length segments =? 7)%nat || negb (bool_decide (segment segments 1 = "releases"))
                 || negb (bool_decide (segment segments 3 = "revisions")) || negb (bool_decide (segment segments 5 = "sources"))
                 || negb (validPortableRecordSegment (segment segments 6)) || negb (validatePortableToolVersionSegment (segment segments 2))
                 || negb (is_ok (validatePortableToolCatalogDecimalV1 (segment segments 4) true)))
        "artifact source ID must use a canonical release revision source namespace";
  _ ← wrap (ValidateDigest (source_SHA256 record)) "artifact source digest";
  _ ← reject_if (bool_decide (length (Mirrors record) = 0%nat) || (CoreMaxArtifactMirrors <? length (Mirrors record))%nat)
        "artifact source mirrors must contain between 1 and 8 entries";
  _ ← carry add_mirror ∅ (Mirrors record);
  _ ← reject_if (bool_decide (length (source_Provenance record) = 0%nat)) "artifact source provenance must use a nonempty bounded array";
  _ ← validatePortableToolCatalogCanonicalURLsV1 (source_Provenance record);
  validatePortableToolCatalogSortedStringsV1 (Diagnostics record) false.

Definition check_alias (version alias : string) : result unit :=
  _ ← wrap (encodePortableToolVersionSegment alias) "release alias";
  reject_if (bool_decide (alias = version)) "release alias redundantly equals its exact version".
Definition check_mapping (releasePrefix revision : string) (previous : option ArtifactSourceMappingV1) (mapping : ArtifactSourceMappingV1) : result unit :=
  _ ← wrap (ValidateDigest (ArtifactSHA256 mapping)) "artifact source mapping digest";
  _ ← wrap (validatePortableToolRecordReferenceV1 (mapping_Artifact mapping)) "artifact source mapping artifact";
  _ ← validatePortableToolCatalogArtifactTargetReferenceV1 (mapping_Artifact mapping) releasePrefix;
  _ ← wrap (validatePortableToolRecordReferenceV1 (mapping_Source mapping)) "artifact source mapping source";
  _ ← validatePortableToolCatalogSourceReferenceV1 (mapping_Source mapping) releasePrefix revision;
  reject_if (match previous with Some p => string_geb (ArtifactSHA256 p) (ArtifactSHA256 mapping) | None => false end)
    "artifact source mappings must be unique and sorted by artifact digest".
Definition validatePortableToolCatalogReleaseManifestV1 (record : ReleaseManifestV1) : result unit :=
  _ ← check_schema (manifest_Schema record) ReleaseManifestSchemaV1;
  _ ← reject_if (negb (validatePortableRecordIdentifier (Tool record))) "release manifest identity is incomplete";
  versionSegment ← wrap (encodePortableToolVersionSegment (Version record)) "release manifest version";
  _ ← validatePortableToolCatalogDecimalV1 (Revision record) true;
  _ ← validatePortableToolCatalogSortedStringsV1 (Aliases record) false;
  _ ← for_each (check_alias (Version record)) (Aliases record);
  let releasePrefix := "tool:" +:+ Tool record +:+ "/releases/" +:+ versionSegment in
  _ ← reject_if (negb (bool_decide (manifest_ID record = releasePrefix +:+ "/revisions/" +:+ Revision record +:+ "/manifest"))) "release manifest ID";
  _ ← wrap (validatePortableToolRecordReferenceV1 (manifest_Contract record)) "release contract";
  _ ← reject_if (negb (bool_decide (ref_ID (manifest_Contract record) = releasePrefix +:+ "/contract")))
        "release contract reference must identify the current release contract";
  _ ← validatePortableToolCatalogProfileReferenceListV1 (manifest_ValidationProfiles record) releasePrefix false;
  _ ← reject_if (bool_decide (length (Targets record) = 0%nat)) "release manifest targets must not be empty";
  _ ← validatePortableToolCatalogReferenceListV1 (Targets record);
  _ ← for_each (λ reference, validatePortableToolCatalogTargetReferenceV1 reference releasePrefix) (Targets record);
  _ ← reject_if (portableToolCatalogMaxReferencesV1 <? length (ArtifactSources record))%nat "artifact source mappings must use a bounded array";
  _ ← check_each (check_mapping releasePrefix (Revision record)) None (ArtifactSources record);
  validatePortableToolCatalogCanonicalURLsV1 (manifest_Provenance record).

(** The kinds that provider plans and build locks keep. *)
Definition record_id (value : RecordV1) : string :=
  match value with
  | ToolRecord record => tool_ID record
  | ReleaseManifest record => manifest_ID record
  | ReleaseContract record => contract_ID record
  | TargetRecord record => target_ID record
  | BindingContract record => bc_ID record
  | BindingArtifactRecord record => ba_ID record
  | PayloadRecord record => payload_ID record
  | ArtifactSourceRecord record => source_ID record
  | NativePackageSet record => ps_ID record
  | IntegrationFixtureRecord record => fixture_ID record
  | ValidationProfileRecord record => profile_ID record
  end.
Definition ValidateRecordEnvelopeV1 (value : RecordV1) : result unit :=
  _ ← match value with
      | ReleaseManifest record => validatePortableToolCatalogReleaseManifestV1 record
      | BindingContract record => validatePortableToolCatalogBindingContractV1 record
      | BindingArtifactRecord record => validatePortableToolCatalogBindingArtifactV1 record
      | PayloadRecord record => validatePortableToolCatalogPayloadV1 record
      | ArtifactSourceRecord record => validatePortableToolCatalogArtifactSourceV1 record
      | NativePackageSet record => validatePortableToolCatalogPackageSetV1 record
      | ValidationProfileRecord record => validatePortableToolCatalogValidationProfileV1 record
      | _ => Err "portable tool catalog record schema is unsupported"
      end;
  validatePortableRecordID (record_id value).
End urls.

(** ** References of a projected binding *)

Definition ValidateBindingRecordReferencesV1 (contract artifact : RecordReferenceV1) : result unit :=
  _ ← wrap (validatePortableToolRecordReferenceV1 contract) "binding contract reference";
  _ ← wrap (validatePortableToolRecordReferenceV1 artifact) "binding artifact reference";
  let contractSegments := segments_of (ref_ID contract) in
  _ ← reject_if (negb (length contractSegments =? 6)%nat || negb (bool_decide (segment contractSegments 3 = "bindings"))
                 || negb (validatePortableRecordIdentifier (segment contractSegments 4)) || negb (bool_decide (segment contractSegments 5 = "contract")))
        "binding contract reference does not use the canonical binding-contract namespace";
  let artifactSegments := segments_of (ref_ID artifact) in
  _ ← reject_if (negb (length artifactSegments =? 7)%nat || negb (bool_decide (segment artifactSegments 3 = "bindings"))
                 || negb (validatePortableRecordIdentifier (segment artifactSegments 4)) || negb (bool_decide (segment artifactSegments 5 = "artifacts"))
                 || negb (portableToolCatalogPlatformLeafV1 (segment artifactSegments 6)))
        "binding artifact reference does not use the canonical binding-artifact namespace";
  reject_if (negb (bool_decide (prefix_of contractSegments 5 = prefix_of artifactSegments 5)))
    "binding contract and artifact references do not name the same release binding".
Definition ValidateBindingArtifactReferencePlatformV1 (artifact : RecordReferenceV1) (platform : string) : result unit :=
  _ ← wrap (validatePortableToolRecordReferenceV1 artifact) "binding artifact reference";
  _ ← reject_if (negb (portableToolCatalogPlatformV1 platform)) "binding artifact platform is unsupported";
  let segments := segments_of (ref_ID artifact) in
  reject_if (negb (length segments =? 7)%nat || negb (bool_decide (segment segments 1 = "releases"))
             || negb (validatePortableToolVersionSegment (segment segments 2)) || negb (bool_decide (segment segments 3 = "bindings"))
             || negb (validatePortableRecordIdentifier (segment segments 4)) || negb (bool_decide (segment segments 5 = "artifacts"))
             || negb (bool_decide (segment segments 6 = replace_slashes platform)))
    "binding artifact reference does not match platform".
End schemes.

Example wheel_example :
  (wheel_Tags <$> match ProjectWheelFilenameV1 (schemes := dotted_schemes) "ruff-1.2-py3.py2-none-any.whl" with Ok p => Some p | Err _ => None end)
    = Some ["py2-none-any"; "py3-none-any"] ∧
  is_ok (ProjectWheelFilenameV1 (schemes := dotted_schemes) "ruff-1.2-py3.py3-none-any.whl") = false ∧
  ProjectWheelPlatformV1 "manylinux_2_28_aarch64" = Ok (manylinux "aarch64" "2" "28") ∧
  is_ok (ProjectWheelPlatformV1 "manylinux_2_12_aarch64") = false ∧
  portableToolCatalogPayloadLeafV1 "jdk-tools-linux-amd64" = true ∧ path_dir "a/b" = "a" ∧ path_dir "a" = ".".
Proof. vm_compute. split_and!; done. Qed.
