(* ===== verification/ToolValidate.v ===== *)
(** * Validation of a loaded record

    [internal/toolcatalog/records_validate.go]: what a tool record, a release
    contract, a target and a fixture satisfy on their own; the other kinds are
    RecordValidate.v's.

    A nil slice or map, which the validators refuse, has no counterpart in a list
    or a [gmap]; a combination is never nil.  Parsing a URL and an image
    reference are arguments: [net/url]'s part of [CanonicalSourceURLV1], and
    [distribution/reference], whose answer is the canonical text of a reference
    and whether it has a tag and a digest. *)

From Stdlib Require Import Ascii.
From S2P Require Import Prelude GoText Identifiers Canonical ToolRecords ToolCatalog ToolVersions PythonRoots ToolSupport RecordValidate.

Open Scope Z_scope.

(** ** Platforms and identities *)

Definition supportedArchitectureV1 (value : string) : bool := bool_decide (value = "amd64") || bool_decide (value = "arm64").
Definition validPlatformV1 (value : string) : bool := bool_decide (value = "linux/amd64") || bool_decide (value = "linux/arm64").
Definition replace_hyphens (value : string) : string :=
  String.string_of_list_ascii (map (λ c, if bool_decide (c = "-"%char) then "/"%char else c) (bytes value)).
Definition validPlatformLeafV1 (value : string) : bool := validPlatformV1 (replace_hyphens value).
Definition validPayloadLeafV1 (value : string) : bool :=
  match cut_last value "-"%char with
  | Some (before, architecture) =>
    match cut_last before "-"%char with
    | Some (name, os) => validRecordIdentifierV1 name && validPlatformLeafV1 (os +:+ "-" +:+ architecture)
    | None => false
    end
  | None => false
  end.
Definition validateTargetIdentityV1 (target : TargetIdentityV1) : result unit :=
  _ ← reject_if (negb (validPlatformV1 (identity_Platform target)) || negb (validRecordIdentifierV1 (OSReleaseID target))
                 || negb (validRecordSegmentV1 (VersionID target)) || negb (supportedArchitectureV1 (OCIArchitecture target))
                 || negb (supportedArchitectureV1 (NativeArchitecture target)) || negb (bool_decide (identity_PackageManager target = "apt")))
        "target identity is incomplete";
  reject_if (negb (bool_decide (identity_Platform target = "linux/" +:+ OCIArchitecture target))
             || negb (bool_decide (NativeArchitecture target = OCIArchitecture target)))
    "target platform and OCI architecture are inconsistent".
Definition valid_version_segment (value : string) : bool := is_ok (decodeToolVersionSegmentV1 value).
Definition validateTargetRecordIDV1 (id : string) (target : TargetIdentityV1) : result unit :=
  let segments := segments_of id in
  _ ← reject_if (negb (length segments =? 7)%nat || negb (bool_decide (segment segments 1 = "releases"))
                 || negb (bool_decide (segment segments 3 = "targets")) || negb (bool_decide (segment segments 4 = OSReleaseID target))
                 || negb (bool_decide (segment segments 5 = VersionID target)) || negb (bool_decide (segment segments 6 = OCIArchitecture target)))
        "target record ID must use the complete tool release target namespace";
  reject_if (negb (valid_version_segment (segment segments 2))) "target record ID version".
Definition validateReleaseContractIDV1 (id : string) : result unit :=
  let segments := segments_of id in
  _ ← reject_if (negb (length segments =? 4)%nat || negb (bool_decide (segment segments 1 = "releases"))
                 || negb (bool_decide (segment segments 3 = "contract")))
        "release contract ID must use tool:<name>/releases/<encoded-version>/contract";
  reject_if (negb (valid_version_segment (segment segments 2))) "release contract ID version".

(** ** References of a target *)

Definition referenceSegmentsUnderV1 (reference : RecordReferenceV1) (releasePrefix : string) (count : nat) : option (list string) :=
  let segments := segments_of (ref_ID reference) in
  if negb (length segments =? count)%nat || negb (bool_decide (prefix_of segments 3 = releasePrefix)) then None else Some segments.
Definition named_under (reference : RecordReferenceV1) (releasePrefix : string) (count : nat) (shape : (nat → string) → bool) : result unit :=
  reject_if (negb (match referenceSegmentsUnderV1 reference releasePrefix count with
                   | Some segments => shape (segment segments)
                   | None => false
                   end)) "must name a record of the release".
Definition validatePackageSetReferenceV1 (releasePrefix : string) (reference : RecordReferenceV1) : result unit :=
  named_under reference releasePrefix 5 (λ at_, bool_decide (at_ 3%nat = "package-sets") && validRecordIdentifierV1 (at_ 4%nat)).
Definition validatePayloadReferenceV1 (releasePrefix : string) (reference : RecordReferenceV1) : result unit :=
  let segments := segments_of (ref_ID reference) in
  let unconditional := (length segments =? 5)%nat && validPayloadLeafV1 (segment segments 4) in
  let selected := (length segments =? 6)%nat && validRecordIdentifierV1 (segment segments 4) && validPayloadLeafV1 (segment segments 5) in
  reject_if ((length segments <? 5)%nat || negb (bool_decide (prefix_of segments 3 = releasePrefix))
             || negb (bool_decide (segment segments 3 = "payloads")) || negb unconditional && negb selected)
    "must name a payload record of the release".
Definition validateBindingArtifactReferenceV1 (releasePrefix binding : string) (reference : RecordReferenceV1) : result unit :=
  named_under reference releasePrefix 7 (λ at_, bool_decide (at_ 3%nat = "bindings") && bool_decide (at_ 4%nat = binding)
    && bool_decide (at_ 5%nat = "artifacts") && validPlatformLeafV1 (at_ 6%nat)).
Definition validateFixtureReferenceV1 (releasePrefix : string) (reference : RecordReferenceV1) : result unit :=
  named_under reference releasePrefix 6 (λ at_, bool_decide (at_ 3%nat = "validation") && bool_decide (at_ 4%nat = "fixtures") && validRecordIdentifierV1 (at_ 5%nat)).
Definition validateProfileReferenceV1 (releasePrefix : string) (reference : RecordReferenceV1) : result unit :=
  named_under reference releasePrefix 6 (λ at_, bool_decide (at_ 3%nat = "validation") && bool_decide (at_ 4%nat = "profiles") && validRecordIdentifierV1 (at_ 5%nat)).
(** A canonical list of references, each of them checked. *)
Definition reference_list (check : RecordReferenceV1 → result unit) (references : list RecordReferenceV1) : result unit :=
  _ ← validateReferenceListV1 (Some references);
  for_each check references.
Definition validateProfileReferenceListV1 (references : list RecordReferenceV1) (releasePrefix : string) (allowEmpty : bool) : result unit :=
  _ ← validateReferenceListV1 (Some references);
  _ ← reject_if (negb allowEmpty && bool_decide (length references = 0%nat)) "must not be empty";
  for_each (validateProfileReferenceV1 releasePrefix) references.

(** ** Exports, runtime, bindings and selections *)

Definition check_record_export (previous : option ToolExportV1) (exported : ToolExportV1) : result unit :=
  reject_if (negb (validRecordIdentifierV1 (export_Name exported)) || negb (is_ok (validateAbsoluteRecordPathV1 (export_Path exported)))
             || match previous with Some p => string_geb (export_Name p) (export_Name exported) | None => false end)
    "must be unique, sorted, and absolute".
Definition validateExportsV1 (exports : list ToolExportV1) : result unit :=
  _ ← reject_if (maxDefinitionReferences <? length exports)%nat "must use a bounded array";
  check_each check_record_export None exports.

Definition is_name_char (c : ascii) : bool := is_upper c || is_digit c || bool_decide (c = "_"%char).
Definition validEnvironmentNameV1 (value : string) : bool :=
  match bytes value with c :: rest => is_upper c && forallb is_name_char rest | [] => false end.
Definition check_variable (previous : option RecordEnvironmentVariableV1) (variable : RecordEnvironmentVariableV1) : result unit :=
  reject_if (negb (validEnvironmentNameV1 (variable_Name variable)) || containsControlV1 (variable_Value variable)
             || match previous with Some p => string_geb (variable_Name p) (variable_Name variable) | None => false end)
    "runtime environment variables must be unique and sorted".
Definition validateRuntimeV1 (contexts : list string) (runtime : option RecordRuntimeV1) (packageManaged : bool) : result unit :=
  let hasRuntime := containsRecordValueV1 contexts "runtime" in
  match runtime with
  | None => reject_if (hasRuntime && negb packageManaged) "runtime context requires a runtime contract"
  | Some runtime =>
    _ ← reject_if (negb hasRuntime || negb (is_ok (validateAbsoluteRecordPathV1 (InstallRoot runtime))))
          "runtime contract is inconsistent with contexts";
    _ ← reject_if (maxDefinitionReferences <? length (Environment runtime))%nat "runtime environment must use a bounded array";
    check_each check_variable None (Environment runtime)
  end.

Definition all_identifiers (values : list string) : result unit :=
  for_each (λ value, reject_if (negb (validRecordIdentifierV1 value)) "must be canonical identifiers") values.
Definition validateBindingSetSchemaV1 (binding : BindingSetSchemaV1) : result unit :=
  _ ← validateSortedUniqueStringsV1 (Some (Options binding)) false;
  all_identifiers (Options binding).

Definition check_dimension (previous : option SelectionDimensionV1) (dimension : SelectionDimensionV1) : result unit :=
  _ ← reject_if (negb (validRecordIdentifierV1 (dimension_Name dimension))
                 || match previous with Some p => string_geb (dimension_Name p) (dimension_Name dimension) | None => false end)
        "selection dimensions must have unique sorted canonical names";
  _ ← requireNonemptySortedStringsV1 (Some (dimension_Options dimension));
  all_identifiers (dimension_Options dimension).
Definition sorted_entries (selections : gmap string (list string)) : list (string * list string) :=
  omap (λ dimension, pair dimension <$> selections !! dimension) (merge_sort String.le (map fst (map_to_list selections))).
Definition check_combination_entry (options : gmap string (list string)) (entry : string * list string) : result unit :=
  match options !! entry.1 with
  | None => Err "selection combination dimension is not declared"
  | Some declared =>
    _ ← requireNonemptySortedStringsV1 (Some entry.2);
    for_each (λ value, reject_if (negb (containsRecordValueV1 declared value)) "selection combination value is not advertised") entry.2
  end.
(** A list whose canonical texts increase strictly. *)
Fixpoint increasing {A} (check : A → result unit) (encode : A → result (list ascii)) (previous : option (list ascii)) (values : list A) : result unit :=
  match values with
  | [] => Ok tt
  | value :: rest =>
    _ ← check value;
    encoded ← encode value;
    _ ← reject_if (match previous with Some p => bytes_geb p encoded | None => false end) "must be unique and sorted";
    increasing check encode (Some encoded) rest
  end.
Definition validateSelectionSchemaV1 (selections : SelectionSchemaV1) : result unit :=
  _ ← reject_if (maxDefinitionReferences <? length (Dimensions selections))%nat "selection dimensions must use a bounded array";
  _ ← check_each check_dimension None (Dimensions selections);
  let options := foldl (λ table dimension, <[dimension_Name dimension := dimension_Options dimension]> table)
                   (∅ : gmap string (list string)) (Dimensions selections) in
  _ ← reject_if (maxDefinitionValidationCases <? length (Combinations selections))%nat "selection combinations must use at most 1024 entries";
  _ ← reject_if (xorb (bool_decide (length (Dimensions selections) = 0%nat)) (bool_decide (length (Combinations selections) = 0%nat)))
        "selection dimensions and combinations must either both be empty or both be nonempty";
  increasing (λ combination, for_each (check_combination_entry options) (sorted_entries combination))
    (λ combination, wrap (Marshal (selections_value combination)) "encode selection combination") None (Combinations selections).

Definition compareTargetSelectionV1 (left right : TargetSelectionV1) : Z :=
  if bool_decide (string_lt (Dimension left) (Dimension right)) then -1
  else if bool_decide (string_lt (Dimension right) (Dimension left)) then 1
  else string_compare (selection_Value left) (selection_Value right).

Section schemes.
Context {schemes : VersionSchemes}.

(** ** Versions *)

Definition validateToolVersionPolicyV1 (scheme defaultVersion : string) : result unit :=
  if bool_decide (scheme = "semver") || bool_decide (scheme = "pep440") || bool_decide (scheme = "integer") then
    reject_if (negb (bool_decide (defaultVersion = ""))) "ordered tool version schemes must not declare a default version"
  else if bool_decide (scheme = "opaque") then
    _ ← wrap (encodeToolVersionSegmentV1 defaultVersion) "opaque tool version scheme requires a canonical default version"; Ok tt
  else Err "tool version scheme is unsupported".
Definition canonical_text (library : VersionLibrary) (value : string) : bool :=
  match @Parse library value with Some parsed => bool_decide (VersionString parsed = value) | None => false end.
Definition validateToolVersionV1 (scheme value : string) : result unit :=
  if bool_decide (scheme = "semver") then reject_if (negb (canonical_text semver value)) "version is not canonical SemVer"
  else if bool_decide (scheme = "pep440") then reject_if (negb (canonical_text pep440 value)) "version is not canonical PEP 440"
  else if bool_decide (scheme = "integer") then validateCanonicalDecimalV1 value false
  else if bool_decide (scheme = "opaque") then _ ← encodeToolVersionSegmentV1 value; Ok tt
  else Err "tool version scheme is unsupported".
Definition validateSupportedReployRequirementV1 (requirement : string) : result unit :=
  _ ← reject_if (negb (validRecordTokenV1 requirement)) "supported Reploy requirement is invalid";
  _ ← reject_if (existsb (is_space ∘ rune_value) (runes requirement)) "supported Reploy requirement is not canonical SemVer";
  reject_if (match @NewConstraints semver requirement with
             | Some constraints => negb (bool_decide (ConstraintsString constraints = requirement))
             | None => true
             end) "supported Reploy requirement is not canonical SemVer".

(** ** Contracts *)

Definition validate_contract (record : loadedRecordV1) (value : ReleaseContractV1) : result unit :=
  _ ← reject_if (negb (bool_decide (record_Schema record = ReleaseContractSchemaV1)) || negb (bool_decide (contract_Schema value = ReleaseContractSchemaV1))
                 || negb (bool_decide (contract_ID value = record_ID record))) "release contract identity is inconsistent";
  _ ← validateReleaseContractIDV1 (contract_ID value);
  _ ← requireNonemptySortedStringsV1 (Some (Contexts value));
  _ ← for_each (λ context, reject_if (negb (bool_decide (context = "build")) && negb (bool_decide (context = "runtime"))) "contract context is unsupported")
        (Contexts value);
  _ ← validateSupportedReployRequirementV1 (SupportedReploy value);
  _ ← requireNonemptySortedStringsV1 (Some (ResolverPrimitives value));
  _ ← for_each (λ primitive, reject_if (negb (bool_decide (primitive = "https-sha256")) && negb (bool_decide (primitive = "apt")))
                               "resolver primitive is unsupported") (ResolverPrimitives value);
  _ ← validateBindingSetSchemaV1 (Binding value);
  _ ← validateSelectionSchemaV1 (Selections value);
  _ ← validateSortedUniqueStringsV1 (Some (CompatibilityConstraints value)) false;
  _ ← validateExportsV1 (contract_Exports value);
  validateRuntimeV1 (Contexts value) (Runtime value) (bool_decide (ResolverPrimitives value = ["apt"])).

(** ** Targets *)

Definition check_selection_entry (entry : string * list string) : result unit :=
  _ ← reject_if (negb (validRecordIdentifierV1 entry.1)) "selection dimension must be a canonical identifier";
  _ ← requireNonemptySortedStringsV1 (Some entry.2);
  all_identifiers entry.2.
Definition check_case (supportCase : TargetSupportCaseV1) : result unit :=
  _ ← reject_if (negb (bool_decide (case_Context supportCase = "build")) && negb (bool_decide (case_Context supportCase = "runtime")))
        "target support case has invalid context";
  _ ← validateSortedUniqueStringsV1 (Some (case_Bindings supportCase)) false;
  _ ← all_identifiers (case_Bindings supportCase);
  for_each check_selection_entry (sorted_entries (case_Selections supportCase)).
Definition validate_binding (releasePrefix : string) (previous : option TargetBindingV1) (binding : TargetBindingV1) : result unit :=
  _ ← reject_if (negb (validRecordIdentifierV1 (binding_Name binding))
                 || match previous with Some p => string_geb (binding_Name p) (binding_Name binding) | None => false end)
        "target bindings must be unique and sorted";
  _ ← wrap (validateRecordReferenceV1 (binding_Contract binding)) "target binding contract";
  _ ← reject_if (negb (bool_decide (ref_ID (binding_Contract binding) = releasePrefix +:+ "/bindings/" +:+ binding_Name binding +:+ "/contract")))
        "target binding contract must identify its current-release binding contract";
  _ ← reject_if (bool_decide (length (binding_Artifacts binding) = 0%nat)) "target binding artifacts must not be empty";
  _ ← reference_list (validateBindingArtifactReferenceV1 releasePrefix (binding_Name binding)) (binding_Artifacts binding);
  _ ← reference_list (validatePayloadReferenceV1 releasePrefix) (binding_Payloads binding);
  _ ← reference_list (validatePackageSetReferenceV1 releasePrefix) (binding_PackageSets binding);
  _ ← validateExportsV1 (binding_Exports binding);
  validateProfileReferenceListV1 (binding_ValidationProfiles binding) releasePrefix true.
Definition validate_selection (releasePrefix : string) (previous : option TargetSelectionV1) (selection : TargetSelectionV1) : result unit :=
  _ ← reject_if (negb (validRecordIdentifierV1 (Dimension selection)) || negb (validRecordIdentifierV1 (selection_Value selection))
                 || match previous with Some p => 0 <=? compareTargetSelectionV1 p selection | None => false end)
        "target selections must be unique, sorted, and nonempty";
  _ ← reference_list (validatePayloadReferenceV1 releasePrefix) (selection_Payloads selection);
  _ ← reference_list (validatePackageSetReferenceV1 releasePrefix) (selection_PackageSets selection);
  _ ← validateExportsV1 (selection_Exports selection);
  _ ← validateProfileReferenceListV1 (selection_ValidationProfiles selection) releasePrefix true;
  reject_if (bool_decide ((length (selection_Payloads selection) + length (selection_PackageSets selection)
                           + length (selection_Exports selection) + length (selection_ValidationProfiles selection))%nat = 0%nat))
    "target selection must contribute at least one record, export, or validation profile".
Definition validate_target (record : loadedRecordV1) (value : TargetRecordV1) : result unit :=
  _ ← reject_if (negb (bool_decide (record_Schema record = TargetRecordSchemaV1)) || negb (bool_decide (target_Schema value = TargetRecordSchemaV1))
                 || negb (bool_decide (target_ID value = record_ID record))) "target record identity or validation contract is incomplete";
  _ ← validateTargetIdentityV1 (target_Target value);
  _ ← validateTargetRecordIDV1 (target_ID value) (target_Target value);
  _ ← reject_if (bool_decide (length (SupportCases value) = 0%nat) || (maxDefinitionValidationCases <? length (SupportCases value))%nat)
        "target support cases must use between 1 and 1024 entries";
  _ ← increasing check_case (λ supportCase, wrap (Marshal (tuple_value supportCase)) "encode target support case") None (SupportCases value);
  let releasePrefix := prefix_of (segments_of (target_ID value)) 3 in
  _ ← reject_if (bool_decide (length (IntegrationFixtures value) = 0%nat)) "target integration fixtures must not be empty";
  _ ← reference_list (validateFixtureReferenceV1 releasePrefix) (IntegrationFixtures value);
  _ ← validateProfileReferenceListV1 (target_ValidationProfiles value) releasePrefix false;
  _ ← reference_list (validatePackageSetReferenceV1 releasePrefix) (target_PackageSets value);
  _ ← reference_list (validatePayloadReferenceV1 releasePrefix) (target_Payloads value);
  _ ← reject_if (maxDefinitionReferences <? length (target_Bindings value))%nat "target bindings must use a bounded array";
  _ ← check_each (validate_binding releasePrefix) None (target_Bindings value);
  _ ← reject_if (maxDefinitionReferences <? length (target_Selections value))%nat "target selections must use a bounded array";
  _ ← check_each (validate_selection releasePrefix) None (target_Selections value);
  validateExportsV1 (target_Exports value).

Section ports.
Context (CanonicalSourceURLV1 : string → result string).
Context (ParseNormalizedNamed : string → option (string * bool * bool)).

(** ** Fixtures *)

Definition validBaseImageReferenceV1 (value : string) : bool :=
  validRecordTokenV1 value && bool_decide (to_lower value = value)
  && negb (existsb (contains_byte value) ["@"; "?"; "#"]%char || contains_text value "://")
  && match ParseNormalizedNamed value with
     | Some (text, tagged, digested) => bool_decide (text = value) && tagged && negb digested
     | None => false
     end.
Definition validate_fixture (record : loadedRecordV1) (value : IntegrationFixtureRecordV1) : result unit :=
  _ ← reject_if (negb (bool_decide (record_Schema record = IntegrationFixtureSchemaV1)) || negb (bool_decide (fixture_Schema value = IntegrationFixtureSchemaV1))
                 || negb (bool_decide (fixture_ID value = record_ID record)) || negb (validRecordIdentifierV1 (fixture_Name value)))
        "integration fixture identity is inconsistent";
  _ ← wrap (validateTargetIdentityV1 (fixture_Target value)) "integration fixture target";
  let segments := segments_of (fixture_ID value) in
  _ ← reject_if (negb (length segments =? 6)%nat || negb (bool_decide (segment segments 1 = "releases"))
                 || negb (bool_decide (segment segments 3 = "validation")) || negb (bool_decide (segment segments 4 = "fixtures"))
                 || negb (bool_decide (segment segments 5 = fixture_Name value)))
        "integration fixture ID must use its name in a release validation fixture namespace";
  _ ← reject_if (negb (valid_version_segment (segment segments 2))) "integration fixture ID version";
  _ ← reject_if (negb (validBaseImageReferenceV1 (BaseImage value))) "integration fixture base image must be a canonical tagged OCI reference";
  _ ← wrap (ValidateDigest (BaseImageDigest value)) "integration fixture base image digest";
  _ ← reject_if (negb (bool_decide (fixture_Context value = "build")) && negb (bool_decide (fixture_Context value = "runtime")))
        "integration fixture context is unsupported";
  _ ← validateSortedUniqueStringsV1 (Some (fixture_Bindings value)) false;
  _ ← all_identifiers (fixture_Bindings value);
  _ ← reject_if (maxDefinitionReferences <? size (fixture_Selections value))%nat "integration fixture selections must use a bounded map";
  _ ← for_each check_selection_entry (sorted_entries (fixture_Selections value));
  validateProfileReferenceListV1 (fixture_ValidationProfiles value) (prefix_of segments 3) false.

(** ** Tools *)

Definition validateSourceURLV1 (raw : string) : result unit :=
  canonicalURL ← CanonicalSourceURLV1 raw;
  reject_if (negb (bool_decide (raw = canonicalURL))) "source URL must use canonical spelling".
(** The version that a release reference of a tool names. *)
Definition release_version (value : ToolRecordV1) (reference : RecordReferenceV1) : result string :=
  let segments := segments_of (ref_ID reference) in
  _ ← reject_if (negb (has_prefix (ref_ID reference) (tool_ID value +:+ "/releases/")) || negb (length segments =? 6)%nat
                 || negb (bool_decide (segment segments 3 = "revisions")) || negb (bool_decide (segment segments 5 = "manifest")))
        "tool release reference must identify a manifest beneath the tool";
  version ← wrap (decodeToolVersionSegmentV1 (segment segments 2)) "tool release reference version";
  _ ← wrap (validateToolVersionV1 (VersionScheme value) version) "tool release reference";
  _ ← validateCanonicalDecimalV1 (segment segments 4) true;
  Ok version.
Definition validate_tool (record : loadedRecordV1) (value : ToolRecordV1) : result unit :=
  _ ← reject_if (negb (bool_decide (record_Schema record = ToolRecordSchemaV1)) || negb (bool_decide (tool_Schema value = ToolRecordSchemaV1))
                 || negb (bool_decide (tool_ID value = record_ID record)) || negb (validRecordIdentifierV1 (tool_Name value))
                 || negb (bool_decide (tool_ID value = "tool:" +:+ tool_Name value))) "tool record identity is inconsistent";
  _ ← validateToolVersionPolicyV1 (VersionScheme value) (DefaultVersion value);
  _ ← reject_if (negb (validRecordTokenV1 (Summary value)) || bool_decide (Upstream value = "") || bool_decide (tool_Source value = "")
                 || bool_decide (License value = "") || bool_decide (Documentation value = "") || bool_decide (length (Releases value) = 0%nat))
        "tool metadata and releases must not be empty";
  _ ← for_each (λ raw, wrap (validateSourceURLV1 raw) "tool reference URL") [Upstream value; tool_Source value; Documentation value];
  _ ← reject_if (negb (validRecordTokenV1 (License value))) "tool license is invalid";
  _ ← validateReferenceListV1 (Some (Releases value));
  versions ← mapM (release_version value) (Releases value);
  reject_if (bool_decide (VersionScheme value = "opaque") && negb (bool_decide (DefaultVersion value ∈ versions)))
    "opaque default version must name an advertised release".

(** ** Any record *)

Definition envelope_schemas : list string :=
  [ReleaseManifestSchemaV1; BindingContractSchemaV1; BindingArtifactSchemaV1; PayloadRecordSchemaV1; ArtifactSourceRecordSchemaV1;
   NativePackageSetSchemaV1; ValidationProfileSchemaV1].
Definition validateLoadedRecordV1 (record : loadedRecordV1) : result unit :=
  _ ← validateRecordIDV1 (record_ID record);
  if bool_decide (record_Schema record ∈ envelope_schemas) then
    _ ← reject_if (negb (bool_decide (record_id (record_Value record) = record_ID record))) "catalog record value ID must match loaded record ID";
    ValidateRecordEnvelopeV1 CanonicalSourceURLV1 (record_Value record)
  else match record_Value record with
       | ToolRecord value => validate_tool record value
       | ReleaseContract value => validate_contract record value
       | TargetRecord value => validate_target record value
       | IntegrationFixtureRecord value => validate_fixture record value
       | _ => Err "unsupported record value"
       end.
End ports.
End schemes.
