(* ===== verification/ToolReleases.v ===== *)
(** * The release graphs of a catalog

    [internal/toolcatalog/records_graph.go] and the last gate of [catalog.go]:
    the index of a tool's releases, the graph of one release with its targets,
    fixtures, bindings, artifacts and sources, and the validation of a loaded
    catalog. *)

From Stdlib Require Import Ascii.
From S2P Require Import Prelude GoText ToolRecords ToolCatalog ToolVersions ToolSupport RecordValidate ToolValidate.

Open Scope nat_scope.

Section schemes.
Context {schemes : VersionSchemes}.

(** ** Versions of the index *)

Definition validateToolVersionAliasV1 (scheme value : string) : result unit :=
  if bool_decide (scheme = "semver") then
    match @Parse semver value with
    | Some parsed => reject_if (negb (bool_decide (VersionString parsed = value))) "alias is not canonical SemVer"
    | None =>
      let parts := split_byte value "."%char in
      _ ← reject_if (2 <? length parts) "alias is invalid under SemVer";
      for_each (λ part, reject_if (negb (is_ok (validateCanonicalDecimalV1 part false))) "alias is invalid under SemVer") parts
    end
  else if bool_decide (scheme = "pep440") then reject_if (negb (canonical_text pep440 value)) "alias is invalid under PEP 440"
  else if bool_decide (scheme = "integer") then validateCanonicalDecimalV1 value false
  else if bool_decide (scheme = "opaque") then _ ← encodeToolVersionSegmentV1 value; Ok tt
  else Err "tool version scheme is unsupported".

(** ** The index of a tool *)

Definition add_coordinate (version : string) (coordinates : gmap string string) (token : string) : result (gmap string string) :=
  _ ← reject_if (match coordinates !! token with Some existing => negb (bool_decide (existing = version)) | None => false end)
        "tool release index token maps to two versions";
  Ok (<[token := version]> coordinates).
(** The coordinates and the exact versions. *)
Definition index_manifest (tool : ToolRecordV1) (state : gmap string string * gset string) (manifest : ReleaseManifestV1)
    : result (gmap string string * gset string) :=
  _ ← reject_if (negb (bool_decide (Tool manifest = tool_Name tool))) "tool release index manifest belongs to a different tool";
  _ ← wrap (validateToolVersionV1 (VersionScheme tool) (Version manifest)) "tool release index manifest version";
  _ ← for_each (λ alias, wrap (validateToolVersionAliasV1 (VersionScheme tool) alias) "tool release index manifest alias") (Aliases manifest);
  coordinates ← carry (add_coordinate (Version manifest)) state.1 (Version manifest :: Aliases manifest);
  Ok (coordinates, {[Version manifest]} ∪ state.2).
Definition validateToolReleaseManifestsV1 (tool : ToolRecordV1) (manifests : list ReleaseManifestV1) : result unit :=
  state ← carry (index_manifest tool) (∅, ∅) manifests;
  reject_if (bool_decide (VersionScheme tool = "opaque") && negb (bool_decide (DefaultVersion tool ∈ state.2)))
    "opaque default version is not an advertised exact release".

Definition as_manifest (value : RecordV1) : option ReleaseManifestV1 := match value with ReleaseManifest manifest => Some manifest | _ => None end.
Definition as_contract (value : RecordV1) : option ReleaseContractV1 := match value with ReleaseContract contract => Some contract | _ => None end.
Definition as_target (value : RecordV1) : option TargetRecordV1 := match value with TargetRecord target => Some target | _ => None end.
Definition as_fixture (value : RecordV1) : option IntegrationFixtureRecordV1 :=
  match value with IntegrationFixtureRecord fixture => Some fixture | _ => None end.
Definition as_source (value : RecordV1) : option ArtifactSourceRecordV1 := match value with ArtifactSourceRecord source => Some source | _ => None end.

Definition validateToolReleaseIndexV1 (tool : ToolRecordV1) (view : resolved_view) : result unit :=
  _ ← reject_if (bool_decide (length (Releases tool) = 0) || (maxDefinitionReferences <? length (Releases tool)))
        "tool release index must contain a nonempty bounded manifest list";
  manifests ← mapM (resolved_as view as_manifest "tool release index reference resolves to a non-manifest record") (Releases tool);
  validateToolReleaseManifestsV1 tool manifests.

(** ** The graph of a release *)

Section release.
Context (manifest : ReleaseManifestV1) (view : resolved_view).

Definition declare_profile (declared : gmap string RecordReferenceV1) (reference : RecordReferenceV1) : result (gmap string RecordReferenceV1) :=
  profile ← resolved_as view as_profile "release validation profile is incompatible with the release" reference;
  _ ← reject_if (negb (bool_decide (profile_Tool profile = Tool manifest)) || negb (bool_decide (profile_Version profile = Version manifest)))
        "release validation profile is incompatible with the release";
  _ ← reject_if (match declared !! ref_ID reference with Some previous => negb (bool_decide (previous = reference)) | None => false end)
        "release validation profile has conflicting exact identities";
  Ok (<[ref_ID reference := reference]> declared).
Definition validateDeclaredProfiles (declared : gmap string RecordReferenceV1) (references : list RecordReferenceV1) : result unit :=
  for_each (λ reference, reject_if (negb (bool_decide (declared !! ref_ID reference = Some reference)))
                           "validation profile is not declared exactly by the release manifest") references.

(** The sizes of the contents, and the records of each content. *)
Record artifact_state := Reached { artifactSizes : gmap string string; reachableArtifacts : gmap string (gset string) }.
Definition artifact_content (target : TargetRecordV1) (binding : string) (value : RecordV1) : result (string * string) :=
  match value with
  | BindingArtifactRecord artifact =>
    _ ← reject_if (bool_decide (binding = "") || negb (bool_decide (ba_Binding artifact = binding))
                   || negb (bool_decide (ba_Platform artifact = identity_Platform (target_Target target))))
          "binding artifact is incompatible with target";
    Ok (ba_SHA256 artifact, ba_Size artifact)
  | PayloadRecord payload =>
    _ ← reject_if (negb (bool_decide (payload_Platform payload = identity_Platform (target_Target target)))) "payload is incompatible with target";
    Ok (payload_SHA256 payload, payload_Size payload)
  | _ => Err "target artifact reference resolves to a non-artifact record"
  end.
Definition addArtifact (target : TargetRecordV1) (binding : string) (state : artifact_state) (reference : RecordReferenceV1) : result artifact_state :=
  record ← resolvedRecordV1 view reference;
  content ← artifact_content target binding (record_Value record);
  let '(digest, size) := content in
  _ ← reject_if (match artifactSizes state !! digest with Some previous => negb (bool_decide (previous = size)) | None => false end)
        "artifacts sharing content digest disagree on size";
  Ok (Reached (<[digest := size]> (artifactSizes state))
              (<[digest := {[record_ID record]} ∪ default ∅ (reachableArtifacts state !! digest)]> (reachableArtifacts state))).

Section target.
Context (contract : ReleaseContractV1) (declared : gmap string RecordReferenceV1).

Definition check_target_fixture (target : TargetRecordV1) (reference : RecordReferenceV1) : result IntegrationFixtureRecordV1 :=
  fixture ← resolved_as view as_fixture "integration fixture describes a different target" reference;
  _ ← reject_if (negb (bool_decide (fixture_Target fixture = target_Target target))) "integration fixture describes a different target";
  _ ← validateFixtureAgainstTargetV1 contract target fixture;
  _ ← validateDeclaredProfiles declared (fixture_ValidationProfiles fixture);
  Ok fixture.
Definition add_binding (target : TargetRecordV1) (state : artifact_state) (binding : TargetBindingV1) : result artifact_state :=
  bindingContract ← resolved_as view as_binding_contract "binding resolves an incompatible contract" (binding_Contract binding);
  _ ← reject_if (negb (bool_decide (bc_Name bindingContract = binding_Name binding))) "binding resolves an incompatible contract";
  _ ← validatePackageSetReferencesV1 view (binding_PackageSets binding) target;
  _ ← validateDeclaredProfiles declared (binding_ValidationProfiles binding);
  state ← carry (addArtifact target (binding_Name binding)) state (binding_Artifacts binding);
  carry (addArtifact target "") state (binding_Payloads binding).
Definition add_selection (target : TargetRecordV1) (state : artifact_state) (selection : TargetSelectionV1) : result artifact_state :=
  _ ← validatePackageSetReferencesV1 view (selection_PackageSets selection) target;
  _ ← validateDeclaredProfiles declared (selection_ValidationProfiles selection);
  carry (addArtifact target "") state (selection_Payloads selection).

(** The identities of the targets so far, and the artifacts they reach. *)
Definition graph_state : Type := list TargetIdentityV1 * artifact_state.
Definition add_target (state : graph_state) (reference : RecordReferenceV1) : result graph_state :=
  target ← resolved_as view as_target "release target reference resolves to a non-target record" reference;
  _ ← validateTargetAgainstContractV1 contract target;
  _ ← validateTargetBindingsAgainstContractsV1 view target;
  _ ← reject_if (bool_decide (target_Target target ∈ state.1)) "release targets describe the same target";
  _ ← validateDeclaredProfiles declared (target_ValidationProfiles target);
  _ ← validatePackageSetReferencesV1 view (target_PackageSets target) target;
  fixtures ← mapM (check_target_fixture target) (IntegrationFixtures target);
  artifacts ← carry (add_binding target) state.2 (target_Bindings target);
  artifacts ← carry (addArtifact target "") artifacts (target_Payloads target);
  artifacts ← carry (add_selection target) artifacts (target_Selections target);
  _ ← validateTargetFixtureCoverageV1 view contract target fixtures;
  Ok (target_Target target :: state.1, artifacts).

Definition mapped_artifact (value : RecordV1) : option (string * string * string) :=
  match value with
  | BindingArtifactRecord artifact => Some (ba_SHA256 artifact, ba_Size artifact, ba_Resolver artifact)
  | PayloadRecord payload => Some (payload_SHA256 payload, payload_Size payload, payload_Resolver payload)
  | _ => None
  end.
Definition add_mapping (reached : gmap string (gset string)) (mapped : gset string) (mapping : ArtifactSourceMappingV1) : result (gset string) :=
  artifact ← resolvedRecordV1 view (mapping_Artifact mapping);
  match mapped_artifact (record_Value artifact) with
  | None => Err "artifact source mapping references a non-artifact record"
  | Some (artifactSHA256, artifactSize, artifactResolver) =>
    source ← resolved_as view as_source "artifact source mapping references a non-source record" (mapping_Source mapping);
    _ ← reject_if (negb (bool_decide (ArtifactSHA256 mapping = artifactSHA256)) || negb (bool_decide (ArtifactSHA256 mapping = source_SHA256 source)))
          "artifact source mapping content digests disagree";
    _ ← reject_if (bool_decide (artifactSize = "")) "artifact source mapping references an artifact without an exact size";
    _ ← reject_if (negb (containsRecordValueV1 (ResolverPrimitives contract) artifactResolver))
          "artifact source mapping uses a resolver outside the release contract";
    match reached !! ArtifactSHA256 mapping with
    | None => Err "artifact source mapping is not reachable from an advertised target"
    | Some group =>
      _ ← reject_if (negb (bool_decide (record_ID artifact ∈ group))) "artifact source mapping names an artifact outside its reachable content group";
      _ ← reject_if (bool_decide (ArtifactSHA256 mapping ∈ mapped)) "artifact content digest has more than one source mapping";
      Ok ({[ArtifactSHA256 mapping]} ∪ mapped)
    end
  end.
End target.

Definition validateManifestResolvedGraphV1 : result unit :=
  contract ← resolved_as view as_contract "release contract reference resolves to a non-contract record" (manifest_Contract manifest);
  declared ← carry declare_profile ∅ (manifest_ValidationProfiles manifest);
  state ← carry (add_target contract declared) ([], Reached ∅ ∅) (Targets manifest);
  mapped ← carry (add_mapping contract (reachableArtifacts state.2)) ∅ (ArtifactSources manifest);
  reject_if (negb (bool_decide (dom (reachableArtifacts state.2) ⊆ mapped))) "reachable artifact content digest has no source mapping".
End release.

(** ** The loaded catalog *)

Section catalog.
Context (catalog : CatalogV1).

Definition check_release (reference : RecordReferenceV1) : result unit :=
  view ← resolvedViewV1 catalog (reference_key reference);
  manifest ← resolved_as view as_manifest "release is not a manifest" reference;
  validateManifestResolvedGraphV1 manifest view.
Definition check_tool (toolName : string) : result unit :=
  let toolKey := tool_key catalog toolName in
  match records catalog !! toolKey with
  | Some record =>
    match record_Value record with
    | ToolRecord tool =>
      index ← releaseIndexViewV1 catalog record toolKey tool;
      _ ← validateToolReleaseIndexV1 tool index;
      for_each check_release (Releases tool)
    | _ => Err "tool does not resolve to a tool record"
    end
  | None => Err "tool does not resolve to a tool record"
  end.
Definition validateReleaseGraphsV1 : result unit := for_each check_tool (Names catalog).

Definition validateLoadedCatalogV1 : result unit :=
  _ ← reject_if (bool_decide (records catalog = ∅) || bool_decide (tools catalog = ∅)) "portable tool catalog is empty";
  _ ← verifyReferenceDepthV1 catalog;
  _ ← validateCatalogGraphV1 catalog;
  validateReleaseGraphsV1.
End catalog.
End schemes.
