(* ===== verification/ToolClaims.v ===== *)
(** * Claims of a joint tool resolution

    [internal/toolcatalog/solver.go]: what the active providers and the candidates
    of a resolution claim (paths, names, packages, interpreters), and the
    conflicts between claims in one domain.

    Go passes the claims by pointer and abandons them at the first conflict, so an
    operation returns the new claims, or the conflict, or an error.  The texts of
    conflicts leave the interpolated values out; no code reads them.  Go tells a
    conflict by its text not being empty.  Two tables that only memoise
    ([bindingDistributions], and the cached compatibility) are left out: their
    keys determine what they hold.

    What the Python provider says about package roots, and the quoting of
    [strconv], are the class [ToolPorts]. *)

From Stdlib Require Import Ascii.
From S2P Require Import Prelude GoText PythonClaim PythonVersion AptRequest ToolRecords ToolCatalog ToolVersions PythonRoots.

Open Scope Z_scope.

(** ** Outcomes *)

Inductive verdict (A : Type) : Type :=
| Accepted (value : A)
| Conflict (message : string)
| Failed (message : string).
Arguments Accepted {A} _.
Arguments Conflict {A} _.
Arguments Failed {A} _.
#[export] Instance verdict_ret : MRet verdict := λ A x, Accepted x.
#[export] Instance verdict_bind : MBind verdict := λ A B f v,
  match v with Accepted x => f x | Conflict m => Conflict m | Failed m => Failed m end.

Definition lift {A} (r : result A) : verdict A := match r with Ok x => Accepted x | Err m => Failed m end.
Definition conflict_if (condition : bool) (message : string) : verdict unit :=
  if condition then Conflict message else Accepted tt.

(** A loop over [items] that stops at the first conflict or error. *)
Fixpoint each {S X} (step : S → X → verdict S) (state : S) (items : list X) : verdict S :=
  match items with
  | [] => Accepted state
  | item :: rest => state ← step state item; each step state rest
  end.

(** ** The Python provider's package roots *)

Record OrdinaryRequirementClaimV1 := { Distribution : string; Root : string; SourceKind : string }.
Class ToolPorts := {
  PackageRootDistributionNameV1 : string → result string;
  PackageRootRequirementsCompatibleV1 : list string → compatibility;
  ProjectOrdinaryRequirementClaimV1 : string → result OrdinaryRequirementClaimV1;
  quote : string → string
}.
(** [internal/providers/python] answers with the functions of PythonRoots.v. *)
Definition python_ports {schemes : VersionSchemes} (fold_rune : Z → Z)
    (project : string → result OrdinaryRequirementClaimV1) (quoted : string → string) : ToolPorts := {|
  PackageRootDistributionNameV1 := PythonPackageRootDistributionNameV1;
  PackageRootRequirementsCompatibleV1 := PythonPackageRootRequirementsCompatibleV1 fold_rune;
  ProjectOrdinaryRequirementClaimV1 := project; quote := quoted |}.

(** ** Claims *)

Record ProviderDomainSetV1 := {
  Scope : string; PackageManager : string; domain_Binding : string; Filesystem : string; domain_Environment : string;
  domain_Exports : string; Capabilities : string
}.
Record semanticClaimV1 := SemanticClaim { sc_owner : string; sc_value : string }.
Record ownedPathClaimV1 := PathClaim { pc_owner : string; pc_path : string; pc_value : string }.
Record bindingRequirementClaimV1 := { br_owners : list string; br_requirements : list string; br_seen : gset string }.
Record pythonInterpreterClaimV1 := {
  pi_owners : list string; pi_constraints : list (list string); pi_supported : list string;
  pi_versionOwners : list string; pi_versionConstraints : list string
}.
Record pythonSourceClaimV1 := { ps_owners : list string; unproven : bool }.
Record pythonOverrideClaimV1 := { po_owners : list string; local : bool }.

Record assignmentClaimsV1 := MakeClaims {
  semantic : gmap string semanticClaimV1;
  paths : gmap string (list ownedPathClaimV1);
  installRoots : gmap string (list ownedPathClaimV1);
  ordinaryPaths : gmap string (list ownedPathClaimV1);
  aliases : gmap string (list ownedPathClaimV1);
  bindingRequirements : gmap string bindingRequirementClaimV1;
  pythonInterpreters : gmap string pythonInterpreterClaimV1;
  pythonOverrides : gmap string (gmap string pythonOverrideClaimV1);
  pythonSources : gmap string (gmap string pythonSourceClaimV1)
}.
Definition no_claims : assignmentClaimsV1 := MakeClaims ∅ ∅ ∅ ∅ ∅ ∅ ∅ ∅ ∅.

Definition set_semantic c x := MakeClaims x (paths c) (installRoots c) (ordinaryPaths c) (aliases c)
  (bindingRequirements c) (pythonInterpreters c) (pythonOverrides c) (pythonSources c).
Definition set_paths c x := MakeClaims (semantic c) x (installRoots c) (ordinaryPaths c) (aliases c)
  (bindingRequirements c) (pythonInterpreters c) (pythonOverrides c) (pythonSources c).
Definition set_installRoots c x := MakeClaims (semantic c) (paths c) x (ordinaryPaths c) (aliases c)
  (bindingRequirements c) (pythonInterpreters c) (pythonOverrides c) (pythonSources c).
Definition set_ordinaryPaths c x := MakeClaims (semantic c) (paths c) (installRoots c) x (aliases c)
  (bindingRequirements c) (pythonInterpreters c) (pythonOverrides c) (pythonSources c).
Definition set_aliases c x := MakeClaims (semantic c) (paths c) (installRoots c) (ordinaryPaths c) x
  (bindingRequirements c) (pythonInterpreters c) (pythonOverrides c) (pythonSources c).
Definition set_bindingRequirements c x := MakeClaims (semantic c) (paths c) (installRoots c) (ordinaryPaths c) (aliases c)
  x (pythonInterpreters c) (pythonOverrides c) (pythonSources c).
Definition set_pythonInterpreters c x := MakeClaims (semantic c) (paths c) (installRoots c) (ordinaryPaths c) (aliases c)
  (bindingRequirements c) x (pythonOverrides c) (pythonSources c).
Definition set_pythonOverrides c x := MakeClaims (semantic c) (paths c) (installRoots c) (ordinaryPaths c) (aliases c)
  (bindingRequirements c) (pythonInterpreters c) x (pythonSources c).
Definition set_pythonSources c x := MakeClaims (semantic c) (paths c) (installRoots c) (ordinaryPaths c) (aliases c)
  (bindingRequirements c) (pythonInterpreters c) (pythonOverrides c) x.

(** The NUL byte between the parts of a key. *)
Definition nul : string := String "000"%char "".
Definition at_domain {A} (table : gmap string (list A)) (domain : string) : list A := default [] (table !! domain).

(** ** Named values *)

Definition semantic_key (kind domain key : string) : string := kind +:+ nul +:+ domain +:+ nul +:+ key.
Definition addSemanticClaimV1 (claims : assignmentClaimsV1) (kind domain key value owner : string) : verdict assignmentClaimsV1 :=
  let claimKey := semantic_key kind domain key in
  match semantic claims !! claimKey with
  | Some previous => _ ← conflict_if (negb (bool_decide (sc_value previous = value))) "semantic conflict"; Accepted claims
  | None => Accepted (set_semantic claims (<[claimKey := SemanticClaim owner value]> (semantic claims)))
  end.

(** ** Paths *)

Definition pathsOverlapV1 (left right : string) : bool :=
  bool_decide (left = right) || has_prefix left (right +:+ "/") || has_prefix right (left +:+ "/").

Definition filesystem_conflict : string := "filesystem conflict".
(** A loop that lets every claim pass that [ok] accepts. *)
Definition refuse_unless (ok : ownedPathClaimV1 → bool) (claims : list ownedPathClaimV1) : verdict unit :=
  conflict_if (negb (forallb ok claims)) filesystem_conflict.
(** [owner]'s own path strictly inside the directory [outer], or no overlap. *)
Definition apart (path : string) (previous : ownedPathClaimV1) : bool := negb (pathsOverlapV1 (pc_path previous) path).
Definition own (owner : string) (previous : ownedPathClaimV1) : bool := bool_decide (pc_owner previous = owner).
Definition inside (path outer : string) : bool := has_prefix path (outer +:+ "/").

Definition addOwnedPathClaimV1 (claims : assignmentClaimsV1) (domain claimedPath value owner : string) : verdict assignmentClaimsV1 :=
  let cleaned := path_clean claimedPath in
  let same (previous : ownedPathClaimV1) := bool_decide (pc_path previous = cleaned) && bool_decide (pc_value previous = value) in
  _ ← refuse_unless (λ p, apart cleaned p || same p) (at_domain (paths claims) domain);
  let duplicate := existsb (λ p, pathsOverlapV1 (pc_path p) cleaned && same p) (at_domain (paths claims) domain) in
  _ ← refuse_unless (λ p, apart cleaned p || own owner p) (at_domain (ordinaryPaths claims) domain);
  _ ← refuse_unless (λ p, apart cleaned p || own owner p && inside (pc_path p) cleaned) (at_domain (aliases claims) domain);
  if duplicate then Accepted claims
  else Accepted (set_paths claims
    (<[domain := at_domain (paths claims) domain ++ [PathClaim owner cleaned value]]> (paths claims))).

(** A loop that ends at the first overlap: [settled] tells whether it is the same claim. *)
Definition first_overlap (cleaned : string) (settled : ownedPathClaimV1 → bool) (previous : list ownedPathClaimV1)
    (claims : assignmentClaimsV1) (continue : verdict assignmentClaimsV1) : verdict assignmentClaimsV1 :=
  match find_first (λ p, pathsOverlapV1 (pc_path p) cleaned) previous with
  | Some p => if settled p then Accepted claims else Conflict filesystem_conflict
  | None => continue
  end.

Definition addInstallRootClaimV1 (claims : assignmentClaimsV1) (domain claimedPath owner : string) : verdict assignmentClaimsV1 :=
  let cleaned := path_clean claimedPath in
  first_overlap cleaned (λ p, bool_decide (pc_path p = cleaned)) (at_domain (installRoots claims) domain) claims
    (_ ← refuse_unless (λ p, apart cleaned p || own owner p) (at_domain (ordinaryPaths claims) domain);
     _ ← refuse_unless (λ p, apart cleaned p || own owner p && inside (pc_path p) cleaned) (at_domain (aliases claims) domain);
     Accepted (set_installRoots claims
       (<[domain := at_domain (installRoots claims) domain ++ [PathClaim owner cleaned cleaned]]> (installRoots claims)))).

Definition addOrdinaryPathClaimV1 (claims : assignmentClaimsV1) (domain claimedPath value owner : string)
    : verdict assignmentClaimsV1 :=
  let cleaned := path_clean claimedPath in
  first_overlap cleaned (λ p, bool_decide (pc_path p = cleaned) && bool_decide (pc_value p = value))
    (at_domain (ordinaryPaths claims) domain) claims
    (_ ← refuse_unless (λ p, apart cleaned p || own owner p) (at_domain (installRoots claims) domain);
     _ ← refuse_unless (apart cleaned) (at_domain (paths claims) domain);
     _ ← refuse_unless (apart cleaned) (at_domain (aliases claims) domain);
     Accepted (set_ordinaryPaths claims
       (<[domain := at_domain (ordinaryPaths claims) domain ++ [PathClaim owner cleaned value]]> (ordinaryPaths claims)))).

Definition addAliasPathClaimV1 (claims : assignmentClaimsV1) (domain claimedPath value owner : string) : verdict assignmentClaimsV1 :=
  let cleaned := path_clean claimedPath in
  let nested p := apart cleaned p || own owner p && inside cleaned (pc_path p) in
  first_overlap cleaned (λ p, bool_decide (pc_path p = cleaned) && (bool_decide (pc_value p = value) || own owner p))
    (at_domain (aliases claims) domain) claims
    (_ ← refuse_unless nested (at_domain (paths claims) domain);
     _ ← refuse_unless (apart cleaned) (at_domain (ordinaryPaths claims) domain);
     _ ← refuse_unless nested (at_domain (installRoots claims) domain);
     Accepted (set_aliases claims
       (<[domain := at_domain (aliases claims) domain ++ [PathClaim owner cleaned value]]> (aliases claims)))).

(** ** Python interpreters and overrides *)

(** Whether one of the [supported] claims meets all constraints together; the loop
    stops at the first that does. *)
Fixpoint meets (conjunction : string) (supported : list string) : verdict unit :=
  match supported with
  | [] => Conflict "Python interpreter conflict"
  | claim :: rest =>
    match PythonRequiresPythonIntersectsClaimV1 conjunction claim with
    | Err _ => Conflict "invalid Python interpreter constraint"
    | Ok true => Accepted tt
    | Ok false => meets conjunction rest
    end
  end.
Definition validatePythonInterpreterConstraintsV1 (supported constraints : list string) : verdict unit :=
  if bool_decide (supported = []) || bool_decide (constraints = []) then Accepted tt
  else meets (join constraints ",") supported.

Definition no_interpreter : pythonInterpreterClaimV1 :=
  {| pi_owners := []; pi_constraints := []; pi_supported := []; pi_versionOwners := []; pi_versionConstraints := [] |}.

Definition supported_claim (previous : pythonInterpreterClaimV1) (owner : string) (constraint supported : list string)
    : pythonInterpreterClaimV1 :=
  {| pi_owners := pi_owners previous ++ [owner]; pi_constraints := pi_constraints previous ++ [constraint];
     pi_supported := supported; pi_versionOwners := pi_versionOwners previous;
     pi_versionConstraints := pi_versionConstraints previous |}.

Definition addPythonInterpreterClaimV1 (claims : assignmentClaimsV1) (domain : string) (supported : list string) (owner : string)
    : verdict assignmentClaimsV1 :=
  match NormalizeSupportedPythonClaimsV1 supported with
  | Err _ => Conflict "invalid Python interpreter claim"
  | Ok normalized =>
    if bool_decide (normalized = []) then Accepted claims else
    let put claim := Accepted (set_pythonInterpreters claims (<[domain := claim]> (pythonInterpreters claims))) in
    match pythonInterpreters claims !! domain with
    | None => put (supported_claim no_interpreter owner normalized normalized)
    | Some previous =>
      if bool_decide (pi_supported previous = []) then
        _ ← validatePythonInterpreterConstraintsV1 normalized (pi_versionConstraints previous);
        put (supported_claim previous owner supported normalized)
      else
        match IntersectSupportedPythonClaimsV1 (pi_supported previous) normalized with
        | Err _ => Conflict "invalid Python interpreter claim"
        | Ok intersection =>
          _ ← conflict_if (bool_decide (intersection = [])) "Python interpreter conflict";
          _ ← validatePythonInterpreterConstraintsV1 intersection (pi_versionConstraints previous);
          put (supported_claim previous owner supported intersection)
        end
    end
  end.

Definition addPythonInterpreterConstraintV1 (claims : assignmentClaimsV1) (domain constraint owner : string)
    : verdict assignmentClaimsV1 :=
  match PythonRequiresPythonIntersectsClaimV1 constraint "3.0" with
  | Err _ => Conflict "invalid Python interpreter constraint"
  | Ok _ =>
    let previous := default no_interpreter (pythonInterpreters claims !! domain) in
    _ ← validatePythonInterpreterConstraintsV1 (pi_supported previous) (pi_versionConstraints previous ++ [constraint]);
    Accepted (set_pythonInterpreters claims (<[domain :=
      {| pi_owners := pi_owners previous; pi_constraints := pi_constraints previous; pi_supported := pi_supported previous;
         pi_versionOwners := pi_versionOwners previous ++ [owner];
         pi_versionConstraints := pi_versionConstraints previous ++ [constraint] |}]> (pythonInterpreters claims)))
  end.

Definition addPythonOverrideClaimV1 (claims : assignmentClaimsV1) (domain distribution : string) (isLocal : bool) (owner : string)
    : verdict assignmentClaimsV1 :=
  let byDistribution := default ∅ (pythonOverrides claims !! domain) in
  let put claim := Accepted (set_pythonOverrides claims
    (<[domain := <[distribution := claim]> byDistribution]> (pythonOverrides claims))) in
  match byDistribution !! distribution with
  | None => put {| po_owners := [owner]; local := isLocal |}
  | Some previous =>
    if Bool.eqb (local previous) isLocal then put {| po_owners := po_owners previous ++ [owner]; local := isLocal |}
    else Conflict "Python package override conflict"
  end.

(** ** Requirements of a binding *)

Definition addBindingRequirementClaimV1 (claims : assignmentClaimsV1) (domain key requirement owner : string)
    : verdict assignmentClaimsV1 :=
  let claimKey := domain +:+ nul +:+ key in
  let put claim := Accepted (set_bindingRequirements claims (<[claimKey := claim]> (bindingRequirements claims))) in
  match bindingRequirements claims !! claimKey with
  | None => put {| br_owners := [owner]; br_requirements := [requirement]; br_seen := {[requirement]} |}
  | Some previous =>
    if bool_decide (requirement ∈ br_seen previous) then Accepted claims
    else put {| br_owners := br_owners previous ++ [owner]; br_requirements := br_requirements previous ++ [requirement];
                br_seen := {[requirement]} ∪ br_seen previous |}
  end.

Section ports.
Context {ports : ToolPorts}.

Definition addBindingRequirementTextClaimV1 (claims : assignmentClaimsV1) (domain requirement owner : string)
    : verdict assignmentClaimsV1 :=
  distribution ← lift (PackageRootDistributionNameV1 requirement);
  addBindingRequirementClaimV1 claims domain distribution requirement owner.

Fixpoint check_binding_requirements (complete : bool) (entries : list (string * bindingRequirementClaimV1)) : verdict unit :=
  match entries with
  | [] => Accepted tt
  | (_, claim) :: rest =>
    match PackageRootRequirementsCompatibleV1 (br_requirements claim) with
    | Compatible true => check_binding_requirements complete rest
    | Compatible false => Conflict "binding requirement conflict"
    | Unproven => if complete then Conflict "binding requirement compatibility cannot be proven"
                  else check_binding_requirements complete rest
    | Incomparable message => Failed message
    end
  end.
Definition key_le (left right : string * bindingRequirementClaimV1) : Prop := String.le left.1 right.1.
#[export] Instance key_le_dec left right : Decision (key_le left right).
Proof. unfold key_le. apply _. Defined.
Definition validateBindingRequirementClaimsV1 (claims : assignmentClaimsV1) (complete : bool) : verdict unit :=
  check_binding_requirements complete (merge_sort key_le (map_to_list (bindingRequirements claims))).

(** ** What the active providers claim *)

Record ConstraintSourceV1 := MakeSource { source_Kind : string; source_key : string }.
Record ActiveNativePackageConstraintV1 := {
  an_Manager : string; an_Requirements : list string; an_Repositories : list string }.
Record ActivePythonOverrideConstraintV1 := { ao_Distribution : string; ao_Kind : string; ao_Version : string }.
Record ActivePythonBindingConstraintV1 := {
  ap_Name : string; ap_Requirements : list string; ap_SupportedPython : list string;
  ap_InterpreterConstraints : list string; ap_Overrides : list ActivePythonOverrideConstraintV1
}.
Record ActiveFilesystemConstraintV1 := { af_Path : string; af_Digest : string }.
Record ActiveProviderConstraintSourceV1 := {
  as_Scope : string; as_Source : ConstraintSourceV1; NativePackages : list ActiveNativePackageConstraintV1;
  PythonBindings : list ActivePythonBindingConstraintV1; InstallRoots : list string;
  OwnedPaths : list ActiveFilesystemConstraintV1; Artifacts : list ActiveFilesystemConstraintV1;
  as_Environment : list RecordEnvironmentVariableV1; as_Exports : list ToolExportV1; as_Capabilities : list ToolExportV1
}.

Definition constraintOwnerLabelV1 (source : ConstraintSourceV1) : string :=
  source_Kind source +:+ " " +:+ quote (source_key source).
Definition activeConstraintOwnerLabelV1 (source : ActiveProviderConstraintSourceV1) : string :=
  constraintOwnerLabelV1 (as_Source source) +:+ " in scope " +:+ quote (as_Scope source).
Definition providerBindingDomainV1 (domains : ProviderDomainSetV1) : string :=
  if bool_decide (domain_Binding domains = "") then PackageManager domains else domain_Binding domains.

Definition package_key (manager name : string) : string := manager +:+ "/" +:+ name.
Definition claim_package (domains : ProviderDomainSetV1) (owner manager : string) claims requirement :=
  parsed ← lift (ParseAPTPackageRequest requirement);
  addSemanticClaimV1 claims "package requirement" (PackageManager domains) (package_key manager (apt_Name parsed)) requirement owner.
Definition claim_repository (domains : ProviderDomainSetV1) (owner manager : string) claims repository :=
  addSemanticClaimV1 claims "package repository requirement" (PackageManager domains) (package_key manager repository)
    repository owner.
Definition claim_native (domains : ProviderDomainSetV1) (owner : string) claims packages :=
  claims ← each (claim_package domains owner (an_Manager packages)) claims (an_Requirements packages);
  each (claim_repository domains owner (an_Manager packages)) claims (an_Repositories packages).

Definition note_source (claims : assignmentClaimsV1) (domain : string) (projected : OrdinaryRequirementClaimV1) (owner : string)
    : assignmentClaimsV1 :=
  let byDistribution := default ∅ (pythonSources claims !! domain) in
  let previous := default {| ps_owners := []; unproven := false |} (byDistribution !! Distribution projected) in
  let claim := {| ps_owners := ps_owners previous ++ [owner];
                  unproven := unproven previous || bool_decide (Root projected = "") |} in
  set_pythonSources claims (<[domain := <[Distribution projected := claim]> byDistribution]> (pythonSources claims)).
Definition claim_requirement (domain owner : string) claims requirement :=
  projected ← lift (ProjectOrdinaryRequirementClaimV1 requirement);
  let claims := if bool_decide (SourceKind projected = "") then claims else note_source claims domain projected owner in
  if bool_decide (Root projected = "") then Accepted claims
  else addBindingRequirementTextClaimV1 claims domain (Root projected) owner.
Definition claim_override (domain owner : string) claims override :=
  if bool_decide (ao_Kind override = "version") then
    claims ← addPythonOverrideClaimV1 claims domain (ao_Distribution override) false owner;
    addBindingRequirementTextClaimV1 claims domain (ao_Distribution override +:+ "==" +:+ ao_Version override) owner
  else if bool_decide (ao_Kind override = "local") then
    addPythonOverrideClaimV1 claims domain (ao_Distribution override) true owner
  else Accepted claims.
Definition claim_python (domain owner : string) claims binding :=
  claims ← (if bool_decide (ap_SupportedPython binding = []) then Accepted claims
            else addPythonInterpreterClaimV1 claims domain (ap_SupportedPython binding) owner);
  claims ← each (claim_requirement domain owner) claims (ap_Requirements binding);
  claims ← each (λ claims constraint, addPythonInterpreterConstraintV1 claims domain constraint owner) claims
    (ap_InterpreterConstraints binding);
  each (claim_override domain owner) claims (ap_Overrides binding).

Definition claim_active (domainsByScope : gmap string ProviderDomainSetV1) claims (source : ActiveProviderConstraintSourceV1) :=
  match domainsByScope !! as_Scope source with
  | None => Failed "active provider constraint source names unavailable scope"
  | Some domains =>
    let owner := activeConstraintOwnerLabelV1 source in
    let named kind domain claims (item : ToolExportV1) :=
      addSemanticClaimV1 claims kind domain (export_Name item) (export_Path item) owner in
    claims ← each (claim_native domains owner) claims (NativePackages source);
    claims ← each (claim_python (providerBindingDomainV1 domains) owner) claims (PythonBindings source);
    claims ← each (λ claims root, addInstallRootClaimV1 claims (Filesystem domains) root owner) claims (InstallRoots source);
    claims ← each (λ claims owned, addOrdinaryPathClaimV1 claims (Filesystem domains) (af_Path owned) (af_Digest owned) owner)
      claims (OwnedPaths source);
    claims ← each (λ claims artifact, addSemanticClaimV1 claims "artifact logical path" (Filesystem domains)
      (af_Path artifact) (af_Digest artifact) owner) claims (Artifacts source);
    claims ← each (λ claims variable, addSemanticClaimV1 claims "environment" (domain_Environment domains)
      (variable_Name variable) (variable_Value variable) owner) claims (as_Environment source);
    claims ← each (named "export" (domain_Exports domains)) claims (as_Exports source);
    each (named "capability" (Capabilities domains)) claims (as_Capabilities source)
  end.
Definition domains_by_scope (domainSets : list ProviderDomainSetV1) : gmap string ProviderDomainSetV1 :=
  foldl (λ table domains, <[Scope domains := domains]> table) ∅ domainSets.
Definition addActiveProviderClaimsV1 (claims : assignmentClaimsV1) (domainSets : list ProviderDomainSetV1)
    (active : list ActiveProviderConstraintSourceV1) : verdict assignmentClaimsV1 :=
  each (claim_active (domains_by_scope domainSets)) claims active.

(** ** What a candidate claims *)

Record ReleaseCandidateV1 := {
  candidate_Scope : string; Manifest : ReleaseManifestV1; Contract : ReleaseContractV1; candidate_Target : TargetRecordV1;
  Fixture : IntegrationFixtureRecordV1; Profiles : list ValidationProfileRecordV1; Bindings : list string;
  candidate_Selections : gmap string (list string); Contributions : list RecordReferenceV1; Exports : list ToolExportV1
}.

Definition install_root (candidate : ReleaseCandidateV1) : string :=
  match Runtime (Contract candidate) with Some runtime => InstallRoot runtime | None => "" end.
Definition claim_runtime (domains : ProviderDomainSetV1) (owner : string) claims (runtime : RecordRuntimeV1) :=
  claims ← (if bool_decide (InstallRoot runtime = "") then Accepted claims
            else addInstallRootClaimV1 claims (Filesystem domains) (InstallRoot runtime) owner);
  each (λ claims variable, addSemanticClaimV1 claims "environment" (domain_Environment domains)
    (variable_Name variable) (variable_Value variable) owner) claims (Environment runtime).
Definition claim_export (domains : ProviderDomainSetV1) (owner : string) claims (exported : ToolExportV1) :=
  claims ← addSemanticClaimV1 claims "export" (domain_Exports domains) (export_Name exported) (export_Path exported) owner;
  claims ← addSemanticClaimV1 claims "capability" (Capabilities domains) (export_Name exported) (export_Path exported) owner;
  addAliasPathClaimV1 claims (Filesystem domains) (export_Path exported)
    (export_Name exported +:+ nul +:+ export_Path exported) owner.

Definition claim_set_package (domains : ProviderDomainSetV1) (owner manager : string) claims requirement :=
  packageName ← (if bool_decide (manager = "apt")
                 then parsed ← lift (ParseAPTPackageRequest requirement); Accepted (apt_Name parsed)
                 else Accepted requirement);
  addSemanticClaimV1 claims "package requirement" (PackageManager domains) (package_key manager packageName) requirement owner.

Definition claim_payload (domains : ProviderDomainSetV1) (owner value root : string) claims (payload : PayloadRecordV1) :=
  claims ← addSemanticClaimV1 claims "artifact logical path" (Filesystem domains) (LogicalPath payload) value owner;
  let installDirectory := if bool_decide (root = "") then InstallDirectory payload
                          else path_join [root; InstallDirectory payload] in
  addOwnedPathClaimV1 claims (Filesystem domains) installDirectory value owner.

Definition source_of (claims : assignmentClaimsV1) (domain distribution : string) : option pythonSourceClaimV1 :=
  default ∅ (pythonSources claims !! domain) !! distribution.
Definition override_of (claims : assignmentClaimsV1) (domain distribution : string) : option pythonOverrideClaimV1 :=
  default ∅ (pythonOverrides claims !! domain) !! distribution.

Definition claim_artifact (domains : ProviderDomainSetV1) (owner value : string) claims (artifact : BindingArtifactRecordV1) :=
  distribution ← lift (PackageRootDistributionNameV1 (ba_Name artifact));
  _ ← conflict_if (bool_decide (is_Some (source_of claims (providerBindingDomainV1 domains) distribution)))
        "Python source requirement conflict";
  addSemanticClaimV1 claims "artifact logical path" (Filesystem domains) (Filename artifact) value owner.

Definition claim_contract_requirement (domain owner : string) claims requirement :=
  distribution ← lift (PackageRootDistributionNameV1 requirement);
  _ ← conflict_if (match source_of claims domain distribution with Some source => unproven source | None => false end)
        "Python source requirement compatibility cannot be proven";
  _ ← conflict_if (match override_of claims domain distribution with Some override => local override | None => false end)
        "Python package override conflict";
  addBindingRequirementTextClaimV1 claims domain requirement owner.
Definition claim_contract (domains : ProviderDomainSetV1) (owner : string) claims (contract : BindingContractV1) :=
  let bindingDomain := providerBindingDomainV1 domains in
  claims ← addPythonInterpreterClaimV1 claims bindingDomain (SupportedPython contract) owner;
  each (claim_contract_requirement bindingDomain owner) claims (bc_Requirements contract).

Section catalog.
Context (catalog : CatalogV1).

Definition claim_contribution (domains : ProviderDomainSetV1) (owner root : string) claims (reference : RecordReferenceV1) :=
  record ← lift (exactRecordV1 catalog reference);
  let value := ref_Digest reference in
  match record_Value record with
  | NativePackageSet selected =>
    claims ← each (claim_set_package domains owner (Manager selected)) claims (ps_Requirements selected);
    each (claim_repository domains owner (Manager selected)) claims (Repositories selected)
  | PayloadRecord selected => claim_payload domains owner value root claims selected
  | BindingArtifactRecord selected => claim_artifact domains owner value claims selected
  | BindingContract selected => claim_contract domains owner claims selected
  | _ => Accepted claims
  end.

Definition addCandidateClaimsForAssignmentV1 (claims : assignmentClaimsV1) (domains : ProviderDomainSetV1) (owner : string)
    (candidate : ReleaseCandidateV1) : verdict assignmentClaimsV1 :=
  claims ← (match Runtime (Contract candidate) with
            | Some runtime => claim_runtime domains owner claims runtime
            | None => Accepted claims
            end);
  claims ← each (claim_export domains owner) claims (Exports candidate);
  each (claim_contribution domains owner (install_root candidate)) claims (Contributions candidate).

(** ** The conflict of a partial assignment *)

Record CanonicalBindingDemandV1 := { All : bool; Infer : bool; Explicit : list string }.
Record CanonicalRequirementGroupV1 := {
  group_Scope : string; group_Tool : string; VersionConstraints : list string; DefinitionRevision : string;
  Context_ : string; group_Binding : CanonicalBindingDemandV1; group_Selections : gmap string (list string)
}.
Record orderedCandidateSetV1 := {
  group : CanonicalRequirementGroupV1; candidates : list ReleaseCandidateV1; groupBytes : string; domains : ProviderDomainSetV1 }.

Definition candidate_owner (set : orderedCandidateSetV1) (candidate : ReleaseCandidateV1) : string :=
  constraintOwnerLabelV1 (MakeSource "tool-candidate"
    (group_Scope (group set) +:+ "/" +:+ group_Tool (group set) +:+ "@" +:+ Version (Manifest candidate)
     +:+ "~" +:+ Revision (Manifest candidate))).
Definition claim_candidate claims (choice : orderedCandidateSetV1 * ReleaseCandidateV1) :=
  addCandidateClaimsForAssignmentV1 claims (domains choice.1) (candidate_owner choice.1 choice.2) choice.2.

(** The claims of an assignment of candidates to the first sets. *)
Definition assignment_claims (domainSets : list ProviderDomainSetV1) (active : list ActiveProviderConstraintSourceV1)
    (sets : list orderedCandidateSetV1) (chosen : list ReleaseCandidateV1) : verdict assignmentClaimsV1 :=
  claims ← addActiveProviderClaimsV1 no_claims domainSets active;
  each claim_candidate claims (zip sets chosen).
Definition assignmentConflictV1 (domainSets : list ProviderDomainSetV1) (active : list ActiveProviderConstraintSourceV1)
    (sets : list orderedCandidateSetV1) (chosen : list ReleaseCandidateV1) : verdict unit :=
  claims ← assignment_claims domainSets active sets chosen;
  validateBindingRequirementClaimsV1 claims (length chosen =? length sets)%nat.
End catalog.
End ports.
