(* ===== verification/ToolClaimsFacts.v ===== *)
(** * What accepted claims guarantee

    Whatever the candidates of an accepted assignment and the active providers claim
    of the file system is recorded, or a claim that stands for it; the recorded claims
    come from them, and overlap only as tolerated.  So what is claimed overlaps only
    where it may ([coexist]).  And the named values of the candidates agree. *)

From Stdlib Require Import Ascii.
From S2P Require Import Prelude GoText PythonClaim PythonVersion AptRequest ToolRecords ToolCatalog ToolClaims.

Open Scope Z_scope.

(** ** Verdicts *)

Lemma bind_accepted {A B} (v : verdict A) (f : A → verdict B) b :
  (v ≫= f) = Accepted b ↔ ∃ a, v = Accepted a ∧ f a = Accepted b.
Proof.
  destruct v as [a|m|m]; simpl; [|split; [done|by intros (? & ? & _)]..].
  split; [by exists a|]. by intros (? & [= <-] & H).
Qed.

Lemma conflict_if_accepted c m u : conflict_if c m = Accepted u ↔ c = false.
Proof. destruct u. by destruct c. Qed.

Lemma lift_accepted {A} (r : result A) a : lift r = Accepted a ↔ r = Ok a.
Proof. destruct r; simpl; split; congruence. Qed.

Lemma refuse_unless_accepted ok claims u : refuse_unless ok claims = Accepted u ↔ Forall (λ p, ok p = true) claims.
Proof. unfold refuse_unless. rewrite conflict_if_accepted, negb_false_iff. apply Forall_bool. Qed.

(** A property that every step keeps is kept by the loop. *)
Definition keeps {S} (P : S → Prop) (step : S → verdict S) : Prop := ∀ s s', P s → step s = Accepted s' → P s'.

Lemma keeps_each {S X} (P : S → Prop) (step : S → X → verdict S) items :
  (∀ x, x ∈ items → keeps P (λ s, step s x)) → keeps P (λ s, each step s items).
Proof.
  intros Hstep s s'. revert s. induction items as [|x items IH]; intros s Hs; simpl; [by intros [= <-]|].
  intros (s1 & H1 & H)%bind_accepted. apply (IH (λ y Hy, Hstep y (list_elem_of_further _ _ _ Hy)) s1); [|done].
  by apply (Hstep x (list_elem_of_here _ _) s).
Qed.

(** ** Overlaps *)

Lemma overlap_sym p q : pathsOverlapV1 p q = pathsOverlapV1 q p.
Proof.
  unfold pathsOverlapV1. rewrite <-!orb_assoc, (orb_comm (has_prefix p _)). f_equal.
  by destruct (decide (p = q)) as [->|]; [|rewrite !bool_decide_false by congruence].
Qed.

Inductive path_class := Owned | Root_ | Ordinary | Alias_.
#[export] Instance path_class_eq_dec : EqDecision path_class.
Proof. solve_decision. Defined.

Definition table_of (class : path_class) (claims : assignmentClaimsV1) : gmap string (list ownedPathClaimV1) :=
  match class with
  | Owned => paths claims
  | Root_ => installRoots claims
  | Ordinary => ordinaryPaths claims
  | Alias_ => aliases claims
  end.

Definition overlap (p q : ownedPathClaimV1) : Prop := pathsOverlapV1 (pc_path p) (pc_path q) = true.

(** How a claim of one class may overlap a claim of another. *)
Definition tolerated (k l : path_class) (p q : ownedPathClaimV1) : Prop :=
  match k, l with
  | Owned, Root_ | Root_, Owned => True
  | Ordinary, (Owned | Root_) | (Owned | Root_), Ordinary => pc_owner p = pc_owner q
  | Alias_, (Owned | Root_) => pc_owner p = pc_owner q ∧ inside (pc_path p) (pc_path q) = true
  | (Owned | Root_), Alias_ => pc_owner p = pc_owner q ∧ inside (pc_path q) (pc_path p) = true
  | _, _ => False
  end.

(** Two claims at different places of the tables overlap only as tolerated. *)
Definition paths_ok (claims : assignmentClaimsV1) : Prop :=
  ∀ domain k l i j p q,
    at_domain (table_of k claims) domain !! i = Some p → at_domain (table_of l claims) domain !! j = Some q →
    (k, i) ≠ (l, j) → overlap p q → tolerated k l p q.

Lemma tolerated_sym k l p q : tolerated k l p q → tolerated l k q p.
Proof. by destruct k, l; simpl; intuition. Qed.

Definition extend (class : path_class) (claims : assignmentClaimsV1) (domain : string) (claim : ownedPathClaimV1)
    : assignmentClaimsV1 :=
  let table := <[domain := at_domain (table_of class claims) domain ++ [claim]]> (table_of class claims) in
  match class with
  | Owned => set_paths claims table
  | Root_ => set_installRoots claims table
  | Ordinary => set_ordinaryPaths claims table
  | Alias_ => set_aliases claims table
  end.

Lemma table_of_extend k class claims domain claim d :
  at_domain (table_of k (extend class claims domain claim)) d =
  at_domain (table_of k claims) d ++ (if bool_decide (k = class ∧ d = domain) then [claim] else []).
Proof.
  case_bool_decide as Hc.
  - destruct Hc as [-> ->]. destruct class; simpl; unfold at_domain; by rewrite lookup_insert_eq.
  - rewrite app_nil_r. destruct (decide (k = class)) as [->|Hk]; [|by destruct k, class].
    assert (domain ≠ d) by (by intros ->; apply Hc).
    destruct class; simpl; unfold at_domain; by rewrite lookup_insert_ne.
Qed.

(** Adding one claim: only its overlaps with what is there matter. *)
Lemma paths_ok_extend class claims domain claim : paths_ok claims →
  (∀ k q, q ∈ at_domain (table_of k claims) domain → overlap claim q → tolerated class k claim q) →
  paths_ok (extend class claims domain claim).
Proof.
  intros Hok Hnew d k l i j p q Hp Hq Hne Ho. rewrite table_of_extend in Hp, Hq.
  assert (∀ k i p, (at_domain (table_of k claims) d ++ (if bool_decide (k = class ∧ d = domain) then [claim] else [])) !! i = Some p →
    at_domain (table_of k claims) d !! i = Some p ∨
    k = class ∧ d = domain ∧ p = claim ∧ i = length (at_domain (table_of class claims) domain)) as Hcases.
  { intros k0 i0 p0 [H|[Hi H]]%lookup_app_Some; [by left|]. case_bool_decide as Hc; [|done]. destruct Hc as [-> ->].
    apply list_lookup_singleton_Some in H as [Hi0 <-]. right. split_and!; [done..|lia]. }
  destruct (Hcases _ _ _ Hp) as [Hp'|(-> & -> & -> & ->)], (Hcases _ _ _ Hq) as [Hq'|(-> & Hd & -> & ->)].
  - by apply (Hok d k l i j).
  - subst d. apply tolerated_sym, Hnew; [by eapply list_elem_of_lookup_2|].
    unfold overlap in *. by rewrite overlap_sym.
  - apply Hnew; [by eapply list_elem_of_lookup_2|done].
  - done.
Qed.

(** ** The four operations on paths *)

Lemma first_overlap_accepted cleaned settled previous claims next claims' :
  first_overlap cleaned settled previous claims next = Accepted claims' →
  claims' = claims ∨ next = Accepted claims' ∧ Forall (λ p, pathsOverlapV1 (pc_path p) cleaned = false) previous.
Proof.
  unfold first_overlap. destruct (find_first _ previous) as [p|] eqn:Hf.
  - destruct (settled p); [intros [= <-]; by left|done].
  - apply find_first_None in Hf. by right.
Qed.

Lemma apart_or {P : Prop} cleaned p (b : bool) owner value :
  apart cleaned p || b = true → (b = true → P) → overlap (PathClaim owner cleaned value) p → P.
Proof.
  unfold overlap. simpl. intros H Hb Ho. apply Hb. apply orb_true_iff in H as [H|H]; [|done].
  unfold apart in H. rewrite overlap_sym in H. by rewrite Ho in H.
Qed.

Lemma own_spec owner p : own owner p = true ↔ pc_owner p = owner.
Proof. unfold own. apply bool_decide_eq_true. Qed.

Lemma owned_keeps domain path value owner : keeps paths_ok (λ c, addOwnedPathClaimV1 c domain path value owner).
Proof.
  intros c c' Hc. unfold addOwnedPathClaimV1. intros ([] & Hp%refuse_unless_accepted & H)%bind_accepted.
  apply bind_accepted in H as ([] & Hord%refuse_unless_accepted & H).
  apply bind_accepted in H as ([] & Hal%refuse_unless_accepted & H).
  destruct (existsb _ _) eqn:Hdup; injection H as <-; [done|].
  apply (paths_ok_extend Owned); [done|]. intros k q Hq Ho.
  rewrite Forall_forall in Hp, Hord, Hal. destruct k; simpl in *.
  - refine (apart_or _ _ _ _ _ (Hp _ Hq) _ Ho). intros Hsame. exfalso.
    apply not_true_iff_false in Hdup. apply Hdup, existsb_exists. exists q. split; [by apply list_elem_of_In|].
    unfold overlap in Ho. rewrite overlap_sym. simpl in Ho. by rewrite Ho, Hsame.
  - done.
  - refine (apart_or _ _ _ _ _ (Hord _ Hq) _ Ho). by intros <-%own_spec.
  - refine (apart_or _ _ _ _ _ (Hal _ Hq) _ Ho). by intros [<-%own_spec Hin]%andb_true_iff.
Qed.

Lemma root_keeps domain path owner : keeps paths_ok (λ c, addInstallRootClaimV1 c domain path owner).
Proof.
  intros c c' Hc. unfold addInstallRootClaimV1. intros [->|[H Hr]]%first_overlap_accepted; [done|].
  apply bind_accepted in H as ([] & Hord%refuse_unless_accepted & H).
  apply bind_accepted in H as ([] & Hal%refuse_unless_accepted & [= <-]).
  apply (paths_ok_extend Root_); [done|]. intros k q Hq Ho. rewrite Forall_forall in Hr, Hord, Hal. destruct k; simpl in *.
  - done.
  - specialize (Hr _ Hq). simpl in Hr. unfold overlap in Ho. rewrite overlap_sym in Ho. simpl in Ho. congruence.
  - refine (apart_or _ _ _ _ _ (Hord _ Hq) _ Ho). by intros <-%own_spec.
  - refine (apart_or _ _ _ _ _ (Hal _ Hq) _ Ho). by intros [<-%own_spec Hin]%andb_true_iff.
Qed.

Lemma ordinary_keeps domain path value owner : keeps paths_ok (λ c, addOrdinaryPathClaimV1 c domain path value owner).
Proof.
  intros c c' Hc. unfold addOrdinaryPathClaimV1. intros [->|[H Hr]]%first_overlap_accepted; [done|].
  apply bind_accepted in H as ([] & Hroot%refuse_unless_accepted & H).
  apply bind_accepted in H as ([] & Hp%refuse_unless_accepted & H).
  apply bind_accepted in H as ([] & Hal%refuse_unless_accepted & [= <-]).
  apply (paths_ok_extend Ordinary); [done|]. intros k q Hq Ho. rewrite Forall_forall in Hr, Hroot, Hp, Hal.
  pose proof Ho as Ho'. unfold overlap in Ho'. rewrite overlap_sym in Ho'. destruct k; simpl in *.
  - specialize (Hp _ Hq). unfold apart in Hp. by rewrite Ho' in Hp.
  - refine (apart_or _ _ _ _ _ (Hroot _ Hq) _ Ho). by intros <-%own_spec.
  - specialize (Hr _ Hq). simpl in Hr. congruence.
  - specialize (Hal _ Hq). unfold apart in Hal. by rewrite Ho' in Hal.
Qed.

Lemma alias_keeps domain path value owner : keeps paths_ok (λ c, addAliasPathClaimV1 c domain path value owner).
Proof.
  intros c c' Hc. unfold addAliasPathClaimV1. intros [->|[H Hr]]%first_overlap_accepted; [done|].
  apply bind_accepted in H as ([] & Hp%refuse_unless_accepted & H).
  apply bind_accepted in H as ([] & Hord%refuse_unless_accepted & H).
  apply bind_accepted in H as ([] & Hroot%refuse_unless_accepted & [= <-]).
  apply (paths_ok_extend Alias_); [done|]. intros k q Hq Ho. rewrite Forall_forall in Hr, Hroot, Hp, Hord.
  pose proof Ho as Ho'. unfold overlap in Ho'. rewrite overlap_sym in Ho'. destruct k; simpl in *.
  - refine (apart_or _ _ _ _ _ (Hp _ Hq) _ Ho). by intros [<-%own_spec Hin]%andb_true_iff.
  - refine (apart_or _ _ _ _ _ (Hroot _ Hq) _ Ho). by intros [<-%own_spec Hin]%andb_true_iff.
  - specialize (Hord _ Hq). unfold apart in Hord. by rewrite Ho' in Hord.
  - specialize (Hr _ Hq). simpl in Hr. congruence.
Qed.

(** The claim that stands for another of its class in a table: the same path, and the
    same value, or for an export the same owner. *)
Definition stands_for (k : path_class) (owner value : string) (p : ownedPathClaimV1) : Prop :=
  match k with
  | Root_ => True
  | Owned | Ordinary => pc_value p = value
  | Alias_ => pc_value p = value ∨ pc_owner p = owner
  end.
Definition recorded (k : path_class) (domain owner path value : string) (claims : assignmentClaimsV1) : Prop :=
  ∃ p, p ∈ at_domain (table_of k claims) domain ∧ pc_path p = path ∧ stands_for k owner value p.
(** An operation that is accepted adds its claim, or finds one that stands for it. *)
Definition grown (k : path_class) (domain owner path value : string) (c c' : assignmentClaimsV1) : Prop :=
  (c' = c ∨ c' = extend k c domain (PathClaim owner path value)) ∧ recorded k domain owner path value c'.

Lemma grown_new k domain owner path value c :
  grown k domain owner path value c (extend k c domain (PathClaim owner path value)).
Proof.
  split; [by right|]. exists (PathClaim owner path value). rewrite table_of_extend, bool_decide_true by done.
  split; [set_solver|]. split; [done|]. destruct k; simpl; tauto.
Qed.
Lemma first_overlap_grown k domain owner cleaned value settled claims next claims' :
  first_overlap cleaned settled (at_domain (table_of k claims) domain) claims next = Accepted claims' →
  (∀ p, settled p = true → pc_path p = cleaned ∧ stands_for k owner value p) →
  (next = Accepted claims' → claims' = extend k claims domain (PathClaim owner cleaned value)) →
  grown k domain owner cleaned value claims claims'.
Proof.
  unfold first_overlap. intros H Hs Hn. destruct (find_first _ _) as [p|] eqn:Hf.
  - destruct (settled p) eqn:Hsp; [|done]. injection H as <-. split; [by left|]. exists p.
    apply find_first_Some in Hf as (l1 & l2 & -> & _ & _). split; [set_solver|]. by apply Hs.
  - rewrite (Hn H). apply grown_new.
Qed.
Ltac accepted_last H :=
  repeat (apply bind_accepted in H as (? & _ & H)); by injection H as <-.

Lemma owned_grown c domain path value owner c' :
  addOwnedPathClaimV1 c domain path value owner = Accepted c' → grown Owned domain owner (path_clean path) value c c'.
Proof.
  unfold addOwnedPathClaimV1. intros H. do 3 apply bind_accepted in H as (? & _ & H).
  destruct (existsb _ _) eqn:Hdup; injection H as <-; [|apply (grown_new Owned)]. split; [by left|].
  apply existsb_exists in Hdup as (p & Hp%list_elem_of_In & Hsame). go_bool. exists p. tauto.
Qed.
Lemma root_grown c domain path owner c' :
  addInstallRootClaimV1 c domain path owner = Accepted c' → grown Root_ domain owner (path_clean path) (path_clean path) c c'.
Proof.
  unfold addInstallRootClaimV1. intros H. eapply (first_overlap_grown Root_); [exact H| |].
  - intros p Hp%bool_decide_eq_true. done.
  - intros Hn. accepted_last Hn.
Qed.
Lemma ordinary_grown c domain path value owner c' :
  addOrdinaryPathClaimV1 c domain path value owner = Accepted c' → grown Ordinary domain owner (path_clean path) value c c'.
Proof.
  unfold addOrdinaryPathClaimV1. intros H. eapply (first_overlap_grown Ordinary); [exact H| |].
  - intros p [Hpath%bool_decide_eq_true Hp%bool_decide_eq_true]%andb_true_iff. done.
  - intros Hn. accepted_last Hn.
Qed.
Lemma alias_grown c domain path value owner c' :
  addAliasPathClaimV1 c domain path value owner = Accepted c' → grown Alias_ domain owner (path_clean path) value c c'.
Proof.
  unfold addAliasPathClaimV1. intros H. eapply (first_overlap_grown Alias_); [exact H| |].
  - intros p [Hpath Hp]%andb_true_iff. apply bool_decide_eq_true in Hpath. split; [done|]. apply orb_true_iff in Hp.
    destruct Hp as [Hp%bool_decide_eq_true|Hp%own_spec]; [by left|by right].
  - intros Hn. accepted_last Hn.
Qed.

(** The same claims in another order may conflict: an export that another tool
    already claims with the same name and path is accepted without a look at
    payload directories. *)
Example export_order_matters :
  let alias owner c := addAliasPathClaimV1 c "fs" "/opt/x/bin/t" "t" owner in
  let payload owner c := addOwnedPathClaimV1 c "fs" "/opt/x" "sha256" owner in
  (match (alias "x" no_claims ≫= payload "x") ≫= alias "y" with Accepted _ => true | _ => false end) = true ∧
  (alias "y" no_claims ≫= alias "x") ≫= payload "x" = Conflict filesystem_conflict.
Proof. vm_compute. done. Qed.

(** ** From the operations to whole assignments

    What a candidate, or an active provider, claims of the file system: its install
    root, its payload directories and its exports, or its roots and files. *)
Definition payload_place (candidate : ReleaseCandidateV1) (payload : PayloadRecordV1) : string :=
  if bool_decide (install_root candidate = "") then InstallDirectory payload
  else path_join [install_root candidate; InstallDirectory payload].
Inductive occupies (catalog : CatalogV1) (domains : ProviderDomainSetV1) (owner : string) (candidate : ReleaseCandidateV1)
    : path_class → string → string → string → string → Prop :=
| occupies_root runtime :
    Runtime (Contract candidate) = Some runtime → InstallRoot runtime ≠ "" →
    occupies catalog domains owner candidate Root_ (Filesystem domains) owner (path_clean (InstallRoot runtime)) (path_clean (InstallRoot runtime))
| occupies_export exported :
    exported ∈ Exports candidate →
    occupies catalog domains owner candidate Alias_ (Filesystem domains) owner (path_clean (export_Path exported))
      (export_Name exported +:+ nul +:+ export_Path exported)
| occupies_payload reference record payload :
    reference ∈ Contributions candidate → exactRecordV1 catalog reference = Ok record → record_Value record = PayloadRecord payload →
    occupies catalog domains owner candidate Owned (Filesystem domains) owner (path_clean (payload_place candidate payload))
      (ref_Digest reference).
Inductive source_occupies {ports : ToolPorts} (table : gmap string ProviderDomainSetV1) (source : ActiveProviderConstraintSourceV1)
    : path_class → string → string → string → string → Prop :=
| source_root domains root :
    table !! as_Scope source = Some domains → root ∈ InstallRoots source →
    source_occupies table source Root_ (Filesystem domains) (activeConstraintOwnerLabelV1 source) (path_clean root) (path_clean root)
| source_file domains file :
    table !! as_Scope source = Some domains → file ∈ OwnedPaths source →
    source_occupies table source Ordinary (Filesystem domains) (activeConstraintOwnerLabelV1 source) (path_clean (af_Path file)) (af_Digest file).

(** A property that every operation on claims keeps, those on the paths that [Q] names,
    is kept by everything that is built from them. *)
Record operations_keep (Q : path_class → string → string → string → string → Prop) (P : assignmentClaimsV1 → Prop) : Prop := {
  keep_semantic kind domain key value owner : keeps P (λ c, addSemanticClaimV1 c kind domain key value owner);
  keep_owned domain path value owner : Q Owned domain owner (path_clean path) value → keeps P (λ c, addOwnedPathClaimV1 c domain path value owner);
  keep_root domain path owner : Q Root_ domain owner (path_clean path) (path_clean path) → keeps P (λ c, addInstallRootClaimV1 c domain path owner);
  keep_ordinary domain path value owner : Q Ordinary domain owner (path_clean path) value → keeps P (λ c, addOrdinaryPathClaimV1 c domain path value owner);
  keep_alias domain path value owner : Q Alias_ domain owner (path_clean path) value → keeps P (λ c, addAliasPathClaimV1 c domain path value owner);
  keep_interpreter domain supported owner : keeps P (λ c, addPythonInterpreterClaimV1 c domain supported owner);
  keep_constraint domain constraint owner : keeps P (λ c, addPythonInterpreterConstraintV1 c domain constraint owner);
  keep_override domain distribution isLocal owner : keeps P (λ c, addPythonOverrideClaimV1 c domain distribution isLocal owner);
  keep_binding domain key requirement owner : keeps P (λ c, addBindingRequirementClaimV1 c domain key requirement owner);
  keep_source domain projected owner : ∀ c, P c → P (note_source c domain projected owner)
}.

Definition within (Q R : path_class → string → string → string → string → Prop) : Prop :=
  ∀ k domain owner path value, R k domain owner path value → Q k domain owner path value.

Section keeping.
Context {ports : ToolPorts} {Q : path_class → string → string → string → string → Prop} {P : assignmentClaimsV1 → Prop}.

Lemma verdict_bind_keeps (f : assignmentClaimsV1 → verdict assignmentClaimsV1) g :
  keeps P f → keeps P g → keeps P (λ c, f c ≫= g).
Proof. intros Hf Hg c c' Hc (c1 & H1 & H2)%bind_accepted. by apply (Hg c1); [apply (Hf c)|]. Qed.
Lemma keeps_guard {A} (v : assignmentClaimsV1 → verdict A) g :
  (∀ x, keeps P (λ c, g c x)) → keeps P (λ c, v c ≫= g c).
Proof. intros Hg c c' Hc (x & _ & H2)%bind_accepted. by apply (Hg x c). Qed.
Lemma keeps_lookup {A} (v : verdict A) g :
  (∀ x, v = Accepted x → keeps P (λ c, g c x)) → keeps P (λ c, v ≫= g c).
Proof. intros Hg c c' Hc (x & Hx & H2)%bind_accepted. by apply (Hg x Hx c). Qed.
Lemma keeps_accept : keeps P Accepted.
Proof. by intros c c' Hc [= <-]. Qed.
Lemma keeps_if (b : bool) f g : keeps P f → keeps P g → keeps P (λ c, if b then f c else g c).
Proof. by destruct b. Qed.

Context (HP : operations_keep Q P).
#[local] Set Default Proof Using "All".

Ltac next tac := eapply (verdict_bind_keeps (λ c, _)); [apply keeps_each; intros ? _; tac|].

Lemma text_claim_kept domain requirement owner : keeps P (λ c, addBindingRequirementTextClaimV1 c domain requirement owner).
Proof. unfold addBindingRequirementTextClaimV1. apply keeps_guard. intros. by apply (keep_binding _ _ HP). Qed.
Lemma package_kept domains owner manager requirement : keeps P (λ c, claim_package domains owner manager c requirement).
Proof. unfold claim_package. apply keeps_guard. intros. by apply (keep_semantic _ _ HP). Qed.
Lemma native_kept domains owner packages : keeps P (λ c, claim_native domains owner c packages).
Proof.
  unfold claim_native. eapply (verdict_bind_keeps (λ c, _)); apply keeps_each; intros ? _; [apply package_kept|by apply (keep_semantic _ _ HP)].
Qed.
Lemma requirement_kept domain owner requirement : keeps P (λ c, claim_requirement domain owner c requirement).
Proof.
  unfold claim_requirement. apply keeps_guard. intros projected c c' Hc.
  set (c1 := if bool_decide (SourceKind projected = "") then c else note_source c domain projected owner).
  assert (P c1) as Hc1 by (unfold c1; case_bool_decide; [done|by apply (keep_source _ _ HP)]).
  case_bool_decide; [by intros [= <-]|]. by apply text_claim_kept.
Qed.
Lemma override_kept domain owner override : keeps P (λ c, claim_override domain owner c override).
Proof.
  unfold claim_override. apply keeps_if; [|apply keeps_if; [by apply (keep_override _ _ HP)|apply keeps_accept]].
  eapply (verdict_bind_keeps (λ c, _)); [by apply (keep_override _ _ HP)|apply text_claim_kept].
Qed.
Lemma python_kept domain owner binding : keeps P (λ c, claim_python domain owner c binding).
Proof.
  unfold claim_python. eapply (verdict_bind_keeps (λ c, _)); [apply keeps_if; [apply keeps_accept|by apply (keep_interpreter _ _ HP)]|].
  eapply (verdict_bind_keeps (λ c, _)); [apply keeps_each; intros ? _; apply requirement_kept|].
  eapply (verdict_bind_keeps (λ c, _)); apply keeps_each; intros ? _; [by apply (keep_constraint _ _ HP)|apply override_kept].
Qed.
Lemma active_kept table source : within Q (source_occupies table source) → keeps P (λ c, claim_active table c source).
Proof.
  intros HQ. unfold claim_active. destruct (table !! _) as [domains|] eqn:Ht; [|by intros ? ? ?].
  next ltac:(apply native_kept). next ltac:(apply python_kept).
  eapply (verdict_bind_keeps (λ c, _)); [apply keeps_each; intros root Hin; apply (keep_root _ _ HP), HQ; by econstructor|].
  eapply (verdict_bind_keeps (λ c, _)); [apply keeps_each; intros file Hin; apply (keep_ordinary _ _ HP), HQ; by econstructor|].
  do 3 next ltac:(by apply (keep_semantic _ _ HP)).
  apply keeps_each. intros ? _. by apply (keep_semantic _ _ HP).
Qed.

Lemma export_kept domains owner exported :
  Q Alias_ (Filesystem domains) owner (path_clean (export_Path exported)) (export_Name exported +:+ nul +:+ export_Path exported) →
  keeps P (λ c, claim_export domains owner c exported).
Proof.
  intros HQ. unfold claim_export. eapply (verdict_bind_keeps (λ c, _)); [by apply (keep_semantic _ _ HP)|].
  eapply (verdict_bind_keeps (λ c, _)); [by apply (keep_semantic _ _ HP)|by apply (keep_alias _ _ HP)].
Qed.
Lemma runtime_kept domains owner runtime :
  (InstallRoot runtime ≠ "" → Q Root_ (Filesystem domains) owner (path_clean (InstallRoot runtime)) (path_clean (InstallRoot runtime))) →
  keeps P (λ c, claim_runtime domains owner c runtime).
Proof.
  intros HQ. unfold claim_runtime. eapply (verdict_bind_keeps (λ c, _)).
  { case_bool_decide; [apply keeps_accept|by apply (keep_root _ _ HP), HQ]. }
  apply keeps_each. intros ? _. by apply (keep_semantic _ _ HP).
Qed.
Lemma contract_requirement_kept domain owner requirement :
  keeps P (λ c, claim_contract_requirement domain owner c requirement).
Proof. unfold claim_contract_requirement. do 3 (apply keeps_guard; intros). apply text_claim_kept. Qed.
Lemma contribution_kept catalog domains owner candidate reference :
  reference ∈ Contributions candidate → within Q (occupies catalog domains owner candidate) →
  keeps P (λ c, claim_contribution catalog domains owner (install_root candidate) c reference).
Proof.
  intros Hin HQ. unfold claim_contribution. apply keeps_lookup. intros record Hr%lift_accepted.
  destruct (record_Value record) as [| | | |contract|artifact|payload| |packages| |] eqn:Hv; try apply keeps_accept.
  - unfold claim_contract. eapply (verdict_bind_keeps (λ c, _)); [by apply (keep_interpreter _ _ HP)|].
    apply keeps_each. intros ? _. apply contract_requirement_kept.
  - unfold claim_artifact. do 2 (apply keeps_guard; intros). by apply (keep_semantic _ _ HP).
  - unfold claim_payload. eapply (verdict_bind_keeps (λ c, _)); [by apply (keep_semantic _ _ HP)|]. apply (keep_owned _ _ HP), HQ. by eapply occupies_payload.
  - eapply (verdict_bind_keeps (λ c, _)); apply keeps_each; intros ? _; [|by apply (keep_semantic _ _ HP)].
    unfold claim_set_package. apply keeps_guard. intros. by apply (keep_semantic _ _ HP).
Qed.
Lemma candidate_kept catalog domains owner candidate : within Q (occupies catalog domains owner candidate) →
  keeps P (λ c, addCandidateClaimsForAssignmentV1 catalog c domains owner candidate).
Proof.
  intros HQ. unfold addCandidateClaimsForAssignmentV1. eapply (verdict_bind_keeps (λ c, _)).
  { destruct (Runtime _) as [runtime|] eqn:Hr; [|apply keeps_accept]. apply runtime_kept. intros. apply HQ. by eapply occupies_root. }
  eapply (verdict_bind_keeps (λ c, _)); apply keeps_each; intros x Hx; [|by apply contribution_kept].
  apply export_kept, HQ. by apply occupies_export.
Qed.

(** Everything that the parts of an assignment claim. *)
Inductive occupied (catalog : CatalogV1) (domainSets : list ProviderDomainSetV1) (active : list ActiveProviderConstraintSourceV1)
    (sets : list orderedCandidateSetV1) (chosen : list ReleaseCandidateV1) : path_class → string → string → string → string → Prop :=
| occupied_source source k domain owner path value :
    source ∈ active → source_occupies (domains_by_scope domainSets) source k domain owner path value →
    occupied catalog domainSets active sets chosen k domain owner path value
| occupied_candidate set candidate k domain owner path value :
    (set, candidate) ∈ zip sets chosen → occupies catalog (domains set) (candidate_owner set candidate) candidate k domain owner path value →
    occupied catalog domainSets active sets chosen k domain owner path value.
Lemma assignment_kept catalog domainSets active sets chosen claims :
  within Q (occupied catalog domainSets active sets chosen) → P no_claims →
  assignment_claims catalog domainSets active sets chosen = Accepted claims → P claims.
Proof.
  intros HQ H0 (c1 & H1 & H2)%bind_accepted.
  assert (P c1).
  { refine (keeps_each P _ _ _ _ _ H0 H1). intros source Hin. apply active_kept. intros k domain owner path value Hocc. apply HQ. by eapply occupied_source. }
  refine (keeps_each P _ _ _ _ _ _ H2); [|done]. intros [set candidate] Hin. apply candidate_kept.
  intros k domain owner path value Hocc. apply HQ.
  by eapply occupied_candidate.
Qed.
End keeping.

(** ** Paths of an assignment *)

Lemma paths_ok_same claims claims' : (∀ k, table_of k claims' = table_of k claims) → paths_ok claims → paths_ok claims'.
Proof. intros Hsame Hok d k l. rewrite !Hsame. apply Hok. Qed.

(** The operations that are not about paths leave the tables of paths alone. *)
Definition same_tables (c c' : assignmentClaimsV1) : Prop := ∀ k, table_of k c' = table_of k c.
Ltac same_tables :=
  let H := fresh in intros H;
  repeat match type of H with
  | Accepted _ = Accepted _ => injection H as <-
  | mbind _ _ = _ => apply bind_accepted in H as (? & _ & H)
  | (if ?b then _ else _) = _ => destruct b; [try discriminate H|try discriminate H]
  | (match ?x with _ => _ end) = _ => destruct x; try discriminate H
  end;
  by intros [].
Lemma semantic_tables c kind domain key value owner c' : addSemanticClaimV1 c kind domain key value owner = Accepted c' → same_tables c c'.
Proof. unfold addSemanticClaimV1. same_tables. Qed.
Lemma interpreter_tables c domain supported owner c' : addPythonInterpreterClaimV1 c domain supported owner = Accepted c' → same_tables c c'.
Proof. unfold addPythonInterpreterClaimV1. same_tables. Qed.
Lemma constraint_tables c domain constraint owner c' :
  addPythonInterpreterConstraintV1 c domain constraint owner = Accepted c' → same_tables c c'.
Proof. unfold addPythonInterpreterConstraintV1. same_tables. Qed.
Lemma override_tables c domain distribution isLocal owner c' :
  addPythonOverrideClaimV1 c domain distribution isLocal owner = Accepted c' → same_tables c c'.
Proof. unfold addPythonOverrideClaimV1. same_tables. Qed.
Lemma binding_tables c domain key requirement owner c' :
  addBindingRequirementClaimV1 c domain key requirement owner = Accepted c' → same_tables c c'.
Proof. unfold addBindingRequirementClaimV1. same_tables. Qed.

(** So a property of the tables is kept by all operations when those on paths keep it. *)
Lemma operations_keep_tables (Q : path_class → string → string → string → string → Prop) (P : assignmentClaimsV1 → Prop) :
  (∀ c c', same_tables c c' → P c → P c') →
  (∀ k domain owner path value c c', Q k domain owner path value → grown k domain owner path value c c' → P c → P c') →
  operations_keep Q P.
Proof.
  intros Hsame Hgrown. split.
  - intros ** c c' Hc H%semantic_tables. by eapply Hsame.
  - intros domain path value owner HQ c c' Hc H%owned_grown. by eapply Hgrown.
  - intros domain path owner HQ c c' Hc H%root_grown. by eapply Hgrown.
  - intros domain path value owner HQ c c' Hc H%ordinary_grown. by eapply Hgrown.
  - intros domain path value owner HQ c c' Hc H%alias_grown. by eapply Hgrown.
  - intros ** c c' Hc H%interpreter_tables. by eapply Hsame.
  - intros ** c c' Hc H%constraint_tables. by eapply Hsame.
  - intros ** c c' Hc H%override_tables. by eapply Hsame.
  - intros ** c c' Hc H%binding_tables. by eapply Hsame.
  - intros domain projected owner c. apply Hsame. by intros [].
Qed.

Lemma operations_keep_paths Q : operations_keep Q paths_ok.
Proof.
  assert (∀ c c', same_tables c c' → paths_ok c → paths_ok c') as Hsame by (intros; by eapply paths_ok_same).
  split.
  - intros ** c c' Hc H%semantic_tables. by eapply Hsame.
  - intros. apply owned_keeps.
  - intros. apply root_keeps.
  - intros. apply ordinary_keeps.
  - intros. apply alias_keeps.
  - intros ** c c' Hc H%interpreter_tables. by eapply Hsame.
  - intros ** c c' Hc H%constraint_tables. by eapply Hsame.
  - intros ** c c' Hc H%override_tables. by eapply Hsame.
  - intros ** c c' Hc H%binding_tables. by eapply Hsame.
  - intros domain projected owner c. apply Hsame. by intros [].
Qed.

Lemma no_paths : paths_ok no_claims.
Proof. intros d k l i j p q Hp. exfalso. destruct k; unfold at_domain in Hp; simpl in Hp; by rewrite lookup_empty in Hp. Qed.

(** ** Named values of an assignment *)

(** [key] is claimed with [value]. *)
Definition holds (key value : string) (claims : assignmentClaimsV1) : Prop :=
  ∃ claim, semantic claims !! key = Some claim ∧ sc_value claim = value.

Lemma holds_functional key v w claims : holds key v claims → holds key w claims → v = w.
Proof. intros (c & Hc & <-) (d & Hd & <-). congruence. Qed.

Lemma semantic_claim kind domain key value owner c c' :
  addSemanticClaimV1 c kind domain key value owner = Accepted c' →
  holds (semantic_key kind domain key) value c' ∧ ∀ k v, holds k v c → holds k v c'.
Proof.
  unfold addSemanticClaimV1. destruct (semantic c !! _) as [previous|] eqn:Hp.
  - intros ([] & Hv%conflict_if_accepted & [= <-])%bind_accepted.
    apply negb_false_iff, bool_decide_eq_true in Hv. split; [by exists previous|done].
  - intros [= <-]. split.
    + exists (SemanticClaim owner value). simpl. by rewrite lookup_insert_eq.
    + intros k v (claim & Hk & Hv). exists claim. simpl. rewrite lookup_insert_ne by congruence. done.
Qed.

Ltac same_semantic :=
  let c := fresh in let c' := fresh in let Hc := fresh in let H := fresh in
  intros c c' Hc H;
  repeat match type of H with
  | Accepted _ = Accepted _ => injection H as <-
  | first_overlap _ _ _ _ _ = _ => apply first_overlap_accepted in H as [->|[H _]]
  | mbind _ _ = _ => apply bind_accepted in H as (? & _ & H)
  | (if ?b then _ else _) = _ => destruct b; [try discriminate H|try discriminate H]
  | (match ?x with _ => _ end) = _ => destruct x; try discriminate H
  end;
  exact Hc.

(** No condition on the paths. *)
Definition anywhere : path_class → string → string → string → string → Prop := λ _ _ _ _ _, True.
Lemma anywhere_within R : within anywhere R.
Proof. by intros k domain owner path value _. Qed.
Lemma operations_keep_holds key value : operations_keep anywhere (holds key value).
Proof.
  split.
  - intros kind domain k v owner c c' Hc [_ H]%semantic_claim. by apply H.
  - intros. unfold addOwnedPathClaimV1. same_semantic.
  - intros. unfold addInstallRootClaimV1. same_semantic.
  - intros. unfold addOrdinaryPathClaimV1. same_semantic.
  - intros. unfold addAliasPathClaimV1. same_semantic.
  - intros. unfold addPythonInterpreterClaimV1. same_semantic.
  - intros. unfold addPythonInterpreterConstraintV1. same_semantic.
  - intros. unfold addPythonOverrideClaimV1. same_semantic.
  - intros. unfold addBindingRequirementClaimV1. same_semantic.
  - intros domain projected owner c Hc. exact Hc.
Qed.

(** A loop establishes what the step of one of its items establishes. *)
Lemma each_establishes {S X} (Q : S → Prop) (step : S → X → verdict S) items x s s' :
  x ∈ items → (∀ s s', step s x = Accepted s' → Q s') → (∀ y, y ∈ items → keeps Q (λ s, step s y)) →
  each step s items = Accepted s' → Q s'.
Proof.
  intros Hx Hstep Hkeep. revert s. revert Hkeep. induction items as [|y items IH]; intros Hkeep s; [by apply elem_of_nil in Hx|].
  simpl. intros (s1 & H1 & H)%bind_accepted. apply elem_of_cons in Hx as [->|Hx].
  - eapply (keeps_each Q); [intros z Hz; apply Hkeep; by right|by apply (Hstep s)|exact H].
  - apply (IH Hx (λ z Hz, Hkeep z (list_elem_of_further _ _ _ Hz)) s1 H).
Qed.

(** What a candidate names in the domains of its set. *)
Inductive names (catalog : CatalogV1) (domains : ProviderDomainSetV1) (candidate : ReleaseCandidateV1)
    : string → string → string → string → Prop :=
| names_variable runtime variable :
    Runtime (Contract candidate) = Some runtime → variable ∈ Environment runtime →
    names catalog domains candidate "environment" (domain_Environment domains) (variable_Name variable) (variable_Value variable)
| names_export exported :
    exported ∈ Exports candidate →
    names catalog domains candidate "export" (domain_Exports domains) (export_Name exported) (export_Path exported)
| names_capability exported :
    exported ∈ Exports candidate →
    names catalog domains candidate "capability" (Capabilities domains) (export_Name exported) (export_Path exported)
| names_payload reference record payload :
    reference ∈ Contributions candidate → exactRecordV1 catalog reference = Ok record →
    record_Value record = PayloadRecord payload →
    names catalog domains candidate "artifact logical path" (Filesystem domains) (LogicalPath payload) (ref_Digest reference)
| names_artifact reference record artifact :
    reference ∈ Contributions candidate → exactRecordV1 catalog reference = Ok record →
    record_Value record = BindingArtifactRecord artifact →
    names catalog domains candidate "artifact logical path" (Filesystem domains) (Filename artifact) (ref_Digest reference)
| names_package reference record packages requirement parsed :
    reference ∈ Contributions candidate → exactRecordV1 catalog reference = Ok record →
    record_Value record = NativePackageSet packages → requirement ∈ ps_Requirements packages →
    Manager packages = "apt" → ParseAPTPackageRequest requirement = Ok parsed →
    names catalog domains candidate "package requirement" (PackageManager domains) (package_key "apt" (apt_Name parsed)) requirement.

Section naming.
Context {ports : ToolPorts} (catalog : CatalogV1).

Lemma contribution_names domains owner candidate reference c c' key value kind domain :
  reference ∈ Contributions candidate →
  claim_contribution catalog domains owner (install_root candidate) c reference = Accepted c' →
  (∀ record, exactRecordV1 catalog reference = Ok record →
    match record_Value record with
    | PayloadRecord payload => kind = "artifact logical path" ∧ domain = Filesystem domains ∧ key = LogicalPath payload ∧ value = ref_Digest reference
    | BindingArtifactRecord artifact =>
      kind = "artifact logical path" ∧ domain = Filesystem domains ∧ key = Filename artifact ∧ value = ref_Digest reference
    | NativePackageSet packages =>
      ∃ parsed, kind = "package requirement" ∧ domain = PackageManager domains ∧ value ∈ ps_Requirements packages ∧
        Manager packages = "apt" ∧ ParseAPTPackageRequest value = Ok parsed ∧ key = package_key "apt" (apt_Name parsed)
    | _ => False
    end) →
  holds (semantic_key kind domain key) value c'.
Proof.
  intros _ Hc Hrecord. unfold claim_contribution in Hc. apply bind_accepted in Hc as (record & Hr%lift_accepted & Hc).
  specialize (Hrecord _ Hr). pose proof (operations_keep_holds (semantic_key kind domain key) value) as Hkeep.
  destruct (record_Value record) as [| | | | |artifact|payload| |packages| |]; try done.
  - destruct Hrecord as (-> & -> & -> & ->). unfold claim_artifact in Hc.
    apply bind_accepted in Hc as (? & _ & Hc). apply bind_accepted in Hc as (? & _ & Hc).
    by apply semantic_claim in Hc as [Hc _].
  - destruct Hrecord as (-> & -> & -> & ->). unfold claim_payload in Hc.
    apply bind_accepted in Hc as (c1 & H1 & Hc). apply semantic_claim in H1 as [H1 _].
    by apply (keep_owned _ _ Hkeep _ _ _ _ I) in Hc.
  - destruct Hrecord as (parsed & -> & -> & Hin & Hm & Hp & ->).
    apply bind_accepted in Hc as (c1 & H1 & Hc).
    assert (holds (semantic_key "package requirement" (PackageManager domains) (package_key "apt" (apt_Name parsed))) value c1) as Hh.
    { refine (each_establishes _ _ _ _ _ _ Hin _ _ H1).
      - intros s s'. unfold claim_set_package. rewrite Hm, bool_decide_true by done. rewrite Hp. simpl.
        by intros [Hs _]%semantic_claim.
      - intros y _. unfold claim_set_package. apply keeps_guard. intros. by apply (keep_semantic _ _ Hkeep). }
    refine (keeps_each _ _ _ _ _ _ Hh Hc). intros y _. by apply (keep_semantic _ _ Hkeep).
Qed.

Lemma candidate_names domains owner candidate c c' kind domain key value :
  names catalog domains candidate kind domain key value →
  addCandidateClaimsForAssignmentV1 catalog c domains owner candidate = Accepted c' →
  holds (semantic_key kind domain key) value c'.
Proof.
  intros Hn Hc. pose proof (operations_keep_holds (semantic_key kind domain key) value) as Hkeep.
  unfold addCandidateClaimsForAssignmentV1 in Hc. apply bind_accepted in Hc as (c1 & H1 & Hc).
  apply bind_accepted in Hc as (c2 & H2 & Hc).
  assert (holds (semantic_key kind domain key) value c1 → holds (semantic_key kind domain key) value c2) as K2.
  { intros Hh. refine (keeps_each _ _ _ _ _ _ Hh H2). intros y _. by apply (export_kept Hkeep). }
  assert (holds (semantic_key kind domain key) value c2 → holds (semantic_key kind domain key) value c') as K3.
  { intros Hh. refine (keeps_each _ _ _ _ _ _ Hh Hc). intros y Hy. apply (contribution_kept Hkeep); [done|apply anywhere_within]. }
  assert (∀ reference, reference ∈ Contributions candidate →
    (∀ s s', claim_contribution catalog domains owner (install_root candidate) s reference = Accepted s' →
       holds (semantic_key kind domain key) value s') → holds (semantic_key kind domain key) value c') as K.
  { intros reference Hin Hstep. refine (each_establishes _ _ _ _ _ _ Hin Hstep _ Hc). intros y Hy. apply (contribution_kept Hkeep); [done|apply anywhere_within]. }
  destruct Hn as [runtime variable Hr Hv|exported He|exported He|reference record payload Hin Hr Hv|reference record artifact Hin Hr Hv|
                  reference record packages requirement parsed Hin Hr Hv Hq Hm Hp].
  - apply K3, K2. rewrite Hr in H1. unfold claim_runtime in H1. apply bind_accepted in H1 as (c0 & _ & H1).
    refine (each_establishes _ _ _ _ _ _ Hv _ _ H1).
    + by intros s s' [Hs _]%semantic_claim.
    + intros y _. by apply (keep_semantic _ _ Hkeep).
  - apply K3. refine (each_establishes _ _ _ _ _ _ He _ _ H2); [|intros y _; by apply (export_kept Hkeep)].
    intros s s'. unfold claim_export. intros (s1 & Hs1 & Hs)%bind_accepted. apply semantic_claim in Hs1 as [Hs1 _].
    apply bind_accepted in Hs as (s2 & Hs2 & Hs). apply (keep_alias _ _ Hkeep _ _ _ _ I) in Hs; [done|].
    by apply (keep_semantic _ _ Hkeep) in Hs2.
  - apply K3. refine (each_establishes _ _ _ _ _ _ He _ _ H2); [|intros y _; by apply (export_kept Hkeep)].
    intros s s'. unfold claim_export. intros (s1 & _ & Hs)%bind_accepted.
    apply bind_accepted in Hs as (s2 & Hs2 & Hs). apply semantic_claim in Hs2 as [Hs2 _].
    by apply (keep_alias _ _ Hkeep _ _ _ _ I) in Hs.
  - apply (K reference Hin). intros s s' Hs. apply (contribution_names _ _ _ _ _ _ _ _ _ _ Hin Hs).
    intros record' Hr'. assert (record' = record) as -> by congruence. by rewrite Hv.
  - apply (K reference Hin). intros s s' Hs. apply (contribution_names _ _ _ _ _ _ _ _ _ _ Hin Hs).
    intros record' Hr'. assert (record' = record) as -> by congruence. by rewrite Hv.
  - apply (K reference Hin). intros s s' Hs. apply (contribution_names _ _ _ _ _ _ _ _ _ _ Hin Hs).
    intros record' Hr'. assert (record' = record) as -> by congruence. rewrite Hv. by exists parsed.
Qed.

(** ** Places of an assignment *)

(** The tables hold what the parts of the assignment claim, *)
Definition sourced (R : path_class → string → string → string → string → Prop) (claims : assignmentClaimsV1) : Prop :=
  ∀ k domain p, p ∈ at_domain (table_of k claims) domain → R k domain (pc_owner p) (pc_path p) (pc_value p).
Lemma operations_keep_sourced R : operations_keep R (sourced R).
Proof using Type.
  apply operations_keep_tables; [intros c c' Hsame Hc k domain p; rewrite Hsame; apply Hc|].
  intros k domain owner path value c c' HR [[->| ->] _] Hc; [done|]. intros l d p. rewrite table_of_extend. case_bool_decide as Hl.
  - destruct Hl as [-> ->]. intros [Hp|Hp]%elem_of_app; [by apply Hc|]. by apply list_elem_of_singleton in Hp as ->.
  - rewrite app_nil_r. apply Hc.
Qed.
Lemma no_sourced R : sourced R no_claims.
Proof using Type. intros k d p Hp. exfalso. by destruct k; unfold at_domain in Hp; simpl in Hp; rewrite lookup_empty in Hp; apply elem_of_nil in Hp. Qed.

(** and whatever they claim is in the tables, or something stands for it there. *)
Lemma operations_keep_recorded k domain owner path value : operations_keep anywhere (recorded k domain owner path value).
Proof using Type.
  apply operations_keep_tables; [intros c c' Hsame (p & Hp & H); exists p; by rewrite Hsame|].
  intros l d o q v c c' _ [[->| ->] _] (p & Hp & H); [by exists p|]. exists p. rewrite table_of_extend. split; [set_solver|done].
Qed.
Lemma source_recorded table source k domain owner path value c c' :
  source_occupies table source k domain owner path value → claim_active table c source = Accepted c' →
  recorded k domain owner path value c'.
Proof using Type.
  intros Ho H. pose proof (operations_keep_recorded k domain owner path value) as Hkeep. unfold claim_active in H.
  destruct (table !! as_Scope source) as [domains'|] eqn:Ht; [|done]. do 2 apply bind_accepted in H as (? & _ & H).
  apply bind_accepted in H as (c1 & H1 & H). apply bind_accepted in H as (c2 & H2 & H).
  assert (recorded k domain owner path value c2 → recorded k domain owner path value c') as Hlast.
  { intros Hr. do 3 apply bind_accepted in H as (? & ?H & H).
    repeat match goal with Hr : recorded _ _ _ _ _ ?s, H : each _ ?s _ = Accepted _ |- _ =>
      apply (keeps_each (recorded k domain owner path value)) in H; [clear Hr|intros ? _; by apply (keep_semantic _ _ Hkeep)|exact Hr] end.
    done. }
  destruct Ho as [domains root Hd Hin|domains file Hd Hin]; rewrite Ht in Hd; injection Hd as ->; apply Hlast.
  - refine (keeps_each _ _ _ _ _ _ _ H2); [intros ? _; by apply (keep_ordinary _ _ Hkeep)|].
    refine (each_establishes _ _ _ _ _ _ Hin _ _ H1); [by intros s s' [_ Hs]%root_grown|]. intros ? _. by apply (keep_root _ _ Hkeep).
  - refine (each_establishes _ _ _ _ _ _ Hin _ _ H2); [by intros s s' [_ Hs]%ordinary_grown|]. intros ? _. by apply (keep_ordinary _ _ Hkeep).
Qed.
Lemma candidate_recorded domains owner candidate k domain o path value c c' :
  occupies catalog domains owner candidate k domain o path value →
  addCandidateClaimsForAssignmentV1 catalog c domains owner candidate = Accepted c' → recorded k domain o path value c'.
Proof using Type.
  intros Ho H. pose proof (operations_keep_recorded k domain o path value) as Hkeep. unfold addCandidateClaimsForAssignmentV1 in H.
  apply bind_accepted in H as (c1 & H1 & H). apply bind_accepted in H as (c2 & H2 & H).
  assert (recorded k domain o path value c2 → recorded k domain o path value c') as K3.
  { intros Hr. refine (keeps_each _ _ _ _ _ _ Hr H). intros y Hy. apply (contribution_kept Hkeep); [done|apply anywhere_within]. }
  destruct Ho as [runtime Hr Hne|exported Hin|reference record payload Hin Hr Hv].
  - apply K3. refine (keeps_each _ _ _ _ _ _ _ H2); [intros y _; by apply (export_kept Hkeep)|].
    rewrite Hr in H1. unfold claim_runtime in H1. rewrite bool_decide_false in H1 by done.
    apply bind_accepted in H1 as (c0 & [_ H0]%root_grown & H1).
    refine (keeps_each _ _ _ _ _ _ H0 H1). intros y _. by apply (keep_semantic _ _ Hkeep).
  - apply K3. refine (each_establishes _ _ _ _ _ _ Hin _ _ H2); [|intros y _; by apply (export_kept Hkeep)].
    intros s s'. unfold claim_export. intros (? & _ & Hs)%bind_accepted. by apply bind_accepted in Hs as (? & _ & [_ Hs]%alias_grown).
  - refine (each_establishes _ _ _ _ _ _ Hin _ _ H); [|intros y Hy; apply (contribution_kept Hkeep); [done|apply anywhere_within]].
    intros s s'. unfold claim_contribution. rewrite Hr. simpl. rewrite Hv. unfold claim_payload.
    by intros (? & _ & [_ Hs]%owned_grown)%bind_accepted.
Qed.
Lemma assignment_recorded domainSets active sets chosen claims k domain owner path value :
  occupied catalog domainSets active sets chosen k domain owner path value →
  assignment_claims catalog domainSets active sets chosen = Accepted claims → recorded k domain owner path value claims.
Proof using Type.
  pose proof (operations_keep_recorded k domain owner path value) as Hkeep.
  intros Ho (c1 & H1 & H2)%bind_accepted.
  destruct Ho as [source k domain owner path value Hin Ho|set candidate k domain owner path value Hin Ho].
  - refine (keeps_each _ _ _ _ _ _ _ H2); [intros [set candidate] _; apply (candidate_kept Hkeep), anywhere_within|].
    refine (each_establishes _ _ _ _ _ _ Hin _ _ H1); [intros s s'; by apply source_recorded|].
    intros y _. apply (active_kept Hkeep), anywhere_within.
  - refine (each_establishes _ _ _ _ _ _ Hin _ _ H2); [intros s s'; by apply candidate_recorded|].
    intros [set' candidate'] _. apply (candidate_kept Hkeep), anywhere_within.
Qed.

(** How two claims of one file system that overlap may go together, when [R] is all that
    is claimed.  Directories and files of one class are the same one, with the same
    content; exports have the same path.  A file of an active provider, or an export,
    overlaps a directory only when one owner has both of them, and the export is then
    strictly inside: this owner is the one of the export, or exports the same name and
    path.  Only an install root and a payload directory may overlap freely. *)
Definition one_export (R : path_class → string → string → string → string → Prop) (domain o1 path v1 o value : string) : Prop :=
  R Alias_ domain o path value ∧ (o = o1 ∨ value = v1).
Definition coexist (R : path_class → string → string → string → string → Prop) (domain : string)
    (k : path_class) (o1 path1 v1 : string) (l : path_class) (o2 path2 v2 : string) : Prop :=
  match k, l with
  | Owned, Owned | Ordinary, Ordinary => path1 = path2 ∧ v1 = v2
  | Root_, Root_ => path1 = path2
  | Alias_, Alias_ => path1 = path2 ∧ ∃ o v, one_export R domain o1 path1 v1 o v ∧ one_export R domain o2 path2 v2 o v
  | Owned, Root_ | Root_, Owned => True
  | Ordinary, (Owned | Root_) | (Owned | Root_), Ordinary => ∃ o, R k domain o path1 v1 ∧ R l domain o path2 v2
  | Alias_, (Owned | Root_) => inside path1 path2 = true ∧ ∃ o v, one_export R domain o1 path1 v1 o v ∧ R l domain o path2 v2
  | (Owned | Root_), Alias_ => inside path2 path1 = true ∧ ∃ o v, one_export R domain o2 path2 v2 o v ∧ R k domain o path1 v1
  | Alias_, Ordinary | Ordinary, Alias_ => False
  end.

Lemma occupied_root domainSets active sets chosen domain owner path value :
  occupied catalog domainSets active sets chosen Root_ domain owner path value → value = path.
Proof using Type. intros H. by inversion H as [? ? ? ? ? ? ? Ho|? ? ? ? ? ? ? ? Ho]; inversion Ho. Qed.
Lemma stands_for_claim domainSets active sets chosen k domain owner path value p :
  let R := occupied catalog domainSets active sets chosen in
  R k domain owner path value → R k domain (pc_owner p) (pc_path p) (pc_value p) → pc_path p = path → stands_for k owner value p →
  k ≠ Alias_ → pc_value p = value.
Proof using Type.
  intros R Hr Hp Hpath Hs Hk. destruct k; simpl in Hs; try done.
  apply occupied_root in Hr, Hp. congruence.
Qed.

Lemma assignment_coexists domainSets active sets chosen claims :
  let R := occupied catalog domainSets active sets chosen in
  assignment_claims catalog domainSets active sets chosen = Accepted claims →
  ∀ domain k o1 path1 v1 l o2 path2 v2, R k domain o1 path1 v1 → R l domain o2 path2 v2 →
  pathsOverlapV1 path1 path2 = true → coexist R domain k o1 path1 v1 l o2 path2 v2.
Proof using Type.
  intros R Hc domain k o1 path1 v1 l o2 path2 v2 H1 H2 Ho.
  assert (paths_ok claims) as Hok by (apply (assignment_kept (operations_keep_paths anywhere)) in Hc; [done|apply anywhere_within|apply no_paths]).
  assert (sourced R claims) as Hs by (apply (assignment_kept (operations_keep_sourced R)) in Hc; [done|by intros k0 **|apply no_sourced]).
  destruct (assignment_recorded _ _ _ _ _ _ _ _ _ _ H1 Hc) as (p & Hp & <- & Sp).
  destruct (assignment_recorded _ _ _ _ _ _ _ _ _ _ H2 Hc) as (q & Hq & <- & Sq).
  assert (Rp := Hs _ _ _ Hp). assert (Rq := Hs _ _ _ Hq).
  assert (Vp := stands_for_claim _ _ _ _ _ _ _ _ _ p H1 Rp eq_refl Sp). assert (Vq := stands_for_claim _ _ _ _ _ _ _ _ _ q H2 Rq eq_refl Sq).
  apply list_elem_of_lookup in Hp as [i Hp], Hq as [j Hq].
  destruct (decide ((k, i) = (l, j))) as [Heq|Hne].
  - injection Heq as <- <-. rewrite Hp in Hq. injection Hq as <-. destruct k; simpl.
    + split; [done|]. by rewrite <-Vp, <-Vq.
    + done.
    + split; [done|]. by rewrite <-Vp, <-Vq.
    + split; [done|]. exists (pc_owner p), (pc_value p). unfold one_export. simpl in Sp, Sq. tauto.
  - assert (Ht := Hok domain k l i j p q Hp Hq Hne Ho).
    assert (k ≠ Alias_ → R k domain (pc_owner p) (pc_path p) v1) as Dp by (intros Hk; by rewrite <-(Vp Hk)).
    assert (l ≠ Alias_ → R l domain (pc_owner q) (pc_path q) v2) as Dq by (intros Hl; by rewrite <-(Vq Hl)).
    destruct k, l; simpl in Ht, Sp, Sq |- *; try done; try specialize (Dp ltac:(done)); try specialize (Dq ltac:(done)).
    1,3,5,6: exists (pc_owner p); split; [done|]; by rewrite Ht.
    1,2: destruct Ht as [Ht Hin]; split; [done|]; exists (pc_owner q), (pc_value q);
      split; [split; [done|tauto]|by rewrite <-Ht].
    all: destruct Ht as [Ht Hin]; split; [done|]; exists (pc_owner p), (pc_value p);
      split; [split; [done|tauto]|by rewrite Ht].
Qed.

(** ** Assignments *)

(** The candidates of an assignment without a conflict agree: whatever two of
    them name in one domain (an environment variable, an export, a capability,
    an artifact's logical path, an APT package), they name with the same value. *)
Lemma assignment_agrees domainSets active sets chosen set1 candidate1 set2 candidate2 kind domain key value1 value2 :
  assignmentConflictV1 catalog domainSets active sets chosen = Accepted tt →
  (set1, candidate1) ∈ zip sets chosen → (set2, candidate2) ∈ zip sets chosen →
  names catalog (domains set1) candidate1 kind domain key value1 →
  names catalog (domains set2) candidate2 kind domain key value2 →
  value1 = value2.
Proof.
  unfold assignmentConflictV1, assignment_claims. intros (claims & H & _)%bind_accepted Hin1 Hin2 Hn1 Hn2.
  apply bind_accepted in H as (c1 & _ & H).
  assert (∀ set candidate value, (set, candidate) ∈ zip sets chosen → names catalog (domains set) candidate kind domain key value →
    holds (semantic_key kind domain key) value claims) as Hheld.
  { intros set candidate value Hin Hn. refine (each_establishes _ _ _ _ _ _ Hin _ _ H).
    - intros s s'. unfold claim_candidate. by apply candidate_names.
    - intros y _. apply (candidate_kept (operations_keep_holds _ _)), anywhere_within. }
  eapply holds_functional; [by apply (Hheld set1 candidate1)|by apply (Hheld set2 candidate2)].
Qed.
End naming.
