(* ===== verification/ToolSolver.v ===== *)
(** * The joint search over release candidates

    [internal/toolcatalog/solver.go]: [solveCandidateSetsV1] tries the candidates
    of every set in order and goes back when a partial assignment conflicts, up
    to a cap of visited states; [prepareCandidateSetsV1] orders the sets and the
    candidates.  Scopes are [internal/toolrequest/request.go].

    The search calls the conflict of the current assignment, which reads nothing
    else than the assignment: it is a parameter [conflict] of the search, and
    [solve_tools] applies the search to [assignmentConflictV1].

    [sort.SliceStable] is [merge_sort], which is stable too. *)

From Stdlib Require Import Ascii.
From S2P Require Import Prelude GoText Canonical ToolRecords ToolCatalog ToolVersions ToolSupport ToolClaims.

Open Scope Z_scope.

(** ** The search *)

Definition maxJointAssignmentStatesV1 : nat := 1024.

Definition state_cap_exceeded : string :=
  "joint assignment visited-state cap exceeded before a complete assignment".
Definition incompatible_requirements : string := "no complete assignment for incompatible requirements".

Section search.
Context {C : Type} (conflict : list C → verdict unit) (limit : nat).

(** The loop over the candidates of one set; [deeper] searches the sets that are
    left.  The result carries the visited states; [None] is the answer of a
    subtree without an assignment. *)
Fixpoint try_candidates (deeper : list C → nat → nat * result (option (list C))) (candidates selected : list C) (visited : nat)
    : nat * result (option (list C)) :=
  match candidates with
  | [] => (visited, Ok None)
  | candidate :: rest =>
    let visited := S visited in
    if (limit <? visited)%nat then (visited, Err state_cap_exceeded)
    else match conflict (selected ++ [candidate]) with
         | Failed message => (visited, Err message)
         | Conflict _ => try_candidates deeper rest selected visited
         | Accepted _ =>
           match deeper (selected ++ [candidate]) visited with
           | (visited, Ok None) => try_candidates deeper rest selected visited
           | answer => answer
           end
         end
  end.
Fixpoint search (sets : list (list C)) (selected : list C) (visited : nat) : nat * result (option (list C)) :=
  match sets with
  | [] => (visited, Ok (Some selected))
  | candidates :: rest => try_candidates (search rest) candidates selected visited
  end.

Definition solveCandidateSetsV1 (sets : list (list C)) : nat * result (list C) :=
  if (limit <? 1)%nat then (0%nat, Err "joint assignment state cap must be positive")
  else match search sets [] 0 with
       | (visited, Err message) => (visited, Err message)
       | (visited, Ok None) => (visited, Err incompatible_requirements)
       | (visited, Ok (Some selected)) => (visited, Ok selected)
       end.
End search.

(** ** Scopes and groups *)

Definition is_scope_char (c : ascii) : bool :=
  is_lower c || is_digit c || bool_decide (c = "-"%char) || bool_decide (c = "_"%char).
Definition validApplicationScopeOwnerV1 (value : string) : bool :=
  match value with EmptyString => false | String c rest => is_lower c && string_forallb is_scope_char rest end.
Definition asciiLowerAlphaNumericV1 (c : ascii) : bool := is_lower c || is_digit c.
(** The first and the last byte, and the bytes between them. *)
Definition validSourceBuilderScopeOwnerV1 (value : string) : bool :=
  match bytes value with
  | [] => false
  | first :: rest =>
    asciiLowerAlphaNumericV1 first && asciiLowerAlphaNumericV1 (List.last rest first)
    && forallb (λ c, asciiLowerAlphaNumericV1 c || bool_decide (c = "-"%char)) (removelast rest)
  end.
Definition scope_parts (scope : string) : option (string * string) := cut_byte scope ":"%char.
Definition ValidateResolutionScopeV1 (scope : string) : result unit :=
  let validOwner :=
    match scope_parts scope with
    | Some (kind, owner) =>
      negb (contains_byte owner ":"%char) &&
      (if bool_decide (kind = "application") then validApplicationScopeOwnerV1 owner
       else if bool_decide (kind = "source-builder") then validSourceBuilderScopeOwnerV1 owner
       else false)
    | None => false
    end in
  reject_if (negb validOwner) "portable tool resolution scope must be application:<owner> or source-builder:<owner>".
Definition ValidateResolutionScopeContextV1 (scope context : string) : result unit :=
  _ ← ValidateResolutionScopeV1 scope;
  let kind := match scope_parts scope with Some (kind, _) => kind | None => scope end in
  let expected := if bool_decide (kind = "source-builder") then "build" else "runtime" in
  reject_if (negb (bool_decide (context = expected))) "portable tool resolution scope requires another context".

Definition check_increasing (valid : string → bool) (message : string) (previous : option string) (value : string) : result unit :=
  reject_if (negb (valid value) || match previous with Some p => string_geb p value | None => false end) message.
Definition validateCanonicalBindingSetV1 (values : list string) (allowEmpty : bool) : result unit :=
  _ ← reject_if (negb allowEmpty && bool_decide (values = [])) "must not be empty";
  check_each (check_increasing validRecordIdentifierV1 "must be unique and sorted") None values.

Fixpoint check_selections (selections : list (string * list string)) : result unit :=
  match selections with
  | [] => Ok tt
  | (dimension, values) :: rest =>
    _ ← reject_if (negb (validRecordIdentifierV1 dimension) || bool_decide (values = [])) "selection map is not canonical";
    _ ← check_each (check_increasing validRecordIdentifierV1 "selection dimension must use a nonempty sorted set") None values;
    check_selections rest
  end.
Definition validateCanonicalRequirementGroupV1 (group : CanonicalRequirementGroupV1) : result unit :=
  _ ← ValidateResolutionScopeContextV1 (group_Scope group) (Context_ group);
  _ ← reject_if (negb (validRecordIdentifierV1 (group_Tool group))) "tool name is invalid";
  _ ← check_each (check_increasing validRecordTokenV1 "tool version constraints must be nonempty, unique, and sorted") None
        (VersionConstraints group);
  _ ← (if bool_decide (DefinitionRevision group = "") then Ok tt
       else validateCanonicalDecimalV1 (DefinitionRevision group) true);
  let demand := group_Binding group in
  _ ← (if All demand then
         reject_if (Infer demand || negb (bool_decide (Explicit demand = [])))
           "all-bindings demand cannot carry inference or explicit bindings"
       else
         _ ← reject_if (negb (Infer demand) && bool_decide (Explicit demand = []))
               "binding demand must retain inference, explicit bindings, or all";
         validateCanonicalBindingSetV1 (Explicit demand) true);
  check_selections (map_to_list (group_Selections group)).

(** ** The order of sets and candidates *)

Record ReleaseCandidateSetV1 := { Group : CanonicalRequirementGroupV1; Candidates : list ReleaseCandidateV1 }.

Definition demand_value (demand : CanonicalBindingDemandV1) : goValue :=
  Struct [(FieldInfo "All" true "", Bool (All demand)); (FieldInfo "Infer" true "", Bool (Infer demand));
          (FieldInfo "Explicit" true "", string_slice (Explicit demand))].
(** A nil slice would be written as null; the text only orders sets that agree in
    scope and tool, and there are none. *)
Definition group_value (group : CanonicalRequirementGroupV1) : goValue :=
  Struct [(FieldInfo "Scope" true "", Str (group_Scope group)); (FieldInfo "Tool" true "", Str (group_Tool group));
          (FieldInfo "VersionConstraints" true "", string_slice (VersionConstraints group));
          (FieldInfo "DefinitionRevision" true "", Str (DefinitionRevision group));
          (FieldInfo "Context" true "", Str (Context_ group)); (FieldInfo "Binding" true "", demand_value (group_Binding group));
          (FieldInfo "Selections" true "", selections_value (group_Selections group))].

Definition set_less (l r : orderedCandidateSetV1) : bool :=
  if negb (bool_decide (group_Scope (group l) = group_Scope (group r)))
  then bool_decide (string_lt (group_Scope (group l)) (group_Scope (group r)))
  else if negb (bool_decide (group_Tool (group l) = group_Tool (group r)))
  then bool_decide (string_lt (group_Tool (group l)) (group_Tool (group r)))
  else bool_decide (string_lt (groupBytes l) (groupBytes r)).
Definition set_le (l r : orderedCandidateSetV1) : Prop := set_less r l = false.
#[export] Instance set_le_dec l r : Decision (set_le l r).
Proof. unfold set_le. apply _. Defined.

Definition group_key (group : CanonicalRequirementGroupV1) : string := group_Scope group +:+ nul +:+ group_Tool group.

Fixpoint collect_domains (domainSets : list ProviderDomainSetV1) (table : gmap string ProviderDomainSetV1)
    : result (gmap string ProviderDomainSetV1) :=
  match domainSets with
  | [] => Ok table
  | item :: rest =>
    _ ← ValidateResolutionScopeV1 (Scope item);
    _ ← reject_if (existsb (λ name, bool_decide (name = ""))
                     [PackageManager item; Filesystem item; domain_Environment item; domain_Exports item; Capabilities item])
          "provider domains must name every authority domain";
    _ ← reject_if (bool_decide (is_Some (table !! Scope item))) "provider domains repeat scope";
    collect_domains rest (<[Scope item := item]> table)
  end.

Section prepare.
Context {schemes : VersionSchemes} (catalog : CatalogV1).

Definition candidate_less (scheme : string) (l r : ReleaseCandidateV1) : bool :=
  let versionOrder := compareToolVersionsV1 scheme (Version (Manifest l)) (Version (Manifest r)) in
  if negb (versionOrder =? 0) then 0 <? versionOrder
  else
    let revisionOrder := compareCanonicalDecimalV1 (Revision (Manifest l)) (Revision (Manifest r)) in
    if negb (revisionOrder =? 0) then 0 <? revisionOrder
    else bool_decide (string_lt (manifest_ID (Manifest l)) (manifest_ID (Manifest r))).
Definition candidate_le (scheme : string) (l r : ReleaseCandidateV1) : Prop := candidate_less scheme r l = false.
#[export] Instance candidate_le_dec scheme l r : Decision (candidate_le scheme l r).
Proof. unfold candidate_le. apply _. Defined.

Definition check_coordinate (previous : option ReleaseCandidateV1) (candidate : ReleaseCandidateV1) : result unit :=
  reject_if (match previous with
             | Some p => bool_decide (Version (Manifest p) = Version (Manifest candidate))
                         && bool_decide (Revision (Manifest p) = Revision (Manifest candidate))
             | None => false
             end) "candidate group repeats release coordinate".
Definition tool_record (name : string) : result ToolRecordV1 :=
  match tools catalog !! name with
  | None => Err "portable tool is not defined"
  | Some key =>
    match record_Value <$> records catalog !! key with
    | Some (ToolRecord tool) => Ok tool
    | _ => Err "portable tool does not resolve to a tool record"
    end
  end.
Definition prepare_set (domainsByScope : gmap string ProviderDomainSetV1) (set : ReleaseCandidateSetV1)
    : result orderedCandidateSetV1 :=
  match domainsByScope !! group_Scope (Group set) with
  | None => Err "candidate group has no provider-domain mapping"
  | Some domainSet =>
    _ ← reject_if (bool_decide (length (Candidates set) = 0%nat)) "candidate group has no surviving candidate";
    tool ← tool_record (group_Tool (Group set));
    _ ← reject_if (negb (forallb (λ candidate, bool_decide (candidate_Scope candidate = group_Scope (Group set))
                                              && bool_decide (Tool (Manifest candidate) = group_Tool (Group set)))
                           (Candidates set)))
          "candidate does not belong to canonical group";
    let sorted := merge_sort (candidate_le (VersionScheme tool)) (Candidates set) in
    _ ← check_each check_coordinate None sorted;
    encoded ← Marshal (group_value (Group set));
    Ok {| group := Group set; candidates := sorted; groupBytes := String.string_of_list_ascii encoded; domains := domainSet |}
  end.
Fixpoint prepare_sets (domainsByScope : gmap string ProviderDomainSetV1) (sets : list ReleaseCandidateSetV1) (seen : gset string)
    : result (list orderedCandidateSetV1) :=
  match sets with
  | [] => Ok []
  | set :: rest =>
    _ ← validateCanonicalRequirementGroupV1 (Group set);
    _ ← reject_if (bool_decide (group_key (Group set) ∈ seen)) "candidate sets repeat canonical group";
    prepared ← prepare_set domainsByScope set;
    others ← prepare_sets domainsByScope rest ({[group_key (Group set)]} ∪ seen);
    Ok (prepared :: others)
  end.
Definition prepareCandidateSetsV1 (sets : list ReleaseCandidateSetV1) (domainSets : list ProviderDomainSetV1)
    : result (list orderedCandidateSetV1) :=
  _ ← reject_if (bool_decide (length sets = 0%nat)) "joint tool resolution requires at least one candidate set";
  domainsByScope ← collect_domains domainSets ∅;
  prepared ← prepare_sets domainsByScope sets ∅;
  Ok (merge_sort set_le prepared).
End prepare.

(** ** The search over the prepared sets *)

Definition solve_tools {ports : ToolPorts} (catalog : CatalogV1) (sets : list orderedCandidateSetV1)
    (domainSets : list ProviderDomainSetV1) (active : list ActiveProviderConstraintSourceV1) (limit : nat)
    : nat * result (list ReleaseCandidateV1) :=
  solveCandidateSetsV1 (assignmentConflictV1 catalog domainSets active sets) limit (map candidates sets).

Example search_example :
  let conflict (l : list nat) := match l with [1; 1]%nat => Conflict "1 with 1" | [2; _]%nat => Conflict "2" | _ => Accepted tt end in
  solveCandidateSetsV1 conflict 10 [[1; 3]; [1; 2]]%nat = (3%nat, Ok [1; 2]%nat) ∧
  solveCandidateSetsV1 conflict 10 [[2; 3]; [1; 2]]%nat = (5%nat, Ok [3; 1]%nat) ∧
  solveCandidateSetsV1 conflict 3 [[2; 3]; [1; 2]]%nat = (4%nat, Err state_cap_exceeded) ∧
  solveCandidateSetsV1 conflict 10 [[2]; [1; 2]]%nat = (3%nat, Err incompatible_requirements).
Proof. vm_compute. done. Qed.

(** ** An example *)

Definition example_reference (id : string) : RecordReferenceV1 := MakeReference id "sha256:0".
Definition example_payload (name : string) : PayloadRecordV1 := {|
  payload_Schema := ""; payload_ID := name; payload_Name := name; payload_Revision := "1"; UpstreamVersion := "1";
  payload_Platform := "linux/amd64"; LogicalPath := name +:+ ".tar.gz"; payload_Kind := "archive"; payload_Size := "1";
  payload_SHA256 := "sha256:0"; payload_Resolver := "https-sha256"; Entries := "1"; UnpackedSize := "1";
  InstallDirectory := name; ArchiveRoot := "."; SymbolicLinkPolicy := "reject"; payload_Executables := [] |}.
Definition example_manifest (tool version : string) : ReleaseManifestV1 := {|
  manifest_Schema := ""; manifest_ID := "tool:" +:+ tool +:+ "/releases/" +:+ version +:+ "/manifest"; Tool := tool;
  Version := version; Aliases := []; Revision := "1"; manifest_Contract := example_reference "contract"; Targets := [];
  ArtifactSources := []; manifest_Provenance := []; manifest_ValidationProfiles := [] |}.
Definition example_identity : TargetIdentityV1 := {|
  identity_Platform := "linux/amd64"; OSReleaseID := "debian"; VersionID := "12"; OCIArchitecture := "amd64";
  NativeArchitecture := "amd64"; identity_PackageManager := "apt" |}.
Definition example_candidate (tool version home : string) : ReleaseCandidateV1 := {|
  candidate_Scope := "application:web"; Manifest := example_manifest tool version;
  Contract := {| contract_Schema := ""; contract_ID := "contract"; Contexts := ["runtime"]; SupportedReploy := "";
    Binding := {| Options := [] |}; Selections := {| Dimensions := []; Combinations := [] |};
    Runtime := Some {| InstallRoot := "/opt/" +:+ tool; Environment := [MakeVariable "TOOL_HOME" home] |};
    contract_Exports := []; ResolverPrimitives := []; CompatibilityConstraints := [] |};
  candidate_Target := {| target_Schema := ""; target_ID := "target"; target_Target := example_identity; SupportCases := [];
    target_PackageSets := []; target_Bindings := []; target_Payloads := []; target_Selections := []; target_Exports := [];
    IntegrationFixtures := []; target_ValidationProfiles := [] |};
  Fixture := {| fixture_Schema := ""; fixture_ID := ""; fixture_Name := ""; fixture_Target := example_identity;
    BaseImage := ""; BaseImageDigest := ""; fixture_Context := "runtime"; fixture_Bindings := []; fixture_Selections := ∅;
    fixture_ValidationProfiles := [] |};
  Profiles := []; Bindings := []; candidate_Selections := ∅; Contributions := [example_reference tool];
  Exports := [MakeExport tool ("/opt/" +:+ tool +:+ "/bin/" +:+ tool)] |}.
Definition example_tool (name : string) : ToolRecordV1 := {|
  tool_Schema := ""; tool_ID := "tool:" +:+ name; tool_Name := name; VersionScheme := "integer"; DefaultVersion := "";
  Summary := ""; Upstream := ""; tool_Source := ""; License := ""; Documentation := ""; Releases := [] |}.
Definition example_loaded (id : string) (value : RecordV1) : loadedRecordV1 := {|
  record_ID := id; record_Schema := ""; record_Digest := "sha256:0"; record_Path := ""; record_Value := value |}.
Definition example_catalog : CatalogV1 := {|
  records := list_to_map [(("tool:go", "sha256:0"), example_loaded "tool:go" (ToolRecord (example_tool "go")));
    (("tool:node", "sha256:0"), example_loaded "tool:node" (ToolRecord (example_tool "node")));
    (("go", "sha256:0"), example_loaded "go" (PayloadRecord (example_payload "go")));
    (("node", "sha256:0"), example_loaded "node" (PayloadRecord (example_payload "node")))];
  tools := list_to_map [("go", ("tool:go", "sha256:0")); ("node", ("tool:node", "sha256:0"))] |}.
Definition example_domains : ProviderDomainSetV1 := {|
  Scope := "application:web"; PackageManager := "apt"; domain_Binding := ""; Filesystem := "fs"; domain_Environment := "env";
  domain_Exports := "exports"; Capabilities := "capabilities" |}.
Definition example_group (tool : string) : CanonicalRequirementGroupV1 := {|
  group_Scope := "application:web"; group_Tool := tool; VersionConstraints := []; DefinitionRevision := "";
  Context_ := "runtime"; group_Binding := {| All := false; Infer := true; Explicit := [] |}; group_Selections := ∅ |}.
Definition example_sets : list ReleaseCandidateSetV1 :=
  [{| Group := example_group "node"; Candidates := [example_candidate "node" "9" "/opt"; example_candidate "node" "10" "/srv"] |};
   {| Group := example_group "go"; Candidates := [example_candidate "go" "1" "/opt"] |}].
Definition example_ports : ToolPorts :=
  python_ports (schemes := dotted_schemes) (λ c, c) (λ r, Ok {| Distribution := r; Root := r; SourceKind := "" |}) (λ s, s).

(** The newest node wants another [TOOL_HOME] than go, so the older one is chosen. *)
Example solve_example :
  let sets := prepareCandidateSetsV1 (schemes := dotted_schemes) example_catalog example_sets [example_domains] in
  (map (λ set, (group_Tool (group set), map (Version ∘ Manifest) (candidates set))) <$> sets) =
    Ok [("go", ["1"]); ("node", ["10"; "9"])] ∧
  (sets ← sets;
   let '(visited, chosen) := solve_tools (ports := example_ports) example_catalog sets [example_domains] [] 1024 in
   chosen ← chosen; Ok (visited, map (Version ∘ Manifest) chosen)) = Ok (3%nat, ["1"; "9"]).
Proof. vm_compute. done. Qed.
