(* ===== verification/ToolSolverFacts.v ===== *)
(** * What the joint search promises

    The search finds the first complete assignment, in the order of the sets and
    of their candidates, without a conflict in any of its prefixes; it visits at
    most the states of the whole tree, and at most one beyond the cap; what the tools
    it selects claim of the file system overlaps only where it may, and they agree
    on everything they name.  The order of the sets given does not matter. *)

From Stdlib Require Import Ascii.
From S2P Require Import Prelude GoText Canonical ToolRecords ToolCatalog ToolVersions ToolClaims ToolClaimsFacts ToolSolver.

Open Scope Z_scope.

(** ** Assignments *)

Section search.
Context {C : Type} (conflict : list C → verdict unit).

Definition accepted (selected : list C) : Prop := conflict selected = Accepted tt.

(** [chosen] completes [selected] with a candidate of every set, and no prefix
    conflicts. *)
Inductive completes : list C → list (list C) → list C → Prop :=
| completes_nil selected : completes selected [] []
| completes_cons selected c set rest chosen :
    c ∈ set → accepted (selected ++ [c]) → completes (selected ++ [c]) rest chosen →
    completes selected (set :: rest) (c :: chosen).

(** The first completion: no earlier candidate of any set could be completed. *)
Inductive first_completion : list C → list (list C) → list C → Prop :=
| first_nil selected : first_completion selected [] []
| first_cons selected before c after rest chosen :
    accepted (selected ++ [c]) → first_completion (selected ++ [c]) rest chosen →
    (∀ b others, b ∈ before → ¬ completes selected ((before ++ c :: after) :: rest) (b :: others)) →
    first_completion selected ((before ++ c :: after) :: rest) (c :: chosen).

(** The states of the tree below some sets. *)
Fixpoint states (sets : list (list C)) : nat :=
  match sets with [] => 0 | set :: rest => length set * S (states rest) end.

Lemma first_completes selected sets chosen : first_completion selected sets chosen → completes selected sets chosen.
Proof.
  induction 1 as [|selected before c after rest chosen Hc _ IH _]; [constructor|]. constructor; [|done|done]. set_solver.
Qed.

Lemma completes_length selected sets chosen : completes selected sets chosen → length chosen = length sets.
Proof. induction 1; simpl; congruence. Qed.

Lemma completes_members selected sets chosen : completes selected sets chosen → Forall2 (λ c set, c ∈ set) chosen sets.
Proof. induction 1; by constructor. Qed.

Lemma completes_accepted selected sets chosen : completes selected sets chosen → chosen ≠ [] → accepted (selected ++ chosen).
Proof.
  induction 1 as [|selected c set rest chosen _ Hc _ IH]; [done|]. intros _.
  destruct chosen as [|d chosen]; [done|]. specialize (IH ltac:(done)). by rewrite <-app_assoc in IH.
Qed.

(** ** The search *)

Context (limit : nat).

Definition failure (message : string) (visited : nat) : Prop :=
  message = state_cap_exceeded ∧ visited = S limit ∨
  (visited ≤ limit)%nat ∧ ∃ attempt, conflict attempt = Failed message.

Definition searched (selected : list C) (sets : list (list C)) (visited : nat) (out : nat * result (option (list C))) : Prop :=
  (visited ≤ out.1 ≤ visited + states sets)%nat ∧
  match out.2 with
  | Ok (Some r) => (out.1 ≤ limit)%nat ∧ ∃ chosen, r = selected ++ chosen ∧ first_completion selected sets chosen
  | Ok None => (out.1 ≤ limit)%nat ∧ ∀ chosen, ¬ completes selected sets chosen
  | Err message => failure message out.1
  end.

(** The loop over the candidates of a set, with those that were tried before. *)
Lemma try_spec deeper rest selected visited tried candidates :
  (∀ selected visited, (visited ≤ limit)%nat → searched selected rest visited (deeper selected visited)) →
  (visited ≤ limit)%nat →
  (∀ b others, b ∈ tried → accepted (selected ++ [b]) → ¬ completes (selected ++ [b]) rest others) →
  let out := try_candidates conflict limit deeper candidates selected visited in
  (visited ≤ out.1 ≤ visited + length candidates * S (states rest))%nat ∧
  match out.2 with
  | Ok (Some r) => (out.1 ≤ limit)%nat ∧
      ∃ chosen, r = selected ++ chosen ∧ first_completion selected ((tried ++ candidates) :: rest) chosen
  | Ok None => (out.1 ≤ limit)%nat ∧ ∀ chosen, ¬ completes selected ((tried ++ candidates) :: rest) chosen
  | Err message => failure message out.1
  end.
Proof.
  intros Hdeeper. revert visited tried. induction candidates as [|c candidates IH]; intros visited tried Hv Htried; simpl.
  { split; [lia|]. split; [done|]. rewrite app_nil_r. intros chosen H. inversion H; subst. by eapply Htried. }
  destruct (limit <? S visited)%nat eqn:Hcap; simpl.
  { apply Nat.ltb_lt in Hcap. split; [lia|]. left. split; [done|lia]. }
  apply Nat.ltb_ge in Hcap.
  assert ((∀ others, accepted (selected ++ [c]) → ¬ completes (selected ++ [c]) rest others) →
    ∀ b others, b ∈ tried ++ [c] → accepted (selected ++ [b]) → ¬ completes (selected ++ [b]) rest others) as Hnext.
  { intros Hc b others [Hb| ->%list_elem_of_singleton]%elem_of_app; [by apply Htried|apply Hc]. }
  assert (tried ++ c :: candidates = (tried ++ [c]) ++ candidates) as Heq by (by rewrite <-app_assoc).
  destruct (conflict (selected ++ [c])) as [[]|m|m] eqn:Hconflict.
  - specialize (Hdeeper (selected ++ [c]) (S visited) Hcap) as [Hbound Hout].
    destruct (deeper (selected ++ [c]) (S visited)) as [visited' [[r|]|message]]; simpl in *.
    + split; [lia|]. destruct Hout as [Hl (chosen & -> & Hf)]. split; [done|]. exists (c :: chosen).
      rewrite <-app_assoc. split; [done|]. constructor; [done|done|].
      intros b others Hb Hcompl. inversion Hcompl; subst. by eapply Htried.
    + destruct Hout as [Hl Hnone]. rewrite Heq.
      destruct (IH visited' (tried ++ [c]) Hl (Hnext (λ others _, Hnone others))) as [Hb H]. split; [lia|done].
    + by split; [lia|].
  - rewrite Heq. assert (¬ accepted (selected ++ [c])) as Hno by (unfold accepted; congruence).
    destruct (IH (S visited) (tried ++ [c]) Hcap (Hnext (λ others Ha, False_ind _ (Hno Ha)))) as [Hb H]. split; [lia|done].
  - split; [simpl; lia|]. right. split; [done|]. by exists (selected ++ [c]).
Qed.

Lemma search_spec sets : ∀ selected visited, (visited ≤ limit)%nat →
  searched selected sets visited (search conflict limit sets selected visited).
Proof.
  induction sets as [|candidates rest IH]; intros selected visited Hv.
  - split; [simpl; lia|]. simpl. split; [done|]. exists []. rewrite app_nil_r. split; [done|constructor].
  - apply (try_spec _ rest selected visited [] candidates); [done|done|]. by intros b others ?%elem_of_nil.
Qed.

(** What the whole search answers. *)
Lemma solve_answers sets : (1 ≤ limit)%nat →
  let out := solveCandidateSetsV1 conflict limit sets in
  (out.1 ≤ states sets ∧ out.1 ≤ S limit)%nat ∧
  match out.2 with
  | Ok chosen => (out.1 ≤ limit)%nat ∧ first_completion [] sets chosen
  | Err message => message = incompatible_requirements ∧ (out.1 ≤ limit)%nat ∧ (∀ chosen, ¬ completes [] sets chosen) ∨
                   failure message out.1
  end.
Proof.
  intros Hl. unfold solveCandidateSetsV1. rewrite (proj2 (Nat.ltb_ge limit 1)) by done.
  destruct (search_spec sets [] 0 ltac:(lia)) as [Hb H]. unfold failure in *.
  destruct (search conflict limit sets [] 0) as [visited [[r|]|message]]; simpl in *.
  - destruct H as [Hv (chosen & -> & Hf)]. split; [lia|done].
  - destruct H as [Hv Hn]. split; [lia|]. by left.
  - split; [|by right]. destruct H as [[_ ->]|[Hv _]]; lia.
Qed.
End search.

(** ** The order of the sets *)

Definition set_lt (l r : orderedCandidateSetV1) : Prop := set_less l r = true.

Lemma set_less_spec l r : set_less l r = true ↔
  string_lt (group_Scope (group l)) (group_Scope (group r)) ∨
  group_Scope (group l) = group_Scope (group r) ∧
    (string_lt (group_Tool (group l)) (group_Tool (group r)) ∨
     group_Tool (group l) = group_Tool (group r) ∧ string_lt (groupBytes l) (groupBytes r)).
Proof.
  unfold set_less. destruct (decide (group_Scope (group l) = group_Scope (group r))) as [Hs|Hs].
  - rewrite bool_decide_true by done. simpl. destruct (decide (group_Tool (group l) = group_Tool (group r))) as [Ht|Ht].
    + rewrite bool_decide_true by done. simpl. rewrite bool_decide_eq_true, Hs, Ht. split; [tauto|].
      intros [H|[_ [H|[_ H]]]]; [by apply irreflexivity in H; [|apply _]..|done].
    + rewrite bool_decide_false by done. simpl. rewrite bool_decide_eq_true, Hs. split; [tauto|].
      intros [H|[_ [H|[H _]]]]; [by apply irreflexivity in H; [|apply _]|done..].
  - rewrite bool_decide_false by done. simpl. rewrite bool_decide_eq_true. split; [tauto|]. by intros [H|[H _]].
Qed.

Lemma string_lt_asym a b : string_lt a b → ¬ string_lt b a.
Proof. intros H1 H2. apply (irreflexivity string_lt a). by etrans. Qed.

#[export] Instance set_le_total : Total set_le.
Proof.
  intros l r. unfold set_le. destruct (set_less r l) eqn:Hrl; [|by left]. right.
  apply not_true_iff_false. rewrite set_less_spec in *. intros H.
  pose proof string_lt_asym as Hasym. pose proof (irreflexivity string_lt) as Hirr.
  destruct Hrl as [|[? [|[? ?]]]], H as [|[? [|[? ?]]]]; naive_solver congruence.
Qed.
#[export] Instance set_le_transitive : Transitive set_le.
Proof.
  assert (∀ l r, set_le l r ↔ set_less l r = true ∨
    group_Scope (group l) = group_Scope (group r) ∧ group_Tool (group l) = group_Tool (group r) ∧ groupBytes l = groupBytes r) as Hle.
  { intros l r. unfold set_le. rewrite <-not_true_iff_false, !set_less_spec.
    pose proof string_lt_asym as Hasym. pose proof (irreflexivity string_lt) as Hirr.
    pose proof (string_lt_total (group_Scope (group l)) (group_Scope (group r))).
    pose proof (string_lt_total (group_Tool (group l)) (group_Tool (group r))).
    pose proof (string_lt_total (groupBytes l) (groupBytes r)). naive_solver congruence. }
  intros a b c. rewrite !Hle, !set_less_spec. intros [H1|(E1 & E2 & E3)] [H2|(F1 & F2 & F3)].
  - left. destruct H1 as [H1|[H1 [K1|[K1 L1]]]], H2 as [H2|[H2 [K2|[K2 L2]]]].
    + left. by etrans.
    + left. congruence.
    + left. congruence.
    + left. congruence.
    + right. split; [congruence|]. left. by etrans.
    + right. split; [congruence|]. left. congruence.
    + left. congruence.
    + right. split; [congruence|]. left. congruence.
    + right. split; [congruence|]. right. split; [congruence|]. by etrans.
  - left. by rewrite <-F1, <-F2, <-F3.
  - left. by rewrite E1, E2, E3.
  - right. by rewrite E1, E2, E3.
Qed.

Section prepare.
Context {schemes : VersionSchemes} (catalog : CatalogV1) (table : gmap string ProviderDomainSetV1).

Definition prepared (set : ReleaseCandidateSetV1) (out : orderedCandidateSetV1) : Prop :=
  validateCanonicalRequirementGroupV1 (Group set) = Ok tt ∧ prepare_set catalog table set = Ok out.
Definition set_key (set : ReleaseCandidateSetV1) : string := group_key (Group set).

Lemma prepare_set_group set out : prepare_set catalog table set = Ok out → group out = Group set.
Proof.
  unfold prepare_set. destruct (table !! _); [|done]. intros [_ H]%reject_if_bind.
  apply bind_ok in H as (tool & _ & H). apply reject_if_bind in H as [_ H].
  apply bind_ok in H as ([] & _ & H). by apply bind_ok in H as (encoded & _ & [= <-]).
Qed.

Lemma prepare_sets_ok sets seen outs : prepare_sets catalog table sets seen = Ok outs ↔
  Forall2 prepared sets outs ∧ NoDup (map set_key sets) ∧ Forall (λ set, set_key set ∉ seen) sets.
Proof.
  revert seen outs. induction sets as [|set sets IH]; intros seen outs; simpl.
  { split; [intros [= <-]; split_and!; constructor|]. intros (H & _). by inversion H. }
  rewrite bind_ok. split.
  - intros ([] & Hv & H). apply reject_if_bind in H as [Hk H]. apply bool_decide_eq_false in Hk.
    apply bind_ok in H as (out & Hout & H). apply bind_ok in H as (others & Ho & [= <-]).
    apply IH in Ho as (Hf & Hnd & Hseen). rewrite Forall_forall in Hseen. split_and!; [by constructor| |].
    + constructor; [|done]. intros (other & Hkey & Hin)%list_elem_of_fmap. apply (Hseen _ Hin). rewrite <-Hkey. set_solver.
    + constructor; [done|]. apply Forall_forall. intros x Hx Hin. apply (Hseen x Hx). set_solver.
  - intros (Hf & Hnd & Hseen). inversion Hf as [|? out ? others [Hv Hp] Hrest]; subst.
    apply NoDup_cons in Hnd as [Hk Hnd]. apply Forall_cons in Hseen as [Hs Hseen]. exists tt. split; [done|].
    rewrite bool_decide_false by done. simpl. rewrite Hp. simpl.
    rewrite (proj2 (IH _ others)); [done|]. split_and!; [done|done|]. rewrite Forall_forall in Hseen |- *.
    intros x Hx [Hin%elem_of_singleton|Hin]%elem_of_union; [|by apply (Hseen x)].
    apply Hk. unfold set_key in *. rewrite <-Hin. by apply (list_elem_of_fmap_2 set_key).
Qed.

Lemma prepared_permutation sets sets' outs : sets ≡ₚ sets' → Forall2 prepared sets outs →
  ∃ outs', outs ≡ₚ outs' ∧ Forall2 prepared sets' outs'.
Proof.
  intros Hp. revert outs. induction Hp as [|set sets sets' _ IH|a b sets|sets1 sets2 sets3 _ IH1 _ IH2]; intros outs Hf.
  - inversion Hf. by exists [].
  - inversion Hf as [|? out ? others Ho Hf']; subst. destruct (IH _ Hf') as (others' & Hperm & H).
    exists (out :: others'). split; [by constructor|by constructor].
  - inversion Hf as [|? outb ? others1 Hb Hf1]; subst. inversion Hf1 as [|? outa ? others Ha Hf2]; subst.
    exists (outa :: outb :: others). split; [apply perm_swap|]. constructor; [done|]. by constructor.
  - destruct (IH1 _ Hf) as (outs2 & Hp2 & H2). destruct (IH2 _ H2) as (outs3 & Hp3 & H3).
    exists outs3. split; [by etrans|done].
Qed.

Lemma prepared_keys sets outs : Forall2 prepared sets outs → map (group_key ∘ group) outs = map set_key sets.
Proof.
  induction 1 as [|set out sets outs [_ Hp] _ IH]; [done|]. simpl. f_equal; [|done].
  unfold compose, set_key. by rewrite (prepare_set_group _ _ Hp).
Qed.

Lemma set_le_antisym l r : set_le l r → set_le r l → group_key (group l) = group_key (group r).
Proof.
  unfold set_le. rewrite <-!not_true_iff_false, !set_less_spec. intros H1 H2.
  assert (group_Scope (group l) = group_Scope (group r)) as Hs.
  { destruct (string_lt_total (group_Scope (group l)) (group_Scope (group r))) as [H|[H|H]]; [|done|]; tauto. }
  assert (group_Tool (group l) = group_Tool (group r)) as Ht.
  { destruct (string_lt_total (group_Tool (group l)) (group_Tool (group r))) as [H|[H|H]]; [|done|]; rewrite Hs in *; tauto. }
  unfold group_key. by rewrite Hs, Ht.
Qed.

(** Sets with distinct keys have one sorted arrangement. *)
Lemma sort_sets_unique outs outs' : outs ≡ₚ outs' → NoDup (map (group_key ∘ group) outs) →
  merge_sort set_le outs = merge_sort set_le outs'.
Proof.
  intros Hp Hnd. apply (Sorted_unique_strong set_le).
  - intros x y Hx Hy Hxy Hyx. rewrite (merge_sort_Permutation set_le outs) in Hx.
    rewrite (merge_sort_Permutation set_le outs') in Hy. rewrite Hp in Hx.
    rewrite Hp in Hnd. apply (NoDup_map_inj (group_key ∘ group) outs'); [done..|]. by apply set_le_antisym.
  - apply Sorted_merge_sort. apply _.
  - apply Sorted_merge_sort. apply _.
  - by rewrite !merge_sort_Permutation.
Qed.
End prepare.

(** ** Properties *)

(** C40: the search answers with the first complete assignment in the order of the
    sets and of their candidates, none of whose prefixes conflicts; or with an
    error, and then there is no such assignment, or the cap was reached, or the
    test of some assignment failed.  It visits no more states than the tree of
    candidates has, and at most one beyond the cap. *)
Theorem solveCandidateSetsV1_spec {C} (conflict : list C → verdict unit) limit sets visited answer :
  (1 ≤ limit)%nat → solveCandidateSetsV1 conflict limit sets = (visited, answer) →
  (visited ≤ states sets ∧ visited ≤ S limit)%nat ∧
  match answer with
  | Ok chosen => (visited ≤ limit)%nat ∧ first_completion conflict [] sets chosen
  | Err message =>
      message = incompatible_requirements ∧ (visited ≤ limit)%nat ∧ (∀ chosen, ¬ completes conflict [] sets chosen) ∨
      failure conflict limit message visited
  end.
Proof.
  intros Hl Heq. pose proof (solve_answers conflict limit sets Hl) as H. cbn zeta in H. by rewrite Heq in H.
Qed.

Lemma solveCandidateSetsV1_spec_witness :
  let conflict (l : list nat) := match l with [1; 1]%nat => Conflict "1" | _ => Accepted tt end in
  first_completion conflict [] [[1]; [1; 2]]%nat [1; 2]%nat.
Proof.
  intros conflict.
  destruct (solveCandidateSetsV1_spec conflict 1024 [[1]; [1; 2]]%nat 3 (Ok [1; 2]%nat) ltac:(lia) eq_refl) as [_ [_ H]].
  exact H.
Defined.

(** The search is complete: when the cap admits the whole tree and no test
    fails, it finds an assignment whenever there is one. *)
Theorem solveCandidateSetsV1_complete {C} (conflict : list C → verdict unit) limit sets chosen :
  (states sets ≤ limit)%nat → (1 ≤ limit)%nat → (∀ attempt message, conflict attempt ≠ Failed message) →
  completes conflict [] sets chosen →
  ∃ visited first, solveCandidateSetsV1 conflict limit sets = (visited, Ok first) ∧
    (visited ≤ states sets)%nat ∧ first_completion conflict [] sets first.
Proof.
  intros Hs Hl Hf Hc. pose proof (solve_answers conflict limit sets Hl) as [Hb H]. cbn zeta in *.
  destruct (solveCandidateSetsV1 conflict limit sets) as [visited [first|message]]; simpl in *.
  - exists visited, first. split_and!; [done|lia|apply H].
  - exfalso. destruct H as [(_ & _ & Hno)|[[_ ->]|(_ & attempt & Ha)]]; [by apply (Hno chosen)|lia|by apply (Hf attempt message)].
Qed.

Lemma solveCandidateSetsV1_complete_witness :
  let conflict (l : list nat) := match l with [1; 1]%nat => Conflict "1" | _ => Accepted tt end in
  ∃ visited first, solveCandidateSetsV1 conflict 4 [[1]; [1; 2]]%nat = (visited, Ok first) ∧
    (visited ≤ 3)%nat ∧ first_completion conflict [] [[1]; [1; 2]]%nat first.
Proof.
  intros conflict. apply (solveCandidateSetsV1_complete conflict 4 [[1]; [1; 2]]%nat [1; 2]%nat).
  - simpl. lia.
  - lia.
  - intros attempt message. unfold conflict. by repeat case_match.
  - constructor; [apply list_elem_of_here|done|]. constructor; [set_solver|done|constructor].
Defined.

(** The sets are prepared in one order whatever order they are given in. *)
Theorem prepareCandidateSetsV1_order {schemes : VersionSchemes} catalog sets sets' domainSets prepared :
  sets ≡ₚ sets' → prepareCandidateSetsV1 catalog sets domainSets = Ok prepared →
  prepareCandidateSetsV1 catalog sets' domainSets = Ok prepared ∧
  map group prepared ≡ₚ map Group sets ∧ Sorted set_le prepared.
Proof.
  unfold prepareCandidateSetsV1. intros Hp [He H]%reject_if_bind. apply bind_ok in H as (table & Ht & H).
  apply bind_ok in H as (outs & Ho & [= <-]). apply prepare_sets_ok in Ho as (Hf & Hnd & Hseen).
  destruct (prepared_permutation catalog table _ _ _ Hp Hf) as (outs' & Hpo & Hf').
  assert (map group outs = map Group sets) as Hg.
  { clear -Hf. induction Hf as [|set out sets outs [_ H] _ IH]; [done|]. simpl. f_equal; [|done].
    by apply (prepare_set_group catalog table). }
  split_and!.
  - rewrite <-(Permutation_length Hp), He. simpl. rewrite Ht. simpl.
    rewrite (proj2 (prepare_sets_ok catalog table sets' ∅ outs')).
    + simpl. f_equal. symmetry. apply sort_sets_unique; [done|]. by rewrite (prepared_keys catalog table sets).
    + split_and!; [done| |by rewrite <-Hp]. by rewrite <-(Permutation_map set_key Hp).
  - rewrite (merge_sort_Permutation set_le outs). by rewrite Hg.
  - apply Sorted_merge_sort. apply _.
Qed.

Definition example_prepared : list orderedCandidateSetV1 :=
  match prepareCandidateSetsV1 (schemes := dotted_schemes) example_catalog example_sets [example_domains] with
  | Ok sets => sets
  | Err _ => []
  end.

Lemma prepareCandidateSetsV1_order_witness :
  prepareCandidateSetsV1 (schemes := dotted_schemes) example_catalog (rev example_sets) [example_domains] = Ok example_prepared.
Proof.
  refine (proj1 (prepareCandidateSetsV1_order (schemes := dotted_schemes) example_catalog example_sets (rev example_sets)
    [example_domains] example_prepared _ _)).
  - apply Permutation_rev.
  - vm_compute. reflexivity.
Defined.

(** C39: the tools that the search selects work together.  Each comes from its own
    set.  What they and the active providers claim of one file system, their install
    roots, payload directories, exports and files, overlaps only so ([coexist]): two
    payload directories are the same one with the same digest, two roots are the same
    path, and so are two exports; a file of an active provider overlaps a directory only
    when one owner claims both; and an export lies strictly inside a root or a payload
    directory only when one owner claims this directory, with this digest, and this
    export, an owner that is the tool of the export or exports the same name and path.
    So an export that no other tool repeats lies in directories of its own tool only.
    And whatever two of the tools name in one domain, an environment variable, an export,
    a capability, the logical path of an artifact or an APT package, they name with
    the same value. *)
Theorem solve_tools_sound {ports : ToolPorts} catalog sets domainSets active limit visited chosen :
  sets ≠ [] → solve_tools catalog sets domainSets active limit = (visited, Ok chosen) →
  Forall2 (λ candidate set, candidate ∈ candidates set) chosen sets ∧
  (let claimed := occupied catalog domainSets active sets chosen in
   ∀ domain k owner1 path1 value1 l owner2 path2 value2,
     claimed k domain owner1 path1 value1 → claimed l domain owner2 path2 value2 → pathsOverlapV1 path1 path2 = true →
     coexist claimed domain k owner1 path1 value1 l owner2 path2 value2) ∧
  ∀ set1 candidate1 set2 candidate2 kind domain key value1 value2,
    (set1, candidate1) ∈ zip sets chosen → (set2, candidate2) ∈ zip sets chosen →
    names catalog (domains set1) candidate1 kind domain key value1 →
    names catalog (domains set2) candidate2 kind domain key value2 → value1 = value2.
Proof.
  unfold solve_tools. intros Hne Heq. destruct (decide (limit < 1)%nat) as [Hl|Hl].
  { unfold solveCandidateSetsV1 in Heq. by rewrite (proj2 (Nat.ltb_lt limit 1)) in Heq by done. }
  pose proof (solve_answers (assignmentConflictV1 catalog domainSets active sets) limit (map candidates sets) ltac:(lia)) as [_ H].
  cbn zeta in H. rewrite Heq in H. destruct H as [_ Hf%first_completes].
  assert (accepted (assignmentConflictV1 catalog domainSets active sets) chosen) as Ha.
  { apply (completes_accepted _ [] _ _ Hf). intros ->. apply completes_length in Hf. by destruct sets. }
  apply completes_members in Hf. split_and!.
  - by apply (Forall2_fmap_r candidates) in Hf.
  - unfold accepted, assignmentConflictV1 in Ha. apply bind_accepted in Ha as (claims & Hc & _). by apply (assignment_coexists _ _ _ _ _ claims).
  - intros. by eapply (assignment_agrees catalog domainSets active sets chosen set1 candidate1 set2 candidate2).
Qed.

(** The export of go lies in the payload directory that go unpacks, inside its root. *)
Lemma solve_tools_sound_witness :
  let chosen := [example_candidate "go" "1" "/opt"; example_candidate "node" "9" "/opt"] in
  let claimed := occupied (ports := example_ports) example_catalog [example_domains] [] example_prepared chosen in
  ∃ owner value, claimed Alias_ "fs" owner "/opt/go/bin/go" value ∧ claimed Root_ "fs" owner "/opt/go" "/opt/go".
Proof.
  intros chosen claimed.
  destruct (solve_tools_sound (ports := example_ports) example_catalog example_prepared [example_domains] [] 1024 3 chosen)
    as (_ & Hpaths & _); [vm_compute; discriminate|vm_compute; reflexivity|].
  assert (map domains example_prepared = [example_domains; example_domains]) as Hsets by (vm_compute; reflexivity).
  destruct example_prepared as [|go rest] eqn:Hprepared; [discriminate|].
  injection Hsets as Hd _.
  set (candidate := example_candidate "go" "1" "/opt"). set (owner := candidate_owner (ports := example_ports) go candidate).
  assert (∀ k path value, occupies example_catalog example_domains owner candidate k "fs" owner path value →
    claimed k "fs" owner path value) as Hgo.
  { rewrite <-Hd. intros k path value Ho. apply (occupied_candidate _ _ _ _ _ go candidate); [|exact Ho].
    apply list_elem_of_here. }
  assert (claimed Alias_ "fs" owner "/opt/go/bin/go" ("go" +:+ nul +:+ "/opt/go/bin/go")) as Hexport
    by (apply Hgo, (occupies_export _ example_domains _ _ (MakeExport "go" "/opt/go/bin/go")), list_elem_of_here).
  assert (claimed Root_ "fs" owner "/opt/go" "/opt/go") as Hroot.
  { apply Hgo. refine (occupies_root _ example_domains _ candidate _ eq_refl _). discriminate. }
  destruct (Hpaths _ _ _ _ _ _ _ _ _ Hexport Hroot eq_refl) as (_ & owner' & value & [He _] & Hr).
  exists owner', value. split; [exact He|exact Hr].
Defined.
