(* ===== verification/ToolRequest.v ===== *)
(** * Requests of portable tools

    [internal/toolrequest/request.go]: a blueprint asks for tools with compact
    texts or with mappings; the requests of one container are normalised and
    merged into one demand per tool.

    The nodes of YAML documents are those of Yaml.v; scopes and the validation of
    a demand are in ToolSolver.v. *)

From Stdlib Require Import Ascii.
From S2P Require Import Prelude GoText Yaml ToolRecords ToolCatalog ToolVersions ToolClaims ToolSolver.

Open Scope Z_scope.

(** ** Requests as they are written *)

Record SetSyntaxV1 := SetSyntax { Values : list string }.
Record SyntaxV1 := MakeSyntax {
  Compact : string;
  Structured : bool;
  syntax_Tool : string;
  syntax_Version : string;
  HasVersion : bool;
  syntax_DefinitionRevision : string;
  HasDefinitionRevision : bool;
  syntax_Binding : SetSyntaxV1;
  HasBinding : bool;
  syntax_Selections : gmap string SetSyntaxV1
}.
Record CanonicalSetV1 := { Groups : list CanonicalRequirementGroupV1; Sources : gmap string (list string) }.

(** ** Decoding YAML *)

Section yaml.
Context {yaml : YamlNodes}.

Definition requestScalarV1 (node : Node) : result string :=
  _ ← reject_if (negb (is_text node)) "portable tool request field must be a string";
  Ok (node_Value node).

Definition must_be_set : string := "portable tool request field must be a string or list".
Fixpoint item_values (items : list Node) : result (list string) :=
  match items with
  | [] => Ok []
  | item :: rest =>
    _ ← reject_if (negb (is_text item)) "portable tool request list values must be strings";
    values ← item_values rest;
    Ok (node_Value item :: values)
  end.
Definition requestSetSyntaxV1 (node : Node) : result SetSyntaxV1 :=
  if is_scalar node then
    _ ← reject_if (negb (bool_decide (node_Tag node = "!!str"))) must_be_set;
    Ok (SetSyntax [node_Value node])
  else
    _ ← reject_if (negb (bool_decide (node_Kind node = SequenceNode))) must_be_set;
    SetSyntax <$> item_values (node_Content node).

Fixpoint selection_fields (content : list Node) (selections : gmap string SetSyntaxV1) : result (gmap string SetSyntaxV1) :=
  match content with
  | [] => Ok selections
  | [_] => Err index_out_of_range
  | key :: value :: rest =>
    _ ← reject_if (negb (is_text key)) "portable tool request selection dimension must be a string";
    _ ← reject_if (bool_decide (is_Some (selections !! node_Value key))) "portable tool request contains duplicate selection dimension";
    set ← requestSetSyntaxV1 value;
    selection_fields rest (<[node_Value key := set]> selections)
  end.
Definition requestSelectionsSyntaxV1 (node : Node) : result (gmap string SetSyntaxV1) :=
  _ ← reject_if (negb (bool_decide (node_Kind node = MappingNode))) "portable tool request select must be a mapping";
  _ ← reject_if (bool_decide (length (node_Content node) = 0%nat)) "portable tool request select must not be empty";
  selection_fields (node_Content node) ∅.

Definition empty_syntax : SyntaxV1 := MakeSyntax "" false "" "" false "" false (SetSyntax []) false ∅.
Definition structured_syntax : SyntaxV1 := MakeSyntax "" true "" "" false "" false (SetSyntax []) false ∅.
Definition must_be_request : string := "portable tool request must be a string or mapping".

(** The [switch] over the name of a field. *)
Definition set_field (request : SyntaxV1) (field : string) (value : Node) : result SyntaxV1 :=
  let '(MakeSyntax compact structured tool version hasVersion revision hasRevision binding hasBinding selections) := request in
  if bool_decide (field = "tool") then
    text ← requestScalarV1 value;
    Ok (MakeSyntax compact structured text version hasVersion revision hasRevision binding hasBinding selections)
  else if bool_decide (field = "version") then
    text ← requestScalarV1 value;
    Ok (MakeSyntax compact structured tool text true revision hasRevision binding hasBinding selections)
  else if bool_decide (field = "definition_revision") then
    _ ← reject_if (negb (is_scalar value) || negb (bool_decide (node_Tag value = "!!str")) && negb (bool_decide (node_Tag value = "!!int")))
          "portable tool request definition_revision must be a string or integer";
    Ok (MakeSyntax compact structured tool version hasVersion (node_Value value) true binding hasBinding selections)
  else if bool_decide (field = "binding") then
    set ← requestSetSyntaxV1 value;
    Ok (MakeSyntax compact structured tool version hasVersion revision hasRevision set true selections)
  else if bool_decide (field = "select") then
    dimensions ← requestSelectionsSyntaxV1 value;
    Ok (MakeSyntax compact structured tool version hasVersion revision hasRevision binding hasBinding dimensions)
  else Err "portable tool request contains unknown field".
Fixpoint set_fields (content : list Node) (present : gset string) (request : SyntaxV1) : result SyntaxV1 :=
  match content with
  | [] => Ok request
  | [_] => Err index_out_of_range
  | key :: value :: rest =>
    _ ← reject_if (negb (is_text key)) "portable tool request field name must be a string";
    _ ← reject_if (bool_decide (node_Value key ∈ present)) "portable tool request contains duplicate field";
    request ← set_field request (node_Value key) value;
    set_fields rest ({[node_Value key]} ∪ present) request
  end.
(** The receiver is a new request, as the decoder of a list makes one. *)
Definition UnmarshalYAML (node : Node) : result SyntaxV1 :=
  if is_scalar node then
    _ ← reject_if (negb (bool_decide (node_Tag node = "!!str"))) must_be_request;
    Ok (MakeSyntax (node_Value node) false "" "" false "" false (SetSyntax []) false ∅)
  else
    _ ← reject_if (negb (bool_decide (node_Kind node = MappingNode))) must_be_request;
    set_fields (node_Content node) ∅ structured_syntax.
End yaml.

(** ** Tokens *)

Definition containsControlV1 (value : string) : bool :=
  existsb (λ r, is_control (rune_value r)) (runes value).
Definition validIdentifierV1 (value : string) : bool :=
  match value with
  | EmptyString => false
  | String c rest => is_lower c && string_forallb (λ c, is_lower c || is_digit c || bool_decide (c = "-"%char)) rest
  end.
Definition validToolNameV1 (value : string) : bool :=
  match cut_byte value "/"%char with
  | None => validIdentifierV1 value
  | Some (namespace, name) => validIdentifierV1 namespace && validIdentifierV1 name
  end.
Definition validTokenV1 (value : string) : bool :=
  negb (bool_decide (value = "")) && bool_decide (trim_space value = value) && negb (containsControlV1 value).

Definition positive_revision : string := "portable tool definition_revision must be a positive canonical decimal".
Definition validateRevisionV1 (value : string) : result unit :=
  _ ← reject_if (match value with EmptyString => true | String c _ => bool_decide (value = "0") || bool_decide (c = "0"%char) end)
        positive_revision;
  reject_if (negb (string_forallb is_digit value)) positive_revision.

Definition version_operators : string := "=<>!~^".

Definition invalid_tool_name : string := "portable tool name is invalid".
Definition parseCompactV1 (raw : string) : result (string * string * string) :=
  _ ← reject_if (bool_decide (raw = "") || negb (bool_decide (trim_space raw = raw))
                 || existsb (λ r, is_space (rune_value r)) (runes raw) || containsControlV1 raw)
        "compact portable tool request must be nonempty and contain no whitespace";
  _ ← reject_if (contains_any raw "[]{}") "compact portable tool request does not support bracket syntax";
  match cut_prefix raw "tool:" with
  | None => Err "compact portable tool request must start with tool:"
  | Some rest =>
    let '(tool, version) := split_any rest version_operators in
    _ ← reject_if (negb (validToolNameV1 tool)) invalid_tool_name;
    _ ← reject_if (negb (bool_decide (version = "")) && negb (validTokenV1 version))
          "portable tool version constraint must be a structural token";
    Ok (tool, version, "")
  end.

(** ** Normalisation *)

Fixpoint collect_values (allowWildcard : bool) (raw : list string) (seen : gset string) (all : bool) : result (list string * bool) :=
  match raw with
  | [] => Ok ([], all)
  | value :: rest =>
    let wildcard := bool_decide (value = "*") && allowWildcard in
    _ ← reject_if (negb wildcard && negb (validIdentifierV1 value)) "portable tool request value is invalid";
    _ ← reject_if (bool_decide (value ∈ seen)) "portable tool request contains duplicate value";
    answer ← collect_values allowWildcard rest ({[value]} ∪ seen) (all || wildcard);
    Ok (value :: answer.1, answer.2)
  end.
Definition normalizeSetV1 (raw : list string) (allowWildcard : bool) : result (list string * bool) :=
  _ ← reject_if (bool_decide (length raw = 0%nat)) "portable tool request list must not be empty";
  answer ← collect_values allowWildcard raw ∅ false;
  let '(values, all) := answer in
  if all : bool then
    _ ← reject_if (negb (bool_decide (length values = 1%nat))) "portable tool request cannot mix wildcard and explicit values";
    Ok ([], true)
  else Ok (merge_sort String.le values, false).

Fixpoint normalize_selections (syntax : list (string * SetSyntaxV1)) (selections : gmap string (list string))
    : result (gmap string (list string)) :=
  match syntax with
  | [] => Ok selections
  | (dimension, raw) :: rest =>
    _ ← reject_if (negb (validIdentifierV1 dimension)) "portable tool selection dimension is invalid";
    answer ← normalizeSetV1 (Values raw) false;
    normalize_selections rest (<[dimension := answer.1]> selections)
  end.
Definition canonicalGroupV1 (scope context tool version revision : string) (hasBinding : bool) (bindingSyntax : SetSyntaxV1)
    (selectionSyntax : gmap string SetSyntaxV1) : result CanonicalRequirementGroupV1 :=
  _ ← reject_if (negb (validToolNameV1 tool)) invalid_tool_name;
  constraints ← (if bool_decide (version = "") then Ok []
                 else _ ← reject_if (negb (validTokenV1 version)) "portable tool version constraint must be a nonempty structural token";
                      Ok [version]);
  binding ← (if hasBinding then
               answer ← normalizeSetV1 (Values bindingSyntax) true;
               Ok {| All := answer.2; Infer := false; Explicit := answer.1 |}
             else Ok {| All := false; Infer := true; Explicit := [] |});
  selections ← normalize_selections (map_to_list selectionSyntax) ∅;
  Ok {| group_Scope := scope; group_Tool := tool; VersionConstraints := constraints; DefinitionRevision := revision;
        Context_ := context; group_Binding := binding; group_Selections := selections |}.
Definition normalizeV1 (syntax : SyntaxV1) (scope context : string) : result CanonicalRequirementGroupV1 :=
  if negb (Structured syntax) then
    parts ← parseCompactV1 (Compact syntax);
    let '(tool, version, revision) := parts in
    canonicalGroupV1 scope context tool version revision false (SetSyntax []) ∅
  else
    _ ← reject_if (bool_decide (syntax_Tool syntax = "")) "portable tool request tool is required";
    _ ← reject_if (HasVersion syntax && bool_decide (syntax_Version syntax = "")) "portable tool request version must not be empty";
    revision ← (if HasDefinitionRevision syntax then
                  _ ← validateRevisionV1 (syntax_DefinitionRevision syntax); Ok (syntax_DefinitionRevision syntax)
                else Ok "");
    canonicalGroupV1 scope context (syntax_Tool syntax) (syntax_Version syntax) revision (HasBinding syntax) (syntax_Binding syntax)
      (syntax_Selections syntax).

(** ** Merging *)

Fixpoint distinct_values (values : list string) (seen : gset string) : list string :=
  match values with
  | [] => []
  | value :: rest =>
    if bool_decide (value ∈ seen) then distinct_values rest seen else value :: distinct_values rest ({[value]} ∪ seen)
  end.
Definition unionV1 (left right : list string) : list string := merge_sort String.le (distinct_values (left ++ right) ∅).

Definition merge_bindings (left right : CanonicalBindingDemandV1) : CanonicalBindingDemandV1 :=
  if All left || All right then {| All := true; Infer := false; Explicit := [] |}
  else {| All := false; Infer := Infer left || Infer right; Explicit := unionV1 (Explicit left) (Explicit right) |}.
Definition merge_values (left right : option (list string)) : option (list string) :=
  match right with Some values => Some (unionV1 (default [] left) values) | None => left end.
Definition MergeV1 (left right : CanonicalRequirementGroupV1) : result CanonicalRequirementGroupV1 :=
  _ ← reject_if (negb (bool_decide (group_Scope left = group_Scope right)) || negb (bool_decide (group_Tool left = group_Tool right)))
        "portable tool requirements may merge only for the same scope and tool";
  _ ← reject_if (negb (bool_decide (Context_ left = Context_ right))) "portable tool has conflicting contexts";
  _ ← reject_if (negb (bool_decide (DefinitionRevision left = "")) && negb (bool_decide (DefinitionRevision right = ""))
                 && negb (bool_decide (DefinitionRevision left = DefinitionRevision right)))
        "portable tool has conflicting definition revisions";
  Ok {| group_Scope := group_Scope left; group_Tool := group_Tool left;
        VersionConstraints := unionV1 (VersionConstraints left) (VersionConstraints right);
        DefinitionRevision := if bool_decide (DefinitionRevision left = "") then DefinitionRevision right else DefinitionRevision left;
        Context_ := Context_ left; group_Binding := merge_bindings (group_Binding left) (group_Binding right);
        group_Selections := merge merge_values (group_Selections left) (group_Selections right) |}.

Definition source_label (sourcePrefix : string) (index : Z) : string := sourcePrefix +:+ "[" +:+ format_uint index +:+ "]".
Fixpoint merge_requests (requests : list SyntaxV1) (scope context sourcePrefix : string) (index : Z)
    (groups : gmap string CanonicalRequirementGroupV1) (sources : gmap string (list string))
    : result (gmap string CanonicalRequirementGroupV1 * gmap string (list string)) :=
  match requests with
  | [] => Ok (groups, sources)
  | syntax :: rest =>
    group ← normalizeV1 syntax scope context;
    group ← match groups !! group_Tool group with Some previous => MergeV1 previous group | None => Ok group end;
    let tool := group_Tool group in
    merge_requests rest scope context sourcePrefix (index + 1) (<[tool := group]> groups)
      (<[tool := default [] (sources !! tool) ++ [source_label sourcePrefix index]]> sources)
  end.
Definition NormalizeAndMergeV1 (requests : list SyntaxV1) (scope context sourcePrefix : string) : result CanonicalSetV1 :=
  _ ← ValidateResolutionScopeContextV1 scope context;
  state ← merge_requests requests scope context sourcePrefix 0 ∅ ∅;
  let '(groups, sources) := state in
  let tools := merge_sort String.le (map fst (map_to_list groups)) in
  Ok {| Groups := omap (λ tool, groups !! tool) tools; Sources := sources |}.

(** ** Examples *)

Definition example_requests : list tree := [
  mapping_node [("tool", text_node "playwright"); ("version", text_node ">=1.60")];
  mapping_node [("tool", text_node "playwright"); ("version", text_node "<2"); ("definition_revision", int_node "2");
    ("binding", text_node "python"); ("select", mapping_node [("browser", list_node ["webkit"; "chromium"])])];
  mapping_node [("tool", text_node "playwright"); ("binding", list_node ["node"]); ("select", mapping_node [("browser", text_node "chromium")])];
  text_node "tool:java==21~2"].
Definition decode_requests (nodes : list tree) : result (list SyntaxV1) := mapM (UnmarshalYAML (yaml := tree_nodes)) nodes.
Example merge_example :
  (requests ← decode_requests example_requests;
   set ← NormalizeAndMergeV1 requests "application:web" "runtime" "tools";
   Ok (map (λ g, (group_Tool g, VersionConstraints g, DefinitionRevision g)) (Groups set),
       map (λ g, (group_Binding g, map_to_list (group_Selections g))) (Groups set), map_to_list (Sources set))) =
  Ok ([("java", ["==21~2"], ""); ("playwright", ["<2"; ">=1.60"], "2")],
      [({| All := false; Infer := true; Explicit := [] |}, []);
       ({| All := false; Infer := true; Explicit := ["node"; "python"] |}, [("browser", ["chromium"; "webkit"])])],
      [("java", ["tools[3]"]); ("playwright", ["tools[0]"; "tools[1]"; "tools[2]"])]).
Proof. vm_compute. reflexivity. Qed.
