(* ===== verification/ToolRequestFacts.v ===== *)
(** * What merged requests demand

    A demand is determined by the set of the requests for its tool: constraints
    are united, a revision is agreed on, a wildcard absorbs the other bindings,
    and the values of a dimension are united. *)

From Stdlib Require Import Ascii.
From S2P Require Import Prelude GoText Yaml Contributions ToolRecords ToolRecordsFacts ToolCatalog ToolVersions ToolClaims ToolSolver ToolRequest.

Open Scope Z_scope.

(** ** Sorted sets *)

Definition strict_set (l : list string) (P : string → Prop) : Prop := StronglySorted string_lt l ∧ ∀ v, v ∈ l ↔ P v.
Lemma strict_set_unique l k P Q : strict_set l P → strict_set k Q → (∀ v, P v ↔ Q v) → l = k.
Proof.
  intros [Hs Hl] [Hs' Hk] H. eapply StronglySorted_unique_strong; [|exact Hs|exact Hs'|].
  - intros x y _ _ H1 H2. exfalso. apply (irreflexivity string_lt x). by etrans.
  - assert (∀ j, StronglySorted string_lt j → NoDup j) as Hn.
    { intros j Hj. rewrite <-(list_fmap_id j). apply (strict_NoDup id string_lt). by apply StronglySorted_Sorted. }
    apply NoDup_Permutation; [by apply Hn..|]. intros v. by rewrite Hl, Hk.
Qed.
Lemma strict_set_iff l P Q : strict_set l P → (∀ v, P v ↔ Q v) → strict_set l Q.
Proof. intros [Hs Hl] H. split; [done|]. intros v. by rewrite Hl. Qed.
#[export] Instance strict_set_proper l : Proper (pointwise_relation _ iff ==> iff) (strict_set l).
Proof. intros P Q H. split; intros Hl; eapply strict_set_iff; [exact Hl|apply H|exact Hl|]. intros v. symmetry. apply H. Qed.
Lemma strict_set_nil P : (∀ v, ¬ P v) → strict_set [] P.
Proof. intros H. split; [constructor|]. intros v. rewrite elem_of_nil. split; [done|apply H]. Qed.
Lemma strict_set_one v : strict_set [v] (λ w, w = v).
Proof. split; [by repeat constructor|]. intros w. by rewrite list_elem_of_singleton. Qed.
Lemma sorted_set l : NoDup l → strict_set (merge_sort String.le l) (λ v, v ∈ l).
Proof.
  intros Hn. split; [|intros v; by rewrite merge_sort_Permutation].
  assert (NoDup (merge_sort String.le l)) as Hm by (by rewrite merge_sort_Permutation).
  pose proof (StronglySorted_merge_sort String.le l) as Hs. revert Hm. induction Hs as [|x k _ IH Hf]; intros Hm; constructor;
    apply NoDup_cons in Hm as [Hx Hm]; [by apply IH|].
  rewrite Forall_forall in *. intros y Hy. apply string_lt_le. split; [by apply Hf|]. by intros ->.
Qed.
Lemma distinct_values_spec values : ∀ seen,
  NoDup (distinct_values values seen) ∧ ∀ v, v ∈ distinct_values values seen ↔ v ∈ values ∧ v ∉ seen.
Proof.
  induction values as [|w values IH]; intros seen; simpl; [split; [constructor|set_solver]|]. case_bool_decide as Hw.
  - destruct (IH seen) as [Hn Hv]. split; [done|]. intros v. rewrite Hv. set_solver.
  - destruct (IH ({[w]} ∪ seen)) as [Hn Hv]. split; [constructor; [rewrite Hv; set_solver|done]|].
    intros v. rewrite elem_of_cons, Hv. destruct (decide (v = w)); set_solver.
Qed.
Lemma union_set l k : strict_set (unionV1 l k) (λ v, v ∈ l ∨ v ∈ k).
Proof.
  destruct (distinct_values_spec (l ++ k) ∅) as [Hn Hv]. eapply strict_set_iff; [by apply sorted_set|]. intros v. rewrite Hv. set_solver.
Qed.

(** ** Joint demands *)

Definition demanded : Type := CanonicalRequirementGroupV1.
(** The values of a dimension. *)
Definition selects (g : demanded) (dimension value : string) : Prop := ∃ values, group_Selections g !! dimension = Some values ∧ value ∈ values.
Definition agrees (g g' : demanded) : Prop := DefinitionRevision g = "" ∨ DefinitionRevision g' = "" ∨ DefinitionRevision g = DefinitionRevision g'.

(** [merged] demands what the members demand together. *)
Record joint (members : list demanded) (merged : demanded) : Prop := {
  joint_domain : ∀ g, g ∈ members → group_Scope g = group_Scope merged ∧ group_Tool g = group_Tool merged ∧ Context_ g = Context_ merged;
  joint_constraints : strict_set (VersionConstraints merged) (λ c, ∃ g, g ∈ members ∧ c ∈ VersionConstraints g);
  joint_revision : (∀ g, g ∈ members → DefinitionRevision g = "" ∨ DefinitionRevision g = DefinitionRevision merged) ∧
    (DefinitionRevision merged = "" ∨ ∃ g, g ∈ members ∧ DefinitionRevision g = DefinitionRevision merged);
  joint_all : All (group_Binding merged) = true ↔ ∃ g, g ∈ members ∧ All (group_Binding g) = true;
  joint_infer : Infer (group_Binding merged) = true ↔ All (group_Binding merged) = false ∧ ∃ g, g ∈ members ∧ Infer (group_Binding g) = true;
  joint_explicit : strict_set (Explicit (group_Binding merged))
    (λ n, All (group_Binding merged) = false ∧ ∃ g, g ∈ members ∧ n ∈ Explicit (group_Binding g));
  joint_dimensions : ∀ d, is_Some (group_Selections merged !! d) ↔ ∃ g, g ∈ members ∧ is_Some (group_Selections g !! d);
  joint_values : ∀ d values, group_Selections merged !! d = Some values → strict_set values (λ v, ∃ g, g ∈ members ∧ selects g d v)
}.

Lemma bool_iff (b c : bool) : (b = true ↔ c = true) → b = c.
Proof. destruct b, c; intuition congruence. Qed.
Lemma joint_unique members members' merged merged' : members ≠ [] → (∀ g, g ∈ members ↔ g ∈ members') →
  joint members merged → joint members' merged' → merged = merged'.
Proof.
  intros Hne Hm [D C [R1 R2] A I E S V] [D' C' [R1' R2'] A' I' E' S' V'].
  destruct members as [|g0 members]; [done|]. assert (g0 ∈ g0 :: members) as H0 by left. generalize dependent (g0 :: members). intros ms _ Hm D C R1 R2 A I E S V H0.
  destruct (D g0 H0) as (Ds & Dt & Dc). destruct (D' g0 (proj1 (Hm g0) H0)) as (Ds' & Dt' & Dc').
  assert (All (group_Binding merged) = All (group_Binding merged')) as HA by (apply bool_iff; rewrite A, A'; by setoid_rewrite Hm).
  destruct merged as [s t c r x b sel], merged' as [s' t' c' r' x' b' sel']; simpl in *. f_equal; [congruence|congruence| | |congruence| |].
  - eapply strict_set_unique; [exact C|exact C'|]. intros v. by setoid_rewrite Hm.
  - clear -R1 R2 R1' R2' Hm. destruct R2 as [Hr|(g & Hg & Hr)].
    + destruct R2' as [Hr'|(g' & Hg' & Hr')]; [congruence|]. apply Hm, R1 in Hg' as [?|?]; congruence.
    + apply Hm, R1' in Hg as [?|?]; [|congruence]. destruct R2' as [?|(g' & Hg' & Hr')]; [congruence|]. apply Hm, R1 in Hg' as [?|?]; congruence.
  - destruct b as [a i e], b' as [a' i' e']; simpl in *. f_equal; [done| |].
    + apply bool_iff. rewrite I, I', HA. by setoid_rewrite Hm.
    + eapply strict_set_unique; [exact E|exact E'|]. intros v. rewrite HA. by setoid_rewrite Hm.
  - apply map_eq. intros d. assert (is_Some (sel !! d) ↔ is_Some (sel' !! d)) as Hsome by (rewrite S, S'; by setoid_rewrite Hm).
    clear S S' E E' C C' R1 R1'. specialize (V d). specialize (V' d).
    destruct (sel !! d) as [vs|], (sel' !! d) as [vs'|]; [|destruct Hsome as [H _], H as [? [=]]; by eexists|destruct Hsome as [_ H], H as [? [=]]; by eexists|reflexivity].
    f_equal. eapply strict_set_unique; [by apply V|by apply V'|]. intros v. by setoid_rewrite Hm.
Qed.

(** A demand of one request. *)
Record single (g : demanded) : Prop := {
  single_constraints : StronglySorted string_lt (VersionConstraints g);
  single_infer : All (group_Binding g) = true → Infer (group_Binding g) = false ∧ Explicit (group_Binding g) = [];
  single_explicit : StronglySorted string_lt (Explicit (group_Binding g));
  single_values : ∀ d values, group_Selections g !! d = Some values → StronglySorted string_lt values
}.
Lemma joint_one g : single g → joint [g] g.
Proof.
  intros [C I E V]. assert (∀ P : demanded → Prop, (∃ g', g' ∈ [g] ∧ P g') ↔ P g) as H1.
  { intros P. split; [by intros (g' & ->%list_elem_of_singleton & ?)|]. intros. exists g. split; [by left|done]. }
  constructor; try (intros; by rewrite H1).
  - by intros g' ->%list_elem_of_singleton.
  - split; [done|]. intros. by rewrite H1.
  - split; [intros g' ->%list_elem_of_singleton; by right|right; by rewrite H1].
  - rewrite H1. destruct (All (group_Binding g)) eqn:HA; [|tauto]. destruct I as [-> _]; [done|]. naive_solver.
  - split; [done|]. intros n. rewrite H1. destruct (All (group_Binding g)) eqn:HA; [|tauto]. destruct I as [_ ->]; [done|]. rewrite elem_of_nil. naive_solver.
  - intros d values Hv. split; [by eapply V|]. intros v. rewrite H1. unfold selects. rewrite Hv. naive_solver.
Qed.

Lemma exists_snoc {A} (l : list A) x (P : A → Prop) : (∃ y, y ∈ l ++ [x] ∧ P y) ↔ (∃ y, y ∈ l ∧ P y) ∨ P x.
Proof.
  setoid_rewrite elem_of_app. setoid_rewrite list_elem_of_singleton. naive_solver.
Qed.
Lemma joint_merge members merged g next : joint members merged → MergeV1 merged g = Ok next → joint (members ++ [g]) next.
Proof.
  intros [D C [R1 R2] A I E S V]. unfold MergeV1. intros [Hd [Hc [Hr [= <-]]%reject_if_bind]%reject_if_bind]%reject_if_bind. go_bool. destruct Hd as [Hs Ht].
  constructor; simpl; unfold merge_bindings; try setoid_rewrite exists_snoc.
  - intros g' [Hg'| ->%list_elem_of_singleton]%elem_of_app; [by apply D|done].
  - eapply strict_set_iff; [apply union_set|]. intros c. destruct C as [_ C]. by rewrite C.
  - clear A I E S V D C Hs Ht Hc. split.
    + intros g' [Hg'| ->%list_elem_of_singleton]%elem_of_app; case_bool_decide as E0.
      * left. destruct (R1 g' Hg'); congruence.
      * by apply R1.
      * by right.
      * destruct Hr as [[?|?]|?]; [done|by left|by right].
    + case_bool_decide as E0; [by right; right|]. destruct R2 as [?|R2]; [done|]. right. by left.
  - rewrite <-A. destruct (All (group_Binding merged)), (All (group_Binding g)); simpl; intuition congruence.
  - destruct (All (group_Binding merged)) eqn:Ha, (All (group_Binding g)) eqn:Hb; simpl; try (split; [done|by intros [? _]]).
    rewrite orb_true_iff, I. intuition.
  - destruct (All (group_Binding merged)) eqn:Ha, (All (group_Binding g)) eqn:Hb; simpl; try (apply strict_set_nil; by intros v [? _]).
    eapply strict_set_iff; [apply union_set|]. intros n. destruct E as [_ E]. rewrite E. intuition.
  - intros d. rewrite lookup_merge. rewrite <-S. unfold merge_values.
    destruct (group_Selections merged !! d), (group_Selections g !! d); simpl; rewrite ?is_Some_alt; simpl; tauto.
  - intros d values. rewrite lookup_merge. unfold merge_values. specialize (S d). specialize (V d).
    destruct (group_Selections g !! d) as [vs|] eqn:Hg.
    + assert (strict_set (unionV1 (default [] (group_Selections merged !! d)) vs) (λ v, (∃ g', g' ∈ members ∧ selects g' d v) ∨ selects g d v)) as Hu.
      { eapply strict_set_iff; [apply union_set|]. intros v. unfold selects at 2. rewrite Hg. destruct (group_Selections merged !! d) as [ws|]; simpl.
        - destruct (V ws eq_refl) as [_ Hw]. rewrite Hw. apply or_iff_compat_l. split; [by exists vs|by intros (? & [= <-] & ?)].
        - rewrite elem_of_nil. split; [intros [[]|Hv]; right; by exists vs|]. intros [(g' & Hg' & vs' & Hv & _)|(? & [= <-] & Hv)]; [|by right].
          destruct S as [_ S]. destruct S as [? [=]]. exists g'. by rewrite Hv. }
      destruct (group_Selections merged !! d); by intros [= <-].
    + destruct (group_Selections merged !! d) as [ws|]; [|done]. intros [= <-]. eapply strict_set_iff; [by apply V|].
      intros v. split; [by left|]. intros [?|(? & E1 & _)]; [done|]. by rewrite Hg in E1.
Qed.
Lemma merge_agrees members merged g : joint members merged → group_Scope merged = group_Scope g → group_Tool merged = group_Tool g →
  Context_ merged = Context_ g → is_ok (MergeV1 merged g) = true ↔ ∀ g', g' ∈ members → agrees g' g.
Proof.
  intros [_ _ [R1 R2] _ _ _ _ _] Hs Ht Hc. unfold MergeV1.
  rewrite (bool_decide_true (group_Scope merged = _)), (bool_decide_true (group_Tool merged = _)), (bool_decide_true (Context_ merged = _)) by done. simpl.
  transitivity (agrees merged g).
  - unfold agrees. destruct (bool_decide (DefinitionRevision merged = "")) eqn:E1, (bool_decide (DefinitionRevision g = "")) eqn:E2,
      (bool_decide (DefinitionRevision merged = DefinitionRevision g)) eqn:E3; go_bool; simpl; tauto || (split; [done|tauto]).
  - unfold agrees. split.
    + intros H g' Hg'. destruct (R1 g' Hg') as [?| ->]; tauto.
    + intros H. destruct R2 as [?|(g' & Hg' & <-)]; [by left|by apply H].
Qed.

(** ** Normalised requests *)

Lemma collect_values_spec wildcard raw : ∀ seen all values all', collect_values wildcard raw seen all = Ok (values, all') →
  values = raw ∧ NoDup raw ∧ (∀ v, v ∈ raw → (v ∉ seen) ∧ (validIdentifierV1 v = true ∨ (v = "*" ∧ wildcard = true))) ∧
  (all' = true ↔ all = true ∨ ("*" ∈ raw ∧ wildcard = true)).
Proof.
  induction raw as [|w raw IH]; intros seen all values all'; simpl.
  { intros [= <- <-]. split_and!; [done|constructor|by intros v ?%elem_of_nil|]. rewrite elem_of_nil. tauto. }
  intros [Hv [Hs ([values' all''] & (-> & Hn & Hin & Hall)%IH & [= <- <-])%bind_ok]%reject_if_bind]%reject_if_bind. go_bool. simpl.
  split_and!; [done| | |].
  - constructor; [|done]. intros Hw. apply Hin in Hw as [Hw _]. set_solver.
  - intros v [->|Hr]%elem_of_cons; [|destruct (Hin v Hr) as [? ?]; split; [set_solver|done]]. split; [done|].
    destruct Hv as [Hv|Hv]; go_bool; [|by left]. destruct Hv as [-> ->]. by right.
  - rewrite Hall, elem_of_cons. go_bool. rewrite (symmetry_iff (=) "*" w). clear. tauto.
Qed.
Lemma normalize_set raw wildcard values all : normalizeSetV1 raw wildcard = Ok (values, all) →
  if all : bool then values = [] ∧ raw = ["*"] ∧ wildcard = true
  else strict_set values (λ v, v ∈ raw) ∧ values ≠ [] ∧ Forall (λ v, validIdentifierV1 v = true) values.
Proof.
  unfold normalizeSetV1. intros [Hlen ([vs b] & (-> & Hn & Hin & Hall)%collect_values_spec & H)%bind_ok]%reject_if_bind. destruct b.
  - apply reject_if_bind in H as [H [= <- <-]]. go_bool. destruct raw as [|w [|]]; [done| |done]. destruct Hall as [Hall _]. specialize (Hall eq_refl).
    destruct Hall as [?|[?%list_elem_of_singleton ?]]; [done|]. by subst.
  - injection H as <- <-. go_bool. pose proof (sorted_set raw Hn) as [Hs Hm]. split; [done|]. split.
    + intros E. destruct raw as [|w raw]; [done|]. assert (w ∈ merge_sort String.le (w :: raw)) as Hw by (apply Hm; by left). rewrite E in Hw. by apply elem_of_nil in Hw.
    + apply Forall_forall. intros v Hv%Hm. destruct (Hin v Hv) as [_ [?|[-> ->]]]; [done|]. destruct Hall as [_ Hall]. assert (false = true) by (apply Hall; right; by split). done.
Qed.

(** What a dimension holds after normalisation. *)
Definition canonical_values (values : list string) : Prop :=
  StronglySorted string_lt values ∧ values ≠ [] ∧ Forall (λ v, validIdentifierV1 v = true) values.
Definition canonical_dimension (dimension : string) (values : list string) : Prop := validIdentifierV1 dimension = true ∧ canonical_values values.
Lemma normalize_selections_spec syntax : ∀ selections selections', map_Forall canonical_dimension selections →
  normalize_selections syntax selections = Ok selections' → map_Forall canonical_dimension selections'.
Proof.
  induction syntax as [|[d raw] syntax IH]; intros selections selections' Hc; simpl; [by intros [= <-]|].
  intros [Hd ([values all] & Hn%normalize_set & H)%bind_ok]%reject_if_bind. eapply IH; [|exact H]. apply map_Forall_insert_2; [|done].
  destruct all; [by destruct Hn as (_ & _ & ?)|]. destruct Hn as ([Hs _] & ? & ?). go_bool. by split.
Qed.

(** A demand that normalisation makes. *)
Record canonical (scope context : string) (g : demanded) : Prop := {
  canonical_place : group_Scope g = scope ∧ Context_ g = context;
  canonical_tool : validToolNameV1 (group_Tool g) = true;
  canonical_constraints : StronglySorted string_lt (VersionConstraints g) ∧ Forall (λ c, validTokenV1 c = true) (VersionConstraints g);
  canonical_revision : DefinitionRevision g = "" ∨ validateRevisionV1 (DefinitionRevision g) = Ok tt;
  canonical_all : All (group_Binding g) = true → Infer (group_Binding g) = false ∧ Explicit (group_Binding g) = [];
  canonical_some : All (group_Binding g) = false → Infer (group_Binding g) = true ∨ Explicit (group_Binding g) ≠ [];
  canonical_explicit : StronglySorted string_lt (Explicit (group_Binding g)) ∧ Forall (λ v, validIdentifierV1 v = true) (Explicit (group_Binding g));
  canonical_selections : map_Forall canonical_dimension (group_Selections g)
}.
Lemma canonical_single scope context g : canonical scope context g → single g.
Proof. intros [? ? [? _] ? ? ? [? _] Hsel]. constructor; [done..|]. by intros d values (_ & ? & _)%Hsel. Qed.
Lemma canonical_group scope context tool version revision hasBinding binding selections g :
  revision = "" ∨ validateRevisionV1 revision = Ok tt →
  canonicalGroupV1 scope context tool version revision hasBinding binding selections = Ok g → canonical scope context g.
Proof.
  intros Hr. unfold canonicalGroupV1. intros [Ht (constraints & Hc & (demand & Hd & (sel & Hs & [= <-])%bind_ok)%bind_ok)%bind_ok]%reject_if_bind.
  apply negb_false_iff in Ht.
  assert (StronglySorted string_lt constraints ∧ Forall (λ c, validTokenV1 c = true) constraints) as Hcs.
  { case_bool_decide; [injection Hc as <-; by split; constructor|]. apply reject_if_bind in Hc as [Hc [= <-]]. go_bool. split; by repeat constructor. }
  assert ((All demand = true → Infer demand = false ∧ Explicit demand = []) ∧ (All demand = false → Infer demand = true ∨ Explicit demand ≠ []) ∧
    StronglySorted string_lt (Explicit demand) ∧ Forall (λ v, validIdentifierV1 v = true) (Explicit demand)) as (Hd1 & Hd2 & Hd3).
  { destruct hasBinding; [|injection Hd as <-; simpl; split_and!; [done|by left|constructor|constructor]].
    apply bind_ok in Hd as ([values all] & Hn%normalize_set & [= <-]). simpl. destruct all.
    - destruct Hn as (-> & _). split_and!; [done|done|constructor|constructor].
    - destruct Hn as ([? _] & ? & ?). split_and!; [done|by right|done|done]. }
  constructor; simpl; try done. eapply normalize_selections_spec; [|exact Hs]. apply map_Forall_empty.
Qed.
Lemma request_canonical syntax scope context g : normalizeV1 syntax scope context = Ok g → canonical scope context g.
Proof.
  unfold normalizeV1. destruct (negb (Structured syntax)).
  - intros ([[tool version] revision] & Hp & H)%bind_ok. eapply canonical_group; [|exact H]. left. revert Hp. unfold parseCompactV1.
    intros [_ [_ Hp]%reject_if_bind]%reject_if_bind. destruct (cut_prefix (Compact syntax) "tool:") as [rest|]; [|done].
    destruct (split_any rest version_operators). by apply reject_if_bind in Hp as [_ [_ [= _ _ <-]]%reject_if_bind].
  - intros [_ [_ (revision & Hr & H)%bind_ok]%reject_if_bind]%reject_if_bind. eapply canonical_group; [|exact H].
    destruct (HasDefinitionRevision syntax); [|left; by injection Hr]. apply bind_ok in Hr as ([] & ? & [= <-]). by right.
Qed.

(** A joint demand of canonical ones is canonical. *)
Lemma joint_canonical scope context members merged : members ≠ [] → (∀ g, g ∈ members → canonical scope context g) →
  joint members merged → canonical scope context merged.
Proof.
  intros Hne Hall [D [Cs C] [_ R] A I [Es E] S V]. destruct members as [|g0 members]; [done|]. assert (g0 ∈ g0 :: members) as H0 by left.
  clear Hne. generalize dependent (g0 :: members). intros ms Hall D C R A I E S V H0. destruct (D g0 H0) as (Ds & Dt & Dc). pose proof (Hall g0 H0) as [[Hs Hc] Ht _ _ _ _ _ _].
  constructor.
  - split; congruence.
  - by rewrite <-Dt.
  - split; [done|]. apply Forall_forall. intros c (g & Hg & Hin)%C. destruct (Hall g Hg) as [_ _ [_ Hf] _ _ _ _ _]. rewrite Forall_forall in Hf. by apply Hf.
  - destruct R as [?|(g & Hg & <-)]; [by left|]. by destruct (Hall g Hg).
  - intros Ha. split.
    + apply not_true_iff_false. rewrite I, Ha. by intros [? _].
    + destruct (Explicit (group_Binding merged)) as [|n l]; [done|]. assert (n ∈ n :: l) as Hn by left. apply E in Hn as [? _]. congruence.
  - intros Ha. assert (All (group_Binding g0) = false) as Ha0.
    { apply not_true_iff_false. intros H. apply not_true_iff_false in Ha. apply Ha, A. by exists g0. }
    destruct (Hall g0 H0) as [_ _ _ _ _ Hsome _ _]. destruct (Hsome Ha0) as [Hi|He]; [left; apply I; split; [done|by exists g0]|right].
    destruct (Explicit (group_Binding g0)) as [|n l] eqn:Hl; [done|]. intros Hnil. assert (n ∈ Explicit (group_Binding merged)) as Hn.
    { apply E. split; [done|]. exists g0. rewrite Hl. split; [done|by left]. }
    rewrite Hnil in Hn. by apply elem_of_nil in Hn.
  - split; [done|]. apply Forall_forall. intros n (_ & g & Hg & Hn)%E. destruct (Hall g Hg) as [_ _ _ _ _ _ [_ Hf] _]. rewrite Forall_forall in Hf. by apply Hf.
  - intros d values Hv. destruct (V d values Hv) as [Vs Vin].
    assert (is_Some (group_Selections merged !! d)) as (g & Hg & [vs Hd])%S by by eexists.
    destruct (Hall g Hg) as [_ _ _ _ _ _ _ Hsel]. destruct (Hsel d vs Hd) as (Hid & _ & Hvs & _). split; [done|]. split; [done|]. split.
    + destruct vs as [|v vs]; [done|]. intros Hnil. assert (v ∈ values) as Hin by (apply Vin; exists g; split; [done|]; exists (v :: vs); split; [done|by left]).
      rewrite Hnil in Hin. by apply elem_of_nil in Hin.
    + apply Forall_forall. intros v (g' & Hg' & ws & Hws & Hin)%Vin. destruct (Hall g' Hg') as [_ _ _ _ _ _ _ Hsel'].
      destruct (Hsel' d ws Hws) as (_ & _ & _ & Hf). rewrite Forall_forall in Hf. by apply Hf.
Qed.

(** ** The loop over the requests *)

Section loop.
Context (scope context sourcePrefix : string).

Definition normalized (requests : list SyntaxV1) (gs : list demanded) : Prop := Forall2 (λ r g, normalizeV1 r scope context = Ok g) requests gs.
Definition for_tool (tool : string) (gs : list demanded) : list demanded := filter (λ g, group_Tool g = tool) gs.
Definition all_agree (gs : list demanded) : Prop := ∀ g g', g ∈ gs → g' ∈ gs → group_Tool g = group_Tool g' → agrees g g'.
(** The labels of the requests for a tool. *)
Fixpoint positions (tool : string) (index : Z) (gs : list demanded) : list string :=
  match gs with
  | [] => []
  | g :: rest => (if bool_decide (group_Tool g = tool) then [source_label sourcePrefix index] else []) ++ positions tool (index + 1) rest
  end.

Record merged_so_far (seen : list demanded) (groups : gmap string CanonicalRequirementGroupV1) (sources : gmap string (list string)) : Prop := {
  so_far_canonical : ∀ g, g ∈ seen → canonical scope context g;
  so_far_agree : all_agree seen;
  so_far_groups : ∀ tool, match groups !! tool with
    | Some m => group_Tool m = tool ∧ for_tool tool seen ≠ [] ∧ joint (for_tool tool seen) m
    | None => for_tool tool seen = [] end;
  so_far_sources : ∀ tool, default [] (sources !! tool) = positions tool 0 seen
}.
Lemma positions_snoc tool g gs : ∀ index, positions tool index (gs ++ [g]) =
  positions tool index gs ++ (if bool_decide (group_Tool g = tool) then [source_label sourcePrefix (index + Z.of_nat (length gs))] else []).
Proof.
  induction gs as [|g' gs IH]; intros index; simpl; [by rewrite app_nil_r, Z.add_0_r|]. rewrite IH, app_assoc.
  by replace (index + 1 + Z.of_nat (length gs)) with (index + Z.of_nat (S (length gs))) by lia.
Qed.
Lemma for_tool_snoc tool gs g : for_tool tool (gs ++ [g]) = for_tool tool gs ++ (if bool_decide (group_Tool g = tool) then [g] else []).
Proof. unfold for_tool. rewrite filter_app. f_equal. case_bool_decide; [by rewrite filter_cons_True|by rewrite filter_cons_False]. Qed.

Lemma all_agree_snoc gs g : all_agree (gs ++ [g]) ↔ all_agree gs ∧ ∀ g', g' ∈ for_tool (group_Tool g) gs → agrees g' g.
Proof.
  unfold all_agree, for_tool. setoid_rewrite elem_of_app. setoid_rewrite list_elem_of_singleton. setoid_rewrite list_elem_of_filter. split.
  - intros H. split; [intros; apply H; tauto|]. intros g' [Ht Hg']. apply H; tauto.
  - intros [H1 H2] g1 g2 [Hg1| ->] [Hg2| ->] Ht; [by apply H1|by apply H2| |by right; right].
    destruct (H2 g2) as [?|[?|?]]; [done|right; by left|by left|by right; right].
Qed.

Lemma merge_step seen groups sources syntax g : merged_so_far seen groups sources → normalizeV1 syntax scope context = Ok g →
  match (match groups !! group_Tool g with Some previous => MergeV1 previous g | None => Ok g end) with
  | Ok merged => group_Tool merged = group_Tool g ∧ merged_so_far (seen ++ [g]) (<[group_Tool g := merged]> groups)
      (<[group_Tool g := default [] (sources !! group_Tool g) ++ [source_label sourcePrefix (Z.of_nat (length seen))]]> sources)
  | Err _ => ¬ all_agree (seen ++ [g])
  end.
Proof.
  intros [Hc Ha Hg Hs] Hn%request_canonical.
  assert (∀ merged, group_Tool merged = group_Tool g → joint (for_tool (group_Tool g) seen ++ [g]) merged → all_agree (seen ++ [g]) →
    merged_so_far (seen ++ [g]) (<[group_Tool g := merged]> groups)
      (<[group_Tool g := default [] (sources !! group_Tool g) ++ [source_label sourcePrefix (Z.of_nat (length seen))]]> sources)) as Hkeep.
  { intros merged Ht Hj Hagree. constructor; [|done| |].
    - by intros g' [Hg'| ->%list_elem_of_singleton]%elem_of_app; [apply Hc|].
    - intros tool. rewrite for_tool_snoc. destruct (decide (group_Tool g = tool)) as [<-|Hne].
      + rewrite lookup_insert_eq, bool_decide_true by done. split_and!; [done|by destruct (for_tool _ _)|done].
      + rewrite lookup_insert_ne, bool_decide_false, app_nil_r by done. apply Hg.
    - intros tool. rewrite positions_snoc, <-Hs. destruct (decide (group_Tool g = tool)) as [<-|Hne].
      + by rewrite lookup_insert_eq, bool_decide_true.
      + by rewrite lookup_insert_ne, bool_decide_false, app_nil_r. }
  specialize (Hg (group_Tool g)). destruct (groups !! group_Tool g) as [previous|] eqn:Hp.
  - destruct Hg as (Ht & Hne & Hj). assert (canonical scope context previous) as [[Hps Hpc] _ _ _ _ _ _ _].
    { eapply joint_canonical; [exact Hne| |exact Hj]. intros g' [_ ?]%list_elem_of_filter. by apply Hc. }
    destruct (canonical_place _ _ _ Hn) as [Hgs Hgc].
    pose proof (merge_agrees _ _ g Hj ltac:(congruence) ltac:(congruence) ltac:(congruence)) as Hm.
    destruct (MergeV1 previous g) as [merged|m] eqn:E; simpl in Hm.
    + pose proof E as Hmerged. apply (joint_merge _ _ _ _ Hj) in Hmerged. assert (group_Tool merged = group_Tool g) as Htool.
      { destruct (joint_domain _ _ Hmerged g) as (_ & ? & _); [apply elem_of_app; right; by left|done]. }
      split; [done|]. apply Hkeep; [done|done|]. apply all_agree_snoc. split; [done|]. by apply Hm.
    + intros [_ H]%all_agree_snoc. apply Hm in H. done.
  - split; [done|]. apply Hkeep; [done| |].
    + rewrite Hg. simpl. apply joint_one. by eapply canonical_single.
    + apply all_agree_snoc. split; [done|]. rewrite Hg. by intros ? ?%elem_of_nil.
Qed.
Lemma merge_loop requests : ∀ seen groups sources, merged_so_far seen groups sources →
  match merge_requests requests scope context sourcePrefix (Z.of_nat (length seen)) groups sources with
  | Ok (groups', sources') => ∃ gs, normalized requests gs ∧ merged_so_far (seen ++ gs) groups' sources'
  | Err _ => ∀ gs, normalized requests gs → ¬ all_agree (seen ++ gs)
  end.
Proof.
  induction requests as [|syntax requests IH]; intros seen groups sources Hm; simpl; [exists []; split; [constructor|by rewrite app_nil_r]|].
  destruct (normalizeV1 syntax scope context) as [g|m] eqn:Hn; simpl; [|intros gs Hgs; inversion Hgs; congruence].
  pose proof (merge_step _ _ _ _ _ Hm Hn) as Hstep. destruct (match groups !! group_Tool g with Some previous => MergeV1 previous g | None => Ok g end) as [merged|m]; simpl.
  - destruct Hstep as [Ht Hm']. rewrite Ht. apply IH in Hm'. rewrite length_app in Hm'. simpl in Hm'.
    replace (Z.of_nat (length seen) + 1) with (Z.of_nat (length seen + 1)) by lia.
    destruct (merge_requests requests _ _ _ _ _ _) as [[groups' sources']|m].
    + destruct Hm' as (gs & Hgs & Hm'). exists (g :: gs). split; [by constructor|]. by rewrite cons_middle, app_assoc.
    + intros gs Hgs. inversion Hgs as [|? g' ? gs' Hg' Hrest]; subst. rewrite Hn in Hg'. injection Hg' as <-. rewrite cons_middle, app_assoc. by apply Hm'.
  - intros gs Hgs. inversion Hgs as [|? g' ? gs' Hg' Hrest]; subst. rewrite Hn in Hg'. injection Hg' as <-. intros Ha. apply Hstep.
    intros g1 g2 H1 H2. apply Ha; rewrite cons_middle, app_assoc; apply elem_of_app; by left.
Qed.
End loop.
