(* ===== verification/ToolRequestProps.v ===== *)
(** * Merging is a function of the set of requests

    The contract of [NormalizeAndMergeV1], and what follows from it: the order of
    the requests does not matter, and selection accepts what merging makes but
    for two limits of its own.  A compact request is a structured one. *)

From Stdlib Require Import Ascii.
From S2P Require Import Prelude GoText Yaml Contributions PythonClaim AptRequest ToolRecords ToolRecordsFacts ToolCatalog ToolVersions ToolClaims ToolSolver ToolRequest ToolRequestFacts.

Open Scope Z_scope.

(** ** The merged demands *)

Definition merged_demands (scope context sourcePrefix : string) (requests : list SyntaxV1) (set : CanonicalSetV1) : Prop :=
  ∃ gs, normalized scope context requests gs ∧ all_agree gs ∧ StronglySorted string_lt (map group_Tool (Groups set)) ∧
    (∀ merged, merged ∈ Groups set ↔ for_tool (group_Tool merged) gs ≠ [] ∧ joint (for_tool (group_Tool merged) gs) merged) ∧
    ∀ tool, default [] (Sources set !! tool) = positions sourcePrefix tool 0 gs.

Lemma omap_tools (groups : gmap string CanonicalRequirementGroupV1) keys : (∀ tool m, groups !! tool = Some m → group_Tool m = tool) →
  (∀ tool, tool ∈ keys → is_Some (groups !! tool)) → map group_Tool (omap (λ tool, groups !! tool) keys) = keys.
Proof.
  intros Ht. induction keys as [|tool keys IH]; intros Hk; [done|]. destruct (Hk tool) as [m Hm]; [by left|]. simpl. rewrite Hm. simpl.
  f_equal; [by apply Ht|]. apply IH. intros t ?. apply Hk. by right.
Qed.
Lemma merged_answer scope context sourcePrefix requests gs groups sources : normalized scope context requests gs →
  merged_so_far scope context sourcePrefix gs groups sources →
  merged_demands scope context sourcePrefix requests
    {| Groups := omap (λ tool, groups !! tool) (merge_sort String.le (map fst (map_to_list groups))); Sources := sources |}.
Proof.
  intros Hn [Hc Ha Hg Hs]. exists gs. split_and!; [done|done| | |done]; simpl.
  - assert (∀ tool m, groups !! tool = Some m → group_Tool m = tool) as Ht by (intros tool m Hm; specialize (Hg tool); rewrite Hm in Hg; tauto).
    rewrite omap_tools; [apply sorted_set, NoDup_fst_map_to_list|done|]. intros tool. rewrite merge_sort_Permutation, list_elem_of_fmap.
    intros ([? m] & -> & Hin%elem_of_map_to_list). by eexists.
  - intros merged. rewrite list_elem_of_omap. split.
    + intros (tool & _ & Hm). specialize (Hg tool). rewrite Hm in Hg. destruct Hg as (-> & ? & ?). done.
    + intros [Hne Hj]. exists (group_Tool merged). pose proof (Hg (group_Tool merged)) as H. destruct (groups !! group_Tool merged) as [m|] eqn:Hm; [|done].
      destruct H as (Htool & _ & Hj'). split; [|f_equal; by apply (joint_unique (for_tool (group_Tool merged) gs) (for_tool (group_Tool merged) gs))].
      rewrite merge_sort_Permutation, list_elem_of_fmap. exists (group_Tool merged, m). split; [done|]. by apply elem_of_map_to_list.
Qed.
Lemma empty_so_far scope context sourcePrefix : merged_so_far scope context sourcePrefix [] ∅ ∅.
Proof. constructor; [by intros ? ?%elem_of_nil|by intros ? ? ?%elem_of_nil|done|done]. Qed.
Lemma merge_outcome requests scope context sourcePrefix :
  match NormalizeAndMergeV1 requests scope context sourcePrefix with
  | Ok set => ValidateResolutionScopeContextV1 scope context = Ok tt ∧ merged_demands scope context sourcePrefix requests set
  | Err _ => ValidateResolutionScopeContextV1 scope context = Ok tt → ∀ gs, normalized scope context requests gs → ¬ all_agree gs
  end.
Proof.
  unfold NormalizeAndMergeV1. destruct (ValidateResolutionScopeContextV1 scope context) as [[]|]; simpl; [|done].
  pose proof (merge_loop scope context sourcePrefix requests [] ∅ ∅ (empty_so_far _ _ _)) as H. simpl in H. change (Z.of_nat 0) with 0 in H.
  destruct (merge_requests requests scope context sourcePrefix 0 ∅ ∅) as [[groups sources]|m]; simpl; [|by intros _].
  destruct H as (gs & Hn & Hm). split; [done|]. by eapply merged_answer.
Qed.

(** C24: Normalising and merging the requests of one container succeeds exactly
    when the scope and its context are valid, every request normalises and no two revisions that are asked for one
    tool differ.  The answer then holds one demand per requested tool, sorted by
    tool, which demands what the requests of the tool demand together: the union
    of their constraints, their revision, every binding if one asks for all and
    else the union of the bindings with inference if one infers, and per
    dimension the union of the values; and it lists the positions of the requests
    of every tool. *)
Theorem NormalizeAndMergeV1_spec requests scope context sourcePrefix :
  match NormalizeAndMergeV1 requests scope context sourcePrefix with
  | Ok set => ValidateResolutionScopeContextV1 scope context = Ok tt ∧ merged_demands scope context sourcePrefix requests set
  | Err _ => ValidateResolutionScopeContextV1 scope context = Ok tt → ∀ gs, normalized scope context requests gs → ¬ all_agree gs
  end.
Proof. apply merge_outcome. Qed.

(** ** The order of the requests *)

Lemma normalized_permutation scope context requests requests' gs : requests ≡ₚ requests' → normalized scope context requests gs →
  ∃ gs', gs ≡ₚ gs' ∧ normalized scope context requests' gs'.
Proof. intros Hp Hn. by apply (Permutation_Forall2 Hp Hn). Qed.
Lemma all_agree_permutation gs gs' : gs ≡ₚ gs' → all_agree gs → all_agree gs'.
Proof. intros Hp Ha g g' Hg Hg'. rewrite <-Hp in Hg, Hg'. by apply Ha. Qed.
Lemma normalized_function scope context requests gs gs' : normalized scope context requests gs → normalized scope context requests gs' → gs = gs'.
Proof.
  intros Hn. revert gs'. induction Hn as [|r g requests gs Hg _ IH]; intros gs' Hn'; inversion Hn'; subst; [done|]. f_equal; [congruence|by apply IH].
Qed.
Lemma merged_groups_sorted (l k : list CanonicalRequirementGroupV1) : StronglySorted string_lt (map group_Tool l) → StronglySorted string_lt (map group_Tool k) →
  (∀ g, g ∈ l ↔ g ∈ k) → l = k.
Proof.
  intros Hl Hk H. assert (∀ j, StronglySorted string_lt (map group_Tool j) → StronglySorted (λ g g', string_lt (group_Tool g) (group_Tool g')) j) as Hs.
  { clear. intros j. induction j as [|g j IH]; [constructor|]. intros [Hj Hf]%StronglySorted_inv. constructor; [by apply IH|]. rewrite Forall_forall in Hf. apply Forall_forall. intros y Hy. by apply Hf, list_elem_of_fmap_2. }
  assert (∀ j, StronglySorted string_lt (map group_Tool j) → NoDup j) as Hn.
  { intros j Hj. apply (NoDup_fmap_1 group_Tool). apply (strict_NoDup group_Tool string_lt). by apply StronglySorted_Sorted, Hs. }
  apply (StronglySorted_unique_strong (λ g g', string_lt (group_Tool g) (group_Tool g'))); [|by apply Hs|by apply Hs|by apply NoDup_Permutation; [apply Hn|apply Hn|]].
  intros x y _ _ H1 H2. exfalso. apply (irreflexivity string_lt (group_Tool x)). by etrans.
Qed.
Lemma merge_order requests requests' scope context prefix prefix' : requests ≡ₚ requests' →
  match NormalizeAndMergeV1 requests scope context prefix, NormalizeAndMergeV1 requests' scope context prefix' with
  | Ok set, Ok set' => Groups set = Groups set'
  | Err _, Err _ => True
  | _, _ => False
  end.
Proof.
  intros Hp. pose proof (merge_outcome requests scope context prefix) as H. pose proof (merge_outcome requests' scope context prefix') as H'.
  destruct (NormalizeAndMergeV1 requests scope context prefix) as [set|m], (NormalizeAndMergeV1 requests' scope context prefix') as [set'|m']; [| | |done].
  - destruct H as (_ & gs & Hn & _ & Hs & Hg & _), H' as (_ & gs' & Hn' & _ & Hs' & Hg' & _).
    destruct (normalized_permutation _ _ _ _ _ Hp Hn) as (gs1 & Hp1 & Hn1). assert (gs1 = gs') as -> by (by eapply normalized_function).
    apply merged_groups_sorted; [done|done|]. intros g. rewrite Hg, Hg'.
    assert (for_tool (group_Tool g) gs ≡ₚ for_tool (group_Tool g) gs') as Hf by (unfold for_tool; by rewrite Hp1).
    assert (∀ l l' m, l ≠ [] → l ≡ₚ l' → joint l m → joint l' m) as Hj.
    { clear. intros l l' m Hne Hl [D C R A I E S V]. constructor; setoid_rewrite <-Hl; done. }
    split; intros [Hne Hjoint]; (split; [intros E; rewrite E in Hf|]).
    + by apply Permutation_nil_r in Hf.
    + by eapply Hj.
    + symmetry in Hf. by apply Permutation_nil_r in Hf.
    + eapply Hj; [exact Hne|by symmetry|done].
  - destruct H as (Hv & gs & Hn & Ha & _). destruct (normalized_permutation _ _ _ _ _ Hp Hn) as (gs1 & Hp1 & Hn1). apply (H' Hv gs1 Hn1). by eapply all_agree_permutation.
  - destruct H' as (Hv & gs & Hn & Ha & _). symmetry in Hp. destruct (normalized_permutation _ _ _ _ _ Hp Hn) as (gs1 & Hp1 & Hn1). apply (H Hv gs1 Hn1). by eapply all_agree_permutation.
Qed.
(** C25: The order of the requests of a container does not matter: permuted
    requests are refused or accepted alike, with the same merged demands. *)
Theorem NormalizeAndMergeV1_order requests requests' scope context prefix prefix' : requests ≡ₚ requests' →
  match NormalizeAndMergeV1 requests scope context prefix, NormalizeAndMergeV1 requests' scope context prefix' with
  | Ok set, Ok set' => Groups set = Groups set'
  | Err _, Err _ => True
  | _, _ => False
  end.
Proof. apply merge_order. Qed.
Definition sample_requests : list SyntaxV1 := match decode_requests example_requests with Ok requests => requests | Err _ => [] end.
Lemma NormalizeAndMergeV1_order_witness : length sample_requests = 4%nat ∧
  match NormalizeAndMergeV1 sample_requests "application:web" "runtime" "tools", NormalizeAndMergeV1 (rev sample_requests) "application:web" "runtime" "tools" with
  | Ok set, Ok set' => Groups set = Groups set'
  | Err _, Err _ => True
  | _, _ => False
  end.
Proof.
  split; [by vm_compute|]. apply (NormalizeAndMergeV1_order sample_requests (rev sample_requests) "application:web" "runtime" "tools" "tools").
  apply Permutation_rev.
Defined.

(** ** Selection accepts merged demands *)

Lemma identifier_text : ∀ value, validIdentifierV1 value = validRecordIdentifierV1 value.
Proof. done. Qed.
Lemma check_increasing_spec valid message values :
  check_each (check_increasing valid message) None values = Ok tt ↔ Forall (λ v, valid v = true) values ∧ Sorted string_lt values.
Proof.
  rewrite (check_each_spec (check_increasing valid message) (λ v, valid v = true) string_lt).
  - split; [by intros (? & ? & _)|]. by intros [? ?].
  - intros previous v. unfold check_increasing. rewrite reject_if_ok, orb_false_iff, negb_false_iff. apply and_iff_compat_l.
    destruct previous as [p|]; [|by split]. unfold string_geb. rewrite negb_false_iff. split; [by intros H y [= <-]|]. intros H. by apply H.
Qed.
Lemma canonical_set values : StronglySorted string_lt values → Forall (λ v, validIdentifierV1 v = true) values →
  ∀ message, check_each (check_increasing validRecordIdentifierV1 message) None values = Ok tt.
Proof. intros Hs Hf message. apply check_increasing_spec. split; [done|by apply StronglySorted_Sorted]. Qed.
Lemma check_selections_ok l : Forall (λ entry, canonical_dimension entry.1 entry.2) l → check_selections l = Ok tt.
Proof.
  induction 1 as [|[d values] l (Hd & Hs & Hne & Hf) _ IH]; simpl; [done|]. rewrite identifier_text in Hd. simpl in *. rewrite Hd, (bool_decide_false _ Hne). simpl.
  by rewrite canonical_set.
Qed.
Lemma revision_decimal value : validateRevisionV1 value = Ok tt → validateCanonicalDecimalV1 value true = Ok tt ↔ is_Some (parse_uint value 63).
Proof.
  unfold validateRevisionV1, validateCanonicalDecimalV1. intros [H0 Hd%reject_if_ok]%reject_if_bind. apply negb_false_iff in Hd.
  destruct value as [|c rest]; [done|]. apply orb_false_iff in H0 as [_ H0]. apply bool_decide_eq_false in H0.
  assert (canonical_digits (String c rest)) as Hc.
  { exists c, rest. simpl in Hd. apply andb_true_iff in Hd as [? _]. by split_and!. }
  rewrite (proj2 (canonical_pattern _)) by done. simpl negb. cbn [reject_if mbind result_bind].
  destruct (parse_uint (String c rest) 63) as [n|] eqn:Hn; [|split; [done|by intros [? [=]]]]. split; [by eexists|intros _].
  apply reject_if_ok. simpl. apply Z.eqb_neq. intros ->. unfold parse_uint in Hn. destruct (parse_digits 0 (String c rest)) as [m|] eqn:Hm; [|done].
  destruct (m <? 2 ^ 63); [|done]. injection Hn as ->. destruct (canonical_length _ _ Hc Hm) as [_ [H|[_ [= -> _]]]]; [|done].
  assert (0 < 10 ^ (len (String c rest) - 1)); [|lia]. apply Z.pow_pos_nonneg; [lia|]. unfold len. simpl. lia.
Qed.
Lemma canonical_accepted scope context g : ValidateResolutionScopeContextV1 scope context = Ok tt → canonical scope context g →
  validateCanonicalRequirementGroupV1 g = Ok tt ↔
  validRecordIdentifierV1 (group_Tool g) = true ∧ (DefinitionRevision g = "" ∨ is_Some (parse_uint (DefinitionRevision g) 63)).
Proof.
  intros Hv [[Hs Hc] _ [Cs Cf] R A So [Es Ef] S]. unfold validateCanonicalRequirementGroupV1. rewrite Hs, Hc, Hv. cbn [mbind result_bind].
  rewrite reject_if_bind, negb_false_iff. apply and_iff_compat_l.
  rewrite (proj2 (check_increasing_spec _ _ _)) by (split; [exact Cf|by apply StronglySorted_Sorted]). cbn [mbind result_bind].
  assert ((_ ← (if All (group_Binding g) then
         reject_if (Infer (group_Binding g) || negb (bool_decide (Explicit (group_Binding g) = [])))
           "all-bindings demand cannot carry inference or explicit bindings"
       else
         _ ← reject_if (negb (Infer (group_Binding g)) && bool_decide (Explicit (group_Binding g) = []))
               "binding demand must retain inference, explicit bindings, or all";
         validateCanonicalBindingSetV1 (Explicit (group_Binding g)) true);
     check_selections (map_to_list (group_Selections g))) = Ok tt) as ->.
  { apply bind_ok. exists tt. split.
    - destruct (All (group_Binding g)); [destruct A as [-> ->]; done|]. apply reject_if_bind. split.
      + apply andb_false_iff. rewrite negb_false_iff, bool_decide_eq_false. by apply So.
      + unfold validateCanonicalBindingSetV1. simpl. by apply canonical_set.
    - apply check_selections_ok, Forall_forall. intros [d values] Hin%elem_of_map_to_list. by apply S. }
  case_bool_decide as E; simpl; [split; [by left|done]|]. rewrite bind_ok. destruct R as [?|R]; [done|]. rewrite <-(revision_decimal _ R). split.
  - intros ([] & ? & _). by right.
  - intros [?|?]; [done|]. by exists tt.
Qed.
Lemma merged_canonical requests scope context sourcePrefix set merged : NormalizeAndMergeV1 requests scope context sourcePrefix = Ok set →
  merged ∈ Groups set → ValidateResolutionScopeContextV1 scope context = Ok tt ∧ canonical scope context merged.
Proof.
  intros H Hm. pose proof (merge_outcome requests scope context sourcePrefix) as Ho. rewrite H in Ho. destruct Ho as (Hv & gs & Hn & _ & _ & Hg & _).
  split; [done|]. apply Hg in Hm as [Hne Hj]. eapply joint_canonical; [exact Hne| |exact Hj]. intros g [_ Hin]%list_elem_of_filter.
  destruct (Forall2_right _ _ _ _ Hn Hin) as (r & _ & Hr). by eapply request_canonical.
Qed.
(** Selection accepts a merged demand exactly when the tool has no namespace
    and the revision, if any, fits in 63 bits: everything else that selection
    asks of a demand, merging guarantees. *)
Theorem merged_demand_accepted requests scope context sourcePrefix set merged :
  NormalizeAndMergeV1 requests scope context sourcePrefix = Ok set → merged ∈ Groups set →
  validateCanonicalRequirementGroupV1 merged = Ok tt ↔
  validRecordIdentifierV1 (group_Tool merged) = true ∧ (DefinitionRevision merged = "" ∨ is_Some (parse_uint (DefinitionRevision merged) 63)).
Proof. intros H Hm. destruct (merged_canonical _ _ _ _ _ _ H Hm) as [Hv Hc]. by apply (canonical_accepted scope context). Qed.
Definition sample_set : CanonicalSetV1 :=
  match NormalizeAndMergeV1 sample_requests "application:web" "runtime" "tools" with Ok set => set | Err _ => {| Groups := []; Sources := ∅ |} end.
Definition sample_demand : CanonicalRequirementGroupV1 := {|
  group_Scope := "application:web"; group_Tool := "java"; VersionConstraints := ["==21~2"]; DefinitionRevision := ""; Context_ := "runtime";
  group_Binding := {| All := false; Infer := true; Explicit := [] |}; group_Selections := ∅ |}.
Lemma merged_demand_accepted_witness : validateCanonicalRequirementGroupV1 sample_demand = Ok tt.
Proof.
  apply (merged_demand_accepted sample_requests "application:web" "runtime" "tools" sample_set sample_demand).
  - by vm_compute.
  - assert (head (Groups sample_set) = Some sample_demand) as H by (by vm_compute). destruct (Groups sample_set) as [|g gs]; [discriminate|].
    injection H as ->. by left.
  - split; [reflexivity|by left].
Defined.
(** A tool with a namespace is normalised and then refused. *)
Example qualified_tool_refused :
  match NormalizeAndMergeV1 [MakeSyntax "tool:acme/go" false "" "" false "" false (SetSyntax []) false ∅] "application:web" "runtime" "tools" with
  | Ok set => map (λ g, (group_Tool g, is_ok (validateCanonicalRequirementGroupV1 g))) (Groups set) = [("acme/go", false)]
  | Err _ => False
  end.
Proof. by vm_compute. Qed.

(** ** Compact requests *)

Lemma split_any_spec value chars : ∀ before after, split_any value chars = (before, after) ↔
  value = before +:+ after ∧ contains_any before chars = false ∧
  match after with String c _ => contains_byte chars c = true | EmptyString => True end.
Proof.
  induction value as [|c value IH]; intros before after; simpl.
  { split; [by intros [= <- <-]|]. intros (H & _). destruct before; [|done]. by destruct after. }
  destruct (contains_byte chars c) eqn:Hc.
  - split; [by intros [= <- <-]|]. intros (H & Hb & Ha). destruct before as [|d before]; [by rewrite H|]. injection H as -> ->.
    unfold contains_any in Hb. simpl in Hb. by rewrite Hc in Hb.
  - destruct (split_any value chars) as [b a] eqn:E. split.
    + intros [= <- <-]. destruct (proj1 (IH b a) eq_refl) as (-> & Hb & Ha). split_and!; [done| |done]. unfold contains_any in *. simpl. by rewrite Hc.
    + intros (H & Hb & Ha). destruct before as [|d before].
      * simpl in H. subst after. congruence.
      * injection H as -> ->. assert ((b, a) = (before, after)) as [= -> ->]; [|done]. apply IH. split_and!; [done| |done].
        unfold contains_any in *. simpl in Hb. by rewrite Hc in Hb.
Qed.
Lemma cut_prefix_spec s p r : cut_prefix s p = Some r ↔ s = p +:+ r.
Proof.
  revert s. induction p as [|c p IH]; intros s; simpl; [destruct s; (split; [by intros [= <-]|by intros <-])|]. destruct s as [|d s]; [done|].
  simpl. case_bool_decide as H; [subst; rewrite IH; split; [by intros ->|by intros [= ->]]|]. split; [done|]. by intros [= ->].
Qed.
Lemma name_char_plain c : is_lower c || is_digit c || bool_decide (c = "-"%char) = true ∨ c = "/"%char → contains_byte version_operators c = false.
Proof.
  intros H. apply not_true_is_false. simpl. rewrite !orb_true_iff, !bool_decide_eq_true.
  intros [<-|[<-|[<-|[<-|[<-|[<-|?]]]]]]; [by destruct H..|done].
Qed.
Lemma no_operators s : (∀ c, c ∈ bytes s → is_lower c || is_digit c || bool_decide (c = "-"%char) = true ∨ c = "/"%char) → contains_any s version_operators = false.
Proof.
  intros H. unfold contains_any. apply negb_false_iff. rewrite string_forallb_bytes, Forall_bool, Forall_forall. intros c Hc.
  by rewrite name_char_plain by (by apply H).
Qed.
Lemma identifier_bytes value : validIdentifierV1 value = true → ∀ c, c ∈ bytes value → is_lower c || is_digit c || bool_decide (c = "-"%char) = true.
Proof.
  destruct value as [|d rest]; [done|]. simpl. intros [Hd Hr]%andb_true_iff c [->|Hc]%elem_of_cons; [by rewrite Hd|].
  rewrite string_forallb_bytes, Forall_bool, Forall_forall in Hr. by apply Hr.
Qed.
Lemma tool_name_plain tool : validToolNameV1 tool = true → contains_any tool version_operators = false.
Proof.
  unfold validToolNameV1. intros H. apply no_operators. intros c Hc. destruct (cut_byte tool "/"%char) as [[namespace name]|] eqn:E.
  - apply cut_byte_parts in E as [-> _]. apply andb_true_iff in H as [Hn Hm]. revert Hc. rewrite bytes_app. simpl.
    rewrite elem_of_app, elem_of_cons. intros [Hc|[->|Hc]]; [left; by eapply (identifier_bytes namespace)|by right|left; by eapply (identifier_bytes name)].
  - left. by eapply identifier_bytes.
Qed.

(** The text of a compact request: no white space, control character or bracket. *)
Definition plain_request (raw : string) : Prop :=
  raw ≠ "" ∧ trim_space raw = raw ∧ existsb (λ r, is_space (rune_value r)) (runes raw) = false ∧ containsControlV1 raw = false ∧
  contains_any raw "[]{}" = false.
Definition starts_with_operator (version : string) : Prop :=
  match version with String c _ => contains_byte version_operators c = true | EmptyString => True end.
Definition structured_request (tool version : string) : SyntaxV1 :=
  MakeSyntax "" true tool version (negb (bool_decide (version = ""))) "" false (SetSyntax []) false ∅.

Lemma parse_compact raw tool version revision : parseCompactV1 raw = Ok (tool, version, revision) ↔
  raw = "tool:" +:+ tool +:+ version ∧ plain_request raw ∧ starts_with_operator version ∧ validToolNameV1 tool = true ∧
  (version = "" ∨ validTokenV1 version = true) ∧ revision = "".
Proof.
  unfold parseCompactV1, plain_request. rewrite !reject_if_bind, !orb_false_iff, negb_false_iff, bool_decide_eq_false, bool_decide_eq_true.
  transitivity (raw ≠ "" ∧ trim_space raw = raw ∧ existsb (λ r, is_space (rune_value r)) (runes raw) = false ∧ containsControlV1 raw = false ∧
    contains_any raw "[]{}" = false ∧ ∃ rest, cut_prefix raw "tool:" = Some rest ∧ split_any rest version_operators = (tool, version) ∧
    validToolNameV1 tool = true ∧ (version = "" ∨ validTokenV1 version = true) ∧ revision = "").
  - assert (∀ P Q R S T U V : Prop, (U ↔ V) → (((P ∧ Q) ∧ R) ∧ S) ∧ T ∧ U ↔ P ∧ Q ∧ R ∧ S ∧ T ∧ V) as Hassoc by (clear; tauto).
    apply Hassoc. destruct (cut_prefix raw "tool:") as [rest|]; [|split; [done|by intros (? & [=] & _)]].
    destruct (split_any rest version_operators) as [t v] eqn:E. rewrite !reject_if_bind, negb_false_iff, andb_false_iff, !negb_false_iff, bool_decide_eq_true.
    split; [intros (? & ? & [= <- <- <-]); by exists rest|]. intros (? & [= <-] & Heq & ? & ? & ->). rewrite E in Heq. injection Heq as <- <-. done.
  - setoid_rewrite cut_prefix_spec. setoid_rewrite split_any_spec. split.
    + intros (? & ? & ? & ? & ? & rest & -> & (-> & _ & ?) & ? & ? & ->). done.
    + intros (-> & (? & ? & ? & ? & ?) & ? & ? & ? & ->). split_and!; [done..|]. exists (tool +:+ version). split_and!; [done|done| |done|done|done|done].
      by apply tool_name_plain.
Qed.

(** A compact request means the structured request of its tool and version:
    it normalises exactly when it is the prefix, a tool and a version that starts
    with an operator, without white space, control characters and brackets, and
    that structured request normalises, and then to the same demand. *)
Theorem compact_request_spec syntax scope context g : Structured syntax = false →
  normalizeV1 syntax scope context = Ok g ↔
  ∃ tool version, Compact syntax = "tool:" +:+ tool +:+ version ∧ plain_request (Compact syntax) ∧ starts_with_operator version ∧
    normalizeV1 (structured_request tool version) scope context = Ok g.
Proof.
  intros Hs. unfold normalizeV1 at 1. rewrite Hs. simpl. rewrite bind_ok.
  assert (∀ tool version, normalizeV1 (structured_request tool version) scope context = Ok g ↔
    validToolNameV1 tool = true ∧ (version = "" ∨ validTokenV1 version = true) ∧ canonicalGroupV1 scope context tool version "" false (SetSyntax []) ∅ = Ok g) as Hn.
  { intros tool version. unfold normalizeV1, structured_request. simpl. rewrite !reject_if_bind. split.
    - intros (_ & _ & H). pose proof H as H'. unfold canonicalGroupV1 in H'. apply reject_if_bind in H' as [Ht (constraints & Hc & _)%bind_ok].
      apply negb_false_iff in Ht. split_and!; [done| |done]. case_bool_decide; [by left|right]. by apply reject_if_bind in Hc as [?%negb_false_iff _].
    - intros (Ht & _ & H). split_and!; [|by destruct (bool_decide _)|done]. apply bool_decide_eq_false. by intros ->. }
  split.
  - intros ([[tool version] revision] & (? & ? & ? & ? & ? & ->)%parse_compact & Hg). exists tool, version. rewrite Hn. done.
  - intros (tool & version & ? & ? & ? & (? & ? & ?)%Hn). exists (tool, version, ""). rewrite parse_compact. done.
Qed.
Lemma compact_request_spec_witness :
  is_ok (normalizeV1 (structured_request "java" "==21~2") "source-builder:demo" "build") = true ∧
  normalizeV1 (MakeSyntax "tool:java==21~2" false "" "" false "" false (SetSyntax []) false ∅) "source-builder:demo" "build" =
  normalizeV1 (structured_request "java" "==21~2") "source-builder:demo" "build".
Proof.
  split; [by vm_compute|]. destruct (normalizeV1 (structured_request "java" "==21~2") "source-builder:demo" "build") as [g|m] eqn:E; [|by vm_compute in E].
  apply (compact_request_spec (MakeSyntax "tool:java==21~2" false "" "" false "" false (SetSyntax []) false ∅)); [reflexivity|].
  exists "java", "==21~2". split_and!; [reflexivity|by vm_compute|reflexivity|exact E].
Defined.
