(* ===== verification/ToolCandidates.v ===== *)
(** * Candidates of a requirement

    [internal/toolcatalog/candidates.go]: the releases that a canonical group
    could use on an observed target, newest first, each with the contributions
    that its exact support case selects.

    A rejected release is passed over; invalid definition data fails the whole
    request.  A type assertion without a check panics: the outcome [Panics].  A
    candidate is a copy of catalog records, which is the value itself here.  The
    texts of rejections, which only the last error shows, are left out. *)

From S2P Require Import Prelude GoText ToolRecords ToolCatalog ToolVersions ToolSupport ToolValidate ToolReleases ToolClaims ToolSolver.

Open Scope nat_scope.

(** ** Outcomes *)

Inductive reduction (A : Type) : Type :=
| Reduced (value : A)
| Rejected (message : string)
| InvalidDefinition (message : string)
| Panics.
Arguments Reduced {A} _.
Arguments Rejected {A} _.
Arguments InvalidDefinition {A} _.
Arguments Panics {A}.
#[export] Instance reduction_ret : MRet reduction := λ A x, Reduced x.
#[export] Instance reduction_bind : MBind reduction := λ A B f r,
  match r with Reduced x => f x | Rejected m => Rejected m | InvalidDefinition m => InvalidDefinition m | Panics => Panics end.
Definition check {A} (r : result A) : reduction A := match r with Ok x => Reduced x | Err m => Rejected m end.
Definition defend (condition : bool) (message : string) : reduction unit := if condition then InvalidDefinition message else Reduced tt.
(** A type assertion in the form that panics. *)
Definition assert_type {A} (field : RecordV1 → option A) (value : RecordV1) : reduction A :=
  match field value with Some typed => Reduced typed | None => Panics end.

Record ClientCapabilitiesV1 := { ReployVersion : string; client_ResolverPrimitives : list string }.

Section schemes.
Context {schemes : VersionSchemes}.

(** ** The client and the target *)

Definition verifyClientSatisfiesContractV1 (contract : ReleaseContractV1) (client : ClientCapabilitiesV1) : result unit :=
  _ ← reject_if (negb (bool_decide (SupportedReploy contract = "")) && bool_decide (ReployVersion client = "")) "client declares no Reploy version";
  _ ← (if bool_decide (SupportedReploy contract = "") then Ok tt
       else match @NewConstraints semver (SupportedReploy contract) with
            | None => Err "contract supported Reploy constraint is invalid"
            | Some constraints =>
              match @Parse semver (ReployVersion client) with
              | None => Err "client Reploy version is invalid"
              | Some version => reject_if (negb (CheckVersion constraints version)) "client Reploy does not satisfy the contract"
              end
            end);
  reject_if (negb (forallb (containsRecordValueV1 (client_ResolverPrimitives client)) (ResolverPrimitives contract)))
    "client does not provide resolver primitive".

Section view.
Context (view : resolved_view).

Fixpoint select_target (references : list RecordReferenceV1) (observed : TargetIdentityV1) (selected : option TargetRecordV1)
    : reduction (option TargetRecordV1) :=
  match references with
  | [] => Reduced selected
  | reference :: rest =>
    target ← check (resolved_as view as_target "release target is not a target record" reference);
    if negb (bool_decide (target_Target target = observed)) then select_target rest observed selected
    else
      _ ← defend (bool_decide (is_Some selected)) "release targets both match the observed base";
      select_target rest observed (Some target)
  end.
Definition selectExactTargetV1 (manifest : ReleaseManifestV1) (observed : TargetIdentityV1) : reduction TargetRecordV1 :=
  selected ← select_target (Targets manifest) observed None;
  match selected with Some target => Reduced target | None => Rejected "no target leaf matches the observed base" end.

(** ** The support case *)

Definition resolveRequestedBindingsV1 (schema : BindingSetSchemaV1) (target : TargetRecordV1) (demand : CanonicalBindingDemandV1)
    (active : list string) : result (list string) :=
  let advertised := merge_sort String.le (map binding_Name (target_Bindings target)) in
  selected ← (if All demand then
                _ ← reject_if (bool_decide (length advertised = 0)) "all bindings were requested but the target advertises none";
                Ok advertised
              else Ok (Explicit demand));
  inferred ← (if Infer demand then
                match List.filter (containsRecordValueV1 advertised) active, advertised with
                | [], [] => Ok []
                | [], [sole] => Ok [sole]
                | [], _ => Err "binding omission is ambiguous"
                | matching, _ => Ok matching
                end
              else Ok []);
  let selected := compactStringsV1 (merge_sort String.le (selected ++ inferred)) in
  _ ← for_each (λ binding,
        _ ← reject_if (negb (containsRecordValueV1 (Options schema) binding)) "binding is not declared by the release contract";
        reject_if (negb (targetAdvertisesBindingV1 target binding)) "binding is not advertised by the target") selected;
  Ok selected.
Definition resolveRequestedSelectionsV1 (schema : SelectionSchemaV1) (target : TargetRecordV1) (requested : gmap string (list string))
    : result (gmap string (list string)) :=
  matches ← selectionMapMatchesCombinationV1 schema requested;
  _ ← reject_if (negb matches) "selection map does not equal one release-contract combination";
  _ ← reject_if (negb (targetSupportsSelectionCombinationV1 target schema requested)) "selection map is not advertised by the target";
  Ok requested.
(** Whether one of the support cases has the wanted text. *)
Fixpoint match_case (wanted : list Ascii.ascii) (cases : list TargetSupportCaseV1) (matched : bool) : reduction bool :=
  match cases with
  | [] => Reduced matched
  | supportCase :: rest =>
    key ← check (supportTupleKeyV1 supportCase);
    if negb (bool_decide (key = wanted)) then match_case wanted rest matched
    else
      _ ← defend matched "target repeats one support case";
      match_case wanted rest true
  end.
Definition resolveCandidateSupportTupleV1 (contract : ReleaseContractV1) (target : TargetRecordV1) (group : CanonicalRequirementGroupV1)
    (activeBindings : list string) : reduction supportTupleV1 :=
  bindings ← check (resolveRequestedBindingsV1 (Binding contract) target (group_Binding group) activeBindings);
  selections ← check (resolveRequestedSelectionsV1 (Selections contract) target (group_Selections group));
  let tuple := MakeTuple (Context_ group) bindings selections in
  wanted ← check (supportTupleKeyV1 tuple);
  matched ← match_case wanted (SupportCases target) false;
  if (matched : bool) then Reduced tuple
  else Rejected "context, binding set, and selection map do not equal one target support case".

(** ** Contributions *)

(** Which of two equal references is kept does not matter. *)
Definition canonicalReferenceUnionV1 (references : list RecordReferenceV1) : list RecordReferenceV1 :=
  let reference_le (l r : RecordReferenceV1) := record_le (reference_key l) (reference_key r) in
  merge_sort reference_le (remove_dups references).
Definition canonicalCandidateExportsV1 (exports : list ToolExportV1) : result (list ToolExportV1) :=
  paths ← carry add_export ∅ exports;
  Ok (omap (λ name, MakeExport name <$> paths !! name) (merge_sort String.le (map fst (map_to_list paths)))).
(** The contract reference and the export of a selected binding. *)
Definition contribute_binding (target : TargetRecordV1) (name : string) : result (RecordReferenceV1 * ToolExportV1) :=
  match targetBindingEntryV1 target name with
  | None => Err "target does not provide binding"
  | Some binding =>
    bindingContract ← resolved_as view as_binding_contract "binding contract resolves to an incompatible record" (binding_Contract binding);
    _ ← reject_if (negb (bool_decide (bc_Name bindingContract = name))) "binding contract resolves to an incompatible record";
    Ok (binding_Contract binding, CLI bindingContract)
  end.
Definition candidateContributionsV1 (contract : ReleaseContractV1) (target : TargetRecordV1) (tuple : supportTupleV1)
    : result (list RecordReferenceV1 * list ToolExportV1) :=
  selected ← selectedContributionReferencesV1 target tuple;
  bindings ← mapM (contribute_binding target) (case_Bindings tuple);
  let references := packages selected ++ payloads selected ++ artifacts selected ++ map fst bindings in
  _ ← for_each (λ reference, _ ← resolvedRecordV1 view reference; Ok tt) references;
  canonicalExports ← canonicalCandidateExportsV1 (contract_Exports contract ++ exports selected ++ map snd bindings);
  Ok (canonicalReferenceUnionV1 references, canonicalExports).

(** ** Fixture and profiles *)

Fixpoint match_fixture (wanted : list Ascii.ascii) (references : list RecordReferenceV1) (matched : option IntegrationFixtureRecordV1)
    : reduction (option IntegrationFixtureRecordV1) :=
  match references with
  | [] => Reduced matched
  | reference :: rest =>
    fixture ← check (resolved_as view as_fixture "integration fixture is not a fixture record" reference);
    key ← check (supportTupleKeyV1 (normalizedFixtureTupleV1 fixture));
    if negb (bool_decide (key = wanted)) then match_fixture wanted rest matched
    else
      _ ← defend (bool_decide (is_Some matched)) "multiple fixtures cover one support tuple";
      match_fixture wanted rest (Some fixture)
  end.
Definition candidateValidationRecordsV1 (target : TargetRecordV1) (tuple : supportTupleV1)
    : reduction (IntegrationFixtureRecordV1 * list ValidationProfileRecordV1) :=
  wanted ← check (supportTupleKeyV1 tuple);
  matched ← match_fixture wanted (IntegrationFixtures target) None;
  match matched with
  | None => Rejected "no integration fixture covers the requested support tuple"
  | Some fixture =>
    profileReferences ← check (selectedProfileReferencesV1 target tuple);
    _ ← defend (negb (equalReferenceListsV1 profileReferences (fixture_ValidationProfiles fixture)))
          "fixture profiles do not match selected contributions";
    profiles ← check (mapM (resolved_as view as_profile "validation profile is not a profile record") profileReferences);
    Reduced (fixture, profiles)
  end.
End view.

(** ** Selection *)

Section catalog.
Context (catalog : CatalogV1).

Definition reduceCandidateV1 (manifestKey : recordKeyV1) (group : CanonicalRequirementGroupV1) (observed : TargetIdentityV1)
    (client : ClientCapabilitiesV1) (activeBindings : list string) : reduction ReleaseCandidateV1 :=
  view ← check (resolvedViewV1 catalog manifestKey);
  manifest ← match records catalog !! manifestKey with Some record => assert_type as_manifest (record_Value record) | None => Panics end;
  contractRecord ← check (resolvedRecordV1 view (manifest_Contract manifest));
  contract ← assert_type as_contract (record_Value contractRecord);
  _ ← check (verifyClientSatisfiesContractV1 contract client);
  _ ← check (reject_if (negb (containsRecordValueV1 (Contexts contract) (Context_ group))) "context is not supported");
  target ← selectExactTargetV1 view manifest observed;
  tuple ← resolveCandidateSupportTupleV1 contract target group activeBindings;
  _ ← check (validateTupleContributionsV1 view contract target tuple);
  contributions ← check (candidateContributionsV1 view contract target tuple);
  validation ← candidateValidationRecordsV1 view target tuple;
  Reduced {| candidate_Scope := group_Scope group; Manifest := manifest; Contract := contract; candidate_Target := target;
             Fixture := validation.1; Profiles := validation.2; Bindings := case_Bindings tuple;
             candidate_Selections := case_Selections tuple; Contributions := contributions.1; Exports := contributions.2 |}.

(** The candidates that survive, in order. *)
Fixpoint reduce_all (keys : list recordKeyV1) (reduce : recordKeyV1 → reduction ReleaseCandidateV1) : reduction (list ReleaseCandidateV1) :=
  match keys with
  | [] => Reduced []
  | key :: rest =>
    match reduce key with
    | Rejected _ => reduce_all rest reduce
    | outcome => candidate ← outcome; candidates ← reduce_all rest reduce; Reduced (candidate :: candidates)
    end
  end.
Definition group_tool (group : CanonicalRequirementGroupV1) : reduction ToolRecordV1 :=
  match tools catalog !! group_Tool group with
  | None => Rejected "portable tool is not defined"
  | Some toolKey =>
    match records catalog !! toolKey with
    | Some record => match record_Value record with ToolRecord tool => Reduced tool | _ => Rejected "portable tool does not resolve to a tool record" end
    | None => Rejected "portable tool does not resolve to a tool record"
    end
  end.
Definition SelectReleaseCandidatesV1 (group : CanonicalRequirementGroupV1) (observed : TargetIdentityV1) (client : ClientCapabilitiesV1)
    (activeBindings : list string) : reduction (list ReleaseCandidateV1) :=
  _ ← check (validateCanonicalRequirementGroupV1 group);
  _ ← check (validateCanonicalBindingSetV1 activeBindings true);
  _ ← check (validateTargetIdentityV1 observed);
  tool ← group_tool group;
  demand ← check (normalizedVersionDemandV1 tool (VersionConstraints group) (DefinitionRevision group));
  ordered ← check (enumerateReleaseCandidatesV1 catalog tool demand.1 demand.2);
  _ ← check (reject_if (bool_decide (length ordered = 0)) "portable tool has no release matching the demand");
  candidates ← reduce_all ordered (λ key, reduceCandidateV1 key group observed client activeBindings);
  _ ← check (reject_if (bool_decide (length candidates = 0)) "portable tool has no candidate satisfying the canonical group");
  Reduced candidates.
End catalog.
End schemes.
