(* ===== verification/ToolCandidatesFacts.v ===== *)
(** * Candidates of a loaded catalog

    What the validation of a release establishes of its targets, and what it means
    for a reduction: it never meets invalid definition data. *)

From Stdlib Require Import Ascii.
From S2P Require Import Prelude GoText Canonical ToolRecords ToolCatalog ToolCatalogFacts ToolCatalogProps ToolVersions ToolSupport ToolSupportFacts ToolValidate ToolReleases ToolClaims ToolCandidates.

Open Scope nat_scope.

(** ** Sorted and distinct *)

Lemma compact_after_sorted l : ∀ last, StronglySorted String.le (last :: l) →
  StronglySorted string_lt (last :: compact_after last l) ∧ ∀ x, x ∈ last :: compact_after last l ↔ x ∈ last :: l.
Proof.
  induction l as [|y l IH]; intros last Hs; simpl; [by split; [repeat constructor|]|].
  apply StronglySorted_cons in Hs as [Hlast Hs]. apply Forall_cons in Hlast as [Hy Hlast]. case_bool_decide as E.
  - subst y. destruct (IH last) as [IHs IHin]; [done|]. split; [done|]. intros x. rewrite IHin, !elem_of_cons. tauto.
  - destruct (IH y) as [IHs IHin]; [done|]. split; [|intros x; rewrite elem_of_cons, IHin, !elem_of_cons; tauto].
    assert (string_lt last y) as Hlt by (apply string_lt_le; split; [done|by intros ->]). apply StronglySorted_cons. split; [|done].
    apply StronglySorted_cons in IHs as [Hall _]. constructor; [done|]. eapply Forall_impl; [exact Hall|]. intros x. by apply transitivity.
Qed.
Lemma compact_sorted l : StronglySorted String.le l → StronglySorted string_lt (compactStringsV1 l) ∧ ∀ x, x ∈ compactStringsV1 l ↔ x ∈ l.
Proof. destruct l as [|x l]; [by intros _; split; [constructor|]|]. apply compact_after_sorted. Qed.

Lemma increasing_ok {A} (check : A → result unit) encode previous values : increasing check encode previous values = Ok tt →
  NoDup values ∧ ∀ value, value ∈ values → check value = Ok tt ∧ ∃ encoded, encode value = Ok encoded ∧
    ∀ p, previous = Some p → string_lt (String.string_of_list_ascii p) (String.string_of_list_ascii encoded).
Proof.
  revert previous. induction values as [|value values IH]; intros previous; simpl; [by split; [constructor|intros ? ?%elem_of_nil]|].
  intros ([] & Hc & (encoded & He & [Hp [Hn Hrest]%IH]%reject_if_bind)%bind_ok)%bind_ok.
  assert (∀ p, previous = Some p → string_lt (String.string_of_list_ascii p) (String.string_of_list_ascii encoded)) as Hlt
    by (intros p ->; by apply string_geb_lt in Hp).
  split.
  - constructor; [|done]. intros (_ & e & He' & H)%Hrest. rewrite He in He'. injection He' as <-.
    by apply (irreflexivity string_lt (String.string_of_list_ascii encoded)), H.
  - intros v [->|Hv]%elem_of_cons; [by split; [|exists encoded]|]. destruct (Hrest v Hv) as (Hcv & e & Hev & He').
    split; [done|]. exists e. split; [done|]. intros p Hpp. etrans; [by apply Hlt|by apply He'].
Qed.

Section schemes.
Context {schemes : VersionSchemes}.

(** ** Records of a view *)

#[export] Instance TargetSupportCaseV1_eq_dec : EqDecision TargetSupportCaseV1.
Proof. solve_decision. Defined.


Section view.
Context (view : resolved_view).

(** A reference stands for a value of one type. *)
Definition stands {A} (field : RecordV1 → option A) (reference : RecordReferenceV1) (value : A) : Prop :=
  ∃ record, resolvedRecordV1 view reference = Ok record ∧ field (record_Value record) = Some value.
Lemma resolved_as_ok {A} (field : RecordV1 → option A) message reference value :
  resolved_as view field message reference = Ok value ↔ stands field reference value.
Proof.
  unfold resolved_as, stands. rewrite bind_ok. split.
  - intros (record & Hr & H). exists record. split; [done|]. destruct (field (record_Value record)); [|done]. by injection H as ->.
  - intros (record & Hr & H). exists record. split; [done|]. by rewrite H.
Qed.
Lemma stands_inj {A} (field : RecordV1 → option A) reference v v' : stands field reference v → stands field reference v' → v = v'.
Proof. intros (r & Hr & Hv) (r' & Hr' & Hv'). congruence. Qed.

(** ** The cases and the fixtures of a target *)

Definition keyed (tuple : supportTupleV1) : Prop := ∃ key, supportTupleKeyV1 tuple = Ok key.

Record case_checked (contract : ReleaseContractV1) (target : TargetRecordV1) (tuple : supportTupleV1) : Prop := {
  case_supported : check_support_case contract target tuple = Ok tuple;
  case_keyed : keyed tuple;
  case_contributions : validateTupleContributionsV1 view contract target tuple = Ok tt
}.
Record fixtures_checked (contract : ReleaseContractV1) (target : TargetRecordV1) (fixtures : list IntegrationFixtureRecordV1) : Prop := {
  fixtures_match fixture : fixture ∈ fixtures → validateFixtureAgainstTargetV1 contract target fixture = Ok tt;
  fixtures_keyed fixture : fixture ∈ fixtures → keyed (normalizedFixtureTupleV1 fixture);
  fixtures_distinct : NoDup (map normalizedFixtureTupleV1 fixtures);
  fixtures_cover tuple : tuple ∈ SupportCases target → ∃ fixture, fixture ∈ fixtures ∧ normalizedFixtureTupleV1 fixture = tuple
}.

Lemma check_support_case_self contract target tuple tuple' : check_support_case contract target tuple = Ok tuple' → tuple' = tuple.
Proof. unfold check_support_case. intros [_ [_ [_ (b & _ & [_ [= <-]]%reject_if_bind)%bind_ok]%reject_if_bind]%reject_if_bind]%reject_if_bind. done. Qed.
Lemma support_tuples contract target l : targetSupportTuplesV1 contract target = Ok l →
  l = SupportCases target ∧ ∀ tuple, tuple ∈ SupportCases target → check_support_case contract target tuple = Ok tuple.
Proof.
  unfold targetSupportTuplesV1. intros [_ [_ H%mapM_ok]%reject_if_bind]%reject_if_bind.
  assert (l = SupportCases target) as ->.
  { clear -H. induction H as [|x y l l' Hxy _ IH]; [done|]. apply check_support_case_self in Hxy as ->. by f_equal. }
  split; [done|]. intros tuple (i & Hi)%list_elem_of_lookup. by apply (Forall2_lookup_lr _ _ _ i _ _ H).
Qed.

(** The keys of a list of items. *)
Definition keys_of {A} (key_of : A → result (list ascii)) (items : list A) (keys : gset (list ascii)) : Prop :=
  ∀ key, key ∈ keys ↔ ∃ item, item ∈ items ∧ key_of item = Ok key.
Lemma keys_of_nil {A} (key_of : A → result (list ascii)) : keys_of key_of [] ∅.
Proof. intros key. rewrite elem_of_empty. by split; [|intros (? & ?%elem_of_nil & _)]. Qed.
Lemma keys_of_add {A} (key_of : A → result (list ascii)) items keys item key :
  keys_of key_of items keys → key_of item = Ok key → keys_of key_of (items ++ [item]) ({[key]} ∪ keys).
Proof.
  intros H Hk k. specialize (H k). rewrite elem_of_union, elem_of_singleton, H. split.
  - intros [->|(x & Hx & Hkx)]; [exists item|exists x]; (split; [apply elem_of_app|done]); [right; by left|by left].
  - intros (x & [Hx| ->%list_elem_of_singleton]%elem_of_app & Hkx); [right; by exists x|left; congruence].
Qed.

Definition expected_so_far (contract : ReleaseContractV1) (target : TargetRecordV1) (done_ : list supportTupleV1) (expected : gset (list ascii)) : Prop :=
  (∀ tuple, tuple ∈ done_ → keyed tuple ∧ validateTupleContributionsV1 view contract target tuple = Ok tt) ∧
  keys_of supportTupleKeyV1 done_ expected.
Lemma expect_step (contract : ReleaseContractV1) (target : TargetRecordV1) done_ tuple expected expected' : expected_so_far contract target done_ expected →
  expect_tuple view contract target expected tuple = Ok expected' → expected_so_far (contract : ReleaseContractV1) (target : TargetRecordV1) (done_ ++ [tuple]) expected'.
Proof.
  intros [Hd He] (key & Hk & ([] & Hc & [= <-])%bind_ok)%bind_ok. split.
  - intros t [Ht| ->%list_elem_of_singleton]%elem_of_app; [by apply Hd|]. by split; [exists key|].
  - by apply keys_of_add.
Qed.
Definition covered_so_far (contract : ReleaseContractV1) (target : TargetRecordV1) (expected : gset (list ascii)) (done_ : list IntegrationFixtureRecordV1) (actual : gset (list ascii)) : Prop :=
  (∀ fixture, fixture ∈ done_ → validateFixtureAgainstTargetV1 contract target fixture = Ok tt ∧ keyed (normalizedFixtureTupleV1 fixture)) ∧
  NoDup (map normalizedFixtureTupleV1 done_) ∧
  keys_of (supportTupleKeyV1 ∘ normalizedFixtureTupleV1) done_ actual.
Lemma cover_step (contract : ReleaseContractV1) (target : TargetRecordV1) expected done_ fixture actual actual' : covered_so_far contract target expected done_ actual →
  cover_tuple contract target expected actual fixture = Ok actual' → covered_so_far contract target expected (done_ ++ [fixture]) actual'.
Proof.
  intros (Hd & Hn & Ha) ([] & Hv & (key & Hk & [Hnew [_ [= <-]]%reject_if_bind]%reject_if_bind)%bind_ok)%bind_ok. split_and!.
  - intros f [Hf| ->%list_elem_of_singleton]%elem_of_app; [by apply Hd|]. by split; [|exists key].
  - rewrite map_app. apply NoDup_app. split_and!; [done| |apply NoDup_singleton].
    intros t (f & Ht & Hf)%list_elem_of_fmap Hin. apply list_elem_of_singleton in Hin. go_bool. apply Hnew, Ha. exists f. split; [done|].
    simpl. congruence.
  - by apply keys_of_add.
Qed.

Lemma coverage contract target fixtures : validateTargetFixtureCoverageV1 view contract target fixtures = Ok tt →
  (∀ tuple, tuple ∈ SupportCases target → case_checked contract target tuple) ∧ fixtures_checked contract target fixtures.
Proof.
  unfold validateTargetFixtureCoverageV1.
  intros (tuples & [-> Hs]%support_tuples & (expected & He & (actual & Ha & Hsub%reject_if_ok)%bind_ok)%bind_ok)%bind_ok.
  eapply (carry_invariant _ (expected_so_far contract target)) in He as [Hd He];
    [|intros ? ? ? ?; apply expect_step|split; [by intros ? ?%elem_of_nil|apply keys_of_nil]].
  eapply (carry_invariant _ (covered_so_far contract target expected)) in Ha as (Hf & Hn & Ha);
    [|intros ? ? ? ?; apply cover_step|split_and!; [by intros ? ?%elem_of_nil|constructor|apply keys_of_nil]].
  go_bool. split.
  - intros tuple Ht. destruct (Hd tuple Ht). by constructor; [apply Hs| |].
  - constructor; [by intros f [? _]%Hf|by intros f [_ ?]%Hf|done|]. intros tuple Ht.
    destruct (Hd tuple Ht) as [[key Hk] _]. assert (key ∈ actual) as (f & Hf' & Hkf)%Ha by (apply Hsub, He; by exists tuple).
    exists f. split; [done|]. by eapply tuple_key_inj.
Qed.

(** ** The targets of a release *)

Record target_checked (contract : ReleaseContractV1) (target : TargetRecordV1) : Prop := {
  checked_cases tuple : tuple ∈ SupportCases target → case_checked contract target tuple;
  checked_fixtures : ∃ fixtures, Forall2 (stands as_fixture) (IntegrationFixtures target) fixtures ∧ fixtures_checked contract target fixtures
}.
Definition release_targets (contract : ReleaseContractV1) (references : list RecordReferenceV1) (targets : list TargetRecordV1) : Prop :=
  Forall2 (stands as_target) references targets ∧ Forall (target_checked contract) targets ∧ NoDup (map target_Target targets).

Lemma check_target_fixtures contract declared target fixtures :
  mapM (check_target_fixture view contract declared target) (IntegrationFixtures target) = Ok fixtures →
  Forall2 (stands as_fixture) (IntegrationFixtures target) fixtures.
Proof.
  intros H%mapM_ok. eapply Forall2_impl; [exact H|]. intros reference fixture.
  intros (f & Hf%resolved_as_ok & [_ ([] & _ & ([] & _ & [= <-])%bind_ok)%bind_ok]%reject_if_bind)%bind_ok. done.
Qed.
Lemma add_target_checked contract declared state reference state' : add_target view contract declared state reference = Ok state' →
  ∃ target, stands as_target reference target ∧ target_checked contract target ∧ (target_Target target ∉ state.1) ∧
    state'.1 = target_Target target :: state.1.
Proof.
  unfold add_target. intros (target & Ht%resolved_as_ok & ([] & _ & ([] & _ & [Hnew ([] & _ & ([] & _ & (fixtures & Hf%check_target_fixtures &
    (a1 & _ & (a2 & _ & (a3 & _ & ([] & [Hc Hfc]%coverage & [= <-])%bind_ok)%bind_ok)%bind_ok)%bind_ok)%bind_ok)%bind_ok)%bind_ok]%reject_if_bind)%bind_ok)%bind_ok)%bind_ok.
  exists target. split_and!; [done| |by go_bool|done]. constructor; [done|]. by exists fixtures.
Qed.
Lemma targets_step contract declared done_ state reference state' :
  (∃ targets, release_targets contract done_ targets ∧ (∀ id, id ∈ state.1 ↔ id ∈ map target_Target targets)) →
  add_target view contract declared state reference = Ok state' →
  ∃ targets, release_targets contract (done_ ++ [reference]) targets ∧ ∀ id, id ∈ state'.1 ↔ id ∈ map target_Target targets.
Proof.
  intros (targets & (Hr & Hc & Hn) & Hids) (target & Ht & Hok & Hnew & ->)%add_target_checked.
  exists (targets ++ [target]). split; [split_and!|].
  - by apply Forall2_app; [|constructor].
  - by apply Forall_app; split; [|constructor].
  - rewrite map_app. apply NoDup_app. split_and!; [done| |apply NoDup_singleton].
    intros id Hid Hin. apply list_elem_of_singleton in Hin as ->. by apply Hnew, Hids.
  - intros id. rewrite map_app, elem_of_app, elem_of_cons, Hids. simpl. rewrite list_elem_of_singleton. tauto.
Qed.
Lemma release_checked manifest : validateManifestResolvedGraphV1 manifest view = Ok tt →
  ∃ contract targets, stands as_contract (manifest_Contract manifest) contract ∧ release_targets contract (Targets manifest) targets.
Proof.
  unfold validateManifestResolvedGraphV1.
  intros (contract & Hc%resolved_as_ok & (declared & _ & (state & Hs & _)%bind_ok)%bind_ok)%bind_ok. exists contract.
  eapply (carry_invariant _ (λ done_ state, ∃ targets, release_targets contract done_ targets ∧ ∀ id, id ∈ state.1 ↔ id ∈ map target_Target targets)) in Hs
    as (targets & Ht & _); [by exists targets|intros ? ? ? ?; apply targets_step|].
  exists []. split; [by split_and!; constructor|done].
Qed.

(** The target that has the observed identity. *)
Lemma select_target_spec references targets observed selected : Forall2 (stands as_target) references targets → NoDup (map target_Target targets) →
  (is_Some selected → observed ∉ map target_Target targets) →
  select_target view references observed selected =
    Reduced (match find_first (λ target, bool_decide (target_Target target = observed)) targets with Some target => Some target | None => selected end).
Proof.
  intros H. revert selected. induction H as [|reference target references targets Ht _ IH]; intros selected Hn Hsel; simpl; [done|].
  eapply resolved_as_ok in Ht. rewrite Ht. simpl. apply NoDup_cons in Hn as [Hnew Hn]. case_bool_decide as Ho; simpl.
  - rewrite bool_decide_false by (intros Hs; apply Hsel in Hs; apply Hs; rewrite <-Ho; by left). simpl. rewrite IH; [|done|by rewrite <-Ho].
    destruct (find_first _ targets) as [t|] eqn:Hf; [|done]. exfalso. apply Hnew. apply find_first_Some in Hf as (l1 & l2 & -> & Hp & _). go_bool.
    rewrite <-Hp in Ho. rewrite Ho. apply list_elem_of_fmap. exists t. split; [done|]. apply elem_of_app. right. by left.
  - rewrite IH; [done|done|]. intros Hs Hin. apply (Hsel Hs). by right.
Qed.

(** ** The support case that a group asks for *)

Definition advertised (target : TargetRecordV1) (binding : string) : Prop := binding ∈ map binding_Name (target_Bindings target).
(** The bindings a demand stands for on a target: all of them or the listed
    ones, and those inferred from the active providers, where a sole binding is
    the default. *)
Record asks (target : TargetRecordV1) (demand : CanonicalBindingDemandV1) (active bindings : list string) : Prop := {
  asks_sorted : StronglySorted string_lt bindings;
  asks_all : All demand = true → target_Bindings target ≠ [];
  asks_inferred : Infer demand = true → (∀ b, b ∈ active → ¬ advertised target b) → length (target_Bindings target) ≤ 1;
  asks_members b : b ∈ bindings ↔ (if All demand then advertised target b else b ∈ Explicit demand) ∨
    (Infer demand = true ∧ advertised target b ∧ (b ∈ active ∨ ∀ a, a ∈ active → ¬ advertised target a))
}.
Lemma asks_unique target demand active l l' : asks target demand active l → asks target demand active l' → l = l'.
Proof.
  intros [Hs _ _ Hm] [Hs' _ _ Hm'].
  assert (∀ l, StronglySorted string_lt l → NoDup l) as Hn.
  { induction 1 as [|x k _ IH Hx]; constructor; [|done]. rewrite Forall_forall in Hx. intros Hin%Hx. by apply (irreflexivity string_lt x). }
  eapply StronglySorted_unique_strong; [|exact Hs|exact Hs'|].
  - intros x y _ _ H1 H2. exfalso. apply (irreflexivity string_lt x). by etrans.
  - apply NoDup_Permutation; [by apply Hn..|]. intros x. by rewrite Hm, Hm'.
Qed.

Definition sorted_names (target : TargetRecordV1) : list string := merge_sort String.le (map binding_Name (target_Bindings target)).
Lemma elem_of_sorted_names target b : b ∈ sorted_names target ↔ advertised target b.
Proof. unfold sorted_names. by rewrite merge_sort_Permutation. Qed.
Lemma length_sorted_names target : length (sorted_names target) = length (target_Bindings target).
Proof. unfold sorted_names. by rewrite merge_sort_Permutation, length_map. Qed.

Definition inferred_bindings (advertised active : list string) : result (list string) :=
  match List.filter (containsRecordValueV1 advertised) active, advertised with
  | [], [] => Ok []
  | [], [sole] => Ok [sole]
  | [], _ => Err "binding omission is ambiguous"
  | matching, _ => Ok matching
  end.
Lemma inferred_spec names active :
  match inferred_bindings names active with
  | Ok l => ((∀ b, b ∈ active → b ∉ names) → length names ≤ 1) ∧
      ∀ b, b ∈ l ↔ b ∈ names ∧ (b ∈ active ∨ ∀ a, a ∈ active → a ∉ names)
  | Err _ => (∀ b, b ∈ active → b ∉ names) ∧ 1 < length names
  end.
Proof.
  unfold inferred_bindings.
  assert (∀ b, b ∈ List.filter (containsRecordValueV1 names) active ↔ b ∈ active ∧ b ∈ names) as Hf.
  { intros b. rewrite !list_elem_of_In, filter_In, <-!list_elem_of_In. by rewrite contains_record_value. }
  destruct (List.filter (containsRecordValueV1 names) active) as [|x l].
  - assert (∀ b, b ∈ active → b ∉ names) as Hnone by (intros b Hb Hin; by apply (not_elem_of_nil b), Hf).
    destruct names as [|n [|n' names]]; simpl; [| |by split; [|lia]]; (split; [lia|]); intros b; rewrite ?elem_of_nil, ?list_elem_of_singleton; naive_solver.
  - assert (∃ b, b ∈ active ∧ b ∈ names) as (b & Hb & Hin) by (exists x; apply Hf; by left).
    split; [intros Hno; by destruct (Hno b Hb)|]. intros c. rewrite Hf. naive_solver.
Qed.

Definition chosen_bindings (names : list string) (demand : CanonicalBindingDemandV1) : result (list string) :=
  if All demand then
    _ ← reject_if (bool_decide (length names = 0)) "all bindings were requested but the target advertises none";
    Ok names
  else Ok (Explicit demand).
Lemma chosen_spec names demand :
  match chosen_bindings names demand with
  | Ok l => (All demand = true → names ≠ []) ∧ ∀ b, b ∈ l ↔ if All demand then b ∈ names else b ∈ Explicit demand
  | Err _ => All demand = true ∧ names = []
  end.
Proof. unfold chosen_bindings. destruct (All demand); [|done]. destruct names as [|n names]; simpl; [done|]. by split. Qed.

Lemma advertises_binding target b : targetAdvertisesBindingV1 target b = true ↔ advertised target b.
Proof.
  unfold targetAdvertisesBindingV1, advertised. rewrite existsb_exists, list_elem_of_fmap. setoid_rewrite <-list_elem_of_In.
  split; intros (x & H1 & H2); exists x; [apply bool_decide_eq_true in H2; by subst|split; [done|by apply bool_decide_eq_true]].
Qed.
Lemma bindings_available schema target l :
  for_each (λ b, _ ← reject_if (negb (containsRecordValueV1 (Options schema) b)) "binding is not declared by the release contract";
                 reject_if (negb (targetAdvertisesBindingV1 target b)) "binding is not advertised by the target") l = Ok tt ↔
  ∀ b, b ∈ l → b ∈ Options schema ∧ advertised target b.
Proof.
  rewrite for_each_ok. apply forall_proper. intros b. apply forall_proper. intros _.
  by rewrite reject_if_bind, reject_if_ok, !negb_false_iff, contains_record_value, advertises_binding.
Qed.

Lemma resolve_bindings schema target demand active bindings :
  resolveRequestedBindingsV1 schema target demand active = Ok bindings ↔
  asks target demand active bindings ∧ ∀ b, b ∈ bindings → b ∈ Options schema ∧ advertised target b.
Proof.
  unfold resolveRequestedBindingsV1. fold (sorted_names target) (inferred_bindings (sorted_names target) active) (chosen_bindings (sorted_names target) demand).
  pose proof (chosen_spec (sorted_names target) demand) as Hc. pose proof (inferred_spec (sorted_names target) active) as Hi.
  rewrite length_sorted_names in Hi.
  assert (sorted_names target = [] ↔ target_Bindings target = []) as Hnil by (rewrite <-!length_zero_iff_nil, length_sorted_names; done).
  assert (∀ names, names = sorted_names target → ∀ b, b ∈ names ↔ advertised target b) as Hn by (intros ? -> b; apply elem_of_sorted_names).
  specialize (Hn _ eq_refl). revert Hc Hi. generalize dependent (sorted_names target). intros names Hnil Hn.
  destruct (chosen_bindings names demand) as [l1|] eqn:E1; simpl.
  2: { intros [Hall Hnames] _. split; [done|]. intros [[_ Ha _ _] _]. by destruct (Ha Hall); apply Hnil. }
  intros [Hc1 Hc2] Hi.
  assert ((∃ l2, (if Infer demand then inferred_bindings names active else Ok []) = Ok l2 ∧
    (Infer demand = true → (∀ b, b ∈ active → ¬ advertised target b) → length (target_Bindings target) ≤ 1) ∧
    ∀ b, b ∈ l2 ↔ Infer demand = true ∧ advertised target b ∧ (b ∈ active ∨ ∀ a, a ∈ active → ¬ advertised target a)) ∨
    (∃ m, (if Infer demand then inferred_bindings names active else Ok []) = Err m ∧ Infer demand = true ∧
    (∀ b, b ∈ active → ¬ advertised target b) ∧ 1 < length (target_Bindings target))) as Hi'.
  { setoid_rewrite <-Hn. destruct (Infer demand); [|left; exists []; split; [done|]; split; [done|]; intros b; rewrite elem_of_nil; naive_solver].
    destruct (inferred_bindings names active) as [l|m]; [left; exists l|right; exists m; tauto].
    destruct Hi as [Hlen Hin]. split_and!; [done|by intros _|]. intros b. rewrite Hin. tauto. }
  clear Hi. destruct Hi' as [(l2 & -> & Hi1 & Hi2)|(m & -> & Hinf & Hno & Hlen)]; simpl.
  2: { split; [done|]. intros [[_ _ Ha _] _]. specialize (Ha Hinf Hno). lia. }
  destruct (compact_sorted (merge_sort String.le (l1 ++ l2))) as [Hs Hm]; [apply StronglySorted_merge_sort; apply _|].
  assert (asks target demand active (compactStringsV1 (merge_sort String.le (l1 ++ l2)))) as Hasks.
  { constructor; [done| |done|].
    - intros Hall Hb. by apply Hc1, Hnil.
    - intros b. rewrite Hm, merge_sort_Permutation, elem_of_app, Hc2, Hi2. destruct (All demand); [by rewrite Hn|done]. }
  rewrite bind_ok. split.
  - intros ([] & Hf & [= <-]). by rewrite bindings_available in Hf.
  - intros [Hb Hf]. rewrite (asks_unique _ _ _ _ _ Hb Hasks) in *. exists tt. by split; [apply bindings_available|].
Qed.

(** ** The support case of a group *)

Definition asked_case (target : TargetRecordV1) (group : CanonicalRequirementGroupV1) (active : list string) (tuple : supportTupleV1) : Prop :=
  tuple ∈ SupportCases target ∧ case_Context tuple = Context_ group ∧ case_Selections tuple = group_Selections group ∧
  asks target (group_Binding group) active (case_Bindings tuple).

Lemma match_case_spec wanted tuple cases matched : supportTupleKeyV1 tuple = Ok wanted → (∀ c, c ∈ cases → keyed c) → NoDup cases →
  (matched = true → tuple ∉ cases) → match_case wanted cases matched = Reduced (matched || bool_decide (tuple ∈ cases)).
Proof.
  intros Hw. revert matched. induction cases as [|c cases IH]; intros matched Hk Hn Hm; simpl; [by rewrite orb_false_r|].
  destruct (Hk c) as [key Hc]; [by left|]. rewrite Hc. simpl. apply NoDup_cons in Hn as [Hnew Hn].
  assert (∀ c, c ∈ cases → keyed c) as Hk' by (intros c' ?; apply Hk; by right).
  destruct (decide (key = wanted)) as [E|E]; [rewrite (bool_decide_true (key = wanted)) by done|rewrite (bool_decide_false (key = wanted)) by done]; simpl.
  - rewrite E in Hc. assert (c = tuple) as -> by (by eapply tuple_key_inj). destruct matched; [exfalso; apply Hm; [done|by left]|]. simpl.
    rewrite IH by done. simpl. rewrite bool_decide_true; [done|by left].
  - rewrite IH; [|done|done|intros Hmm Hin; apply (Hm Hmm); by right]. f_equal. f_equal. apply bool_decide_ext. rewrite elem_of_cons.
    split; [by right|]. intros [->|]; [|done]. congruence.
Qed.

Lemma case_parts contract target tuple : check_support_case contract target tuple = Ok tuple →
  case_Context tuple ∈ Contexts contract ∧ (∀ b, b ∈ case_Bindings tuple → b ∈ Options (Binding contract) ∧ advertised target b) ∧
  resolveRequestedSelectionsV1 (Selections contract) target (case_Selections tuple) = Ok (case_Selections tuple).
Proof.
  unfold check_support_case. intros [Hc [_ [Hb (s & Hs & [Hsel _]%reject_if_bind)%bind_ok]%reject_if_bind]%reject_if_bind]%reject_if_bind.
  split_and!.
  - apply contains_record_value. by destruct (containsRecordValueV1 _ _).
  - apply negb_false_iff, Forall_bool in Hb. rewrite Forall_forall in Hb. intros b Hin%Hb. unfold available in Hin. apply andb_true_iff in Hin.
    by rewrite contains_record_value, advertises_binding in Hin.
  - unfold resolveRequestedSelectionsV1. rewrite Hs. simpl. apply orb_false_iff in Hsel as [-> ->]. done.
Qed.

Lemma resolve_tuple contract target group active : target_checked contract target → NoDup (SupportCases target) →
  match resolveCandidateSupportTupleV1 contract target group active with
  | Reduced tuple => asked_case target group active tuple
  | Rejected _ => ∀ tuple, ¬ asked_case target group active tuple
  | _ => False
  end.
Proof.
  intros [Hc _] Hn. unfold resolveCandidateSupportTupleV1.
  destruct (resolveRequestedBindingsV1 (Binding contract) target (group_Binding group) active) as [bindings|m] eqn:Hb; simpl.
  2: { intros tuple (Hin & _ & _ & Ha). destruct (case_parts contract target tuple) as (_ & Hav & _); [by apply Hc|].
       assert (resolveRequestedBindingsV1 (Binding contract) target (group_Binding group) active = Ok (case_Bindings tuple)) by (by apply resolve_bindings).
       congruence. }
  apply resolve_bindings in Hb as [Ha Hav].
  destruct (resolveRequestedSelectionsV1 (Selections contract) target (group_Selections group)) as [selections|m] eqn:Hs; simpl.
  2: { intros tuple (Hin & _ & Hsel & _). destruct (case_parts contract target tuple) as (_ & _ & Hok); [by apply Hc|]. congruence. }
  assert (selections = group_Selections group) as ->.
  { revert Hs. unfold resolveRequestedSelectionsV1. by intros (b & _ & [_ [_ [= <-]]%reject_if_bind]%reject_if_bind)%bind_ok. }
  assert (∀ tuple, asked_case target group active tuple → tuple = MakeTuple (Context_ group) bindings (group_Selections group)) as Huniq.
  { intros [context names selections] (_ & Hctx & Hsel & Hask). simpl in *. rewrite (asks_unique _ _ _ _ _ Hask Ha). by subst. }
  set (tuple := MakeTuple (Context_ group) bindings (group_Selections group)) in *.
  destruct (supportTupleKeyV1 tuple) as [wanted|m] eqn:Hw; simpl.
  2: { intros t Ht. pose proof (Huniq t Ht) as ->. destruct Ht as [Hin _]. destruct (Hc tuple Hin) as [_ [key Hk] _]. congruence. }
  rewrite (match_case_spec _ tuple); [|done|by intros c ?%Hc; apply case_keyed with contract target|done|done]. simpl.
  case_bool_decide as Hin; [by split_and!|]. intros t Ht. pose proof (Huniq t Ht) as ->. by destruct Ht.
Qed.

(** ** What a support case contributes *)

Definition contributed (target : TargetRecordV1) (tuple : supportTupleV1) (reference : RecordReferenceV1) : Prop :=
  reference ∈ target_PackageSets target ++ target_Payloads target ∨
  (∃ binding, binding ∈ selected_bindings target tuple ∧
    reference ∈ binding_Contract binding :: binding_PackageSets binding ++ binding_Payloads binding ++ binding_Artifacts binding) ∨
  (∃ selection, selection ∈ selected_selections target tuple ∧ reference ∈ selection_PackageSets selection ++ selection_Payloads selection).
Definition resolves (reference : RecordReferenceV1) : Prop := is_ok (resolvedRecordV1 view reference) = true.

Lemma stands_resolves {A} (field : RecordV1 → option A) reference value : stands field reference value → resolves reference.
Proof. intros (record & Hr & _). unfold resolves. by rewrite Hr. Qed.
Lemma binding_entry target name : advertised target name → ∃ binding, targetBindingEntryV1 target name = Some binding ∧ binding_Name binding = name.
Proof.
  intros (b & Hn & Hb)%list_elem_of_fmap. unfold targetBindingEntryV1. destruct (find_first _ _) as [binding|] eqn:Hf.
  - exists binding. split; [done|]. apply find_first_Some in Hf as (_ & _ & _ & Hp & _). by go_bool.
  - apply find_first_None in Hf. rewrite Forall_forall in Hf. specialize (Hf b Hb). by go_bool.
Qed.
Lemma binding_cli_ok binding cli : binding_cli view binding = Ok cli ↔
  ∃ contract, stands as_binding_contract (binding_Contract binding) contract ∧ bc_Name contract = binding_Name binding ∧ CLI contract = cli.
Proof.
  unfold binding_cli. rewrite bind_ok. setoid_rewrite resolved_as_ok. setoid_rewrite reject_if_bind. setoid_rewrite negb_false_iff.
  setoid_rewrite bool_decide_eq_true. split; intros (c & Hc & Hn & H); exists c; split_and!; try done; [by injection H|by f_equal].
Qed.
Lemma contribute_bindings target names clis : (∀ name, name ∈ names → advertised target name) →
  mapM (binding_cli view) (omap (targetBindingEntryV1 target) names) = Ok clis →
  ∃ l, mapM (contribute_binding view target) names = Ok l ∧ map snd l = clis ∧
    map fst l = map binding_Contract (omap (targetBindingEntryV1 target) names) ∧ ∀ reference, reference ∈ map fst l → resolves reference.
Proof.
  revert clis. induction names as [|name names IH]; intros clis Ha; simpl.
  { intros [= <-]. exists []. split_and!; [done..|]. by intros ? ?%elem_of_nil. }
  destruct (binding_entry target name) as (binding & Hb & <-); [apply Ha; by left|]. rewrite Hb. simpl.
  intros (cli & (contract & Hc & Hn & Hcli)%binding_cli_ok & (clis' & Hclis & [= <-])%bind_ok)%bind_ok.
  destruct (IH clis') as (l & Hl & Hsnd & Hfst & Hres); [intros n ?; apply Ha; by right|done|].
  exists ((binding_Contract binding, cli) :: l).
  assert (contribute_binding view target (binding_Name binding) = Ok (binding_Contract binding, cli)) as Hone.
  { unfold contribute_binding. rewrite Hb. pose proof (proj2 (resolved_as_ok _ "binding contract resolves to an incompatible record" _ _) Hc) as ->.
    simpl. rewrite bool_decide_true by done. simpl. by rewrite Hcli. }
  rewrite Hone. simpl. rewrite Hl. simpl. split_and!; [done|by f_equal|by f_equal|].
  intros r [->|Hr]%elem_of_cons; [by eapply stands_resolves|by apply Hres].
Qed.

(** What the validation of a support case establishes. *)
Record contributions_checked (contract : ReleaseContractV1) (target : TargetRecordV1) (tuple : supportTupleV1) (selected : contributions)
    (clis : list ToolExportV1) : Prop := {
  selected_references : selectedContributionReferencesV1 target tuple = Ok selected;
  selected_resolve reference : reference ∈ packages selected ++ payloads selected ++ artifacts selected → resolves reference;
  selected_clis : mapM (binding_cli view) (selected_bindings target tuple) = Ok clis;
  selected_exports : is_ok (carry add_export ∅ (contract_Exports contract ++ exports selected ++ clis)) = true;
  selected_profiles reference : reference ∈ profiles selected → ∃ profile, stands as_profile reference profile
}.
Lemma each_resolves {A} (field : RecordV1 → option A) message references :
  for_each (λ reference, _ ← resolved_as view field message reference; Ok tt) references = Ok tt →
  ∀ reference, reference ∈ references → ∃ value, stands field reference value.
Proof. rewrite for_each_ok. intros H r (v & Hv%resolved_as_ok & _)%H%bind_ok. by exists v. Qed.
Lemma tuple_contributions contract target tuple : validateTupleContributionsV1 view contract target tuple = Ok tt →
  ∃ selected clis, contributions_checked contract target tuple selected clis.
Proof.
  unfold validateTupleContributionsV1.
  intros (selected & Hsel & [_ (byName & Hpkg & (clis & Hcli & (paths & Hexp & ([] & Hpay & ([] & Hart & Hprof)%bind_ok)%bind_ok)%bind_ok)%bind_ok)%bind_ok]%reject_if_bind)%bind_ok.
  exists selected, clis. constructor; [done| |done|by rewrite Hexp|by eapply each_resolves].
  intros r [Hr|[Hr|Hr]%elem_of_app]%elem_of_app.
  - destruct (carry_each _ _ _ _ _ Hpkg Hr) as (m1 & m2 & (set_ & (v & Hv%resolved_as_ok & _)%bind_ok & _)%bind_ok). by eapply stands_resolves.
  - apply bind_ok in Hpay as (state & Hpay & _).
    destruct (carry_each _ _ _ _ _ Hpay Hr) as (m1 & m2 & (v & Hv%resolved_as_ok & _)%bind_ok). by eapply stands_resolves.
  - destruct (each_resolves _ _ _ Hart r Hr) as [v Hv]. by eapply stands_resolves.
Qed.

Lemma elem_of_reference_union references reference : reference ∈ canonicalReferenceUnionV1 references ↔ reference ∈ references.
Proof. unfold canonicalReferenceUnionV1. by rewrite merge_sort_Permutation, elem_of_remove_dups. Qed.
Lemma elem_of_groups {A} (f : A → list RecordReferenceV1) items reference :
  reference ∈ concat (map f items) ↔ ∃ item, item ∈ items ∧ reference ∈ f item.
Proof.
  rewrite list_elem_of_In, in_concat. setoid_rewrite in_map_iff. setoid_rewrite <-list_elem_of_In.
  split; [intros (l & (x & <- & Hx) & Hr); by exists x|intros (x & Hx & Hr); exists (f x); split; [by exists x|done]].
Qed.
Lemma selected_members target tuple selected : selectedContributionReferencesV1 target tuple = Ok selected → ∀ reference,
  reference ∈ packages selected ++ payloads selected ++ artifacts selected ++ map binding_Contract (selected_bindings target tuple) ↔
  contributed target tuple reference.
Proof.
  unfold selectedContributionReferencesV1. intros (pk & (_ & _ & Hpk)%exact_union & (py & (_ & _ & Hpy)%exact_union &
    (ar & (_ & _ & Har)%exact_union & (pr & _ & [= <-])%bind_ok)%bind_ok)%bind_ok)%bind_ok. intros r. simpl.
  unfold contributed. rewrite !elem_of_app, Hpk, Hpy, Har, !concat_app, !elem_of_app, !elem_of_groups, list_elem_of_fmap. simpl. rewrite !app_nil_r.
  setoid_rewrite elem_of_cons. setoid_rewrite elem_of_app. setoid_rewrite elem_of_app. naive_solver.
Qed.
Lemma candidate_contributions contract target tuple : validateTupleContributionsV1 view contract target tuple = Ok tt →
  (∀ b, b ∈ case_Bindings tuple → advertised target b) →
  ∃ references exports, candidateContributionsV1 view contract target tuple = Ok (references, exports) ∧
    ∀ reference, reference ∈ references ↔ contributed target tuple reference.
Proof.
  intros (selected & clis & [Hsel Hres Hcli Hexp _])%tuple_contributions Ha.
  destruct (contribute_bindings target (case_Bindings tuple) clis Ha Hcli) as (l & Hl & <- & Hfst & Hlr).
  apply is_ok_true in Hexp as [paths Hpaths]. unfold candidateContributionsV1. rewrite Hsel. simpl. rewrite Hl. simpl.
  unfold canonicalCandidateExportsV1. rewrite Hpaths. simpl.
  assert (for_each (λ reference, _ ← resolvedRecordV1 view reference; Ok tt) (packages selected ++ payloads selected ++ artifacts selected ++ map fst l) = Ok tt) as ->.
  { apply for_each_ok. intros r Hr. assert (resolves r) as (record & ->)%is_ok_true; [|done]. rewrite !app_assoc, elem_of_app, <-app_assoc in Hr.
    destruct Hr as [Hr|Hr]; [by apply Hres|by apply Hlr]. }
  simpl. eexists _, _. split; [done|]. intros r. rewrite elem_of_reference_union, Hfst. by apply selected_members.
Qed.

(** ** Fixture and profiles *)

Lemma match_fixture_spec wanted tuple references fixtures matched : Forall2 (stands as_fixture) references fixtures →
  (∀ fixture, fixture ∈ fixtures → keyed (normalizedFixtureTupleV1 fixture)) → NoDup (map normalizedFixtureTupleV1 fixtures) →
  supportTupleKeyV1 tuple = Ok wanted → (is_Some matched → tuple ∉ map normalizedFixtureTupleV1 fixtures) →
  match_fixture view wanted references matched =
    Reduced (match find_first (λ fixture, bool_decide (normalizedFixtureTupleV1 fixture = tuple)) fixtures with Some fixture => Some fixture | None => matched end).
Proof.
  intros H Hk Hn Hw. revert Hk Hn matched. induction H as [|reference fixture references fixtures Hf _ IH]; intros Hk Hn matched Hm; simpl; [done|].
  eapply resolved_as_ok in Hf. rewrite Hf. simpl. destruct (Hk fixture) as [key Hkey]; [by left|]. rewrite Hkey. simpl.
  apply NoDup_cons in Hn as [Hnew Hn]. assert (∀ f, f ∈ fixtures → keyed (normalizedFixtureTupleV1 f)) as Hk' by (intros f ?; apply Hk; by right).
  assert (key = wanted ↔ normalizedFixtureTupleV1 fixture = tuple) as Heq.
  { split; [intros ->; by eapply tuple_key_inj|intros E; rewrite E in Hkey; congruence]. }
  destruct (decide (key = wanted)) as [E|E]; [rewrite (bool_decide_true (key = wanted)) by done|rewrite (bool_decide_false (key = wanted)) by done]; simpl.
  - apply Heq in E as <-. rewrite bool_decide_false by (intros Hs; apply (Hm Hs); by left). simpl. rewrite IH; [|done..].
    rewrite (bool_decide_true (normalizedFixtureTupleV1 fixture = _)) by done. destruct (find_first _ fixtures) as [f|] eqn:Hff; [|done].
    exfalso. apply Hnew. apply find_first_Some in Hff as (l1 & l2 & -> & Hp & _). go_bool. rewrite <-Hp. apply list_elem_of_fmap. exists f.
    split; [done|]. apply elem_of_app. right. by left.
  - rewrite IH; [|done|done|intros Hs Hin; apply (Hm Hs); by right]. rewrite (bool_decide_false (normalizedFixtureTupleV1 fixture = _)); [done|tauto].
Qed.

Lemma mapM_total {A B} (f : A → result B) l : (∀ x, x ∈ l → ∃ y, f x = Ok y) → ∃ l', mapM f l = Ok l'.
Proof.
  induction l as [|x l IH]; intros H; simpl; [by eexists|]. destruct (H x) as [y ->]; [by left|]. simpl.
  destruct IH as [l' ->]; [intros z ?; apply H; by right|]. by eexists.
Qed.

Lemma validation_records contract target tuple : target_checked contract target → tuple ∈ SupportCases target →
  (∀ reference fixture, reference ∈ IntegrationFixtures target → stands as_fixture reference fixture → sorted_references (fixture_ValidationProfiles fixture)) →
  ∃ fixture profiles, candidateValidationRecordsV1 view target tuple = Reduced (fixture, profiles) ∧ normalizedFixtureTupleV1 fixture = tuple ∧
    Forall2 (stands as_profile) (fixture_ValidationProfiles fixture) profiles.
Proof.
  intros [Hcases (fixtures & Hf & [Hmatch Hkeys Hdist Hcover])] Hin Hsorted. destruct (Hcases tuple Hin) as [_ [wanted Hw] Hcon].
  unfold candidateValidationRecordsV1. rewrite Hw. simpl. rewrite (match_fixture_spec wanted tuple _ fixtures); [|done|exact Hkeys|done|done|by intros []]. simpl.
  destruct (find_first _ fixtures) as [fixture|] eqn:Hff.
  2: { apply find_first_None in Hff. destruct (Hcover tuple Hin) as (f & Hf' & Ht). rewrite Forall_forall in Hff. specialize (Hff f Hf'). by go_bool. }
  assert (fixture ∈ fixtures) as Hfix by (apply find_first_Some in Hff as (l1 & l2 & -> & _); apply elem_of_app; right; by left).
  apply find_first_Some in Hff as (_ & _ & _ & Ht & _). apply bool_decide_eq_true in Ht. subst tuple.
  pose proof (Hmatch fixture Hfix) as Hv. unfold validateFixtureAgainstTargetV1 in Hv.
  apply reject_if_bind in Hv as [_ [_ [_ [_ (k & _ & (ts & _ & (ks & _ & [_ (expected & Hexp & (own & Hown & Heq%reject_if_ok)%bind_ok)%bind_ok]%reject_if_bind)%bind_ok)%bind_ok)%bind_ok]%reject_if_bind]%reject_if_bind]%reject_if_bind].
  apply exact_union_sorted in Hown as ->.
  2: { destruct (Forall2_right _ _ _ _ Hf Hfix) as (reference & Hr & Hst). by eapply Hsorted. }
  unfold equalReferenceListsV1 in Heq. apply negb_false_iff, bool_decide_eq_true in Heq as ->. rewrite Hexp. simpl.
  unfold equalReferenceListsV1. rewrite bool_decide_true by done. simpl.
  apply tuple_contributions in Hcon as (selected & clis & [Hsel _ _ _ Hprof]).
  assert (profiles selected = fixture_ValidationProfiles fixture) as Hps.
  { unfold selectedContributionReferencesV1 in Hsel. apply bind_ok in Hsel as (pk & _ & (py & _ & (ar & _ & (pr & Hpr & [= <-])%bind_ok)%bind_ok)%bind_ok).
    simpl. unfold selectedProfileReferencesV1 in Hexp. congruence. }
  rewrite <-Hps. edestruct (mapM_total (resolved_as view as_profile "validation profile is not a profile record")) as [l Hl].
  { intros r (p & Hp)%Hprof. exists p. by apply resolved_as_ok. }
  rewrite Hl. simpl. exists fixture, l. split_and!; [done..|]. rewrite <-Hps. apply mapM_ok in Hl. eapply Forall2_impl; [exact Hl|]. intros r p H. by apply resolved_as_ok in H.
Qed.
End view.

(** ** Validated records *)

Lemma reference_list_sorted references : validateReferenceListV1 (Some references) = Ok tt → sorted_references references.
Proof.
  unfold validateReferenceListV1. intros [_ H]%reject_if_bind. apply Sorted_StronglySorted; [apply _|].
  apply (check_each_spec check_reference (λ r, validateRecordReferenceV1 r = Ok tt) by_id) in H as (_ & Hs & _); [done|].
  intros previous reference. unfold check_reference. rewrite bind_ok. setoid_rewrite reject_if_ok. destruct previous as [p|].
  - setoid_rewrite string_geb_lt. unfold by_id. split; [intros ([] & H1 & H2); split; [done|by intros y [= <-]]|intros [H1 H2]; exists tt; by auto].
  - split; [by intros ([] & H1 & _)|intros [H1 _]; by exists tt].
Qed.

Section ports.
Context (CanonicalSourceURLV1 : string → result string) (ParseNormalizedNamed : string → option (string * bool * bool)).

Definition records_valid (catalog : CatalogV1) : Prop := ∀ key record, records catalog !! key = Some record →
  validateLoadedRecordV1 CanonicalSourceURLV1 ParseNormalizedNamed record = Ok tt.

Lemma valid_fixture record fixture : validateLoadedRecordV1 CanonicalSourceURLV1 ParseNormalizedNamed record = Ok tt →
  record_Value record = IntegrationFixtureRecord fixture → sorted_references (fixture_ValidationProfiles fixture).
Proof.
  unfold validateLoadedRecordV1. intros ([] & _ & H)%bind_ok Hv. rewrite Hv in H. case_bool_decide; [by apply reject_if_bind in H as [_ H]|].
  revert H. unfold validate_fixture.
  intros [_ ([] & _ & [_ [_ [_ ([] & _ & [_ ([] & _ & ([] & _ & [_ ([] & _ & H)%bind_ok]%reject_if_bind)%bind_ok)%bind_ok]%reject_if_bind)%bind_ok]%reject_if_bind]%reject_if_bind]%reject_if_bind)%bind_ok]%reject_if_bind.
  apply bind_ok in H as ([] & H & _). by apply reference_list_sorted.
Qed.
Lemma valid_target record target : validateLoadedRecordV1 CanonicalSourceURLV1 ParseNormalizedNamed record = Ok tt →
  record_Value record = TargetRecord target → NoDup (SupportCases target).
Proof.
  unfold validateLoadedRecordV1. intros ([] & _ & H)%bind_ok Hv. rewrite Hv in H. case_bool_decide; [by apply reject_if_bind in H as [_ H]|].
  revert H. unfold validate_target. by intros [_ ([] & _ & ([] & _ & [_ ([] & [Hn _]%increasing_ok & _)%bind_ok]%reject_if_bind)%bind_ok)%bind_ok]%reject_if_bind.
Qed.

(** ** Releases of a loaded catalog *)

Section catalog.
Context (root : string) (catalog : CatalogV1).
Context (catalog_built : built root catalog) (catalog_valid : records_valid catalog) (catalog_loaded : validateLoadedCatalogV1 catalog = Ok tt).

(** A release that a tool of the catalog names. *)
Definition released (reference : RecordReferenceV1) : Prop := ∃ name key record tool,
  tools catalog !! name = Some key ∧ records catalog !! key = Some record ∧ record_Value record = ToolRecord tool ∧ reference ∈ Releases tool.

Lemma loaded_shallow : shallow catalog.
Proof using catalog_loaded.
  clear -catalog_loaded. unfold validateLoadedCatalogV1 in catalog_loaded. apply reject_if_bind in catalog_loaded as [_ ([] & H & _)%bind_ok].
  by apply reference_depth.
Qed.
Lemma released_graph reference : released reference → ∃ view manifest record,
  resolvedViewV1 catalog (reference_key reference) = Ok view ∧ records catalog !! reference_key reference = Some record ∧
  record_Value record = ReleaseManifest manifest ∧ validateManifestResolvedGraphV1 manifest view = Ok tt.
Proof using catalog_built catalog_loaded.
  intros (name & key & record & tool & Hname & Hkey & Hvalue & Hin).
  pose proof catalog_loaded as Hload. unfold validateLoadedCatalogV1 in Hload.
  apply reject_if_bind in Hload as [_ ([] & _ & ([] & _ & Hgraphs)%bind_ok)%bind_ok].
  unfold validateReleaseGraphsV1 in Hgraphs. rewrite for_each_ok in Hgraphs.
  assert (check_tool catalog name = Ok tt) as Htool.
  { apply Hgraphs. unfold Names. rewrite merge_sort_Permutation, list_elem_of_fmap. exists (name, key). split; [done|]. by apply elem_of_map_to_list. }
  unfold check_tool, tool_key in Htool. rewrite Hname in Htool. rewrite Hkey, Hvalue in Htool.
  apply bind_ok in Htool as (index & _ & ([] & _ & Hreleases)%bind_ok). rewrite for_each_ok in Hreleases.
  apply Hreleases in Hin as (view & Hview & (manifest & (mr & Hmr & Hm)%resolved_as_ok & Hgraph)%bind_ok)%bind_ok.
  exists view, manifest, mr. destruct (built_kept _ _ catalog_built) as [Hkeyed _ _].
  unfold resolvedRecordV1 in Hmr. destruct (view !! ref_ID reference) as [r|] eqn:Hr; [|done].
  apply reject_if_bind in Hmr as [Hid [= ->]]. apply orb_false_iff in Hid as [Hid Hdigest]. go_bool.
  apply (view_lookup catalog Hkeyed _ _ loaded_shallow Hview) in Hr as (k & _ & _ & Hk).
  assert (k = reference_key reference) as -> by (rewrite (Hkeyed _ _ Hk); unfold reference_key; by f_equal).
  split_and!; [done|done| |done]. unfold as_manifest in Hm. destruct (record_Value mr); try done. by injection Hm as ->.
Qed.
Lemma view_record view key id record : resolvedViewV1 catalog key = Ok view → view !! id = Some record → ∃ k, records catalog !! k = Some record.
Proof using catalog_built catalog_loaded.
  intros Hview Hr. destruct (built_kept _ _ catalog_built) as [Hkeyed _ _].
  apply (view_lookup catalog Hkeyed _ _ loaded_shallow Hview) in Hr as (k & _ & _ & Hk). by exists k.
Qed.
Lemma stands_record {A} (field : RecordV1 → option A) view key reference value : resolvedViewV1 catalog key = Ok view →
  stands view field reference value → ∃ record, field (record_Value record) = Some value ∧
    validateLoadedRecordV1 CanonicalSourceURLV1 ParseNormalizedNamed record = Ok tt.
Proof using catalog_built catalog_loaded catalog_valid.
  intros Hview (record & Hr & Hv). unfold resolvedRecordV1 in Hr. destruct (view !! ref_ID reference) as [r|] eqn:Hl; [|done].
  apply reject_if_bind in Hr as [_ [= ->]]. destruct (view_record _ _ _ _ Hview Hl) as [k Hk]. exists record. split; [done|]. by eapply catalog_valid.
Qed.

(** ** Reduction *)

Section reduction.
Context (group : CanonicalRequirementGroupV1) (observed : TargetIdentityV1) (client : ClientCapabilitiesV1) (active : list string).

(** The release of a manifest key answers the group: the client can use its
    contract, its target has the observed identity, and the group asks for one
    of the target's support cases. *)
Record qualifies (key : recordKeyV1) (view : resolved_view) (manifest : ReleaseManifestV1) (contract : ReleaseContractV1)
    (target : TargetRecordV1) (tuple : supportTupleV1) : Prop := {
  of_view : resolvedViewV1 catalog key = Ok view;
  of_manifest : ∃ record, records catalog !! key = Some record ∧ record_Value record = ReleaseManifest manifest;
  of_contract : stands view as_contract (manifest_Contract manifest) contract;
  of_client : verifyClientSatisfiesContractV1 contract client = Ok tt;
  of_target : ∃ reference, reference ∈ Targets manifest ∧ stands view as_target reference target;
  of_identity : target_Target target = observed;
  of_case : asked_case target group active tuple
}.
(** What the candidate holds then. *)
Record describes (view : resolved_view) (manifest : ReleaseManifestV1) (contract : ReleaseContractV1) (target : TargetRecordV1)
    (tuple : supportTupleV1) (candidate : ReleaseCandidateV1) : Prop := {
  holds_scope : candidate_Scope candidate = group_Scope group;
  holds_release : Manifest candidate = manifest ∧ Contract candidate = contract ∧ candidate_Target candidate = target;
  holds_case : Bindings candidate = case_Bindings tuple ∧ candidate_Selections candidate = case_Selections tuple;
  holds_fixture : normalizedFixtureTupleV1 (Fixture candidate) = tuple;
  holds_profiles : Forall2 (stands view as_profile) (fixture_ValidationProfiles (Fixture candidate)) (Profiles candidate);
  holds_contributions reference : reference ∈ Contributions candidate ↔ contributed target tuple reference
}.

Lemma qualifies_inj key view manifest contract view' manifest' contract' target target' tuple tuple' :
  qualifies key view manifest contract target tuple → qualifies key view' manifest' contract' target' tuple' →
  view' = view ∧ manifest' = manifest ∧ contract' = contract.
Proof.
  intros [Hv (r & Hr & Hm) Hc _ _ _ _] [Hv' (r' & Hr' & Hm') Hc' _ _ _ _]. assert (view' = view) as -> by congruence.
  assert (manifest' = manifest) as -> by congruence. split_and!; [done..|]. by eapply stands_inj.
Qed.

(** A target of the release that has the observed identity is the selected one. *)
Lemma selected_target view contract references targets reference target :
  release_targets view contract references targets → reference ∈ references → stands view as_target reference target →
  target_Target target = observed → find_first (λ t, bool_decide (target_Target t = observed)) targets = Some target.
Proof.
  intros (Hr & _ & Hn) (i & Hi)%list_elem_of_lookup Ht Ho. destruct (Forall2_lookup_l _ _ _ _ _ Hr Hi) as (t & Hti & Hst).
  assert (t = target) as -> by (by eapply stands_inj). apply list_elem_of_lookup_2 in Hti.
  destruct (find_first _ targets) as [t|] eqn:Hf.
  - apply find_first_Some in Hf as (l1 & l2 & -> & Hp & _). go_bool. f_equal. apply (NoDup_map_inj target_Target (l1 ++ t :: l2)); [done| |done|congruence].
    apply elem_of_app. right. by left.
  - apply find_first_None in Hf. rewrite Forall_forall in Hf. specialize (Hf _ Hti). by go_bool.
Qed.

(** The rest of the reduction, once the release is found: it cannot fail but by
    a rejection, and then the release does not qualify. *)
Lemma target_cases_distinct key view reference target : resolvedViewV1 catalog key = Ok view → stands view as_target reference target →
  NoDup (SupportCases target).
Proof using All.
  intros Hview Ht. destruct (stands_record _ _ _ _ _ Hview Ht) as (record & Hf & Hv). eapply valid_target; [exact Hv|].
  destruct (record_Value record); try done. by injection Hf as ->.
Qed.
Lemma fixture_profiles_sorted key view reference fixture : resolvedViewV1 catalog key = Ok view → stands view as_fixture reference fixture →
  sorted_references (fixture_ValidationProfiles fixture).
Proof using All.
  intros Hview Ht. destruct (stands_record _ _ _ _ _ Hview Ht) as (record & Hf & Hv). eapply valid_fixture; [exact Hv|].
  destruct (record_Value record); try done. by injection Hf as ->.
Qed.
Lemma reduce_case key view contract target tuple : resolvedViewV1 catalog key = Ok view → target_checked view contract target → tuple ∈ SupportCases target →
  validateTupleContributionsV1 view contract target tuple = Ok tt ∧
  (∃ references exports, candidateContributionsV1 view contract target tuple = Ok (references, exports) ∧
    ∀ reference, reference ∈ references ↔ contributed target tuple reference) ∧
  ∃ fixture profiles, candidateValidationRecordsV1 view target tuple = Reduced (fixture, profiles) ∧ normalizedFixtureTupleV1 fixture = tuple ∧
    Forall2 (stands view as_profile) (fixture_ValidationProfiles fixture) profiles.
Proof using All.
  intros Hview Hchecked Hin. pose proof Hchecked as [Hcases _]. destruct (Hcases tuple Hin) as [Hs _ Hcon]. split_and!; [done| |].
  - eapply candidate_contributions; [exact Hcon|]. intros b Hb. by apply (case_parts _ _ _ Hs).
  - eapply validation_records; [exact Hchecked|done|]. intros r f _. by eapply fixture_profiles_sorted.
Qed.

Lemma found_target view contract references targets target : release_targets view contract references targets →
  find_first (λ t, bool_decide (target_Target t = observed)) targets = Some target →
  target_checked view contract target ∧ target_Target target = observed ∧ ∃ reference, reference ∈ references ∧ stands view as_target reference target.
Proof.
  intros (Hr & Hc & _) (l1 & l2 & -> & Hp & _)%find_first_Some. assert (target ∈ l1 ++ target :: l2) as Hin by (apply elem_of_app; right; by left).
  rewrite Forall_forall in Hc. split_and!; [by apply Hc|by go_bool|]. by eapply Forall2_right.
Qed.

Lemma reduction_of reference : released reference →
  match reduceCandidateV1 catalog (reference_key reference) group observed client active with
  | Reduced candidate => ∃ view manifest contract target tuple,
      qualifies (reference_key reference) view manifest contract target tuple ∧ describes view manifest contract target tuple candidate
  | Rejected _ => ∀ view manifest contract target tuple, ¬ qualifies (reference_key reference) view manifest contract target tuple
  | _ => False
  end.
Proof using All.
  intros (view & manifest & record & Hview & Hrec & Hval & (contract & targets & Hcon & Htargets)%release_checked)%released_graph.
  unfold reduceCandidateV1. rewrite Hview. simpl. rewrite Hrec. simpl. rewrite Hval. simpl.
  pose proof Hcon as (cr & Hcr & Hcv). rewrite Hcr. simpl. unfold assert_type. rewrite Hcv. simpl.
  assert (∀ v m c t u, qualifies (reference_key reference) v m c t u → v = view ∧ m = manifest ∧ c = contract) as Hinj.
  { intros v m c t u [Hv (r' & Hr' & Hm') Hc' _ _ _ _]. assert (v = view) as -> by congruence. assert (m = manifest) as -> by congruence.
    split_and!; [done..|]. by eapply stands_inj. }
  assert (∀ v m c t u, qualifies (reference_key reference) v m c t u →
    find_first (λ t, bool_decide (target_Target t = observed)) targets = Some t ∧ verifyClientSatisfiesContractV1 contract client = Ok tt ∧
    asked_case t group active u ∧ target_checked view contract t) as Hq.
  { intros v m c t u Hq. destruct (Hinj _ _ _ _ _ Hq) as (-> & -> & ->). destruct Hq as [_ _ _ Hclient (ref & Href & Ht) Ho Hcase].
    assert (find_first (λ t, bool_decide (target_Target t = observed)) targets = Some t) as Hf by (by eapply selected_target).
    split_and!; [done..|]. by eapply found_target. }
  clear Hinj.
  destruct (verifyClientSatisfiesContractV1 contract client) as [[]|m] eqn:Hclient; simpl; [|by intros v m' c t u (_ & ? & _)%Hq].
  destruct (containsRecordValueV1 (Contexts contract) (Context_ group)) eqn:Hctx; simpl.
  2: { intros v m' c t u (_ & _ & (Hin & Hc & _) & [Hcases _])%Hq. destruct (Hcases u Hin) as [(Hu & _)%case_parts _ _].
       apply contains_record_value in Hu. congruence. }
  unfold selectExactTargetV1. pose proof Htargets as (Hr & Hchecked & Hn).
  rewrite (select_target_spec view (Targets manifest) targets); [|done..|by intros []]. simpl.
  destruct (find_first _ targets) as [target|] eqn:Hf; simpl; [|by intros v m' c t u (? & _)%Hq].
  assert (target_checked view contract target ∧ target_Target target = observed ∧ ∃ ref, ref ∈ Targets manifest ∧ stands view as_target ref target)
    as (Hok & Ho & ref & Href & Ht) by (by eapply found_target).
  pose proof (resolve_tuple view contract target group active Hok (target_cases_distinct _ _ _ _ Hview Ht)) as Htuple.
  destruct (resolveCandidateSupportTupleV1 contract target group active) as [tuple|m|m|]; simpl; [|by intros v m' c t u ([= <-] & _ & Hu & _)%Hq; eapply Htuple|done..].
  destruct (reduce_case _ view contract target tuple Hview Hok) as (-> & (refs & exps & -> & Hrefs) & fixture & profs & -> & Hfix & Hprofs); [by destruct Htuple|].
  simpl. exists view, manifest, contract, target, tuple. split; [|by constructor].
  constructor; [done|by exists record|done|done|by exists ref|done|done].
Qed.
End reduction.
End catalog.
End ports.
End schemes.
