(* ===== verification/ToolCandidatesProps.v ===== *)
(** * Selection of candidates in a loaded catalog

    Selecting from a catalog that loading accepts answers with exactly the
    releases that qualify, in the order in which they are enumerated, and never
    meets invalid definition data: the defensive checks and the type assertions
    of the reduction cannot fail. *)

From Stdlib Require Import Ascii.
From S2P Require Import Prelude GoText Canonical ToolRecords ToolCatalog ToolCatalogFacts ToolCatalogProps ToolVersions ToolSupport ToolSupportFacts ToolValidate ToolReleases ToolClaims ToolSolver ToolCandidates ToolCandidatesFacts.

Open Scope nat_scope.

(** ** The enumeration *)

Section schemes.
Context {schemes : VersionSchemes} (catalog : CatalogV1).

Lemma release_entries_from references entries : release_entries catalog references = Ok entries →
  ∀ entry, entry ∈ entries → ∃ reference, reference ∈ references ∧ entry_key entry = reference_key reference.
Proof.
  revert entries. induction references as [|reference references IH]; intros entries; simpl; [intros [= <-] ? ?%elem_of_nil; done|].
  destruct (records catalog !! reference_key reference) as [record|]; [|done]. destruct (record_Value record); try done.
  destruct (parse_uint _ 63) as [revision|]; [|done]. intros (rest & Hrest & [= <-])%bind_ok entry [->|He]%elem_of_cons.
  - exists reference. split; [by left|done].
  - destruct (IH _ Hrest entry He) as (r & Hr & Hk). exists r. split; [by right|done].
Qed.
Lemma intersection_from scheme requested releases l : intersect_releases scheme requested releases = Ok l → ∀ entry, entry ∈ l → entry ∈ releases.
Proof.
  revert l. induction releases as [|release releases IH]; intros l; simpl; [by intros [= <-]|].
  intros (b & _ & (others & Ho & [= <-])%bind_ok)%bind_ok entry. destruct b; [intros [->|He]%elem_of_cons; [by left|]|intros He]; right; by eapply IH.
Qed.
Lemma enumerated_released tool constraints revision keys : enumerateReleaseCandidatesV1 catalog tool constraints revision = Ok keys →
  ∀ key, key ∈ keys → ∃ reference, reference ∈ Releases tool ∧ key = reference_key reference.
Proof.
  unfold enumerateReleaseCandidatesV1.
  intros (releases & Hr & (demand & _ & H)%bind_ok)%bind_ok key. destruct demand as [cs rev].
  apply bind_ok in H as (requested & _ & [_ (l & Hl & [_ [= <-]]%reject_if_bind)%bind_ok]%reject_if_bind).
  rewrite list_elem_of_fmap. intros (entry & -> & He). rewrite merge_sort_Permutation in He.
  apply list_elem_of_In, filter_In in He as [He%list_elem_of_In _]. eapply intersection_from in He; [|exact Hl]. by eapply release_entries_from.
Qed.

(** The releases that the version demand of a group enumerates. *)
Definition enumerated (group : CanonicalRequirementGroupV1) (ordered : list recordKeyV1) : Prop := ∃ tool demand,
  group_tool catalog group = Reduced tool ∧ normalizedVersionDemandV1 tool (VersionConstraints group) (DefinitionRevision group) = Ok demand ∧
  enumerateReleaseCandidatesV1 catalog tool demand.1 demand.2 = Ok ordered.
Definition well_formed_request (group : CanonicalRequirementGroupV1) (observed : TargetIdentityV1) (active : list string) : Prop :=
  validateCanonicalRequirementGroupV1 group = Ok tt ∧ validateCanonicalBindingSetV1 active true = Ok tt ∧ validateTargetIdentityV1 observed = Ok tt.

Lemma group_tool_cases group : match group_tool catalog group with
  | Reduced tool => ∃ key record, tools catalog !! group_Tool group = Some key ∧ records catalog !! key = Some record ∧ record_Value record = ToolRecord tool
  | Rejected _ => True
  | _ => False
  end.
Proof.
  unfold group_tool. destruct (tools catalog !! group_Tool group) as [key|]; [|done]. destruct (records catalog !! key) as [record|] eqn:Hr; [|done].
  destruct (record_Value record) eqn:Hv; try done. by exists key, record.
Qed.
Lemma enumerated_group group ordered : enumerated group ordered → ∀ key, key ∈ ordered → ∃ reference, released catalog reference ∧ key = reference_key reference.
Proof.
  intros (tool & demand & Ht & _ & He) key Hkey. pose proof (group_tool_cases group) as H. rewrite Ht in H. destruct H as (k & record & Hk & Hr & Hv).
  destruct (enumerated_released _ _ _ _ He key Hkey) as (reference & Hin & ->). exists reference. split; [|done]. by exists (group_Tool group), k, record, tool.
Qed.

(** ** The candidates that survive *)

Section request.
Context (group : CanonicalRequirementGroupV1) (observed : TargetIdentityV1) (client : ClientCapabilitiesV1) (active : list string).

(** One candidate for each release that qualifies, in order. *)
Inductive survives : list recordKeyV1 → list ReleaseCandidateV1 → Prop :=
| survives_nil : survives [] []
| survives_kept key view manifest contract target tuple candidate keys candidates :
    qualifies catalog group observed client active key view manifest contract target tuple →
    describes group view manifest contract target tuple candidate →
    survives keys candidates → survives (key :: keys) (candidate :: candidates)
| survives_passed key keys candidates :
    (∀ view manifest contract target tuple, ¬ qualifies catalog group observed client active key view manifest contract target tuple) →
    survives keys candidates → survives (key :: keys) candidates.

Lemma survives_none keys : survives keys [] →
  ∀ key view manifest contract target tuple, key ∈ keys → ¬ qualifies catalog group observed client active key view manifest contract target tuple.
Proof.
  remember [] as none eqn:Hnone. induction 1; intros k v m c t u Hk; [by apply elem_of_nil in Hk|done|].
  apply elem_of_cons in Hk as [->|Hk]; [done|by apply IHsurvives].
Qed.

Definition reduces (keys : list recordKeyV1) : Prop := ∀ key, key ∈ keys →
  match reduceCandidateV1 catalog key group observed client active with
  | Reduced candidate => ∃ view manifest contract target tuple,
      qualifies catalog group observed client active key view manifest contract target tuple ∧ describes group view manifest contract target tuple candidate
  | Rejected _ => ∀ view manifest contract target tuple, ¬ qualifies catalog group observed client active key view manifest contract target tuple
  | _ => False
  end.
Lemma reduce_all_survives keys : reduces keys →
  ∃ candidates, reduce_all keys (λ key, reduceCandidateV1 catalog key group observed client active) = Reduced candidates ∧ survives keys candidates.
Proof.
  induction keys as [|key keys IH]; intros H; simpl; [exists []; by split; [|constructor]|].
  destruct IH as (candidates & Ha & Hs); [intros k ?; apply H; by right|].
  assert (key ∈ key :: keys) as Hkey by (by left). apply H in Hkey.
  destruct (reduceCandidateV1 catalog key group observed client active) as [candidate|m|m|]; [|by exists candidates; split; [|constructor]|done..].
  destruct Hkey as (v & mf & c & t & u & Hq & Hd). simpl. rewrite Ha. simpl. exists (candidate :: candidates). split; [done|]. by eapply survives_kept.
Qed.

Lemma select_outcome : (∀ reference, released catalog reference → reduces [reference_key reference]) →
  match SelectReleaseCandidatesV1 catalog group observed client active with
  | Reduced candidates => well_formed_request group observed active ∧ candidates ≠ [] ∧ ∃ ordered, enumerated group ordered ∧ survives ordered candidates
  | Rejected _ => well_formed_request group observed active → ∀ ordered, enumerated group ordered → survives ordered []
  | _ => False
  end.
Proof.
  intros H. unfold SelectReleaseCandidatesV1, well_formed_request.
  destruct (validateCanonicalRequirementGroupV1 group) as [[]|]; simpl; [|by intros (? & _)].
  destruct (validateCanonicalBindingSetV1 active true) as [[]|]; simpl; [|by intros (_ & ? & _)].
  destruct (validateTargetIdentityV1 observed) as [[]|]; simpl; [|by intros (_ & _ & ?)].
  pose proof (group_tool_cases group) as Hg. destruct (group_tool catalog group) as [tool|m|m|] eqn:Ht; simpl; [| |done..].
  2: { intros _ ordered (tool & demand & ? & _). congruence. }
  destruct (normalizedVersionDemandV1 tool _ _) as [demand|m] eqn:Hd; simpl.
  2: { intros _ ordered (tool' & demand & Ht' & Hd' & _). rewrite Ht in Ht'. injection Ht' as <-. congruence. }
  destruct (enumerateReleaseCandidatesV1 catalog tool demand.1 demand.2) as [ordered|m] eqn:He; simpl.
  2: { intros _ ordered (tool' & demand' & Ht' & Hd' & He'). rewrite Ht in Ht'. injection Ht' as <-. congruence. }
  assert (enumerated group ordered) as Hen by (by exists tool, demand).
  assert (∀ o, enumerated group o → o = ordered) as Huniq.
  { intros o (tool' & demand' & Ht' & Hd' & He'). rewrite Ht in Ht'. injection Ht' as <-. congruence. }
  assert (reduces ordered) as (candidates & Hall & Hs)%reduce_all_survives.
  { intros key Hk. destruct (enumerated_group _ _ Hen key Hk) as (reference & Hr & ->). by apply (H reference Hr), list_elem_of_singleton. }
  rewrite Hall. destruct ordered as [|key ordered]; simpl.
  { intros _ o ->%Huniq. constructor. }
  destruct candidates as [|candidate candidates]; simpl.
  - intros _ o ->%Huniq. done.
  - split_and!; [done..|]. by exists (key :: ordered).
Qed.
End request.
End schemes.

(** ** A catalog with two releases *)

Definition sha (digit : string) : string := "sha256:" +:+ String.concat "" (repeat digit 64).
Definition base_identity : TargetIdentityV1 := {|
  identity_Platform := "linux/amd64"; OSReleaseID := "debian"; VersionID := "12"; OCIArchitecture := "amd64"; NativeArchitecture := "amd64";
  identity_PackageManager := "apt" |}.
Section native.
Context (version reploy digit : string).
Definition release_id (part : string) : string := "tool:go/releases/" +:+ version +:+ "/" +:+ part.
Definition native_reference (part : string) : RecordReferenceV1 := MakeReference (release_id part) (sha digit).
Definition native_profile : ValidationProfileRecordV1 := {|
  profile_Schema := ValidationProfileSchemaV1; profile_ID := release_id "validation/profiles/version"; profile_Tool := "go"; profile_Version := version;
  Probes := [{| probe_Path := "/usr/bin/go"; probe_Args := ["version"] |}] |}.
Definition native_packages : NativePackageSetV1 := {|
  ps_Schema := NativePackageSetSchemaV1; ps_ID := release_id "package-sets/golang"; Manager := "apt"; ps_Requirements := ["golang"]; Repositories := [];
  ValidationMetadata := [] |}.
Definition native_fixture : IntegrationFixtureRecordV1 := {|
  fixture_Schema := IntegrationFixtureSchemaV1; fixture_ID := release_id "validation/fixtures/debian"; fixture_Name := "debian";
  fixture_Target := base_identity; BaseImage := "debian:12"; BaseImageDigest := sha "d"; fixture_Context := "runtime"; fixture_Bindings := [];
  fixture_Selections := ∅; fixture_ValidationProfiles := [native_reference "validation/profiles/version"] |}.
Definition native_target : TargetRecordV1 := {|
  target_Schema := TargetRecordSchemaV1; target_ID := release_id "targets/debian/12/amd64"; target_Target := base_identity;
  SupportCases := [MakeTuple "runtime" [] ∅]; target_PackageSets := [native_reference "package-sets/golang"]; target_Bindings := [];
  target_Payloads := []; target_Selections := []; target_Exports := [MakeExport "go" "/usr/bin/go"];
  IntegrationFixtures := [native_reference "validation/fixtures/debian"];
  target_ValidationProfiles := [native_reference "validation/profiles/version"] |}.
Definition native_contract : ReleaseContractV1 := {|
  contract_Schema := ReleaseContractSchemaV1; contract_ID := release_id "contract"; Contexts := ["runtime"]; SupportedReploy := ">=" +:+ reploy;
  Binding := {| Options := [] |}; Selections := {| Dimensions := []; Combinations := [] |}; Runtime := None; contract_Exports := [];
  ResolverPrimitives := ["apt"]; CompatibilityConstraints := [] |}.
Definition native_manifest : ReleaseManifestV1 := {|
  manifest_Schema := ReleaseManifestSchemaV1; manifest_ID := release_id "revisions/1/manifest"; Tool := "go"; Version := version; Aliases := [];
  Revision := "1"; manifest_Contract := native_reference "contract"; Targets := [native_reference "targets/debian/12/amd64"];
  ArtifactSources := []; manifest_Provenance := []; manifest_ValidationProfiles := [native_reference "validation/profiles/version"] |}.
Definition native_entry (part schema : string) (value : RecordV1) : loadedRecordV1 * string :=
  (small_entry (release_id part) schema (sha digit) value, "tools/go/" +:+ version +:+ "/" +:+ part).
Definition native_entries : list (loadedRecordV1 * string) :=
  [native_entry "revisions/1/manifest" ReleaseManifestSchemaV1 (ReleaseManifest native_manifest);
   native_entry "contract" ReleaseContractSchemaV1 (ReleaseContract native_contract);
   native_entry "targets/debian/12/amd64" TargetRecordSchemaV1 (TargetRecord native_target);
   native_entry "validation/fixtures/debian" IntegrationFixtureSchemaV1 (IntegrationFixtureRecord native_fixture);
   native_entry "validation/profiles/version" ValidationProfileSchemaV1 (ValidationProfileRecord native_profile);
   native_entry "package-sets/golang" NativePackageSetSchemaV1 (NativePackageSet native_packages)].
End native.
Definition native_tool : ToolRecordV1 := {|
  tool_Schema := ToolRecordSchemaV1; tool_ID := "tool:go"; tool_Name := "go"; VersionScheme := "semver"; DefaultVersion := "";
  Summary := "The Go toolchain"; Upstream := "https://go.dev/"; tool_Source := "https://go.dev/src"; License := "BSD-3-Clause";
  Documentation := "https://go.dev/doc"; Releases := [native_reference "1" "1" "revisions/1/manifest"; native_reference "2" "2" "revisions/1/manifest"] |}.
(** Version 2 needs a newer client than version 1. *)
Definition native_records : list (loadedRecordV1 * string) :=
  (small_entry "tool:go" ToolRecordSchemaV1 (sha "a") (ToolRecord native_tool), "tools/go/tool.json")
  :: native_entries "1" "1" "1" ++ native_entries "2" "9" "2".
Definition native_catalog : CatalogV1 :=
  match place_all "tools" empty_catalog native_records with Ok catalog => catalog | Err _ => empty_catalog end.
Definition canonical_url (raw : string) : result string := Ok raw.
Definition parse_image (raw : string) : option (string * bool * bool) := Some (raw, true, false).
Definition native_group : CanonicalRequirementGroupV1 := {|
  group_Scope := "application:web"; group_Tool := "go"; VersionConstraints := [">=1"]; DefinitionRevision := "";
  Context_ := "runtime"; group_Binding := {| All := false; Infer := true; Explicit := [] |}; group_Selections := ∅ |}.
Definition native_client : ClientCapabilitiesV1 := {| ReployVersion := "3"; client_ResolverPrimitives := ["apt"] |}.
Definition all_valid (catalog : CatalogV1) : bool :=
  forallb (λ entry, is_ok (validateLoadedRecordV1 (schemes := dotted_schemes) canonical_url parse_image entry.2)) (map_to_list (records catalog)).
Example native_checks :
  size (records native_catalog) = 13%nat ∧ all_valid native_catalog = true ∧ validateLoadedCatalogV1 (schemes := dotted_schemes) native_catalog = Ok tt ∧
  match SelectReleaseCandidatesV1 (schemes := dotted_schemes) native_catalog native_group base_identity native_client [] with
  | Reduced [candidate] => Version (Manifest candidate) = "1"
  | _ => False
  end.
Proof. vm_compute. split_and!; done. Qed.

Lemma kept_ok {A} (r : result A) (other : A) : is_ok r = true → r = Ok (match r with Ok value => value | Err _ => other end).
Proof. by destruct r. Qed.
Lemma native_built : built "tools" native_catalog.
Proof.
  apply (place_all_built "tools" empty_catalog native_records); [constructor| |apply kept_ok; by vm_compute].
  assert (forallb (λ entry, bool_decide (newPortableToolRecordValueV1 (record_Schema entry.1) = Some (kind_of (record_Value entry.1)))) native_records = true)
    as H by (by vm_compute).
  apply Forall_bool in H. eapply Forall_impl; [exact H|]. intros entry. apply bool_decide_eq_true.
Qed.
Lemma native_valid : records_valid (schemes := dotted_schemes) canonical_url parse_image native_catalog.
Proof.
  destruct native_checks as (_ & H & _). intros key record Hr. unfold all_valid in H.
  apply Forall_bool in H. rewrite Forall_forall in H. apply is_ok_unit. apply (H (key, record)). by apply elem_of_map_to_list.
Qed.

(** ** Selection *)

(** C23: Selecting candidates from a catalog that loading accepts never meets
    invalid definition data and never panics.  When it answers, the request is
    well formed and the answer is nonempty and holds one candidate for every
    release of the enumeration that qualifies, in that order, with exactly what
    its support case contributes; when it refuses a well-formed request, no
    release of the enumeration qualifies. *)
Theorem SelectReleaseCandidatesV1_spec {schemes : VersionSchemes} CanonicalSourceURLV1 ParseNormalizedNamed root catalog
    group observed client active :
  built root catalog → records_valid CanonicalSourceURLV1 ParseNormalizedNamed catalog → validateLoadedCatalogV1 catalog = Ok tt →
  match SelectReleaseCandidatesV1 catalog group observed client active with
  | Reduced candidates => well_formed_request group observed active ∧ candidates ≠ [] ∧
      ∃ ordered, enumerated catalog group ordered ∧ survives catalog group observed client active ordered candidates
  | Rejected _ => well_formed_request group observed active →
      ∀ ordered, enumerated catalog group ordered → survives catalog group observed client active ordered []
  | InvalidDefinition _ | Panics => False
  end.
Proof.
  intros Hb Hv Hl. apply select_outcome. intros reference Hr key ->%list_elem_of_singleton. by eapply reduction_of.
Qed.
Lemma SelectReleaseCandidatesV1_spec_witness :
  ∃ candidate ordered, SelectReleaseCandidatesV1 (schemes := dotted_schemes) native_catalog native_group base_identity native_client [] = Reduced [candidate] ∧
    Version (Manifest candidate) = "1" ∧ enumerated (schemes := dotted_schemes) native_catalog native_group ordered ∧
    survives (schemes := dotted_schemes) native_catalog native_group base_identity native_client [] ordered [candidate].
Proof.
  destruct native_checks as (_ & _ & Hl & Hs).
  pose proof (SelectReleaseCandidatesV1_spec (schemes := dotted_schemes) canonical_url parse_image "tools" native_catalog
    native_group base_identity native_client [] native_built native_valid Hl) as H. revert H Hs.
  generalize (SelectReleaseCandidatesV1 (schemes := dotted_schemes) native_catalog native_group base_identity native_client []) as outcome.
  intros [[|candidate [|other rest]]|m|m|]; try (intros; contradiction).
  intros (_ & _ & ordered & He & Hsurvive) Hversion. exists candidate, ordered. split_and!; [reflexivity|exact Hversion|exact He|exact Hsurvive].
Defined.
