(* ===== verification/ToolVersionsFacts.v ===== *)
(** * The releases that a demand names

    The order of the enumeration, the meaning of a compact revision, and what the
    release index of a loaded catalog adds: a token names one version, and a
    version with a revision one release. *)

From Stdlib Require Import Ascii.
From S2P Require Import Prelude GoText Contributions ToolRecords ToolRecordsFacts ToolCatalog ToolCatalogFacts ToolCatalogProps ToolVersions ToolSupport ToolSupportFacts RecordValidate ToolValidate ToolReleases ToolClaims ToolCandidates ToolCandidatesFacts ToolCandidatesProps.

Open Scope Z_scope.

(** ** The last separator of a text *)

Lemma text_inj s t : bytes s = bytes t → s = t.
Proof. intros H. by rewrite <-(string_of_bytes s), <-(string_of_bytes t), H. Qed.
Lemma bytes_reverse s : bytes (reverse s) = rev (bytes s).
Proof. unfold reverse. apply bytes_of_list. Qed.
Lemma reverse_reverse s : reverse (reverse s) = s.
Proof. apply text_inj. by rewrite !bytes_reverse, rev_involutive. Qed.
Lemma contains_byte_reverse s b : contains_byte s b = false → contains_byte (reverse s) b = false.
Proof. rewrite !contains_byte_false, bytes_reverse, !list_elem_of_In, <-in_rev. done. Qed.
Lemma cut_byte_found before sep after : contains_byte before sep = false → cut_byte (before +:+ String sep after) sep = Some (before, after).
Proof.
  induction before as [|c before IH]; simpl; [by rewrite bool_decide_true|]. intros [Hc H]%orb_false_iff. rewrite Hc. by rewrite IH.
Qed.
Lemma cut_byte_absent s sep : contains_byte s sep = false → cut_byte s sep = None.
Proof. induction s as [|c s IH]; simpl; [done|]. intros [-> H]%orb_false_iff. by rewrite IH. Qed.
Lemma cut_last_found before sep after : contains_byte after sep = false → cut_last (before +:+ String sep after) sep = Some (before, after).
Proof.
  intros H. unfold cut_last. assert (reverse (before +:+ String sep after) = reverse after +:+ String sep (reverse before)) as ->.
  { apply text_inj. rewrite bytes_reverse, !bytes_app. change (bytes (String sep after)) with (sep :: bytes after).
    change (bytes (String sep (reverse before))) with (sep :: bytes (reverse before)). rewrite !bytes_reverse, rev_app_distr. simpl. by rewrite <-app_assoc. }
  rewrite cut_byte_found by (by apply contains_byte_reverse). by rewrite !reverse_reverse.
Qed.
Lemma cut_last_absent s sep : contains_byte s sep = false → cut_last s sep = None.
Proof. intros H. unfold cut_last. by rewrite cut_byte_absent by (by apply contains_byte_reverse). Qed.
Lemma decimal_without value positive sep : validateCanonicalDecimalV1 value positive = Ok tt → is_digit sep = false → contains_byte value sep = false.
Proof.
  unfold validateCanonicalDecimalV1. intros [Hp _]%reject_if_bind Hs. apply negb_false_iff, canonical_pattern in Hp as [_ Hd].
  induction value as [|c value IH]; simpl in *; [done|]. apply andb_true_iff in Hd as [Hc Hd]. rewrite IH by done. rewrite orb_false_r.
  apply bool_decide_false. intros ->. congruence.
Qed.

(** A module whose comparison is a total preorder. *)
Class LawfulVersions (library : VersionLibrary) := {
  compare_flip (a b : @version library) : 0 ≤ Compare b a ↔ Compare a b ≤ 0;
  compare_through (a b c : @version library) : 0 ≤ Compare a b → 0 ≤ Compare b c → 0 ≤ Compare a c
}.

Section schemes.
Context {schemes : VersionSchemes}.

(** ** The index of a tool *)

Definition tokens (manifest : ReleaseManifestV1) : list string := Version manifest :: Aliases manifest.
Definition one_version (manifests : list ReleaseManifestV1) : Prop := ∀ m m' token,
  m ∈ manifests → m' ∈ manifests → token ∈ tokens m → token ∈ tokens m' → Version m = Version m'.

Lemma coordinates version l : ∀ table table', carry (add_coordinate version) table l = Ok table' →
  table ⊆ table' ∧ ∀ token, token ∈ l → table' !! token = Some version.
Proof.
  induction l as [|t l IH]; intros table table'; simpl; [intros [= <-]; split; [done|by intros ? ?%elem_of_nil]|].
  unfold add_coordinate at 1. intros (table1 & [Hc [= <-]]%reject_if_bind & [Hsub Hl]%IH)%bind_ok.
  assert (<[t := version]> table !! t = Some version) as Ht by (by rewrite lookup_insert_eq). split.
  - etrans; [|exact Hsub]. destruct (table !! t) as [v|] eqn:Hv; [|by apply insert_subseteq]. go_bool. rewrite insert_id by congruence. reflexivity.
  - intros token [->|Htok]%elem_of_cons; [|by apply Hl]. by eapply lookup_weaken.
Qed.
Definition indexed (tool : ToolRecordV1) (done_ : list ReleaseManifestV1) (state : gmap string string * gset string) : Prop := ∀ m, m ∈ done_ →
  Tool m = tool_Name tool ∧ validateToolVersionV1 (VersionScheme tool) (Version m) = Ok tt ∧ ∀ token, token ∈ tokens m → state.1 !! token = Some (Version m).
Lemma index_step tool done_ m state state' : indexed tool done_ state → index_manifest tool state m = Ok state' → indexed tool (done_ ++ [m]) state'.
Proof.
  intros Hi [Ht ([] & Hv%wrap_ok & ([] & _ & (table & [Hsub Hl]%coordinates & [= <-])%bind_ok)%bind_ok)%bind_ok]%reject_if_bind.
  intros m' [Hm| ->%list_elem_of_singleton]%elem_of_app; simpl.
  - destruct (Hi m' Hm) as (? & ? & Hold). split_and!; [done..|]. intros token Htok. by eapply lookup_weaken; [apply Hold|].
  - split_and!; [by go_bool|done|exact Hl].
Qed.
Lemma release_index tool manifests : validateToolReleaseManifestsV1 tool manifests = Ok tt →
  one_version manifests ∧ ∀ m, m ∈ manifests → Tool m = tool_Name tool ∧ validateToolVersionV1 (VersionScheme tool) (Version m) = Ok tt.
Proof.
  intros (state & Hs & _)%bind_ok. eapply (carry_invariant _ (indexed tool)) in Hs; [|intros ? ? ? ?; apply index_step|by intros ? ?%elem_of_nil].
  split; [|intros m (? & ? & _)%Hs; done]. intros m m' token (_ & _ & Hm)%Hs (_ & _ & Hm')%Hs Ht%Hm Ht'%Hm'. congruence.
Qed.

(** The manifests of the index are those of the releases. *)
Section catalog.
Context (catalog : CatalogV1) (keyed : well_keyed catalog).

Lemma index_records references : ∀ view view', (∀ id r, view !! id = Some r → ∃ k, records catalog !! k = Some r) →
  index_view catalog references view = Ok view' → ∀ id r, view' !! id = Some r → ∃ k, records catalog !! k = Some r.
Proof using Type.
  induction references as [|reference references IH]; intros view view' Hv; simpl; [by intros [= <-]|].
  destruct (records catalog !! reference_key reference) as [record|] eqn:Hr; [|done]. intros [_ H]%reject_if_bind. eapply IH; [|exact H].
  intros id r. rewrite lookup_insert_Some. intros [[_ <-]|[_ Hid]]; [by eexists|by eapply Hv].
Qed.
Lemma release_manifests references entries : release_entries catalog references = Ok entries →
  Forall2 (λ reference entry, entry_key entry = reference_key reference ∧ ∃ record, records catalog !! reference_key reference = Some record ∧
    record_Value record = ReleaseManifest (entry_manifest entry) ∧ parse_uint (Revision (entry_manifest entry)) 63 = Some (entry_revision entry)) references entries.
Proof using Type.
  revert entries. induction references as [|reference references IH]; intros entries; simpl; [intros [= <-]; constructor|].
  destruct (records catalog !! reference_key reference) as [record|] eqn:Hr; [|done]. destruct (record_Value record) eqn:Hv; try done.
  destruct (parse_uint _ 63) as [revision|] eqn:Hrev; [|done]. intros (rest & Hrest & [= <-])%bind_ok. constructor; [|by apply IH].
  split; [done|]. exists record. by rewrite Hv.
Qed.
Lemma index_manifests tool toolRecord toolKey index manifests entries :
  records catalog !! toolKey = Some toolRecord → releaseIndexViewV1 catalog toolRecord toolKey tool = Ok index →
  mapM (resolved_as index as_manifest "tool release index reference resolves to a non-manifest record") (Releases tool) = Ok manifests →
  toolReleasesV1 catalog tool = Ok entries → manifests = map entry_manifest entries.
Proof using keyed.
  intros Htool Hindex Hm%mapM_ok He%release_manifests.
  assert (∀ id r, index !! id = Some r → records catalog !! ((record_ID r, record_Digest r) : recordKeyV1) = Some r) as Hrec.
  { intros id r Hr. eapply index_records in Hr as [k Hk]; [|clear Hr|exact Hindex]; [by rewrite <-(keyed _ _ Hk)|].
    intros id' r'. rewrite lookup_singleton_Some. intros [_ <-]. by eexists. }
  clear Hindex. unfold toolReleasesV1 in He. revert entries He. generalize dependent (Releases tool). intros references Hm.
  induction Hm as [|reference manifest references manifests Hm _ IH]; intros entries He; [by apply Forall2_nil_inv_l in He as ->|].
  apply Forall2_cons_inv_l in He as (entry & entries' & (_ & record & Hr & Hv & _) & He & ->). simpl. f_equal; [|by apply IH].
  apply resolved_as_ok in Hm as (record' & Hr' & Hm). unfold resolvedRecordV1 in Hr'. destruct (index !! ref_ID reference) as [r|] eqn:Hl; [|done].
  apply reject_if_bind in Hr' as [Hid [= ->]]. apply orb_false_iff in Hid as [Hid Hdigest]. go_bool. apply Hrec in Hl.
  assert ((record_ID record', record_Digest record') = reference_key reference) as E by (unfold reference_key; by f_equal).
  rewrite E, Hr in Hl. assert (record' = record) as -> by congruence. rewrite Hv in Hm. by injection Hm.
Qed.
End catalog.

(** ** Newest first *)

Section order.
Context {semver_lawful : LawfulVersions semver} {pep440_lawful : LawfulVersions pep440} (scheme : string).
Implicit Types l r : releaseEntryV1.

Lemma string_compare_flip a b : 0 ≤ string_compare b a ↔ string_compare a b ≤ 0.
Proof using Type. unfold string_compare. rewrite (String.compare_antisym b a). destruct (String.compare a b); simpl; lia. Qed.
Lemma parsed_flip (library : VersionLibrary) `{!LawfulVersions library} a b : 0 ≤ compare_parsed library b a ↔ compare_parsed library a b ≤ 0.
Proof using Type. unfold compare_parsed. destruct (Parse a), (Parse b); first [apply compare_flip|apply string_compare_flip]. Qed.
Lemma parse_format_uint63 n : 0 ≤ n < 2 ^ 63 → parse_uint (format_uint n) 63 = Some n.
Proof using Type.
  intros Hn. unfold parse_uint. pose proof (format_canonical n (proj1 Hn)) as (c & rest & Heq & _). rewrite Heq, <-Heq, parse_format_uint by lia.
  by rewrite (proj2 (Z.ltb_lt _ _)) by lia.
Qed.
Lemma versions_flip a b : 0 ≤ compareToolVersionsV1 scheme b a ↔ compareToolVersionsV1 scheme a b ≤ 0.
Proof using All.
  unfold compareToolVersionsV1. case_bool_decide; [by apply parsed_flip|]. case_bool_decide; [by apply parsed_flip|]. case_bool_decide; [|done].
  destruct (parse_uint a 63), (parse_uint b 63); try apply string_compare_flip. repeat case_match; lia.
Qed.

Lemma canonical_parses (library : VersionLibrary) value : canonical_text library value = true → is_Some (Parse value).
Proof using Type. unfold canonical_text. by destruct (Parse value). Qed.
Lemma versions_through a b c : validateToolVersionV1 scheme a = Ok tt → validateToolVersionV1 scheme b = Ok tt → validateToolVersionV1 scheme c = Ok tt →
  0 ≤ compareToolVersionsV1 scheme a b → 0 ≤ compareToolVersionsV1 scheme b c → 0 ≤ compareToolVersionsV1 scheme a c.
Proof using All.
  unfold validateToolVersionV1, compareToolVersionsV1, compare_parsed.
  do 2 (case_bool_decide; [rewrite !reject_if_ok, !negb_false_iff;
    intros [? ->]%canonical_parses [? ->]%canonical_parses [? ->]%canonical_parses; apply compare_through|]).
  case_bool_decide; [|done]. intros (n & Hn & -> & _)%validate_decimal (m & Hm & -> & _)%validate_decimal (k & Hk & -> & _)%validate_decimal.
  rewrite !parse_format_uint63 by lia. repeat case_match; lia.
Qed.

(** A release is not older than another. *)
Definition not_older l r : Prop :=
  0 ≤ compareToolVersionsV1 scheme (Version (entry_manifest l)) (Version (entry_manifest r)) ∧
  (compareToolVersionsV1 scheme (Version (entry_manifest l)) (Version (entry_manifest r)) ≤ 0 → entry_revision r ≤ entry_revision l).
Lemma release_le_not_older l r : release_le scheme l r ↔ not_older l r.
Proof using All.
  unfold release_le, release_less, not_older. pose proof (versions_flip (Version (entry_manifest l)) (Version (entry_manifest r))) as Hf. case_bool_decide as E.
  - rewrite E in *. simpl. rewrite Z.ltb_ge. lia.
  - destruct (compareToolVersionsV1 scheme (Version (entry_manifest r)) (Version (entry_manifest l)) =? 0) eqn:Hz; simpl.
    + rewrite Z.ltb_ge. pose proof (versions_flip (Version (entry_manifest r)) (Version (entry_manifest l))). lia.
    + rewrite Z.ltb_ge. pose proof (versions_flip (Version (entry_manifest r)) (Version (entry_manifest l))). lia.
Qed.
#[local] Instance release_le_total : Total (release_le scheme).
Proof using All.
  intros l r. rewrite !release_le_not_older. unfold not_older.
  pose proof (versions_flip (Version (entry_manifest l)) (Version (entry_manifest r))). pose proof (versions_flip (Version (entry_manifest r)) (Version (entry_manifest l))). lia.
Qed.
Lemma not_older_through a b c : validateToolVersionV1 scheme (Version (entry_manifest a)) = Ok tt →
  validateToolVersionV1 scheme (Version (entry_manifest b)) = Ok tt → validateToolVersionV1 scheme (Version (entry_manifest c)) = Ok tt →
  not_older a b → not_older b c → not_older a c.
Proof using All.
  intros Ha Hb Hc [H1 R1] [H2 R2]. split; [by apply (versions_through _ (Version (entry_manifest b)))|]. intros H3.
  pose proof (versions_through _ _ _ Hb Hc Ha H2 (proj2 (versions_flip _ _) H3)) as H4.
  pose proof (versions_through _ _ _ Hc Ha Hb (proj2 (versions_flip _ _) H3) H1) as H5.
  pose proof (proj1 (versions_flip _ _) H4). pose proof (proj1 (versions_flip _ _) H5). specialize (R1 ltac:(lia)). specialize (R2 ltac:(lia)). lia.
Qed.
End order.

(** ** What the enumeration holds *)

Definition normalized_demand (tool : ToolRecordV1) (releases : list releaseEntryV1) (constraints : list string) (revision : string) : result (list string * string) :=
  if bool_decide (VersionScheme tool = "opaque") then Ok (constraints, revision) else normalizeCompactRevisionDemandV1 releases constraints revision.
(** A release meets every constraint; without one it is a stable release. *)
Definition meets_constraints (scheme : string) (releases : list releaseEntryV1) (constraints : list string) (entry : releaseEntryV1) : Prop :=
  (constraints = [] → isPrereleaseVersionV1 scheme (Version (entry_manifest entry)) = Ok false) ∧
  ∀ constraint, constraint ∈ constraints → release_satisfies scheme entry (classifyRequestedVersionV1 releases constraint) = Ok true.
Definition has_revision (revision : string) (entry : releaseEntryV1) : Prop := revision = "" ∨ Revision (entry_manifest entry) = revision.

Lemma classify_all_ok scheme releases constraints requested : classify_all scheme releases constraints = Ok requested →
  requested = map (classifyRequestedVersionV1 releases) constraints.
Proof.
  revert requested. induction constraints as [|c constraints IH]; intros requested; simpl; [by intros [= <-]|].
  intros ([] & _ & (rest & ->%IH & [= <-])%bind_ok)%bind_ok. done.
Qed.
Lemma satisfies_all_ok scheme entry requested b : satisfies_all scheme entry requested = Ok b →
  b = true ↔ ∀ r, r ∈ requested → release_satisfies scheme entry r = Ok true.
Proof.
  revert b. induction requested as [|r requested IH]; intros b; simpl; [intros [= <-]; split; [by intros _ ? ?%elem_of_nil|done]|].
  intros ([] & Hr & H)%bind_ok.
  - rewrite (IH b H). split; [intros Hall r' [->|Hin]%elem_of_cons; [done|by apply Hall]|intros Hall r' Hin; apply Hall; by right].
  - injection H as <-. split; [done|]. intros Hall. specialize (Hall r ltac:(by left)). congruence.
Qed.
Lemma satisfies_demand_ok scheme releases constraints entry b :
  satisfies_demand scheme (map (classifyRequestedVersionV1 releases) constraints) entry = Ok b → b = true ↔ meets_constraints scheme releases constraints entry.
Proof.
  unfold satisfies_demand, meets_constraints. destruct constraints as [|c constraints]; simpl.
  - unfold release_satisfies, releaseSatisfiesConstraintV1. simpl. intros (pre & -> & [= <-])%bind_ok. rewrite negb_true_iff. split; [intros ->; split; [done|by intros ? ?%elem_of_nil]|].
    intros [H _]. by injection (H eq_refl).
  - intros H%(satisfies_all_ok scheme entry (map (classifyRequestedVersionV1 releases) (c :: constraints))). rewrite H. split.
    + intros Hall. split; [done|]. intros c' Hc. apply Hall, list_elem_of_fmap. by exists c'.
    + intros [_ Hall] r (c' & -> & Hc)%list_elem_of_fmap. by apply Hall.
Qed.
Lemma intersection_ok scheme all constraints releases l :
  intersect_releases scheme (map (classifyRequestedVersionV1 all) constraints) releases = Ok l →
  sublist l releases ∧ ∀ entry, entry ∈ l ↔ entry ∈ releases ∧ meets_constraints scheme all constraints entry.
Proof.
  revert l. induction releases as [|release releases IH]; intros l; simpl; [intros [= <-]; split; [constructor|]; intros e; rewrite elem_of_nil; tauto|].
  intros (b & Hb%satisfies_demand_ok & (others & [Hsub Ho]%IH & [= <-])%bind_ok)%bind_ok. destruct b.
  - split; [by constructor|]. intros e. rewrite !elem_of_cons, Ho. split; [intros [->|[? ?]]; [split; [by left|by apply Hb]|by split; [right|]]|].
    intros [[->|Hin] Hm]; [by left|by right].
  - split; [by constructor|]. intros e. rewrite elem_of_cons, Ho. split; [intros [? ?]; by split; [right|]|].
    intros [[->|Hin] Hm]; [apply Hb in Hm; done|done].
Qed.
Lemma enumeration catalog tool constraints revision keys : enumerateReleaseCandidatesV1 catalog tool constraints revision = Ok keys →
  ∃ releases cs rev l, toolReleasesV1 catalog tool = Ok releases ∧ normalized_demand tool releases constraints revision = Ok (cs, rev) ∧
    keys = map entry_key (merge_sort (release_le (VersionScheme tool)) l) ∧ sublist l releases ∧
    (∀ entry, entry ∈ l ↔ entry ∈ releases ∧ meets_constraints (VersionScheme tool) releases cs entry ∧ has_revision rev entry) ∧
    (rev ≠ "" → ∃ c, c ∈ cs ∧ Exact (classifyRequestedVersionV1 releases c) = true).
Proof.
  unfold enumerateReleaseCandidatesV1. fold (normalized_demand tool).
  intros (releases & Hr & ([cs rev] & Hd & H)%bind_ok)%bind_ok.
  apply bind_ok in H as (requested & ->%classify_all_ok & [Hex (l & [Hsub Hl]%intersection_ok & [_ [= <-]]%reject_if_bind)%bind_ok]%reject_if_bind).
  exists releases, cs, rev, (List.filter (pinned rev) l). split_and!; [done..| | |].
  - etrans; [|exact Hsub]. clear. induction l as [|e l IH]; simpl; [constructor|]. by destruct (pinned rev e); constructor.
  - intros e. rewrite list_elem_of_In, filter_In, <-list_elem_of_In, Hl. unfold pinned, has_revision. rewrite orb_true_iff, !bool_decide_eq_true. tauto.
  - intros Hrev. rewrite bool_decide_false in Hex by done. simpl in Hex. apply negb_false_iff, existsb_exists in Hex as (r & Hin & Hexact).
    apply in_map_iff in Hin as (c & <- & Hc). exists c. by rewrite list_elem_of_In.
Qed.

Lemma Sorted_on {A} (R : relation A) (P : A → Prop) l : (∀ x y z, P x → P y → P z → R x y → R y z → R x z) →
  Forall P l → Sorted R l → StronglySorted R l.
Proof.
  intros HR. induction l as [|x l IH]; intros HP Hs; [constructor|]. apply Forall_cons in HP as [Hx HP]. apply Sorted_inv in Hs as [Hs Hh].
  specialize (IH HP Hs). constructor; [done|]. destruct l as [|y l]; [constructor|]. inversion Hh as [|? ? Hxy]; subst.
  apply Forall_cons in HP as [Hy HP]. apply StronglySorted_cons in IH as [Hall _]. constructor; [done|].
  rewrite Forall_forall in Hall, HP. apply Forall_forall. intros z Hz. eapply (HR x y z); auto.
Qed.

(** A compact revision is the pin of the structured demand. *)
Lemma revision_kept releases constraints revision cs rev : split_revisions releases constraints revision = Ok (cs, rev) →
  revision ≠ "" → rev = revision.
Proof.
  revert cs revision. induction constraints as [|c constraints IH]; intros cs revision; simpl; [by intros [= _ <-]|].
  destruct (split_revision releases c) as [[base compact]|].
  - intros [Hc ([cs' rev'] & H & [= _ <-])%bind_ok]%reject_if_bind Hrev. rewrite bool_decide_false in Hc by done. simpl in Hc. apply negb_false_iff, bool_decide_eq_true in Hc as <-. by eapply IH.
  - intros ([cs' rev'] & H & [= _ <-])%bind_ok. by eapply IH.
Qed.
Lemma demand_revision tool releases constraints revision cs rev : normalized_demand tool releases constraints revision = Ok (cs, rev) →
  revision ≠ "" → rev = revision.
Proof.
  unfold normalized_demand, normalizeCompactRevisionDemandV1. case_bool_decide; [by intros [= _ <-]|].
  intros ([cs' rev'] & Hs & [= _ <-])%bind_ok. by eapply revision_kept.
Qed.

Lemma split_compact releases version revision : Exact (classifyRequestedVersionV1 releases version) = true →
  validateCanonicalDecimalV1 revision true = Ok tt → split_revision releases (version +:+ "~" +:+ revision) = Some (version, revision).
Proof.
  intros He Hr. unfold split_revision. change ("~" +:+ revision) with (String "~" revision).
  rewrite cut_last_found by (by eapply decimal_without). rewrite Hr, He. simpl. rewrite bool_decide_false; [done|]. intros ->. done.
Qed.
Lemma compact_demand catalog tool releases version revision pin :
  VersionScheme tool ≠ "opaque" → toolReleasesV1 catalog tool = Ok releases → Exact (classifyRequestedVersionV1 releases version) = true →
  contains_byte version "~" = false → validateCanonicalDecimalV1 revision true = Ok tt → pin = "" ∨ pin = revision →
  enumerateReleaseCandidatesV1 catalog tool [version +:+ "~" +:+ revision] pin = enumerateReleaseCandidatesV1 catalog tool [version] revision.
Proof.
  intros Hs Hreleases He Hv Hr Hpin. unfold enumerateReleaseCandidatesV1. rewrite Hreleases. cbn [mbind result_bind].
  rewrite bool_decide_false by done. unfold normalizeCompactRevisionDemandV1. cbn [split_revisions].
  rewrite (split_compact _ _ _ He Hr). unfold split_revision. rewrite (cut_last_absent _ _ Hv).
  assert (negb (bool_decide (pin = "")) && negb (bool_decide (pin = revision)) = false) as -> by (destruct Hpin as [-> | ->]; [done|rewrite (bool_decide_true (revision = revision)) by done; simpl; apply andb_false_r]).
  done.
Qed.
Lemma compact_conflict catalog tool releases version revision pin :
  VersionScheme tool ≠ "opaque" → toolReleasesV1 catalog tool = Ok releases → Exact (classifyRequestedVersionV1 releases version) = true →
  validateCanonicalDecimalV1 revision true = Ok tt → pin ≠ "" → pin ≠ revision →
  is_ok (enumerateReleaseCandidatesV1 catalog tool [version +:+ "~" +:+ revision] pin) = false.
Proof.
  intros Hs Hreleases He Hr H1 H2. unfold enumerateReleaseCandidatesV1. rewrite Hreleases. cbn [mbind result_bind].
  rewrite bool_decide_false by done. unfold normalizeCompactRevisionDemandV1. cbn [split_revisions].
  rewrite (split_compact _ _ _ He Hr). by rewrite !bool_decide_false.
Qed.

(** ** The tools of a loaded catalog *)

Section loaded.
Context (CanonicalSourceURLV1 : string → result string) (ParseNormalizedNamed : string → option (string * bool * bool)).
Context (root : string) (catalog : CatalogV1).
Context (catalog_built : built root catalog) (catalog_valid : records_valid CanonicalSourceURLV1 ParseNormalizedNamed catalog).
Context (catalog_loaded : validateLoadedCatalogV1 catalog = Ok tt).

Definition named_tool (name : string) (tool : ToolRecordV1) : Prop := ∃ key record,
  tools catalog !! name = Some key ∧ records catalog !! key = Some record ∧ record_Value record = ToolRecord tool.

Lemma loaded_index name tool releases : named_tool name tool → toolReleasesV1 catalog tool = Ok releases →
  one_version (map entry_manifest releases) ∧
  ∀ entry, entry ∈ releases → Tool (entry_manifest entry) = tool_Name tool ∧ validateToolVersionV1 (VersionScheme tool) (Version (entry_manifest entry)) = Ok tt.
Proof using catalog_built catalog_loaded.
  intros (key & record & Hname & Hkey & Hvalue) Hreleases. pose proof catalog_loaded as Hload. unfold validateLoadedCatalogV1 in Hload.
  apply reject_if_bind in Hload as [_ ([] & _ & ([] & _ & Hgraphs)%bind_ok)%bind_ok].
  unfold validateReleaseGraphsV1 in Hgraphs. rewrite for_each_ok in Hgraphs.
  assert (check_tool catalog name = Ok tt) as Htool.
  { apply Hgraphs. unfold Names. rewrite merge_sort_Permutation, list_elem_of_fmap. exists (name, key). split; [done|]. by apply elem_of_map_to_list. }
  unfold check_tool, tool_key in Htool. rewrite Hname in Htool. rewrite Hkey, Hvalue in Htool.
  apply bind_ok in Htool as (index & Hindex & ([] & Hcheck & _)%bind_ok). unfold validateToolReleaseIndexV1 in Hcheck.
  apply reject_if_bind in Hcheck as [_ (manifests & Hm & [Hone Hall]%release_index)%bind_ok].
  destruct (built_kept _ _ catalog_built) as [Hkeyed _ _].
  rewrite (index_manifests catalog Hkeyed _ _ _ _ _ _ Hkey Hindex Hm Hreleases) in Hone, Hall. split; [done|].
  intros e He. apply Hall, list_elem_of_fmap. by exists e.
Qed.

Lemma tool_references name tool : named_tool name tool → sorted_references (Releases tool).
Proof using catalog_valid.
  intros (key & record & _ & Hkey & Hvalue). apply catalog_valid in Hkey. revert Hkey. unfold validateLoadedRecordV1. rewrite Hvalue.
  intros ([] & _ & H)%bind_ok. case_bool_decide; [by apply reject_if_bind in H as [_ H]|]. revert H. unfold validate_tool.
  intros [_ ([] & _ & [_ ([] & _ & [_ ([] & H & _)%bind_ok]%reject_if_bind)%bind_ok]%reject_if_bind)%bind_ok]%reject_if_bind. by apply reference_list_sorted.
Qed.
(** The ID of a release is made of its tool, version and revision. *)
Lemma manifest_identity reference record manifest : records catalog !! reference_key reference = Some record →
  record_Value record = ReleaseManifest manifest →
  ∃ segment, encodeToolVersionSegmentV1 (Version manifest) = Ok segment ∧
    ref_ID reference = "tool:" +:+ Tool manifest +:+ "/releases/" +:+ segment +:+ "/revisions/" +:+ Revision manifest +:+ "/manifest".
Proof using All.
  intros Hr Hv. destruct (built_kept _ _ catalog_built) as [Hkeyed Hdecoded _].
  pose proof (Hkeyed _ _ Hr) as [= Hid _]. pose proof (Hdecoded _ _ Hr) as Hschema. unfold decoded in Hschema. rewrite Hv in Hschema.
  pose proof (catalog_valid _ _ Hr) as H. unfold validateLoadedRecordV1 in H. apply bind_ok in H as ([] & _ & H). case_bool_decide; [|by rewrite Hv in H].
  rewrite Hv in H. apply reject_if_bind in H as [Hrid H]. apply bind_ok in H as ([] & H & _). go_bool. simpl in Hrid.
  unfold validatePortableToolCatalogReleaseManifestV1 in H.
  apply bind_ok in H as ([] & _ & [_ (segment & Hs%wrap_ok & ([] & _ & ([] & _ & ([] & _ & [Hmid _]%reject_if_bind)%bind_ok)%bind_ok)%bind_ok)%bind_ok]%reject_if_bind).
  exists segment. split; [exact Hs|]. go_bool. rewrite Hid, <-Hrid, Hmid. by rewrite !append_assoc.
Qed.

Lemma entries_by_key name tool releases e e' : named_tool name tool → toolReleasesV1 catalog tool = Ok releases → e ∈ releases → e' ∈ releases →
  Version (entry_manifest e) = Version (entry_manifest e') → Revision (entry_manifest e) = Revision (entry_manifest e') → entry_key e = entry_key e'.
Proof using All.
  intros Htool Hreleases He He' Hv Hr. destruct (loaded_index _ _ _ Htool Hreleases) as [_ Hall]. pose proof (tool_references _ _ Htool) as Hsorted.
  destruct (Hall e He) as [Ht _], (Hall e' He') as [Ht' _]. unfold toolReleasesV1 in Hreleases. apply release_manifests in Hreleases.
  destruct (Forall2_right _ _ _ _ Hreleases He) as (r & Hin & Hk & record & Hrec & Hm & _).
  destruct (Forall2_right _ _ _ _ Hreleases He') as (r' & Hin' & Hk' & record' & Hrec' & Hm' & _).
  destruct (manifest_identity _ _ _ Hrec Hm) as (segment & Hs & Hid). destruct (manifest_identity _ _ _ Hrec' Hm') as (segment' & Hs' & Hid').
  assert (ref_ID r = ref_ID r') as Heq by (rewrite Hid, Hid', Ht, Ht', Hr; rewrite Hv in Hs; congruence).
  rewrite Hk, Hk'. f_equal. apply (NoDup_map_inj ref_ID (Releases tool)); [|done..].
  apply (strict_NoDup ref_ID string_lt). by apply StronglySorted_Sorted.
Qed.
Lemma entry_keys_distinct name tool releases : named_tool name tool → toolReleasesV1 catalog tool = Ok releases → NoDup (map entry_key releases).
Proof using catalog_valid.
  intros Htool Hreleases%release_manifests. pose proof (tool_references _ _ Htool) as Hsorted.
  assert (map entry_key releases = map reference_key (Releases tool)) as ->.
  { clear -Hreleases. induction Hreleases as [|r e rs es [Hk _] _ IH]; [done|]. simpl. by f_equal. }
  assert (NoDup (map ref_ID (Releases tool))) as Hn by (apply (strict_NoDup ref_ID string_lt); by apply StronglySorted_Sorted).
  revert Hn. generalize (Releases tool). clear. intros references. induction references as [|r references IH]; simpl; intros Hn; [constructor|].
  apply NoDup_cons in Hn as [Hr Hn]. constructor; [|by apply IH]. intros (r' & Hk & Hin)%list_elem_of_fmap. apply Hr, list_elem_of_fmap.
  exists r'. split; [|done]. by injection Hk.
Qed.

Lemma exact_token scheme releases constraint entry : Exact (classifyRequestedVersionV1 releases constraint) = true →
  release_satisfies scheme entry (classifyRequestedVersionV1 releases constraint) = Ok true →
  Token (classifyRequestedVersionV1 releases constraint) ∈ tokens (entry_manifest entry).
Proof using Type.
  unfold release_satisfies, releaseSatisfiesConstraintV1. intros Hexact. rewrite Hexact.
  assert (Constrained (classifyRequestedVersionV1 releases constraint) = true) as ->
    by (revert Hexact; unfold classifyRequestedVersionV1; by case_bool_decide).
  simpl. intros [= H]. unfold matchesRequestedVersionV1 in H. unfold tokens. rewrite elem_of_cons. apply orb_true_iff in H as [H|H]; [left; by go_bool|right].
  by apply contains_record_value.
Qed.
Lemma pinned_unique name tool constraints revision keys : named_tool name tool → revision ≠ "" →
  enumerateReleaseCandidatesV1 catalog tool constraints revision = Ok keys →
  (length keys ≤ 1)%nat ∧ ∀ key, key ∈ keys → ∃ record manifest, records catalog !! key = Some record ∧
    record_Value record = ReleaseManifest manifest ∧ Revision manifest = revision.
Proof using All.
  intros Htool Hrev (releases & cs & rev & l & Hreleases & Hdemand & -> & Hsub & Hl & Hexact)%enumeration.
  apply demand_revision in Hdemand as ->; [|done]. destruct (Hexact Hrev) as (c & Hc & Hce).
  destruct (loaded_index _ _ _ Htool Hreleases) as [Hone _].
  assert (∀ e, e ∈ l → e ∈ releases ∧ Token (classifyRequestedVersionV1 releases c) ∈ tokens (entry_manifest e) ∧ Revision (entry_manifest e) = revision) as Hent.
  { intros e (Hin & [_ Hm] & [?|He])%Hl; [done|]. split_and!; [done| |done]. eapply exact_token; [done|]. by apply Hm. }
  assert (NoDup (map entry_key l)) as Hn by (eapply NoDup_sublist; [by apply sublist_map|by eapply entry_keys_distinct]).
  assert (∀ e e', e ∈ l → e' ∈ l → entry_key e = entry_key e') as Hsame.
  { intros e e' (He & Ht & Hr)%Hent (He' & Ht' & Hr')%Hent. eapply entries_by_key; [done..| |by rewrite Hr, Hr'].
    eapply Hone; [by apply list_elem_of_fmap_2|by apply list_elem_of_fmap_2|done|done]. }
  split.
  - rewrite length_map. rewrite (Permutation_length (merge_sort_Permutation _ l)). destruct l as [|e [|e' l]]; simpl; [lia..|].
    exfalso. apply NoDup_cons in Hn as [Hn _]. apply Hn. simpl. rewrite (Hsame e e'); [by left|by left|right; by left].
  - intros key (e & -> & He)%list_elem_of_fmap. rewrite merge_sort_Permutation in He. apply Hent in He as (He & _ & Hr).
    unfold toolReleasesV1 in Hreleases. apply release_manifests in Hreleases. destruct (Forall2_right _ _ _ _ Hreleases He) as (r & _ & Hk & record & Hrec & Hv & _).
    exists record, (entry_manifest e). by rewrite Hk.
Qed.
Lemma enumeration_sorted {semver_lawful : LawfulVersions semver} {pep440_lawful : LawfulVersions pep440} name tool constraints revision keys :
  named_tool name tool → enumerateReleaseCandidatesV1 catalog tool constraints revision = Ok keys →
  ∃ releases cs rev entries, toolReleasesV1 catalog tool = Ok releases ∧ normalized_demand tool releases constraints revision = Ok (cs, rev) ∧
    keys = map entry_key entries ∧ StronglySorted (not_older (VersionScheme tool)) entries ∧
    ∀ entry, entry ∈ entries ↔ entry ∈ releases ∧ meets_constraints (VersionScheme tool) releases cs entry ∧ has_revision rev entry.
Proof using catalog_built catalog_loaded.
  intros Htool (releases & cs & rev & l & Hreleases & Hdemand & -> & Hsub & Hl & _)%enumeration.
  exists releases, cs, rev, (merge_sort (release_le (VersionScheme tool)) l). split_and!; [done..| |].
  - apply (Sorted_on _ (λ e, validateToolVersionV1 (VersionScheme tool) (Version (entry_manifest e)) = Ok tt)).
    + intros x y z. apply not_older_through.
    + apply Forall_forall. intros e He. rewrite merge_sort_Permutation in He. apply Hl in He as (He & _).
      by apply (loaded_index _ _ _ Htool Hreleases).
    + eapply Sorted_weaken; [|apply Sorted_merge_sort, release_le_total]. intros x y. by apply release_le_not_older.
  - intros e. by rewrite merge_sort_Permutation.
Qed.
End loaded.
End schemes.

(** The dotted numbers of the examples are a total preorder. *)
#[export] Instance dotted_lawful : LawfulVersions dotted.
Proof.
  split.
  - change (∀ a b : list Z, 0 ≤ compare_numbers b a ↔ compare_numbers a b ≤ 0). intros a. induction a as [|x a IH]; intros [|y b]; simpl; try lia.
    specialize (IH b). repeat case_match; lia.
  - change (∀ a b c : list Z, 0 ≤ compare_numbers a b → 0 ≤ compare_numbers b c → 0 ≤ compare_numbers a c).
    intros a. induction a as [|x a IH]; intros [|y b] [|z c]; simpl; try lia. specialize (IH b c). repeat case_match; lia.
Qed.

(** ** Enumeration *)

(** The enumeration of a demand over a tool of a loaded catalog holds exactly
    the releases of the tool that meet every constraint (without constraints, the
    stable releases) and have the revision the demand pins, newest first: each
    is not older than every later one, by version under the scheme and then by
    revision. *)
Theorem enumerateReleaseCandidatesV1_spec {schemes : VersionSchemes} {semver_lawful : LawfulVersions semver} {pep440_lawful : LawfulVersions pep440}
    CanonicalSourceURLV1 ParseNormalizedNamed root catalog name tool constraints revision keys :
  built root catalog → records_valid CanonicalSourceURLV1 ParseNormalizedNamed catalog → validateLoadedCatalogV1 catalog = Ok tt →
  named_tool catalog name tool → enumerateReleaseCandidatesV1 catalog tool constraints revision = Ok keys →
  ∃ releases cs rev entries, toolReleasesV1 catalog tool = Ok releases ∧ normalized_demand tool releases constraints revision = Ok (cs, rev) ∧
    keys = map entry_key entries ∧ StronglySorted (not_older (VersionScheme tool)) entries ∧
    ∀ entry, entry ∈ entries ↔ entry ∈ releases ∧ meets_constraints (VersionScheme tool) releases cs entry ∧ has_revision rev entry.
Proof. intros Hb _ Hl. by eapply enumeration_sorted. Qed.

(** A demand that pins a revision enumerates at most one release of a loaded
    catalog, and that release has the pinned revision: the pin is decided by the
    release index, never by the order of the enumeration. *)
Theorem pinned_release_unique {schemes : VersionSchemes} CanonicalSourceURLV1 ParseNormalizedNamed root catalog name tool constraints revision keys :
  built root catalog → records_valid CanonicalSourceURLV1 ParseNormalizedNamed catalog → validateLoadedCatalogV1 catalog = Ok tt →
  named_tool catalog name tool → revision ≠ "" → enumerateReleaseCandidatesV1 catalog tool constraints revision = Ok keys →
  (length keys ≤ 1)%nat ∧ ∀ key, key ∈ keys → ∃ record manifest, records catalog !! key = Some record ∧
    record_Value record = ReleaseManifest manifest ∧ Revision manifest = revision.
Proof. intros Hb Hv Hl. by eapply pinned_unique. Qed.

(** A compact demand [version~revision] enumerates what the structured demand
    of that version and that revision does, whether or not the request repeats
    the revision; a request that names another revision is refused. *)
Theorem compact_revision_demand {schemes : VersionSchemes} catalog tool releases version revision pin :
  VersionScheme tool ≠ "opaque" → toolReleasesV1 catalog tool = Ok releases → Exact (classifyRequestedVersionV1 releases version) = true →
  contains_byte version "~" = false → validateCanonicalDecimalV1 revision true = Ok tt →
  (pin = "" ∨ pin = revision →
    enumerateReleaseCandidatesV1 catalog tool [version +:+ "~" +:+ revision] pin = enumerateReleaseCandidatesV1 catalog tool [version] revision) ∧
  (pin ≠ "" → pin ≠ revision → is_ok (enumerateReleaseCandidatesV1 catalog tool [version +:+ "~" +:+ revision] pin) = false).
Proof. intros. split; [by eapply compact_demand|by eapply compact_conflict]. Qed.

Lemma native_named : named_tool native_catalog "go" native_tool.
Proof.
  exists ("tool:go", sha "a"), (small_entry "tool:go" ToolRecordSchemaV1 (sha "a") (ToolRecord native_tool)).
  split_and!; [by vm_compute|by vm_compute|reflexivity].
Qed.
Definition native_keys (constraints : list string) (revision : string) : result (list recordKeyV1) :=
  enumerateReleaseCandidatesV1 (schemes := dotted_schemes) native_catalog native_tool constraints revision.
Definition native_key (version digit : string) : recordKeyV1 := reference_key (native_reference version digit "revisions/1/manifest").
Example native_enumeration :
  native_keys [">=1"] "" = Ok [native_key "2" "2"; native_key "1" "1"] ∧ native_keys ["1"] "1" = Ok [native_key "1" "1"] ∧
  native_keys ["1~1"] "" = Ok [native_key "1" "1"] ∧ is_ok (native_keys [">=1"] "1") = false ∧ is_ok (native_keys ["1~1"] "2") = false.
Proof. vm_compute. split_and!; reflexivity. Qed.

Lemma enumerateReleaseCandidatesV1_spec_witness :
  ∃ entries, map entry_key entries = [native_key "2" "2"; native_key "1" "1"] ∧
    StronglySorted (not_older (schemes := dotted_schemes) "semver") entries.
Proof.
  destruct native_checks as (_ & _ & Hl & _). destruct native_enumeration as (He & _).
  destruct (enumerateReleaseCandidatesV1_spec (schemes := dotted_schemes) (semver_lawful := dotted_lawful) (pep440_lawful := dotted_lawful)
    canonical_url parse_image "tools" native_catalog "go" native_tool [">=1"] "" _ native_built native_valid Hl native_named He)
    as (releases & cs & rev & entries & _ & _ & Hkeys & Hsorted & _).
  exists entries. split; [symmetry; exact Hkeys|exact Hsorted].
Defined.
Lemma pinned_release_unique_witness :
  native_keys ["1"] "1" = Ok [native_key "1" "1"] ∧ ∃ record manifest, records native_catalog !! native_key "1" "1" = Some record ∧
    record_Value record = ReleaseManifest manifest ∧ Revision manifest = "1".
Proof.
  destruct native_checks as (_ & _ & Hl & _). destruct native_enumeration as (_ & He & _). split; [exact He|].
  apply (pinned_release_unique (schemes := dotted_schemes) canonical_url parse_image "tools" native_catalog "go" native_tool ["1"] "1"
    [native_key "1" "1"] native_built native_valid Hl native_named); [discriminate|exact He|by left].
Defined.
Lemma compact_revision_demand_witness : native_keys ["1~1"] "" = native_keys ["1"] "1".
Proof.
  assert (match toolReleasesV1 native_catalog native_tool with Ok releases => Exact (classifyRequestedVersionV1 releases "1") | Err _ => false end = true)
    as H by (by vm_compute).
  destruct (toolReleasesV1 native_catalog native_tool) as [releases|m] eqn:Hr; [|discriminate].
  apply (compact_revision_demand (schemes := dotted_schemes) native_catalog native_tool releases "1" "1" ""); [discriminate|exact Hr|exact H|reflexivity|reflexivity|by left].
Defined.
