(* ===== verification/IdentityPolicy.v ===== *)
(** * Identity policies

    [internal/blueprint/identity_policy.go] with [linux_capabilities.go] and the
    mapping check of [component_syntax.go]: the users, groups and roles that an
    application asks for, how they are read from a blueprint, and when they are
    valid.

    A Go map is a [gmap], also when it is nil, since the code tests only whether it
    is empty.  The loops over maps are in the order of [map_to_list]: the order
    decides only which of several failures is reported. *)

From Stdlib Require Import Ascii.
From S2P Require Import Prelude GoText Identifiers Yaml Canonical.

Open Scope Z_scope.

Definition IdentityPolicySchemaV1 : string := "identity-policy-v1".

(** [None] is a nil slice. *)
Record IdentityPolicyUserV1 := PolicyUser {
  policy_UID : string;
  FullName : option string;
  PrimaryGroup : string;
  SupplementaryGroups : option (list string)
}.
Record IdentityPolicyRoleV1 := PolicyRole {
  role_User : string;
  Capabilities : option (list string)
}.
Record IdentityPolicyV1 := Policy {
  policy_Schema : string;
  policy_Users : gmap string IdentityPolicyUserV1;
  policy_Groups : gmap string string;
  policy_Roles : gmap string IdentityPolicyRoleV1
}.
#[export] Instance IdentityPolicyUserV1_eq_dec : EqDecision IdentityPolicyUserV1.
Proof. solve_decision. Defined.
#[export] Instance IdentityPolicyRoleV1_eq_dec : EqDecision IdentityPolicyRoleV1.
Proof. solve_decision. Defined.
#[export] Instance IdentityPolicyV1_eq_dec : EqDecision IdentityPolicyV1.
Proof. solve_decision. Defined.

(** ** Capabilities *)

Definition linux_capabilities : list string :=
  ["CAP_CHOWN"; "CAP_DAC_OVERRIDE"; "CAP_DAC_READ_SEARCH"; "CAP_FOWNER"; "CAP_FSETID"; "CAP_KILL"; "CAP_SETGID";
   "CAP_SETUID"; "CAP_SETPCAP"; "CAP_LINUX_IMMUTABLE"; "CAP_NET_BIND_SERVICE"; "CAP_NET_BROADCAST"; "CAP_NET_ADMIN";
   "CAP_NET_RAW"; "CAP_IPC_LOCK"; "CAP_IPC_OWNER"; "CAP_SYS_MODULE"; "CAP_SYS_RAWIO"; "CAP_SYS_CHROOT"; "CAP_SYS_PTRACE";
   "CAP_SYS_PACCT"; "CAP_SYS_ADMIN"; "CAP_SYS_BOOT"; "CAP_SYS_NICE"; "CAP_SYS_RESOURCE"; "CAP_SYS_TIME";
   "CAP_SYS_TTY_CONFIG"; "CAP_MKNOD"; "CAP_LEASE"; "CAP_AUDIT_WRITE"; "CAP_AUDIT_CONTROL"; "CAP_SETFCAP";
   "CAP_MAC_OVERRIDE"; "CAP_MAC_ADMIN"; "CAP_SYSLOG"; "CAP_WAKE_ALARM"; "CAP_BLOCK_SUSPEND"; "CAP_AUDIT_READ";
   "CAP_PERFMON"; "CAP_BPF"; "CAP_CHECKPOINT_RESTORE"].
Definition linuxCapabilityNameV1 (name : string) : bool := bool_decide (name ∈ linux_capabilities).

(** ** Numbers *)

Definition MaxID : Z := 4294967295.
Definition policyID (value : string) : bool :=
  match parse_uint value 32 with
  | Some n => (n <? MaxID) && bool_decide (format_uint n = value)
  | None => false
  end.
(** The order of two texts by the numbers that [strconv.ParseUint] returns for them,
    its errors ignored; [slices.SortFunc] sorts by it only canonical numbers, and no
    two equal ones. *)
Definition id_le (a b : string) : Prop := uint_value a 32 ≤ uint_value b 32.
#[export] Instance id_le_dec a b : Decision (id_le a b).
Proof. unfold id_le. apply _. Defined.
Definition sort_ids (ids : list string) : list string := merge_sort id_le ids.

(** [policy.Groups[group]], the zero value when it is not declared. *)
Definition policy_gid (policy : IdentityPolicyV1) (group : string) : string := default "" (policy_Groups policy !! group).

(** ** Validation *)

Section validate.
Context (policy : IdentityPolicyV1).

Definition invalid_group : string := "invalid or duplicate group name/GID".
Fixpoint check_policy_groups (groups : list (string * string)) (gids : gset string) : result unit :=
  match groups with
  | [] => Ok tt
  | (name, id) :: rest =>
    _ ← reject_if (negb (is_ok (ValidateUserName name)) || negb (policyID id) || bool_decide (id ∈ gids)) invalid_group;
    check_policy_groups rest ({[id]} ∪ gids)
  end.

Definition bad_full_name (text : string) : bool :=
  negb (valid_utf8 text) || (256 <? len text) || contains_any text (String "000"%char (String "013"%char (String "010"%char ""))).

Definition bad_extra_groups : string := "supplementary_groups must be unique declared additional groups".
(** The GIDs of the supplementary groups, in the order of the groups. *)
Fixpoint extra_gids (primary : string) (previous : option string) (groups : list string) : result (list string) :=
  match groups with
  | [] => Ok []
  | group :: rest =>
    match policy_Groups policy !! group with
    | None => Err bad_extra_groups
    | Some id =>
      _ ← reject_if (bool_decide (group = primary) || bool_decide (previous = Some group)) bad_extra_groups;
      extra ← extra_gids primary (Some group) rest;
      Ok (id :: extra)
    end
  end.

Definition check_user (name : string) (user : IdentityPolicyUserV1) : result unit :=
  match policy_Groups policy !! PrimaryGroup user with
  | None => Err "primary_group must select a declared group"
  | Some gid =>
    _ ← reject_if (match FullName user with Some text => bad_full_name text | None => false end)
          "full_name must be UTF-8 text of at most 256 bytes without NUL, CR or LF";
    match SupplementaryGroups user with
    | None => Err "supplementary_groups must be a sorted array of at most 64 additional groups"
    | Some groups =>
      _ ← reject_if ((64 <? Z.of_nat (length groups)) || negb (is_sorted groups))
            "supplementary_groups must be a sorted array of at most 64 additional groups";
      extra ← extra_gids (PrimaryGroup user) None groups;
      wrap (ValidateIdentityV1 (Identity name (policy_UID user) gid (Some (sort_ids extra)))) "user"
    end
  end.
Fixpoint check_users (users : list (string * IdentityPolicyUserV1)) (uids : gset string) : result unit :=
  match users with
  | [] => Ok tt
  | (name, user) :: rest =>
    _ ← reject_if (bool_decide (policy_UID user ∈ uids)) "duplicate user UID";
    _ ← check_user name user;
    check_users rest ({[policy_UID user]} ∪ uids)
  end.

Definition bad_capability (previous : option string) (capability : string) : result unit :=
  reject_if (negb (linuxCapabilityNameV1 capability) || bool_decide (previous = Some capability))
    "capabilities must be unique recognized literal Linux CAP_ names".
Definition check_role (name : string) (role : IdentityPolicyRoleV1) : result unit :=
  _ ← wrap (ValidateUserName name) "invalid role name";
  _ ← reject_if (bool_decide (policy_Users policy !! role_User role = None)) "must select a declared user";
  match Capabilities role with
  | None => Err "capabilities must be a sorted array"
  | Some capabilities =>
    _ ← reject_if (negb (is_sorted capabilities)) "capabilities must be a sorted array";
    check_each bad_capability None capabilities
  end.

Definition ValidatePolicy : result unit :=
  _ ← reject_if (negb (bool_decide (policy_Schema policy = IdentityPolicySchemaV1))) "unsupported schema";
  _ ← reject_if (bool_decide (policy_Users policy = ∅) || bool_decide (policy_Groups policy = ∅)
                 || bool_decide (policy_Roles policy = ∅)
                 || (1024 <? Z.of_nat (size (policy_Users policy) + size (policy_Groups policy) + size (policy_Roles policy))))
        "require nonempty users, groups and roles, at most 1024 combined";
  _ ← check_policy_groups (map_to_list (policy_Groups policy)) ∅;
  _ ← check_users (map_to_list (policy_Users policy)) ∅;
  check_each (λ _ entry, check_role entry.1 entry.2) None (map_to_list (policy_Roles policy)).
End validate.

(** ** Reading a blueprint *)

(** [f] on every entry of a map. *)
Definition traverse_map {A B} (f : string → A → result B) (m : gmap string A) : result (gmap string B) :=
  fields ← mapM (λ entry, value ← f entry.1 entry.2; Ok (entry.1, value)) (map_to_list m);
  Ok (list_to_map fields).

Section yaml.
Context {yaml : YamlNodes}.

(** The loop of [validateSyntaxMapping]; it reads only the keys. *)
Fixpoint mapping_fields (allowed : string → bool) (content : list Node) (present : gset string) : result (gset string) :=
  match content with
  | [] => Ok present
  | key :: rest =>
    _ ← reject_if (negb (is_text key)) "field name must be a string";
    _ ← reject_if (negb (allowed (node_Value key))) "field not found in type";
    _ ← reject_if (bool_decide (node_Value key ∈ present)) "contains duplicate field";
    match rest with
    | [] => Ok ({[node_Value key]} ∪ present)
    | _ :: rest => mapping_fields allowed rest ({[node_Value key]} ∪ present)
    end
  end.
Definition validateSyntaxMapping (node : Node) (allowed : string → bool) : result (gset string) :=
  _ ← reject_if (negb (bool_decide (node_Kind node = MappingNode))) "must be a mapping";
  mapping_fields allowed (node_Content node) ∅.

Definition policyFields (node : Node) (allowed : list string) : result (gmap string Node) :=
  _ ← validateSyntaxMapping node (λ name, bool_decide (name ∈ allowed));
  pairs ← node_pairs (node_Content node);
  Ok (foldl (λ fields pair, <[node_Value pair.1 := pair.2]> fields) ∅ pairs).

Fixpoint field_names (content : list Node) : result (list string) :=
  match content with
  | [] => Ok []
  | key :: rest =>
    _ ← wrap (ValidateUserName (node_Value key)) "name";
    match rest with
    | [] => Ok [node_Value key]
    | _ :: rest => names ← field_names rest; Ok (node_Value key :: names)
    end
  end.
Definition policyNamedFields (node : Node) : result (gmap string Node) :=
  _ ← reject_if (negb (bool_decide (node_Kind node = MappingNode))) "must be a mapping";
  names ← field_names (node_Content node);
  policyFields node names.

Definition not_an_id : string := "must be a literal canonical decimal integer from 0 through 4294967294".
Definition policyYAMLID (node : option Node) : result string :=
  match node with
  | None => Err not_an_id
  | Some node =>
    _ ← reject_if (negb (is_scalar node) || negb (bool_decide (node_Tag node = "!!int")) || node_Quoted node
                   || negb (policyID (node_Value node))) not_an_id;
    Ok (node_Value node)
  end.

Definition policyYAMLText (node : option Node) : result string :=
  match node with
  | None => Err "must be a literal string"
  | Some node => _ ← reject_if (negb (is_text node)) "must be a literal string"; Ok (node_Value node)
  end.

Definition policyYAMLArray (node : option Node) : result (list string) :=
  match node with
  | None => Ok []
  | Some node =>
    _ ← reject_if (negb (bool_decide (node_Kind node = SequenceNode))) "must be an array";
    values ← mapM (λ item, policyYAMLText (Some item)) (node_Content node);
    Ok (merge_sort String.le values)
  end.

(** A field that is present, read by [f]. *)
Definition optional_field {A} (f : option Node → result A) (absent : A) (node : option Node) : result A :=
  match node with None => Ok absent | Some _ => f node end.

Definition read_user (name : string) (node : Node) : result IdentityPolicyUserV1 :=
  if is_scalar node then
    uid ← policyYAMLID (Some node);
    Ok (PolicyUser uid None name (Some []))
  else
    f ← policyFields node ["uid"; "full_name"; "primary_group"; "supplementary_groups"];
    uid ← policyYAMLID (f !! "uid");
    full_name ← optional_field (λ n, Some <$> policyYAMLText n) None (f !! "full_name");
    primary ← optional_field policyYAMLText name (f !! "primary_group");
    supplementary ← policyYAMLArray (f !! "supplementary_groups");
    Ok (PolicyUser uid full_name primary (Some supplementary)).

Definition read_role (node : Node) : result IdentityPolicyRoleV1 :=
  f ← policyFields node ["user"; "capabilities"];
  user ← policyYAMLText (f !! "user");
  capabilities ← policyYAMLArray (f !! "capabilities");
  Ok (PolicyRole user (Some capabilities)).

Definition policy_field_names : list string := ["schema"; "users"; "groups"; "roles"].
Definition UnmarshalPolicy (node : Node) : result IdentityPolicyV1 :=
  fields ← policyFields node policy_field_names;
  match fields !! "schema", fields !! "users", fields !! "groups", fields !! "roles" with
  | Some schema, Some users, Some groups, Some roles =>
    version ← wrap (policyYAMLID (Some schema)) "schema must be the integer 1";
    _ ← reject_if (negb (bool_decide (version = "1"))) "schema must be the integer 1";
    groups ← policyNamedFields groups;
    groups ← traverse_map (λ _ node, policyYAMLID (Some node)) groups;
    users ← policyNamedFields users;
    users ← traverse_map read_user users;
    roles ← policyNamedFields roles;
    roles ← traverse_map (λ _, read_role) roles;
    let policy := Policy IdentityPolicySchemaV1 users groups roles in
    _ ← ValidatePolicy policy;
    Ok policy
  | _, _, _, _ => Err "is required"
  end.
End yaml.

(** ** Canonical values *)

Definition text_field (name tag value : string) : structFieldInfo * goValue := (FieldInfo name true tag, Str value).
Definition texts_value (texts : option (list string)) : goValue :=
  match texts with None => Nil | Some texts => Slice (map Str texts) end.
Definition user_value (user : IdentityPolicyUserV1) : goValue := Struct [
  text_field "UID" "uid" (policy_UID user);
  (FieldInfo "FullName" true "full_name,omitempty", match FullName user with None => Nil | Some text => Ref (Str text) end);
  text_field "PrimaryGroup" "primary_group" (PrimaryGroup user);
  (FieldInfo "SupplementaryGroups" true "supplementary_groups", texts_value (SupplementaryGroups user))].
Definition role_value (role : IdentityPolicyRoleV1) : goValue := Struct [
  text_field "User" "user" (role_User role);
  (FieldInfo "Capabilities" true "capabilities", texts_value (Capabilities role))].
Definition map_value {A} (f : A → goValue) (m : gmap string A) : goValue :=
  Map (map (λ entry, (entry.1, f entry.2)) (map_to_list m)).
Definition policy_value (policy : IdentityPolicyV1) : goValue := Struct [
  text_field "Schema" "schema" (policy_Schema policy);
  (FieldInfo "Users" true "users", map_value user_value (policy_Users policy));
  (FieldInfo "Groups" true "groups", map_value Str (policy_Groups policy));
  (FieldInfo "Roles" true "roles", map_value role_value (policy_Roles policy))].
