(* ===== verification/IdentityPolicyFacts.v ===== *)
(** * What identity policies are valid

    The declarative meaning of the validation of IdentityPolicy.v: a policy is a
    table of accounts with distinct numbers, in which only root is zero. *)

From Stdlib Require Import Ascii.
From S2P Require Import Prelude GoText Identifiers Yaml IdentityPolicy.

Open Scope Z_scope.

(** ** Numbers *)

Lemma parse_format bits n : 0 ≤ n < 2 ^ bits → parse_uint (format_uint n) bits = Some n.
Proof.
  intros Hn. unfold parse_uint. assert (H := parse_format_uint n ltac:(lia)).
  destruct (format_uint_shape n ltac:(lia)) as (c & rest & Hs & _). rewrite Hs in *. rewrite H.
  destruct (Z.ltb_spec n (2 ^ bits)); [done|lia].
Qed.
Lemma parse_canonical s bits n :
  parse_uint s bits = Some n ∧ format_uint n = s ↔ 0 ≤ n < 2 ^ bits ∧ s = format_uint n.
Proof.
  split; [intros [Hp <-]|intros [Hn ->]].
  - split; [by apply parse_uint_range in Hp|done].
  - split; [by apply parse_format|done].
Qed.

(** The usable identities: all 32-bit numbers but the greatest. *)
Definition id_text (s : string) (n : Z) : Prop := 0 ≤ n < MaxID ∧ s = format_uint n.
Lemma policyID_iff s : policyID s = true ↔ ∃ n, id_text s n.
Proof.
  unfold policyID, id_text, MaxID. split.
  - destruct (parse_uint s 32) as [n|] eqn:Hp; [|done]. intros H. go_bool. destruct H as [H <-].
    exists n. apply parse_uint_range in Hp. split; [lia|done].
  - intros (n & Hn & ->). rewrite parse_format by lia. go_bool. split; [lia|done].
Qed.
Lemma id_value s n : id_text s n → uint_value s 32 = n.
Proof. unfold id_text, MaxID. intros [Hn ->]. apply uint_value_parse, parse_format. lia. Qed.
Lemma id_text_inj s t n : id_text s n → id_text t n → s = t.
Proof. by intros [_ ->] [_ ->]. Qed.
Lemma format_not_empty n : 0 ≤ n → format_uint n ≠ "".
Proof. intros Hn. by destruct (format_uint_shape n Hn) as (c & rest & -> & _). Qed.
Lemma canonicalUnsigned_iff s n : canonicalUnsignedV1 s = Some n ↔ id_text s n.
Proof.
  unfold canonicalUnsignedV1, id_text, MaxID, credentialUnchangedSentinelV1. split.
  - destruct (_ || _) eqn:Hbad; [done|]. go_bool. destruct Hbad as [Hne Hzero].
    destruct (parse_uint s 32) as [m|] eqn:Hp; [|done]. destruct (Z.eqb_spec m (2 ^ 32 - 1)); [done|]. intros [= <-].
    assert (Hr := parse_uint_range _ _ _ Hp). split; [lia|]. symmetry. apply format_parse_digits.
    + unfold parse_uint in Hp. destruct s as [|c s]; [done|]. exists c, s. simpl in Hp.
      destruct (is_digit c) eqn:Hc; [|done]. split_and!; [done|done|]. intros ->. destruct s as [|d s]; [done|].
      destruct Hzero as [Hlen|Hpre]; [unfold len in Hlen; simpl in Hlen; lia|].
      unfold has_prefix in Hpre. simpl in Hpre. by destruct s.
    + unfold parse_uint in Hp. destruct s as [|c s]; [done|]. destruct (parse_digits 0 _) as [k|]; [|done].
      destruct (k <? _); [|done]. congruence.
  - intros [Hn ->]. rewrite parse_format by lia. destruct (format_uint_shape n ltac:(lia)) as (c & rest & Hs & Hc & _ & H0).
    rewrite bool_decide_false by (by rewrite Hs). rewrite Hs. cbn [orb].
    assert ((1 <? len (String c rest)) && has_prefix (String c rest) "0" = false) as ->.
    { go_bool. destruct (decide (c = "0"%char)) as [->|Hne]; [left|right].
      - destruct (H0 eq_refl) as [_ ->]. unfold len. simpl. lia.
      - unfold has_prefix, String.prefix. destruct (ascii_dec _ c); congruence. }
    destruct (Z.eqb_spec n (2 ^ 32 - 1)); [lia|done].
Qed.
Lemma canonicalUnsigned_none s : canonicalUnsignedV1 s = None ↔ policyID s ≠ true.
Proof.
  rewrite policyID_iff. destruct (canonicalUnsignedV1 s) as [n|] eqn:E.
  - apply canonicalUnsigned_iff in E. split; [done|]. intros []. by exists n.
  - split; [|done]. intros _ [n Hn]. apply canonicalUnsigned_iff in Hn. congruence.
Qed.

#[export] Instance id_le_total : Total id_le.
Proof. intros a b. unfold id_le. lia. Qed.
#[export] Instance id_le_trans : Transitive id_le.
Proof. intros a b c. unfold id_le. lia. Qed.
Lemma sort_ids_perm ids : sort_ids ids ≡ₚ ids.
Proof. apply merge_sort_Permutation. Qed.
Lemma sort_ids_sorted ids : StronglySorted id_le (sort_ids ids).
Proof. apply Sorted_StronglySorted; [apply _|]. apply (Sorted_merge_sort _). Qed.

(** Sorting determines the order of distinct canonical numbers. *)
Lemma sort_ids_strict ids :
  Forall (λ s, policyID s = true) ids → NoDup ids →
  StronglySorted (λ a b, uint_value a 32 < uint_value b 32) (sort_ids ids).
Proof.
  intros Hc Hn. rewrite <-(sort_ids_perm ids) in Hc, Hn. assert (Hs := sort_ids_sorted ids).
  induction Hs as [|a l Hs IH Ha]; [constructor|]. apply Forall_cons in Hc as [Hca Hc]. apply NoDup_cons in Hn as [Hal Hn].
  constructor; [by apply IH|]. rewrite Forall_forall in Ha, Hc |- *. intros b Hb. specialize (Ha b Hb). specialize (Hc b Hb).
  apply policyID_iff in Hca as [n Hna], Hc as [m Hmb]. unfold id_le in Ha. rewrite (id_value _ _ Hna), (id_value _ _ Hmb) in *.
  assert (n ≠ m); [|lia]. intros <-. apply Hal. by rewrite (id_text_inj _ _ _ Hna Hmb).
Qed.

(** ** Identities *)

Definition zero_id : string := "0".
Lemma id_zero s : id_text s 0 ↔ s = zero_id.
Proof. split; [by intros [_ ->]|]. intros ->. split; [unfold MaxID; lia|done]. Qed.

Lemma supplementary_ok uid gid previous extra :
  validate_supplementary uid gid previous extra = Ok tt ↔
  Forall (λ s, policyID s = true ∧ uint_value s 32 ≠ gid ∧ (uid ≠ 0 → s ≠ zero_id)) extra
  ∧ Sorted (λ a b, uint_value a 32 < uint_value b 32) extra
  ∧ (∀ p s, previous = Some p → head extra = Some s → p < uint_value s 32).
Proof.
  revert previous. induction extra as [|s extra IH]; intros previous; simpl.
  { split; [|done]. intros _. split_and!; [done|constructor|done]. }
  destruct (canonicalUnsignedV1 s) as [n|] eqn:Hs.
  2: { apply canonicalUnsigned_none in Hs. split; [done|]. by intros ([[? _] _]%Forall_cons & _). }
  assert (policyID s = true) as Hid by (apply policyID_iff; exists n; by apply canonicalUnsigned_iff).
  apply canonicalUnsigned_iff in Hs. rewrite !reject_if_bind, IH, Forall_cons, (id_value _ _ Hs).
  assert (s ≠ zero_id ↔ n ≠ 0) as Hz.
  { rewrite <-id_zero. destruct Hs as [? ->]. split; [intros Hne ->; by apply Hne|]. intros Hne [_ He].
    apply (f_equal (parse_digits 0)) in He. rewrite !parse_format_uint in He by lia. congruence. }
  rewrite Hz. split.
  - intros (H1 & H2 & H3 & Hf & Hso & Hh). go_bool. split_and!; [done|lia|lia|done| |].
    + constructor; [done|]. destruct extra as [|t extra]; constructor. rewrite (id_value _ _ Hs). by apply Hh.
    + intros p t -> [= <-]. rewrite (id_value _ _ Hs). by go_bool.
  - intros (((_ & H1 & H2) & Hf) & [Hso Hh]%Sorted_inv & Hp). go_bool. split_and!; [done|lia| |done|done|].
    + destruct previous as [p|]; [|done]. go_bool. specialize (Hp p s eq_refl eq_refl). by rewrite (id_value _ _ Hs) in Hp.
    + intros p t [= <-] Ht. destruct extra as [|u extra]; [done|]. injection Ht as <-. apply HdRel_inv in Hh.
      by rewrite (id_value _ _ Hs) in Hh.
Qed.

(** What an account of a policy may be. *)
Definition valid_account (name uid gid : string) (extra : list string) : Prop :=
  ValidateUserName name = Ok tt ∧ policyID uid = true ∧ (uid = zero_id ↔ name = "root")
  ∧ (name ≠ "root" → gid ≠ zero_id ∧ zero_id ∉ extra).
Lemma ValidateIdentity_account name uid gid extra :
  Forall (λ s, policyID s = true) (gid :: extra) → NoDup (gid :: extra) →
  ValidateIdentityV1 (Identity name uid gid (Some (sort_ids extra))) = Ok tt ↔ valid_account name uid gid extra.
Proof.
  intros Hc Hn. unfold ValidateIdentityV1, valid_account. cbn [Username UID GID SupplementaryGIDs].
  destruct (ValidateUserName name) as [[]|]; cbn [wrap]; [rewrite bind_Ok|by split; [|intros [? _]]].
  apply Forall_cons in Hc as [Hgid Hc]. apply NoDup_cons in Hn as [Hni Hn].
  assert (Hstrict := sort_ids_strict _ Hc Hn). destruct (canonicalUnsignedV1 uid) as [u|] eqn:Hu.
  2: { apply canonicalUnsigned_none in Hu. split; [done|]. by intros (_ & ? & _). }
  apply policyID_iff in Hgid as [g Hg]. rewrite (proj2 (canonicalUnsigned_iff gid g) Hg).
  apply canonicalUnsigned_iff in Hu.
  assert (policyID uid = true) as Hid by (apply policyID_iff; by exists u).
  assert (∀ s n, id_text s n → s = zero_id ↔ n = 0) as Hz.
  { intros s n Hs. rewrite <-id_zero. split; [|by intros <-]. intros H0.
    by rewrite <-(id_value _ _ Hs), (id_value _ _ H0). }
  rewrite (Hz uid u Hu), (Hz gid g Hg), !reject_if_bind, supplementary_ok.
  assert (Forall (λ s, policyID s = true ∧ uint_value s 32 ≠ g ∧ (u ≠ 0 → s ≠ zero_id)) (sort_ids extra) ↔ (u ≠ 0 → zero_id ∉ extra)) as Hf.
  { rewrite sort_ids_perm, Forall_forall. rewrite Forall_forall in Hc. split.
    - intros H Hne Hin. destruct (H _ Hin) as (_ & _ & Hx). by apply Hx.
    - intros H s Hin. split_and!; [by apply Hc| |].
      + intros He. apply Hni. destruct (proj1 (policyID_iff s) (Hc s Hin)) as [m Hm].
        rewrite (id_value _ _ Hm) in He. subst m. by rewrite (id_text_inj _ _ _ Hg Hm).
      + intros Hne ->. by apply H. }
  rewrite Hf. apply StronglySorted_Sorted in Hstrict. go_bool. split.
  - intros (H1 & H2 & H3 & H4 & _). go_bool. assert (u = 0 ↔ name = "root") as Hroot by tauto.
    split_and!; [done|done|done|]. intros Hne. split; [tauto|]. apply H4. tauto.
  - intros (_ & _ & H1 & H2). assert (u ≠ 0 → name ≠ "root") by tauto. destruct (decide (u = 0)) as [->|Hu0].
    + assert (name = "root") as -> by tauto. split_and!; auto. done.
    + assert (name ≠ "root") by tauto. destruct H2 as [??]; [done|]. split_and!; auto. done.
Qed.

(** ** Valid policies *)

Lemma is_sorted_iff l : is_sorted l = true ↔ Sorted String.le l.
Proof.
  induction l as [|a l IH]; [split; [constructor|done]|]. destruct l as [|b l]; [split; [by repeat constructor|done]|].
  change (is_sorted (a :: b :: l)) with (negb (String.ltb b a) && is_sorted (b :: l)). rewrite andb_true_iff, IH, negb_true_iff.
  assert (String.ltb b a = false ↔ String.le a b) as H.
  { assert (Hl := string_lt_le b a). unfold string_lt in Hl. destruct (String.ltb b a).
    - split; [done|]. intros Hab. destruct (proj1 Hl eq_refl) as [? []]. by apply (anti_symm String.le).
    - split; [|done]. intros _. destruct (total String.le a b) as [|Hba]; [done|].
      destruct (decide (b = a)) as [->|Hne]; [done|]. by discriminate (proj2 Hl (conj Hba Hne)). }
  rewrite H. split; [intros [??]; constructor; [done|by constructor]|]. by intros [? ?%HdRel_inv]%Sorted_inv.
Qed.

(** Sorted without equal neighbours is strictly increasing. *)
Lemma sorted_distinct l : Sorted String.le l ∧ Sorted (≠) l ↔ Sorted string_lt l.
Proof.
  induction l as [|a l IH]; [by split; repeat constructor|]. split.
  - intros [[H1 H2]%Sorted_inv [H3 H4]%Sorted_inv]. constructor; [by apply IH|]. destruct l; constructor.
    apply HdRel_inv in H2, H4. by apply string_lt_le.
  - intros [[H1 H2]%IH H]%Sorted_inv. split; (constructor; [done|]); destruct l; constructor; apply HdRel_inv in H; by apply string_lt_le.
Qed.

Lemma injective_values {A B} (f : A → B) (m : gmap string A) :
  NoDup (map (λ entry, f entry.2) (map_to_list m)) ↔
  ∀ k k' a a', m !! k = Some a → m !! k' = Some a' → f a = f a' → k = k'.
Proof.
  split.
  - intros Hn k k' a a' Hk Hk' He. apply elem_of_map_to_list in Hk, Hk'.
    apply list_elem_of_lookup in Hk as [i Hi], Hk' as [j Hj].
    assert (i = j) as ->; [|congruence]. eapply NoDup_lookup; [exact Hn| |].
    + apply list_lookup_fmap_Some. exists (k, a). by split.
    + apply list_lookup_fmap_Some. exists (k', a'). by split; [done|].
  - intros H. apply NoDup_fmap_2_strong; [|apply NoDup_map_to_list].
    intros [k a] [k' a'] Hk Hk' He. apply elem_of_map_to_list in Hk, Hk'. simpl in He.
    assert (k = k') as <- by (by eapply H). congruence.
Qed.

(** Distinct keys, collected while the entries are checked. *)
Lemma check_groups_ok groups gids :
  check_policy_groups groups gids = Ok tt ↔
  Forall (λ entry, ValidateUserName entry.1 = Ok tt ∧ policyID entry.2 = true) groups
  ∧ NoDup (map snd groups) ∧ Forall (λ entry, entry.2 ∉ gids) groups.
Proof.
  revert gids. induction groups as [|[name id] groups IH]; intros gids; simpl; [by repeat constructor|].
  rewrite reject_if_bind, IH, !Forall_cons, NoDup_cons. simpl. go_bool. rewrite is_ok_unit.
  assert (Forall (λ entry : string * string, entry.2 ∉ ({[id]} : gset string) ∪ gids) groups ↔
    (id ∉ map snd groups) ∧ Forall (λ entry, entry.2 ∉ gids) groups) as ->; [|tauto].
  rewrite !Forall_forall. split.
  - intros H. split; [|set_solver]. intros ([n i] & -> & Hin)%list_elem_of_fmap. specialize (H _ Hin). set_solver.
  - intros [Hid H] x Hx. specialize (H x Hx). assert (x.2 ≠ id); [|set_solver]. intros <-. apply Hid.
    apply list_elem_of_fmap. by exists x.
Qed.

Lemma check_users_ok p users uids :
  check_users p users uids = Ok tt ↔
  Forall (λ entry, check_user p entry.1 entry.2 = Ok tt) users
  ∧ NoDup (map (λ entry, policy_UID entry.2) users) ∧ Forall (λ entry, policy_UID entry.2 ∉ uids) users.
Proof.
  revert uids. induction users as [|[name user] users IH]; intros uids; simpl; [by repeat constructor|].
  rewrite reject_if_bind, bind_ok, !Forall_cons, NoDup_cons. setoid_rewrite IH. simpl. go_bool.
  assert (Forall (λ entry : string * IdentityPolicyUserV1, policy_UID entry.2 ∉ ({[policy_UID user]} : gset string) ∪ uids) users ↔
    (policy_UID user ∉ map (λ entry, policy_UID entry.2) users) ∧ Forall (λ entry, policy_UID entry.2 ∉ uids) users) as H.
  { rewrite !Forall_forall. split.
    - intros H. split; [|set_solver]. intros ([n i] & He & Hin)%list_elem_of_fmap. specialize (H _ Hin). set_solver.
    - intros [Hid H] x Hx. specialize (H x Hx). assert (policy_UID x.2 ≠ policy_UID user); [|set_solver]. intros He. apply Hid.
      apply list_elem_of_fmap. by exists x. }
  split; [intros (? & [] & ?)|intros]; [|split; [tauto|exists tt]]; tauto.
Qed.

Lemma extra_gids_ok p primary previous groups extra :
  extra_gids p primary previous groups = Ok extra ↔
  Forall (λ g, is_Some (policy_Groups p !! g) ∧ g ≠ primary) groups ∧ extra = map (policy_gid p) groups
  ∧ Sorted (≠) groups ∧ (∀ q g, previous = Some q → head groups = Some g → q ≠ g).
Proof.
  revert previous extra. induction groups as [|g groups IH]; intros previous extra; simpl.
  { split; [intros [= <-]; by repeat constructor|]. by intros (_ & -> & _). }
  rewrite Forall_cons. unfold policy_gid at 1. destruct (policy_Groups p !! g) as [id|] eqn:Hg; simpl.
  2: { split; [done|]. by intros [[[[? ?] _] _] _]. }
  rewrite reject_if_bind, bind_ok. setoid_rewrite IH. go_bool. split.
  - intros ([H1 H2] & rest & (H3 & -> & H4 & H5) & [= <-]). split_and!; [done|done|done|done| |].
    + constructor; [done|]. destruct groups; constructor. by eapply H5.
    + by intros q ? -> [= <-] ->.
  - intros (([_ H1] & H2) & -> & [H3 H4]%Sorted_inv & H5). split.
    + split; [done|]. destruct previous as [q|]; [|done]. intros [= ->]. by eapply H5.
    + exists (map (policy_gid p) groups). split_and!; [done|done|done| |done]. intros q h [= <-] Hh.
      destruct groups; [done|]. injection Hh as <-. by apply HdRel_inv in H4.
Qed.

Definition valid_user (p : IdentityPolicyV1) (name : string) (user : IdentityPolicyUserV1) : Prop :=
  ∃ gid groups, policy_Groups p !! PrimaryGroup user = Some gid ∧ SupplementaryGroups user = Some groups
  ∧ (∀ text, FullName user = Some text → bad_full_name text = false)
  ∧ (length groups ≤ 64)%nat ∧ Sorted string_lt groups
  ∧ Forall (λ g, is_Some (policy_Groups p !! g) ∧ g ≠ PrimaryGroup user) groups
  ∧ valid_account name (policy_UID user) gid (map (policy_gid p) groups).
Definition valid_role (p : IdentityPolicyV1) (name : string) (role : IdentityPolicyRoleV1) : Prop :=
  ValidateUserName name = Ok tt ∧ is_Some (policy_Users p !! role_User role)
  ∧ ∃ capabilities, Capabilities role = Some capabilities ∧ Sorted string_lt capabilities
    ∧ Forall (λ c, c ∈ linux_capabilities) capabilities.
Record valid_policy (p : IdentityPolicyV1) : Prop := {
  valid_schema : policy_Schema p = IdentityPolicySchemaV1;
  valid_nonempty : policy_Users p ≠ ∅ ∧ policy_Groups p ≠ ∅ ∧ policy_Roles p ≠ ∅;
  valid_size : (size (policy_Users p) + size (policy_Groups p) + size (policy_Roles p) ≤ 1024)%nat;
  valid_groups : ∀ name id, policy_Groups p !! name = Some id → ValidateUserName name = Ok tt ∧ policyID id = true;
  valid_gids : ∀ name name' id, policy_Groups p !! name = Some id → policy_Groups p !! name' = Some id → name = name';
  valid_users : ∀ name user, policy_Users p !! name = Some user → valid_user p name user;
  valid_uids : ∀ name name' user user', policy_Users p !! name = Some user → policy_Users p !! name' = Some user' →
    policy_UID user = policy_UID user' → name = name';
  valid_roles : ∀ name role, policy_Roles p !! name = Some role → valid_role p name role
}.

Lemma Forall_entries {A} (P : string → A → Prop) (m : gmap string A) :
  Forall (λ entry, P entry.1 entry.2) (map_to_list m) ↔ ∀ k a, m !! k = Some a → P k a.
Proof.
  rewrite Forall_forall. split.
  - intros H k a Hk. by apply (H (k, a)), elem_of_map_to_list.
  - intros H [k a] Hk%elem_of_map_to_list. by apply H.
Qed.

Lemma check_user_ok p name user :
  (∀ name id, policy_Groups p !! name = Some id → policyID id = true) →
  (∀ name name' id, policy_Groups p !! name = Some id → policy_Groups p !! name' = Some id → name = name') →
  check_user p name user = Ok tt ↔ valid_user p name user.
Proof.
  intros Hids Hinj. unfold check_user, valid_user. destruct (policy_Groups p !! PrimaryGroup user) as [gid|] eqn:Hgid.
  2: { split; [done|]. by intros (? & ? & ? & _). }
  rewrite reject_if_bind. assert (Hfull : match FullName user with Some text => bad_full_name text | None => false end = false ↔
    ∀ text, FullName user = Some text → bad_full_name text = false).
  { destruct (FullName user) as [text|]; [|done]. split; [by intros ? ? [= <-]|auto]. }
  rewrite Hfull. destruct (SupplementaryGroups user) as [groups|].
  2: { split; [by intros []|]. by intros (? & ? & ? & ? & _). }
  rewrite reject_if_bind, bind_ok. setoid_rewrite extra_gids_ok. setoid_rewrite wrap_ok. go_bool. rewrite is_sorted_iff.
  assert (Forall (λ g, is_Some (policy_Groups p !! g) ∧ g ≠ PrimaryGroup user) groups → Sorted string_lt groups →
    ValidateIdentityV1 (Identity name (policy_UID user) gid (Some (sort_ids (map (policy_gid p) groups)))) = Ok tt ↔
    valid_account name (policy_UID user) gid (map (policy_gid p) groups)) as Hacc.
  { intros Hg Hs. rewrite Forall_forall in Hg. apply ValidateIdentity_account.
    - constructor; [by eapply Hids|]. apply Forall_fmap, Forall_forall. intros g Hin. unfold policy_gid. simpl.
      destruct (Hg g Hin) as [[id Hid] _]. rewrite Hid. by eapply Hids.
    - apply NoDup_cons. split.
      + intros (g & He & Hin)%list_elem_of_fmap. unfold policy_gid in He. destruct (Hg g Hin) as [[id Hid] Hne].
        rewrite Hid in He. simpl in He. subst id. apply Hne. by eapply Hinj.
      + apply NoDup_fmap_2_strong.
        * intros g h Hin Hin'. unfold policy_gid. destruct (Hg g Hin) as [[id Hid] _], (Hg h Hin') as [[id' Hid'] _].
          rewrite Hid, Hid'. simpl. intros <-. by eapply Hinj.
        * rewrite <-(list_fmap_id groups). by apply (strict_NoDup id string_lt). }
  split.
  - intros (H1 & [H2 H3] & extra & (H4 & -> & H5 & _) & H6). assert (Sorted string_lt groups) as Hs by (by apply sorted_distinct).
    exists gid, groups. split_and!; [done|done|done|lia|done|done|]. by apply Hacc.
  - intros (gid' & groups' & [= <-] & [= <-] & H1 & H2 & H3 & H4 & H5).
    destruct (proj2 (sorted_distinct groups) H3) as [Hle Hne]. split; [done|]. split; [split; [lia|done]|].
    exists (map (policy_gid p) groups). split; [by split_and!|]. by apply Hacc.
Qed.

Lemma check_role_ok p name role : check_role p name role = Ok tt ↔ valid_role p name role.
Proof.
  unfold check_role, valid_role. destruct (ValidateUserName name) as [[]|]; cbn [wrap]; [rewrite bind_Ok|by split; [|intros []]].
  rewrite reject_if_bind. go_bool. rewrite <-not_eq_None_Some. destruct (Capabilities role) as [capabilities|].
  2: { split; [by intros []|]. by intros (_ & _ & ? & ? & _). }
  rewrite reject_if_bind. go_bool. rewrite is_sorted_iff.
  rewrite (check_each_spec _ (λ c, c ∈ linux_capabilities) (≠)).
  2: { intros previous c. unfold bad_capability, linuxCapabilityNameV1. rewrite reject_if_ok. go_bool.
       destruct previous as [q|]; [|naive_solver]. split; [intros [? Hne]|intros [? H]]; (split; [done|]).
       - intros y [= <-] ->. by apply Hne.
       - intros [= ->]. by apply (H c). }
  split.
  - intros (H1 & H2 & H3 & H4 & _). split_and!; [done|done|]. exists capabilities. split_and!; [done| |done].
    by apply sorted_distinct.
  - intros (_ & H1 & capabilities' & [= <-] & H2 & H3). destruct (proj2 (sorted_distinct _) H2). by split_and!.
Qed.

Lemma ValidatePolicy_iff p : ValidatePolicy p = Ok tt ↔ valid_policy p.
Proof.
  unfold ValidatePolicy. rewrite !reject_if_bind, !bind_unit, check_groups_ok, check_users_ok.
  rewrite (check_all (λ entry, check_role p entry.1 entry.2)).
  assert (Forall (λ entry, check_role p entry.1 entry.2 = Ok tt) (map_to_list (policy_Roles p)) ↔
    Forall (λ entry, valid_role p entry.1 entry.2) (map_to_list (policy_Roles p))) as ->.
  { rewrite !Forall_forall. by setoid_rewrite check_role_ok. }
  rewrite (Forall_entries (λ name id, ValidateUserName name = Ok tt ∧ policyID id = true)).
  rewrite (Forall_entries (λ name user, check_user p name user = Ok tt)), (Forall_entries (valid_role p)).
  rewrite (injective_values (λ i, i)), (injective_values policy_UID). go_bool. split.
  - intros (H1 & H2 & (H3 & H4 & _) & (H5 & H6 & _) & H7).
    assert (∀ name name' id, policy_Groups p !! name = Some id → policy_Groups p !! name' = Some id → name = name') as Hinj.
    { intros name name' i Hn Hn'. by eapply H4. }
    split; [done|tauto|lia|done|done| |done|done]. intros name user Hu. apply check_user_ok; [|done|by apply H5].
    intros ?? Hg. by apply (H3 _ _ Hg).
  - intros [H1 (H2 & H3 & H4) H5 H6 H7 H8 H9 H10]. split; [done|]. split; [split_and!; try done; lia|].
    split_and!; [done| |by apply Forall_true| |done|by apply Forall_true|done].
    + intros k k' a a' Hk Hk' He. subst. by eapply H7.
    + intros name user Hu. apply check_user_ok; [|done|by apply H8]. intros ?? Hg. by apply (H6 _ _ Hg).
Qed.

(** C18: a policy is accepted exactly when it has users, groups and roles, at most 1024
    in all, its groups have distinct GIDs and its users distinct UIDs, canonical and
    below 2^32-1, every user has a declared primary group and at most 64 other declared
    groups, root and nobody else has the number zero as user or group, and every role
    names a declared user and sorted distinct known capabilities. *)
Theorem ValidatePolicy_spec p : ValidatePolicy p = Ok tt ↔ valid_policy p.
Proof. apply ValidatePolicy_iff. Qed.
