(* ===== verification/PolicyDigest.v ===== *)
(** * The digest of an identity policy

    Every valid policy has a canonical text, and the text determines the policy:
    a digest names one policy as far as the hash tells two such texts apart. *)

From Stdlib Require Import Ascii.
From S2P Require Import Prelude GoText Identifiers Yaml Canonical CanonicalText CanonicalFacts CanonicalReading IdentityPolicy IdentityPolicyFacts.

Open Scope Z_scope.

(** ** Plain text *)

Lemma decode_errors s : Forall (λ r, rune_valid r = false → rune_value r = 65533) (decode_runes s).
Proof.
  remember (length s) as n eqn:Hn. revert s Hn. induction (lt_wf n) as [n _ IH]. intros [|c0 s0] ->; [constructor|].
  assert (∀ t, (length t ≤ length s0)%nat → Forall (λ r, rune_valid r = false → rune_value r = 65533) (decode_runes t)) as IH'.
  { intros t Ht. apply (IH (length t)); [simpl; lia|done]. }
  assert (Hstop := Forall_cons_2 _ (rune_error c0) _ (λ _, eq_refl) (IH' s0 (Nat.le_refl _))).
  cbn [decode_runes]. destruct (utf8_lead (code c0)) as [[[size lo] hi]|]; [|by destruct s0].
  destruct size as [|[|[|[|[|size]]]]]; destruct s0 as [|c1 s1]; try done; try (by constructor; [|apply IH'; simpl; lia]).
  - destruct (in_range lo hi (code c1)); [|done]. constructor; [done|]. apply IH'. simpl. lia.
  - destruct s1 as [|c2 s2]; [done|]. destruct (_ && _); [|done]. constructor; [done|]. apply IH'. simpl. lia.
  - destruct s1 as [|c2 [|c3 s3]]; [done|done|]. destruct (_ && _ && _); [|done]. constructor; [done|]. apply IH'. simpl. lia.
Qed.

Lemma user_name_valid_runes index rs :
  Forall (λ r, rune_valid r = false → rune_value r = 65533) rs → user_name_chars index rs = true → forallb rune_valid rs = true.
Proof.
  intros He. revert index. induction He as [|r rs Hr _ IH]; intros index; [done|]. simpl.
  rewrite !andb_true_iff. intros [Hc Hrs]. split; [|by eapply IH]. destruct (rune_valid r); [done|].
  rewrite (Hr eq_refl) in Hc. unfold user_name_char in Hc. simpl in Hc. by destruct (0 <? index)%nat, (index =? 0)%nat.
Qed.
Lemma user_name_valid name : ValidateUserName name = Ok tt → valid_utf8 name = true.
Proof.
  unfold ValidateUserName. intros [_ H]%reject_if_bind. apply reject_if_ok, negb_false_iff in H.
  eapply user_name_valid_runes; [|exact H]. apply decode_errors.
Qed.

Lemma plain_runes s : forallb (λ c, code c <? 128) s = true → forallb rune_valid (decode_runes s) = true.
Proof.
  induction s as [|c s IH]; [done|]. cbn [forallb decode_runes]. intros [Hc Hs]%andb_true_iff. unfold utf8_lead. rewrite Hc.
  simpl. by apply IH.
Qed.
Lemma plain_valid s : string_forallb (λ c, code c <? 128) s = true → valid_utf8 s = true.
Proof. rewrite string_forallb_bytes. apply plain_runes. Qed.
Lemma digits_plain s : string_forallb is_digit s = true → string_forallb (λ c, code c <? 128) s = true.
Proof.
  induction s as [|c s IH]; [done|]. simpl. intros [Hc Hs]%andb_true_iff. apply andb_true_iff. split; [|by apply IH].
  unfold is_digit, in_range in Hc. go_bool. lia.
Qed.
Lemma id_valid s : policyID s = true → valid_utf8 s = true.
Proof.
  intros (n & [Hn _] & ->)%policyID_iff. destruct (format_uint_shape n Hn) as (c & rest & -> & Hc & Hr & _).
  apply plain_valid, digits_plain. simpl. by rewrite Hc, Hr.
Qed.
Lemma capability_valid c : c ∈ linux_capabilities → valid_utf8 c = true.
Proof.
  assert (Forall (λ c, valid_utf8 c = true) linux_capabilities) as H by (apply Forall_bool; vm_compute; reflexivity).
  rewrite Forall_forall in H. apply H.
Qed.

(** ** The JSON value of a policy *)

Definition texts_json (texts : option (list string)) : json :=
  match texts with None => JNull | Some texts => JArray (map JString texts) end.
Definition user_json (user : IdentityPolicyUserV1) : json :=
  JObject (list_to_map ([("uid", JString (policy_UID user))]
    ++ match FullName user with None => [] | Some text => [("full_name", JString text)] end
    ++ [("primary_group", JString (PrimaryGroup user)); ("supplementary_groups", texts_json (SupplementaryGroups user))])).
Definition role_json (role : IdentityPolicyRoleV1) : json :=
  JObject (list_to_map [("user", JString (role_User role)); ("capabilities", texts_json (Capabilities role))]).
Definition policy_json (policy : IdentityPolicyV1) : json :=
  JObject (list_to_map [("schema", JString (policy_Schema policy)); ("users", JObject (user_json <$> policy_Users policy));
    ("groups", JObject (JString <$> policy_Groups policy)); ("roles", JObject (role_json <$> policy_Roles policy))]).

Definition text_valid (texts : option (list string)) : Prop :=
  ∀ l, texts = Some l → Forall (λ s, valid_utf8 s = true) l.
Lemma texts_value_json texts : text_valid texts → json_of (texts_value texts) = Some (texts_json texts).
Proof.
  destruct texts as [l|]; [|done]. intros H. specialize (H l eq_refl). simpl. rewrite map_map.
  assert (collect_option (map (λ s, json_of (Str s)) l) = Some (map JString l)) as Hc; [|by rewrite Hc].
  apply collect_some. rewrite map_map. apply map_ext_Forall. eapply Forall_impl; [exact H|]. intros s Hs. simpl. by rewrite Hs.
Qed.

Lemma object_of_entries {A} (f : A → option json) (g : A → json) (l : list (string * A)) :
  Forall (λ e, valid_utf8 e.1 = true ∧ f e.2 = Some (g e.2)) l →
  object_of (map (λ e, (e.1, f e.2)) l) = Some (JObject (list_to_map (map (λ e, (e.1, g e.2)) l))).
Proof.
  intros H. unfold object_of. rewrite map_map, (proj2 (collect_some _ (map (λ e, (e.1, g e.2)) l))).
  - assert (forallb (λ m, valid_utf8 m.1) (map (λ e, (e.1, f e.2)) l) = true) as ->; [|done].
    apply Forall_bool, Forall_map. eapply Forall_impl; [exact H|]. by intros e [? _].
  - rewrite map_map. apply map_ext_Forall. eapply Forall_impl; [exact H|]. intros e [_ He]. simpl. by rewrite He.
Qed.
Lemma map_value_json {A} (f : A → goValue) (g : A → json) (m : gmap string A) :
  (∀ k a, m !! k = Some a → valid_utf8 k = true ∧ json_of (f a) = Some (g a)) →
  json_of (map_value f m) = Some (JObject (g <$> m)).
Proof.
  intros H. unfold map_value. cbn [json_of]. rewrite map_map. cbn [fst snd].
  rewrite (object_of_entries (λ a, json_of (f a)) g).
  2: { by apply (Forall_entries (λ k a, valid_utf8 k = true ∧ json_of (f a) = Some (g a))). }
  do 2 f_equal. rewrite <-(list_to_map_to_list m) at 2. rewrite <-list_to_map_fmap. done.
Qed.

Lemma valid_user_json p name user : valid_policy p → policy_Users p !! name = Some user → json_of (user_value user) = Some (user_json user).
Proof.
  intros Hp Hu. destruct (valid_users _ Hp _ _ Hu) as (gid & groups & Hg & Hs & Hf & _ & _ & Hgroups & (_ & Huid & _ & _)).
  assert (∀ group, is_Some (policy_Groups p !! group) → valid_utf8 group = true) as Hvalid.
  { intros group [id Hid]. by apply user_name_valid, (valid_groups _ Hp _ _ Hid). }
  assert (json_of (texts_value (SupplementaryGroups user)) = Some (texts_json (SupplementaryGroups user))) as Ht.
  { apply texts_value_json. rewrite Hs. intros l [= <-]. eapply Forall_impl; [exact Hgroups|]. intros g [? _]. by apply Hvalid. }
  unfold user_value, user_json, text_field. simpl. rewrite (id_valid _ Huid), (Hvalid (PrimaryGroup user)), Ht by (by eexists).
  destruct (FullName user) as [text|] eqn:Htext; [|done]. simpl. specialize (Hf text eq_refl). unfold bad_full_name in Hf.
  assert (valid_utf8 text = true) as ->; [|done]. go_bool. tauto.
Qed.
Lemma valid_role_json p name role : valid_policy p → policy_Roles p !! name = Some role → json_of (role_value role) = Some (role_json role).
Proof.
  intros Hp Hr. destruct (valid_roles _ Hp _ _ Hr) as (_ & [user Hu] & capabilities & Hc & _ & Hcaps).
  assert (json_of (texts_value (Capabilities role)) = Some (texts_json (Capabilities role))) as Ht.
  { apply texts_value_json. rewrite Hc. intros l [= <-]. eapply Forall_impl; [exact Hcaps|]. apply capability_valid. }
  assert (valid_utf8 (role_User role) = true) as Hv.
  { destruct (valid_users _ Hp _ _ Hu) as (? & ? & _ & _ & _ & _ & _ & _ & (Hname & _)). by apply user_name_valid. }
  unfold role_value, role_json, text_field. simpl. by rewrite Hv, Ht.
Qed.
Lemma valid_policy_json p : valid_policy p → json_of (policy_value p) = Some (policy_json p).
Proof.
  intros Hp. unfold policy_value, policy_json, text_field.
  assert (json_of (map_value user_value (policy_Users p)) = Some (JObject (user_json <$> policy_Users p))) as Hu.
  { apply map_value_json. intros name user Hin. split; [|by eapply valid_user_json].
    destruct (valid_users _ Hp _ _ Hin) as (? & ? & _ & _ & _ & _ & _ & _ & (Hname & _)). by apply user_name_valid. }
  assert (json_of (map_value Str (policy_Groups p)) = Some (JObject (JString <$> policy_Groups p))) as Hg.
  { apply map_value_json. intros name id Hin. destruct (valid_groups _ Hp _ _ Hin) as [Hn Hi].
    split; [by apply user_name_valid|]. simpl. by rewrite (id_valid _ Hi). }
  assert (json_of (map_value role_value (policy_Roles p)) = Some (JObject (role_json <$> policy_Roles p))) as Hr.
  { apply map_value_json. intros name role Hin. split; [|by eapply valid_role_json].
    destruct (valid_roles _ Hp _ _ Hin) as (Hname & _). by apply user_name_valid. }
  cbn [json_of map fst snd]. rewrite Hu, Hg, Hr. rewrite (valid_schema _ Hp). reflexivity.
Qed.

(** ** The value determines the policy *)

Lemma texts_json_inj a b : texts_json a = texts_json b → a = b.
Proof.
  destruct a as [a|], b as [b|]; simpl; try done. intros [= H]. f_equal. revert b H.
  induction a as [|x a IH]; intros [|y b]; try done. simpl. intros [= -> H]. f_equal. by apply IH.
Qed.
Definition json_members (j : json) : gmap string json := match j with JObject ms => ms | _ => ∅ end.
Lemma json_member k j j' : j = j' → json_members j !! k = json_members j' !! k.
Proof. by intros ->. Qed.
Lemma user_json_inj a b : user_json a = user_json b → a = b.
Proof.
  intros H. assert (Hk := λ k, json_member k _ _ H).
  clear H. destruct a as [u f p s], b as [u' f' p' s']. simpl in Hk.
  assert (H1 := Hk "uid"). assert (H2 := Hk "full_name"). assert (H3 := Hk "primary_group"). assert (H4 := Hk "supplementary_groups").
  destruct f as [f|], f' as [f'|]; simpl in *;
    repeat (rewrite lookup_insert_eq in * || rewrite lookup_insert_ne in * by done || rewrite lookup_empty in *); simplify_eq;
    f_equal; by apply texts_json_inj.
Qed.
Lemma role_json_inj a b : role_json a = role_json b → a = b.
Proof.
  intros H. destruct a as [u c], b as [u' c'].
  assert (H1 := json_member "user" _ _ H). assert (H2 := json_member "capabilities" _ _ H). clear H. simpl in *.
  repeat (rewrite lookup_insert_eq in * || rewrite lookup_insert_ne in * by done). simplify_eq. f_equal. by apply texts_json_inj.
Qed.
Lemma policy_json_inj p q : policy_json p = policy_json q → p = q.
Proof.
  intros H. destruct p as [s u g r], q as [s' u' g' r'].
  assert (H1 := json_member "schema" _ _ H). assert (H2 := json_member "users" _ _ H).
  assert (H3 := json_member "groups" _ _ H). assert (H4 := json_member "roles" _ _ H). clear H. simpl in *.
  repeat (rewrite lookup_insert_eq in * || rewrite lookup_insert_ne in * by done). simplify_eq.
  f_equal; apply map_eq; intros k.
  - assert (H := f_equal (lookup k) H2). rewrite !lookup_fmap in H. destruct (u !! k), (u' !! k); try done.
    f_equal. apply user_json_inj. by apply (inj Some) in H.
  - assert (H := f_equal (lookup k) H3). rewrite !lookup_fmap in H. by destruct (g !! k), (g' !! k); simplify_eq/=.
  - assert (H := f_equal (lookup k) H4). rewrite !lookup_fmap in H. destruct (r !! k), (r' !! k); try done.
    f_equal. apply role_json_inj. by apply (inj Some) in H.
Qed.

(** ** Digests *)

Lemma map_value_wf {A} (f : A → goValue) (m : gmap string A) :
  (∀ a, wf_value (f a) = true) → wf_value (map_value f m) = true.
Proof.
  intros H. unfold map_value. simpl. apply andb_true_iff. split.
  - apply bool_decide_eq_true. assert ((map (λ entry, (entry.1, f entry.2)) (map_to_list m)).*1 = (map_to_list m).*1) as Hk.
    { change (map fst (map (λ entry, (entry.1, f entry.2)) (map_to_list m)) = map fst (map_to_list m)). by rewrite map_map. }
    rewrite Hk. apply NoDup_fst_map_to_list.
  - apply Forall_bool, Forall_map, Forall_true. intros entry. simpl. apply H.
Qed.
Lemma texts_value_wf texts : wf_value (texts_value texts) = true.
Proof. destruct texts as [l|]; [|done]. simpl. apply Forall_bool, Forall_map, Forall_true. done. Qed.
Lemma policy_value_wf p : wf_value (policy_value p) = true.
Proof.
  unfold policy_value, text_field. cbn [wf_value forallb snd].
  rewrite !map_value_wf; [done|..]; intros a; [|done|]; unfold role_value, user_value, text_field; cbn [wf_value forallb snd];
    rewrite texts_value_wf; [done|]. by destruct (FullName a).
Qed.

Definition policy_sum (sha256 : list ascii → list ascii) (p : IdentityPolicyV1) : result string :=
  Sum sha256 "identity-policy" IdentityPolicySchemaV1 (Ref (policy_value p)).

Lemma policy_sum_ok sha256 p : valid_policy p → ∃ d, policy_sum sha256 p = Ok d.
Proof.
  intros Hp. assert (writes (policy_value p)) as Hw by (apply write_value, policy_value_wf).
  unfold writes in Hw. rewrite (valid_policy_json p Hp) in Hw.
  destruct (write (policy_value p)) as [payload|] eqn:E; [|discriminate Hw]. eexists. apply Sum_ok.
  split; [by vm_compute|]. split; [by vm_compute|]. exists payload. split; [exact E|reflexivity].
Qed.
(** The canonical text of a policy, and what its digest hashes. *)
Definition policy_text (p : IdentityPolicyV1) : result (list ascii) := Marshal (Ref (policy_value p)).
Definition policy_preimage (text : list ascii) : list ascii := identity_preimage "identity-policy" IdentityPolicySchemaV1 text.
Lemma policy_sum_inj sha256 p q d d' :
  valid_policy p → valid_policy q → policy_sum sha256 p = Ok d → policy_sum sha256 q = Ok d' →
  ∃ a b, policy_text p = Ok a ∧ policy_text q = Ok b ∧ (a = b ↔ p = q)
  ∧ (d = d' ↔ sha256 (policy_preimage a) = sha256 (policy_preimage b)).
Proof.
  intros Hp Hq Hd Hd'. unfold policy_sum, policy_text, policy_preimage in *.
  destruct (Sum_names sha256 _ _ _ _ _ _ _ _ (policy_value_wf p) (policy_value_wf q) Hd Hd')
    as (? & ? & (a & Ha & ->) & (b & Hb & ->) & He & Ht).
  exists a, b. split; [done|]. split; [done|]. split; [|done]. split.
  - intros ->. destruct (proj1 Ht eq_refl) as (_ & _ & Hj). cbn [json_of] in Hj. rewrite !valid_policy_json in Hj by done.
    apply (inj Some) in Hj. by apply policy_json_inj.
  - intros ->. congruence.
Qed.
