(* ===== verification/ImageIdentity.v ===== *)
(** * Accounts of an image

    [internal/deploy/image_identity_files.go], [image_identity_evidence.go] and
    [identity_policy_lock.go]: the users and groups in the account files of an
    image, the evidence that they are those of an identity policy, and the lock
    that keeps both.

    A scanner fails on a line longer than its buffer, which is longer than the
    limit on lines; a failure on a long line is one on the limit, since what the
    visits of earlier lines did is dropped with any failure. *)

From Stdlib Require Import Ascii.
From S2P Require Import Prelude GoText Identifiers Canonical Platform IdentityPolicy.

Open Scope Z_scope.

(** ** Account files *)

Definition imageIdentityFileLimitV1 : Z := 1048576.
Definition imageIdentityLineLimitV1 : Z := 65536.

Definition imageAccountIDV1 (value : string) : bool :=
  match parse_uint value 32 with
  | Some n => (n <? 4294967295) && bool_decide (format_uint n = value)
  | None => false
  end.

Definition account_rune (character : Z) : bool :=
  negb ((character <=? 32) || (character =? 127) || (character =? 58)).
Definition imageAccountNameV1 (name : string) : bool :=
  negb (bool_decide (name = "") || has_prefix name "+" || has_prefix name "-" || negb (valid_utf8 name))
  && forallb (λ r, account_rune (rune_value r)) (runes name).

Definition LF : ascii := "010"%char.
Definition separators : string := String " "%char (String "009"%char (String "011"%char (String "012"%char ""))).

(** [bufio.ScanLines]: no line after a final newline. *)
Fixpoint drop_last_empty (lines : list string) : list string :=
  match lines with
  | [] => []
  | [last] => if bool_decide (last = "") then [] else [last]
  | line :: rest => line :: drop_last_empty rest
  end.
Definition scan_lines (content : string) : list string := drop_last_empty (split_byte content LF).

(** Blank lines and comments. *)
Definition ignored_line (line : string) : bool :=
  let trimmed := trim_left line separators in bool_decide (trimmed = "") || has_prefix trimmed "#".

(** The variables that [visit] assigns are a state; [None] is a failure. *)
Section lines.
Context {S : Type} (visit : S → string → option S).
Fixpoint visit_lines (lines : list string) (s : S) : option S :=
  match lines with
  | [] => Some s
  | line :: rest =>
    if imageIdentityLineLimitV1 <? len line then None
    else if ignored_line line then visit_lines rest s
    else s ← visit s line; visit_lines rest s
  end.
Definition imageAccountLinesV1 (content : string) (s : S) : option S :=
  if contains_byte content "013"%char then None else visit_lines (scan_lines content) s.
End lines.

Record imageAccountV1 := ImageAccount { account_uid : string; account_gid : string }.
Record imageGroupV1 := ImageGroup { group_gid : string; members : gset string }.

Definition user_line (s : gmap string imageAccountV1 * gset string) (line : string)
    : option (gmap string imageAccountV1 * gset string) :=
  let '(users, uids) := s in
  match split_byte line ":"%char with
  | [name; _; uid; gid; _; _; _] =>
    if negb (imageAccountNameV1 name) || negb (imageAccountIDV1 uid) || negb (imageAccountIDV1 gid)
       || bool_decide (uid ∈ uids) then None
    else if bool_decide (is_Some (users !! name)) then None
    else Some (<[name := ImageAccount uid gid]> users, {[uid]} ∪ uids)
  | _ => None
  end.

Fixpoint group_members (users : gmap string imageAccountV1) (names : list string) (members : gset string)
    : option (gset string) :=
  match names with
  | [] => Some members
  | name :: rest =>
    if negb (imageAccountNameV1 name) || bool_decide (name ∈ members) then None
    else if bool_decide (users !! name = None) then None
    else group_members users rest ({[name]} ∪ members)
  end.
Definition group_line (users : gmap string imageAccountV1) (s : gmap string imageGroupV1 * gset string) (line : string)
    : option (gmap string imageGroupV1 * gset string) :=
  let '(groups, gids) := s in
  match split_byte line ":"%char with
  | [name; _; gid; names] =>
    if negb (imageAccountNameV1 name) || negb (imageAccountIDV1 gid) || bool_decide (gid ∈ gids) then None
    else if bool_decide (is_Some (groups !! name)) then None
    else
      members ← (if bool_decide (names = "") then Some ∅ else group_members users (split_byte names ","%char) ∅);
      Some (<[name := ImageGroup gid members]> groups, {[gid]} ∪ gids)
  | _ => None
  end.

(** The state: the databases seen and whether the last line continues. *)
Definition nss_line (s : gset string * bool) (line : string) : option (gset string * bool) :=
  let '(seen, previousContinued) := s in
  let line := match cut_byte line "#"%char with Some (before, _) => before | None => line end in
  let continued := has_suffix (trim_right line separators) "\" in
  let line := trim_left line separators in
  let '(key, after) := split_any line (String ":"%char separators) in
  if negb (bool_decide (key = "passwd")) && negb (bool_decide (key = "group")) then Some (seen, continued)
  else
    match trim_left after separators with
    | String ":"%char sources =>
      if previousContinued || bool_decide (key ∈ seen) || negb (bool_decide (trim sources separators = "files")) then None
      else Some ({[key]} ∪ seen, continued)
    | _ => None
    end.

Definition parseImageAccountsV1 (files : gmap string string)
    : option (gmap string imageAccountV1 * gmap string imageGroupV1) :=
  '(users, _) ← imageAccountLinesV1 user_line (default "" (files !! "etc/passwd")) (∅, ∅);
  '(groups, gids) ← imageAccountLinesV1 (group_line users) (default "" (files !! "etc/group")) (∅, ∅);
  if bool_decide (Exists (λ entry, account_gid entry.2 ∉ gids) (map_to_list users)) then None
  else
    '(seen, _) ← imageAccountLinesV1 nss_line (default "" (files !! "etc/nsswitch.conf")) (∅, false);
    if negb (bool_decide ("passwd" ∈ seen)) || negb (bool_decide ("group" ∈ seen)) then None else Some (users, groups).

(** ** Images *)

(** [internal/providers/bundle.go]. *)
Record RealizedImageV1 := RealizedImage {
  image_Digest : string;
  ConfigDigest : string;
  image_RootFSSubject : string
}.
#[export] Instance RealizedImageV1_eq_dec : EqDecision RealizedImageV1.
Proof. solve_decision. Defined.
Definition ValidateImage (image : RealizedImageV1) : result unit :=
  _ ← wrap (ValidateDigest (image_Digest image)) "image digest";
  _ ← wrap (ValidateDigest (ConfigDigest image)) "image config digest";
  wrap (ValidateDigest (image_RootFSSubject image)) "image rootfs subject".

(** ** Evidence *)

Definition ImageIdentityEvidenceSchemaV1 : string := "image-identity-evidence-v1".
Definition imageIdentityPathsV1 : list string := ["etc/passwd"; "etc/group"; "etc/nsswitch.conf"].

Record ImageIdentityFileV1 := ImageFile { file_Digest : string; file_Size : string }.
Record ImageIdentityEvidenceV1 := Evidence {
  evidence_Schema : string;
  evidence_Image : RealizedImageV1;
  evidence_Platform : Platform;
  PolicyDigest : string;
  Files : gmap string ImageIdentityFileV1;
  evidence_Users : list IdentityV1;
  evidence_Groups : gmap string string
}.
#[export] Instance ImageIdentityFileV1_eq_dec : EqDecision ImageIdentityFileV1.
Proof. solve_decision. Defined.
#[export] Instance ImageIdentityEvidenceV1_eq_dec : EqDecision ImageIdentityEvidenceV1.
Proof. solve_decision. Defined.

Definition compareImageIDsV1 (a b : string) : Z :=
  let x := uint_value a 32 in
  let y := uint_value b 32 in
  if x <? y then -1 else if y <? x then 1 else 0.
Definition uid_le (a b : IdentityV1) : Prop := compareImageIDsV1 (UID a) (UID b) ≤ 0.
#[export] Instance uid_le_dec a b : Decision (uid_le a b).
Proof. unfold uid_le. apply _. Defined.

Section evidence.
(** [crypto/sha256]. *)
Context (sha256 : list ascii → list ascii).

Definition imageIdentityInputsV1 (policy : option IdentityPolicyV1) (image : RealizedImageV1) (platform : Platform)
    : result string :=
  match policy with
  | None => Err "invalid policy"
  | Some policy =>
    _ ← wrap (ValidatePolicy policy) "invalid policy";
    _ ← reject_if (negb (is_ok (ValidateImage image)) || negb (is_ok (ValidatePlatform platform))
                   || negb (bool_decide (OS platform = "linux"))) "invalid image or Linux platform";
    Sum sha256 "identity-policy" IdentityPolicySchemaV1 (Ref (policy_value policy))
  end.

Definition invalid_evidence : string := "invalid structure or binding".
Definition bad_file_size (size : string) : bool :=
  match parse_uint size 32 with
  | Some n => (n =? 0) || (imageIdentityFileLimitV1 <? n) || negb (bool_decide (format_uint n = size))
  | None => true
  end.
Definition check_file (files : gmap string ImageIdentityFileV1) (path : string) : result unit :=
  match files !! path with
  | None => Err invalid_evidence
  | Some file => reject_if (negb (is_ok (ValidateDigest (file_Digest file))) || bad_file_size (file_Size file)) invalid_evidence
  end.
Definition declared_gids (policy : IdentityPolicyV1) (user : IdentityPolicyUserV1) : list string :=
  sort_ids (map (policy_gid policy) (default [] (SupplementaryGroups user))).
Definition check_evidence_user (policy : IdentityPolicyV1) (previous : option IdentityV1) (user : IdentityV1) : result unit :=
  match policy_Users policy !! Username user with
  | None => Err invalid_evidence
  | Some declared =>
    _ ← reject_if (negb (is_ok (ValidateIdentityV1 user)) || negb (bool_decide (UID user = policy_UID declared))
                   || negb (bool_decide (GID user = policy_gid policy (PrimaryGroup declared)))
                   || match previous with Some p => 0 <=? compareImageIDsV1 (UID p) (UID user) | None => false end) invalid_evidence;
    reject_if (negb (bool_decide (default [] (SupplementaryGIDs user) = declared_gids policy declared))) invalid_evidence
  end.

Definition ValidateImageIdentityEvidenceV1 (evidence : ImageIdentityEvidenceV1) (policy : option IdentityPolicyV1)
    (image : RealizedImageV1) (platform : Platform) : result unit :=
  digest ← imageIdentityInputsV1 policy image platform;
  match policy with
  | None => Ok tt
  | Some policy =>
    _ ← reject_if (negb (bool_decide (evidence_Schema evidence = ImageIdentityEvidenceSchemaV1))
                   || negb (bool_decide (evidence_Image evidence = image)) || negb (bool_decide (evidence_Platform evidence = platform))
                   || negb (bool_decide (PolicyDigest evidence = digest)) || negb (size (Files evidence) =? 3)%nat
                   || negb (length (evidence_Users evidence) =? size (policy_Users policy))%nat
                   || negb (bool_decide (evidence_Groups evidence = policy_Groups policy))) invalid_evidence;
    _ ← check_each (λ _, check_file (Files evidence)) None imageIdentityPathsV1;
    check_each (check_evidence_user policy) None (evidence_Users evidence)
  end.

Definition invalid_sources : string := "invalid account sources or policy relationships".
(** [hex.EncodeToString]. *)
Definition hex_text (bytes : list ascii) : string := String.string_of_list_ascii (concat (map hex_byte bytes)).
Definition summarize (content : string) : ImageIdentityFileV1 :=
  ImageFile ("sha256:" +:+ hex_text (sha256 (bytes content))) (format_uint (len content)).
Fixpoint summarize_files (files : gmap string string) (paths : list string) : result (gmap string ImageIdentityFileV1) :=
  match paths with
  | [] => Ok ∅
  | path :: rest =>
    let content := default "" (files !! path) in
    _ ← reject_if ((len content =? 0) || (imageIdentityFileLimitV1 <? len content) || contains_byte content "000"%char)
          invalid_sources;
    summaries ← summarize_files files rest;
    Ok (<[path := summarize content]> summaries)
  end.

Definition image_group (groups : gmap string imageGroupV1) (name : string) (_ : string) : result string :=
  match groups !! name with Some group => Ok (group_gid group) | None => Err invalid_sources end.
(** The other groups of an account. *)
Definition other_gids (groups : gmap string imageGroupV1) (name gid : string) : list string :=
  sort_ids (omap (λ entry, if bool_decide (name ∈ members entry.2) && negb (bool_decide (group_gid entry.2 = gid))
                           then Some (group_gid entry.2) else None) (map_to_list groups)).
Definition image_user (users : gmap string imageAccountV1) (groups : gmap string imageGroupV1) (name : string) : result IdentityV1 :=
  match users !! name with
  | Some user =>
    Ok (Identity name (account_uid user) (account_gid user) (Some (other_gids groups name (account_gid user))))
  | None => Err invalid_sources
  end.

Definition VerifyImageIdentityFilesV1 (policy : option IdentityPolicyV1) (image : RealizedImageV1) (platform : Platform)
    (files : gmap string string) : result ImageIdentityEvidenceV1 :=
  digest ← imageIdentityInputsV1 policy image platform;
  match policy with
  | None => Err "invalid policy"
  | Some declared =>
    _ ← reject_if (negb (size files =? 3)%nat) invalid_sources;
    summaries ← summarize_files files imageIdentityPathsV1;
    match parseImageAccountsV1 files with
    | None => Err invalid_sources
    | Some (users, groups) =>
      evidence_groups ← traverse_map (image_group groups) (policy_Groups declared);
      evidence_users ← mapM (λ entry, image_user users groups entry.1) (map_to_list (policy_Users declared));
      let evidence := Evidence ImageIdentityEvidenceSchemaV1 image platform digest summaries
                        (merge_sort uid_le evidence_users) evidence_groups in
      _ ← wrap (ValidateImageIdentityEvidenceV1 evidence policy image platform) invalid_sources;
      Ok evidence
    end
  end.

(** ** The lock *)

Definition IdentityPolicyLockSchemaV1 : string := "identity-policy-lock-v1".
Record IdentityPolicyLockV1 := PolicyLock {
  lock_Schema : string;
  lock_Policy : IdentityPolicyV1;
  lock_Evidence : ImageIdentityEvidenceV1
}.
Definition ValidateIdentityPolicyLockV1 (lock : option IdentityPolicyLockV1) (image : RealizedImageV1) (platform : Platform)
    : result unit :=
  match lock with
  | None => Ok tt
  | Some lock =>
    _ ← reject_if (negb (bool_decide (lock_Schema lock = IdentityPolicyLockSchemaV1))) "identity policy lock has unsupported schema";
    ValidateImageIdentityEvidenceV1 (lock_Evidence lock) (Some (lock_Policy lock)) image platform
  end.
End evidence.
