(* ===== verification/ImageIdentityFacts.v ===== *)
(** * What account files prove

    A reading of the account files is a well-formed database, and the files of an
    image verify exactly when their accounts are those of the policy. *)

From Stdlib Require Import Ascii.
From S2P Require Import Prelude GoText Identifiers Canonical CanonicalReading Platform IdentityPolicy IdentityPolicyFacts PolicyDigest ImageIdentity.

Open Scope Z_scope.

(** ** Account files *)

Lemma account_id_iff s : imageAccountIDV1 s = policyID s.
Proof. done. Qed.

(** What every visit keeps, all of them keep. *)
Lemma visit_lines_keep {S} (visit : S → string → option S) (P : S → Prop) lines :
  (∀ s line s', P s → visit s line = Some s' → P s') → ∀ s s', P s → visit_lines visit lines s = Some s' → P s'.
Proof.
  intros Hvisit. induction lines as [|line lines IH]; intros s s' Hs; simpl; [by intros [= <-]|].
  destruct (_ <? len line); [done|]. destruct (ignored_line line); [by apply IH|].
  intros (t & Ht & H)%bind_Some. by eapply IH; [eapply Hvisit|].
Qed.
Lemma account_lines_keep {S} (visit : S → string → option S) (P : S → Prop) content s s' :
  (∀ s line s', P s → visit s line = Some s' → P s') → P s → imageAccountLinesV1 visit content s = Some s' → P s'.
Proof. intros Hv Hs. unfold imageAccountLinesV1. destruct (contains_byte _ _); [done|]. by apply visit_lines_keep. Qed.

(** Accounts with distinct canonical numbers, which are collected beside them. *)
Definition user_table (s : gmap string imageAccountV1 * gset string) : Prop :=
  (∀ name a, s.1 !! name = Some a → account_uid a ∈ s.2 ∧ policyID (account_uid a) = true ∧ policyID (account_gid a) = true)
  ∧ (∀ name name' a a', s.1 !! name = Some a → s.1 !! name' = Some a' → account_uid a = account_uid a' → name = name').
Definition group_table (users : gmap string imageAccountV1) (s : gmap string imageGroupV1 * gset string) : Prop :=
  (∀ name g, s.1 !! name = Some g → group_gid g ∈ s.2 ∧ policyID (group_gid g) = true ∧ ∀ m, m ∈ members g → is_Some (users !! m))
  ∧ (∀ gid, gid ∈ s.2 → ∃ name g, s.1 !! name = Some g ∧ group_gid g = gid)
  ∧ (∀ name name' g g', s.1 !! name = Some g → s.1 !! name' = Some g' → group_gid g = group_gid g' → name = name').

Lemma user_line_keeps s line s' : user_table s → user_line s line = Some s' → user_table s'.
Proof.
  destruct s as [users uids]. intros [Hu Hi]. unfold user_line.
  destruct (split_byte line _) as [|name [|password [|uid [|gid [|gecos [|home [|shell [|]]]]]]]]; try done.
  destruct (_ || _) eqn:Hbad; [done|].
  rewrite !orb_false_iff, !negb_false_iff, bool_decide_eq_false in Hbad. destruct Hbad as [[[_ Huid] Hgid] Hfresh].
  case_bool_decide as Hnew; [done|]. intros [= <-].
  split; simpl.
  - intros n a [[<- <-]|[Hne Ha]]%lookup_insert_Some; [split_and!; [set_solver|done|done]|].
    destruct (Hu n a Ha) as (? & ? & ?). split_and!; [set_solver|done|done].
  - intros n n' a a' [[<- <-]|[Hne Ha]]%lookup_insert_Some [[<- <-]|[Hne' Ha']]%lookup_insert_Some; simpl; [done| | |by apply Hi].
    + intros He. destruct (Hu _ _ Ha') as [H _]. simpl in H. by rewrite <-He in H.
    + intros He. destruct (Hu _ _ Ha) as [H _]. simpl in H. by rewrite He in H.
Qed.

Lemma group_members_in users names : ∀ ms ms', group_members users names ms = Some ms' →
  (∀ m, m ∈ ms → is_Some (users !! m)) → ∀ m, m ∈ ms' → is_Some (users !! m).
Proof.
  induction names as [|name names IH]; intros ms ms'; simpl; [by intros [= <-]|].
  destruct (_ || _); [done|]. case_bool_decide as Hin; [done|]. intros H Hms. apply (IH _ _ H). intros m.
  rewrite elem_of_union, elem_of_singleton. intros [->|?]; [by apply not_eq_None_Some|auto].
Qed.
Lemma group_line_keeps users s line s' : group_table users s → group_line users s line = Some s' → group_table users s'.
Proof.
  destruct s as [groups gids]. intros (Hg & Hs & Hi). unfold group_line.
  destruct (split_byte line _) as [|name [|password [|gid [|names [|]]]]]; try done.
  destruct (_ || _) eqn:Hbad; [done|].
  rewrite !orb_false_iff, !negb_false_iff, bool_decide_eq_false in Hbad. destruct Hbad as [[_ Hgid] Hfresh].
  case_bool_decide as Hnew; [done|]. intros (ms & Hms & [= <-])%bind_Some.
  assert (∀ m, m ∈ ms → is_Some (users !! m)) as Hin.
  { case_bool_decide; [injection Hms as <-; set_solver|]. by eapply group_members_in; [exact Hms|set_solver]. }
  split_and!; simpl.
  - intros n g [[<- <-]|[Hne Ha]]%lookup_insert_Some; [split_and!; [set_solver|done|done]|].
    destruct (Hg n g Ha) as (? & ? & ?). split_and!; [set_solver|done|done].
  - intros i [->%elem_of_singleton|Hin']%elem_of_union.
    + exists name, (ImageGroup gid ms). by rewrite lookup_insert_eq.
    + destruct (Hs i Hin') as (n & g & Hn & He). exists n, g. split; [|done]. rewrite lookup_insert_ne; [done|].
      intros ->. apply Hnew. by eexists.
  - intros n n' g g' [[<- <-]|[Hne Ha]]%lookup_insert_Some [[<- <-]|[Hne' Ha']]%lookup_insert_Some; simpl; [done| | |by apply Hi].
    + intros He. destruct (Hg _ _ Ha') as [H _]. simpl in H. by rewrite <-He in H.
    + intros He. destruct (Hg _ _ Ha) as [H _]. simpl in H. by rewrite He in H.
Qed.

(** The database that the files describe. *)
Record accounts_ok (users : gmap string imageAccountV1) (groups : gmap string imageGroupV1) : Prop := {
  ok_ids : ∀ name a, users !! name = Some a → policyID (account_uid a) = true ∧ policyID (account_gid a) = true;
  ok_uids : ∀ name name' a a', users !! name = Some a → users !! name' = Some a' → account_uid a = account_uid a' → name = name';
  ok_gids : ∀ name name' g g', groups !! name = Some g → groups !! name' = Some g' → group_gid g = group_gid g' → name = name';
  ok_group_ids : ∀ name g, groups !! name = Some g → policyID (group_gid g) = true;
  ok_members : ∀ name g m, groups !! name = Some g → m ∈ members g → is_Some (users !! m);
  ok_primary : ∀ name a, users !! name = Some a → ∃ group g, groups !! group = Some g ∧ group_gid g = account_gid a
}.
Lemma parse_accounts_ok files users groups : parseImageAccountsV1 files = Some (users, groups) → accounts_ok users groups.
Proof.
  unfold parseImageAccountsV1. intros ([us uids] & Hu & H)%bind_Some. apply bind_Some in H as ([gs gids] & Hg & H).
  case_bool_decide as Hprimary; [done|]. apply bind_Some in H as ([seen continued] & _ & H). destruct (_ || _); [done|].
  injection H as <- <-.
  assert (user_table (us, uids)) as [Hu1 Hu2].
  { eapply (account_lines_keep user_line user_table); [apply user_line_keeps| |exact Hu]. by split. }
  assert (group_table us (gs, gids)) as (Hg1 & Hg2 & Hg3).
  { eapply (account_lines_keep (group_line us) (group_table us)); [apply group_line_keeps| |exact Hg]. by split_and!; [|set_solver|]. }
  simpl in *. split.
  - intros name a Ha. by apply (Hu1 name a).
  - done.
  - done.
  - intros name g Ha. by apply (Hg1 name g).
  - intros name g m Ha. apply (Hg1 name g Ha).
  - intros name a Ha. apply Hg2. destruct (decide (account_gid a ∈ gids)) as [|Hn]; [done|]. exfalso. apply Hprimary.
    apply Exists_exists. exists (name, a). by rewrite elem_of_map_to_list.
Qed.

(** ** Evidence *)

(** The identity that a policy declares for a user. *)
Definition declared_identity (policy : IdentityPolicyV1) (entry : string * IdentityPolicyUserV1) : IdentityV1 :=
  Identity entry.1 (policy_UID entry.2) (policy_gid policy (PrimaryGroup entry.2)) (Some (declared_gids policy entry.2)).
Definition declared_identities (policy : IdentityPolicyV1) : list IdentityV1 :=
  merge_sort uid_le (map (declared_identity policy) (map_to_list (policy_Users policy))).

Lemma compare_ids a b : compareImageIDsV1 a b < 0 ↔ uint_value a 32 < uint_value b 32.
Proof.
  unfold compareImageIDsV1. destruct (Z.ltb_spec (uint_value a 32) (uint_value b 32)); [lia|].
  destruct (Z.ltb_spec (uint_value b 32) (uint_value a 32)); lia.
Qed.
Lemma compare_ids_le a b : compareImageIDsV1 a b ≤ 0 ↔ uint_value a 32 ≤ uint_value b 32.
Proof.
  unfold compareImageIDsV1. destruct (Z.ltb_spec (uint_value a 32) (uint_value b 32)); [lia|].
  destruct (Z.ltb_spec (uint_value b 32) (uint_value a 32)); lia.
Qed.
#[export] Instance uid_le_total : Total uid_le.
Proof. intros a b. unfold uid_le. rewrite !compare_ids_le. lia. Qed.
#[export] Instance uid_le_trans : Transitive uid_le.
Proof. intros a b c. unfold uid_le. rewrite !compare_ids_le. lia. Qed.
Lemma sorted_identities l : StronglySorted uid_le (merge_sort uid_le l).
Proof. apply Sorted_StronglySorted; [apply _|]. apply (Sorted_merge_sort _). Qed.

(** A sorted list without repetitions is strictly sorted. *)
Lemma strict_sorted {A} (R R' : A → A → Prop) l :
  (∀ a b, R' a b ∨ R b a) → (∀ a b, a ∈ l → b ∈ l → R a b → R b a → a = b) → NoDup l → StronglySorted R l → StronglySorted R' l.
Proof.
  intros Hn Ha Hnd Hs. induction Hs as [|a l Hs IH Hl]; [constructor|]. apply NoDup_cons in Hnd as [Hal Hnd].
  constructor; [apply IH; [|done]; intros; apply Ha; by try right|]. rewrite Forall_forall in Hl |- *. intros b Hb.
  destruct (Hn a b) as [|Hba]; [done|]. destruct Hal. rewrite (Ha a b); [done|left|right|auto|]; done.
Qed.

Section policy.
Context (policy : IdentityPolicyV1) (Hpolicy : valid_policy policy).

Lemma declared_name name user : policy_Users policy !! name = Some user →
  ∃ gid groups, policy_Groups policy !! PrimaryGroup user = Some gid ∧ SupplementaryGroups user = Some groups
  ∧ policy_gid policy (PrimaryGroup user) = gid
  ∧ Forall (λ s, policyID s = true) (gid :: map (policy_gid policy) groups) ∧ NoDup (gid :: map (policy_gid policy) groups)
  ∧ valid_account name (policy_UID user) gid (map (policy_gid policy) groups).
Proof using Hpolicy.
  intros Hu. destruct (valid_users _ Hpolicy _ _ Hu) as (gid & groups & H1 & H2 & _ & _ & H3 & H4 & H5).
  assert (∀ g, is_Some (policy_Groups policy !! g) → policy_Groups policy !! g = Some (policy_gid policy g)) as Hgid.
  { intros g [i Hi]. unfold policy_gid. by rewrite Hi. }
  exists gid, groups. rewrite Forall_forall in H4. split_and!; [done|done|unfold policy_gid; by rewrite H1| | |done].
  - constructor; [by apply (valid_groups _ Hpolicy _ _ H1)|]. apply Forall_map, Forall_forall. intros g Hg.
    by apply (valid_groups _ Hpolicy g), Hgid, H4.
  - apply NoDup_cons. split.
    + intros (g & -> & Hg)%list_elem_of_fmap. destruct (H4 g Hg) as [Hs Hne]. apply Hne.
      eapply (valid_gids _ Hpolicy); [by apply Hgid|exact H1].
    + apply NoDup_fmap_2_strong; [|rewrite <-(list_fmap_id groups); by apply (strict_NoDup id string_lt)].
      intros g h Hg Hh He. apply (valid_gids _ Hpolicy g h (policy_gid policy g)); [by apply Hgid, H4|rewrite He; by apply Hgid, H4].
Qed.

Lemma declared_identity_valid name user : policy_Users policy !! name = Some user →
  ValidateIdentityV1 (declared_identity policy (name, user)) = Ok tt.
Proof using Hpolicy.
  intros Hu. destruct (declared_name name user Hu) as (gid & groups & _ & Hs & Hg & Hids & Hnd & Hacc).
  unfold declared_identity, declared_gids. simpl. rewrite Hg, Hs. by apply ValidateIdentity_account.
Qed.

(** The identities of a policy, by the order of their numbers. *)
Lemma check_users_declared users :
  (check_each (check_evidence_user policy) None users = Ok tt ∧ length users = size (policy_Users policy)) ↔ users = declared_identities policy.
Proof using Hpolicy.
  rewrite (check_each_spec _ (λ u, ∃ user, policy_Users policy !! Username u = Some user ∧ u = declared_identity policy (Username u, user))
    (λ u v, compareImageIDsV1 (UID u) (UID v) < 0)).
  2: { intros previous u. unfold check_evidence_user. cbv beta. destruct (policy_Users policy !! Username u) as [user|] eqn:Hu.
       2: { split; [done|]. by intros [(? & [=] & _) _]. }
       rewrite reject_if_bind, reject_if_ok. go_bool. rewrite is_ok_unit. split.
       - intros ((((H1 & H2) & H3) & H4) & H5). split.
         + exists user. split; [done|]. destruct u as [name uid gid extra]. unfold declared_identity. simpl in *. subst.
           destruct extra as [extra|]; [by f_equal; f_equal|]. unfold ValidateIdentityV1 in H1. simpl in H1.
           rewrite bind_unit in H1. destruct H1 as [_ H1]. destruct (canonicalUnsignedV1 _); [|done]. destruct (canonicalUnsignedV1 _); [|done].
           rewrite !reject_if_bind in H1. by destruct H1 as (_ & _ & _ & ?).
         + intros p ->. go_bool. lia.
       - intros [(? & [= <-] & He) Hp]. assert (Hv := declared_identity_valid _ _ Hu). rewrite <-He in Hv.
         split; [split_and!; [done|by rewrite He|by rewrite He|]|by rewrite He]. destruct previous as [p|]; [|done]. go_bool. by apply Hp. }
  assert (declared_identities policy ≡ₚ map (declared_identity policy) (map_to_list (policy_Users policy))) as Hperm by apply merge_sort_Permutation.
  assert (∀ u, u ∈ declared_identities policy ↔ ∃ user, policy_Users policy !! Username u = Some user ∧ u = declared_identity policy (Username u, user)) as Hin.
  { intros u. rewrite Hperm, list_elem_of_fmap. split.
    - intros ([name user] & -> & H%elem_of_map_to_list). by exists user.
    - intros (user & Hu & ->). exists (Username u, user). split; [done|]. by apply elem_of_map_to_list. }
  assert (∀ u v, u ∈ declared_identities policy → v ∈ declared_identities policy → uid_le u v → uid_le v u → u = v) as Hanti.
  { intros u v (x & Hx & Hu)%Hin (y & Hy & Hv)%Hin. unfold uid_le. rewrite !compare_ids_le, Hu, Hv. simpl. intros H1 H2.
    destruct (declared_name _ _ Hx) as (_ & _ & _ & _ & _ & _ & _ & (_ & [n Hn]%policyID_iff & _)).
    destruct (declared_name _ _ Hy) as (_ & _ & _ & _ & _ & _ & _ & (_ & [m Hm]%policyID_iff & _)).
    assert (n = m) as <- by (rewrite (id_value _ _ Hn), (id_value _ _ Hm) in *; lia).
    assert (Username u = Username v) as He by (eapply (valid_uids _ Hpolicy); [exact Hx|exact Hy|by eapply id_text_inj]).
    rewrite He in Hx |- *. congruence. }
  assert (NoDup (map (declared_identity policy) (map_to_list (policy_Users policy)))) as Hnd.
  { apply NoDup_fmap_2_strong; [|apply NoDup_map_to_list]. intros [n x] [m y] Hx%elem_of_map_to_list Hy%elem_of_map_to_list [= -> _ _ _]. congruence. }
  split.
  - intros ((Hall & Hsorted & _) & Hlen). rewrite Forall_forall in Hall.
    assert (StronglySorted (λ u v, compareImageIDsV1 (UID u) (UID v) < 0) users) as Hs.
    { apply Sorted_StronglySorted; [|done]. intros a b c. rewrite !compare_ids. lia. }
    assert (users ≡ₚ declared_identities policy) as Hp.
    { apply submseteq_length_Permutation.
      - apply NoDup_submseteq; [|intros u Hu; by apply Hin, Hall].
        clear -Hs. induction Hs as [|u l _ IH Hu]; [constructor|]. apply NoDup_cons. split; [|done]. intros Hin.
        rewrite Forall_forall in Hu. specialize (Hu u Hin). rewrite compare_ids in Hu. lia.
      - rewrite Hperm, length_map, length_map_to_list. lia. }
    apply (StronglySorted_unique_strong uid_le); [| |apply sorted_identities|done].
    + intros u v Hu Hv. apply Hanti; [by rewrite <-Hp|done].
    + eapply StronglySorted_impl; [|exact Hs]. intros u v. unfold uid_le. lia.
  - intros ->. split; [split_and!|].
    + apply Forall_forall. intros u. apply Hin.
    + apply StronglySorted_Sorted, (strict_sorted uid_le); [|done|by rewrite Hperm|apply sorted_identities].
      intros u v. unfold uid_le. rewrite compare_ids, compare_ids_le. lia.
    + done.
    + by rewrite Hperm, length_map, length_map_to_list.
Qed.
End policy.

(** The evidence that a policy allows differs only in the files. *)
Section evidence.
Context (sha256 : list ascii → list ascii).

(** The images that can be verified against a policy, and its digest. *)
Definition verifiable (p : IdentityPolicyV1) (image : RealizedImageV1) (platform : Platform) (digest : string) : Prop :=
  valid_policy p ∧ ValidateImage image = Ok tt ∧ ValidatePlatform platform = Ok tt ∧ OS platform = "linux"
  ∧ policy_sum sha256 p = Ok digest.
Lemma inputs_ok policy image platform digest :
  imageIdentityInputsV1 sha256 policy image platform = Ok digest ↔ ∃ p, policy = Some p ∧ verifiable p image platform digest.
Proof.
  unfold imageIdentityInputsV1, verifiable. destruct policy as [p|]; [|by split; [|intros (? & ? & _)]].
  rewrite bind_unit, wrap_ok, ValidatePolicy_iff, reject_if_bind. go_bool. rewrite !is_ok_unit. fold (policy_sum sha256 p).
  split; [|by intros (? & [= <-] & ?); tauto]. intros ?. exists p. tauto.
Qed.

(** Summaries of exactly the account files. *)
Definition files_ok (files : gmap string ImageIdentityFileV1) : Prop :=
  size files = 3%nat ∧ Forall (λ path, ∃ file n, files !! path = Some file ∧ ValidateDigest (file_Digest file) = Ok tt
    ∧ 0 < n ≤ imageIdentityFileLimitV1 ∧ file_Size file = format_uint n) imageIdentityPathsV1.
Lemma file_size_ok size : bad_file_size size = false ↔ ∃ n, 0 < n ≤ imageIdentityFileLimitV1 ∧ size = format_uint n.
Proof.
  unfold bad_file_size, imageIdentityFileLimitV1. split.
  - destruct (parse_uint size 32) as [n|] eqn:Hp; [|done]. apply parse_uint_range in Hp. intros H. go_bool.
    destruct H as [[H1 H2] <-]. exists n. split; [lia|done].
  - intros (n & Hn & ->). rewrite parse_format by lia. go_bool. split_and!; [lia|lia|done].
Qed.
Lemma check_file_ok files path : check_file files path = Ok tt ↔
  ∃ file n, files !! path = Some file ∧ ValidateDigest (file_Digest file) = Ok tt ∧ 0 < n ≤ imageIdentityFileLimitV1 ∧ file_Size file = format_uint n.
Proof.
  unfold check_file. destruct (files !! path) as [file|]; [|by split; [|intros (? & ? & ? & _)]].
  rewrite reject_if_ok. go_bool. rewrite is_ok_unit, file_size_ok. split.
  - intros [H (n & Hn)]. exists file, n. tauto.
  - intros (? & n & [= <-] & H & Hn). split; [done|by exists n].
Qed.

Lemma evidence_ok evidence policy image platform :
  ValidateImageIdentityEvidenceV1 sha256 evidence policy image platform = Ok tt ↔
  ∃ p digest, policy = Some p ∧ verifiable p image platform digest ∧ files_ok (Files evidence)
  ∧ evidence = Evidence ImageIdentityEvidenceSchemaV1 image platform digest (Files evidence) (declared_identities p) (policy_Groups p).
Proof.
  unfold ValidateImageIdentityEvidenceV1. rewrite bind_ok. setoid_rewrite inputs_ok. split.
  - intros (digest & (p & -> & Hv) & H). rewrite reject_if_bind, bind_unit in H. destruct H as (Hbad & Hfiles & Husers). go_bool.
    destruct Hbad as ((((((H1 & H2) & H3) & H4) & H5) & H6) & H7). apply Nat.eqb_eq in H5, H6.
    exists p, digest. split_and!; [done|done| |].
    + split; [done|]. rewrite (check_all (check_file (Files evidence))) in Hfiles. eapply Forall_impl; [exact Hfiles|].
      intros path. apply check_file_ok.
    + rewrite <-(proj1 (check_users_declared p (proj1 Hv) _) (conj Husers H6)). destruct evidence. simpl in *. by subst.
  - intros (p & digest & -> & Hv & [Hsize Hfiles] & He). exists digest. split; [by exists p|].
    rewrite reject_if_bind, bind_unit, (check_all (check_file (Files evidence))).
    destruct (proj2 (check_users_declared p (proj1 Hv) _) eq_refl) as [Hc Hl]. rewrite He. simpl. split_and!; [| |done].
    + go_bool. rewrite !Nat.eqb_eq. by split_and!.
    + eapply Forall_impl; [exact Hfiles|]. intros path. apply check_file_ok.
Qed.

(** ** Verification *)

(** The account files that are read: all of them, and nothing else. *)
Definition readable (files : gmap string string) : Prop :=
  size files = 3%nat ∧ Forall (λ path, ∃ content, files !! path = Some content ∧ 0 < len content ≤ imageIdentityFileLimitV1
    ∧ contains_byte content "000"%char = false) imageIdentityPathsV1.

Lemma exact_paths {A} (m : gmap string A) : size m = 3%nat → Forall (λ path, is_Some (m !! path)) imageIdentityPathsV1 →
  ∀ k, is_Some (m !! k) → k ∈ imageIdentityPathsV1.
Proof.
  intros Hm Hp k Hk. assert (list_to_set imageIdentityPathsV1 = dom m) as He.
  { apply set_eq. apply set_subseteq_size_equiv.
    - rewrite Forall_forall in Hp. intros p Hin%elem_of_list_to_set. by apply elem_of_dom, Hp.
    - by rewrite size_dom, Hm. }
  apply (elem_of_list_to_set (C := gset string)). rewrite He. by apply elem_of_dom.
Qed.
Definition path_summaries (files : gmap string string) (paths : list string) : gmap string ImageIdentityFileV1 :=
  foldr (λ path, <[path := summarize sha256 (default "" (files !! path))]>) ∅ paths.
Lemma summarize_ok files paths summaries :
  summarize_files sha256 files paths = Ok summaries ↔
  Forall (λ path, ∃ content, files !! path = Some content ∧ 0 < len content ≤ imageIdentityFileLimitV1
    ∧ contains_byte content "000"%char = false) paths
  ∧ summaries = path_summaries files paths.
Proof.
  revert summaries. induction paths as [|path paths IH]; intros summaries; simpl.
  { split; [by intros [= <-]|by intros [_ ->]]. }
  rewrite reject_if_bind, bind_ok, Forall_cons. setoid_rewrite IH. go_bool. split.
  - intros [H (rest & [Hf ->] & [= <-])]. split; [split; [|done]|done]. destruct (files !! path) as [content|] eqn:Hc.
    + exists content. simpl in H. assert (0 ≤ len content) as Hl by apply Nat2Z.is_nonneg. split_and!; [done|lia|lia|tauto].
    + simpl in H. by destruct H as [[[] _] _].
  - intros [[(content & -> & Hl & Hn) Hf] ->]. split; [simpl; split_and!; [lia|lia|done]|]. eexists. split; [by split|done].
Qed.
Lemma summaries_files (files : gmap string string) : size files = 3%nat → Forall (λ path, is_Some (files !! path)) imageIdentityPathsV1 →
  path_summaries files imageIdentityPathsV1 = summarize sha256 <$> files.
Proof.
  intros Hs Hp. assert (Hall := exact_paths files Hs Hp). apply map_eq. intros k. rewrite lookup_fmap. unfold path_summaries.
  assert (∀ paths, k ∈ paths → foldr (λ path, <[path := summarize sha256 (default "" (files !! path))]>) (∅ : gmap string ImageIdentityFileV1) paths !! k
    = Some (summarize sha256 (default "" (files !! k)))) as Hin.
  { induction paths as [|p paths IH]; [by intros ?%elem_of_nil|]. intros Hk. simpl. destruct (decide (p = k)) as [->|Hne].
    - by rewrite lookup_insert_eq.
    - rewrite lookup_insert_ne by done. apply IH. by apply elem_of_cons in Hk as [->|]. }
  assert (∀ paths, k ∉ paths → foldr (λ path, <[path := summarize sha256 (default "" (files !! path))]>) (∅ : gmap string ImageIdentityFileV1) paths !! k = None) as Hout.
  { induction paths as [|p paths IH]; [done|]. intros [??]%not_elem_of_cons. simpl. rewrite lookup_insert_ne by done. by apply IH. }
  destruct (files !! k) as [content|] eqn:Hk.
  - by rewrite (Hin _ (Hall k (mk_is_Some _ _ Hk))).
  - apply (Hout imageIdentityPathsV1). intros H. rewrite Forall_forall in Hp. destruct (Hp k H). congruence.
Qed.

Lemma summaries_ok files summaries : size files = 3%nat →
  summarize_files sha256 files imageIdentityPathsV1 = Ok summaries ↔ readable files ∧ summaries = summarize sha256 <$> files.
Proof.
  intros Hs. rewrite summarize_ok. unfold readable. split.
  - intros [Hf ->]. split; [done|]. apply summaries_files; [done|]. eapply Forall_impl; [exact Hf|]. intros path (c & -> & _). by exists c.
  - intros [[_ Hf] ->]. split; [done|]. symmetry. apply summaries_files; [done|].
    eapply Forall_impl; [exact Hf|]. intros path (c & -> & _). by exists c.
Qed.
Lemma readable_summaries files : (∀ l, length (sha256 l) = 32%nat) → readable files → files_ok (summarize sha256 <$> files).
Proof.
  intros Hl [Hs Hf]. split; [by rewrite map_size_fmap|]. eapply Forall_impl; [exact Hf|]. intros path (c & Hc & Hn & _).
  exists (summarize sha256 c), (len c). rewrite lookup_fmap, Hc. split_and!; [done| |lia|lia|done].
  unfold summarize, hex_text, ValidateDigest. cbn [file_Digest]. by rewrite hex_text_digest.
Qed.

(** The accounts of an image are those that a policy declares. *)
Definition image_matches (p : IdentityPolicyV1) (users : gmap string imageAccountV1) (groups : gmap string imageGroupV1) : Prop :=
  (∀ name gid, policy_Groups p !! name = Some gid → ∃ g, groups !! name = Some g ∧ group_gid g = gid)
  ∧ ∀ name user, policy_Users p !! name = Some user →
    users !! name = Some (ImageAccount (policy_UID user) (policy_gid p (PrimaryGroup user)))
    ∧ ∀ gid, (∃ group g, groups !! group = Some g ∧ name ∈ members g ∧ group_gid g = gid ∧ gid ≠ policy_gid p (PrimaryGroup user))
        ↔ gid ∈ map (policy_gid p) (default [] (SupplementaryGroups user)).
End evidence.

Lemma traverse_lookup {A B} (f : string → A → result B) m m' : traverse_map f m = Ok m' →
  ∀ k, match m !! k, m' !! k with Some a, Some b => f k a = Ok b | None, None => True | _, _ => False end.
Proof.
  unfold traverse_map. rewrite bind_ok. intros (fields & Hf%mapM_ok & [= <-]) k.
  assert (fields.*1 = (map_to_list m).*1) as Hk.
  { clear -Hf. induction Hf as [|x y l fields Hx _ IH]; [done|]. apply bind_ok in Hx as (b & _ & [= <-]). rewrite !fmap_cons. simpl. by f_equal. }
  assert (∀ y, y ∈ fields → ∃ a, m !! y.1 = Some a ∧ f y.1 a = Ok y.2) as Hin.
  { intros y (i & Hi)%list_elem_of_lookup. destruct (Forall2_lookup_r _ _ _ _ _ Hf Hi) as ([n a] & Ha & Hx).
    apply bind_ok in Hx as (b & Hb & [= <-]). exists a. split; [|done]. apply elem_of_map_to_list, list_elem_of_lookup. by exists i. }
  destruct (list_to_map fields !! k) as [b|] eqn:Hb.
  - apply elem_of_list_to_map_2 in Hb. destruct (Hin _ Hb) as (a & Ha & Hfa). simpl in *. by rewrite Ha.
  - apply not_elem_of_list_to_map_2 in Hb. rewrite Hk in Hb. destruct (m !! k) as [a|] eqn:Ha; [|done].
    apply Hb, list_elem_of_fmap. exists (k, a). by rewrite elem_of_map_to_list.
Qed.
Lemma traverse_same {A} (f : string → A → result A) m : (∀ k a, m !! k = Some a → f k a = Ok a) → traverse_map f m = Ok m.
Proof.
  intros H. unfold traverse_map. assert (mapM (λ entry, value ← f entry.1 entry.2; Ok (entry.1, value)) (map_to_list m) = Ok (map_to_list m)) as ->.
  { apply mapM_ok, Forall2_same_length_lookup_2; [done|]. intros i x y Hx Hy. assert (x = y) as <- by congruence. destruct x as [k a].
    apply list_elem_of_lookup_2, elem_of_map_to_list in Hx. simpl. by rewrite (H k a Hx). }
  simpl. by rewrite list_to_map_to_list.
Qed.

Lemma sort_ids_eq l l' : Forall (λ s, policyID s = true) l → sort_ids l = sort_ids l' ↔ l ≡ₚ l'.
Proof.
  intros Hl. split; [intros H; by rewrite <-(sort_ids_perm l), H, sort_ids_perm|]. intros Hp.
  apply (StronglySorted_unique_strong id_le); [|apply sort_ids_sorted..|by rewrite !sort_ids_perm].
  intros a b Ha Hb Hab Hba. rewrite sort_ids_perm in Ha, Hb. rewrite <-Hp in Hb. rewrite Forall_forall in Hl.
  destruct (proj1 (policyID_iff a) (Hl a Ha)) as [n Hn], (proj1 (policyID_iff b) (Hl b Hb)) as [m Hm].
  unfold id_le in *. rewrite (id_value _ _ Hn), (id_value _ _ Hm) in *. assert (n = m) as <- by lia. by eapply id_text_inj.
Qed.
Lemma NoDup_omap_inj {A B} (f : A → option B) l :
  NoDup l → (∀ x y b, x ∈ l → y ∈ l → f x = Some b → f y = Some b → x = y) → NoDup (omap f l).
Proof.
  induction 1 as [|x l Hx Hl IH]; intros Hf; [constructor|]. simpl. destruct (f x) as [b|] eqn:Hb.
  - apply NoDup_cons. split.
    + intros (y & Hy & Hfy)%list_elem_of_omap. apply Hx. rewrite (Hf x y b); [done|left|right|done|]; done.
    + apply IH. intros y z c ??. by apply Hf; right.
  - apply IH. intros y z c ??. by apply Hf; right.
Qed.

(** The groups that an account is a member of, beside its own. *)
Lemma other_gids_raw users groups name gid :
  accounts_ok users groups →
  let raw := omap (λ entry : string * imageGroupV1, if bool_decide (name ∈ members entry.2) && negb (bool_decide (group_gid entry.2 = gid))
                     then Some (group_gid entry.2) else None) (map_to_list groups) in
  NoDup raw ∧ Forall (λ s, policyID s = true) raw
  ∧ ∀ i, i ∈ raw ↔ ∃ group g, groups !! group = Some g ∧ name ∈ members g ∧ group_gid g = i ∧ i ≠ gid.
Proof.
  intros Hok raw. assert (∀ i, i ∈ raw ↔ ∃ group g, groups !! group = Some g ∧ name ∈ members g ∧ group_gid g = i ∧ i ≠ gid) as Hin.
  { intros i. unfold raw. rewrite list_elem_of_omap. split.
    - intros ([n g] & Hg%elem_of_map_to_list & H). destruct (_ && _) eqn:Hb; [|done]. injection H as <-. go_bool. destruct Hb. exists n, g. by split_and!.
    - intros (n & g & Hg & Hm & <- & Hne). exists (n, g). rewrite elem_of_map_to_list. split; [done|]. simpl.
      by rewrite bool_decide_true, bool_decide_false by done. }
  split_and!; [| |done].
  - apply NoDup_omap_inj; [apply NoDup_map_to_list|]. intros [n g] [n' g'] b Hg%elem_of_map_to_list Hg'%elem_of_map_to_list H H'. simpl in *.
    destruct (_ && _) in H; [|done]. destruct (_ && _) in H'; [|done]. assert (n = n') as <-; [|congruence].
    eapply (ok_gids _ _ Hok); [exact Hg|exact Hg'|congruence].
  - apply Forall_forall. intros i (n & g & Hg & _ & <- & _)%Hin. by eapply (ok_group_ids _ _ Hok).
Qed.

Lemma image_user_ok p users groups name user :
  valid_policy p → accounts_ok users groups → policy_Users p !! name = Some user →
  image_user users groups name = Ok (declared_identity p (name, user)) ↔
  users !! name = Some (ImageAccount (policy_UID user) (policy_gid p (PrimaryGroup user)))
  ∧ ∀ gid, (∃ group g, groups !! group = Some g ∧ name ∈ members g ∧ group_gid g = gid ∧ gid ≠ policy_gid p (PrimaryGroup user))
      ↔ gid ∈ map (policy_gid p) (default [] (SupplementaryGroups user)).
Proof.
  intros Hp Hok Hu. destruct (declared_name p Hp name user Hu) as (gid & extra & _ & Hs & Hg & _ & Hnd & _).
  unfold image_user, declared_identity, other_gids, declared_gids. simpl. rewrite Hg, Hs. apply NoDup_cons in Hnd as [_ Hnd]. simpl.
  destruct (users !! name) as [[uid g]|]; [|by split; [|intros [? _]]]. simpl.
  destruct (other_gids_raw users groups name g Hok) as (Hn & Hc & Hin). split.
  - intros [= -> -> Hsort]. split; [done|]. intros i. rewrite <-Hin. by rewrite (proj1 (sort_ids_eq _ _ Hc) Hsort).
  - intros [[= -> ->] Hset]. do 3 f_equal. apply (sort_ids_eq _ _ Hc). apply NoDup_Permutation; [done|done|]. intros i. by rewrite Hin, Hset.
Qed.

Section verified.
Context (sha256 : list ascii → list ascii) (Hlength : ∀ l, length (sha256 l) = 32%nat).

(** The evidence of account files that match a policy. *)
Definition evidence_of (p : IdentityPolicyV1) (image : RealizedImageV1) (platform : Platform) (digest : string)
    (files : gmap string string) : ImageIdentityEvidenceV1 :=
  Evidence ImageIdentityEvidenceSchemaV1 image platform digest (summarize sha256 <$> files) (declared_identities p) (policy_Groups p).

Lemma found_users p users groups :
  (∀ name user, policy_Users p !! name = Some user → image_user users groups name = Ok (declared_identity p (name, user))) →
  mapM (λ entry, image_user users groups entry.1) (map_to_list (policy_Users p)) =
    Ok (map (declared_identity p) (map_to_list (policy_Users p))).
Proof using Type.
  intros H. apply mapM_ok, Forall2_fmap_r, Forall2_same_length_lookup_2; [done|]. intros i x y Hx Hy. assert (x = y) as <- by congruence.
  destruct x as [n u]. by apply list_elem_of_lookup_2, elem_of_map_to_list, H in Hx.
Qed.
Lemma matching_users p users groups found : valid_policy p → accounts_ok users groups →
  mapM (λ entry, image_user users groups entry.1) (map_to_list (policy_Users p)) = Ok found →
  merge_sort uid_le found = declared_identities p ↔
  ∀ name user, policy_Users p !! name = Some user → image_user users groups name = Ok (declared_identity p (name, user)).
Proof using Type.
  intros Hp Hok Hf. split.
  - apply mapM_ok in Hf. intros Hs name user Hu. assert ((name, user) ∈ map_to_list (policy_Users p)) as (i & Hi)%list_elem_of_lookup by by rewrite elem_of_map_to_list.
    destruct (Forall2_lookup_l _ _ _ _ _ Hf Hi) as (u & Hui & Hx). simpl in Hx. rewrite Hx. f_equal.
    assert (u ∈ declared_identities p) as Hd.
    { rewrite <-Hs, merge_sort_Permutation. apply list_elem_of_lookup. by exists i. }
    unfold declared_identities in Hd. rewrite merge_sort_Permutation in Hd. apply list_elem_of_fmap in Hd as ([n v] & -> & Hv%elem_of_map_to_list).
    assert (n = name) as ->; [|congruence]. unfold image_user in Hx. destruct (users !! name); [|done]. by injection Hx.
  - intros H%found_users. rewrite Hf in H. by injection H as ->.
Qed.

(** Verification succeeds exactly on account files that match the policy, and its
    evidence is valid. *)
Lemma verified policy image platform files evidence :
  VerifyImageIdentityFilesV1 sha256 policy image platform files = Ok evidence ↔
  ∃ p digest users groups, policy = Some p ∧ verifiable sha256 p image platform digest ∧ readable files
    ∧ parseImageAccountsV1 files = Some (users, groups) ∧ image_matches p users groups
    ∧ evidence = evidence_of p image platform digest files.
Proof using Hlength.
  unfold VerifyImageIdentityFilesV1. rewrite bind_ok. setoid_rewrite inputs_ok. split.
  - intros (digest & (p & -> & Hv) & H). rewrite reject_if_bind, bind_ok in H. destruct H as (Hsize & summaries & Hsum & H).
    rewrite negb_false_iff, Nat.eqb_eq in Hsize. apply (summaries_ok _ _ _ Hsize) in Hsum as [Hr ->].
    destruct (parseImageAccountsV1 files) as [[users groups]|] eqn:Hparse; [|done]. assert (Hok := parse_accounts_ok _ _ _ Hparse).
    apply bind_ok in H as (found_groups & Hg & H). apply bind_ok in H as (found & Hu & H). rewrite bind_unit, wrap_ok in H.
    destruct H as [He [= <-]]. apply evidence_ok in He as (p' & digest' & [= <-] & Hv' & _ & [= <- Hs ->]).
    exists p, digest, users, groups. split_and!; [done|done|done|done| |unfold evidence_of; by rewrite Hs].
    split.
    + intros name gid Hn. specialize (traverse_lookup _ _ _ Hg name) as Hl. rewrite Hn in Hl. unfold image_group in Hl.
      destruct (groups !! name) as [g|]; [|done]. exists g. split; [done|]. by injection Hl.
    + intros name user Hn. apply image_user_ok; [apply Hv|done|done|]. by eapply matching_users; [apply Hv| | | |].
  - intros (p & digest & users & groups & -> & Hv & Hr & Hparse & [Hg Hu] & ->). exists digest. split; [by exists p|].
    rewrite reject_if_bind, bind_ok. split; [by rewrite negb_false_iff, Nat.eqb_eq; apply Hr|].
    exists (summarize sha256 <$> files). split; [by apply summaries_ok; [apply Hr|]|]. rewrite Hparse, bind_ok.
    assert (Hok := parse_accounts_ok _ _ _ Hparse). exists (policy_Groups p). split.
    { apply traverse_same. intros name gid Hn. unfold image_group. by destruct (Hg name gid Hn) as (g & -> & <-). }
    rewrite bind_ok. eexists. split.
    { apply found_users. intros name user Hn. apply image_user_ok; [apply Hv|done|done|]. by apply Hu. }
    rewrite bind_unit, wrap_ok. split; [|done]. apply evidence_ok. exists p, digest. split_and!; [done|done| |done].
    by apply readable_summaries.
Qed.
End verified.
