(* ===== verification/ExecutionPlan.v ===== *)
(** * Plans of an execution

    [internal/deploy/identity_policy_coverage.go] and
    [identity_execution_plan.go]: whether reservations cover a locked policy, and
    the partition of a mapping into what an execution uses, what it reserves and
    what stays dormant.

    The index into the intervals that a loop keeps from one turn to the next is the
    rest of their list; an index past the end is a panic of the code. *)

From S2P Require Import Prelude GoText Yaml Geometry Identifiers Canonical Platform IdentityPolicy ImageIdentity.

Open Scope Z_scope.

(** ** Intervals *)

(** [appendSpan]: its differences are of [uint64], and not negative here. *)
Definition append_span (interval : Interval) (lo hi : Z) : list Interval :=
  if lo <? hi then
    [MkInterval (to_uint32 lo) (to_uint32 (HostStart interval + to_uint32 (lo - ContainerStart interval))) (to_uint32 (hi - lo))]
  else [].

Fixpoint skip_before (start : Z) (remove : list Interval) : list Interval :=
  match remove with
  | cut :: rest => if containerEnd cut <=? start then skip_before start rest else remove
  | [] => []
  end.

(** The second inner loop and the span after it, with what is left to remove. *)
Fixpoint cut_spans (interval : Interval) (start last : Z) (remove : list Interval) : list Interval * list Interval :=
  match remove with
  | [] => (append_span interval start last, [])
  | cut :: rest =>
    if ContainerStart cut <? last then
      let span := append_span interval start (Z.min last (ContainerStart cut)) in
      let start := Z.max start (containerEnd cut) in
      if last <=? start then (span ++ append_span interval start last, remove)
      else let (spans, left) := cut_spans interval start last rest in (span ++ spans, left)
    else (append_span interval start last, remove)
  end.
Fixpoint subtractExecutionIntervalsV1 (from remove : list Interval) : list Interval :=
  match from with
  | [] => []
  | interval :: rest =>
    let (spans, left) := cut_spans interval (ContainerStart interval) (containerEnd interval)
                           (skip_before (ContainerStart interval) remove) in
    spans ++ subtractExecutionIntervalsV1 rest left
  end.

Fixpoint advance_interval (id : Z) (intervals : list Interval) : result (Interval * list Interval) :=
  match intervals with
  | [] => Err index_out_of_range
  | interval :: rest => if containerEnd interval <=? id then advance_interval id rest else Ok (interval, intervals)
  end.
Fixpoint project_ids (intervals : list Interval) (ids : list Z) : result (list Interval) :=
  match ids with
  | [] => Ok []
  | id :: rest =>
    '(interval, intervals) ← advance_interval id intervals;
    projected ← project_ids intervals rest;
    Ok (MkInterval id (to_uint32 (HostStart interval + to_uint32 (id - ContainerStart interval))) 1 :: projected)
  end.
Definition projectExecutionIDsV1 (intervals : list Interval) (ids : gset Z) : result (list Interval) :=
  project_ids intervals (merge_sort Z.le (elements ids)).

Definition sameExecutionGeometryV1 (a b : Geometry) : bool :=
  bool_decide (Profile a = Profile b) && bool_decide (UIDs a = UIDs b) && bool_decide (GIDs a = GIDs b).

(** ** Coverage *)

(** An identity that no interval reserves: its kind, its number and its place. *)
Definition missing_id : Type := string * Z * string.
Definition missing_text (missing : missing_id) : string :=
  let '(kind, id, path) := missing in kind +:+ " " +:+ format_uint id +:+ " at " +:+ path.
Definition missing_le (a b : missing_id) : Prop :=
  let '(kind, id, path) := a in
  let '(kind', id', path') := b in
  String.ltb kind kind' = true ∨ kind = kind' ∧ (id < id' ∨ id = id' ∧ String.le path path').
#[export] Instance missing_le_dec a b : Decision (missing_le a b).
Proof. destruct a as [[? ?] ?], b as [[? ?] ?]. apply _. Defined.

Definition policyPath : string := "environment.runtime.identity_policy.".
Definition id_covered (value : string) (intervals : list Interval) : bool :=
  let id := uint_value value 32 in
  existsb (λ interval, (ContainerStart interval <=? id) && (id <? containerEnd interval)) intervals.
Definition check_id (kind value path : string) (intervals : list Interval) : list missing_id :=
  if id_covered value intervals then [] else [(kind, uint_value value 32, path)].

Definition user_missing (policy : IdentityPolicyV1) (reserved : Geometry) (entry : string * IdentityPolicyUserV1) : list missing_id :=
  let '(name, user) := entry in
  let path := policyPath +:+ "users." +:+ name in
  check_id "UID" (policy_UID user) (path +:+ ".uid") (UIDs reserved)
  ++ check_id "GID" (policy_gid policy (PrimaryGroup user)) (path +:+ ".primary_group") (GIDs reserved)
  ++ concat (imap (λ i group, check_id "GID" (policy_gid policy group)
       (path +:+ ".supplementary_groups[" +:+ format_uint (Z.of_nat i) +:+ "]") (GIDs reserved)) (default [] (SupplementaryGroups user))).
Definition missing_ids (policy : IdentityPolicyV1) (reserved : Geometry) : list missing_id :=
  (map_to_list (policy_Users policy) ≫= user_missing policy reserved)
  ++ (map_to_list (policy_Groups policy) ≫=
       λ entry, check_id "GID" entry.2 (policyPath +:+ "groups." +:+ entry.1) (GIDs reserved)).

(** ** Plans *)

Record IdentityExecutionInputV1 := ExecutionInput {
  Generation : string;
  input_Policy : option IdentityPolicyLockV1;
  input_Candidate : Geometry;
  input_Reservations : option Geometry;
  input_Accepted : option Geometry;
  RuntimeUsers : list string;
  RuntimeGroups : list string
}.
Record IdentityExecutionPlanV1 := ExecutionPlan {
  Active : Geometry;
  ProspectiveReservations : Geometry;
  ProspectiveAccepted : Geometry;
  DormantUIDs : list Interval;
  DormantGIDs : list Interval
}.

Section plan.
Context (sha256 : list Ascii.ascii → list Ascii.ascii).
Context (sort : list Interval → list Interval).

Definition ValidateIdentityPolicyCoverageV1 (lock : option IdentityPolicyLockV1) (geometry : Geometry) (generation : string)
    : result unit :=
  match lock with
  | None => Err "identity policy coverage requires selected locked evidence and generation"
  | Some policy =>
    _ ← wrap (ValidateDigest generation) "identity policy coverage requires selected locked evidence and generation";
    _ ← ValidateIdentityPolicyLockV1 sha256 lock (evidence_Image (lock_Evidence policy)) (evidence_Platform (lock_Evidence policy));
    reserved ← wrap (ValidateGeometry sort geometry) "identity policy coverage reservations";
    match merge_sort missing_le (missing_ids (lock_Policy policy) reserved) with
    | [] => Ok tt
    | missing => Err ("identity policy reservation coverage for generation " +:+ generation +:+ ": missing "
                      +:+ join (map missing_text missing) "; ")
    end
  end.

(** Accepted history, checked against the protected reservations. *)
Definition check_accepted (accepted reservations : option Geometry) : result (option Geometry) :=
  match accepted with
  | None => Ok None
  | Some accepted =>
    match reservations with
    | None => Err "accepted history requires protected reservations"
    | Some reservations =>
      previous ← ValidateGeometry sort reservations;
      union ← wrap (RetainGeometry sort accepted (Some previous)) "accepted history must be a subset of protected bindings";
      _ ← reject_if (negb (sameExecutionGeometryV1 union previous)) "accepted history must be a subset of protected bindings";
      Some <$> ValidateGeometry sort accepted
    end
  end.

Definition policy_uids (policy : IdentityPolicyV1) : gset Z :=
  list_to_set (map (λ entry, uint_value (policy_UID entry.2) 32) (map_to_list (policy_Users policy))).
Definition policy_gids (policy : IdentityPolicyV1) : gset Z :=
  list_to_set (map (λ entry, uint_value entry.2 32) (map_to_list (policy_Groups policy))).
Definition active_geometry (policy : IdentityPolicyV1) (candidate : Geometry) : result Geometry :=
  if bool_decide (Profile candidate = "exact") then
    uids ← projectExecutionIDsV1 (UIDs candidate) (policy_uids policy);
    gids ← projectExecutionIDsV1 (GIDs candidate) (policy_gids policy);
    ValidateGeometry sort (MkGeometry (Profile candidate) uids gids)
  else Ok candidate.

(** The partition of a candidate that is covered and checked. *)
Definition partition_candidate (policy : IdentityPolicyV1) (candidate reserved : Geometry) (accepted : option Geometry)
    : result IdentityExecutionPlanV1 :=
  active ← active_geometry policy candidate;
  prospective ← RetainGeometry sort active accepted;
  union ← wrap (RetainGeometry sort candidate (Some prospective))
            "candidate contains identities without current intent or prior admission";
  _ ← reject_if (negb (sameExecutionGeometryV1 union prospective))
        "candidate contains identities without current intent or prior admission";
  Ok (ExecutionPlan active reserved prospective
        (subtractExecutionIntervalsV1 (UIDs prospective) (UIDs active))
        (subtractExecutionIntervalsV1 (GIDs prospective) (GIDs active))).

(** The plan, before [fail] puts its prefix before an error. *)
Definition plan_execution (input : IdentityExecutionInputV1) : result IdentityExecutionPlanV1 :=
  _ ← ValidateIdentityPolicyCoverageV1 (input_Policy input) (input_Candidate input) (Generation input);
  match input_Policy input with
  | None => Err "identity policy coverage requires selected locked evidence and generation"
  | Some lock =>
    let policy := lock_Policy lock in
    candidate ← ValidateGeometry sort (input_Candidate input);
    reserved ← RetainGeometry sort candidate (input_Reservations input);
    accepted ← check_accepted (input_Accepted input) (input_Reservations input);
    _ ← check_each (λ _ name, reject_if (bool_decide (policy_Users policy !! name = None))
          "runtime user requires explicit image-verified declaration") None (RuntimeUsers input);
    _ ← check_each (λ _ name, reject_if (bool_decide (policy_Groups policy !! name = None))
          "runtime group requires explicit image-verified declaration") None (RuntimeGroups input);
    partition_candidate policy candidate reserved accepted
  end.
Definition PlanIdentityExecutionV1 (input : IdentityExecutionInputV1) : result IdentityExecutionPlanV1 :=
  prefixed "identity execution plan: " (plan_execution input).
End plan.
