(* ===== verification/ExecutionPlanFacts.v ===== *)
(** * What a plan of an execution is

    Coverage of a policy by reservations and the plan of ExecutionPlan.v, by the
    relations that the geometries mean: the active mapping is the candidate on the
    declared identities, history only grows, and the dormant part is the accepted
    one without the active one. *)

From S2P Require Import Prelude GoText Yaml Identifiers Geometry GeometryFacts Canonical Platform IdentityPolicy IdentityPolicyFacts ImageIdentity ExecutionPlan.

Open Scope Z_scope.

(** ** Parts of an interval *)

(** Some interval contains [c]. *)
Definition covers_id (l : list Interval) (c : Z) : Prop := ∃ i, i ∈ l ∧ ContainerStart i ≤ c < containerEnd i.
Lemma covers_maps l c : covers_id l c ↔ ∃ h, maps l c h.
Proof.
  split.
  - intros (i & Hi & Hc). exists (c + bindingOffset i), i. by split.
  - intros (h & i & Hi & [Hc _]). by exists i.
Qed.
Lemma covers_cons i l c : covers_id (i :: l) c ↔ ContainerStart i ≤ c < containerEnd i ∨ covers_id l c.
Proof. unfold covers_id. setoid_rewrite elem_of_cons. naive_solver. Qed.
Lemma covers_nil c : ¬ covers_id [] c.
Proof. by intros (i & ?%elem_of_nil & _). Qed.

(** [x] is a part of [i]. *)
Definition within (i x : Interval) : Prop :=
  ContainerStart i ≤ ContainerStart x ∧ containerEnd x ≤ containerEnd i ∧ bindingOffset x = bindingOffset i.

Lemma append_span_run i lo hi :
  usable i → ContainerStart i ≤ lo → hi ≤ containerEnd i →
  append_span i lo hi = if lo <? hi then [MkInterval lo (lo + bindingOffset i) (hi - lo)] else [].
Proof.
  intros Hi Hlo Hhi. unfold append_span. destruct (Z.ltb_spec lo hi); [|done].
  unfold usable, containerEnd, bindingOffset in *. rewrite (to_uint32_small (lo - _)) by (unfold MaxUint32 in *; lia).
  rewrite !to_uint32_small by (unfold MaxUint32 in *; lia). do 2 f_equal. lia.
Qed.

(** Lists of parts of [i] from [lo] on. *)
Definition parts (i : Interval) (lo : Z) (l : list Interval) : Prop :=
  Forall (λ x, usable x ∧ within i x ∧ lo ≤ ContainerStart x) l ∧ StronglySorted apart l.

Lemma append_span_spec i lo hi :
  usable i → ContainerStart i ≤ lo → hi ≤ containerEnd i →
  parts i lo (append_span i lo hi) ∧ Forall (λ x, containerEnd x ≤ hi) (append_span i lo hi)
  ∧ ∀ c h, maps (append_span i lo hi) c h ↔ binds i c h ∧ lo ≤ c < hi.
Proof.
  intros Hi Hlo Hhi. rewrite append_span_run by done. unfold parts, within. destruct (Z.ltb_spec lo hi).
  - split_and!; [|repeat constructor| |].
    + apply Forall_singleton. unfold usable, containerEnd, bindingOffset in *. simpl. lia.
    + apply Forall_singleton. unfold containerEnd. simpl. lia.
    + intros c h. rewrite maps_cons. unfold binds, containerEnd, bindingOffset in *. simpl.
      split; [intros [?|?%maps_nil]; [lia|done]|]. intros. left. lia.
  - split_and!; [done|constructor|done|]. intros c h. split; [by intros ?%maps_nil|lia].
Qed.

Lemma skip_before_spec start remove :
  Forall usable remove → StronglySorted after remove →
  Forall usable (skip_before start remove) ∧ StronglySorted after (skip_before start remove)
  ∧ ∀ c, start ≤ c → covers_id (skip_before start remove) c ↔ covers_id remove c.
Proof.
  induction remove as [|cut rest IH]; simpl; [done|]. intros Hu Hs. destruct (Z.leb_spec (containerEnd cut) start); [|done].
  apply Forall_cons in Hu as [_ Hu]. apply StronglySorted_cons in Hs as [_ Hs]. destruct (IH Hu Hs) as (H1 & H2 & H3).
  split_and!; [done|done|]. intros c Hc. rewrite H3, covers_cons by done. intuition lia.
Qed.

Lemma parts_app i lo mid l k :
  parts i lo l → Forall (λ x, containerEnd x < mid) l → parts i mid k → lo ≤ mid → parts i lo (l ++ k).
Proof.
  intros [Hl Hls] Hend [Hk Hks] Hle. split.
  - apply Forall_app. split; [done|]. eapply Forall_impl; [exact Hk|]. intros x. simpl. intuition lia.
  - apply StronglySorted_app. split_and!; [|done|done]. intros x y Hx Hy.
    rewrite Forall_forall in Hend, Hk. specialize (Hend x Hx). destruct (Hk y Hy) as (_ & _ & Hy'). left. simpl in *. lia.
Qed.

(** ** Subtraction *)

Lemma cut_spans_spec i remove : ∀ start,
  usable i → ContainerStart i ≤ start → Forall usable remove → StronglySorted after remove →
  let (spans, left) := cut_spans i start (containerEnd i) remove in
  parts i start spans
  ∧ (∀ c h, maps spans c h ↔ binds i c h ∧ start ≤ c ∧ ¬ covers_id remove c)
  ∧ Forall usable left ∧ StronglySorted after left
  ∧ ∀ c, containerEnd i ≤ c → covers_id left c ↔ covers_id remove c.
Proof.
  assert (∀ c h, binds i c h → c < containerEnd i) as Hend by (unfold binds; lia).
  induction remove as [|cut rest IH]; intros start Hi Hstart Hu Hs; simpl.
  { destruct (append_span_spec i start (containerEnd i)) as (Hp & _ & Hm); [done..|]. split_and!; [done| |done|constructor|done].
    intros c h. rewrite Hm. assert (H := covers_nil c). specialize (Hend c h). intuition lia. }
  destruct (proj1 (Forall_cons _ _ _) Hu) as [Hcut Hu']. destruct (proj1 (StronglySorted_cons _ _ _) Hs) as [Hafter Hs'].
  assert (∀ c, covers_id rest c → containerEnd cut ≤ c) as Hrest.
  { intros c (x & Hx & Hc). rewrite Forall_forall in Hafter. specialize (Hafter x Hx). unfold after in Hafter. lia. }
  assert (ContainerStart cut < containerEnd cut) as Hne by (unfold usable, containerEnd in *; lia).
  destruct (Z.ltb_spec (ContainerStart cut) (containerEnd i)) as [Hin|Hout].
  2: { destruct (append_span_spec i start (containerEnd i)) as (Hp & _ & Hm); [done..|]. split_and!; [done| |done|done|done].
       intros c h. rewrite Hm, covers_cons. specialize (Hend c h). specialize (Hrest c). intuition lia. }
  destruct (append_span_spec i start (Z.min (containerEnd i) (ContainerStart cut))) as (Hp & Hpe & Hm); [done|done|lia|].
  destruct (Z.leb_spec (containerEnd i) (Z.max start (containerEnd cut))) as [Hlast|Hmore].
  - assert (append_span i (Z.max start (containerEnd cut)) (containerEnd i) = []) as ->.
    { unfold append_span. destruct (Z.ltb_spec (Z.max start (containerEnd cut)) (containerEnd i)); [lia|done]. }
    rewrite app_nil_r.
    split_and!; [done| |done|done|done]. intros c h. rewrite Hm, covers_cons. specialize (Hend c h). specialize (Hrest c). intuition lia.
  - specialize (IH (Z.max start (containerEnd cut)) Hi ltac:(lia) Hu' Hs').
    destruct (cut_spans i (Z.max start (containerEnd cut)) (containerEnd i) rest) as [spans left].
    destruct IH as (IHp & IHm & H1 & H2 & H3). split_and!; [| |done|done|].
    + apply (parts_app i start (Z.max start (containerEnd cut))); [done| |done|lia].
      eapply Forall_impl; [exact Hpe|]. intros x. simpl. lia.
    + intros c h. rewrite maps_app, Hm, IHm, covers_cons. specialize (Hend c h). specialize (Hrest c).
      destruct (decide (c < ContainerStart cut)); intuition lia.
    + intros c Hc. rewrite H3, covers_cons by done. intuition lia.
Qed.

Lemma Sorted_apart_strong l : canonical l → StronglySorted apart l.
Proof.
  induction l as [|a l IH]; [by constructor|]. intros Hc. assert (Hafter := canonical_after _ Hc).
  destruct Hc as [[Ha Hu]%Forall_cons [Hs Hh]%Sorted_inv]. constructor; [by apply IH|].
  destruct Hh as [|b l Hab]; [done|]. constructor; [done|].
  apply StronglySorted_cons in Hafter as [_ [Hb _]%StronglySorted_cons]. apply Forall_cons in Hu as [Hub _].
  eapply Forall_impl; [exact Hb|]. intros x Hx. left. unfold after, apart, usable, containerEnd in *. lia.
Qed.

Lemma within_apart i j x y : usable x → usable y → within i x → within j y → apart i j → apart x y.
Proof. unfold within, apart, usable, containerEnd. intros. lia. Qed.

Lemma subtract_parts from : ∀ remove,
  canonical from → Forall usable remove → StronglySorted after remove →
  let result := subtractExecutionIntervalsV1 from remove in
  Forall (λ x, usable x ∧ ∃ i, i ∈ from ∧ within i x) result ∧ StronglySorted apart result
  ∧ ∀ c h, maps result c h ↔ maps from c h ∧ ¬ covers_id remove c.
Proof.
  induction from as [|i from IH]; intros remove Hfrom Hu Hs; simpl.
  { split_and!; [done|constructor|]. intros c h. split; [by intros ?%maps_nil|by intros [?%maps_nil _]]. }
  assert (Hstrong := Sorted_apart_strong _ Hfrom). apply StronglySorted_cons in Hstrong as [Happ _].
  apply canonical_cons in Hfrom as (Hi & Hfrom & Hafter & _). apply StronglySorted_cons in Hafter as [Hafter _].
  destruct (skip_before_spec (ContainerStart i) remove Hu Hs) as (Hu1 & Hs1 & Hskip).
  assert (Hcut := cut_spans_spec i _ (ContainerStart i) Hi (Z.le_refl _) Hu1 Hs1).
  destruct (cut_spans i (ContainerStart i) (containerEnd i) _) as [spans left].
  destruct Hcut as ([Hp Hps] & Hm & Hu2 & Hs2 & Hleft). destruct (IH left Hfrom Hu2 Hs2) as (Hr & Hrs & Hrm).
  split_and!.
  - apply Forall_app. split; eapply Forall_impl; try eassumption; simpl.
    + intros x (? & ? & _). split; [done|]. exists i. by split; [left|].
    + intros x (? & j & ? & ?). split; [done|]. exists j. by split; [right|].
  - apply StronglySorted_app. split_and!; [|done|done]. intros x y Hx Hy. rewrite Forall_forall in Hp, Hr, Happ.
    destruct (Hp x Hx) as (? & ? & _), (Hr y Hy) as (? & j & Hj & ?). by eapply (within_apart i j); auto.
  - intros c h. rewrite maps_app, Hm, Hrm, maps_cons.
    assert (binds i c h → covers_id (skip_before (ContainerStart i) remove) c ↔ covers_id remove c) as H1.
    { intros [Hc _]. apply Hskip. lia. }
    assert (maps from c h → covers_id left c ↔ covers_id remove c) as H2.
    { intros (j & Hj & [Hc _]). rewrite Forall_forall in Happ, Hafter. specialize (Hafter j Hj). unfold after in Hafter.
      assert (usable i) as Hi' by done. rewrite Hleft by lia. apply Hskip. unfold usable, containerEnd in *. lia. }
    assert (binds i c h → ContainerStart i ≤ c) by (unfold binds; lia). tauto.
Qed.

Lemma strong_canonical l : Forall usable l → StronglySorted apart l → canonical l.
Proof. intros Hu Hs. split; [done|]. by apply StronglySorted_Sorted. Qed.

(** The difference of the relations. *)
Lemma subtract_spec from remove :
  canonical from → canonical remove →
  canonical (subtractExecutionIntervalsV1 from remove)
  ∧ ∀ c h, maps (subtractExecutionIntervalsV1 from remove) c h ↔ maps from c h ∧ ¬ covers_id remove c.
Proof.
  intros Hf Hr. destruct (subtract_parts from remove Hf) as (H1 & H2 & H3); [apply Hr|by apply canonical_after|].
  split; [|done]. apply strong_canonical; [|done]. eapply Forall_impl; [exact H1|]. by intros x [? _].
Qed.

(** ** Projection *)

Lemma advance_spec id l :
  Forall usable l → StronglySorted after l → covers_id l id →
  ∃ i rest, advance_interval id l = Ok (i, i :: rest) ∧ ContainerStart i ≤ id < containerEnd i ∧ i ∈ l
  ∧ Forall usable (i :: rest) ∧ StronglySorted after (i :: rest)
  ∧ (∀ c h, id ≤ c → maps (i :: rest) c h ↔ maps l c h).
Proof.
  induction l as [|i l IH]; [by intros _ _ ?%covers_nil|]. simpl. intros Hu Hs Hc.
  destruct (proj1 (StronglySorted_cons _ _ _) Hs) as [Hi Hs']. destruct (proj1 (Forall_cons _ _ _) Hu) as [Hiu Hu'].
  destruct (Z.leb_spec (containerEnd i) id) as [Hle|Hlt].
  - apply covers_cons in Hc as [?|Hc]; [lia|]. destruct (IH Hu' Hs' Hc) as (j & rest & Hr & H1 & H2 & H3 & H4 & H5).
    exists j, rest. split_and!; [done|lia|lia|by right|done|done|]. intros c h Hcc. rewrite H5, (maps_cons i) by done.
    unfold binds. intuition lia.
  - exists i, l. split_and!; [done| |done|by left|done|done|done].
    apply covers_cons in Hc as [?|(j & Hj & Hc)]; [lia|]. rewrite Forall_forall in Hi. specialize (Hi j Hj).
    unfold after, usable, containerEnd in *. lia.
Qed.

Lemma project_ids_spec ids : ∀ l,
  Forall usable l → StronglySorted after l → StronglySorted Z.lt ids → Forall (covers_id l) ids →
  ∃ out, project_ids l ids = Ok out ∧ Forall usable out ∧ StronglySorted after out
  ∧ (∀ c h, maps out c h ↔ c ∈ ids ∧ maps l c h).
Proof.
  induction ids as [|id ids IH]; intros l Hu Hs Hids Hc; simpl.
  { exists []. split_and!; [done|done|constructor|]. intros c h. split; [by intros ?%maps_nil|]. by intros [?%elem_of_nil _]. }
  apply StronglySorted_cons in Hids as [Hlt Hids]. apply Forall_cons in Hc as [Hid Hc].
  destruct (advance_spec id l Hu Hs Hid) as (i & rest & -> & Hin & Hil & Hu' & Hs' & Hsame). rewrite bind_Ok.
  destruct (IH (i :: rest) Hu' Hs' Hids) as (out & -> & Hou & Hos & Hom).
  { rewrite Forall_forall in Hc, Hlt |- *. intros c Hcin. specialize (Hlt c Hcin). rewrite covers_maps.
    specialize (Hc c Hcin). apply covers_maps in Hc as [h Hh]. exists h. apply Hsame; [lia|done]. }
  rewrite bind_Ok. eexists. split; [done|].
  apply Forall_cons in Hu' as [Hui _].
  assert (to_uint32 (HostStart i + to_uint32 (id - ContainerStart i)) = id + bindingOffset i) as Hhost.
  { unfold usable, containerEnd, bindingOffset in *. rewrite (to_uint32_small (id - _)) by (unfold MaxUint32 in *; lia).
    rewrite to_uint32_small by (unfold MaxUint32 in *; lia). lia. }
  rewrite Hhost. set (x := MkInterval id (id + bindingOffset i) 1). split_and!.
  - constructor; [|done]. unfold x, usable, containerEnd, bindingOffset in *. simpl. lia.
  - constructor; [done|]. rewrite Forall_forall in Hou |- *. rewrite Forall_forall in Hlt. intros y Hy. unfold after, x, containerEnd. simpl.
    assert (maps out (ContainerStart y) (HostStart y)) as [Hyi _]%Hom.
    { exists y. split; [done|]. apply binds_start. by apply Hou. }
    specialize (Hlt _ Hyi). lia.
  - intros c h. rewrite maps_cons, Hom, elem_of_cons. rewrite Forall_forall in Hlt.
    assert (binds x c h ↔ c = id ∧ maps l c h) as Hx.
    { unfold binds, x, containerEnd. simpl. split.
      - intros [Hcc ->]. assert (c = id) as -> by lia. split; [done|]. exists i. split; [done|].
        unfold binds, bindingOffset in *. simpl. lia.
      - intros [-> Hm]. split; [lia|]. apply Hsame in Hm; [|lia].
        apply (after_functional _ Hs' id); [done|]. exists i. split; [by left|].
        unfold binds, bindingOffset in *. simpl. lia. }
    rewrite Hx. assert (c ∈ ids → maps (i :: rest) c h ↔ maps l c h) as Hr; [|tauto].
    intros Hci. apply Hsame. specialize (Hlt c Hci). lia.
Qed.

Lemma sorted_elements (ids : gset Z) : StronglySorted Z.lt (merge_sort Z.le (elements ids)).
Proof.
  assert (StronglySorted Z.le (merge_sort Z.le (elements ids))) as Hs.
  { apply Sorted_StronglySorted; [intros ???; lia|]. apply (Sorted_merge_sort _). }
  assert (NoDup (merge_sort Z.le (elements ids))) as Hn.
  { rewrite merge_sort_Permutation. apply NoDup_elements. }
  induction Hs as [|x l Hs IH Hx]; [constructor|]. apply NoDup_cons in Hn as [Hxl Hn]. constructor; [by apply IH|].
  rewrite Forall_forall in Hx |- *. intros y Hy. specialize (Hx y Hy). assert (x ≠ y) by (by intros ->). lia.
Qed.

(** The restriction of the relation to covered identities. *)
Lemma project_spec l ids :
  canonical l → (∀ id, id ∈ ids → covers_id l id) →
  ∃ out, projectExecutionIDsV1 l ids = Ok out ∧ Forall usable out ∧ StronglySorted after out
  ∧ (∀ c h, maps out c h ↔ c ∈ ids ∧ maps l c h).
Proof.
  intros Hl Hc. destruct (project_ids_spec (merge_sort Z.le (elements ids)) l) as (out & H1 & H2 & H3 & H4).
  - apply Hl.
  - by apply canonical_after.
  - apply sorted_elements.
  - apply Forall_forall. intros id Hid. apply Hc. rewrite merge_sort_Permutation in Hid. by apply elem_of_elements.
  - exists out. split_and!; [done|done|done|]. intros c h. rewrite H4, merge_sort_Permutation, elem_of_elements. done.
Qed.

(** * Plans by the relations that geometries mean *)

(** ** Relations *)

Inductive id_kind := UserIDs | GroupIDs.
Definition ids (kind : id_kind) (g : Geometry) : list Interval :=
  match kind with UserIDs => UIDs g | GroupIDs => GIDs g end.
Definition gmaps (kind : id_kind) (g : Geometry) (c h : Z) : Prop := maps (ids kind g) c h.

Definition geometry_included (g k : Geometry) : Prop := ∀ kind c h, gmaps kind g c h → gmaps kind k c h.
(** A mapping with everything either geometry maps. *)
Definition joined (g k r : Geometry) : Prop :=
  Profile r = Profile g ∧ ∀ kind c h, gmaps kind r c h ↔ gmaps kind g c h ∨ gmaps kind k c h.

Lemma same_geometry_iff g k : same_geometry g k ↔ Profile g = Profile k ∧ ∀ kind c h, gmaps kind g c h ↔ gmaps kind k c h.
Proof.
  unfold same_geometry, same_maps, gmaps. split.
  - intros (H1 & H2 & H3). split; [done|]. by intros [].
  - intros [H1 H2]. split_and!; [done|apply (H2 UserIDs)|apply (H2 GroupIDs)].
Qed.
Lemma joined_union g k r : same_geometry r (union g k) ↔ joined g k r.
Proof.
  rewrite same_geometry_iff. unfold joined, gmaps. apply and_iff_compat_l.
  split; intros H kind c h; rewrite H; destruct kind; simpl; rewrite maps_app; tauto.
Qed.
Lemma canonical_geometry_ids g : canonical_geometry g ↔ ∀ kind, canonical (ids kind g).
Proof. split; [by intros [??] []|]. intros H. split; [apply (H UserIDs)|apply (H GroupIDs)]. Qed.
Lemma same_geometry_wf g : canonical_geometry g → wf_geometry g.
Proof. intros [Hu Hg]. split; by apply canonical_wf. Qed.

(** Retention by the joined relation. *)
Lemma retain_joined sort p k :
  sorts sort → wf_geometry p → wf_geometry k →
  match RetainGeometry sort p (Some k) with
  | Ok r => retainable p k ∧ valid_geometry r ∧ canonical_geometry r ∧ joined p k r
  | Err _ => ¬ retainable p k
  end.
Proof.
  intros Hsort Hp Hk. assert (H := retain_run sort p k Hsort Hp Hk). destruct (RetainGeometry sort p (Some k)); [|done].
  by rewrite joined_union in H.
Qed.

Lemma joined_included p k r : geometry_included p k → Profile p = Profile k → joined p k r ↔ same_geometry r k.
Proof.
  intros Hi He. rewrite same_geometry_iff. unfold joined. rewrite He. apply and_iff_compat_l.
  split; intros H kind c h; rewrite H; specialize (Hi kind c h); tauto.
Qed.
Lemma joined_same p k r : joined p k r → same_geometry r k → geometry_included p k.
Proof. rewrite same_geometry_iff. intros [_ H1] [_ H2] kind c h Hm. apply H2, H1. by left. Qed.

(** A geometry absorbs what it contains. *)
Lemma included_retainable p k :
  valid_geometry p → valid_geometry k → Profile p = Profile k → geometry_included p k →
  (Profile p = "bounded" → same_geometry p k) → retainable p k.
Proof.
  intros Hp Hk He Hi Hb. split_and!; [done|done|done|done|].
  assert (same_geometry (union p k) k) as Hs by (by apply (joined_included p k (union p k)); [..|apply joined_union]).
  apply (injection_same _ _ Hs). by apply valid_injection.
Qed.

Lemma sameExecution_iff g k : sameExecutionGeometryV1 g k = true ↔ g = k.
Proof.
  unfold sameExecutionGeometryV1. go_bool. split; [|by intros ->]. destruct g, k; simpl. intros [[-> ->] ->]. done.
Qed.

(** ** Coverage *)

Definition policy_ids (kind : id_kind) (policy : IdentityPolicyV1) : gset Z :=
  match kind with UserIDs => policy_uids policy | GroupIDs => policy_gids policy end.
Definition covers_policy (policy : IdentityPolicyV1) (g : Geometry) : Prop :=
  ∀ kind id, id ∈ policy_ids kind policy → covers_id (ids kind g) id.

Lemma elem_of_policy_uids policy id :
  id ∈ policy_uids policy ↔ ∃ name user, policy_Users policy !! name = Some user ∧ uint_value (policy_UID user) 32 = id.
Proof.
  unfold policy_uids. rewrite elem_of_list_to_set, list_elem_of_fmap. split.
  - intros ([name user] & -> & Hin%elem_of_map_to_list). by exists name, user.
  - intros (name & user & Hin & <-). exists (name, user). by rewrite elem_of_map_to_list.
Qed.
Lemma elem_of_policy_gids policy id :
  id ∈ policy_gids policy ↔ ∃ name gid, policy_Groups policy !! name = Some gid ∧ uint_value gid 32 = id.
Proof.
  unfold policy_gids. rewrite elem_of_list_to_set, list_elem_of_fmap. split.
  - intros ([name gid] & -> & Hin%elem_of_map_to_list). by exists name, gid.
  - intros (name & gid & Hin & <-). exists (name, gid). by rewrite elem_of_map_to_list.
Qed.

Lemma covered_iff value l : id_covered value l = true ↔ covers_id l (uint_value value 32).
Proof.
  unfold id_covered, covers_id. rewrite existsb_exists. setoid_rewrite list_elem_of_In. apply exist_proper. intros i. go_bool. done.
Qed.
Lemma check_id_nil kind value path l : check_id kind value path l = [] ↔ covers_id l (uint_value value 32).
Proof. unfold check_id. rewrite <-covered_iff. by destruct (id_covered value l). Qed.

Lemma bind_nil {A B} (l : list A) (f : A → list B) : l ≫= f = [] ↔ ∀ x, x ∈ l → f x = [].
Proof.
  induction l as [|x l IH]; [split; [set_solver|done]|]. simpl. rewrite app_nil, IH. set_solver.
Qed.
Lemma concat_nil {A} (ls : list (list A)) : concat ls = [] ↔ ∀ l, l ∈ ls → l = [].
Proof. induction ls as [|l ls IH]; [split; [set_solver|done]|]. simpl. rewrite app_nil, IH. set_solver. Qed.

Lemma missing_ids_nil policy g : valid_policy policy → missing_ids policy g = [] ↔ covers_policy policy g.
Proof.
  intros Hv. unfold missing_ids, covers_policy. rewrite app_nil, !bind_nil. split.
  - intros [Hu Hg] [] id; simpl; rewrite ?elem_of_policy_uids, ?elem_of_policy_gids.
    + intros (name & user & Hin & <-). apply elem_of_map_to_list in Hin. specialize (Hu _ Hin). simpl in Hu.
      apply app_nil in Hu as [Hu _]. by apply check_id_nil in Hu.
    + intros (name & gid & Hin & <-). apply elem_of_map_to_list in Hin. specialize (Hg _ Hin). simpl in Hg.
      by apply check_id_nil in Hg.
  - intros H. assert (Hu := H UserIDs). assert (Hg := H GroupIDs). simpl in *.
    setoid_rewrite elem_of_policy_uids in Hu. setoid_rewrite elem_of_policy_gids in Hg.
    assert (∀ group, is_Some (policy_Groups policy !! group) → covers_id (GIDs g) (uint_value (policy_gid policy group) 32)) as Hgroup.
    { intros group [gid Hgid]. apply Hg. exists group, gid. unfold policy_gid. by rewrite Hgid. }
    split.
    + intros [name user] Hin%elem_of_map_to_list. simpl. destruct (valid_users _ Hv _ _ Hin) as (gid & groups & H1 & H2 & _ & _ & _ & H3 & _).
      apply app_nil. split; [apply check_id_nil, Hu; by exists name, user|]. apply app_nil. split; [apply check_id_nil, Hgroup; by exists gid|].
      rewrite H2. apply concat_nil. intros l (i & group & -> & Hgr)%elem_of_lookup_imap. apply check_id_nil, Hgroup.
      rewrite Forall_forall in H3. apply list_elem_of_lookup_2 in Hgr. by apply (H3 _ Hgr).
    + intros [name gid] Hin%elem_of_map_to_list. apply check_id_nil, Hg. by exists name, gid.
Qed.

Lemma merge_sort_nil {A} (R : relation A) `{!∀ x y, Decision (R x y)} l : merge_sort R l = [] ↔ l = [].
Proof.
  split; [|by intros ->]. intros Hnil. assert (Hp := merge_sort_Permutation R l). rewrite Hnil in Hp. by apply Permutation_nil.
Qed.

Section plan.
Context (sha256 : list Ascii.ascii → list Ascii.ascii).
Context (sort : list Interval → list Interval) (Hsort : sorts sort).

(** The lock that a plan requires. *)
Definition valid_lock (lock : IdentityPolicyLockV1) : Prop :=
  ValidateIdentityPolicyLockV1 sha256 (Some lock) (evidence_Image (lock_Evidence lock)) (evidence_Platform (lock_Evidence lock)) = Ok tt.
Lemma valid_lock_policy lock : valid_lock lock → valid_policy (lock_Policy lock).
Proof.
  unfold valid_lock, ValidateIdentityPolicyLockV1, ValidateImageIdentityEvidenceV1, imageIdentityInputsV1. intros Hlock. go_ok.
  by apply ValidatePolicy_iff.
Qed.

Definition covering (lock : IdentityPolicyLockV1) (g : Geometry) (generation : string) : Prop :=
  ValidateDigest generation = Ok tt ∧ valid_lock lock ∧ valid_geometry g ∧ covers_policy (lock_Policy lock) g.

Lemma covers_same l k c : same_maps l k → covers_id l c ↔ covers_id k c.
Proof. intros H. rewrite !covers_maps. apply exist_proper. intros h. apply H. Qed.
Lemma covers_policy_same policy g k : same_geometry g k → covers_policy policy g ↔ covers_policy policy k.
Proof.
  rewrite same_geometry_iff. intros [_ H]. unfold covers_policy.
  split; intros Hc kind id Hid; apply (covers_same _ _ _ (H kind)); by apply Hc.
Qed.

Lemma coverage_run lock g generation :
  wf_geometry g → ValidateIdentityPolicyCoverageV1 sha256 sort (Some lock) g generation = Ok tt ↔ covering lock g generation.
Proof using Hsort.
  intros Hw. unfold ValidateIdentityPolicyCoverageV1, covering. rewrite bind_unit, wrap_ok. apply and_iff_compat_l.
  rewrite bind_unit. fold (valid_lock lock). split.
  - intros [Hl H]. split; [done|]. assert (Hv := validate_run sort g Hsort Hw). destruct (ValidateGeometry sort g) as [r|]; [|done].
    destruct Hv as (Hv & _ & Hs). split; [done|]. cbn [wrap] in H. rewrite bind_Ok in H.
    destruct (merge_sort _ _) eqn:Hm; [|done]. rewrite merge_sort_nil, missing_ids_nil in Hm by (by apply valid_lock_policy).
    by apply (covers_policy_same _ _ _ Hs).
  - intros (Hl & Hg & Hc). split; [done|]. assert (Hv := validate_run sort g Hsort Hw). destruct (ValidateGeometry sort g) as [r|]; [|done].
    destruct Hv as (_ & _ & Hs). cbn [wrap]. rewrite bind_Ok. rewrite <-(covers_policy_same _ _ _ Hs) in Hc.
    apply missing_ids_nil in Hc; [|by apply valid_lock_policy]. by rewrite Hc.
Qed.

(** ** The active mapping *)

(** What an execution uses: the candidate, on the declared identities when exact. *)
Definition in_use (policy : IdentityPolicyV1) (candidate : Geometry) (kind : id_kind) (c h : Z) : Prop :=
  gmaps kind candidate c h ∧ (Profile candidate = "exact" → c ∈ policy_ids kind policy).

Lemma restricted_admissible l (declared : gset Z) out :
  admissible "exact" l → canonical l → Forall usable out → StronglySorted after out →
  (∀ c h, maps out c h ↔ c ∈ declared ∧ maps l c h) → (∃ id, id ∈ declared ∧ covers_id l id) → admissible "exact" out.
Proof.
  intros Hl Hc Hu Hs Hm (id & Hid & [h Hh]%covers_maps).
  assert (injective l) as Hi by (by apply disjoint_injective; [apply Hl..]).
  assert (StronglySorted disjoint_containers out) as Hd by (eapply StronglySorted_impl; [|exact Hs]; by left).
  constructor; [|done|done|done| |].
  - intros ->. assert (maps [] id h) as []%maps_nil. by apply Hm.
  - apply disjoint_injective; [done|done|]. intros c c' k [_ ?]%Hm [_ ?]%Hm. by eapply Hi.
  - apply maps_root; [done|]. intros c [_ Hc0]%Hm. revert Hc0. apply maps_root; [apply Hl|]. apply Hl.
Qed.

Lemma active_run policy candidate :
  valid_geometry candidate → canonical_geometry candidate → covers_policy policy candidate →
  policy_Users policy ≠ ∅ → policy_Groups policy ≠ ∅ →
  ∃ active, active_geometry sort policy candidate = Ok active ∧ valid_geometry active ∧ canonical_geometry active
  ∧ Profile active = Profile candidate ∧ ∀ kind c h, gmaps kind active c h ↔ in_use policy candidate kind c h.
Proof using Hsort.
  intros Hv Hc Hcov Hu Hg. unfold active_geometry, in_use. case_bool_decide as He.
  2: { exists candidate. split_and!; [done|done|done|done|]. intros kind c h. tauto. }
  destruct (project_spec (UIDs candidate) (policy_uids policy)) as (uids & -> & Hu1 & Hu2 & Hu3); [apply Hc|apply (Hcov UserIDs)|].
  destruct (project_spec (GIDs candidate) (policy_gids policy)) as (gids & -> & Hg1 & Hg2 & Hg3); [apply Hc|apply (Hcov GroupIDs)|].
  rewrite !bind_Ok. assert (Hadm := Hv). destruct Hadm as (_ & Hau & Hag). rewrite He in Hau, Hag.
  assert (valid_geometry (MkGeometry (Profile candidate) uids gids)) as Hvalid.
  { split; [by left|]. simpl. rewrite He. split.
    - apply (restricted_admissible _ _ _ Hau (proj1 Hc) Hu1 Hu2 Hu3). apply map_choose in Hu as (name & user & Hin).
      assert (uint_value (policy_UID user) 32 ∈ policy_uids policy) as Hin' by (apply elem_of_policy_uids; eauto).
      eexists. split; [exact Hin'|]. by apply (Hcov UserIDs).
    - apply (restricted_admissible _ _ _ Hag (proj2 Hc) Hg1 Hg2 Hg3). apply map_choose in Hg as (name & gid & Hin).
      assert (uint_value gid 32 ∈ policy_gids policy) as Hin' by (apply elem_of_policy_gids; eauto).
      eexists. split; [exact Hin'|]. by apply (Hcov GroupIDs). }
  assert (wf_geometry (MkGeometry (Profile candidate) uids gids)) as Hwf.
  { split; simpl; (eapply Forall_impl; [eassumption|apply usable_wf]). }
  assert (H := validate_run sort _ Hsort Hwf). destruct (ValidateGeometry sort _) as [active|]; [|done].
  destruct H as (_ & Hca & Hsame). exists active. split_and!; [done|by eapply valid_normal|done|apply Hsame|].
  apply same_geometry_iff in Hsame as [_ Hsame]. intros kind c h. rewrite Hsame. unfold gmaps. destruct kind; simpl.
  - rewrite Hu3. tauto.
  - rewrite Hg3. tauto.
Qed.

(** ** The plan *)

Definition opt_maps (kind : id_kind) (g : option Geometry) (c h : Z) : Prop := ∃ a, g = Some a ∧ gmaps kind a c h.

(** The inputs that have a plan. *)
Definition plannable (lock : IdentityPolicyLockV1) (input : IdentityExecutionInputV1) : Prop :=
  let candidate := input_Candidate input in
  covering lock candidate (Generation input)
  ∧ (∀ r, input_Reservations input = Some r → retainable candidate r)
  ∧ (∀ a, input_Accepted input = Some a → ∃ r, input_Reservations input = Some r ∧ retainable a r ∧ geometry_included a r)
  ∧ Forall (λ name, is_Some (policy_Users (lock_Policy lock) !! name)) (RuntimeUsers input)
  ∧ Forall (λ name, is_Some (policy_Groups (lock_Policy lock) !! name)) (RuntimeGroups input)
  ∧ ∀ kind c h, gmaps kind candidate c h → in_use (lock_Policy lock) candidate kind c h ∨ opt_maps kind (input_Accepted input) c h.

(** What the plan is. *)
Definition plans (policy : IdentityPolicyV1) (input : IdentityExecutionInputV1) (plan : IdentityExecutionPlanV1) : Prop :=
  let candidate := input_Candidate input in
  Forall (λ g, valid_geometry g ∧ canonical_geometry g ∧ Profile g = Profile candidate)
    [Active plan; ProspectiveReservations plan; ProspectiveAccepted plan]
  ∧ canonical (DormantUIDs plan) ∧ canonical (DormantGIDs plan)
  ∧ ∀ kind c h,
      (gmaps kind (Active plan) c h ↔ in_use policy candidate kind c h)
      ∧ (gmaps kind (ProspectiveReservations plan) c h ↔ gmaps kind candidate c h ∨ opt_maps kind (input_Reservations input) c h)
      ∧ (gmaps kind (ProspectiveAccepted plan) c h ↔ gmaps kind (Active plan) c h ∨ opt_maps kind (input_Accepted input) c h)
      ∧ (maps (match kind with UserIDs => DormantUIDs plan | GroupIDs => DormantGIDs plan end) c h ↔
          gmaps kind (ProspectiveAccepted plan) c h ∧ ¬ gmaps kind (Active plan) c h).

Definition wf_option (g : option Geometry) : Prop := ∀ a, g = Some a → wf_geometry a.

(** Retention of optional history. *)
Lemma retain_option p k :
  wf_geometry p → wf_option k →
  match RetainGeometry sort p k with
  | Ok r => (∀ a, k = Some a → retainable p a) ∧ valid_geometry p ∧ valid_geometry r ∧ canonical_geometry r ∧ Profile r = Profile p
      ∧ (∀ kind c h, gmaps kind r c h ↔ gmaps kind p c h ∨ opt_maps kind k c h)
  | Err _ => ¬ (valid_geometry p ∧ ∀ a, k = Some a → retainable p a)
  end.
Proof using Hsort.
  intros Hp Hk. destruct k as [k|].
  - assert (H := retain_joined sort p k Hsort Hp (Hk k eq_refl)). destruct (RetainGeometry sort p (Some k)) as [r|].
    + destruct H as (Hr & Hv & Hc & [He Hm]). split_and!; [by intros ? [= <-]|apply Hr|done|done|done|].
      intros kind c h. rewrite Hm. apply or_iff_compat_l. split; [intros ?; by exists k|]. by intros (? & [= <-] & ?).
    + intros [_ Hr]. by apply H, Hr.
  - unfold RetainGeometry. assert (H := validate_run sort p Hsort Hp). destruct (ValidateGeometry sort p) as [r|]; cbn [wrap].
    + rewrite bind_Ok. destruct H as (Hv & Hc & Hs). assert (Hs' := Hs). apply same_geometry_iff in Hs' as [He Hm].
      split_and!; [done|done|by eapply valid_normal|done|done|]. intros kind c h. rewrite Hm. split; [by left|].
      by intros [?|(? & [=] & _)].
    + by intros [? _].
Qed.

Lemma retainable_same p p' k k' : same_geometry p p' → same_geometry k k' → valid_geometry p' → valid_geometry k' →
  retainable p k → retainable p' k'.
Proof.
  intros Hp Hk Hvp Hvk (_ & _ & H1 & H2 & H3).
  assert (Profile p = Profile p') as Hpp by apply Hp. assert (Profile k = Profile k') as Hkk by apply Hk.
  split_and!; [done|done|congruence| |].
  - intros Hb. rewrite <-Hp, <-Hk. apply H2. congruence.
  - by apply (injection_same (union p' k') (union p k)); [apply union_normal; by symmetry|].
Qed.

Lemma accepted_run accepted reservations :
  wf_option accepted → wf_option reservations →
  let fits a := ∃ r, reservations = Some r ∧ retainable a r ∧ geometry_included a r in
  match check_accepted sort accepted reservations with
  | Ok None => accepted = None
  | Ok (Some value) => ∃ a, accepted = Some a ∧ fits a ∧ valid_geometry value ∧ canonical_geometry value ∧ same_geometry value a
  | Err _ => ¬ ∀ a, accepted = Some a → fits a
  end.
Proof using Hsort.
  intros Ha Hr fits. unfold check_accepted. destruct accepted as [a|]; [|done]. specialize (Ha a eq_refl).
  destruct reservations as [r|].
  2: { intros H. by destruct (H a eq_refl) as (? & [=] & _). }
  specialize (Hr r eq_refl).
  assert (Hv := validate_run sort r Hsort Hr). destruct (ValidateGeometry sort r) as [previous|].
  2: { intros H. destruct (H a eq_refl) as (? & [= <-] & (_ & ? & _) & _). by apply Hv. }
  destruct Hv as (Hv & Hc & Hs). rewrite bind_Ok. assert (Hvp := valid_normal _ _ Hv Hc Hs).
  assert (H := retain_joined sort a previous Hsort Ha (same_geometry_wf _ Hc)).
  destruct (RetainGeometry sort a (Some previous)) as [u|]; cbn [wrap].
  2: { intros Hall. destruct (Hall a eq_refl) as (? & [= <-] & Hret & _). apply H.
       eapply retainable_same; [reflexivity|symmetry; exact Hs|apply Hret|done|done]. }
  destruct H as (Hret & Hvu & Hcu & Hj). rewrite bind_Ok.
  assert (Profile a = Profile previous) as Hprofile by (by destruct Hret as (_ & _ & ? & _)).
  destruct (sameExecutionGeometryV1 u previous) eqn:Hsame; cbn [negb reject_if].
  - apply sameExecution_iff in Hsame as ->. rewrite bind_Ok.
    assert (Hva := validate_run sort a Hsort Ha). destruct (ValidateGeometry sort a) as [value|]; simpl.
    2: { exfalso. by apply Hva, Hret. }
    destruct Hva as (Hva & Hcv & Hsv). exists a. split; [done|]. split; [|split_and!; [by eapply valid_normal|done|done]].
    exists r. split_and!; [done| |].
    + eapply retainable_same; [reflexivity|exact Hs|apply Hret|done|exact Hret].
    + apply same_geometry_iff in Hs as [_ Hs]. intros kind c h Hm. apply Hs. by eapply joined_same.
  - rewrite <-not_true_iff_false, sameExecution_iff in Hsame. intros Hall. destruct (Hall a eq_refl) as (? & [= <-] & _ & Hi).
    apply Hsame, geometry_eq; [done|done|]. apply (joined_included a previous u); [|done|done].
    apply same_geometry_iff in Hs as [_ Hs]. intros kind c h Hm. apply Hs. by apply Hi.
Qed.

Lemma check_names {A} (m : gmap string A) names message :
  check_each (λ _ name, reject_if (bool_decide (m !! name = None)) message) None names = Ok tt ↔ Forall (λ name, is_Some (m !! name)) names.
Proof.
  rewrite (check_all (λ name, reject_if (bool_decide (m !! name = None)) message)).
  rewrite !Forall_forall. apply forall_proper. intros name. rewrite reject_if_ok, bool_decide_eq_false, not_eq_None_Some. done.
Qed.

(** The candidate against what will be accepted: it must be contained in it. *)
Lemma justified_run policy candidate active prospective accepted :
  valid_geometry candidate → canonical_geometry candidate → valid_geometry prospective → canonical_geometry prospective →
  Profile prospective = Profile candidate →
  (∀ kind c h, gmaps kind active c h ↔ in_use policy candidate kind c h) →
  (∀ kind c h, gmaps kind prospective c h ↔ gmaps kind active c h ∨ opt_maps kind accepted c h) →
  (Profile candidate = "bounded" → same_geometry candidate prospective) →
  (∃ u, RetainGeometry sort candidate (Some prospective) = Ok u ∧ sameExecutionGeometryV1 u prospective = true) ↔
  ∀ kind c h, gmaps kind candidate c h → in_use policy candidate kind c h ∨ opt_maps kind accepted c h.
Proof using Hsort.
  intros Hv Hc Hvp Hcp He Ha Hp Hb.
  assert (H := retain_joined sort candidate prospective Hsort (same_geometry_wf _ Hc) (same_geometry_wf _ Hcp)).
  assert (geometry_included candidate prospective ↔
    ∀ kind c h, gmaps kind candidate c h → in_use policy candidate kind c h ∨ opt_maps kind accepted c h) as <-.
  { unfold geometry_included. setoid_rewrite Hp. by setoid_rewrite Ha. }
  split.
  - intros (u & Hu & Hsame). rewrite Hu in H. destruct H as (_ & _ & _ & Hj). apply sameExecution_iff in Hsame as ->.
    by eapply joined_same.
  - intros Hi. destruct (RetainGeometry sort candidate (Some prospective)) as [u|].
    + destruct H as (_ & _ & Hcu & Hj). exists u. split; [done|]. apply sameExecution_iff, geometry_eq; [done|done|].
      by apply (joined_included candidate prospective u).
    + destruct H. by apply included_retainable.
Qed.

(** Retention keeps a bounded geometry. *)
Lemma retained_bounded p k r : retainable p k → joined p k r → Profile p = "bounded" → same_geometry p r.
Proof.
  intros (_ & _ & He & Hb & _) Hj Hp. specialize (Hb Hp). apply same_geometry_iff in Hb as [_ Hb]. destruct Hj as [Hpr Hj].
  apply same_geometry_iff. split; [done|]. intros kind c h. rewrite Hj, <-(Hb kind c h). tauto.
Qed.

(** What is active can be joined to accepted history. *)
Lemma active_retainable policy candidate active a r :
  valid_geometry active → Profile active = Profile candidate →
  (∀ kind c h, gmaps kind active c h ↔ in_use policy candidate kind c h) →
  retainable candidate r → retainable a r → geometry_included a r → retainable active a.
Proof.
  intros Hv He Hm (_ & _ & Hp1 & Hb1 & Hinj) (Hva & _ & Hp2 & Hb2 & _) Hi.
  split_and!; [done|done|congruence| |].
  - intros Hb. transitivity candidate.
    + apply same_geometry_iff. split; [done|]. intros kind c h. rewrite Hm. unfold in_use.
      assert (Profile candidate ≠ "exact") by (rewrite <-He, Hb; done). tauto.
    + transitivity r; [apply Hb1; congruence|symmetry; apply Hb2; congruence].
  - assert (∀ kind c h, gmaps kind (union active a) c h → gmaps kind (union candidate r) c h) as Hsub.
    { intros kind c h. assert (Hma := Hm kind c h). specialize (Hi kind c h). unfold gmaps, in_use in *.
      destruct kind; simpl in *; rewrite !maps_app; tauto. }
    destruct Hinj as (H1 & H2 & H3 & H4). split_and!.
    + intros c h h' ??. apply (H1 c); by apply (Hsub UserIDs).
    + intros c c' h ??. apply (H2 c c' h); by apply (Hsub UserIDs).
    + intros c h h' ??. apply (H3 c); by apply (Hsub GroupIDs).
    + intros c c' h ??. apply (H4 c c' h); by apply (Hsub GroupIDs).
Qed.

(** The accepted history that fits the reservations, in normal form, fits the active mapping. *)
Lemma history_run policy candidate active accepted reservations history :
  valid_geometry active → Profile active = Profile candidate →
  (∀ kind c h, gmaps kind active c h ↔ in_use policy candidate kind c h) →
  (∀ r, reservations = Some r → retainable candidate r) →
  match history with
  | None => accepted = None
  | Some value => ∃ a, accepted = Some a ∧ (∃ r, reservations = Some r ∧ retainable a r ∧ geometry_included a r)
                  ∧ valid_geometry value ∧ canonical_geometry value ∧ same_geometry value a
  end →
  (∀ a, accepted = Some a → ∃ r, reservations = Some r ∧ retainable a r ∧ geometry_included a r)
  ∧ wf_option history ∧ (∀ a, history = Some a → retainable active a)
  ∧ ∀ kind c h, opt_maps kind history c h ↔ opt_maps kind accepted c h.
Proof.
  intros Hva Hea Hma Hres Hacc. destruct history as [value|].
  - destruct Hacc as (a & -> & (r & Hr & Har & Hi) & Hvv & Hcv & Hsv). split_and!.
    + intros ? [= <-]. by exists r.
    + intros ? [= <-]. by apply same_geometry_wf.
    + intros ? [= <-]. eapply retainable_same; [reflexivity|symmetry; exact Hsv|done|done|].
      by apply (active_retainable policy candidate active a r); auto.
    + apply same_geometry_iff in Hsv as [_ Hsv]. intros kind c h. split.
      * intros (? & [= <-] & Hm). exists a. by rewrite <-Hsv.
      * intros (? & [= <-] & Hm). exists value. by rewrite Hsv.
  - rewrite Hacc. by split_and!.
Qed.

(** The difference of two mappings of which one contains the other. *)
Lemma dormant_run prospective active kind c h :
  canonical_geometry prospective → canonical_geometry active → geometry_included active prospective →
  maps (subtractExecutionIntervalsV1 (ids kind prospective) (ids kind active)) c h ↔
  gmaps kind prospective c h ∧ ¬ gmaps kind active c h.
Proof.
  rewrite !canonical_geometry_ids. intros Hp Ha Hi. destruct (subtract_spec _ _ (Hp kind) (Ha kind)) as [_ ->].
  split; intros [Hm Hn]; (split; [done|]).
  - intros H. apply Hn, covers_maps. by exists h.
  - intros [h' Hh']%covers_maps. assert (h = h') as ->; [|done].
    apply (after_functional _ (canonical_after _ (Hp kind)) c); [done|]. by apply Hi.
Qed.

(** What a partition is, for a candidate and a history in normal form. *)
Definition partitions (policy : IdentityPolicyV1) (candidate reserved : Geometry) (history : option Geometry)
    (plan : IdentityExecutionPlanV1) : Prop :=
  Forall (λ g, valid_geometry g ∧ canonical_geometry g ∧ Profile g = Profile candidate) [Active plan; ProspectiveAccepted plan]
  ∧ ProspectiveReservations plan = reserved ∧ canonical (DormantUIDs plan) ∧ canonical (DormantGIDs plan)
  ∧ ∀ kind c h,
      (gmaps kind (Active plan) c h ↔ in_use policy candidate kind c h)
      ∧ (gmaps kind (ProspectiveAccepted plan) c h ↔ gmaps kind (Active plan) c h ∨ opt_maps kind history c h)
      ∧ (maps (match kind with UserIDs => DormantUIDs plan | GroupIDs => DormantGIDs plan end) c h ↔
          gmaps kind (ProspectiveAccepted plan) c h ∧ ¬ gmaps kind (Active plan) c h).

Lemma partition_run policy candidate active reserved history :
  valid_geometry candidate → canonical_geometry candidate →
  active_geometry sort policy candidate = Ok active → valid_geometry active → canonical_geometry active →
  Profile active = Profile candidate → (∀ kind c h, gmaps kind active c h ↔ in_use policy candidate kind c h) →
  wf_option history → (∀ a, history = Some a → retainable active a) →
  let justified := ∀ kind c h, gmaps kind candidate c h → in_use policy candidate kind c h ∨ opt_maps kind history c h in
  match partition_candidate sort policy candidate reserved history with
  | Ok plan => justified ∧ partitions policy candidate reserved history plan
  | Err _ => ¬ justified
  end.
Proof using Hsort.
  intros Hv Hc Hrun Hva Hca Hea Hma Hwh Hra justified. unfold partition_candidate. rewrite Hrun, bind_Ok.
  assert (Hpro := retain_option active history (same_geometry_wf _ Hca) Hwh).
  destruct (RetainGeometry sort active history) as [prospective|]; [|by destruct Hpro].
  destruct Hpro as (_ & _ & Hvp & Hcp & Hep & Hmp). rewrite bind_Ok.
  assert (Profile candidate = "bounded" → same_geometry candidate prospective) as Hbounded.
  { intros Hb. apply same_geometry_iff. split; [congruence|]. intros kind c h. rewrite Hmp, Hma. unfold in_use.
    assert (Profile candidate ≠ "exact") by (by rewrite Hb). split; [tauto|]. intros [?|(a & Ha & Hm)]; [tauto|].
    destruct (Hra a Ha) as (_ & _ & _ & Hsa & _). apply same_geometry_iff in Hsa as [_ Hsa]; [|congruence].
    apply Hsa, Hma in Hm. by destruct Hm. }
  assert (Hjust := justified_run policy candidate active prospective history Hv Hc Hvp Hcp ltac:(congruence) Hma Hmp Hbounded).
  fold justified in Hjust. destruct (RetainGeometry sort candidate (Some prospective)) as [u|]; cbn [wrap].
  2: { intros H. by apply Hjust in H as (? & [=] & _). }
  rewrite bind_Ok. destruct (sameExecutionGeometryV1 u prospective) eqn:Hu; cbn [negb reject_if].
  2: { intros H. apply Hjust in H as (? & [= <-] & ?). congruence. }
  rewrite bind_Ok. split; [apply Hjust; by exists u|].
  assert (geometry_included active prospective) as Hi by (intros kind c h ?; apply Hmp; by left).
  assert (Hdormant := λ kind c h, dormant_run prospective active kind c h Hcp Hca Hi).
  unfold partitions. cbn [Active ProspectiveReservations ProspectiveAccepted DormantUIDs DormantGIDs].
  assert (∀ kind, canonical (subtractExecutionIntervalsV1 (ids kind prospective) (ids kind active))) as Hcan.
  { intros kind. by apply subtract_spec; apply canonical_geometry_ids. }
  split; [rewrite !Forall_cons; split_and!; (done || congruence)|]. split; [done|].
  split; [apply (Hcan UserIDs)|]. split; [apply (Hcan GroupIDs)|]. intros kind c h. split_and!; [done|done|]. rewrite <-Hdormant. by destruct kind.
Qed.

(** Every input that has a plan gets it, and no other. *)
Lemma execution_plan_run lock input :
  wf_geometry (input_Candidate input) → wf_option (input_Reservations input) → wf_option (input_Accepted input) →
  input_Policy input = Some lock →
  match PlanIdentityExecutionV1 sha256 sort input with
  | Ok plan => plannable lock input ∧ plans (lock_Policy lock) input plan
  | Err _ => ¬ plannable lock input
  end.
Proof using Hsort.
  intros Hwc Hwr Hwa Hlock. unfold PlanIdentityExecutionV1, plan_execution, plannable. rewrite Hlock.
  assert (Hcov := coverage_run lock (input_Candidate input) (Generation input) Hwc).
  destruct (ValidateIdentityPolicyCoverageV1 sha256 sort (Some lock) (input_Candidate input) (Generation input)) as [[]|].
  2: { intros [? _]. by discriminate (proj2 Hcov). }
  assert (Hcovering := proj1 Hcov eq_refl). destruct Hcovering as (_ & Hvl & Hvc & Hcp). apply valid_lock_policy in Hvl.
  rewrite bind_Ok. assert (Hrun := validate_run sort _ Hsort Hwc).
  destruct (ValidateGeometry sort (input_Candidate input)) as [candidate|]; [|done]. destruct Hrun as (_ & Hcc & Hsame).
  assert (Hvn := valid_normal _ _ Hvc Hcc Hsame). rewrite bind_Ok.
  assert (Hret := retain_option candidate (input_Reservations input) (same_geometry_wf _ Hcc) Hwr).
  assert (∀ r, retainable candidate r ↔ retainable (input_Candidate input) r) as Hsr.
  { intros r. split; intros Hr; (eapply retainable_same; [| |done| |exact Hr]; [|reflexivity|apply Hr]); [done|by symmetry]. }
  destruct (RetainGeometry sort candidate (input_Reservations input)) as [reserved|]; cbn [prefixed].
  2: { intros (_ & Hr & _). apply Hret. split; [done|]. intros a Ha. by apply Hsr, Hr. }
  destruct Hret as (Hres & _ & Hvr & Hcr & Her & Hmr). rewrite bind_Ok.
  assert (Hacc := accepted_run (input_Accepted input) (input_Reservations input) Hwa Hwr).
  destruct (check_accepted sort _ _) as [accepted|]; cbn [prefixed].
  2: { intros (_ & _ & Ha & _). by apply Hacc. }
  rewrite bind_Ok. assert (Hnames := check_names (policy_Users (lock_Policy lock)) (RuntimeUsers input)
    "runtime user requires explicit image-verified declaration").
  destruct (check_each _ None (RuntimeUsers input)) as [[]|]; cbn [prefixed].
  2: { intros (_ & _ & _ & Hu & _). by discriminate (proj2 Hnames Hu). }
  assert (Hgroups := check_names (policy_Groups (lock_Policy lock)) (RuntimeGroups input)
    "runtime group requires explicit image-verified declaration"). rewrite bind_Ok.
  destruct (check_each _ None (RuntimeGroups input)) as [[]|]; cbn [prefixed].
  2: { intros (_ & _ & _ & _ & Hg & _). by discriminate (proj2 Hgroups Hg). }
  rewrite bind_Ok. assert (Hcp' := proj2 (covers_policy_same _ _ _ Hsame) Hcp).
  destruct (active_run (lock_Policy lock) candidate Hvn Hcc Hcp') as (active & Hrun & Hva & Hca & Hea & Hma);
    [apply (valid_nonempty _ Hvl)..|].
  destruct (history_run (lock_Policy lock) candidate active _ _ accepted Hva Hea Hma Hres Hacc) as (Hfits & Hwa' & Hra & Hoa).
  assert (Hpart := partition_run (lock_Policy lock) candidate active reserved accepted Hvn Hcc Hrun Hva Hca Hea Hma Hwa' Hra).
  apply same_geometry_iff in Hsame as [Hpc Hmc].
  assert (∀ kind c h, in_use (lock_Policy lock) candidate kind c h ↔ in_use (lock_Policy lock) (input_Candidate input) kind c h) as Hmu.
  { intros kind c h. unfold in_use. by rewrite Hmc, Hpc. }
  assert ((∀ kind c h, gmaps kind candidate c h → in_use (lock_Policy lock) candidate kind c h ∨ opt_maps kind accepted c h) ↔
    ∀ kind c h, gmaps kind (input_Candidate input) c h →
      in_use (lock_Policy lock) (input_Candidate input) kind c h ∨ opt_maps kind (input_Accepted input) c h) as Hj.
  { split; intros H kind c h Hm; apply Hmc, H in Hm; [by rewrite <-Hmu, <-Hoa|by rewrite Hmu, Hoa]. }
  destruct (partition_candidate sort _ _ _ _) as [plan|]; cbn [prefixed].
  2: { intros (_ & _ & _ & _ & _ & H). by apply Hpart, (proj2 Hj). }
  destruct Hpart as (Hjust & Hg & <- & Hdu & Hdg & Hm). specialize (proj1 Hj Hjust) as Hjust'. split.
  - split_and!; [by apply Hcov|by intros r Hr; apply Hsr, Hres|done|by apply Hnames|by apply Hgroups|done].
  - split_and!; [|done|done|].
    + rewrite !Forall_cons in Hg |- *. rewrite <-Hpc. destruct Hg as (? & ? & _). split_and!; first [tauto|by constructor].
    + intros kind c h. destruct (Hm kind c h) as (H1 & H2 & H3). rewrite H1, H3, H2, H1, Hmu, Hoa, Hmr, Hmc. by split_and!.
Qed.
End plan.
