(* ===== verification/ExecutionPlanProps.v ===== *)
(** * Identities from an image to an execution

    The account files of an image verify against a policy exactly when they hold its
    accounts, the lock that keeps the evidence names one policy, and the plan of an
    execution partitions a mapping by what the policy declares. *)

From Stdlib Require Import Ascii.
From S2P Require Import Prelude GoText Identifiers Yaml Geometry GeometryFacts Canonical CanonicalReading Platform IdentityPolicy IdentityPolicyFacts PolicyDigest ImageIdentity ImageIdentityFacts ExecutionPlan ExecutionPlanFacts.

Open Scope Z_scope.

(** ** A sample *)

Definition sample_policy : IdentityPolicyV1 :=
  Policy IdentityPolicySchemaV1
    (<["app" := PolicyUser "1000" (Some "The app") "app" (Some ["web"])]> {["root" := PolicyUser "0" None "root" (Some [])]})
    (<["app" := "1000"]> (<["web" := "33"]> {["root" := "0"]}))
    {["main" := PolicyRole "app" (Some ["CAP_CHOWN"])]}.
Definition sample_hash : string := "sha256:" +:+ hex_text (first_32_bytes []).
Definition sample_image : RealizedImageV1 := RealizedImage sample_hash sample_hash sample_hash.
Definition sample_platform : Platform := MakePlatform "linux" "amd64" "" "linux/amd64".
Definition text_lines (lines : list string) : string := foldr (λ line rest, line +:+ String LF rest) "" lines.
Definition sample_files : gmap string string := list_to_map [
  ("etc/passwd", text_lines ["# accounts"; "root:x:0:0:root:/root:/bin/sh"; "app:x:1000:1000::/:/bin/false"]);
  ("etc/group", text_lines ["root:x:0:"; "web:x:33:app"; "app:x:1000:app"]);
  ("etc/nsswitch.conf", text_lines ["passwd: files"; "group: files # local"; "hosts: files dns"])].
Lemma first_32_length l : length (first_32_bytes l) = 32%nat.
Proof. unfold first_32_bytes. rewrite length_take, length_app, length_replicate. lia. Qed.

Definition sample_evidence : ImageIdentityEvidenceV1 :=
  match VerifyImageIdentityFilesV1 first_32_bytes (Some sample_policy) sample_image sample_platform sample_files with
  | Ok evidence => evidence
  | Err _ => Evidence "" sample_image sample_platform "" ∅ [] ∅
  end.
Definition sample_lock : IdentityPolicyLockV1 := PolicyLock IdentityPolicyLockSchemaV1 sample_policy sample_evidence.
Lemma sample_verifies :
  VerifyImageIdentityFilesV1 first_32_bytes (Some sample_policy) sample_image sample_platform sample_files = Ok sample_evidence.
Proof. vm_compute. reflexivity. Qed.

(** A mapping that also holds an identity of an earlier policy. *)
Definition sample_mapping : Geometry :=
  MkGeometry "exact" [MkInterval 0 100000 1; MkInterval 1000 101000 2] [MkInterval 0 100000 1; MkInterval 33 100033 1; MkInterval 1000 101000 1].
Definition sample_input : IdentityExecutionInputV1 :=
  ExecutionInput sample_hash (Some sample_lock) sample_mapping (Some sample_mapping) (Some sample_mapping) ["app"] ["web"].
Lemma sample_mapping_wf : wf_geometry sample_mapping.
Proof. wf_sample. Qed.

(** ** Images *)

(** A reading of the account files is an account database: canonical user and
    group numbers below 2^32-1, no two users with one UID and no two groups with one
    GID, members that are users, and primary groups that are groups. *)
Theorem parseImageAccountsV1_ok files users groups :
  parseImageAccountsV1 files = Some (users, groups) → accounts_ok users groups.
Proof. apply parse_accounts_ok. Qed.

Lemma parseImageAccountsV1_ok_witness : ∃ users groups,
  parseImageAccountsV1 sample_files = Some (users, groups) ∧ accounts_ok users groups ∧ size users = 2%nat.
Proof.
  destruct (parseImageAccountsV1 sample_files) as [[users groups]|] eqn:Hp; [|by vm_compute in Hp].
  exists users, groups. split; [done|]. split; [by apply (parseImageAccountsV1_ok sample_files)|]. vm_compute in Hp. by injection Hp as <- _.
Defined.

(** C16: verification of the account files of an image succeeds exactly when the policy
    is valid, the image and its Linux platform are well formed, the three files are
    present and of bounded text, and their accounts are the declared ones: every
    declared group has its GID, and every declared user its UID, its primary group and
    as additional groups exactly the declared ones.  The evidence then records the
    digests of the policy and of the files and the declared identities sorted by UID,
    and it is valid. *)
Theorem VerifyImageIdentityFilesV1_spec sha256 policy image platform files evidence :
  (∀ l, length (sha256 l) = 32%nat) →
  (VerifyImageIdentityFilesV1 sha256 policy image platform files = Ok evidence ↔
   ∃ p digest users groups, policy = Some p ∧ verifiable sha256 p image platform digest ∧ readable files
     ∧ parseImageAccountsV1 files = Some (users, groups) ∧ image_matches p users groups
     ∧ evidence = evidence_of sha256 p image platform digest files)
  ∧ (VerifyImageIdentityFilesV1 sha256 policy image platform files = Ok evidence →
     ValidateImageIdentityEvidenceV1 sha256 evidence policy image platform = Ok tt).
Proof.
  intros Hl. assert (H := verified sha256 Hl policy image platform files evidence). split; [done|]. rewrite H.
  intros (p & digest & users & groups & -> & Hv & Hr & _ & _ & ->). apply evidence_ok. exists p, digest.
  split_and!; [done|done|by apply readable_summaries|done].
Qed.

Lemma VerifyImageIdentityFilesV1_spec_witness : ∃ digest users groups,
  verifiable first_32_bytes sample_policy sample_image sample_platform digest ∧ readable sample_files
  ∧ parseImageAccountsV1 sample_files = Some (users, groups) ∧ image_matches sample_policy users groups
  ∧ ValidateImageIdentityEvidenceV1 first_32_bytes sample_evidence (Some sample_policy) sample_image sample_platform = Ok tt.
Proof.
  destruct (VerifyImageIdentityFilesV1_spec first_32_bytes (Some sample_policy) sample_image sample_platform sample_files sample_evidence
    first_32_length) as [H1 H2].
  destruct (proj1 H1 sample_verifies) as (p & digest & users & groups & [= <-] & Hv & Hr & Hp & Hm & _).
  exists digest, users, groups. split; [done|]. split; [done|]. split; [done|]. split; [done|]. exact (H2 sample_verifies).
Defined.

(** C17: one body of evidence serves one lock as far as SHA-256 tells policies apart.
    When two valid locks hold the same evidence, then they are for the same image and
    platform, and their policies have the same groups and the same declared users and
    groups of users; the canonical texts of the two policies have one hash under the
    kind and the schema of a policy, and the locks are the same exactly when these two
    texts are. *)
Theorem policy_lock_binds sha256 lock lock' image image' platform platform' :
  ValidateIdentityPolicyLockV1 sha256 (Some lock) image platform = Ok tt →
  ValidateIdentityPolicyLockV1 sha256 (Some lock') image' platform' = Ok tt →
  lock_Evidence lock = lock_Evidence lock' →
  image = image' ∧ platform = platform'
  ∧ policy_Groups (lock_Policy lock) = policy_Groups (lock_Policy lock')
  ∧ declared_identities (lock_Policy lock) = declared_identities (lock_Policy lock')
  ∧ ∃ a b, policy_text (lock_Policy lock) = Ok a ∧ policy_text (lock_Policy lock') = Ok b
    ∧ sha256 (policy_preimage a) = sha256 (policy_preimage b) ∧ (a = b ↔ lock = lock').
Proof.
  intros [Hs (p & digest & [= <-] & Hv & _ & He)%evidence_ok]%reject_if_bind.
  intros [Hs' (q & digest' & [= <-] & Hv' & _ & He')%evidence_ok]%reject_if_bind Heq. go_bool.
  assert (Hsame := He). rewrite Heq, He' in Hsame. injection Hsame as -> -> -> Hu Hg. clear He He'.
  destruct Hv as (Hp & _ & _ & _ & Hd), Hv' as (Hq & _ & _ & _ & Hd').
  destruct (policy_sum_inj _ _ _ _ _ Hp Hq Hd Hd') as (a & b & Ha & Hb & Hab & Hh).
  split_and!; [done..|]. exists a, b. split_and!; [done|done|by apply Hh|]. rewrite Hab. split; [|by intros ->].
  intros Hpq. destruct lock, lock'. simpl in *. by subst.
Qed.

Lemma policy_lock_binds_witness :
  ValidateIdentityPolicyLockV1 first_32_bytes (Some sample_lock) sample_image sample_platform = Ok tt ∧
  (∀ lock' image' platform', ValidateIdentityPolicyLockV1 first_32_bytes (Some lock') image' platform' = Ok tt →
    lock_Evidence lock' = sample_evidence → image' = sample_image ∧ platform' = sample_platform ∧
    policy_Groups (lock_Policy lock') = policy_Groups sample_policy).
Proof.
  assert (ValidateIdentityPolicyLockV1 first_32_bytes (Some sample_lock) sample_image sample_platform = Ok tt) as Hl
    by (vm_compute; reflexivity).
  split; [exact Hl|]. intros lock' image' platform' Hl' He.
  destruct (policy_lock_binds first_32_bytes lock' sample_lock image' sample_image platform' sample_platform Hl' Hl He)
    as (Hi & Hp & Hg & _). split; [exact Hi|]. split; [exact Hp|exact Hg].
Defined.

(** ** Executions *)

(** C15: a plan exists exactly for the inputs whose reservations cover the locked
    policy, whose reserved and accepted history can be retained, and whose candidate
    maps nothing but declared identities and accepted history; then the active mapping is
    the candidate on the declared identities (the whole candidate unless exact), the
    reservations are the candidate with the reserved history, the accepted mapping is
    the active one with the accepted history, and dormant is what was accepted and is
    not active: nothing is released, and nothing is active that is not declared. *)
Theorem PlanIdentityExecutionV1_spec sha256 sort input :
  sorts sort → wf_geometry (input_Candidate input) → wf_option (input_Reservations input) → wf_option (input_Accepted input) →
  match PlanIdentityExecutionV1 sha256 sort input with
  | Ok plan => ∃ lock, input_Policy input = Some lock ∧ plannable sha256 lock input ∧ plans (lock_Policy lock) input plan
  | Err _ => ∀ lock, input_Policy input = Some lock → ¬ plannable sha256 lock input
  end.
Proof.
  intros Hsort Hc Hr Ha. destruct (input_Policy input) as [lock|] eqn:Hl.
  - assert (H := execution_plan_run sha256 sort Hsort lock input Hc Hr Ha Hl). destruct (PlanIdentityExecutionV1 sha256 sort input).
    + exists lock. by split.
    + intros ? [= <-]. done.
  - unfold PlanIdentityExecutionV1, plan_execution, ValidateIdentityPolicyCoverageV1. by rewrite Hl.
Qed.

Lemma PlanIdentityExecutionV1_spec_witness : ∃ plan,
  PlanIdentityExecutionV1 first_32_bytes sort_intervals sample_input = Ok plan
  ∧ plannable first_32_bytes sample_lock sample_input ∧ plans sample_policy sample_input plan
  ∧ DormantUIDs plan = [MkInterval 1001 101001 1] ∧ ¬ gmaps UserIDs (Active plan) 1001 101001.
Proof.
  assert (wf_option (Some sample_mapping)) as Hw by (intros ? [= <-]; apply sample_mapping_wf).
  assert (H := PlanIdentityExecutionV1_spec first_32_bytes sort_intervals sample_input sort_intervals_sorts sample_mapping_wf Hw Hw).
  destruct (PlanIdentityExecutionV1 first_32_bytes sort_intervals sample_input) as [plan|] eqn:Hrun; [|by vm_compute in Hrun].
  assert (DormantUIDs plan = [MkInterval 1001 101001 1]) as Hd by (vm_compute in Hrun; by injection Hrun as <-).
  destruct H as (lock & [= <-] & Hp & Hplan). exists plan. split_and!; [done|done|done|done|].
  destruct Hplan as (_ & _ & _ & Hm). destruct (Hm UserIDs 1001 101001) as (_ & _ & _ & Hdormant). apply Hdormant.
  rewrite Hd. eexists. split; [left|]. unfold binds, bindingOffset, containerEnd. simpl. lia.
Defined.
