(* ===== verification/MappingState.v ===== *)
(** * The state of a deployment and its identity mapping

    [internal/deploy/state_v1.go], [identity_mapping_state.go],
    [identity_mapping_native_state.go] and the data of [deployment_state_v1.go] and
    [pending_build.go]: what a state file holds and when it is valid.

    The state keeps a Go slice as an option of a list, since a comparison with
    [reflect.DeepEqual] tells a nil slice from an empty one; a pointer is an option
    as well.  The decoded blueprint and the request overlay are parameters. *)

From Stdlib Require Import Ascii.
From S2P Require Import Prelude GoText Identifiers Yaml Geometry Canonical Platform IdentityPolicy ImageIdentity ExecutionPlan.

Open Scope Z_scope.

(** ** Slices and conversions *)

Definition Slice (A : Type) : Type := option (list A).
Definition elems {A} (s : Slice A) : list A := default [] s.
(** A slice that [append] fills from nil. *)
Definition slice_of {A} (l : list A) : Slice A := match l with [] => None | _ => Some l end.

(** [uint64(x)] and [int64(x)]. *)
Definition to_uint64 (x : Z) : Z := x mod 18446744073709551616.
Definition to_int64 (x : Z) : Z := (x + 9223372036854775808) mod 18446744073709551616 - 9223372036854775808.
Definition MaxUint64 : Z := 18446744073709551615.

(** What the model does not look into: the request overlay, the document that a
    resolved blueprint decodes to, [sha256] and the order of equal intervals. *)
Class MappingPorts := {
  RequestOverlayV1 : Type;
  RequestOverlay_eq_dec :: EqDecision RequestOverlayV1;
  check_overlay : RequestOverlayV1 → result unit;
  Document : Type;
  DecodeResolvedDocumentV1 : string → result Document;
  document_platforms : Document → list Platform;
  document_policy : Document → option IdentityPolicyV1;
  document_mapping : Document → bool;
  port_sha256 : list ascii → list ascii;
  port_sort : list Interval → list Interval
}.

(** ** Data *)

Record EnvironmentGenerationState := Generation {
  Reference : string;
  gen_ImageDigest : string;
  gen_RootFSSubject : string;
  gen_BuildLockDigest : string;
  gen_Platform : Platform;
  gen_RuntimePolicyDigest : string
}.
#[export] Instance EnvironmentGenerationState_eq_dec : EqDecision EnvironmentGenerationState.
Proof. solve_decision. Defined.

Record InstallationPortBindingV1 := PortBinding {
  port_Name : string;
  HostBind : string;
  HostPort : string;
  ContainerPort : string
}.
#[export] Instance InstallationPortBindingV1_eq_dec : EqDecision InstallationPortBindingV1.
Proof. solve_decision. Defined.
Record InstallationStateV1 := Installation {
  inst_Schema : string;
  inst_Status : string;
  TargetDir : string;
  inst_Scope : string;
  Service : string;
  UnitPath : string;
  InstanceID : string;
  ComposeProject : string;
  ContainerName : string;
  NetworkName : string;
  Ports : Slice InstallationPortBindingV1
}.
#[export] Instance InstallationStateV1_eq_dec : EqDecision InstallationStateV1.
Proof. solve_decision. Defined.
Record DeploymentStateV1 := Deployment {
  dep_Schema : string;
  dep_Installation : InstallationStateV1
}.
#[export] Instance DeploymentStateV1_eq_dec : EqDecision DeploymentStateV1.
Proof. solve_decision. Defined.

Record IdentityMappingIntervalV1 := WireInterval {
  wire_ContainerStart : string;
  wire_HostStart : string;
  wire_Count : string
}.
#[export] Instance IdentityMappingIntervalV1_eq_dec : EqDecision IdentityMappingIntervalV1.
Proof. solve_decision. Defined.
Record IdentityMappingGeometryV1 := WireGeometry {
  wire_Profile : string;
  wire_UIDs : Slice IdentityMappingIntervalV1;
  wire_GIDs : Slice IdentityMappingIntervalV1
}.
#[export] Instance IdentityMappingGeometryV1_eq_dec : EqDecision IdentityMappingGeometryV1.
Proof. solve_decision. Defined.

Record NativeIdentityOperationV1 := Native {
  native_Active : IdentityMappingGeometryV1;
  native_Engine : string;
  native_Process : string;
  native_RuntimeUsers : Slice string;
  native_RuntimeGroups : Slice string
}.
#[export] Instance NativeIdentityOperationV1_eq_dec : EqDecision NativeIdentityOperationV1.
Proof. solve_decision. Defined.
Record IdentityMappingOperationV1 := MappingOperation {
  OperationID : string;
  op_Kind : string;
  ExpectedRevision : string;
  ExpectedGeneration : option EnvironmentGenerationState;
  op_Candidate : IdentityMappingGeometryV1;
  PriorAccepted : option EnvironmentGenerationState;
  OwnedObjects : Slice string;
  op_Phase : string;
  Inhibited : bool;
  op_Native : option NativeIdentityOperationV1
}.
#[export] Instance IdentityMappingOperationV1_eq_dec : EqDecision IdentityMappingOperationV1.
Proof. solve_decision. Defined.

Definition IdentityMappingStateSchemaV1 : string := "identity-mapping-v1".
Definition IdentityMappingStateSchemaV2 : string := "identity-mapping-v2".
Definition IdentityMappingNativeProcessModelV1 : string := "native-master-v1".
Record IdentityMappingStateV1 := MappingState {
  m_Schema : string;
  InstallationID : string;
  OwnerDir : string;
  InstallationBinding : option string;
  Revision : string;
  OperatorUID : string;
  OperatorGID : string;
  m_Profile : string;
  UIDAssignments : Slice IdentityMappingIntervalV1;
  GIDAssignments : Slice IdentityMappingIntervalV1;
  m_DormantUIDs : Slice IdentityMappingIntervalV1;
  m_DormantGIDs : Slice IdentityMappingIntervalV1;
  Supervisor : option string;
  Engine : option string;
  AdmittedGeneration : option EnvironmentGenerationState;
  RetainedStorage : Slice string;
  Revoked : bool;
  PendingOperation : option IdentityMappingOperationV1;
  ProcessModel : string;
  AcceptedUIDs : option (Slice IdentityMappingIntervalV1);
  AcceptedGIDs : option (Slice IdentityMappingIntervalV1);
  NativeProcess : option string
}.
#[export] Instance IdentityMappingStateV1_eq_dec : EqDecision IdentityMappingStateV1.
Proof. solve_decision. Defined.

Record StagingStateV1 := Staging { staging_Schema : string }.
#[export] Instance StagingStateV1_eq_dec : EqDecision StagingStateV1.
Proof. solve_decision. Defined.
Record StateV1 `{MappingPorts} := State {
  state_Schema : string;
  Blueprint : string;
  BlueprintSource : string;
  state_Platform : Platform;
  Overlay : RequestOverlayV1;
  Current : option EnvironmentGenerationState;
  state_Staging : option StagingStateV1;
  state_Deployment : option DeploymentStateV1;
  TerminalRemoval : bool;
  IdentityMapping : option IdentityMappingStateV1
}.
Arguments State {_}.
#[export] Instance StateV1_eq_dec `{MappingPorts} : EqDecision StateV1.
Proof. solve_decision. Defined.

(** ** Numbers and geometries *)

Definition mappingDecimalV1 (value : string) : Z := uint_value value 64.
Definition validMappingDecimalV1 (value : string) (bits : Z) (positive : bool) : bool :=
  match parse_uint value bits with
  | Some n => bool_decide (format_uint n = value) && (negb positive || (0 <? n)) && (negb (bits =? 32) || (n <? MaxUint32))
  | None => false
  end.
(** [strconv.FormatUint(mappingDecimalV1(revision)+1, 10)]. *)
Definition next_revision (revision : string) : string := format_uint (to_uint64 (mappingDecimalV1 revision + 1)).

Definition numeric_interval (v : IdentityMappingIntervalV1) : Interval :=
  MkInterval (to_uint32 (mappingDecimalV1 (wire_ContainerStart v))) (to_uint32 (mappingDecimalV1 (wire_HostStart v)))
    (to_uint32 (mappingDecimalV1 (wire_Count v))).
Definition numeric_intervals (s : Slice IdentityMappingIntervalV1) : list Interval := map numeric_interval (elems s).
Definition numeric (g : IdentityMappingGeometryV1) : Geometry :=
  MkGeometry (wire_Profile g) (numeric_intervals (wire_UIDs g)) (numeric_intervals (wire_GIDs g)).
Definition wire_interval (i : Interval) : IdentityMappingIntervalV1 :=
  WireInterval (format_uint (ContainerStart i)) (format_uint (HostStart i)) (format_uint (Count i)).
Definition wire_intervals (l : list Interval) : Slice IdentityMappingIntervalV1 := slice_of (map wire_interval l).
Definition mappingGeometryStateV1 (g : Geometry) : IdentityMappingGeometryV1 :=
  WireGeometry (Profile g) (wire_intervals (UIDs g)) (wire_intervals (GIDs g)).

Definition geometry (m : IdentityMappingStateV1) : IdentityMappingGeometryV1 :=
  WireGeometry (m_Profile m) (UIDAssignments m) (GIDAssignments m).
(** Only the UIDs are tested for emptiness. *)
Definition acceptedGeometry (m : IdentityMappingStateV1) : option Geometry :=
  match AcceptedUIDs m, AcceptedGIDs m with
  | Some uids, Some gids =>
    if (length (elems uids) =? 0)%nat then None else Some (numeric (WireGeometry (m_Profile m) uids gids))
  | _, _ => None
  end.
Definition is_empty {A} (s : Slice A) : bool := (length (elems s) =? 0)%nat.
(** The reservations as the argument of a retention. *)
Definition protected_geometry (m : IdentityMappingStateV1) : option Geometry :=
  if is_empty (UIDAssignments m) then None else Some (numeric (geometry m)).

Definition canonical_wire (v : IdentityMappingIntervalV1) : bool :=
  validMappingDecimalV1 (wire_ContainerStart v) 32 false && validMappingDecimalV1 (wire_HostStart v) 32 false
  && validMappingDecimalV1 (wire_Count v) 64 true && (mappingDecimalV1 (wire_Count v) <=? MaxUint32).

(** ** Validation of parts *)

Definition not_canonical : string := "identity mapping geometry must be valid and canonical".
Definition requireCanonicalMappingGeometryV1 `{MappingPorts} (value : IdentityMappingGeometryV1) : result unit :=
  _ ← reject_if (negb (forallb canonical_wire (elems (wire_UIDs value) ++ elems (wire_GIDs value))))
        "mapping intervals require canonical decimal IDs and counts";
  checked ← wrap (ValidateGeometry port_sort (numeric value)) not_canonical;
  reject_if (negb (bool_decide (checked = numeric value))) not_canonical.

Definition bad_handle (previous : option string) (handle : string) : result unit :=
  reject_if (negb (safeRecoveryIdentity handle)
             || match previous with Some p => negb (String.ltb p handle) | None => false end)
    "identity mapping handles must be safe, unique and sorted".
Definition validateMappingHandlesV1 (handles : list string) : result unit := check_each bad_handle None handles.

Definition ValidateEnvironmentGenerationState (g : EnvironmentGenerationState) : result unit :=
  _ ← reject_if (negb (safeRecoveryIdentity (Reference g))) "environment generation reference must be nonempty safe text";
  _ ← wrap (ValidateDigest (gen_ImageDigest g)) "environment generation image digest";
  _ ← wrap (ValidateDigest (gen_RootFSSubject g)) "environment generation rootfs subject";
  _ ← wrap (ValidateDigest (gen_BuildLockDigest g)) "environment generation build lock digest";
  _ ← wrap (ValidatePlatform (gen_Platform g)) "environment generation platform";
  wrap (ValidateDigest (gen_RuntimePolicyDigest g)) "environment generation runtime policy digest".
Definition check_generation (g : option EnvironmentGenerationState) : result unit :=
  match g with None => Ok tt | Some g => ValidateEnvironmentGenerationState g end.

Definition safeDeploymentText (value : string) : bool := safeRecoveryIdentity value.
Definition validInstallationPort (value : string) : bool :=
  match parse_uint value 16 with
  | Some port => negb (port =? 0) && bool_decide (format_uint port = value)
  | None => false
  end.
Definition absolute_clean (path : string) : bool := path_is_abs path && bool_decide (path_clean path = path).
Definition check_port (previous : option InstallationPortBindingV1) (port : InstallationPortBindingV1) : result unit :=
  _ ← reject_if (negb (safeDeploymentText (port_Name port)) || negb (safeDeploymentText (HostBind port))
                 || negb (safeDeploymentText (HostPort port)) || negb (safeDeploymentText (ContainerPort port)))
        "installation port fields must be nonempty safe text";
  _ ← reject_if (negb (validInstallationPort (HostPort port)) || negb (validInstallationPort (ContainerPort port)))
        "installation host and container ports must be between 1 and 65535";
  reject_if (match previous with Some p => negb (String.ltb (port_Name p) (port_Name port)) | None => false end)
    "installation ports must be unique and sorted by name".

Definition InstallationSchemaV1 : string := "installation-v1".
Definition InstallationStatusConfiguring : string := "configuring".
Definition InstallationStatusReady : string := "ready".
Definition DeploymentStateSchemaV1 : string := "deployment-v1".
Definition StagingStateSchemaV1 : string := "staging-v1".
Definition StateSchemaV1 : string := "state-v1".

Definition ValidateInstallationStateV1 (state : InstallationStateV1) : result unit :=
  _ ← reject_if (negb (bool_decide (inst_Schema state = InstallationSchemaV1))) "installation schema must be installation-v1";
  _ ← reject_if (negb (bool_decide (inst_Status state = InstallationStatusConfiguring))
                 && negb (bool_decide (inst_Status state = InstallationStatusReady)))
        "installation status must be configuring or ready";
  _ ← reject_if (negb (safeDeploymentText (TargetDir state)) || negb (absolute_clean (TargetDir state)))
        "installation target directory must be an absolute clean path";
  _ ← reject_if (negb (bool_decide (inst_Scope state = "user")) && negb (bool_decide (inst_Scope state = "system")))
        "installation scope must be user or system";
  _ ← check_each (λ _ value, reject_if (negb (safeDeploymentText value)) "installation field must be nonempty safe text") None
        [Service state; InstanceID state; ComposeProject state; ContainerName state; NetworkName state];
  _ ← reject_if (negb (bool_decide (UnitPath state = ""))
                 && (negb (safeDeploymentText (UnitPath state)) || negb (absolute_clean (UnitPath state))))
        "installation unit path must be empty or an absolute clean path";
  match Ports state with
  | None => Err "installation ports must use an array"
  | Some ports => check_each check_port None ports
  end.
Definition ValidateDeploymentStateV1 (state : DeploymentStateV1) : result unit :=
  _ ← reject_if (negb (bool_decide (dep_Schema state = DeploymentStateSchemaV1))) "deployment state schema must be deployment-v1";
  wrap (ValidateInstallationStateV1 (dep_Installation state)) "deployment installation".
Definition ValidateStagingStateV1 (state : StagingStateV1) : result unit :=
  reject_if (negb (bool_decide (staging_Schema state = StagingStateSchemaV1))) "staging state schema must be staging-v1".

(** ** Validation of a mapping *)

Section validate.
Context `{MappingPorts}.

Definition check_mapping_binding (owner : option string) : result unit :=
  reject_if (match owner with Some b => negb (safeRecoveryIdentity b) | None => false end)
    "identity mapping binding must identify retained authority".

(** The dormant value within the protected one, with the same binding: the sums are of
    [uint64], the differences of [int64]. *)
Definition retained_association (value old : IdentityMappingIntervalV1) : bool :=
  let start := mappingDecimalV1 (wire_ContainerStart value) in
  let old_start := mappingDecimalV1 (wire_ContainerStart old) in
  (old_start <=? start)
  && (to_uint64 (start + mappingDecimalV1 (wire_Count value)) <=? to_uint64 (old_start + mappingDecimalV1 (wire_Count old)))
  && (to_int64 (to_int64 (mappingDecimalV1 (wire_HostStart value)) - to_int64 start)
      =? to_int64 (to_int64 (mappingDecimalV1 (wire_HostStart old)) - to_int64 old_start)).
Definition check_dormant (m : IdentityMappingStateV1) (values protected : list IdentityMappingIntervalV1) : result unit :=
  if (length values =? 0)%nat then Ok tt
  else
    _ ← reject_if (bool_decide (AdmittedGeneration m = None)) "dormant assignments require prior admitted authority";
    _ ← requireCanonicalMappingGeometryV1 (WireGeometry "exact" (Some values) (Some values));
    reject_if (negb (forallb (λ value, existsb (retained_association value) protected) values))
      "dormant assignment is not a retained admitted association".
(** What dormant values must be part of. *)
Definition dormant_within (m : IdentityMappingStateV1) : list IdentityMappingIntervalV1 * list IdentityMappingIntervalV1 :=
  match bool_decide (m_Schema m = IdentityMappingStateSchemaV2), AcceptedUIDs m, AcceptedGIDs m with
  | true, Some uids, Some gids => (elems uids, elems gids)
  | _, _, _ => (elems (UIDAssignments m), elems (GIDAssignments m))
  end.

Definition bad_phase (m : IdentityMappingStateV1) (p : IdentityMappingOperationV1) : bool :=
  negb (bool_decide (op_Phase p = "intent")) && negb (bool_decide (op_Phase p = "effects-pending"))
  && negb (bool_decide (op_Phase p = "verified"))
  && negb (bool_decide (m_Schema m = IdentityMappingStateSchemaV2) && bool_decide (op_Kind p = "native-execute")
           && bool_decide (op_Phase p = "release-attempted")).
Definition check_mapping_operation (m : IdentityMappingStateV1) (p : IdentityMappingOperationV1) : result unit :=
  _ ← reject_if (negb (safeRecoveryIdentity (OperationID p)) || negb (safeRecoveryIdentity (op_Kind p)) || negb (Inhibited p)
                 || negb (validMappingDecimalV1 (ExpectedRevision p) 64 true)
                 || (mappingDecimalV1 (Revision m) <? mappingDecimalV1 (ExpectedRevision p)) || bad_phase m p)
        "identity mapping pending operation requires exact inhibited authority and phase";
  _ ← reject_if (negb (bool_decide (wire_Profile (op_Candidate p) = m_Profile m)))
        "identity mapping pending profile differs from retained profile";
  _ ← requireCanonicalMappingGeometryV1 (op_Candidate p);
  _ ← (match protected_geometry m with
       | None => Ok tt
       | Some protected => _ ← RetainGeometry port_sort (numeric (op_Candidate p)) (Some protected); Ok tt
       end);
  _ ← check_generation (ExpectedGeneration p);
  _ ← check_generation (PriorAccepted p);
  validateMappingHandlesV1 (elems (OwnedObjects p)).

(** What is accepted and not dormant. *)
Definition native_active (m : IdentityMappingStateV1) (accepted : Geometry) : Geometry :=
  MkGeometry (m_Profile m)
    (subtractExecutionIntervalsV1 (UIDs accepted) (numeric_intervals (m_DormantUIDs m)))
    (subtractExecutionIntervalsV1 (GIDs accepted) (numeric_intervals (m_DormantGIDs m))).
Definition no_dormant (m : IdentityMappingStateV1) : bool := is_empty (m_DormantUIDs m) && is_empty (m_DormantGIDs m).

Definition check_accepted_state (m : IdentityMappingStateV1) (uids gids : Slice IdentityMappingIntervalV1) : result unit :=
  match acceptedGeometry m with
  | None =>
    reject_if (bool_decide (is_Some (AdmittedGeneration m)) || bool_decide (is_Some (Engine m))
               || bool_decide (is_Some (NativeProcess m)) || negb (no_dormant m))
      "empty accepted provenance cannot carry admission or dormancy"
  | Some accepted =>
    _ ← requireCanonicalMappingGeometryV1 (WireGeometry (m_Profile m) uids gids);
    let reserved := numeric (geometry m) in
    union ← wrap (RetainGeometry port_sort accepted (Some reserved))
              "native accepted provenance requires protected identical bindings and native admission";
    _ ← reject_if (negb (sameExecutionGeometryV1 union reserved) || bool_decide (AdmittedGeneration m = None)
                   || match NativeProcess m with None => true | Some process => negb (safeRecoveryIdentity process) end)
          "native accepted provenance requires protected identical bindings and native admission";
    _ ← wrap (ValidateGeometry port_sort (native_active m accepted))
          "native admission requires valid active geometry and unchanged bounded authority";
    reject_if (bool_decide (m_Profile m = "bounded") && (negb (no_dormant m) || negb (sameExecutionGeometryV1 accepted reserved)))
      "native admission requires valid active geometry and unchanged bounded authority"
  end.

Definition check_release_attempt (m : IdentityMappingStateV1) (p : IdentityMappingOperationV1) (native : NativeIdentityOperationV1) : result unit :=
  let bad := "release attempt requires its exact committed native admission" in
  match acceptedGeometry m with
  | None => Err bad
  | Some accepted =>
    _ ← reject_if (negb (bool_decide (AdmittedGeneration m = ExpectedGeneration p))
                   || negb (bool_decide (Engine m = Some (native_Engine native)))
                   || negb (bool_decide (NativeProcess m = Some (native_Process native)))) bad;
    reject_if (negb (sameExecutionGeometryV1 (native_active m accepted) (numeric (native_Active native))))
      "release attempt active map differs from admitted provenance"
  end.
Definition check_native_operation (m : IdentityMappingStateV1) (p : IdentityMappingOperationV1) : result unit :=
  let bad := "native operation requires exact kind, generation, revision and owned bindings" in
  match op_Native p with
  | None => reject_if (negb (bool_decide (op_Kind p = "configure"))) bad
  | Some native =>
    _ ← reject_if (negb (bool_decide (op_Kind p = "native-execute")) || bool_decide (ExpectedGeneration p = None)
                   || negb (bool_decide (ExpectedRevision p = Revision m)) || negb (safeRecoveryIdentity (native_Engine native))
                   || negb (safeRecoveryIdentity (native_Process native)) || bool_decide (op_Phase p = "verified")) bad;
    _ ← requireCanonicalMappingGeometryV1 (native_Active native);
    union ← wrap (RetainGeometry port_sort (numeric (native_Active native)) (Some (numeric (op_Candidate p))))
              "native active map must be a subset of the candidate";
    _ ← reject_if (negb (sameExecutionGeometryV1 union (numeric (op_Candidate p))))
          "native active map must be a subset of the candidate";
    if bool_decide (op_Phase p = "release-attempted") then check_release_attempt m p native else Ok tt
  end.

Definition validateNativeMappingStateV1 (m : IdentityMappingStateV1) : result unit :=
  if bool_decide (m_Schema m = IdentityMappingStateSchemaV1) then
    reject_if (negb (bool_decide (ProcessModel m = "")) || bool_decide (is_Some (AcceptedUIDs m))
               || bool_decide (is_Some (AcceptedGIDs m)) || bool_decide (is_Some (NativeProcess m))
               || match PendingOperation m with
                  | Some p => bool_decide (is_Some (op_Native p)) || bool_decide (op_Kind p = "native-execute")
                  | None => false
                  end) "legacy mapping cannot carry native admission authority"
  else
    match AcceptedUIDs m, AcceptedGIDs m with
    | Some (Some uids), Some (Some gids) =>
      _ ← reject_if (negb (bool_decide (ProcessModel m = IdentityMappingNativeProcessModelV1)) || bool_decide (is_Some (Supervisor m)))
            "native mapping requires its process model and explicit accepted arrays without a supervisor";
      _ ← reject_if (negb (Bool.eqb (length uids =? 0)%nat (length gids =? 0)%nat)) "native admission requires both accepted ID domains";
      _ ← check_accepted_state m (Some uids) (Some gids);
      match PendingOperation m with None => Ok tt | Some p => check_native_operation m p end
    | _, _ => Err "native mapping requires its process model and explicit accepted arrays without a supervisor"
    end.

Definition check_authority (state : StateV1) (m : IdentityMappingStateV1) : result unit :=
  _ ← reject_if ((negb (bool_decide (m_Schema m = IdentityMappingStateSchemaV1))
                  && negb (bool_decide (m_Schema m = IdentityMappingStateSchemaV2)))
                 || negb (safeRecoveryIdentity (InstallationID m)) || negb (validMappingDecimalV1 (Revision m) 64 true))
        "identity mapping requires its schema, stable owner ID and positive revision";
  _ ← reject_if (negb (absolute_clean (OwnerDir m)) || negb (safeRecoveryIdentity (OwnerDir m)))
        "identity mapping requires a canonical absolute owner directory";
  _ ← reject_if (negb (validMappingDecimalV1 (OperatorUID m) 32 true) || negb (validMappingDecimalV1 (OperatorGID m) 32 true))
        "identity mapping requires a non-root usable operator UID/GID";
  _ ← reject_if (negb (bool_decide (m_Profile m = "exact")) && negb (bool_decide (m_Profile m = "bounded")))
        "identity mapping profile must be exact or bounded";
  _ ← reject_if (bool_decide (state_Staging state = None) && bool_decide (state_Deployment state = None))
        "identity mapping requires retained staging or installed authority";
  match state_Deployment state with
  | None => reject_if (bool_decide (is_Some (InstallationBinding m)))
              "staged identity mapping cannot retain an active installation binding"
  | Some deployment => reject_if (negb (bool_decide (InstallationBinding m = Some (InstanceID (dep_Installation deployment)))))
              "identity mapping installation binding does not match installed facts"
  end.
Definition check_admitted (m : IdentityMappingStateV1) : result unit :=
  match AdmittedGeneration m with
  | None => Ok tt
  | Some generation =>
    _ ← wrap (ValidateEnvironmentGenerationState generation) "identity mapping admitted generation";
    reject_if (is_empty (UIDAssignments m)
               || (bool_decide (m_Schema m = IdentityMappingStateSchemaV1) && bool_decide (Supervisor m = None))
               || bool_decide (Engine m = None)) "identity mapping admission requires retained assignments and bindings"
  end.

Definition check_mapping_state (state : StateV1) (m : IdentityMappingStateV1) : result unit :=
  _ ← check_authority state m;
  _ ← reject_if (negb (Bool.eqb (is_empty (UIDAssignments m)) (is_empty (GIDAssignments m))))
        "identity mapping requires both protected ID domains or neither";
  _ ← (if is_empty (UIDAssignments m) then Ok tt else requireCanonicalMappingGeometryV1 (geometry m));
  _ ← check_mapping_binding (Supervisor m);
  _ ← check_mapping_binding (Engine m);
  _ ← check_admitted m;
  _ ← check_dormant m (elems (m_DormantUIDs m)) (fst (dormant_within m));
  _ ← check_dormant m (elems (m_DormantGIDs m)) (snd (dormant_within m));
  _ ← validateMappingHandlesV1 (elems (RetainedStorage m));
  _ ← (match PendingOperation m with None => Ok tt | Some p => check_mapping_operation m p end);
  validateNativeMappingStateV1 m.
Definition validateIdentityMappingStateV1 (state : StateV1) : result unit :=
  match IdentityMapping state with None => Ok tt | Some m => check_mapping_state state m end.

(** ** Validation of a state *)

Definition ValidateStateV1 (state : StateV1) : result unit :=
  _ ← reject_if (negb (bool_decide (state_Schema state = StateSchemaV1))) "state schema must be state-v1";
  _ ← reject_if (TerminalRemoval state && bool_decide (state_Staging state = None) && bool_decide (state_Deployment state = None))
        "terminal removal requires retained staging or deployment authority";
  document ← wrap (DecodeResolvedDocumentV1 (Blueprint state)) "state blueprint";
  _ ← wrap (ValidateSelectedPlatform (document_platforms document) (state_Platform state)) "state platform";
  _ ← wrap (check_overlay (Overlay state)) "state overlay";
  _ ← (match state_Staging state with
       | None => Ok tt
       | Some staging =>
         _ ← reject_if (bool_decide (BlueprintSource state = "")) "state staging requires retained blueprint source";
         _ ← wrap (ValidateStagingStateV1 staging) "state staging";
         reject_if (bool_decide (is_Some (state_Deployment state))) "state cannot contain both staging and installed deployment facts"
       end);
  _ ← wrap (check_generation (Current state)) "state current generation";
  _ ← (match state_Deployment state with
       | None => Ok tt
       | Some deployment => wrap (ValidateDeploymentStateV1 deployment) "state deployment"
       end);
  validateIdentityMappingStateV1 state.
End validate.
