(* ===== verification/MappingStore.v ===== *)
(** * The state file of a deployment

    [internal/deploy/state_v1_file.go], [identity_mapping_state_file.go] and
    [deployment_state_v1.go]: reading and replacing the state under the operation
    lock, the installation facts in it, and the first commit of a mapping.

    The codec of the file is the identity, since both of its sides validate and the
    reader accepts only the canonical text; writing can fail, also after the file was
    replaced.  Links are resolved, identities drawn and texts encoded by arguments. *)

From Stdlib Require Import Ascii.
From S2P Require Import Prelude GoText Identifiers Yaml LiveRunStore Geometry Canonical Platform IdentityPolicy ImageIdentity ExecutionPlan MappingState.

Open Scope Z_scope.

Section store.
Context `{MappingPorts}.

(** [None] is a file that does not exist. *)
Record World := MkWorld {
  w_locks : Store;
  w_file : option StateV1
}.
Definition set_file (state : StateV1) (w : World) : World := MkWorld (w_locks w) (Some state).

(** How the replacement of a file ends: an error may come after the replacement. *)
Inductive WriteOutcome := Written | WriteFailed | WriteUncertain.

(** What one operation meets outside. *)
Record Effects := MkEffects {
  eval_symlinks : string → result string;
  fresh_id : result string;
  marshals : StateV1 → bool;
  json_copy : IdentityMappingStateV1 → IdentityMappingStateV1;
  write_outcome : WriteOutcome
}.

Definition lock_held (w : World) : result unit := snd (requireHeldLocked (w_locks w)).
Definition lock_writable (w : World) : result unit := snd (requireWritableLocked (w_locks w)).
Definition lock_directory (w : World) : string := st_directory (w_locks w).

Definition validateMappingOwnerPathV1 (e : Effects) (w : World) (state : StateV1) : result unit :=
  match IdentityMapping state with
  | None => Ok tt
  | Some m =>
    owner ← eval_symlinks e (lock_directory w);
    reject_if (negb (bool_decide (owner = OwnerDir m))) "identity mapping belongs to another directory; copied authority cannot be adopted"
  end.

Definition EncodeStateV1 (e : Effects) (state : StateV1) : result unit :=
  _ ← wrap (ValidateStateV1 state) "encode state"; reject_if (negb (marshals e state)) "encode state".

Definition readStateV1Path (e : Effects) (w : World) : result (option StateV1) :=
  match w_file w with
  | None => Ok None
  | Some state =>
    _ ← wrap (ValidateStateV1 state) "validate state";
    _ ← validateMappingOwnerPathV1 e w state;
    Ok (Some state)
  end.
Definition ReadStateV1 (e : Effects) (w : World) : result (option StateV1) := _ ← lock_held w; readStateV1Path e w.

(** The last step of a commit: [checked] is the state to write, if any, and the answer. *)
Definition write_state (e : Effects) (state : StateV1) (w : World) : World * result unit :=
  match write_outcome e with
  | Written => (set_file state w, Ok tt)
  | WriteFailed => (w, Err "write state")
  | WriteUncertain => (set_file state w, Err "write state")
  end.
Definition commit {A} (e : Effects) (w : World) (checked : result (option StateV1 * A)) : World * result A :=
  match checked with
  | Err message => (w, Err message)
  | Ok (None, answer) => (w, Ok answer)
  | Ok (Some state, answer) => let (w', written) := write_state e state w in (w', _ ← wrap written "commit state"; Ok answer)
  end.

(** The writable lock, the state, and whether it is the selected one. *)
Definition read_writable (e : Effects) (w : World) : result (option StateV1) := _ ← lock_writable w; readStateV1Path e w.
Definition mapping_of (state : option StateV1) : option IdentityMappingStateV1 := state ≫= IdentityMapping.
Definition generation_of (state : option StateV1) : option EnvironmentGenerationState := state ≫= Current.
Definition pending_of (m : option IdentityMappingStateV1) : option IdentityMappingOperationV1 := m ≫= PendingOperation.

Definition commit_state_checks (e : Effects) (w : World) (expected : option EnvironmentGenerationState) (state : StateV1)
    : result (option StateV1 * unit) :=
  current ← read_writable e w;
  _ ← reject_if (negb (bool_decide (generation_of current = expected))) "state current generation changed before commit";
  _ ← reject_if (negb (bool_decide (mapping_of current = IdentityMapping state)))
        "identity authority changed or was omitted before state commit";
  _ ← reject_if (bool_decide (is_Some (pending_of (mapping_of current))) && negb (bool_decide (generation_of current = Current state)))
        "pending identity mapping operation must finish before changing the current generation";
  _ ← validateMappingOwnerPathV1 e w state;
  _ ← EncodeStateV1 e state;
  Ok (Some state, tt).
Definition CommitStateV1 (e : Effects) (w : World) (expected : option EnvironmentGenerationState) (state : StateV1)
    : World * result unit := commit e w (commit_state_checks e w expected state).

(** ** Copies of a state *)

Definition set_mapping (m : option IdentityMappingStateV1) (s : StateV1) : StateV1 :=
  State (state_Schema s) (Blueprint s) (BlueprintSource s) (state_Platform s) (Overlay s) (Current s) (state_Staging s)
    (state_Deployment s) (TerminalRemoval s) m.
Definition set_deployment (d : option DeploymentStateV1) (s : StateV1) : StateV1 :=
  State (state_Schema s) (Blueprint s) (BlueprintSource s) (state_Platform s) (Overlay s) (Current s) (state_Staging s)
    d (TerminalRemoval s) (IdentityMapping s).
Definition set_staging (d : option StagingStateV1) (s : StateV1) : StateV1 :=
  State (state_Schema s) (Blueprint s) (BlueprintSource s) (state_Platform s) (Overlay s) (Current s) d
    (state_Deployment s) (TerminalRemoval s) (IdentityMapping s).
Definition set_current (g : option EnvironmentGenerationState) (s : StateV1) : StateV1 :=
  State (state_Schema s) (Blueprint s) (BlueprintSource s) (state_Platform s) (Overlay s) g (state_Staging s)
    (state_Deployment s) (TerminalRemoval s) (IdentityMapping s).
(** The owner, the revision, the installed service and the pending operation of a mapping. *)
Definition set_owner (id owner : string) (m : IdentityMappingStateV1) : IdentityMappingStateV1 :=
  MappingState (m_Schema m) id owner (InstallationBinding m) (Revision m) (OperatorUID m) (OperatorGID m) (m_Profile m)
    (UIDAssignments m) (GIDAssignments m) (m_DormantUIDs m) (m_DormantGIDs m) (Supervisor m) (Engine m) (AdmittedGeneration m)
    (RetainedStorage m) (Revoked m) (PendingOperation m) (ProcessModel m) (AcceptedUIDs m) (AcceptedGIDs m) (NativeProcess m).
Definition set_revision (revision : string) (m : IdentityMappingStateV1) : IdentityMappingStateV1 :=
  MappingState (m_Schema m) (InstallationID m) (OwnerDir m) (InstallationBinding m) revision (OperatorUID m) (OperatorGID m) (m_Profile m)
    (UIDAssignments m) (GIDAssignments m) (m_DormantUIDs m) (m_DormantGIDs m) (Supervisor m) (Engine m) (AdmittedGeneration m)
    (RetainedStorage m) (Revoked m) (PendingOperation m) (ProcessModel m) (AcceptedUIDs m) (AcceptedGIDs m) (NativeProcess m).
Definition set_installed (binding : option string) (m : IdentityMappingStateV1) : IdentityMappingStateV1 :=
  MappingState (m_Schema m) (InstallationID m) (OwnerDir m) binding (Revision m) (OperatorUID m) (OperatorGID m) (m_Profile m)
    (UIDAssignments m) (GIDAssignments m) (m_DormantUIDs m) (m_DormantGIDs m) (Supervisor m) (Engine m) (AdmittedGeneration m)
    (RetainedStorage m) (Revoked m) (PendingOperation m) (ProcessModel m) (AcceptedUIDs m) (AcceptedGIDs m) (NativeProcess m).
Definition installed_status (status : string) (i : InstallationStateV1) : InstallationStateV1 :=
  Installation (inst_Schema i) status (TargetDir i) (inst_Scope i) (Service i) (UnitPath i) (InstanceID i) (ComposeProject i)
    (ContainerName i) (NetworkName i) (Ports i).

(** ** The first commit of a mapping *)

(** A mapping without any authority. *)
Definition unowned (m : IdentityMappingStateV1) : bool :=
  bool_decide (InstallationID m = "") && bool_decide (OwnerDir m = "") && bool_decide (Revision m = "")
  && bool_decide (InstallationBinding m = None)
  && is_empty (UIDAssignments m) && is_empty (GIDAssignments m) && is_empty (m_DormantUIDs m) && is_empty (m_DormantGIDs m)
  && is_empty (RetainedStorage m) && bool_decide (AdmittedGeneration m = None) && bool_decide (Supervisor m = None)
  && bool_decide (Engine m = None) && negb (Revoked m) && bool_decide (PendingOperation m = None)
  && bool_decide (m_Schema m = IdentityMappingStateSchemaV1) && bool_decide (ProcessModel m = "")
  && bool_decide (AcceptedUIDs m = None) && bool_decide (AcceptedGIDs m = None) && bool_decide (NativeProcess m = None).

Definition first_mapping (e : Effects) (w : World) (state : StateV1) (expectedID : string) (expectedRevision : Z)
    (next : IdentityMappingStateV1) : result IdentityMappingStateV1 :=
  _ ← reject_if (negb (bool_decide (expectedID = "")) || negb (expectedRevision =? 0)
                 || bool_decide (is_Some (state_Deployment state)) || bool_decide (state_Staging state = None))
        "first mapping configuration requires an unconfigured staged owner; installed opt-in requires its reviewed adapter";
  _ ← reject_if (negb (unowned next)) "first mapping configuration cannot supply retained authority";
  id ← fresh_id e;
  owner ← eval_symlinks e (lock_directory w);
  Ok (set_revision "1" (set_owner id owner next)).
Definition next_mapping (old : IdentityMappingStateV1) (expectedID : string) (expectedRevision : Z) (next : IdentityMappingStateV1)
    : result IdentityMappingStateV1 :=
  _ ← reject_if (bool_decide (is_Some (PendingOperation old))) "pending identity mapping requires its checked operation";
  _ ← reject_if (negb (bool_decide (InstallationID old = expectedID)) || negb (mappingDecimalV1 (Revision old) =? expectedRevision)
                 || (expectedRevision =? MaxUint64)) "identity owner or revision changed before commit";
  _ ← reject_if (negb (bool_decide (old = next))) "identity authority transition requires its checked operation";
  Ok (set_revision (format_uint (to_uint64 (expectedRevision + 1))) next).
Definition commit_mapping_checks (e : Effects) (w : World) (expectedGeneration : option EnvironmentGenerationState)
    (expectedID : string) (expectedRevision : Z) (next : IdentityMappingStateV1) : result (option StateV1 * StateV1) :=
  current ← read_writable e w;
  match current with
  | None => Err "identity generation changed or state is missing"
  | Some state =>
    _ ← reject_if (negb (bool_decide (Current state = expectedGeneration))) "identity generation changed or state is missing";
    let next := json_copy e next in
    m ← (match IdentityMapping state with
         | None => first_mapping e w state expectedID expectedRevision next
         | Some old => next_mapping old expectedID expectedRevision next
         end);
    let state := set_mapping (Some m) state in
    _ ← EncodeStateV1 e state;
    _ ← validateMappingOwnerPathV1 e w state;
    Ok (Some state, state)
  end.
Definition CommitIdentityMappingV1 (e : Effects) (w : World) (expectedGeneration : option EnvironmentGenerationState)
    (expectedID : string) (expectedRevision : Z) (next : IdentityMappingStateV1) : World * result StateV1 :=
  commit e w (commit_mapping_checks e w expectedGeneration expectedID expectedRevision next).

(** ** Installations *)

(** The optional last argument of an installation step: the mapping that was observed. *)
Definition compareIdentityObservationV1 (actual : option IdentityMappingStateV1) (expected : list (option IdentityMappingStateV1))
    : result unit :=
  let changed := "identity revision changed or was omitted before installation state commit" in
  match expected with
  | [] => reject_if (bool_decide (is_Some actual)) changed
  | [observed] => reject_if (negb (bool_decide (actual = observed))) changed
  | _ => Err changed
  end.
Definition write_installed (e : Effects) (w : World) (state : StateV1) : result (option StateV1 * (StateV1 * bool)) :=
  _ ← validateMappingOwnerPathV1 e w state; _ ← EncodeStateV1 e state; Ok (Some state, (state, true)).

Definition RetainedStagingAfterUninstallV1 (state : StateV1) (expected : InstallationStateV1) : result StateV1 :=
  _ ← reject_if (match state_Deployment state with
                 | None => true
                 | Some d => negb (bool_decide (dep_Installation d = expected))
                 end) "installed facts changed before retained staging";
  let state := set_deployment None state in
  state ← (match IdentityMapping state with
           | None => Ok state
           | Some m =>
             _ ← reject_if (bool_decide (is_Some (PendingOperation m)) || (mappingDecimalV1 (Revision m) =? MaxUint64))
                   "identity operation must be reconciled before uninstall";
             Ok (set_staging (Some (Staging StagingStateSchemaV1))
                   (set_mapping (Some (set_revision (next_revision (Revision m)) (set_installed None m))) state))
           end);
  _ ← ValidateStateV1 state;
  Ok state.

Definition mark_ready_checks (e : Effects) (w : World) (ready : InstallationStateV1) (expectedMapping : list (option IdentityMappingStateV1))
    : result (option StateV1 * (StateV1 * bool)) :=
  _ ← ValidateInstallationStateV1 ready;
  _ ← reject_if (negb (bool_decide (inst_Status ready = InstallationStatusReady))) "mark installation ready requires status ready";
  current ← read_writable e w;
  match current with
  | None => Err "mark installation ready requires a committed installation"
  | Some state =>
    match state_Deployment state with
    | None => Err "mark installation ready requires a committed installation"
    | Some deployment =>
      _ ← reject_if (bool_decide (Current state = None)) "mark installation ready requires a committed installation";
      _ ← compareIdentityObservationV1 (IdentityMapping state) expectedMapping;
      _ ← reject_if (negb (bool_decide (TargetDir ready = lock_directory w))) "installation target directory does not match locked deployment";
      if bool_decide (dep_Installation deployment = ready) then Ok (None, (state, false))
      else
        _ ← reject_if (negb (bool_decide (dep_Installation deployment = installed_status InstallationStatusConfiguring ready)))
              "committed configuring installation does not match the ready installation";
        write_installed e w (set_deployment (Some (Deployment DeploymentStateSchemaV1 ready)) state)
    end
  end.
Definition MarkInstallationReadyV1 (e : Effects) (w : World) (ready : InstallationStateV1)
    (expectedMapping : list (option IdentityMappingStateV1)) : World * result (StateV1 * bool) :=
  commit e w (mark_ready_checks e w ready expectedMapping).

Definition set_installation_checks (e : Effects) (w : World) (installation : InstallationStateV1)
    (expectedMapping : list (option IdentityMappingStateV1)) : result (option StateV1 * (StateV1 * bool)) :=
  _ ← ValidateInstallationStateV1 installation;
  current ← read_writable e w;
  match current with
  | None => Err "set installation state requires deployment state"
  | Some state =>
    _ ← reject_if (bool_decide (Current state = None)) "set installation state requires a current build";
    _ ← compareIdentityObservationV1 (IdentityMapping state) expectedMapping;
    _ ← reject_if (negb (bool_decide (TargetDir installation = lock_directory w))) "installation target directory does not match locked deployment";
    let deployment := Some (Deployment DeploymentStateSchemaV1 installation) in
    if bool_decide (state_Deployment state = deployment) then Ok (None, (state, false))
    else write_installed e w (set_deployment deployment state)
  end.
Definition SetInstallationStateV1 (e : Effects) (w : World) (installation : InstallationStateV1)
    (expectedMapping : list (option IdentityMappingStateV1)) : World * result (StateV1 * bool) :=
  commit e w (set_installation_checks e w installation expectedMapping).

Definition clear_installation_checks (e : Effects) (w : World) (expected : InstallationStateV1)
    (expectedMapping : list (option IdentityMappingStateV1)) : result (option StateV1 * (StateV1 * bool)) :=
  _ ← ValidateInstallationStateV1 expected;
  current ← read_writable e w;
  match current with
  | None => Err "clear installation state requires a committed installation"
  | Some state =>
    match state_Deployment state with
    | None => Err "clear installation state requires a committed installation"
    | Some deployment =>
      _ ← reject_if (bool_decide (Current state = None)) "clear installation state requires a committed installation";
      _ ← reject_if (negb (bool_decide (dep_Installation deployment = expected)))
            "installed facts changed before clearing installation state";
      _ ← compareIdentityObservationV1 (IdentityMapping state) expectedMapping;
      state ← RetainedStagingAfterUninstallV1 state expected;
      write_installed e w state
    end
  end.
Definition ClearInstallationStateV1 (e : Effects) (w : World) (expected : InstallationStateV1)
    (expectedMapping : list (option IdentityMappingStateV1)) : World * result (StateV1 * bool) :=
  commit e w (clear_installation_checks e w expected expectedMapping).

Definition validateInstalledDestinationGeneration (source destination : EnvironmentGenerationState) : result unit :=
  _ ← wrap (ValidateEnvironmentGenerationState destination) "installed destination generation";
  _ ← reject_if (bool_decide (Reference destination = Reference source))
        "installed destination generation requires a new destination-local reference";
  reject_if (negb (bool_decide (gen_Platform destination = gen_Platform source))
             || negb (bool_decide (gen_RuntimePolicyDigest destination = gen_RuntimePolicyDigest source)))
    "installed destination generation must preserve the source platform and runtime policy".

Definition commit_installed_checks (e : Effects) (w : World) (expected : option EnvironmentGenerationState) (sourceState : StateV1)
    (destinationGeneration : EnvironmentGenerationState) (installation : InstallationStateV1)
    : result (option StateV1 * (StateV1 * bool)) :=
  _ ← wrap (ValidateStateV1 sourceState) "commit installed source state";
  match Current sourceState with
  | None => Err "commit installed state requires a current source build"
  | Some source =>
    _ ← reject_if (bool_decide (is_Some (IdentityMapping sourceState))) "mapped install requires its reviewed destination adapter";
    _ ← reject_if (bool_decide (is_Some (state_Deployment sourceState)))
          "commit installed state requires staged source state without deployment-local facts";
    _ ← validateInstalledDestinationGeneration source destinationGeneration;
    _ ← ValidateInstallationStateV1 installation;
    _ ← lock_writable w;
    _ ← reject_if (negb (bool_decide (TargetDir installation = lock_directory w))) "installation target directory does not match locked deployment";
    current ← readStateV1Path e w;
    _ ← reject_if (bool_decide (is_Some (mapping_of current))) "mapped destination requires its reviewed installation adapter";
    _ ← reject_if (negb (bool_decide (generation_of current = expected)))
          "destination current generation changed before installed state commit";
    let candidate := set_deployment (Some (Deployment DeploymentStateSchemaV1 installation))
                       (set_staging None (set_current (Some destinationGeneration) sourceState)) in
    if bool_decide (current = Some candidate) then Ok (None, (candidate, false)) else write_installed e w candidate
  end.
Definition CommitInstalledStateV1 (e : Effects) (w : World) (expected : option EnvironmentGenerationState) (sourceState : StateV1)
    (destinationGeneration : EnvironmentGenerationState) (installation : InstallationStateV1) : World * result (StateV1 * bool) :=
  commit e w (commit_installed_checks e w expected sourceState destinationGeneration installation).
End store.
