(* ===== verification/MappingOperations.v ===== *)
(** * The operations on an identity mapping

    [internal/deploy/identity_mapping_operations.go], [identity_mapping_native.go],
    [identity_mapping_effects.go], [identity_mapping_geometry.go] and
    [identity_mapping_host.go]: how the durable authority of a deployment over its
    identity mapping is configured, given effects, admitted and recovered.

    The trusted owner of effects, the host check, the build locks and the context are
    arguments.  A copy of a state ([cloneMappingStateV1]) is the state: it was decoded
    from its text, or holds names that the policy declares. *)

From Stdlib Require Import Ascii.
From S2P Require Import Prelude GoText Identifiers Yaml LiveRunStore Geometry HostCheck Canonical Platform IdentityPolicy ImageIdentity ExecutionPlan MappingState MappingStore.

Open Scope Z_scope.

Section operations.
Context `{MappingPorts}.

(** [IdentityMappingEvidenceV1]. *)
Record Evidence := MkEvidence {
  PlanInventory : StateV1 → Geometry → result (list string);
  Unused : StateV1 → result unit;
  Verify : StateV1 → result unit
}.
(** What admission reads of a build lock; [build_PolicyDigest] is the digest of its
    runtime policy. *)
Record BuildLock := MkBuildLock {
  build_BlueprintDigest : string;
  build_FinalImage : RealizedImageV1;
  build_Platform : Platform;
  build_PolicyDigest : string;
  build_IdentityPolicy : option IdentityPolicyLockV1
}.
(** What an operation meets outside: the effects of the file, the context and the lock
    when they are looked at again, and its collaborators. *)
Record Outside := MkOutside {
  effects : Effects;
  ctx_check : result unit;
  ctx_write : result unit;
  later_held : result unit;
  later_writable : result unit;
  host_check : string → list Interval → list Interval → result HostIdentity;
  evidence : option Evidence;
  profile_owner : bool;
  pending_build : result bool;
  read_build_lock : string → result (option BuildLock)
}.
Definition nil_dereference : string := "nil pointer dereference".

(** ** Copies of a mapping *)

Definition set_pending (p : option IdentityMappingOperationV1) (m : IdentityMappingStateV1) : IdentityMappingStateV1 :=
  MappingState (m_Schema m) (InstallationID m) (OwnerDir m) (InstallationBinding m) (Revision m) (OperatorUID m) (OperatorGID m) (m_Profile m)
    (UIDAssignments m) (GIDAssignments m) (m_DormantUIDs m) (m_DormantGIDs m) (Supervisor m) (Engine m) (AdmittedGeneration m)
    (RetainedStorage m) (Revoked m) p (ProcessModel m) (AcceptedUIDs m) (AcceptedGIDs m) (NativeProcess m).
Definition set_reserved (reserved : Geometry) (m : IdentityMappingStateV1) : IdentityMappingStateV1 :=
  MappingState (m_Schema m) (InstallationID m) (OwnerDir m) (InstallationBinding m) (Revision m) (OperatorUID m) (OperatorGID m) (m_Profile m)
    (wire_intervals (UIDs reserved)) (wire_intervals (GIDs reserved)) (m_DormantUIDs m) (m_DormantGIDs m) (Supervisor m) (Engine m)
    (AdmittedGeneration m) (RetainedStorage m) (Revoked m) (PendingOperation m) (ProcessModel m) (AcceptedUIDs m) (AcceptedGIDs m)
    (NativeProcess m).
Definition set_storage (storage : Slice string) (m : IdentityMappingStateV1) : IdentityMappingStateV1 :=
  MappingState (m_Schema m) (InstallationID m) (OwnerDir m) (InstallationBinding m) (Revision m) (OperatorUID m) (OperatorGID m) (m_Profile m)
    (UIDAssignments m) (GIDAssignments m) (m_DormantUIDs m) (m_DormantGIDs m) (Supervisor m) (Engine m) (AdmittedGeneration m)
    storage (Revoked m) (PendingOperation m) (ProcessModel m) (AcceptedUIDs m) (AcceptedGIDs m) (NativeProcess m).
Definition set_native_schema (m : IdentityMappingStateV1) : IdentityMappingStateV1 :=
  MappingState IdentityMappingStateSchemaV2 (InstallationID m) (OwnerDir m) (InstallationBinding m) (Revision m) (OperatorUID m)
    (OperatorGID m) (m_Profile m) (UIDAssignments m) (GIDAssignments m) (m_DormantUIDs m) (m_DormantGIDs m) (Supervisor m) (Engine m)
    (AdmittedGeneration m) (RetainedStorage m) (Revoked m) (PendingOperation m) IdentityMappingNativeProcessModelV1 (Some (Some []))
    (Some (Some [])) (NativeProcess m).
Definition set_admission (accepted : Geometry) (dormant_uids dormant_gids : list Interval)
    (generation : option EnvironmentGenerationState) (native : NativeIdentityOperationV1) (m : IdentityMappingStateV1)
    : IdentityMappingStateV1 :=
  MappingState (m_Schema m) (InstallationID m) (OwnerDir m) (InstallationBinding m) (Revision m) (OperatorUID m) (OperatorGID m) (m_Profile m)
    (UIDAssignments m) (GIDAssignments m) (wire_intervals dormant_uids) (wire_intervals dormant_gids) (Supervisor m)
    (Some (native_Engine native)) generation (RetainedStorage m) (Revoked m) (PendingOperation m) (ProcessModel m)
    (Some (wire_intervals (UIDs accepted))) (Some (wire_intervals (GIDs accepted))) (Some (native_Process native)).
Definition set_phase (phase expected : string) (p : IdentityMappingOperationV1) : IdentityMappingOperationV1 :=
  MappingOperation (OperationID p) (op_Kind p) expected (ExpectedGeneration p) (op_Candidate p) (PriorAccepted p) (OwnedObjects p)
    phase (Inhibited p) (op_Native p).
Definition set_active (active : IdentityMappingGeometryV1) (native : NativeIdentityOperationV1) : NativeIdentityOperationV1 :=
  Native active (native_Engine native) (native_Process native) (native_RuntimeUsers native) (native_RuntimeGroups native).

(** ** Geometries and the host *)

Definition RetainIdentityMappingGeometryV1 (state : StateV1) (candidate : Geometry) : result Geometry :=
  _ ← validateIdentityMappingStateV1 state;
  match IdentityMapping state with
  | None => RetainGeometry port_sort candidate None
  | Some m =>
    _ ← reject_if (Revoked m || negb (bool_decide (m_Profile m = Profile candidate))) "mapping is revoked or its retained profile differs";
    RetainGeometry port_sort candidate (protected_geometry m)
  end.

Definition unselected (state : StateV1) : bool :=
  TerminalRemoval state || (bool_decide (state_Staging state = None) && bool_decide (state_Deployment state = None)).
Definition checkIdentityMappingHostV1 (o : Outside) (w : World) (uids gids : list Interval) : result HostIdentity :=
  current ← ReadStateV1 (effects o) w;
  match current with
  | None => Err "identity mapping requires an existing nonterminal staged or installed deployment"
  | Some state =>
    _ ← reject_if (unselected state) "identity mapping requires an existing nonterminal staged or installed deployment";
    let installed (test : InstallationStateV1 → bool) :=
      match state_Deployment state with Some d => test (dep_Installation d) | None => false end in
    _ ← reject_if (installed (λ i, negb (bool_decide (inst_Scope i = "user")))) "identity mapping does not support system-scope installation";
    _ ← lock_held w;
    _ ← reject_if (installed (λ i, negb (bool_decide (TargetDir i = lock_directory w))))
          "installation target differs from selected mapping owner";
    identity ← host_check o (lock_directory w) uids gids;
    _ ← later_held o;
    Ok identity
  end.

Definition check_pending_host (o : Outside) (w : World) (state : StateV1) (identity : HostIdentity) : result unit :=
  match pending_of (IdentityMapping state) with
  | None => Ok tt
  | Some p =>
    old ← RetainIdentityMappingGeometryV1 state (numeric (op_Candidate p));
    other ← wrap (checkIdentityMappingHostV1 o w (UIDs old) (GIDs old)) "pending reservations no longer pass the same host check";
    reject_if (negb (bool_decide (other = identity))) "pending reservations no longer pass the same host check"
  end.
Definition check_mapping_candidate (o : Outside) (w : World) (state : StateV1) (candidate : Geometry) : result (Geometry * HostIdentity) :=
  _ ← ctx_check o;
  _ ← reject_if (bool_decide (is_Some (state_Deployment state)) && bool_decide (IdentityMapping state = None))
        "first installed mapping opt-in requires its reviewed destination adapter";
  reserved ← RetainIdentityMappingGeometryV1 state candidate;
  identity ← checkIdentityMappingHostV1 o w (UIDs reserved) (GIDs reserved);
  _ ← check_pending_host o w state identity;
  _ ← reject_if (match IdentityMapping state with
                 | Some m => negb (bool_decide (OperatorUID m = format_uint (HostCheck.UID identity)))
                             || negb (bool_decide (OperatorGID m = format_uint (HostCheck.GID identity)))
                 | None => false
                 end) "mapping operator differs from retained authority";
  Ok (reserved, identity).

(** ** Status *)

Record IdentityMappingStatusV1 := MappingStatus {
  status_State : StateV1;
  status_Status : string;
  status_Reservations : option Geometry
}.
Definition Status (o : Outside) (w : World) : result IdentityMappingStatusV1 :=
  current ← wrap (ReadStateV1 (effects o) w) "mapping status requires an existing selected owner";
  match current with
  | None => Err "mapping status requires an existing selected owner"
  | Some state =>
    _ ← reject_if (unselected state) "mapping status requires an existing selected owner";
    match IdentityMapping state with
    | None =>
      document ← DecodeResolvedDocumentV1 (Blueprint state);
      Ok (MappingStatus state (if document_mapping document then "inhibited" else "ordinary") None)
    | Some m =>
      let status := if bool_decide (is_Some (AdmittedGeneration m)) then "admitted" else "retained" in
      '(status, reservations) ← match PendingOperation m with
        | None => Ok (status, protected_geometry m)
        | Some p =>
          reserved ← RetainGeometry port_sort (numeric (op_Candidate p)) (protected_geometry m);
          Ok (if bool_decide (op_Phase p = "intent") then "candidate" else "inhibited", Some reserved)
        end;
      Ok (MappingStatus state (if Revoked m then "revoked" else status) reservations)
    end
  end.
Definition Check (o : Outside) (w : World) (candidate : Geometry) : result StateV1 :=
  status ← Status o w;
  _ ← check_mapping_candidate o w (status_State status) candidate;
  Ok (status_State status).

(** ** Changes *)

Definition exhausted (m : option IdentityMappingStateV1) : bool :=
  match m with Some m => Revoked m || (mappingDecimalV1 (Revision m) =? MaxUint64) | None => false end.
Definition change_checks (o : Outside) (w : World) (expected : StateV1) (update : StateV1 → result StateV1)
    : result (option StateV1 * StateV1) :=
  _ ← lock_writable w;
  current ← wrap (readStateV1Path (effects o) w) "mapping owner, input, generation or revision changed";
  match current with
  | None => Err "mapping owner, input, generation or revision changed"
  | Some state =>
    _ ← reject_if (negb (bool_decide (state = expected))) "mapping owner, input, generation or revision changed";
    _ ← reject_if (unselected state) "mapping change requires a nonterminal staged or installed owner";
    _ ← reject_if (exhausted (IdentityMapping state)) "mapping is revoked or its revision is exhausted";
    next ← update state;
    if bool_decide (state = next) then Ok (None, next)
    else
      match IdentityMapping next with
      | None => Err nil_dereference
      | Some m =>
        let next := set_mapping (Some (set_revision (next_revision (Revision m)) m)) next in
        _ ← EncodeStateV1 (effects o) next;
        _ ← ctx_write o;
        _ ← later_writable o;
        _ ← validateMappingOwnerPathV1 (effects o) w next;
        Ok (Some next, next)
      end
  end.
Definition change (o : Outside) (w : World) (expected : StateV1) (update : StateV1 → result StateV1) : World * result StateV1 :=
  commit (effects o) w (change_checks o w expected update).

Definition with_mapping (state : StateV1) (f : IdentityMappingStateV1 → result IdentityMappingStateV1) : result StateV1 :=
  match IdentityMapping state with
  | None => Err nil_dereference
  | Some m => m ← f m; Ok (set_mapping (Some m) state)
  end.
Definition with_pending (state : StateV1) (f : IdentityMappingStateV1 → IdentityMappingOperationV1 → result IdentityMappingStateV1)
    : result StateV1 :=
  with_mapping state (λ m, match PendingOperation m with None => Err nil_dereference | Some p => f m p end).
Definition with_evidence {A} (o : Outside) (message : string) (f : Evidence → result A) : result A :=
  match evidence o with None => Err message | Some evidence => f evidence end.

(** ** Configuration *)

Definition new_mapping (o : Outside) (w : World) (state : StateV1) (operator : HostIdentity) (profile : string)
    : result IdentityMappingStateV1 :=
  _ ← reject_if (bool_decide (state_Staging state = None)) "first installed mapping opt-in requires its reviewed destination adapter";
  id ← fresh_id (effects o);
  owner ← eval_symlinks (effects o) (lock_directory w);
  Ok (MappingState IdentityMappingStateSchemaV1 id owner None "0" (format_uint (HostCheck.UID operator))
        (format_uint (HostCheck.GID operator)) profile None None None None None None None None false None "" None None None).

Definition exact_retry (p : IdentityMappingOperationV1) (operationID : string) (canonical : Geometry) (handles : list string) : bool :=
  bool_decide (OperationID p = operationID) && bool_decide (op_Phase p = "intent")
  && bool_decide (numeric (op_Candidate p) = canonical) && bool_decide (OwnedObjects p = slice_of handles).
Definition stale_intent (state : StateV1) (m : IdentityMappingStateV1) (p : IdentityMappingOperationV1) : bool :=
  negb (bool_decide (ExpectedGeneration p = Current state)) || negb (bool_decide (PriorAccepted p = AdmittedGeneration m))
  || (bool_decide (op_Phase p = "intent") && negb (bool_decide (ExpectedRevision p = Revision m))).
Definition configure_intent (state : StateV1) (m : IdentityMappingStateV1) (operationID : string) (canonical : Geometry)
    (handles : list string) : IdentityMappingOperationV1 :=
  MappingOperation operationID "configure" (next_revision (Revision m)) (Current state) (mappingGeometryStateV1 canonical)
    (AdmittedGeneration m) (slice_of handles) "intent" true None.

Definition configure_update (o : Outside) (w : World) (operator : HostIdentity) (canonical : Geometry) (operationID : string)
    (state : StateV1) : result StateV1 :=
  _ ← reject_if (match pending_of (IdentityMapping state) with
                 | Some p => negb (bool_decide (op_Kind p = "configure"))
                 | None => false
                 end) "pending operation has unsupported kind";
  with_evidence o "mapping configuration requires complete inactive inventory" (λ evidence,
    let observed := match ValidateGeometry port_sort canonical with Ok g => g | Err _ => MkGeometry "" [] [] end in
    handles ← wrap (PlanInventory evidence state observed) "mapping inventory is unknown or invalid";
    _ ← wrap (validateMappingHandlesV1 handles) "mapping inventory is unknown or invalid";
    m ← (match IdentityMapping state with None => new_mapping o w state operator (Profile canonical) | Some m => Ok m end);
    let configured := Ok (set_mapping (Some (set_pending (Some (configure_intent state m operationID canonical handles)) m)) state) in
    match PendingOperation m with
    | None => configured
    | Some p =>
      _ ← reject_if (stale_intent state m p) "pending intent observation is stale";
      if exact_retry p operationID canonical handles then Ok state
      else
        _ ← reject_if (bool_decide (OperationID p = operationID) || negb (bool_decide (op_Phase p = "intent")))
              "pending operation requires exact recovery";
        _ ← wrap (Unused evidence state) "candidate replacement lacks never-used proof";
        configured
    end).
Definition Configure (o : Outside) (w : World) (expected : StateV1) (candidate : Geometry) (operationID : string)
    : World * result StateV1 :=
  match (_ ← reject_if (negb (safeRecoveryIdentity operationID)) "mapping configuration requires a safe operation ID";
         canonical ← ValidateGeometry port_sort candidate;
         '(_, operator) ← check_mapping_candidate o w expected canonical;
         Ok (canonical, operator)) with
  | Err message => (w, Err message)
  | Ok (canonical, operator) => change o w expected (configure_update o w operator canonical operationID)
  end.

(** ** Plans of native executions *)

Definition same_build (state : StateV1) (generation : EnvironmentGenerationState) (digest : string) (lock : BuildLock) : bool :=
  bool_decide (digest = build_BlueprintDigest lock) && bool_decide (gen_ImageDigest generation = image_Digest (build_FinalImage lock))
  && bool_decide (gen_RootFSSubject generation = image_RootFSSubject (build_FinalImage lock))
  && bool_decide (gen_Platform generation = build_Platform lock) && bool_decide (state_Platform state = build_Platform lock)
  && bool_decide (gen_RuntimePolicyDigest generation = build_PolicyDigest lock).
Definition ResolvedDocumentSchemaV1 : string := "blueprint-resolved-v1".
Definition ResolvedDocumentDigestV1 (payload : string) : result string :=
  _ ← DecodeResolvedDocumentV1 payload; Sum port_sha256 "blueprint-resolved" ResolvedDocumentSchemaV1 (Str payload).

Definition native_plan (o : Outside) (w : World) (state : StateV1) (candidate : Geometry) (native : NativeIdentityOperationV1)
    : result IdentityExecutionPlanV1 :=
  _ ← lock_held w;
  match IdentityMapping state, Current state with
  | Some m, Some generation =>
    _ ← reject_if (negb (bool_decide (m_Schema m = IdentityMappingStateSchemaV2)) || negb (profile_owner o))
          "requires native state, selected generation and trusted profile validator";
    _ ← ValidateStateV1 state;
    pending ← wrap (pending_build o) "selected build publication is unresolved";
    _ ← reject_if pending "selected build publication is unresolved";
    lock ← wrap (read_build_lock o (gen_BuildLockDigest generation)) "selected immutable build lock is unavailable";
    match lock with
    | None => Err "selected immutable build lock is unavailable"
    | Some lock =>
      digest ← wrap (ResolvedDocumentDigestV1 (Blueprint state)) "selected blueprint or generation differs from immutable build evidence";
      _ ← reject_if (negb (same_build state generation digest lock)) "selected blueprint or generation differs from immutable build evidence";
      document ← wrap (DecodeResolvedDocumentV1 (Blueprint state)) "selected identity policy differs from immutable image evidence";
      match build_IdentityPolicy lock with
      | None => Err "selected identity policy differs from immutable image evidence"
      | Some policy =>
        _ ← reject_if (negb (bool_decide (document_policy document = Some (lock_Policy policy))))
              "selected identity policy differs from immutable image evidence";
        _ ← check_mapping_candidate o w state candidate;
        PlanIdentityExecutionV1 port_sha256 port_sort
          (ExecutionInput (gen_BuildLockDigest generation) (Some policy) candidate (protected_geometry m) (acceptedGeometry m)
             (elems (native_RuntimeUsers native)) (elems (native_RuntimeGroups native)))
      end
    end
  | _, _ => Err "requires native state, selected generation and trusted profile validator"
  end.
Definition nativePlan (o : Outside) (w : World) (state : StateV1) (candidate : Geometry) (native : NativeIdentityOperationV1)
    : result IdentityExecutionPlanV1 := prefixed "native identity admission: " (native_plan o w state candidate native).

Definition checkNativePending (o : Outside) (w : World) (expected : StateV1) : result IdentityExecutionPlanV1 :=
  match pending_of (IdentityMapping expected) with
  | None => Err nil_dereference
  | Some p =>
    match op_Native p with
    | None => Err nil_dereference
    | Some native =>
      plan ← nativePlan o w expected (numeric (op_Candidate p)) native;
      _ ← reject_if (negb (sameExecutionGeometryV1 (Active plan) (numeric (native_Active native))))
            "native stored active map differs from the fresh execution plan";
      Ok plan
    end
  end.

(** ** Pending operations *)

Definition wrong_pending (expected : StateV1) (m : IdentityMappingStateV1) (p : IdentityMappingOperationV1) (operationID : string) : bool :=
  (negb (bool_decide (op_Kind p = "configure")) && negb (bool_decide (op_Kind p = "native-execute")))
  || negb (bool_decide (OperationID p = operationID)) || negb (bool_decide (ExpectedGeneration p = Current expected))
  || (negb (bool_decide (op_Phase p = "release-attempted")) && negb (bool_decide (PriorAccepted p = AdmittedGeneration m)))
  || (bool_decide (op_Phase p = "intent") && negb (bool_decide (ExpectedRevision p = Revision m))).
Definition exact_pending : string := "recovery requires its exact pending owner, operation and generations".
Definition checkPending (o : Outside) (w : World) (expected : StateV1) (operationID : string) : result unit :=
  match IdentityMapping expected with
  | None => Err exact_pending
  | Some m =>
    match PendingOperation m with
    | None => Err exact_pending
    | Some p =>
      _ ← reject_if (wrong_pending expected m p operationID) exact_pending;
      if bool_decide (op_Kind p = "native-execute") then
        _ ← reject_if (bool_decide (op_Native p = None)) "native recovery requires its recorded active map";
        _ ← checkNativePending o w expected;
        Ok tt
      else
        _ ← check_mapping_candidate o w expected (numeric (op_Candidate p));
        Ok tt
    end
  end.

(** The mapping that the effects of an operation are to have. *)
Definition effective_geometry (p : IdentityMappingOperationV1) : Geometry :=
  match op_Native p with
  | Some native => numeric (native_Active native)
  | None => numeric (op_Candidate p)
  end.
Definition begin_update (o : Outside) (state : StateV1) : result StateV1 :=
  with_pending state (λ m p,
    _ ← reject_if (negb (bool_decide (op_Phase p = "intent"))) "effects require the exact intent phase";
    with_evidence o "effects require fresh inactive inventory" (λ evidence,
      handles ← wrap (PlanInventory evidence state (effective_geometry p)) "effect inventory differs from the recorded intent";
      _ ← reject_if (negb (bool_decide (slice_of handles = OwnedObjects p))) "effect inventory differs from the recorded intent";
      let revision := match op_Native p with Some _ => next_revision (Revision m) | None => ExpectedRevision p end in
      Ok (set_pending (Some (set_phase "effects-pending" revision p)) m))).
Definition BeginEffects (o : Outside) (w : World) (expected : StateV1) (operationID : string) : World * result StateV1 :=
  match checkPending o w expected operationID with
  | Err message => (w, Err message)
  | Ok _ => change o w expected (begin_update o)
  end.

(** ** Recovery *)

Definition cancel_update (evidence : Evidence) (state : StateV1) : result StateV1 :=
  with_pending state (λ m p,
    _ ← reject_if (negb (bool_decide (op_Phase p = "intent"))) "effects-pending or verified candidates cannot be cancelled";
    _ ← wrap (Unused evidence state) "cancellation lacks never-used proof";
    Ok (set_pending None m)).
Definition verify_update (evidence : Evidence) (state : StateV1) : result StateV1 :=
  with_pending state (λ m p,
    _ ← wrap (Verify evidence state) "exact effects remain unverified";
    Ok (set_pending (Some (set_phase "verified" (ExpectedRevision p) p)) m)).

(** [slices.Compact]. *)
Fixpoint compact (l : list string) : list string :=
  match l with
  | a :: ((b :: _) as rest) => if bool_decide (a = b) then compact rest else a :: compact rest
  | _ => l
  end.
Definition joined_storage (m : IdentityMappingStateV1) (p : IdentityMappingOperationV1) : Slice string :=
  slice_of (compact (merge_sort String.le (elems (RetainedStorage m) ++ elems (OwnedObjects p)))).
(** The candidate becomes protected and the operation ends. *)
Definition settle (m : IdentityMappingStateV1) (p : IdentityMappingOperationV1) : result IdentityMappingStateV1 :=
  reserved ← RetainGeometry port_sort (numeric (op_Candidate p)) (protected_geometry m);
  Ok (set_pending None (set_storage (joined_storage m p) (set_reserved reserved m))).
Definition settle_update (state : StateV1) : result StateV1 := with_pending state settle.
Definition native_update (evidence : Evidence) (state : StateV1) : result StateV1 :=
  with_pending state (λ m p, _ ← wrap (Verify evidence state) "native operation remains uncertain"; settle m p).

(** The outside of the second change is an argument of its own. *)
Definition Recover (o o' : Outside) (w : World) (expected : StateV1) (operationID : string) (cancel : bool) : World * result StateV1 :=
  match (_ ← checkPending o w expected operationID;
         with_evidence o "mapping recovery requires exact inventory evidence" Ok) with
  | Err message => (w, Err message)
  | Ok evidence =>
    if cancel then change o w expected (cancel_update evidence)
    else
      match pending_of (IdentityMapping expected) with
      | None => (w, Err nil_dereference)
      | Some p =>
        if bool_decide (op_Phase p = "intent") then (w, Err "intent has no effects to reconcile; retain it or prove it unused")
        else if bool_decide (op_Kind p = "native-execute") then change o w expected (native_update evidence)
        else
          match change o w expected (verify_update evidence) with
          | (w, Err message) => (w, Err message)
          | (w, Ok verified) => change o' w verified settle_update
          end
      end
  end.

(** ** Native executions *)

Definition upgrade_update (state : StateV1) : result StateV1 :=
  match IdentityMapping state with
  | None => Err "native upgrade requires unambiguous never-admitted legacy authority"
  | Some m =>
    _ ← reject_if (negb (bool_decide (m_Schema m = IdentityMappingStateSchemaV1)) || bool_decide (is_Some (Supervisor m))
                   || bool_decide (is_Some (Engine m)) || bool_decide (is_Some (AdmittedGeneration m)) || negb (no_dormant m))
          "native upgrade requires unambiguous never-admitted legacy authority";
    match PendingOperation m with
    | None => Ok (set_mapping (Some (set_native_schema m)) state)
    | Some p =>
      let intent := bool_decide (op_Phase p = "intent") in
      _ ← reject_if (negb (bool_decide (op_Kind p = "configure")) || (intent && negb (bool_decide (ExpectedRevision p = Revision m)))
                     || negb (bool_decide (ExpectedGeneration p = Current state)) || bool_decide (is_Some (PriorAccepted p)))
            "legacy intent revision is stale";
      let revision := if intent then next_revision (Revision m) else ExpectedRevision p in
      Ok (set_mapping (Some (set_pending (Some (set_phase (op_Phase p) revision p)) (set_native_schema m))) state)
    end
  end.
Definition UpgradeNativeMapping (o : Outside) (w : World) (expected : StateV1) : World * result StateV1 := change o w expected upgrade_update.

Definition native_intent (state : StateV1) (m : IdentityMappingStateV1) (operationID : string) (canonical : Geometry)
    (handles : list string) (native : NativeIdentityOperationV1) : IdentityMappingOperationV1 :=
  MappingOperation operationID "native-execute" (next_revision (Revision m)) (Current state) (mappingGeometryStateV1 canonical)
    (AdmittedGeneration m) (slice_of handles) "intent" true (Some native).
Definition prepare_update (o : Outside) (plan : IdentityExecutionPlanV1) (canonical : Geometry) (operationID : string)
    (native : NativeIdentityOperationV1) (state : StateV1) : result StateV1 :=
  with_mapping state (λ m,
    let busy := "native intent requires no pending operation and a fresh owned instance" in
    _ ← reject_if (bool_decide (is_Some (PendingOperation m))) busy;
    with_evidence o busy (λ evidence,
      _ ← reject_if (bool_decide (NativeProcess m = Some (native_Process native)) && bool_decide (Engine m = Some (native_Engine native))) busy;
      handles ← wrap (PlanInventory evidence state (Active plan)) "native inactive inventory is unknown or invalid";
      _ ← wrap (validateMappingHandlesV1 handles) "native inactive inventory is unknown or invalid";
      Ok (set_pending (Some (native_intent state m operationID canonical handles native)) m))).
Definition PrepareNativeExecution (o : Outside) (w : World) (expected : StateV1) (candidate : Geometry) (operationID : string)
    (native : NativeIdentityOperationV1) : World * result StateV1 :=
  match (_ ← reject_if (negb (safeRecoveryIdentity operationID) || negb (safeRecoveryIdentity (native_Engine native))
                        || negb (safeRecoveryIdentity (native_Process native)))
               "native intent requires exact safe operation and instance identities";
         canonical ← ValidateGeometry port_sort candidate;
         plan ← nativePlan o w expected canonical native;
         Ok (canonical, plan)) with
  | Err message => (w, Err message)
  | Ok (canonical, plan) =>
    change o w expected (prepare_update o plan canonical operationID (set_active (mappingGeometryStateV1 (Active plan)) native))
  end.

Definition wanted_geometry (p : IdentityMappingOperationV1) : Geometry :=
  match op_Native p with
  | Some native => if bool_decide (op_Kind p = "native-execute") then numeric (native_Active native) else numeric (op_Candidate p)
  | None => numeric (op_Candidate p)
  end.
Definition ObserveEffects (o : Outside) (w : World) (expected : StateV1) (active : Geometry) (operationID : string) : result StateV1 :=
  _ ← lock_held w;
  status ← wrap (Status o w) "mapped create owner, generation or revision changed";
  let state := status_State status in
  _ ← reject_if (negb (bool_decide (state = expected))) "mapped create owner, generation or revision changed";
  match pending_of (IdentityMapping state) with
  | None => Err "mapped create requires its recorded effects-pending operation"
  | Some p =>
    _ ← reject_if (bool_decide (Current state = None) || negb (bool_decide (op_Phase p = "effects-pending")))
          "mapped create requires its recorded effects-pending operation";
    canonical ← wrap (ValidateGeometry port_sort active) "mapped create active geometry differs from its pending candidate";
    _ ← reject_if (negb (bool_decide (canonical = wanted_geometry p))) "mapped create active geometry differs from its pending candidate";
    _ ← checkPending o w state operationID;
    _ ← later_held o;
    Ok state
  end.

(** The admission of a plan, with its one release. *)
Definition admit_plan (plan : IdentityExecutionPlanV1) (m : IdentityMappingStateV1) (p : IdentityMappingOperationV1)
    (native : NativeIdentityOperationV1) : IdentityMappingStateV1 :=
  set_pending (Some (set_phase "release-attempted" (next_revision (Revision m)) p))
    (set_admission (ProspectiveAccepted plan) (DormantUIDs plan) (DormantGIDs plan) (ExpectedGeneration p) native
       (set_reserved (ProspectiveReservations plan) m)).
Definition admit_update (o : Outside) (plan : IdentityExecutionPlanV1) (state : StateV1) : result StateV1 :=
  with_pending state (λ m p,
    with_evidence o "native admission requires exact inhibited-instance evidence" (λ evidence,
      _ ← wrap (Verify evidence state) "native instance remains unverified";
      match op_Native p with
      | None => Err nil_dereference
      | Some native => Ok (admit_plan plan m p native)
      end)).
Definition AdmitNativeExecution (o : Outside) (w : World) (expected : StateV1) (operationID : string) : World * result StateV1 :=
  match pending_of (IdentityMapping expected) with
  | None => (w, Err "native admission requires its recorded operation")
  | Some p =>
    match op_Native p with
    | None => (w, Err "native admission requires its recorded operation")
    | Some native =>
      match (_ ← reject_if (negb (bool_decide (op_Kind p = "native-execute"))) "native admission requires its recorded operation";
             _ ← ObserveEffects o w expected (numeric (native_Active native)) operationID;
             checkNativePending o w expected) with
      | Err message => (w, Err message)
      | Ok plan => change o w expected (admit_update o plan)
      end
    end
  end.
End operations.
