(* ===== verification/MappingFacts.v ===== *)
(** * The authority of a deployment over its identity mapping

    What the operations of MappingStore.v and MappingOperations.v do to the mapping in
    the state file: each call is a step of a small machine over the relations that the
    reserved and the accepted geometry mean.  What a valid native mapping that was
    admitted records. *)

From Stdlib Require Import Ascii.
From S2P Require Import Prelude GoText Identifiers Yaml LiveRunStore Geometry GeometryFacts HostCheck Canonical Platform IdentityPolicy IdentityPolicyFacts ImageIdentity ExecutionPlan ExecutionPlanFacts MappingState MappingStore MappingOperations.

Open Scope Z_scope.

(** ** Texts of numbers *)

Lemma mappingDecimal_format n : 0 ≤ n ≤ MaxUint64 → mappingDecimalV1 (format_uint n) = n.
Proof. intros Hn. unfold mappingDecimalV1, MaxUint64 in *. apply uint_value_parse, parse_format. lia. Qed.
Lemma valid_decimal s bits positive : validMappingDecimalV1 s bits positive = true ↔
  ∃ n, s = format_uint n ∧ 0 ≤ n < 2 ^ bits ∧ (positive = true → 0 < n) ∧ (bits = 32 → n < MaxUint32).
Proof.
  unfold validMappingDecimalV1. split.
  - destruct (parse_uint s bits) as [n|] eqn:Hp; [|done]. intros H. exists n. apply parse_uint_range in Hp.
    go_bool. destruct H as [[<- H1] H2]. split_and!; [done|lia|lia| |].
    + intros ->. destruct H1 as [?|?]; [done|lia].
    + intros ->. destruct H2 as [?|?]; [lia|lia].
  - intros (n & -> & Hn & Hp & H32). rewrite parse_format by done. go_bool. split_and!; [done| |].
    + destruct positive; [right; specialize (Hp eq_refl); lia|by left].
    + destruct (Z.eqb_spec bits 32); [right; specialize (H32 e); lia|by left].
Qed.
(** A revision that is not exhausted goes up by one. *)
Lemma next_revision_value r : validMappingDecimalV1 r 64 false = true → mappingDecimalV1 r ≠ MaxUint64 →
  mappingDecimalV1 (next_revision r) = mappingDecimalV1 r + 1.
Proof.
  intros (n & -> & Hn & _)%valid_decimal. unfold next_revision. rewrite (mappingDecimal_format n) by (unfold MaxUint64; lia). intros Hne.
  unfold to_uint64, MaxUint64 in *. rewrite Z.mod_small by lia. apply mappingDecimal_format. unfold MaxUint64. lia.
Qed.

(** ** Geometries in a state *)

Lemma to_uint32_range x : 0 ≤ to_uint32 x ≤ MaxUint32.
Proof. unfold to_uint32, MaxUint32. assert (H := Z.mod_pos_bound x 4294967296). lia. Qed.
Lemma wf_numeric g : wf_geometry (numeric g).
Proof.
  split; simpl; apply Forall_forall; intros i (v & -> & _)%list_elem_of_fmap; split_and!; apply to_uint32_range.
Qed.
Lemma wf_accepted m : wf_option (acceptedGeometry m).
Proof.
  intros a. unfold acceptedGeometry. destruct (AcceptedUIDs m), (AcceptedGIDs m); try done. destruct (_ =? _)%nat; [done|].
  intros [= <-]. apply wf_numeric.
Qed.
Lemma wf_protected m : wf_option (protected_geometry m).
Proof. intros a. unfold protected_geometry. destruct (is_empty _); [done|]. intros [= <-]. apply wf_numeric. Qed.

Lemma elems_slice_of {A} (l : list A) : elems (slice_of l) = l.
Proof. by destruct l. Qed.
Lemma numeric_wire l : Forall wf l → numeric_intervals (wire_intervals l) = l.
Proof.
  intros Hl. unfold numeric_intervals, wire_intervals. rewrite elems_slice_of, map_map. rewrite <-(map_id l) at 2.
  apply map_ext_Forall. eapply Forall_impl; [exact Hl|]. intros [c h n] (Hc & Hh & Hn). unfold u32, MaxUint32 in *. simpl in *.
  unfold numeric_interval, wire_interval. simpl.
  rewrite !mappingDecimal_format by (unfold MaxUint64; lia). by rewrite !to_uint32_small by (unfold MaxUint32; lia).
Qed.
Lemma numeric_state g : wf_geometry g → numeric (mappingGeometryStateV1 g) = g.
Proof. intros [Hu Hg]. unfold numeric. simpl. rewrite !numeric_wire by done. by destruct g. Qed.

Lemma compact_elem l x : x ∈ compact l ↔ x ∈ l.
Proof.
  induction l as [|a l IH]; [done|]. destruct l as [|b l]; [done|]. cbn [compact]. case_bool_decide as He.
  - subst. rewrite IH. set_solver.
  - rewrite !elem_of_cons in *. rewrite IH. done.
Qed.

Section facts.
Context {ports : MappingPorts} (Hsort : sorts port_sort).

Lemma require_canonical v : requireCanonicalMappingGeometryV1 v = Ok tt ↔
  Forall (λ i, canonical_wire i = true) (elems (wire_UIDs v) ++ elems (wire_GIDs v))
  ∧ valid_geometry (numeric v) ∧ canonical_geometry (numeric v).
Proof using Hsort.
  unfold requireCanonicalMappingGeometryV1. rewrite reject_if_bind, bind_ok. setoid_rewrite wrap_ok. go_bool. rewrite Forall_bool.
  apply and_iff_compat_l. assert (Hrun := validate_run port_sort (numeric v) Hsort (wf_numeric v)). split.
  - intros (checked & Hc & He). rewrite Hc in Hrun. apply reject_if_ok in He. go_bool. subst. tauto.
  - intros [Hv Hc]. exists (numeric v). split; [by apply validate_normal|]. by rewrite bool_decide_true.
Qed.

Lemma valid_mapping s m : ValidateStateV1 s = Ok tt → IdentityMapping s = Some m → check_mapping_state s m = Ok tt.
Proof using Type.
  unfold ValidateStateV1. intros Hs Hm. go_ok. unfold validateIdentityMappingStateV1 in Hs. by rewrite Hm in Hs.
Qed.

(** ** The abstract machine *)

Definition bindings : Type := id_kind → Z → Z → Prop.
(** What is reserved, what was accepted, the admission (its generation, engine and
    process), and the pending operation by its kind, its phase and its candidate. *)
Record Authority := MkAuthority {
  a_reserved : bindings;
  a_accepted : bindings;
  a_admission : option EnvironmentGenerationState * option string * option string;
  a_pending : option (string * string * Geometry)
}.
Definition widened (before : bindings) (g : Geometry) (after : bindings) : Prop :=
  ∀ kind c h, after kind c h ↔ before kind c h ∨ gmaps kind g c h.
Definition operation_kinds : list string := ["configure"; "native-execute"].
(** When the candidate of an operation may become protected without an admission. *)
Definition settles (kind phase : string) : Prop :=
  kind = "configure" ∧ phase = "verified"
  ∨ kind = "native-execute" ∧ (phase = "effects-pending" ∨ phase = "release-attempted").

Inductive authority_step (a : Authority) : Authority → Prop :=
  | step_intent kind g :
    kind ∈ operation_kinds → valid_geometry g →
    a_pending a = None ∨ kind = "configure" ∧ (∃ g', a_pending a = Some ("configure", "intent", g')) →
    authority_step a (MkAuthority (a_reserved a) (a_accepted a) (a_admission a) (Some (kind, "intent", g)))
  | step_begin kind g :
    a_pending a = Some (kind, "intent", g) →
    authority_step a (MkAuthority (a_reserved a) (a_accepted a) (a_admission a) (Some (kind, "effects-pending", g)))
  | step_cancel kind g :
    a_pending a = Some (kind, "intent", g) → authority_step a (MkAuthority (a_reserved a) (a_accepted a) (a_admission a) None)
  | step_verify phase g :
    a_pending a = Some ("configure", phase, g) → phase = "effects-pending" ∨ phase = "verified" →
    authority_step a (MkAuthority (a_reserved a) (a_accepted a) (a_admission a) (Some ("configure", "verified", g)))
  | step_settle kind phase g reserved :
    a_pending a = Some (kind, phase, g) → settles kind phase → widened (a_reserved a) g reserved →
    authority_step a (MkAuthority reserved (a_accepted a) (a_admission a) None)
  | step_admit g reserved accepted admission :
    a_pending a = Some ("native-execute", "effects-pending", g) → widened (a_reserved a) g reserved →
    (∀ kind c h, a_accepted a kind c h → accepted kind c h) →
    (∀ kind c h, accepted kind c h → a_accepted a kind c h ∨ gmaps kind g c h) →
    authority_step a (MkAuthority reserved accepted admission (Some ("native-execute", "release-attempted", g))).

(** The authority that a mapping records. *)
Definition pending_view (p : IdentityMappingOperationV1) : string * string * Geometry :=
  (op_Kind p, op_Phase p, numeric (op_Candidate p)).
Definition authority (m : IdentityMappingStateV1) : Authority :=
  MkAuthority (λ kind, gmaps kind (numeric (geometry m))) (λ kind, opt_maps kind (acceptedGeometry m))
    (AdmittedGeneration m, Engine m, NativeProcess m) (option_map pending_view (PendingOperation m)).

(** What no operation changes, and what only grows. *)
Record same_owner (m m' : IdentityMappingStateV1) : Prop := {
  same_id : InstallationID m' = InstallationID m;
  same_dir : OwnerDir m' = OwnerDir m;
  same_operator : OperatorUID m' = OperatorUID m ∧ OperatorGID m' = OperatorGID m;
  same_profile : m_Profile m' = m_Profile m;
  same_revoked : Revoked m' = Revoked m;
  more_storage : ∀ handle, handle ∈ elems (RetainedStorage m) → handle ∈ elems (RetainedStorage m')
}.
#[export] Instance same_owner_preorder : PreOrder same_owner.
Proof using Type.
  split; [by split|]. intros a b c [] []. split; [congruence|congruence| |congruence|congruence|auto].
  destruct same_operator0, same_operator1. split; congruence.
Qed.

(** One update of a mapping, before its revision goes up. *)
Definition moves (m m' : IdentityMappingStateV1) : Prop :=
  same_owner m m' ∧ Revision m' = Revision m ∧ (authority m' = authority m ∨ authority_step (authority m) (authority m')).

(** ** Updates *)

Lemma with_mapping_ok s f next : with_mapping s f = Ok next ↔
  ∃ m m', IdentityMapping s = Some m ∧ f m = Ok m' ∧ next = set_mapping (Some m') s.
Proof using Type.
  unfold with_mapping. destruct (IdentityMapping s) as [m|]; [|by split; [|intros (? & ? & ? & _)]].
  rewrite bind_ok. split; [intros (m' & Hm & [= <-]); by exists m, m'|]. intros (? & m' & [= <-] & Hm & ->). by exists m'.
Qed.
Lemma with_pending_ok s f next : with_pending s f = Ok next ↔
  ∃ m p m', IdentityMapping s = Some m ∧ PendingOperation m = Some p ∧ f m p = Ok m' ∧ next = set_mapping (Some m') s.
Proof using Type.
  unfold with_pending. rewrite with_mapping_ok. split.
  - intros (m & m' & Hm & Hf & ->). destruct (PendingOperation m) as [p|] eqn:Hp; [|done]. by exists m, p, m'.
  - intros (m & p & m' & Hm & Hp & Hf & ->). exists m, m'. by rewrite Hp.
Qed.
Lemma with_evidence_ok {A} o message (f : Evidence → result A) a :
  with_evidence o message f = Ok a ↔ ∃ ev, evidence o = Some ev ∧ f ev = Ok a.
Proof using Type.
  unfold with_evidence. destruct (evidence o) as [ev|]; [|by split; [|intros (? & ? & _)]].
  split; [by exists ev|]. by intros (? & [= <-] & ?).
Qed.

(** What protects: the reservations, which are both empty or both not. *)
Lemma mapping_parts s m : check_mapping_state s m = Ok tt →
  is_empty (UIDAssignments m) = is_empty (GIDAssignments m)
  ∧ (is_empty (UIDAssignments m) = false → requireCanonicalMappingGeometryV1 (geometry m) = Ok tt)
  ∧ (∀ p, PendingOperation m = Some p → check_mapping_operation m p = Ok tt)
  ∧ validateNativeMappingStateV1 m = Ok tt ∧ check_authority s m = Ok tt.
Proof using Type.
  unfold check_mapping_state. rewrite bind_unit, reject_if_bind, !bind_unit. go_bool.
  intros (H1 & H2 & H3 & _ & _ & _ & _ & _ & _ & H4 & H5). apply eqb_prop in H2. split_and!; [done| | |done|done].
  - by destruct (is_empty (UIDAssignments m)).
  - intros p Hp. by rewrite Hp in H4.
Qed.
Lemma is_empty_nil {A} (l : Slice A) : is_empty l = true ↔ elems l = [].
Proof using Type. unfold is_empty. by destruct (elems l). Qed.
Lemma protected_maps s m : check_mapping_state s m = Ok tt →
  ∀ kind c h, opt_maps kind (protected_geometry m) c h ↔ gmaps kind (numeric (geometry m)) c h.
Proof using Type.
  intros (He & _)%mapping_parts kind c h. unfold protected_geometry. destruct (is_empty (UIDAssignments m)) eqn:Hu.
  - symmetry in He. apply is_empty_nil in Hu, He. split; [by intros (? & [=] & _)|].
    unfold gmaps. destruct kind; simpl; unfold numeric_intervals; rewrite ?Hu, ?He; intros (i & []%elem_of_nil & _).
  - split; [by intros (? & [= <-] & ?)|]. intros Hm. by eexists.
Qed.

Definition moved (s next : StateV1) : Prop :=
  ∀ m, IdentityMapping s = Some m → ∃ m', next = set_mapping (Some m') s ∧ moves m m'.

Lemma pending_authority m p : PendingOperation m = Some p → a_pending (authority m) = Some (pending_view p).
Proof using Type. intros Hp. simpl. by rewrite Hp. Qed.
Lemma same_owner_refl m m' : m' = m → same_owner m m'.
Proof using Type. by intros ->. Qed.

Lemma cancel_moves ev s next : cancel_update ev s = Ok next → moved s next.
Proof using Type.
  unfold cancel_update. rewrite with_pending_ok. intros (m & p & m' & Hm & Hp & Hf & ->) ? Hm'.
  rewrite Hm in Hm'. injection Hm' as <-. go_ok. go_bool. simplify_eq. eexists. split; [done|]. split; [by split|]. split; [done|]. right.
  apply (step_cancel (authority m) (op_Kind p) (numeric (op_Candidate p))). rewrite (pending_authority _ _ Hp). unfold pending_view. congruence.
Qed.

Lemma check_phase m p : check_mapping_operation m p = Ok tt →
  op_Phase p = "intent" ∨ op_Phase p = "effects-pending" ∨ op_Phase p = "verified"
  ∨ op_Kind p = "native-execute" ∧ op_Phase p = "release-attempted".
Proof using Type.
  unfold check_mapping_operation. intros [Hb _]%reject_if_bind. unfold bad_phase in Hb.
  destruct (decide (op_Phase p = "intent")) as [|H1]; [by left|]. destruct (decide (op_Phase p = "effects-pending")) as [|H2]; [by right; left|].
  destruct (decide (op_Phase p = "verified")) as [|H3]; [by right; right; left|].
  rewrite !orb_false_iff in Hb. destruct Hb as [_ Hb]. rewrite !bool_decide_false in Hb by done. simpl in Hb. go_bool. tauto.
Qed.

Lemma verify_moves ev s next : verify_update ev s = Ok next →
  (∀ m p, IdentityMapping s = Some m → PendingOperation m = Some p →
    check_mapping_operation m p = Ok tt ∧ op_Kind p = "configure" ∧ op_Phase p ≠ "intent") →
  moved s next.
Proof using Type.
  unfold verify_update. rewrite with_pending_ok. intros (m & p & m' & Hm & Hp & Hf & ->) Hpre ? Hm'.
  rewrite Hm in Hm'. injection Hm' as <-. go_ok. simplify_eq. destruct (Hpre _ _ Hm Hp) as (Hc & Hk & Hph).
  eexists. split; [done|]. split; [by split|]. split; [done|]. right.
  assert (op_Phase p = "effects-pending" ∨ op_Phase p = "verified") as Hphase.
  { apply check_phase in Hc. destruct Hc as [?|[?|[?|[Hn _]]]]; [done|by left|by right|]. by rewrite Hk in Hn. }
  assert (a_pending (authority m) = Some ("configure", op_Phase p, numeric (op_Candidate p))) as Hpend.
  { rewrite (pending_authority _ _ Hp). unfold pending_view. by rewrite Hk. }
  assert (Hstep := step_verify (authority m) (op_Phase p) (numeric (op_Candidate p)) Hpend Hphase).
  rewrite <-Hk in Hstep. exact Hstep.
Qed.

(** The joined storage keeps what was retained. *)
Lemma joined_storage_elem m p x : x ∈ elems (joined_storage m p) ↔ x ∈ elems (RetainedStorage m) ∨ x ∈ elems (OwnedObjects p).
Proof using Type. unfold joined_storage. by rewrite elems_slice_of, compact_elem, merge_sort_Permutation, elem_of_app. Qed.

Lemma settle_moves s m p m' : check_mapping_state s m = Ok tt → PendingOperation m = Some p →
  settles (op_Kind p) (op_Phase p) → settle m p = Ok m' → moves m m'.
Proof using Hsort.
  intros Hv Hp Hset Hf. unfold settle in Hf. apply bind_ok in Hf as (reserved & Hr & [= <-]).
  assert (H := retain_option port_sort Hsort (numeric (op_Candidate p)) (protected_geometry m) (wf_numeric _) (wf_protected m)).
  rewrite Hr in H. destruct H as (_ & _ & Hvr & Hcr & _ & Hmr).
  split; [|split; [done|]].
  { split; try done. intros handle. simpl. rewrite joined_storage_elem. tauto. }
  right. apply (step_settle (authority m) (op_Kind p) (op_Phase p) (numeric (op_Candidate p))); [by rewrite (pending_authority _ _ Hp)|done|].
  intros kind c h. simpl. rewrite <-(protected_maps s m Hv). unfold gmaps at 1.
  assert (ids kind (numeric (geometry (set_pending None (set_storage (joined_storage m p) (set_reserved reserved m))))) = ids kind reserved) as ->.
  { destruct (same_geometry_wf _ Hcr) as [Hu Hg]. destruct kind; simpl; by rewrite numeric_wire. }
  fold (gmaps kind reserved c h). rewrite Hmr. tauto.
Qed.
Lemma settle_update_moves s next : ValidateStateV1 s = Ok tt → settle_update s = Ok next →
  (∀ m p, IdentityMapping s = Some m → PendingOperation m = Some p → settles (op_Kind p) (op_Phase p)) → moved s next.
Proof using Hsort.
  unfold settle_update. rewrite with_pending_ok. intros Hv (m & p & m' & Hm & Hp & Hf & ->) Hpre ? Hm'.
  rewrite Hm in Hm'. injection Hm' as <-. eexists. split; [done|]. eapply settle_moves; [by eapply valid_mapping|done|by eapply Hpre|done].
Qed.
Lemma native_update_moves ev s next : ValidateStateV1 s = Ok tt → native_update ev s = Ok next →
  (∀ m p, IdentityMapping s = Some m → PendingOperation m = Some p → settles (op_Kind p) (op_Phase p)) → moved s next.
Proof using Hsort.
  unfold native_update. rewrite with_pending_ok. intros Hv (m & p & m' & Hm & Hp & Hf & ->) Hpre. apply bind_ok in Hf as (_ & _ & Hf).
  apply (settle_update_moves s); [done| |done]. unfold settle_update. apply with_pending_ok. by exists m, p, m'.
Qed.

Lemma begin_moves o s next : begin_update o s = Ok next → moved s next.
Proof using Type.
  unfold begin_update. rewrite with_pending_ok. intros (m & p & m' & Hm & Hp & Hf & ->) ? Hm'.
  rewrite Hm in Hm'. injection Hm' as <-. apply reject_if_bind in Hf as [Hph Hf]. apply with_evidence_ok in Hf as (ev & _ & Hf).
  go_ok. go_bool. simplify_eq. eexists. split; [done|]. split; [by split|]. split; [done|]. right.
  apply (step_begin (authority m) (op_Kind p) (numeric (op_Candidate p))). rewrite (pending_authority _ _ Hp). unfold pending_view. congruence.
Qed.

Lemma upgrade_moves s next : ValidateStateV1 s = Ok tt → upgrade_update s = Ok next → moved s next.
Proof using Type.
  intros Hv Hu m Hm. assert (Hc := valid_mapping _ _ Hv Hm). apply mapping_parts in Hc as (_ & _ & _ & Hn & _).
  unfold upgrade_update in Hu. rewrite Hm in Hu. apply reject_if_bind in Hu as [Hs Hu]. go_bool. destruct Hs as ((((Hs & _) & _) & _) & _).
  unfold validateNativeMappingStateV1 in Hn. rewrite bool_decide_true in Hn by done. apply reject_if_ok in Hn. go_bool.
  assert (∀ p', option_map pending_view p' = option_map pending_view (PendingOperation m) →
    authority (set_pending p' (set_native_schema m)) = authority m) as Ha.
  { intros p' Hp'. unfold authority. simpl. rewrite Hp'. f_equal. unfold acceptedGeometry. simpl.
    destruct (AcceptedUIDs m) eqn:E; [|done]. exfalso. destruct Hn as [[[[_ Hn] _] _] _]. apply Hn. by eexists. }
  destruct (PendingOperation m) as [p|] eqn:Hp.
  - apply reject_if_bind in Hu as [_ [= <-]]. eexists. split; [done|]. split; [by split|]. split; [done|]. left. by apply Ha.
  - injection Hu as <-. eexists. split; [done|]. split; [by split|]. split; [done|]. left. rewrite <-Hp in Ha. by apply (Ha (PendingOperation m)).
Qed.

Lemma set_same s m : IdentityMapping s = Some m → set_mapping (Some m) s = s.
Proof using Type. intros Hm. rewrite <-Hm. by destruct s. Qed.
Lemma unmoved s : moved s s.
Proof using Type. intros m Hm. exists m. split; [by rewrite set_same|]. split; [done|]. split; [done|by left]. Qed.

(** A new intent. *)
Lemma intent_moves m p : valid_geometry (numeric (op_Candidate p)) → op_Kind p ∈ operation_kinds → op_Phase p = "intent" →
  PendingOperation m = None ∨ op_Kind p = "configure" ∧ (∃ q, PendingOperation m = Some q ∧ op_Kind q = "configure" ∧ op_Phase q = "intent") →
  moves m (set_pending (Some p) m).
Proof using Type.
  intros Hv Hk Hph Hpend. split; [by split|]. split; [done|]. right.
  assert (a_pending (authority m) = None ∨ op_Kind p = "configure" ∧ (∃ g, a_pending (authority m) = Some ("configure", "intent", g))) as Ha.
  { destruct Hpend as [Hp|(? & q & Hq & Hqk & Hqp)]; [left; simpl; by rewrite Hp|]. right. split; [done|]. exists (numeric (op_Candidate q)).
    rewrite (pending_authority _ _ Hq). unfold pending_view. congruence. }
  assert (Hstep := step_intent (authority m) _ _ Hk Hv Ha). rewrite <-Hph in Hstep. exact Hstep.
Qed.

Lemma configure_moves o w operator g id s next : valid_geometry g → canonical_geometry g →
  configure_update o w operator g id s = Ok next → moved s next.
Proof using Type.
  intros Hv Hc Hu m Hm. unfold configure_update in Hu. rewrite Hm in Hu. apply reject_if_bind in Hu as [Hkind Hu].
  apply with_evidence_ok in Hu as (ev & _ & Hu). apply bind_ok in Hu as (handles & _ & Hu). rewrite bind_unit, bind_Ok in Hu.
  destruct Hu as [_ Hu]. assert (numeric (op_Candidate (configure_intent s m id g handles)) = g) as Hnum
    by (apply numeric_state, same_geometry_wf, Hc).
  simpl in Hkind. destruct (PendingOperation m) as [p|] eqn:Hp.
  - apply reject_if_bind in Hu as [_ Hu]. destruct (exact_retry p id g handles); [injection Hu as <-; by apply unmoved|].
    rewrite reject_if_bind, bind_unit in Hu. destruct Hu as (Hph & _ & [= <-]). go_bool. eexists. split; [done|].
    apply intent_moves; [by rewrite Hnum|by left|done|]. right. split; [done|]. exists p. tauto.
  - injection Hu as <-. eexists. split; [done|]. apply intent_moves; [by rewrite Hnum|by left|done|by left].
Qed.

Lemma prepare_moves o plan g id native s next : valid_geometry g → canonical_geometry g →
  prepare_update o plan g id native s = Ok next → moved s next.
Proof using Type.
  intros Hv Hc Hu m0 Hm'. unfold prepare_update in Hu. apply with_mapping_ok in Hu as (m & m' & Hm & Hu & ->).
  rewrite Hm in Hm'. injection Hm' as <-. apply reject_if_bind in Hu as [Hp Hu]. apply with_evidence_ok in Hu as (ev & _ & Hu).
  go_ok. simplify_eq. go_bool. eexists. split; [done|]. apply intent_moves; [|right; by left|done|].
  - simpl. by rewrite (numeric_state g (same_geometry_wf _ Hc)).
  - left. destruct (PendingOperation m); [|done]. destruct Hp. by eexists.
Qed.

(** The plan that an admission commits. *)
Definition admission_input (m : IdentityMappingStateV1) (p : IdentityMappingOperationV1) (input : IdentityExecutionInputV1) : Prop :=
  input_Candidate input = numeric (op_Candidate p) ∧ input_Reservations input = protected_geometry m
  ∧ input_Accepted input = acceptedGeometry m.

Lemma accepted_wire m g : Forall wf (UIDs g) → Forall wf (GIDs g) → UIDs g ≠ [] →
  AcceptedUIDs m = Some (wire_intervals (UIDs g)) → AcceptedGIDs m = Some (wire_intervals (GIDs g)) →
  acceptedGeometry m = Some (MkGeometry (m_Profile m) (UIDs g) (GIDs g)).
Proof using Type.
  intros Hu Hg Hne HU HG. unfold acceptedGeometry. rewrite HU, HG. unfold wire_intervals at 1. rewrite elems_slice_of, length_map.
  destruct (UIDs g) as [|i l] eqn:E; [done|]. rewrite <-E in *. assert ((length (UIDs g) =? 0)%nat = false) as -> by (rewrite E; done).
  unfold numeric. simpl. by rewrite !numeric_wire.
Qed.

Lemma admit_maps s m p native policy input plan : check_mapping_state s m = Ok tt → admission_input m p input → plans policy input plan →
  let m' := admit_plan plan m p native in
  acceptedGeometry m' = Some (MkGeometry (m_Profile m) (UIDs (ProspectiveAccepted plan)) (GIDs (ProspectiveAccepted plan)))
  ∧ ∀ kind c h,
    (gmaps kind (numeric (geometry m')) c h ↔ gmaps kind (numeric (op_Candidate p)) c h ∨ gmaps kind (numeric (geometry m)) c h)
    ∧ (opt_maps kind (acceptedGeometry m') c h ↔
        in_use policy (numeric (op_Candidate p)) kind c h ∨ opt_maps kind (acceptedGeometry m) c h).
Proof using Type.
  intros Hv (Hc & Hr & Ha) (Hall & _ & _ & Hm) m'. rewrite !Forall_cons in Hall. destruct Hall as (_ & (_ & Hcr & _) & (Hva & Hca & _) & _).
  destruct (same_geometry_wf _ Hcr) as [Hru Hrg], (same_geometry_wf _ Hca) as [Hau Hag].
  assert (acceptedGeometry m' = Some (MkGeometry (m_Profile m) (UIDs (ProspectiveAccepted plan)) (GIDs (ProspectiveAccepted plan)))) as Hacc.
  { apply (accepted_wire m'); [done|done| |done|done]. destruct Hva as (_ & [] & _). done. }
  split; [done|]. intros kind c h. destruct (Hm kind c h) as (H1 & H2 & H3 & _). rewrite Hc, Hr, Ha in *. split.
  - rewrite <-(protected_maps s m Hv), <-H2. unfold gmaps. destruct kind; simpl; by rewrite numeric_wire.
  - rewrite Hacc, <-H1, <-H3. unfold opt_maps. split.
    + intros (? & [= <-] & Hx). by destruct kind.
    + intros Hx. eexists. split; [done|]. by destruct kind.
Qed.
Lemma admit_moves s m p native policy input plan : check_mapping_state s m = Ok tt → PendingOperation m = Some p →
  op_Kind p = "native-execute" → op_Phase p = "effects-pending" → admission_input m p input → plans policy input plan →
  moves m (admit_plan plan m p native).
Proof using Type.
  intros Hv Hp Hk Hph Hi Hplan. split; [by split|]. split; [done|]. right.
  destruct (admit_maps s m p native policy input plan Hv Hi Hplan) as [_ Hm].
  assert (Hstep := step_admit (authority m) (numeric (op_Candidate p)) (λ kind, gmaps kind (numeric (geometry (admit_plan plan m p native))))
    (λ kind, opt_maps kind (acceptedGeometry (admit_plan plan m p native)))
    (ExpectedGeneration p, Some (native_Engine native), Some (native_Process native))).
  rewrite <-Hk in Hstep at 2. apply Hstep.
  - rewrite (pending_authority _ _ Hp). unfold pending_view. congruence.
  - intros kind c h. destruct (Hm kind c h) as [-> _]. simpl. tauto.
  - intros kind c h Hx. destruct (Hm kind c h) as [_ ->]. by right.
  - intros kind c h. destruct (Hm kind c h) as [_ ->]. intros [[Hx _]|Hx]; [by right|by left].
Qed.
End facts.

(** * What a valid native mapping records

    The native part of the validation of MappingState.v by the relations it is about:
    what was accepted is reserved, what is dormant was accepted, and what is active is
    the accepted part that is not dormant. *)

(** ** Canonical intervals *)

Lemma canonical_wire_numeric v : canonical_wire v = true → ∃ c h n,
  0 ≤ c < MaxUint32 ∧ 0 ≤ h < MaxUint32 ∧ 0 < n ≤ MaxUint32 ∧ numeric_interval v = MkInterval c h n
  ∧ mappingDecimalV1 (wire_ContainerStart v) = c ∧ mappingDecimalV1 (wire_HostStart v) = h ∧ mappingDecimalV1 (wire_Count v) = n.
Proof.
  unfold canonical_wire. intros H. go_bool. destruct H as [[[Hc Hh] Hn] Hmax]. apply valid_decimal in Hc, Hh, Hn.
  destruct Hc as (c & Hc & Hcr & _ & Hc32), Hh as (h & Hh & Hhr & _ & Hh32), Hn as (n & Hn & Hnr & Hn0 & _).
  specialize (Hc32 eq_refl). specialize (Hh32 eq_refl). specialize (Hn0 eq_refl). unfold numeric_interval.
  rewrite Hc, Hh, Hn in *. rewrite !mappingDecimal_format in * by (unfold MaxUint64, MaxUint32 in *; lia).
  exists c, h, n. rewrite !to_uint32_small by (unfold MaxUint32 in *; lia). split_and!; try done; lia.
Qed.
Lemma to_uint64_small x : 0 ≤ x ≤ MaxUint64 → to_uint64 x = x.
Proof. unfold to_uint64, MaxUint64. intros Hx. apply Z.mod_small. lia. Qed.
Lemma to_int64_small x : - 9223372036854775808 ≤ x < 9223372036854775808 → to_int64 x = x.
Proof. unfold to_int64. intros Hx. rewrite Z.mod_small; lia. Qed.

(** Within, and bound alike. *)
Lemma retained_binds value old c h : canonical_wire value = true → canonical_wire old = true → retained_association value old = true →
  binds (numeric_interval value) c h → binds (numeric_interval old) c h.
Proof.
  intros (c1 & h1 & n1 & Hc1 & Hh1 & Hn1 & -> & E1 & E2 & E3)%canonical_wire_numeric.
  intros (c2 & h2 & n2 & Hc2 & Hh2 & Hn2 & -> & E4 & E5 & E6)%canonical_wire_numeric.
  unfold retained_association. rewrite E1, E2, E3, E4, E5, E6. unfold MaxUint32 in *.
  rewrite !to_uint64_small by (unfold MaxUint64; lia). rewrite !(to_int64_small c1), !(to_int64_small c2), !(to_int64_small h1), !(to_int64_small h2) by lia.
  rewrite !to_int64_small by lia. intros Ha. go_bool. destruct Ha as [[Hs He] Ho]. unfold binds, containerEnd, bindingOffset. simpl. lia.
Qed.

Section provenance.
Context {ports : MappingPorts} (Hsort : sorts port_sort).

Definition dormant (kind : id_kind) (m : IdentityMappingStateV1) : list Interval :=
  match kind with UserIDs => numeric_intervals (m_DormantUIDs m) | GroupIDs => numeric_intervals (m_DormantGIDs m) end.

Lemma dormant_ok m values protected : check_dormant m values protected = Ok tt → Forall (λ v, canonical_wire v = true) protected →
  canonical (map numeric_interval values) ∧
  ∀ c h, maps (map numeric_interval values) c h → maps (map numeric_interval protected) c h.
Proof using Hsort.
  unfold check_dormant. intros Hd Hp. destruct values as [|v values].
  { split; [by split; constructor|]. by intros c h []%maps_nil. }
  apply reject_if_bind in Hd as [_ Hd]. rewrite bind_unit, reject_if_ok, negb_false_iff, forallb_forall in Hd. destruct Hd as [Hc Ha].
  apply (require_canonical Hsort) in Hc as (Hw & _ & [Hcan _]). split; [exact Hcan|].
  intros c h (i & (x & -> & Hx)%list_elem_of_fmap & Hb). rewrite Forall_app in Hw. destruct Hw as [Hw _]. simpl in Hw.
  rewrite Forall_forall in Hw, Hp. specialize (Ha x (proj1 (list_elem_of_In _ _) Hx)). apply existsb_exists in Ha as (old & Hold & Ha).
  apply list_elem_of_In in Hold. exists (numeric_interval old). split; [by apply list_elem_of_fmap_2|].
  eapply retained_binds; [by apply Hw|by apply Hp|done|done].
Qed.

(** The two schemas. *)
Lemma native_parts s m : check_mapping_state s m = Ok tt → m_Schema m = IdentityMappingStateSchemaV2 → ∃ uids gids,
  AcceptedUIDs m = Some (Some uids) ∧ AcceptedGIDs m = Some (Some gids) ∧ check_accepted_state m (Some uids) (Some gids) = Ok tt
  ∧ (∀ p, PendingOperation m = Some p → check_native_operation m p = Ok tt)
  ∧ check_dormant m (elems (m_DormantUIDs m)) uids = Ok tt ∧ check_dormant m (elems (m_DormantGIDs m)) gids = Ok tt
  ∧ check_admitted m = Ok tt.
Proof using Type.
  intros Hv Hs. unfold check_mapping_state in Hv. rewrite bind_unit, reject_if_bind, !bind_unit in Hv.
  destruct Hv as (_ & _ & _ & _ & _ & Hadm & Hdu & Hdg & _ & _ & Hn). unfold validateNativeMappingStateV1 in Hn.
  rewrite bool_decide_false in Hn by (by rewrite Hs). destruct (AcceptedUIDs m) as [[uids|]|] eqn:Hu; [|done..].
  destruct (AcceptedGIDs m) as [[gids|]|] eqn:Hg; [|done..]. rewrite !reject_if_bind, bind_unit in Hn. destruct Hn as (_ & _ & Ha & Hp).
  unfold dormant_within in Hdu, Hdg. rewrite bool_decide_true, Hu, Hg in Hdu, Hdg by done. simpl in Hdu, Hdg.
  exists uids, gids. split_and!; try done. intros p Hpend. by rewrite Hpend in Hp.
Qed.

(** An accepted geometry is part of the reserved one. *)
Lemma accepted_ok m uids gids a : AcceptedUIDs m = Some (Some uids) → AcceptedGIDs m = Some (Some gids) →
  check_accepted_state m (Some uids) (Some gids) = Ok tt → acceptedGeometry m = Some a →
  a = numeric (WireGeometry (m_Profile m) (Some uids) (Some gids)) ∧ Forall (λ v, canonical_wire v = true) (uids ++ gids)
  ∧ valid_geometry a ∧ canonical_geometry a ∧ geometry_included a (numeric (geometry m))
  ∧ AdmittedGeneration m ≠ None ∧ NativeProcess m ≠ None ∧ ∃ r, ValidateGeometry port_sort (native_active m a) = Ok r.
Proof using Hsort.
  intros HU HG Hc Ha. assert (a = numeric (WireGeometry (m_Profile m) (Some uids) (Some gids))) as He.
  { unfold acceptedGeometry in Ha. rewrite HU, HG in Ha. destruct (_ =? _)%nat; [done|]. by injection Ha. }
  unfold check_accepted_state in Hc. rewrite Ha, bind_unit in Hc. destruct Hc as [Hcan Hc]. apply (require_canonical Hsort) in Hcan as (Hw & Hva & Hca).
  rewrite <-He in Hva, Hca. apply bind_ok in Hc as (u & Hu & Hc). apply wrap_ok in Hu. apply reject_if_bind in Hc as [Hs Hc].
  apply bind_ok in Hc as (r & Hr & _). apply wrap_ok in Hr. go_bool. destruct Hs as [[Hs Hg] Hn]. apply sameExecution_iff in Hs as ->.
  assert (H := retain_joined port_sort a (numeric (geometry m)) Hsort (same_geometry_wf _ Hca) (wf_numeric _)). rewrite Hu in H.
  destruct H as (_ & _ & _ & Hj). split_and!; [done|done|done|done|by eapply joined_same|done| |by exists r].
  intros Hnone. by rewrite Hnone in Hn.
Qed.

(** What is active: accepted and not dormant. *)
Lemma native_active_maps m a : canonical_geometry a → (∀ kind, canonical (dormant kind m)) →
  (∀ kind c h, maps (dormant kind m) c h → gmaps kind a c h) →
  wf_geometry (native_active m a) ∧
  ∀ kind c h, gmaps kind (native_active m a) c h ↔ gmaps kind a c h ∧ ¬ maps (dormant kind m) c h.
Proof using Type.
  intros Ha Hd Hi. set (d := MkGeometry (m_Profile m) (dormant UserIDs m) (dormant GroupIDs m)).
  assert (canonical_geometry d) as Hcd by (split; apply Hd).
  assert (geometry_included d a) as Hid by (intros [] c h Hm; by apply Hi).
  assert (∀ kind, canonical (ids kind (native_active m a))) as Hc.
  { intros kind. rewrite canonical_geometry_ids in Ha. destruct kind; [apply (subtract_spec _ _ (Ha UserIDs) (Hd UserIDs))|].
    apply (subtract_spec _ _ (Ha GroupIDs) (Hd GroupIDs)). }
  split; [apply same_geometry_wf, canonical_geometry_ids, Hc|]. intros kind c h.
  assert (H := dormant_run a d kind c h Ha Hcd Hid). by destruct kind.
Qed.

(** A native operation. *)
Lemma native_operation_ok m p : check_native_operation m p = Ok tt → op_Phase p = "release-attempted" → op_Kind p = "native-execute" →
  ∃ native a, op_Native p = Some native ∧ acceptedGeometry m = Some a ∧ AdmittedGeneration m = ExpectedGeneration p
  ∧ Engine m = Some (native_Engine native) ∧ NativeProcess m = Some (native_Process native)
  ∧ native_active m a = numeric (native_Active native) ∧ geometry_included (numeric (native_Active native)) (numeric (op_Candidate p)).
Proof using Hsort.
  unfold check_native_operation. intros Hc Hph Hk. destruct (op_Native p) as [native|]; [|apply reject_if_ok in Hc; go_bool; congruence].
  apply reject_if_bind in Hc as [_ Hc]. apply bind_unit in Hc as [_ Hc]. apply bind_ok in Hc as (u & Hu & Hc). apply wrap_ok in Hu.
  apply reject_if_bind in Hc as [Hs Hc]. rewrite bool_decide_true in Hc by done. unfold check_release_attempt in Hc.
  destruct (acceptedGeometry m) as [a|] eqn:Ha; [|done]. apply reject_if_bind in Hc as [Hb Hc]. apply reject_if_ok in Hc. go_bool.
  apply sameExecution_iff in Hc, Hs as ->. destruct Hb as [[Hb1 Hb2] Hb3]. exists native, a. split_and!; try done.
  assert (H := retain_joined port_sort _ _ Hsort (wf_numeric (native_Active native)) (wf_numeric (op_Candidate p))). rewrite Hu in H.
  destruct H as (_ & _ & _ & Hj). by eapply joined_same.
Qed.

(** The records of a native admission. *)
Record provenance (m : IdentityMappingStateV1) (a : Geometry) : Prop := {
  prov_valid : valid_geometry a ∧ valid_geometry (native_active m a);
  prov_reserved : geometry_included a (numeric (geometry m));
  prov_dormant : ∀ kind c h, maps (dormant kind m) c h → gmaps kind a c h;
  prov_active : ∀ kind c h, gmaps kind (native_active m a) c h ↔ gmaps kind a c h ∧ ¬ maps (dormant kind m) c h;
  prov_admission : AdmittedGeneration m ≠ None ∧ Engine m ≠ None ∧ NativeProcess m ≠ None;
  prov_release : ∀ p, PendingOperation m = Some p → op_Phase p = "release-attempted" →
    ∃ native, op_Native p = Some native ∧ AdmittedGeneration m = ExpectedGeneration p ∧ Engine m = Some (native_Engine native)
    ∧ NativeProcess m = Some (native_Process native) ∧ native_active m a = numeric (native_Active native)
    ∧ geometry_included (numeric (native_Active native)) (numeric (op_Candidate p))
}.
Lemma valid_provenance s m a : check_mapping_state s m = Ok tt → m_Schema m = IdentityMappingStateSchemaV2 →
  acceptedGeometry m = Some a → provenance m a.
Proof using Hsort.
  intros Hv Hs Ha. destruct (native_parts s m Hv Hs) as (uids & gids & HU & HG & Hacc & Hop & Hdu & Hdg & Hadm).
  destruct (accepted_ok m uids gids a HU HG Hacc Ha) as (He & Hw & Hva & Hca & Hi & Hgen & Hproc & r & Hr).
  apply Forall_app in Hw as [Hwu Hwg]. apply dormant_ok in Hdu as [Hcu Hmu], Hdg as [Hcg Hmg]; [|done..].
  assert (∀ kind, canonical (dormant kind m)) as Hcd by (by intros []).
  assert (∀ kind c h, maps (dormant kind m) c h → gmaps kind a c h) as Hmd.
  { intros kind c h. rewrite He. destruct kind; [apply Hmu|apply Hmg]. }
  destruct (native_active_maps m a Hca Hcd Hmd) as [Hwf Hma].
  assert (Hrun := validate_run port_sort (native_active m a) Hsort Hwf). rewrite Hr in Hrun. destruct Hrun as [Hvalid _].
  split; [done|done|done|done| |].
  - split_and!; [done| |done]. unfold check_admitted in Hadm. destruct (AdmittedGeneration m); [|done]. apply bind_unit in Hadm as [_ Hadm].
    apply reject_if_ok in Hadm. go_bool. tauto.
  - intros p Hp Hph. assert (op_Kind p = "native-execute") as Hk.
    { apply mapping_parts in Hv as (_ & _ & Hc & _). apply Hc, check_phase in Hp. rewrite Hph in Hp. by destruct Hp as [?|[?|[?|[? _]]]]. }
    destruct (native_operation_ok m p (Hop p Hp) Hph Hk) as (native & a' & Hn & Ha' & H1 & H2 & H3 & H4 & H5). simplify_eq. by exists native.
Qed.
End provenance.
