(* ===== verification/MappingSteps.v ===== *)
(** * Every operation is a step of the authority

    The operations on the state file, as steps between worlds: the file stays valid,
    a mapping is never dropped, and its authority moves only along the steps of
    MappingFacts.v, whatever is written, fails or is left uncertain. *)

From Stdlib Require Import Ascii.
From S2P Require Import Prelude GoText Identifiers Yaml LiveRunStore Geometry GeometryFacts HostCheck Canonical Platform IdentityPolicy IdentityPolicyFacts ImageIdentity ExecutionPlan ExecutionPlanFacts MappingState MappingStore MappingOperations MappingFacts.

Open Scope Z_scope.

Section steps.
Context {ports : MappingPorts} (Hsort : sorts port_sort).

(** ** Reading and writing *)

Definition file_valid (w : World) : Prop := ∀ s, w_file w = Some s → ValidateStateV1 s = Ok tt.
Definition w_mapping (w : World) : option IdentityMappingStateV1 := mapping_of (w_file w).

Lemma commit_cases {A} e w (checked : result (option StateV1 * A)) :
  fst (commit e w checked) = w ∨ ∃ s a, checked = Ok (Some s, a) ∧ fst (commit e w checked) = set_file s w.
Proof using Type.
  unfold commit, write_state. destruct checked as [[[s|] a]|message]; [|by left|by left].
  destruct (write_outcome e); [right|by left|right]; by exists s, a.
Qed.
Lemma commit_ok {A} e w (checked : result (option StateV1 * A)) w' a :
  commit e w checked = (w', Ok a) →
  checked = Ok (None, a) ∧ w' = w ∨ ∃ s, checked = Ok (Some s, a) ∧ w' = set_file s w.
Proof using Type.
  unfold commit, write_state. destruct checked as [[[s|] b]|message]; [|intros [= <- <-]; by left|done].
  destruct (write_outcome e); simpl; [|done|done]. intros [= <- <-]. right. by exists s.
Qed.

Lemma read_path_ok e w current : readStateV1Path e w = Ok current →
  current = w_file w ∧ ∀ s, current = Some s → ValidateStateV1 s = Ok tt ∧ validateMappingOwnerPathV1 e w s = Ok tt.
Proof using Type.
  unfold readStateV1Path. destruct (w_file w) as [s|]; [|intros [= <-]; by split].
  rewrite bind_unit, wrap_ok, bind_unit. intros (Hv & Ho & [= <-]). split; [done|]. by intros ? [= <-].
Qed.
Lemma read_writable_ok e w current : read_writable e w = Ok current → current = w_file w.
Proof using Type. unfold read_writable. intros (_ & _ & H)%bind_ok. by apply read_path_ok in H as [-> _]. Qed.
Lemma encode_ok e s : EncodeStateV1 e s = Ok tt → ValidateStateV1 s = Ok tt.
Proof using Type. unfold EncodeStateV1. rewrite bind_unit, wrap_ok. by intros [? _]. Qed.

(** ** Authority over time *)

Record later (m m' : IdentityMappingStateV1) : Prop := {
  later_owner : same_owner m m';
  later_revision : m' = m ∨ mappingDecimalV1 (Revision m) < mappingDecimalV1 (Revision m');
  later_authority : rtc authority_step (authority m) (authority m')
}.
#[export] Instance later_preorder : PreOrder later.
Proof using Type.
  split; [by split; [done|left|]|]. intros a b c [H1 H2 H3] [H4 H5 H6]. split; [by etrans| |by etrans].
  destruct H2 as [->|H2]; [done|]. destruct H5 as [->|H5]; [by right|right].
  by etrans.
Qed.
(** What a step keeps: a valid file, and the mapping in it. *)
Definition keeps (w w' : World) : Prop :=
  file_valid w → file_valid w' ∧ ∀ m, w_mapping w = Some m → ∃ m', w_mapping w' = Some m' ∧ later m m'.
Lemma keeps_refl w : keeps w w.
Proof using Type. intros Hv. split; [done|]. intros m Hm. exists m. by split. Qed.
Lemma keeps_trans w1 w2 w3 : keeps w1 w2 → keeps w2 w3 → keeps w1 w3.
Proof using Type.
  intros H12 H23 Hv. destruct (H12 Hv) as [Hv2 Hm2]. destruct (H23 Hv2) as [Hv3 Hm3]. split; [done|].
  intros m Hm. destruct (Hm2 m Hm) as (m' & Hm' & Hl). destruct (Hm3 m' Hm') as (m'' & Hm'' & Hl'). exists m''. split; [done|by etrans].
Qed.

Lemma commit_keeps {A} e w (checked : result (option StateV1 * A)) :
  (∀ s a, checked = Ok (Some s, a) → file_valid w →
    ValidateStateV1 s = Ok tt ∧ ∀ m, w_mapping w = Some m → ∃ m', IdentityMapping s = Some m' ∧ later m m') →
  keeps w (fst (commit e w checked)).
Proof using Type.
  intros Hc Hv. destruct (commit_cases e w checked) as [->|(s & a & Hs & ->)]; [by apply keeps_refl|].
  destruct (Hc s a Hs Hv) as [Hvs Hm]. split; [by intros ? [= <-]|done].
Qed.

(** An update of a mapping with the increment of its revision. *)
Lemma revision_up s m : check_mapping_state s m = Ok tt → mappingDecimalV1 (Revision m) ≠ MaxUint64 →
  mappingDecimalV1 (next_revision (Revision m)) = mappingDecimalV1 (Revision m) + 1.
Proof using Type.
  intros (_ & _ & _ & _ & Ha)%mapping_parts. unfold check_authority in Ha. apply reject_if_bind in Ha as [Ha _]. go_bool.
  destruct Ha as [_ Hr]. intros Hne. apply next_revision_value; [|done].
  apply valid_decimal in Hr as (n & -> & Hn & _). apply valid_decimal. exists n. split_and!; [done|lia|lia|done|done].
Qed.
Lemma not_exhausted m : exhausted (Some m) = false → mappingDecimalV1 (Revision m) ≠ MaxUint64.
Proof using Type. unfold exhausted. intros Hx. go_bool. destruct Hx. lia. Qed.
Lemma moves_later s m m' : check_mapping_state s m = Ok tt → exhausted (Some m) = false → moves m m' →
  later m (set_revision (next_revision (Revision m')) m').
Proof using Type.
  intros Hv Hx (Hs & Hr & Ha). split.
  - destruct Hs. by split.
  - right. simpl. rewrite Hr, (revision_up s m Hv (not_exhausted m Hx)). lia.
  - change (authority (set_revision (next_revision (Revision m')) m')) with (authority m'). destruct Ha as [->|Ha]; [done|by apply rtc_once].
Qed.

Lemma change_checks_ok o w expected update r s : change_checks o w expected update = Ok (r, s) →
  w_file w = Some expected ∧ ValidateStateV1 expected = Ok tt ∧ unselected expected = false
  ∧ exhausted (IdentityMapping expected) = false ∧ ∃ next, update expected = Ok next ∧
  (r = None ∧ s = next ∧ next = expected
   ∨ ∃ m, next ≠ expected ∧ IdentityMapping next = Some m ∧ s = set_mapping (Some (set_revision (next_revision (Revision m)) m)) next
     ∧ r = Some s ∧ ValidateStateV1 s = Ok tt).
Proof using Type.
  unfold change_checks. rewrite bind_unit. intros [_ H]. apply bind_ok in H as (current & Hc & H). apply wrap_ok in Hc.
  apply read_path_ok in Hc as [-> Hv]. destruct (w_file w) as [state|] eqn:Hf; [|done]. rewrite !reject_if_bind in H.
  destruct H as (He & Hu & Hx & H). go_bool. subst state. apply bind_ok in H as (next & Hn & H).
  split_and!; [done|by apply Hv|done|done|]. exists next. split; [done|]. case_bool_decide as Heq.
  - injection H as <- <-. left. by subst.
  - destruct (IdentityMapping next) as [m|] eqn:Hm; [|done]. rewrite !bind_unit in H. destruct H as (Henc & _ & _ & _ & [= <- <-]).
    right. exists m. split_and!; [by apply not_eq_sym|done|done|done|by eapply encode_ok].
Qed.
Lemma change_keeps o w expected update :
  (∀ next, w_file w = Some expected → ValidateStateV1 expected = Ok tt → update expected = Ok next → moved expected next) →
  keeps w (fst (change o w expected update)).
Proof using Type.
  intros Hu. unfold change. apply commit_keeps. intros s a (Hf & Hv & _ & Hx & next & Hn & Hc)%change_checks_ok _.
  destruct Hc as [([=] & _)|(m' & _ & Hm' & -> & [= ->] & Hvs)]. split; [done|]. intros m Hm. unfold w_mapping in Hm. rewrite Hf in Hm.
  simpl in Hm. destruct (Hu next Hf Hv Hn m Hm) as (m'' & -> & Hmoves). injection Hm' as ->. eexists. split; [done|].
  rewrite Hm in Hx. apply (moves_later expected); [by apply (valid_mapping expected)|done|done].
Qed.

Lemma change_ok o w expected update w' s : change o w expected update = (w', Ok s) →
  w_file w = Some expected ∧ ValidateStateV1 expected = Ok tt ∧ unselected expected = false
  ∧ exhausted (IdentityMapping expected) = false ∧ ∃ next, update expected = Ok next ∧
  (w' = w ∧ s = next ∧ next = expected
   ∨ ∃ m, next ≠ expected ∧ IdentityMapping next = Some m ∧ s = set_mapping (Some (set_revision (next_revision (Revision m)) m)) next
     ∧ w' = set_file s w ∧ ValidateStateV1 s = Ok tt).
Proof using Type.
  intros Hc. apply commit_ok in Hc as [[Hc ->]|(r & Hc & ->)]; apply change_checks_ok in Hc as (Hf & Hv & Hu & Hx & next & Hn & Hc).
  - split_and!; [done..|]. exists next. split; [done|]. destruct Hc as [(_ & -> & ->)|(? & _ & _ & _ & [=] & _)]. by left.
  - split_and!; [done..|]. exists next. split; [done|]. destruct Hc as [([=] & _)|(m & Hne & Hm & Hs & [= ->] & Hvs)]. right. exists m. by split_and!.
Qed.

(** ** The state file *)

(** A commit that leaves the mapping alone. *)
Lemma same_mapping_keeps {A} e w (checked : result (option StateV1 * A)) :
  (∀ s a, checked = Ok (Some s, a) → ValidateStateV1 s = Ok tt ∧ IdentityMapping s = w_mapping w) → keeps w (fst (commit e w checked)).
Proof using Type.
  intros Hc. apply commit_keeps. intros s a Hs _. destruct (Hc s a Hs) as [Hv Hm]. split; [done|].
  intros m Hw. exists m. split; [congruence|done].
Qed.
Lemma write_installed_ok e w s r a : write_installed e w s = Ok (r, a) → r = Some s ∧ ValidateStateV1 s = Ok tt.
Proof using Type.
  unfold write_installed. rewrite !bind_unit. intros (_ & He & [= <- _]). split; [done|by eapply encode_ok].
Qed.

Lemma CommitStateV1_keeps e w expected state : keeps w (fst (CommitStateV1 e w expected state)).
Proof using Type.
  apply same_mapping_keeps. intros s [] Hs. unfold commit_state_checks in Hs. apply bind_ok in Hs as (current & Hc & Hs).
  apply read_writable_ok in Hc as ->. rewrite !reject_if_bind, !bind_unit in Hs. destruct Hs as (_ & Hm & _ & _ & He & [= <-]). go_bool.
  split; [by eapply encode_ok|]. done.
Qed.
Lemma MarkInstallationReadyV1_keeps e w ready observed : keeps w (fst (MarkInstallationReadyV1 e w ready observed)).
Proof using Type.
  apply same_mapping_keeps. intros s a Hs. unfold mark_ready_checks in Hs. rewrite bind_unit, reject_if_bind in Hs.
  destruct Hs as (_ & _ & Hs). apply bind_ok in Hs as (current & Hc & Hs). apply read_writable_ok in Hc as ->.
  unfold w_mapping. destruct (w_file w) as [state|]; [|done]. destruct (state_Deployment state) as [d|]; [|done].
  rewrite reject_if_bind, bind_unit, reject_if_bind in Hs. destruct Hs as (_ & _ & _ & Hs). case_bool_decide; [done|].
  apply reject_if_bind in Hs as [_ Hs]. apply write_installed_ok in Hs as [[= ->] Hv]. by split.
Qed.
Lemma SetInstallationStateV1_keeps e w installation observed : keeps w (fst (SetInstallationStateV1 e w installation observed)).
Proof using Type.
  apply same_mapping_keeps. intros s a Hs. unfold set_installation_checks in Hs. rewrite bind_unit in Hs.
  destruct Hs as (_ & Hs). apply bind_ok in Hs as (current & Hc & Hs). apply read_writable_ok in Hc as ->.
  unfold w_mapping. destruct (w_file w) as [state|]; [|done].
  rewrite reject_if_bind, bind_unit, reject_if_bind in Hs. destruct Hs as (_ & _ & _ & Hs). cbv zeta in Hs. case_bool_decide; [done|].
  apply write_installed_ok in Hs as [[= ->] Hv]. by split.
Qed.
Lemma CommitInstalledStateV1_keeps e w expected source destination installation :
  keeps w (fst (CommitInstalledStateV1 e w expected source destination installation)).
Proof using Type.
  apply same_mapping_keeps. intros s a Hs. unfold commit_installed_checks in Hs. rewrite bind_unit in Hs. destruct Hs as (_ & Hs).
  destruct (Current source) as [g|]; [|done]. rewrite !reject_if_bind, !bind_unit in Hs.
  destruct Hs as (Hm & _ & _ & _ & _ & _ & Hs). apply bind_ok in Hs as (current & Hc & Hs). apply read_path_ok in Hc as [-> _].
  rewrite !reject_if_bind in Hs. destruct Hs as (Hw & _ & Hs). cbv zeta in Hs. case_bool_decide; [done|].
  apply write_installed_ok in Hs as [[= ->] Hv]. split; [done|]. go_bool. unfold w_mapping. simpl.
  rewrite <-eq_None_not_Some in Hm, Hw. congruence.
Qed.

Lemma revision_later s m m' : check_mapping_state s m = Ok tt → mappingDecimalV1 (Revision m) ≠ MaxUint64 → same_owner m m' → authority m' = authority m →
  Revision m' = next_revision (Revision m) → later m m'.
Proof using Type.
  intros Hv Hx Ho Ha Hr. split; [done| |by rewrite Ha]. right. rewrite Hr, (revision_up s m Hv Hx). lia.
Qed.
Lemma CommitIdentityMappingV1_keeps e w generation id revision next : keeps w (fst (CommitIdentityMappingV1 e w generation id revision next)).
Proof using Type.
  apply commit_keeps. intros s a Hs Hvalid. unfold commit_mapping_checks in Hs. apply bind_ok in Hs as (current & Hc & Hs).
  apply read_writable_ok in Hc as ->. unfold w_mapping. destruct (w_file w) as [state|] eqn:Hf; [|done].
  apply reject_if_bind in Hs as [_ Hs]. apply bind_ok in Hs as (m' & Hm' & Hs). rewrite !bind_unit in Hs.
  destruct Hs as (He & _ & [= <- <-]). split; [by eapply encode_ok|]. intros m Hm. exists m'. split; [done|]. simpl in Hm.
  rewrite Hm in Hm'. unfold next_mapping in Hm'. rewrite !reject_if_bind in Hm'. destruct Hm' as (_ & Hr & Hold & [= <-]). go_bool.
  destruct Hr as [[_ Hr] Hx]. rewrite <-Hold. apply (revision_later state); [by apply valid_mapping, Hm; apply Hvalid|lia|by split|done|].
  simpl. unfold next_revision. by rewrite Hr.
Qed.
Lemma ClearInstallationStateV1_keeps e w expected observed : keeps w (fst (ClearInstallationStateV1 e w expected observed)).
Proof using Type.
  apply commit_keeps. intros s a Hs Hvalid. unfold clear_installation_checks in Hs. rewrite bind_unit in Hs. destruct Hs as [_ Hs].
  apply bind_ok in Hs as (current & Hc & Hs). apply read_writable_ok in Hc as ->.
  unfold w_mapping. destruct (w_file w) as [state|] eqn:Hf; [|done]. destruct (state_Deployment state) as [d|]; [|done].
  rewrite !reject_if_bind, bind_unit in Hs. destruct Hs as (_ & _ & _ & Hs). apply bind_ok in Hs as (kept & Hk & Hs).
  apply write_installed_ok in Hs as [[= ->] Hv]. split; [done|]. simpl. intros m Hm. unfold RetainedStagingAfterUninstallV1 in Hk.
  apply reject_if_bind in Hk as [_ Hk]. simpl in Hk. rewrite Hm in Hk. apply bind_ok in Hk as (next & Hn & Hk).
  apply bind_unit in Hk as [_ [= ->]]. apply reject_if_bind in Hn as [Hx [= <-]]. go_bool. eexists. split; [done|].
  apply (revision_later state); [by apply valid_mapping, Hm; apply Hvalid|lia|by split|done|done].
Qed.

(** ** Operations *)

Lemma UpgradeNativeMapping_keeps o w expected : keeps w (fst (UpgradeNativeMapping o w expected)).
Proof using Type. apply change_keeps. intros next _. by apply upgrade_moves. Qed.

Lemma validated g r : wf_geometry g → ValidateGeometry port_sort g = Ok r → valid_geometry r ∧ canonical_geometry r.
Proof using Hsort.
  intros Hw Hr. assert (H := validate_run port_sort g Hsort Hw). rewrite Hr in H. destruct H as (Hv & Hc & Hs).
  split; [by eapply valid_normal|done].
Qed.
Lemma Configure_keeps o w expected g id : wf_geometry g → keeps w (fst (Configure o w expected g id)).
Proof using Hsort.
  intros Hw. unfold Configure. destruct (_ ≫= _) as [[r operator]|] eqn:Hc; [|by apply keeps_refl].
  apply reject_if_bind in Hc as [_ Hc]. apply bind_ok in Hc as (r' & Hr & Hc). apply bind_ok in Hc as ([? ?] & _ & [= -> ->]).
  destruct (validated _ _ Hw Hr). apply change_keeps. intros next _ _. by apply configure_moves.
Qed.
Lemma PrepareNativeExecution_keeps o w expected g id native :
  wf_geometry g → keeps w (fst (PrepareNativeExecution o w expected g id native)).
Proof using Hsort.
  intros Hw. unfold PrepareNativeExecution. destruct (_ ≫= _) as [[r plan]|] eqn:Hc; [|by apply keeps_refl].
  apply reject_if_bind in Hc as [_ Hc]. apply bind_ok in Hc as (r' & Hr & Hc). apply bind_ok in Hc as (? & _ & [= -> ->]).
  destruct (validated _ _ Hw Hr). apply change_keeps. intros next _ _. by apply prepare_moves.
Qed.
Lemma BeginEffects_keeps o w expected id : keeps w (fst (BeginEffects o w expected id)).
Proof using Type.
  unfold BeginEffects. destruct (checkPending o w expected id); [|by apply keeps_refl]. apply change_keeps. intros next _ _. by apply begin_moves.
Qed.

Lemma check_pending_ok o w s id : checkPending o w s id = Ok tt → ∃ m p, IdentityMapping s = Some m ∧ PendingOperation m = Some p
  ∧ wrong_pending s m p id = false ∧ (op_Kind p = "configure" ∨ op_Kind p = "native-execute")
  ∧ (op_Kind p = "native-execute" → op_Native p ≠ None).
Proof using Type.
  unfold checkPending. destruct (IdentityMapping s) as [m|]; [|done]. destruct (PendingOperation m) as [p|] eqn:Hp; [|done].
  intros [Hw Hc]%reject_if_bind. exists m, p. split_and!; [done|done|done| |].
  - unfold wrong_pending in Hw. go_bool. destruct Hw as [[[[Hk _] _] _] _]. tauto.
  - intros Hk. rewrite bool_decide_true in Hc by done. apply reject_if_bind in Hc as [Hn _]. by go_bool.
Qed.

(** A native operation is never at the phase of a configuration. *)
Lemma native_phase s m p : check_mapping_state s m = Ok tt → PendingOperation m = Some p → op_Kind p = "native-execute" → op_Phase p ≠ "verified".
Proof using Type.
  intros Hv Hp Hk. apply mapping_parts in Hv as (_ & _ & _ & Hn & _). unfold validateNativeMappingStateV1 in Hn. rewrite Hp in Hn.
  case_bool_decide.
  - apply reject_if_ok in Hn. go_bool. tauto.
  - destruct (AcceptedUIDs m) as [[uids|]|]; [|done..]. destruct (AcceptedGIDs m) as [[gids|]|]; [|done..].
    rewrite !reject_if_bind, bind_unit in Hn. destruct Hn as (_ & _ & _ & Hn). unfold check_native_operation in Hn.
    destruct (op_Native p); [|apply reject_if_ok in Hn; go_bool; congruence]. apply reject_if_bind in Hn as [Hn _]. go_bool. tauto.
Qed.
Lemma native_settles s m p : check_mapping_state s m = Ok tt → PendingOperation m = Some p → op_Kind p = "native-execute" →
  op_Phase p ≠ "intent" → settles (op_Kind p) (op_Phase p).
Proof using Type.
  intros Hv Hp Hk Hph. right. split; [done|]. assert (Hn := native_phase _ _ _ Hv Hp Hk).
  apply mapping_parts in Hv as (_ & _ & Hc & _). destruct (check_phase m p (Hc p Hp)) as [?|[?|[?|[_ ?]]]]; [done|by left|done|by right].
Qed.

Lemma verified_pending ev o w expected w' verified : change o w expected (verify_update ev) = (w', Ok verified) →
  ∀ m p m' p', IdentityMapping expected = Some m → PendingOperation m = Some p → IdentityMapping verified = Some m' →
    PendingOperation m' = Some p' → op_Kind p' = op_Kind p ∧ op_Phase p' = "verified".
Proof using Type.
  intros (_ & _ & _ & _ & next & Hn & Hc)%change_ok m p m' p' Hm Hp Hm' Hp'. unfold verify_update in Hn.
  apply with_pending_ok in Hn as (m1 & p1 & m2 & Hm1 & Hp1 & Hf & ->). apply bind_unit in Hf as [_ [= <-]]. simplify_eq.
  destruct Hc as [(_ & -> & _)|(m3 & _ & Hm3 & -> & _ & _)]; simpl in *; simplify_eq; simpl in *; by simplify_eq.
Qed.
Lemma Recover_keeps o o' w expected id cancel : keeps w (fst (Recover o o' w expected id cancel)).
Proof using Hsort.
  unfold Recover. destruct (_ ≫= _) as [ev|] eqn:Hc; [|by apply keeps_refl]. apply bind_unit in Hc as [Hpend _].
  apply check_pending_ok in Hpend as (m & p & Hm & Hp & _ & Hk & _). destruct cancel.
  { apply change_keeps. intros next _ _. by apply cancel_moves. }
  rewrite Hm. simpl. rewrite Hp. case_bool_decide as Hph; [by apply keeps_refl|]. case_bool_decide as Hkind.
  - apply change_keeps. intros next _ Hv Hn. eapply native_update_moves; [done|done|done|]. intros m' p' Hm' Hp'. simplify_eq.
    eapply native_settles; [by eapply valid_mapping|done..].
  - destruct Hk as [Hk|]; [|done].
    assert (keeps w (fst (change o w expected (verify_update ev)))) as Hw1.
    { apply change_keeps. intros next _ Hv Hn. eapply verify_moves; [done|]. intros m' p' Hm' Hp'. simplify_eq. split_and!; [|done|done].
      apply (valid_mapping _ _ Hv) in Hm as (_ & _ & Hop & _)%mapping_parts. by apply Hop. }
    destruct (change o w expected (verify_update ev)) as [w1 [verified|message]] eqn:Hch; [|done].
    eapply keeps_trans; [exact Hw1|]. apply change_keeps. intros next _ Hv Hn. eapply settle_update_moves; [done|done|done|].
    intros m' p' Hm' Hp'. left. destruct (verified_pending ev _ _ _ _ _ Hch m p m' p' Hm Hp Hm' Hp') as [-> ->]. done.
Qed.

(** What authenticates a plan. *)
Lemma native_plan_ok o w s g native plan : nativePlan o w s g native = Ok plan → ∃ m generation lock policy,
  IdentityMapping s = Some m ∧ Current s = Some generation ∧ m_Schema m = IdentityMappingStateSchemaV2
  ∧ pending_build o = Ok false ∧ read_build_lock o (gen_BuildLockDigest generation) = Ok (Some lock)
  ∧ build_IdentityPolicy lock = Some policy ∧ (∃ hosted, check_mapping_candidate o w s g = Ok hosted)
  ∧ PlanIdentityExecutionV1 port_sha256 port_sort
      (ExecutionInput (gen_BuildLockDigest generation) (Some policy) g (protected_geometry m) (acceptedGeometry m)
         (elems (native_RuntimeUsers native)) (elems (native_RuntimeGroups native))) = Ok plan.
Proof using Type.
  unfold nativePlan, prefixed. destruct (native_plan o w s g native) as [plan'|] eqn:Hp; [|done]. intros [= ->].
  unfold native_plan in Hp. apply bind_unit in Hp as [_ Hp]. destruct (IdentityMapping s) as [m|]; [|done].
  destruct (Current s) as [generation|]; [|done]. rewrite reject_if_bind, bind_unit in Hp. destruct Hp as (Hs & _ & Hp).
  apply bind_ok in Hp as (pending & Hpb & Hp). apply reject_if_bind in Hp as [-> Hp]. apply bind_ok in Hp as (lock & Hl & Hp).
  destruct lock as [lock|]; [|done]. apply bind_ok in Hp as (digest & _ & Hp). apply reject_if_bind in Hp as [_ Hp].
  apply bind_ok in Hp as (document & _ & Hp). destruct (build_IdentityPolicy lock) as [policy|] eqn:Hpol; [|done].
  apply reject_if_bind in Hp as [_ Hp]. apply bind_ok in Hp as (hosted & Hh & Hp). apply wrap_ok in Hpb, Hl. go_bool. destruct Hs as [Hs _].
  exists m, generation, lock, policy. split_and!; [done|done|done|done|done|done|by eexists|done].
Qed.

(** What an admission rests on. *)
Record admissible_now (o : Outside) (w : World) (expected : StateV1) (id : string) (m : IdentityMappingStateV1)
    (p : IdentityMappingOperationV1) (native : NativeIdentityOperationV1) (plan : IdentityExecutionPlanV1) : Prop := {
  now_file : w_file w = Some expected;
  now_mapping : IdentityMapping expected = Some m;
  now_pending : PendingOperation m = Some p;
  now_native : op_Native p = Some native;
  now_id : OperationID p = id;
  now_kind : op_Kind p = "native-execute";
  now_phase : op_Phase p = "effects-pending";
  now_generation : ExpectedGeneration p = Current expected ∧ Current expected ≠ None;
  now_plan : nativePlan o w expected (numeric (op_Candidate p)) native = Ok plan;
  now_active : sameExecutionGeometryV1 (Active plan) (numeric (native_Active native)) = true
}.
Lemma status_file o w st : Status o w = Ok st → w_file w = Some (status_State st).
Proof using Type.
  unfold Status. intros (current & Hr & H)%bind_ok. apply wrap_ok in Hr. unfold ReadStateV1 in Hr. apply bind_unit in Hr as [_ Hr].
  apply read_path_ok in Hr as [-> _]. destruct (w_file w) as [state|]; [|done]. apply reject_if_bind in H as [_ H].
  destruct (IdentityMapping state) as [m|].
  - apply bind_ok in H as ([? ?] & _ & [= <-]). done.
  - apply bind_ok in H as (document & _ & [= <-]). done.
Qed.
Lemma observe_ok o w expected active id s : ObserveEffects o w expected active id = Ok s →
  s = expected ∧ w_file w = Some expected ∧ Current expected ≠ None
  ∧ ∃ p, pending_of (IdentityMapping expected) = Some p ∧ op_Phase p = "effects-pending" ∧ checkPending o w expected id = Ok tt.
Proof using Type.
  unfold ObserveEffects. rewrite bind_unit. intros [_ H]. apply bind_ok in H as (st & Hs & H). apply wrap_ok, status_file in Hs.
  apply reject_if_bind in H as [He H]. go_bool. rewrite He in *. destruct (pending_of (IdentityMapping expected)) as [p|] eqn:Hp; [|done].
  apply reject_if_bind in H as [Hph H]. go_bool. destruct Hph as [Hcur Hph]. apply bind_ok in H as (canonical & _ & H).
  rewrite reject_if_bind, !bind_unit in H. destruct H as (_ & Hc & _ & [= <-]). split_and!; [done|done|done|]. by exists p.
Qed.
Lemma admit_checks o w expected id p native plan s :
  pending_of (IdentityMapping expected) = Some p → op_Native p = Some native → op_Kind p = "native-execute" →
  ObserveEffects o w expected (numeric (native_Active native)) id = Ok s → checkNativePending o w expected = Ok plan →
  ∃ m, admissible_now o w expected id m p native plan.
Proof using Type.
  intros Hp Hn Hk (_ & Hf & Hcur & q & Hq & Hph & Hc)%observe_ok Hplan. rewrite Hp in Hq. injection Hq as <-.
  apply check_pending_ok in Hc as (m & q & Hm & Hq & Hw & _). exists m. rewrite Hm in Hp. simpl in Hp. rewrite Hp in Hq. injection Hq as <-.
  unfold wrong_pending in Hw. go_bool. destruct Hw as [[[[_ Hid] Hgen] _] _].
  unfold checkNativePending in Hplan. rewrite Hm in Hplan. simpl in Hplan. rewrite Hp, Hn in Hplan.
  apply bind_ok in Hplan as (plan' & Hplan & Hsame). apply reject_if_bind in Hsame as [Hsame [= ->]]. go_bool. by split.
Qed.

(** The plan behind an admission. *)
Lemma admission_plan o w expected id m p native plan : admissible_now o w expected id m p native plan →
  ∃ lock input, input_Policy input = Some lock ∧ admission_input m p input ∧ PlanIdentityExecutionV1 port_sha256 port_sort input = Ok plan
  ∧ plannable port_sha256 lock input ∧ plans (lock_Policy lock) input plan.
Proof using Hsort.
  intros [_ Hm _ _ _ _ _ _ Hplan _]. apply native_plan_ok in Hplan as (m' & generation & lock & policy & Hm' & _ & _ & _ & _ & _ & _ & Hplan).
  rewrite Hm in Hm'. injection Hm' as <-. match type of Hplan with PlanIdentityExecutionV1 _ _ ?i = _ => set (input := i) in * end.
  exists policy, input. split; [done|]. split; [by split_and!|]. split; [done|].
  assert (Hrun := execution_plan_run port_sha256 port_sort Hsort policy input (wf_numeric _) (wf_protected m) (wf_accepted m) eq_refl).
  by rewrite Hplan in Hrun.
Qed.

Lemma AdmitNativeExecution_keeps o w expected id : keeps w (fst (AdmitNativeExecution o w expected id)).
Proof using Hsort.
  unfold AdmitNativeExecution. destruct (pending_of (IdentityMapping expected)) as [p|] eqn:Hp; [|by apply keeps_refl].
  destruct (op_Native p) as [native|] eqn:Hn; [|by apply keeps_refl]. destruct (_ ≫= _) as [plan|] eqn:Hc; [|by apply keeps_refl].
  apply reject_if_bind in Hc as [Hk Hc]. apply bind_ok in Hc as (s & Ho & Hc). go_bool.
  destruct (admit_checks _ _ _ _ _ _ _ _ Hp Hn Hk Ho Hc) as [m Hnow]. apply change_keeps. intros next Hf Hv Hu m' Hm'.
  rewrite (now_mapping _ _ _ _ _ _ _ _ Hnow) in Hm'. injection Hm' as <-. unfold admit_update in Hu. apply with_pending_ok in Hu as (m1 & p1 & m2 & Hm1 & Hp1 & Hf1 & ->).
  rewrite (now_mapping _ _ _ _ _ _ _ _ Hnow) in Hm1. injection Hm1 as <-. rewrite (now_pending _ _ _ _ _ _ _ _ Hnow) in Hp1. injection Hp1 as <-.
  apply with_evidence_ok in Hf1 as (ev & _ & Hf1). apply bind_unit in Hf1 as [_ Hf1]. rewrite Hn in Hf1. injection Hf1 as <-.
  eexists. split; [done|]. destruct (admission_plan _ _ _ _ _ _ _ _ Hnow) as (lock & input & _ & Hi & _ & _ & Hplans).
  eapply admit_moves; [eapply valid_mapping; [exact Hv|apply Hnow]|apply Hnow|done|apply Hnow|done|done].
Qed.

(** ** Steps *)

(** The commits of the state file by installation, by generations and by the mapping
    operations, whatever they are called with and whatever they meet outside.  The
    terminal removal and the recovery of a legacy state, which refuse a retained
    mapping, are no steps. *)
Inductive mapping_step (w : World) : World → Prop :=
  | do_locks locks : mapping_step w (MkWorld locks (w_file w))
  | do_commit_state e expected state : mapping_step w (fst (CommitStateV1 e w expected state))
  | do_commit_mapping e generation id revision next : mapping_step w (fst (CommitIdentityMappingV1 e w generation id revision next))
  | do_mark_ready e ready observed : mapping_step w (fst (MarkInstallationReadyV1 e w ready observed))
  | do_set_installation e installation observed : mapping_step w (fst (SetInstallationStateV1 e w installation observed))
  | do_clear_installation e expected observed : mapping_step w (fst (ClearInstallationStateV1 e w expected observed))
  | do_commit_installed e expected source destination installation :
    mapping_step w (fst (CommitInstalledStateV1 e w expected source destination installation))
  | do_configure o expected g id : wf_geometry g → mapping_step w (fst (Configure o w expected g id))
  | do_begin o expected id : mapping_step w (fst (BeginEffects o w expected id))
  | do_recover o o' expected id cancel : mapping_step w (fst (Recover o o' w expected id cancel))
  | do_upgrade o expected : mapping_step w (fst (UpgradeNativeMapping o w expected))
  | do_prepare o expected g id native : wf_geometry g → mapping_step w (fst (PrepareNativeExecution o w expected g id native))
  | do_admit o expected id : mapping_step w (fst (AdmitNativeExecution o w expected id)).

Lemma step_keeps w w' : mapping_step w w' → keeps w w'.
Proof using Hsort.
  destruct 1.
  - intros Hv. split; [done|]. intros m Hm. by exists m.
  - apply CommitStateV1_keeps.
  - apply CommitIdentityMappingV1_keeps.
  - apply MarkInstallationReadyV1_keeps.
  - apply SetInstallationStateV1_keeps.
  - apply ClearInstallationStateV1_keeps.
  - apply CommitInstalledStateV1_keeps.
  - by apply Configure_keeps.
  - apply BeginEffects_keeps.
  - apply Recover_keeps.
  - apply UpgradeNativeMapping_keeps.
  - by apply PrepareNativeExecution_keeps.
  - apply AdmitNativeExecution_keeps.
Qed.
Lemma steps_keep w w' : rtc mapping_step w w' → keeps w w'.
Proof using Hsort.
  induction 1 as [w|w1 w2 w3 Hs _ IH]; [by apply keeps_refl|]. eapply keeps_trans; [by apply step_keeps|done].
Qed.

(** What the steps of the abstract machine keep. *)
Definition wider (a a' : bindings) : Prop := ∀ kind c h, a kind c h → a' kind c h.
Lemma authority_grows a a' : rtc authority_step a a' → wider (a_reserved a) (a_reserved a') ∧ wider (a_accepted a) (a_accepted a').
Proof using Type.
  induction 1 as [a|a1 a2 a3 Hs _ [IH1 IH2]]; [by split; intros k c h|].
  assert (wider (a_reserved a1) (a_reserved a2) ∧ wider (a_accepted a1) (a_accepted a2)) as [H1 H2].
  { destruct Hs as [| | | |kind phase g reserved _ _ Hw|g reserved accepted admission _ Hw Ha _]; try (by split; intros ??? Hx).
    - split; [|by intros ??? Hx]. intros k c h Hx. apply Hw. by left.
    - split; [|exact Ha]. intros k c h Hx. apply Hw. by left. }
  split; intros k c h Hx; [by apply IH1, H1|by apply IH2, H2].
Qed.
End steps.
