(* ===== verification/MappingProps.v ===== *)
(** * What the mapping operations guarantee

    The authority that a deployment records about its identity mapping only moves
    along the steps of the abstract machine and is never dropped; an admission is
    authenticated, commits its plan and is granted once. *)

From Stdlib Require Import Ascii.
From S2P Require Import Prelude GoText Identifiers Yaml LiveRunStore Geometry GeometryFacts HostCheck Canonical CanonicalReading Platform IdentityPolicy IdentityPolicyFacts ImageIdentity ExecutionPlan ExecutionPlanFacts ExecutionPlanProps MappingState MappingStore MappingOperations MappingFacts MappingSteps.

Open Scope Z_scope.

(** ** A sample *)

#[local] Instance sample_ports : MappingPorts := {|
  RequestOverlayV1 := unit;
  check_overlay := λ _, Ok tt;
  Document := unit;
  DecodeResolvedDocumentV1 := λ payload, if bool_decide (payload = "") then Err "resolved blueprint is required" else Ok tt;
  document_platforms := λ _, [sample_platform];
  document_policy := λ _, Some sample_policy;
  document_mapping := λ _, true;
  port_sha256 := first_32_bytes;
  port_sort := sort_intervals
|}.
Lemma sample_ports_sorts : sorts (@port_sort sample_ports).
Proof. exact sort_intervals_sorts. Qed.

Definition sample_generation : EnvironmentGenerationState :=
  Generation "environment" sample_hash sample_hash sample_hash sample_platform sample_hash.
Definition sample_state : StateV1 :=
  State "state-v1" "document" "blueprint.yaml" sample_platform tt (Some sample_generation) (Some (Staging "staging-v1")) None false None.
Definition sample_world : World := MkWorld (MkStore true "/srv/app" "" "" "" (Ok "") None ∅) (Some sample_state).
Definition sample_effects : Effects := MkEffects Ok (Ok "mapping-1") (λ _, true) id Written.
Definition sample_build_lock : BuildLock :=
  MkBuildLock (match ResolvedDocumentDigestV1 "document" with Ok d => d | Err _ => "" end) sample_image sample_platform sample_hash (Some sample_lock).
Definition sample_outside : Outside :=
  MkOutside sample_effects (Ok tt) (Ok tt) (Ok tt) (Ok tt) (λ _ _ _, Ok (MkHostIdentity "op" 1000 1000))
    (Some (MkEvidence (λ _ _, Ok ["container-1"]) (λ _, Ok tt) (λ _, Ok tt))) true (Ok false) (λ _, Ok (Some sample_build_lock)).

Definition state_of (w : World) : StateV1 := default sample_state (w_file w).
Definition sample_native_candidate : Geometry :=
  MkGeometry "exact" [MkInterval 0 100000 1; MkInterval 1000 101000 1] (GIDs sample_mapping).
Definition sample_native : NativeIdentityOperationV1 := Native (WireGeometry "" None None) "engine" "process" (Some ["app"]) None.
(** A mapping is configured and has its effects; then a native execution is prepared. *)
Definition after_configure : World := fst (Configure sample_outside sample_world (state_of sample_world) sample_mapping "configure-1").
Definition after_effects : World := fst (BeginEffects sample_outside after_configure (state_of after_configure) "configure-1").
Definition after_recover : World :=
  fst (Recover sample_outside sample_outside after_effects (state_of after_effects) "configure-1" false).
Definition after_upgrade : World := fst (UpgradeNativeMapping sample_outside after_recover (state_of after_recover)).
Definition after_prepare : World :=
  fst (PrepareNativeExecution sample_outside after_upgrade (state_of after_upgrade) sample_native_candidate "native-1" sample_native).
Definition before_admission : World := fst (BeginEffects sample_outside after_prepare (state_of after_prepare) "native-1").
Definition after_admission : World := fst (AdmitNativeExecution sample_outside before_admission (state_of before_admission) "native-1").

Lemma file_valid_iff w : file_valid w ↔ match w_file w with Some s => ValidateStateV1 s = Ok tt | None => True end.
Proof. unfold file_valid. destruct (w_file w) as [s|]; [|done]. split; [by intros H; apply H|]. by intros H ? [= <-]. Qed.
Lemma before_admission_valid : file_valid before_admission.
Proof. apply file_valid_iff. vm_compute. reflexivity. Qed.
Lemma after_configure_valid : file_valid after_configure.
Proof. apply file_valid_iff. vm_compute. reflexivity. Qed.
Definition mapping_or (w : World) : IdentityMappingStateV1 :=
  default (MappingState "" "" "" None "" "" "" "" None None None None None None None None false None "" None None None) (w_mapping w).
Lemma sample_admission :
  AdmitNativeExecution sample_outside before_admission (state_of before_admission) "native-1" = (after_admission, Ok (state_of after_admission)).
Proof. vm_compute. reflexivity. Qed.
Lemma sample_candidate_wf : wf_geometry sample_native_candidate.
Proof. wf_sample. Qed.

Lemma sample_mapping_run : rtc mapping_step after_configure after_admission.
Proof.
  apply rtc_l with after_effects; [exact (do_begin after_configure sample_outside (state_of after_configure) "configure-1")|].
  apply rtc_l with after_recover; [exact (do_recover after_effects sample_outside sample_outside (state_of after_effects) "configure-1" false)|].
  apply rtc_l with after_upgrade; [exact (do_upgrade after_recover sample_outside (state_of after_recover))|].
  apply rtc_l with after_prepare.
  { exact (do_prepare after_upgrade sample_outside (state_of after_upgrade) sample_native_candidate "native-1" sample_native sample_candidate_wf). }
  apply rtc_l with before_admission; [exact (do_begin after_prepare sample_outside (state_of after_prepare) "native-1")|].
  apply rtc_once. exact (do_admit before_admission sample_outside (state_of before_admission) "native-1").
Qed.

(** ** The refinement *)

Section properties.
Context {ports : MappingPorts} (Hsort : sorts port_sort).

(** C5: every operation on the state file, with any arguments and whatever fails around
    it, keeps a valid file valid and keeps the mapping in it, of the same owner and
    with a revision that stays or grows; what the mapping authorises moves only by
    steps of the abstract machine: an intent, the start of its effects, the
    cancellation of an intent, the verification and the settlement of effects, and the
    admission of an execution, which are the only two that protect a candidate. *)
Theorem authority_refinement w w' m :
  file_valid w → mapping_step w w' → w_mapping w = Some m →
  file_valid w' ∧ ∃ m', w_mapping w' = Some m' ∧ same_owner m m'
  ∧ (m' = m ∨ mappingDecimalV1 (Revision m) < mappingDecimalV1 (Revision m'))
  ∧ rtc authority_step (authority m) (authority m').
Proof using Hsort.
  intros Hv Hs Hm. destruct (step_keeps Hsort w w' Hs Hv) as [Hv' Hk]. split; [done|].
  destruct (Hk m Hm) as (m' & Hm' & [Ho Hr Ha]). by exists m'.
Qed.

(** C6: over any sequence of operations, completed or failed, a mapping that a state
    file holds is never dropped and never changes its owner, and no identity that it
    reserved, or that an execution was admitted with, is ever released or bound to
    another identity of the host. *)
Theorem authority_never_shrinks w w' m :
  file_valid w → rtc mapping_step w w' → w_mapping w = Some m →
  ∃ m', w_mapping w' = Some m' ∧ same_owner m m'
  ∧ ∀ kind c h, (gmaps kind (numeric (geometry m)) c h → gmaps kind (numeric (geometry m')) c h)
    ∧ (opt_maps kind (acceptedGeometry m) c h → opt_maps kind (acceptedGeometry m') c h).
Proof using Hsort.
  intros Hv Hs Hm. destruct (steps_keep Hsort w w' Hs Hv) as [_ Hk]. destruct (Hk m Hm) as (m' & Hm' & [Ho _ Ha]).
  apply authority_grows in Ha as [Hr Hacc]. exists m'. split_and!; [done|done|]. intros kind c h. split; [apply (Hr kind)|apply (Hacc kind)].
Qed.

(** ** Admissions *)

(** What a committed admission leaves: the candidate is reserved, what the policy uses
    of it is accepted, and what was reserved or accepted stays so. *)
Definition admission_committed (o : Outside) (w : World) (expected : StateV1) (id : string) (w' : World) (s : StateV1) : Prop :=
  ∃ m p native plan ev policy input,
    admissible_now o w expected id m p native plan
    ∧ evidence o = Some ev ∧ Verify ev expected = Ok tt
    ∧ admission_input m p input ∧ PlanIdentityExecutionV1 port_sha256 port_sort input = Ok plan ∧ plannable port_sha256 policy input
    ∧ w' = set_file s w ∧ ValidateStateV1 s = Ok tt
    ∧ let m' := set_revision (next_revision (Revision m)) (admit_plan plan m p native) in
      s = set_mapping (Some m') expected
      ∧ ∀ kind c h,
        (gmaps kind (numeric (geometry m')) c h ↔ gmaps kind (numeric (op_Candidate p)) c h ∨ gmaps kind (numeric (geometry m)) c h)
        ∧ (opt_maps kind (acceptedGeometry m') c h ↔
            in_use (lock_Policy policy) (numeric (op_Candidate p)) kind c h ∨ opt_maps kind (acceptedGeometry m) c h).

Lemma admit_committed o w expected id w' s : AdmitNativeExecution o w expected id = (w', Ok s) → admission_committed o w expected id w' s.
Proof using Hsort.
  unfold AdmitNativeExecution. destruct (pending_of (IdentityMapping expected)) as [p|] eqn:Hp; [|done].
  destruct (op_Native p) as [native|] eqn:Hn; [|done]. destruct (_ ≫= _) as [plan|] eqn:Hc; [|done].
  apply reject_if_bind in Hc as [Hk Hc]. apply bind_ok in Hc as (? & Ho & Hc). go_bool.
  destruct (admit_checks _ _ _ _ _ _ _ _ Hp Hn Hk Ho Hc) as [m Hnow]. clear Ho Hc Hp.
  intros (_ & Hv & _ & _ & next & Hu & Hch)%change_ok. assert (Hnow' := Hnow). destruct Hnow' as [Hf Hm Hp Hn' Hid Hk' Hph Hgen Hplan Hact].
  unfold admit_update in Hu. apply with_pending_ok in Hu as (m1 & p1 & m2 & Hm1 & Hp1 & Hf1 & ->).
  rewrite Hm in Hm1. injection Hm1 as <-. rewrite Hp in Hp1. injection Hp1 as <-.
  apply with_evidence_ok in Hf1 as (ev & Hev & Hf1). apply bind_ok in Hf1 as ([] & Hver%wrap_ok & Hf1).
  rewrite Hn in Hf1. injection Hf1 as <-.
  destruct (admission_plan Hsort _ _ _ _ _ _ _ _ Hnow) as (policy & input & _ & Hi & Hrun & Hpl & Hplans).
  destruct Hch as [(_ & _ & Hsame)|(m' & _ & Hm' & -> & -> & Hvs)].
  { exfalso. assert (Hsame' := f_equal IdentityMapping Hsame). simpl in Hsame'. rewrite Hm in Hsame'. injection Hsame' as Hsame'.
    assert (Hp' := f_equal PendingOperation Hsame'). rewrite Hp in Hp'. injection Hp' as Hp'. apply (f_equal op_Phase) in Hp'.
    rewrite Hph in Hp'. done. }
  injection Hm' as <-. exists m, p, native, plan, ev, policy, input. split_and!; try done.
  destruct (admit_maps expected m p native (lock_Policy policy) input plan (valid_mapping _ _ Hv Hm) Hi Hplans) as [_ Hmaps]. intros m'. split; [done|exact Hmaps].
Qed.
Lemma admit_refused o w s id : w_file w = Some s →
  (∀ p, pending_of (IdentityMapping s) = Some p → op_Phase p ≠ "effects-pending") →
  ∀ expected, ∃ message, AdmitNativeExecution o w expected id = (w, Err message).
Proof using Type.
  intros Hf Hph expected. unfold AdmitNativeExecution. destruct (pending_of (IdentityMapping expected)) as [p|] eqn:Hp; [|by eexists].
  destruct (op_Native p) as [native|]; [|by eexists]. destruct (_ ≫= _) as [plan|message] eqn:Hc; [|by eexists].
  exfalso. apply reject_if_bind in Hc as [_ Hc]. apply bind_ok in Hc as (? & Ho & _). apply observe_ok in Ho as (_ & Hf' & _ & q & Hq & Hphq & _).
  rewrite Hf in Hf'. injection Hf' as <-. by apply (Hph q).
Qed.

(** C7: an admission that succeeds was asked for the state that the file holds, whose
    pending native operation of that name had its effects started for the current
    generation and verified; the operation's active map is the one that the immutable
    build lock's policy plans for its candidate. The file then holds the state with
    the plan admitted under the next revision: its reservations are the old ones with
    the candidate, and what is accepted is what was with the identities that the policy
    uses of the candidate. No second admission succeeds on that file, whatever it is
    called with and whatever it meets outside. *)
Theorem AdmitNativeExecution_spec o w expected id w' s :
  AdmitNativeExecution o w expected id = (w', Ok s) →
  admission_committed o w expected id w' s
  ∧ ∀ o2 expected2 id2, ∃ message, AdmitNativeExecution o2 w' expected2 id2 = (w', Err message).
Proof using Hsort.
  intros Ha%admit_committed. split; [done|]. intros o2 expected2 id2.
  destruct Ha as (m & p & native & plan & ev & policy & input & _ & _ & _ & _ & _ & _ & -> & _ & -> & _).
  eapply admit_refused; [done|]. by intros q [= <-].
Qed.

(** C9: a change that was decided for another state than the one the file holds, or
    on a deployment that is being removed, a mapping that was revoked or whose
    revision is exhausted, writes nothing and fails. *)
Theorem stale_changes_refused o w expected id candidate native cancel o' :
  w_file w ≠ Some expected ∨ unselected expected = true ∨ exhausted (IdentityMapping expected) = true →
  ∀ change, change ∈ [Configure o w expected candidate id; BeginEffects o w expected id; Recover o o' w expected id cancel;
    UpgradeNativeMapping o w expected; PrepareNativeExecution o w expected candidate id native; AdmitNativeExecution o w expected id] →
  fst change = w ∧ ∃ message, snd change = Err message.
Proof using Type.
  intros Hbad.
  assert (∀ o2 update, fst (change o2 w expected update) = w ∧ ∃ message, snd (change o2 w expected update) = Err message) as Hrefused.
  { intros o2 update. unfold change. destruct (change_checks o2 w expected update) as [[r s]|message] eqn:Hc; [|by eauto].
    apply change_checks_ok in Hc as (Hf & _ & Hu & Hx & _). exfalso. destruct Hbad as [?|[?|?]]; congruence. }
  assert (∀ message : string, fst (w, Err message : result StateV1) = w ∧ ∃ message', snd (w, Err message : result StateV1) = Err message') as Herr by eauto.
  intros ? Hin. rewrite !elem_of_cons, elem_of_nil in Hin. destruct Hin as [->|[->|[->|[->|[->|[->|[]]]]]]].
  - unfold Configure. destruct (_ ≫= _) as [[g operator]|]; first [apply Herr|apply Hrefused].
  - unfold BeginEffects. destruct (checkPending _ _ _ _); first [apply Herr|apply Hrefused].
  - unfold Recover. destruct (_ ≫= _) as [ev|]; [|apply Herr]. destruct cancel; [apply Hrefused|]. destruct (pending_of _) as [p|]; [|apply Herr].
    repeat case_bool_decide; [apply Herr|apply Hrefused|]. destruct (Hrefused o (verify_update ev)) as [H1 [message H2]].
    destruct (change o w expected (verify_update ev)) as [w1 r]. simpl in *. subst. apply Herr.
  - apply Hrefused.
  - unfold PrepareNativeExecution. destruct (_ ≫= _) as [[g plan]|]; first [apply Herr|apply Hrefused].
  - unfold AdmitNativeExecution. destruct (pending_of _) as [p|]; [|apply Herr]. destruct (op_Native p); [|apply Herr].
    destruct (_ ≫= _); first [apply Herr|apply Hrefused].
Qed.

(** C8: in a valid state, a native mapping that was ever admitted accounts for it:
    what is accepted is valid and reserved; what is dormant was accepted; the active
    map, the accepted one less the dormant, is valid; the generation, the engine and
    the process of the admission are recorded; and while its release is attempted they
    are those of the pending operation, with the active map that it planned. *)
Theorem mapping_provenance s m a :
  ValidateStateV1 s = Ok tt → IdentityMapping s = Some m → m_Schema m = IdentityMappingStateSchemaV2 → acceptedGeometry m = Some a →
  provenance m a.
Proof using Hsort. intros Hv Hm. apply (valid_provenance Hsort s m a (valid_mapping s m Hv Hm)). Qed.
End properties.

(** ** Witnesses *)

Lemma authority_refinement_witness : ∃ m',
  w_mapping after_admission = Some m' ∧ rtc authority_step (authority (mapping_or before_admission)) (authority m').
Proof.
  destruct (authority_refinement sample_ports_sorts before_admission after_admission (mapping_or before_admission)) as (_ & m' & Hm' & _ & _ & Ha).
  - exact before_admission_valid.
  - exact (do_admit before_admission sample_outside (state_of before_admission) "native-1").
  - vm_compute. reflexivity.
  - exists m'. split; [exact Hm'|exact Ha].
Defined.
Lemma authority_never_shrinks_witness : ∃ m', w_mapping after_admission = Some m'
  ∧ same_owner (mapping_or after_configure) m'.
Proof.
  destruct (authority_never_shrinks sample_ports_sorts after_configure after_admission (mapping_or after_configure)) as (m' & Hm' & Ho & _).
  - exact after_configure_valid.
  - exact sample_mapping_run.
  - vm_compute. reflexivity.
  - exists m'. split; [exact Hm'|exact Ho].
Defined.
Lemma AdmitNativeExecution_spec_witness : ∃ message,
  AdmitNativeExecution sample_outside after_admission (state_of after_admission) "native-1" = (after_admission, Err message).
Proof.
  destruct (AdmitNativeExecution_spec sample_ports_sorts sample_outside before_admission (state_of before_admission) "native-1"
    after_admission (state_of after_admission) sample_admission) as [_ H].
  apply H.
Defined.
Lemma stale_changes_refused_witness : ∃ message,
  snd (UpgradeNativeMapping sample_outside after_configure (state_of sample_world)) = Err message.
Proof.
  destruct (stale_changes_refused sample_outside after_configure (state_of sample_world) "native-1" sample_native_candidate sample_native false
    sample_outside) with (change := UpgradeNativeMapping sample_outside after_configure (state_of sample_world)) as [_ H].
  - left. vm_compute. discriminate.
  - rewrite !elem_of_cons. right. right. right. left. reflexivity.
  - exact H.
Defined.
Lemma mapping_provenance_witness : ∃ a, acceptedGeometry (mapping_or after_admission) = Some a
  ∧ provenance (mapping_or after_admission) a.
Proof.
  eexists. split; [vm_compute; reflexivity|].
  apply (mapping_provenance sample_ports_sorts (state_of after_admission)); vm_compute; reflexivity.
Defined.
